(* ===== verification/_CoqProject ===== *)
-Q . S2P
Prelude.v
Float64.v
Chainhash.v
Vote.v
Wire.v
Hash.v
WireMsg.v
WireNet.v
WireNetSpec.v
Framing.v
FramingSpec.v
FramingSize.v
ScriptNum.v
Stack.v
Opcode.v
Script.v
ScriptBuilder.v
Merkle.v
BlockIndex.v
Signature.v
Field.v
FieldSpec.v
Primes.v
Secp256k1.v
CurveSpec.v
PubKeySpec.v
Compress.v
Engine.v
EngineSafety.v
EngineCache.v
PubKeyHash.v
Standard.v
Validate.v
Utxo.v
ScriptVal.v
ConnectBlock.v
ChainIO.v
ChainView.v
ChainQuery.v
Chain.v
ConnectChain.v
ChainInit.v
Restart.v
Policy.v
Mempool.v
MempoolInv.v
Genesis.v
Round.v
Miner.v
Treap.v
TreapSpec.v
TreapIter.v
Base58.v
Bech32.v
Bech32Spec.v
Address.v
AddressSpec.v
PrimeN.v
Ecdsa.v
Wif.v
TxHeap.v
Template.v
TemplateSpec.v
