(* ===== verification/Prelude.v ===== *)
(** * A verified model of drc

    drc is a block-chain node in Go, derived from btcd, in which blocks are
    chosen by voting instead of proof of work.  This library models its core in
    Rocq, function by function, and proves what makes it correct; where the
    code does not do what it means to do, the theorem says what it does instead.

    ** The program

    Time is cut into rounds of ten seconds.  A node signs the hash of the
    signature of the best candidate of the last round; the double hash of this
    signature is its weight.  If the weight is below a threshold that depends on
    the estimated size of the network (vote/util.go), the node proposes a
    candidate block (mining/cpuminer/cpuminer.go).  Candidates are checked
    (blockchain/validate.go, blockchain/process.go), collected in pools and
    relayed; a node votes by signing the hash of a candidate, and the weight of
    that signature decides whether it may (mining/cpuminer/vote.go,
    netsync/manager.go).  When the timer fires, the candidate with the most
    votes becomes the best candidate and the block of the previous round that
    most candidates point to is written to the chain (voteProcess in
    netsync/manager.go, ProcessBlock in blockchain/process.go).  Blocks,
    transactions, scripts, keys and their encodings are those of Bitcoin with a
    different block header.

    ** The library

    - [Prelude] (this file): results of Go functions (value, error or panic) with
      their bind, machine-width integers, bytes and little-endian numbers, the
      tactics [case_if], [bool_to_Z], [widths] and [go_inv].
    - [Float64]: the double arithmetic of the voting code, exact and rounded.
    - [Chainhash]: chaincfg/chainhash/hash.go.  [Hash]: hashfuncs.go over the
      class [HashFunctions], with an executable SHA-256 as instance.
    - [Vote]: vote/util.go, the thresholds, the size estimate, ticket pools.
    - [Wire]: wire/common.go, readers as [list byte -> result (A * list byte)],
      the class [Codec] with its law [LawfulCodec].
    - [WireMsg]: the headers, transactions, blocks, candidates, votes and
      synchronisation messages of wire/, as instances of [Codec].  [WireNet]: the
      messages inherited from Bitcoin, and [WireNetSpec], that they are read back.
      [Framing]: wire/message.go, the interface Message as a sum of the
      thirty-three messages and framed reading and writing; its theorems are in
      [FramingSpec] and [FramingSize].
    - [ScriptNum], [Stack], [Opcode], [Script]: txscript/scriptnum.go, stack.go,
      the tables of opcode.go, and script.go with hashcache.go: parsing, the
      standard forms, counting of signature operations, signature hashes.
    - [ScriptBuilder]: txscript/scriptbuilder.go and the pay-to-pubkey-hash
      script of standard.go.
    - [Merkle]: blockchain/merkle.go.  [BlockIndex]: blockchain/blockindex.go.
    - [Signature]: btcec/pubkey.go and btcec/signature.go over the class [Curve].
      [Field]: btcec/field.go, arithmetic modulo the prime of the curve in words
      of 26 bits; [FieldSpec]: that it is exact, and the calculus of magnitudes;
      [Primes]: a certificate that the modulus is prime.  [Secp256k1]:
      btcec/btcec.go, Jacobian arithmetic and scalar multiplication;
      [CurveSpec]: the group law it computes.  [PubKeySpec]: which strings are
      public keys.  [PrimeN]: a certificate that the order of the group is prime;
      [Ecdsa]: btcec/privkey.go and the signing and recovery of signature.go.
    - [Base58], [Bech32]: drcutil/base58 and drcutil/bech32, the latter with
      [Bech32Spec].  [Address]: drcutil/address.go, the registry of
      chaincfg/params.go and the address scripts of txscript/standard.go, with
      [AddressSpec].  [Wif]: drcutil/wif.go.
    - [Compress]: blockchain/compress.go.  [Utxo]: utxoviewpoint.go and the
      abstract ledger the views implement.  [ScriptVal]: scriptval.go, the pool of
      goroutines as a step relation.  [ConnectBlock]: the inputs, costs and locks
      of validate.go, weight.go and chain.go, and checkConnectBlock.  [ChainIO]:
      chainio.go, the buckets of the database.  [ChainView]: chainview.go.
      [ChainQuery]: the queries of chain.go by hash, height and locator.
      [ConnectChain]: connectBlock, disconnectBlock and connectBestChain of
      chain.go, which implement the class [Backend] of [Chain].  [ChainInit]:
      createChainState and initChainState of chainio.go; [Restart]: what the
      database keeps of a running node.
    - [Standard]: txscript/standard.go.  [Policy]: mempool/policy.go, error.go and
      mining/policy.go.  [Mempool]: mempool/mempool.go and its configuration in
      server.go; [MempoolInv] holds its theorems.
    - [Engine]: txscript/engine.go, sigcache.go and the opcode handlers of
      opcode.go.  Its theorems: [EngineSafety] (a small program logic, the
      invariant of the engine, termination and limits), [EngineCache] (the
      simulation that shows the signature cache transparent), [PubKeyHash]
      (pushes, and what spending a pay-to-pubkey-hash output takes).
    - [Validate]: blockchain/validate.go, the checks on transactions, headers,
      blocks and candidates and the subsidy.
    - [Chain]: the orphan pool and block processing of blockchain/chain.go,
      process.go and accept.go, over the class [Backend].
    - [Genesis]: the main network's block of chaincfg/genesis.go.
    - [Round]: the state shared by the handlers of netsync/manager.go,
      mining/cpuminer/vote.go and blockchain/process.go, and these handlers.
      [round_step] is the relation of what a node does, the submission of its
      own blocks included.
    - [Miner]: one iteration of generateBlocks in mining/cpuminer/cpuminer.go.
    - [TxHeap], [Template]: mining/mining.go, the priority queue over
      container/heap, NewBlockTemplate and what updates a template;
      [TemplateSpec] holds its theorems.
    - [Treap]: database/internal/treap, the ordered maps behind the database's
      transactions, as nodes and pointers in a store; [TreapSpec]: a represented tree,
      a zipper for the path, and the maps that both treaps implement; [TreapIter]:
      iterators.

    ** How the code is modelled

    A Go function that can fail is a function into [result E A]: [Ok], [Err]
    with the error code of the package, or [Panic] for a run-time panic (an
    index out of range, a nil dereference, a division by zero).  Package
    variables and receivers are records that functions take and return:
    [VoteVars] for vote/util.go, [RoundState] for the candidate pools and what
    goes with them, [BlockChain] for the fields of the chain that block
    processing changes, [Engine] for the script engine.  A Go map is a [gmap]; where
    the code iterates over one, the class [MapOrder] supplies an arbitrary
    order.  Integers are [Z] with the wrap-around of their Go type written out
    ([u16], [i32], ...); big.Int is [Z]; float64 is [Float64.float64].  Hashes
    and keys are lists of bytes whose length is an invariant.  What a handler
    sends is appended to an outbox.  Handlers run one at a time, so the mutexes
    are not modelled, except in [Miner], where the mutex is what matters.

    Outside the repository, and therefore parameters: SHA-256 ([HashFunctions],
    instantiated and tested against the genesis block), ECDSA verification
    ([Curve]) and signing ([NodeKey]; the hypotheses say that a signature has
    64 bytes and verifies under the node's own key), the order of map iteration
    ([MapOrder]; a permutation of the entries), the conversion of an
    out-of-range double ([Platform]), the hashes RIPEMD-160 and SHA-1
    ([ScriptHashes]), and the lower-casing of text outside ASCII (an argument of
    [DecodeAddress]).  The database behind a utxo view is the class [UtxoSource], math.Pow
    the class [MathPow], the order in which a view is flushed [OutPointOrder].  The
    storage and the selection of the best chain are the class [Backend] for
    [Chain], which [ConnectChain] implements.  Every class has a concrete
    instance, used by the witnesses.

    ** What is proved

    - The round ([Round]): the invariant of the pools over all sequences of
      messages, rounds and own blocks (with what the node's late votes break);
      the winner of a count and its independence from map order; the
      exact quorum; what it takes for a candidate to be accepted; what the end
      of a round does.  Among the flaws: crashes by one message, crashes without
      votes, rejection of all candidates after an empty round, dependence of the
      written block on map order, a crash by a vote that comes too late; in
      [Miner] the deadlock of a node that loses
      the lottery.
    - Encodings: round trips and canonicality for numbers, messages, scripts,
      script numbers, hashes, keys and signatures; memory safety of the
      signature parser.  Public keys, bech32 and base58 strings, addresses and
      wallet import strings are read exactly: what is accepted is what the
      encoder writes, listed exceptions apart; scripts and addresses agree.
    - Framing: reading accepts exactly the frames of the network, a connection
      never loses the boundary between messages, and the limits of the messages
      are wide enough for what their encoders accept.
    - Validation: transaction sanity as an equivalence, what accepted headers
      and candidates satisfy, the bound on the money supply, the merkle root
      against its recursive definition, ancestors and median time.
    - The orphan pool: its invariant and the termination of the release loop.
    - The ledger: checkConnectBlock simulates the step of an abstract ledger,
      disconnecting undoes it, connectBestChain is atomic and keeps database, view
      and snapshot in step, and with blocks that passed the sanity checks the
      coins never exceed the subsidies (blocks received for synchronisation skip
      these checks and can create money); the stored forms (quantities, outputs,
      journal) read back; script validation by goroutines
      does not depend on the schedule.  A node that is stopped and started again
      recovers its view, snapshot, index and statuses from the database.
    - Locators: the answer to a locator is exactly the part of the main chain that
      the asking node lacks, and it follows a block that node has.
    - The transaction pool: its invariant over all operations, what acceptance
      takes and which coins the fee and the scripts are checked against, what
      removal removes; the crash on transactions with a witness.
    - Block templates: the laws of the heap; the selection of transactions ends
      and follows the order of the queue; what a template contains, and that it
      repeats the transactions of the best candidate.
    - The curve: no word overflows in the field arithmetic and every operation is
      exact modulo the prime, inverses included; addition and doubling in Jacobian
      coordinates are the textbook group law whichever special case the code takes;
      scalar multiplication is double-and-add over signed digits that recombine to
      the scalar.
    - Treaps: the immutable one is a persistent map (older versions keep their
      contents although nodes are shared), the mutable one a map updated in place;
      iterators enumerate ranges in order and survive updates.  Deleting does not
      keep the heap order, and iterators forget one of their bounds.
    - The script engine: no script, flags or transaction makes it panic or run
      forever, and its limits hold at every step; a signature cache never
      changes a verdict; a pay-to-pubkey-hash output is only spent with a
      signature by a key with the right hash; the builder's pushes push their
      data; the stack operations move blocks as documented.

    ** Bounds and fuel

    [Script.parse_loop] takes the length of the script as fuel
    ([parse_loop_total]: never exhausted); [Chain.processOrphans_loop] twice the
    number of orphans plus one ([processOrphans_terminates]);
    [Template.select_loop] one more than the items ([selection_terminates_in_order]);
    [TxHeap.up] and [TxHeap.down] the length of the heap; the loops of
    [Treap] one more than the nodes of the store (a tree has no more nodes);
    [Merkle.ref_root], the reference definition, the number of leaves;
    [ScriptNum.encode_loop] eight steps, as an int64 has eight bytes.  The loop
    of [Engine.Execute] has fuel for 65536 steps ([execute_fuel]); an execution
    takes at most 30520, the opcodes of two scripts of 10000 bytes, a redeem
    script of 520 and a witness script of 10000 ([Execute_total],
    [engine_limits]).  [EngineSafety] bounds the items of a witness by 500000,
    the limit of the wire format, which keeps stack heights far below what an
    int32 holds.  All other recursion is structural.

    ** Not modelled

    The peer-to-peer server, RPC, the signing of scripts, reorganisation (which
    nothing calls), the database engine, fee estimation; they are listed with
    reasons beside this library.  Vendored third-party
    code (goleveldb, websocket, snappy-go, go-socks, btclog) is out of scope. *)

From Stdlib Require Export ZArith Lia Bool.
From Stdlib.Strings Require Export Byte.
From stdpp Require Export base option list gmap countable.
From Stdlib.Init Require Import Byte.

#[export] Set Default Goal Selector "!".
Open Scope Z_scope.

(** ** Results of Go functions

    A Go function either returns a value, returns a non-nil [error], or
    panics (index out of range, nil dereference, division by zero). *)
Inductive result (E A : Type) : Type :=
  | Ok (a : A)
  | Err (e : E)
  | Panic.
Arguments Ok {E A} a.
Arguments Err {E A} e.
Arguments Panic {E A}.

Definition rbind {E A B} (c : result E A) (k : A -> result E B) : result E B :=
  match c with
  | Ok a => k a
  | Err e => Err e
  | Panic => Panic
  end.

Declare Scope go_scope.
Delimit Scope go_scope with go.
Notation "'let*' p := c 'in' k" := (rbind c (fun x => match x with p => k end))
  (at level 10, p pattern, c at level 100, k at level 200) : go_scope.
Open Scope go_scope.

(** [is_ok r]: the call returned without error. *)
Definition is_ok {E A} (r : result E A) : bool :=
  match r with Ok _ => true | _ => false end.

Lemma Ok_inj {E A} (a b : A) : @Ok E A a = Ok b -> a = b.
Proof. by intros [=]. Qed.

Lemma rbind_Ok {E A B} (c : result E A) (k : A -> result E B) b :
  rbind c k = Ok b <-> exists a, c = Ok a /\ k a = Ok b.
Proof.
  destruct c; simpl; (split;
    [intros H; try discriminate H; eauto | intros (? & [=] & ?); by subst]).
Qed.

Lemma rbind_Err {E A B} (c : result E A) (k : A -> result E B) e :
  rbind c k = Err e <-> c = Err e \/ exists a, c = Ok a /\ k a = Err e.
Proof.
  destruct c; simpl; (split;
    [intros H; eauto; try discriminate H | intros [[=]|(? & [=] & ?)]; by subst]).
  left; congruence.
Qed.

Lemma rbind_Panic {E A B} (c : result E A) (k : A -> result E B) :
  rbind c k = Panic <-> c = Panic \/ exists a, c = Ok a /\ k a = Panic.
Proof.
  destruct c; simpl; (split;
    [intros H; eauto; try discriminate H | intros [[=]|(? & [=] & ?)]; by subst]).
Qed.

(** Take a chain of [rbind]s known to return [Ok] apart. *)
Ltac go_inv :=
  repeat match goal with
  | H : rbind _ _ = Ok _ |- _ =>
      let a := fresh "a" in let Ha := fresh "Ha" in
      apply rbind_Ok in H as (a & Ha & H)
  | H : Ok _ = Ok _ |- _ => injection H as H; try subst
  | H : Err _ = Ok _ |- _ => discriminate H
  | H : Panic = Ok _ |- _ => discriminate H
  | p : (_ * _)%type |- _ => destruct p
  end.

(** ** Machine integers

    A w-bit Go integer is a [Z]; each conversion or operation that can leave
    the range is followed by the wrap-around of its type. *)
Definition u8 (z : Z) : Z := z mod 2 ^ 8.
Definition u16 (z : Z) : Z := z mod 2 ^ 16.
Definition u32 (z : Z) : Z := z mod 2 ^ 32.
Definition u64 (z : Z) : Z := z mod 2 ^ 64.
Definition i32 (z : Z) : Z := (z + 2 ^ 31) mod 2 ^ 32 - 2 ^ 31.
Definition i64 (z : Z) : Z := (z + 2 ^ 63) mod 2 ^ 64 - 2 ^ 63.

Definition is_u8 (z : Z) : Prop := 0 <= z < 2 ^ 8.
Definition is_u16 (z : Z) : Prop := 0 <= z < 2 ^ 16.
Definition is_u32 (z : Z) : Prop := 0 <= z < 2 ^ 32.
Definition is_u64 (z : Z) : Prop := 0 <= z < 2 ^ 64.
Definition is_i32 (z : Z) : Prop := - 2 ^ 31 <= z < 2 ^ 31.
Definition is_i64 (z : Z) : Prop := - 2 ^ 63 <= z < 2 ^ 63.

(** Unfold the widths and let [lia] see the powers of two as numerals. *)
Ltac widths :=
  unfold is_u8, is_u16, is_u32, is_u64, is_i32, is_i64,
         u8, u16, u32, u64, i32, i64 in *;
  change (2 ^ 7) with 128 in *; change (2 ^ 8) with 256 in *;
  change (2 ^ 15) with 32768 in *; change (2 ^ 16) with 65536 in *;
  change (2 ^ 31) with 2147483648 in *; change (2 ^ 32) with 4294967296 in *;
  change (2 ^ 63) with 9223372036854775808 in *;
  change (2 ^ 64) with 18446744073709551616 in *.
Ltac width_lia := widths; Z.to_euclidean_division_equations; lia.

Lemma u8_range z : is_u8 (u8 z). Proof. width_lia. Qed.
Lemma u16_range z : is_u16 (u16 z). Proof. width_lia. Qed.
Lemma u32_range z : is_u32 (u32 z). Proof. width_lia. Qed.
Lemma u64_range z : is_u64 (u64 z). Proof. width_lia. Qed.
Lemma i32_range z : is_i32 (i32 z). Proof. width_lia. Qed.
Lemma i64_range z : is_i64 (i64 z). Proof. width_lia. Qed.
Lemma u8_small z : is_u8 z -> u8 z = z. Proof. intros; apply Z.mod_small; auto. Qed.
Lemma u16_small z : is_u16 z -> u16 z = z. Proof. intros; apply Z.mod_small; auto. Qed.
Lemma u32_small z : is_u32 z -> u32 z = z. Proof. intros; apply Z.mod_small; auto. Qed.
Lemma u64_small z : is_u64 z -> u64 z = z. Proof. intros; apply Z.mod_small; auto. Qed.
Lemma i32_small z : is_i32 z -> i32 z = z. Proof. intros; width_lia. Qed.
Lemma i64_small z : is_i64 z -> i64 z = z. Proof. intros; width_lia. Qed.

(** A signed value stored through its unsigned representation comes back. *)
Lemma i32_u32 z : is_i32 z -> i32 (u32 z) = z. Proof. intros; width_lia. Qed.
Lemma i64_u64 z : is_i64 z -> i64 (u64 z) = z. Proof. intros; width_lia. Qed.

Create HintDb drc.
Create Rewrite HintDb drc.
#[export] Hint Resolve u8_range u16_range u32_range u64_range i32_range i64_range : drc.
#[export] Hint Resolve u8_small u16_small u32_small u64_small i32_small i64_small : drc.
#[export] Hint Resolve i32_u32 i64_u64 : drc.

(** ** Bytes

    A Go [byte] is the standard library's [byte]; [byte_of_Z] is Go's
    conversion [byte(x)], which truncates. *)
#[export] Instance byte_eq_decision : EqDecision byte := Byte.byte_eq_dec.

#[export] Program Instance byte_countable : Countable byte :=
  inj_countable Byte.to_N Byte.of_N _.
Next Obligation. intros b. apply Byte.of_to_N. Qed.

Definition Z_of_byte (b : byte) : Z := Z.of_N (Byte.to_N b).
Definition byte_of_Z (z : Z) : byte :=
  match Byte.of_N (Z.to_N (u8 z)) with Some b => b | None => x00 end.
Coercion Z_of_byte : byte >-> Z.

Lemma Z_of_byte_range (b : byte) : is_u8 b.
Proof.
  unfold Z_of_byte. pose proof (Byte.to_N_bounded b). widths. lia.
Qed.

Lemma Z_of_byte_of_Z z : Z_of_byte (byte_of_Z z) = u8 z.
Proof.
  unfold byte_of_Z, Z_of_byte. pose proof (u8_range z).
  destruct (Byte.of_N (Z.to_N (u8 z))) as [b|] eqn:Hb.
  - apply Byte.to_of_N in Hb. rewrite Hb. widths. lia.
  - apply Byte.of_N_None_iff in Hb. widths. lia.
Qed.

Lemma byte_of_Z_of_byte (b : byte) : byte_of_Z b = b.
Proof.
  unfold byte_of_Z. rewrite u8_small by apply Z_of_byte_range.
  unfold Z_of_byte. by rewrite N2Z.id, Byte.of_to_N.
Qed.

Lemma Z_of_byte_inj (a b : byte) : Z_of_byte a = Z_of_byte b -> a = b.
Proof. intros H. rewrite <- (byte_of_Z_of_byte a), <- (byte_of_Z_of_byte b). by rewrite H. Qed.

(** All 256 bytes, for checks by enumeration. *)
Definition all_bytes : list byte := map (fun i => byte_of_Z (Z.of_nat i)) (seq 0 256).

Lemma in_all_bytes b : In b all_bytes.
Proof.
  apply in_map_iff. exists (Z.to_nat b). pose proof (Z_of_byte_range b) as Hb. widths.
  split; [rewrite Z2Nat.id by lia; apply byte_of_Z_of_byte|apply in_seq; lia].
Qed.

#[export] Hint Resolve Z_of_byte_range : drc.
#[export] Hint Rewrite Z_of_byte_of_Z byte_of_Z_of_byte : drc.

(** ** Fixed-width encodings: [encoding/binary] *)

(** [le_bytes n z]: the [n] low bytes of [z], least significant first
    ([binary.LittleEndian.PutUintN]). *)
Fixpoint le_bytes (n : nat) (z : Z) : list byte :=
  match n with
  | O => []
  | S n => byte_of_Z z :: le_bytes n (Z.shiftr z 8)
  end.

(** [le_value bs]: [binary.LittleEndian.UintN]. *)
Fixpoint le_value (bs : list byte) : Z :=
  match bs with
  | [] => 0
  | b :: bs => Z_of_byte b + 256 * le_value bs
  end.

(** [be_value bs]: the number [big.Int.SetBytes] reads from [bs]. *)
Definition be_value (bs : list byte) : Z := le_value (reverse bs).

Lemma length_le_bytes n z : length (le_bytes n z) = n.
Proof. revert z; induction n; simpl; auto. Qed.

Lemma le_value_range bs : 0 <= le_value bs < 2 ^ (8 * Z.of_nat (length bs)).
Proof.
  induction bs as [|b bs IH]; simpl le_value; [simpl; lia|].
  pose proof (Z_of_byte_range b). cbn [length].
  replace (8 * Z.of_nat (S (length bs))) with (8 + 8 * Z.of_nat (length bs)) by lia.
  rewrite Z.pow_add_r by lia. widths. lia.
Qed.

Lemma le_value_bytes n z : le_value (le_bytes n z) = z mod 2 ^ (8 * Z.of_nat n).
Proof.
  revert z; induction n as [|n IH]; intros z; simpl le_value; [by rewrite Z.mod_1_r|].
  rewrite IH, Z_of_byte_of_Z, Z.shiftr_div_pow2 by lia. unfold u8.
  replace (8 * Z.of_nat (S n)) with (8 + 8 * Z.of_nat n) by lia.
  rewrite Z.pow_add_r by lia. symmetry. apply Z.rem_mul_r; lia.
Qed.

Lemma le_bytes_value bs : le_bytes (length bs) (le_value bs) = bs.
Proof.
  induction bs as [|b bs IH]; [done|]. cbn [length le_bytes le_value].
  pose proof (Z_of_byte_range b). f_equal.
  - apply Z_of_byte_inj. rewrite Z_of_byte_of_Z. width_lia.
  - rewrite Z.shiftr_div_pow2 by lia.
    replace ((Z_of_byte b + 256 * le_value bs) / 2 ^ 8) with (le_value bs); [done|].
    width_lia.
Qed.

Lemma le_value_app a b :
  le_value (a ++ b) = le_value a + 2 ^ (8 * Z.of_nat (length a)) * le_value b.
Proof.
  induction a as [|x a IH]; cbn [app length le_value]; [lia|].
  rewrite IH. replace (8 * Z.of_nat (S (length a))) with (8 + 8 * Z.of_nat (length a)) by lia.
  rewrite Z.pow_add_r by lia. lia.
Qed.

#[export] Hint Rewrite length_le_bytes : drc.

(** ** Booleans of comparisons *)
Ltac bool_to_Z :=
  repeat match goal with
  | H : (_ && _)%bool = true |- _ => apply andb_true_iff in H as [? ?]
  | H : (_ || _)%bool = false |- _ => apply orb_false_iff in H as [? ?]
  | H : negb _ = true |- _ => apply negb_true_iff in H
  | H : negb _ = false |- _ => apply negb_false_iff in H
  | H : (_ =? _) = true |- _ => apply Z.eqb_eq in H
  | H : (_ =? _) = false |- _ => apply Z.eqb_neq in H
  | H : (_ <? _) = true |- _ => apply Z.ltb_lt in H
  | H : (_ <? _) = false |- _ => apply Z.ltb_ge in H
  | H : (_ <=? _) = true |- _ => apply Z.leb_le in H
  | H : (_ <=? _) = false |- _ => apply Z.leb_gt in H
  | H : (_ >? _) = _ |- _ => rewrite Z.gtb_ltb in H
  | H : (_ >=? _) = _ |- _ => rewrite Z.geb_leb in H
  end.

(** Case on the first boolean comparison that blocks an [if]. *)
Ltac case_if :=
  match goal with
  | |- context [if ?b then _ else _] =>
      let H := fresh "Hif" in destruct b eqn:H; bool_to_Z
  end.
