(* ===== verification/Float64.v ===== *)
(** * IEEE-754 doubles, as far as the voting code uses them

    [vote.mean] and [cpuminer.IsEnough] compute with Go's [float64].  A finite
    double is a dyadic number [mant * 2 ^ expo]; every operation is the exact
    rational result rounded to the nearest 53-bit mantissa, ties to even, which
    is what the Go specification (IEEE-754 [binary64]) prescribes.  The values
    that occur are zero or lie between [2 ^ -40] and [2 ^ 40], so overflow,
    infinities and subnormals are outside the model; the one operation that can
    produce a NaN, a division by zero, is left to the caller ([Vote.mean]). *)

From S2P Require Import Prelude.

Record float64 := F64 { mant : Z; expo : Z }.

(** The value of a double as a fraction [numer / denom]. *)
Definition numer (x : float64) : Z := mant x * 2 ^ Z.max (expo x) 0.
Definition denom (x : float64) : Z := 2 ^ Z.max (- expo x) 0.

(** Round [num / den] to an integer, ties to even. *)
Definition round_half_even (num den : Z) : Z :=
  let q := num / den in
  let r := num mod den in
  if 2 * r <? den then q
  else if den <? 2 * r then q + 1
  else if Z.even q then q else q + 1.

(** [a * 2 ^ -e / d] as a fraction. *)
Definition scaled_num (a e : Z) : Z := a * 2 ^ Z.max (- e) 0.
Definition scaled_den (d e : Z) : Z := d * 2 ^ Z.max e 0.

(** The exponent that puts [a / d * 2 ^ -e] into [[2 ^ 52, 2 ^ 53)]. *)
Definition exponent (a d : Z) : Z :=
  let e := Z.log2 a - Z.log2 d - 52 in
  if scaled_num a e / scaled_den d e <? 2 ^ 52 then e - 1 else e.

(** The double nearest to the rational [n / d], for [0 < d]. *)
Definition round_q (n d : Z) : float64 :=
  if n =? 0 then F64 0 0
  else
    let a := Z.abs n in
    let e := exponent a d in
    F64 (Z.sgn n * round_half_even (scaled_num a e) (scaled_den d e)) e.

(** [float64(z)] for an integer below [2 ^ 53] is exact; a larger one is
    rounded. *)
Definition of_int (z : Z) : float64 := F64 z 0.
Definition of_int64 (z : Z) : float64 := round_q z 1.

Definition fmul (x y : float64) : float64 := round_q (numer x * numer y) (denom x * denom y).
Definition fadd (x y : float64) : float64 :=
  round_q (numer x * denom y + numer y * denom x) (denom x * denom y).
Definition fsub (x y : float64) : float64 :=
  round_q (numer x * denom y - numer y * denom x) (denom x * denom y).
(** Division by a positive double. *)
Definition fdiv (x y : float64) : float64 := round_q (numer x * denom y) (denom x * numer y).
(** [x >= y] *)
Definition fge (x y : float64) : bool := numer y * denom x <=? numer x * denom y.
(** [math.Ceil], as the integer it denotes. *)
Definition fceil (x : float64) : Z := - (- numer x / denom x).

(** The ceiling of a fraction. *)
Definition cdiv (n d : Z) : Z := - (- n / d).

Lemma cdiv_spec n d c : 0 < d -> cdiv n d = c <-> (c - 1) * d < n <= c * d.
Proof. intros Hd. unfold cdiv. Z.to_euclidean_division_equations; nia. Qed.

Lemma denom_pos x : 0 < denom x.
Proof. unfold denom. apply Z.pow_pos_nonneg; lia. Qed.

Lemma fge_of_int z x : fge (of_int z) x = (fceil x <=? z).
Proof.
  unfold fge. unfold of_int at 1 2, numer at 2, denom at 1; simpl mant; simpl expo.
  change (2 ^ Z.max (- 0) 0) with 1. change (2 ^ Z.max 0 0) with 1.
  pose proof (denom_pos x).
  apply eq_iff_eq_true. rewrite !Z.leb_le.
  pose proof (proj1 (cdiv_spec (numer x) (denom x) _ H) eq_refl) as Hc.
  change (cdiv (numer x) (denom x)) with (fceil x) in Hc. nia.
Qed.

Lemma round_half_even_bounds n d :
  0 < d -> 0 <= n ->
  n / d <= round_half_even n d /\
  (round_half_even n d <= n / d \/ (round_half_even n d = n / d + 1 /\ 0 < n mod d)).
Proof.
  intros Hd Hn. unfold round_half_even. pose proof (Z.mod_pos_bound n d Hd).
  repeat case_if; lia.
Qed.

(** Rounding a fraction below [2 ^ 51] to a double does not move it across an
    integer, so the ceiling of the quotient is the exact ceiling. *)
Lemma fceil_round_q n d : 0 <= n < 2 ^ 51 -> 0 < d -> fceil (round_q n d) = cdiv n d.
Proof.
  intros Hn Hd. unfold round_q. case_if; [subst; unfold cdiv; by rewrite Z.div_0_l by lia|].
  rewrite Z.abs_eq, Z.sgn_pos, Z.mul_1_l by lia.
  set (e := exponent n d).
  assert (He : e <= Z.log2 n - Z.log2 d - 52) by (unfold e, exponent; case_if; lia).
  assert (Hlog : Z.log2 n < 51) by (apply Z.log2_lt_pow2; lia).
  pose proof (Z.log2_nonneg d).
  assert (HK : d <= 2 ^ (- e)).
  { pose proof (Z.log2_spec d Hd).
    transitivity (2 ^ Z.succ (Z.log2 d)); [lia|]. apply Z.pow_le_mono_r; lia. }
  unfold fceil. set (m := round_half_even _ _).
  change (cdiv (numer (F64 m e)) (denom (F64 m e)) = cdiv n d).
  pose proof (proj1 (cdiv_spec n d _ Hd) eq_refl) as Hc. set (c := cdiv n d) in *.
  apply cdiv_spec; [apply denom_pos|].
  unfold numer, denom, m, scaled_num, scaled_den; simpl mant; simpl expo.
  rewrite (Z.max_r e 0), (Z.max_l (- e) 0), Z.pow_0_r, !Z.mul_1_r by lia.
  set (K := 2 ^ (- e)) in *.
  destruct (round_half_even_bounds (n * K) d) as [Hlo Hhi]; [lia|nia|].
  Z.to_euclidean_division_equations. nia.
Qed.
