(* ===== verification/Chainhash.v ===== *)
(** * Hashes: chaincfg/chainhash

    [Hash], [Hash33] and [Hash64] are Go byte arrays of fixed size.  An array is
    the list of its bytes; its length is an invariant ([hash_ok] and friends)
    that the constructors [NewHash*] establish.  The file also models the
    hexadecimal rendering of a hash and its parser. *)

From S2P Require Import Prelude.

Definition HashSize : nat := 32.
Definition Hash33Size : nat := 33.
Definition Hash64Size : nat := 64.
Definition MaxHashStringSize : nat := HashSize * 2.

Abbreviation Hash := (list byte) (only parsing).
Abbreviation Hash33 := (list byte) (only parsing).
Abbreviation Hash64 := (list byte) (only parsing).

Definition hash_ok (h : Hash) : Prop := length h = HashSize.
Definition hash33_ok (h : Hash33) : Prop := length h = Hash33Size.
Definition hash64_ok (h : Hash64) : Prop := length h = Hash64Size.

(** The zero value [var h chainhash.Hash]. *)
Definition zero_hash : Hash := replicate HashSize x00.

Inductive hash_error :=
  | ErrHashLength (got want : nat)   (** "invalid hash length of %v, want %v" *)
  | ErrHashStrSize
  | ErrInvalidHexByte (b : byte).

Definition set_bytes (size : nat) (newHash : list byte) : result hash_error (list byte) :=
  if negb (length newHash =? size)%nat then Err (ErrHashLength (length newHash) size)
  else Ok newHash.

Definition NewHash := set_bytes HashSize.
Definition NewHash33 := set_bytes Hash33Size.
Definition NewHash64 := set_bytes Hash64Size.

(** ** Hexadecimal strings: encoding/hex *)

Definition hex_char (n : Z) : byte :=
  byte_of_Z (if n <? 10 then 48 + n else 87 + n).

Definition from_hex_char (c : byte) : option Z :=
  if (48 <=? c) && (c <=? 57) then Some (c - 48)
  else if (97 <=? c) && (c <=? 102) then Some (c - 97 + 10)
  else if (65 <=? c) && (c <=? 70) then Some (c - 65 + 10)
  else None.

Fixpoint hex_encode (bs : list byte) : list byte :=
  match bs with
  | [] => []
  | b :: bs => hex_char (Z.shiftr b 4) :: hex_char (Z.land b 15) :: hex_encode bs
  end.

(** [hex.Decode] on an even number of characters. *)
Fixpoint hex_decode (src : list byte) : result hash_error (list byte) :=
  match src with
  | a :: b :: src =>
      match from_hex_char a with
      | None => Err (ErrInvalidHexByte a)
      | Some x =>
          match from_hex_char b with
          | None => Err (ErrInvalidHexByte b)
          | Some y =>
              let* rest := hex_decode src in
              Ok (byte_of_Z (Z.lor (Z.shiftl x 4) y) :: rest)
          end
      end
  | _ => Ok []
  end.

(** [Hash.String] swaps byte [i] with byte [HashSize-1-i] for the first half,
    which reverses the array, and renders it in hexadecimal. *)
Definition String (h : Hash) : list byte := hex_encode (reverse h).

(** [Decode]: the result is written at the end of a zeroed array, which is then
    copied in reverse order. *)
Definition Decode (src : list byte) : result hash_error Hash :=
  if (MaxHashStringSize <? length src)%nat then Err ErrHashStrSize
  else
    let srcBytes := if Nat.even (length src) then src else byte_of_Z 48 :: src in
    let* decoded := hex_decode srcBytes in
    let reversedHash := replicate (HashSize - length decoded) x00 ++ decoded in
    Ok (reverse reversedHash).

Definition NewHashFromStr := Decode.

Lemma from_hex_char_hex_char n : 0 <= n < 16 -> from_hex_char (hex_char n) = Some n.
Proof.
  intros Hn. assert (Hall : forallb (fun k => bool_decide (from_hex_char (hex_char k) = Some k))
    (map Z.of_nat (seq 0 16)) = true) by reflexivity.
  rewrite forallb_forall in Hall. specialize (Hall n).
  apply bool_decide_eq_true in Hall; [done|].
  apply in_map_iff. exists (Z.to_nat n). rewrite in_seq. lia.
Qed.

Lemma byte_nibbles (b : byte) :
  0 <= Z.shiftr b 4 < 16 /\ 0 <= Z.land b 15 < 16 /\
  byte_of_Z (Z.lor (Z.shiftl (Z.shiftr b 4) 4) (Z.land b 15)) = b.
Proof. destruct b; vm_compute; repeat split; discriminate. Qed.

Lemma length_hex_encode bs : length (hex_encode bs) = (2 * length bs)%nat.
Proof. induction bs; simpl; lia. Qed.

Lemma hex_decode_encode bs : hex_decode (hex_encode bs) = Ok bs.
Proof.
  induction bs as [|b bs IH]; [done|]. cbn [hex_encode hex_decode].
  destruct (byte_nibbles b) as (? & ? & Hb).
  by rewrite !from_hex_char_hex_char, IH, <- Hb at 1 by done.
Qed.

Lemma hex_decode_length src bs :
  Nat.even (length src) = true -> hex_decode src = Ok bs -> length src = (2 * length bs)%nat.
Proof.
  revert bs. induction src as [src IH] using (induction_ltof1 _ length).
  intros bs Hev Hd. destruct src as [|a [|b src]]; simpl in *; try discriminate.
  - by injection Hd as <-.
  - destruct (from_hex_char a), (from_hex_char b); try discriminate.
    go_inv. rewrite (IH src) with (bs := a0); unfold ltof; simpl; auto; lia.
Qed.

(** Printing a hash and parsing the string gives the hash back. *)
Lemma Decode_String_ok h : hash_ok h -> Decode (String h) = Ok h.
Proof.
  unfold hash_ok, Decode, String. intros Hh.
  assert (Hl : length (hex_encode (reverse h)) = MaxHashStringSize)
    by by rewrite length_hex_encode, length_reverse, Hh.
  rewrite Hl. change (Nat.even MaxHashStringSize) with true. simpl.
  rewrite hex_decode_encode. simpl. rewrite length_reverse, Hh. simpl.
  by rewrite reverse_involutive.
Qed.

(** Whatever [Decode] accepts is a full-length hash. *)
Lemma Decode_length src h : Decode src = Ok h -> hash_ok h.
Proof.
  unfold Decode, hash_ok. destruct (_ <? _)%nat eqn:Hlen; [done|].
  apply Nat.ltb_ge in Hlen. unfold MaxHashStringSize in Hlen.
  intros Hd. go_inv. rewrite length_reverse, length_app, length_replicate.
  enough (length a <= HashSize)%nat by lia.
  destruct (Nat.even (length src)) eqn:Hev.
  - apply hex_decode_length in Ha; [unfold HashSize in *; lia|done].
  - apply hex_decode_length in Ha; [simpl in Ha|]; cycle 1.
    { change (Nat.even (S (length src)) = true). by rewrite Nat.even_succ, <- Nat.negb_even, Hev. }
    assert (length src <> HashSize * 2)%nat by (intros E; by rewrite E in Hev).
    unfold HashSize in *; lia.
Qed.

(** The order in which Go iterates over a map: any order of its entries. *)
Class MapOrder := {
  range : forall {A}, gmap Hash A -> list (Hash * A);
  range_perm : forall {A} (m : gmap Hash A), range m ≡ₚ map_to_list m
}.

(** One such order. *)
Definition list_order : MapOrder :=
  {| range A m := map_to_list m; range_perm A m := Permutation_refl _ |}.

(** ** Properties *)

(** hash strings: printing a hash in reversed hexadecimal and decoding the
    string gives the hash back, and whatever [Decode] accepts is a full hash. *)
Theorem Decode_String :
  (forall h, hash_ok h -> Decode (String h) = Ok h)
  /\ (forall src h, Decode src = Ok h -> hash_ok h).
Proof. split; [exact Decode_String_ok|exact Decode_length]. Qed.
