(* ===== verification/Vote.v ===== *)
(** * The voting parameters: vote/util.go

    Each round every node draws a pseudo-random 256-bit weight.  A node may
    propose a block when its weight is below [BlockVerge scale] and may vote
    when it is at most [VotesVerge scale], where [scale] is the estimate
    [EstimateScale] of the number of nodes in the network.  The file models
    these computations on the integers Go uses ([uint16], [big.Int], [float64])
    and the ticket pools. *)

From S2P Require Import Prelude Float64 Chainhash.

Definition IdealBlockNum : Z := 50.
Definition IdealVoteNum : Z := 300.
Definition PrevScaleNum : nat := 9.

(** What Go leaves to the implementation: the result of converting a double
    that is not in the range of [uint16] (a NaN in particular). *)
Class Platform := { float_to_uint16_undefined : Z }.

Record SignAndKey := mkSignAndKey { Signature : Hash64; PublicKey : Hash33 }.
#[export] Instance SignAndKey_eq_dec : EqDecision SignAndKey.
Proof. solve_decision. Defined.

Definition TicketPool := gmap Hash (list SignAndKey).

(** The package variables. *)
Record VoteVars := mkVoteVars {
  Work : bool;
  ticketPool : gmap Hash (list SignAndKey);
  prevTicketPool : gmap Hash (list SignAndKey);
  CurrentHeight : Z;
  StartHeight : Z;
  FirstBLockTime : Z;
  VoteBool : bool
}.

Section Vote.
Context `{Platform}.

(** ** Thresholds *)

Definition max256 : Z := 2 ^ 256.

(** [big.Int.Quo] truncates and panics on a zero divisor. *)
Definition VotesVerge {E} (scale : Z) : result E Z :=
  if scale =? 0 then Panic else Ok (Z.quot (max256 * IdealVoteNum) scale).

Definition BlockVerge {E} (scale : Z) : result E Z :=
  let* verge := VotesVerge scale in
  Ok (Z.quot (verge * IdealBlockNum) IdealVoteNum).

(** ** The estimate of the network size *)

Definition total (values : list Z) : Z :=
  fold_left (fun totalValue value => u16 (totalValue + value)) values 0.

(** [uint16(f)] of a double with an integral value. *)
Definition float_to_uint16 (z : Z) : Z :=
  if (0 <=? z) && (z <? 2 ^ 16) then z else float_to_uint16_undefined.

(** [0 / 0] is a NaN. *)
Definition mean (values : list Z) : Z :=
  let totalValue := total values in
  let len := Z.of_nat (length values) in
  if len =? 0 then float_to_uint16_undefined
  else float_to_uint16 (fceil (fdiv (of_int totalValue) (of_int len))).

Definition EstimateScale (prevVoteNums prevScales : list Z) : Z :=
  let meanScale := mean prevScales in
  let meanVoteNum := mean prevVoteNums in
  let meanScale := if meanScale =? 0 then 1 else meanScale in
  let meanVoteNum := if meanVoteNum =? 0 then 1 else meanVoteNum in
  if meanScale <=? IdealVoteNum then meanVoteNum
  else u16 (u32 (meanScale * meanVoteNum) / IdealVoteNum).

(** ** The ticket pools *)

Definition GetTicketPool (v : VoteVars) := ticketPool v.
Definition GetPrevTicketPool (v : VoteVars) := prevTicketPool v.

Definition SetTicketPool (pool : gmap Hash (list SignAndKey)) (v : VoteVars) : VoteVars :=
  mkVoteVars (Work v) pool (prevTicketPool v) (CurrentHeight v) (StartHeight v)
    (FirstBLockTime v) (VoteBool v).

(** As the source has it: the assignment goes to [ticketPool]. *)
Definition SetPrevTicketPool (pool : gmap Hash (list SignAndKey)) (v : VoteVars) : VoteVars :=
  mkVoteVars (Work v) pool (prevTicketPool v) (CurrentHeight v) (StartHeight v)
    (FirstBLockTime v) (VoteBool v).

(** The lookup of an absent key yields a nil slice, which [append] extends. *)
Definition UpdateTicketPool (hash : Hash) (signAndKey : SignAndKey) (v : VoteVars) : VoteVars :=
  let pool := GetTicketPool v in
  SetTicketPool (<[hash := default [] (pool !! hash) ++ [signAndKey]]> pool) v.

(** ** Lemmas *)

Lemma total_from values z :
  fold_left (fun totalValue value => u16 (totalValue + value)) values (u16 z)
  = u16 (z + foldr Z.add 0 values).
Proof.
  revert z. induction values as [|v values IH]; intros z; simpl; [by rewrite Z.add_0_r|].
  replace (u16 (u16 z + v)) with (u16 (z + v)) by (unfold u16; symmetry; apply Zplus_mod_idemp_l).
  rewrite IH. f_equal. lia.
Qed.

Lemma total_spec values : total values = u16 (foldr Z.add 0 values).
Proof. apply (total_from values 0). Qed.

Lemma fceil_int_div t l :
  0 <= t < 2 ^ 51 -> 0 < l -> fceil (fdiv (of_int t) (of_int l)) = cdiv t l.
Proof.
  intros. unfold fdiv, of_int, numer, denom; simpl mant; simpl expo.
  change (2 ^ Z.max (- 0) 0) with 1. change (2 ^ Z.max 0 0) with 1.
  rewrite !Z.mul_1_r, Z.mul_1_l. by apply fceil_round_q.
Qed.

Lemma mean_eq values :
  values <> [] -> mean values = cdiv (u16 (foldr Z.add 0 values)) (Z.of_nat (length values)).
Proof.
  intros Hne. unfold mean. rewrite total_spec.
  assert (0 < Z.of_nat (length values)) by (destruct values; simpl; [done|lia]).
  pose proof (u16_range (foldr Z.add 0 values)) as Hr.
  case_if; [lia|]. rewrite fceil_int_div by (widths; lia).
  set (s := u16 _) in *. set (l := Z.of_nat _) in *.
  pose proof (proj1 (cdiv_spec s l _ H0) eq_refl).
  unfold float_to_uint16. widths. case_if; [done|].
  exfalso. apply andb_false_iff in Hif0 as [?|?]; bool_to_Z; nia.
Qed.

Lemma mean_range values : values <> [] -> is_u16 (mean values).
Proof.
  intros Hne. rewrite mean_eq by done.
  assert (0 < Z.of_nat (length values)) by (destruct values; simpl; [done|lia]).
  pose proof (u16_range (foldr Z.add 0 values)).
  pose proof (proj1 (cdiv_spec _ _ _ H0) (eq_refl (cdiv (u16 (foldr Z.add 0 values)) (Z.of_nat (length values))))).
  widths. nia.
Qed.

Lemma VotesVerge_eq {E} scale :
  0 < scale -> VotesVerge (E := E) scale = Ok (max256 * 300 / scale).
Proof.
  intros. unfold VotesVerge. case_if; [lia|].
  rewrite Z.quot_div_nonneg; [done|unfold max256, IdealVoteNum; lia|lia].
Qed.

Lemma BlockVerge_eq {E} scale :
  0 < scale -> BlockVerge (E := E) scale = Ok (max256 * 50 / scale).
Proof.
  intros. unfold BlockVerge. rewrite VotesVerge_eq by done. unfold rbind, IdealBlockNum, IdealVoteNum.
  rewrite Z.quot_div_nonneg; [|apply Z.mul_nonneg_nonneg; [apply Z.div_pos; [unfold max256|]|]; lia|lia].
  f_equal. rewrite <- (Z.div_div _ 50 6), Z.div_mul, Z.div_div by lia.
  replace (max256 * 300) with (max256 * 50 * 6) by lia. by rewrite Z.div_mul_cancel_r by lia.
Qed.

Lemma BlockVerge_panic {E} scale : BlockVerge (E := E) scale = Panic <-> scale = 0.
Proof. unfold BlockVerge, VotesVerge. case_if; simpl; split; (done || lia). Qed.

Lemma EstimateScale_zero votes scales :
  votes <> [] -> scales <> [] ->
  EstimateScale votes scales = 0 <->
  300 < mean scales /\ (mean scales * Z.max 1 (mean votes) / 300) mod 2 ^ 16 = 0.
Proof.
  intros Hv%mean_range Hs%mean_range. unfold EstimateScale, IdealVoteNum.
  set (s := mean scales) in *. set (v := mean votes) in *. widths.
  replace (if v =? 0 then 1 else v) with (Z.max 1 v) by (case_if; lia).
  destruct (Z.eqb_spec s 0) as [->|]; [case_if; lia|].
  destruct (Z.leb_spec s 300); [lia|].
  unfold u32, u16. rewrite (Z.mod_small (s * _)) by nia. lia.
Qed.

End Vote.

(** ** Properties *)

(** the average of votes and scales: as long as the sum fits a uint16, the
    double computation of [mean] is the exact average rounded up. *)
Theorem mean_is_ceiling_average `{Platform} values :
  values <> [] -> Forall (fun v => 0 <= v) values -> foldr Z.add 0 values < 2 ^ 16 ->
  let n := Z.of_nat (length values) in
  (mean values - 1) * n < foldr Z.add 0 values <= mean values * n.
Proof.
  intros Hne Hnn Hs n. assert (0 < n) by (unfold n; destruct values; [done|simpl; lia]).
  assert (0 <= foldr Z.add 0 values) by (clear -Hnn; induction Hnn; simpl; lia).
  rewrite mean_eq, u16_small by (done || (widths; lia)). by apply cdiv_spec.
Qed.

Lemma mean_is_ceiling_average_witness :
  let _ := {| float_to_uint16_undefined := 0 |} in
  (mean [300; 301; 303] - 1) * 3 < 904 <= mean [300; 301; 303] * 3.
Proof.
  intros p. apply (@mean_is_ceiling_average p [300; 301; 303]); [discriminate| |reflexivity].
  repeat constructor; discriminate.
Defined.

(** the average goes wrong on networks the design aims at: ten blocks of
    7000 votes each average to 447, because the sum wraps in a uint16. *)
Theorem mean_wraps `{Platform} : mean (replicate 10 7000) = 447.
Proof. reflexivity. Qed.

(** the thresholds of the lottery: the fraction of the weights below
    [BlockVerge scale] is [50 / scale] and below [VotesVerge scale] it is
    [300 / scale], so that with at most 50 nodes everyone may propose a block
    and with at most 300 everyone may vote; a larger network never gets a
    larger threshold. *)
Theorem verge_shares {E} scale :
  0 < scale ->
  exists block vote, BlockVerge (E := E) scale = Ok block /\ VotesVerge (E := E) scale = Ok vote
    /\ block * scale <= 2 ^ 256 * 50 < (block + 1) * scale
    /\ vote * scale <= 2 ^ 256 * 300 < (vote + 1) * scale
    /\ (scale <= 50 -> 2 ^ 256 <= block) /\ (scale <= 300 -> 2 ^ 256 <= vote)
    /\ forall scale', scale <= scale' -> exists block' vote',
         BlockVerge (E := E) scale' = Ok block' /\ VotesVerge (E := E) scale' = Ok vote'
         /\ block' <= block /\ vote' <= vote.
Proof.
  intros Hs. exists (max256 * 50 / scale), (max256 * 300 / scale).
  assert (0 < max256) by done. fold max256.
  split; [by apply BlockVerge_eq|]. split; [by apply VotesVerge_eq|].
  assert (Hd : forall n, n / scale * scale <= n < (n / scale + 1) * scale).
  { intros n. pose proof (Z.mul_div_le n scale Hs). pose proof (Z.mul_succ_div_gt n scale Hs). lia. }
  split; [apply Hd|]. split; [apply Hd|].
  split; [intros; apply Z.div_le_lower_bound; nia|].
  split; [intros; apply Z.div_le_lower_bound; nia|].
  intros scale' Hle. exists (max256 * 50 / scale'), (max256 * 300 / scale').
  split; [apply BlockVerge_eq; lia|]. split; [apply VotesVerge_eq; lia|].
  split; apply Z.div_le_compat_l; lia.
Qed.

Lemma verge_shares_witness :
  exists block vote, BlockVerge (E := unit) 40 = Ok block /\ VotesVerge (E := unit) 40 = Ok vote.
Proof.
  destruct (verge_shares (E := unit) 40 eq_refl) as (b & v & Hb & Hv & _).
  exists b, v. split; [exact Hb|exact Hv].
Defined.

(** the estimate of the network size can wrap to zero, and the threshold of
    the lottery then divides by it.  This happens exactly when the mean scale
    exceeds 300 and the product of the means over 300 is a multiple of [2^16];
    600 votes at scale 32768 are such a case. *)
Theorem estimate_wraps_to_zero `{Platform} {E} :
  (forall votes scales, votes <> [] -> scales <> [] ->
     BlockVerge (E := E) (EstimateScale votes scales) = Panic <->
     300 < mean scales /\ (mean scales * Z.max 1 (mean votes) / 300) mod 2 ^ 16 = 0)
  /\ BlockVerge (E := E) (EstimateScale [600] [32768]) = Panic.
Proof.
  split; [|done]. intros votes scales Hv Hs. rewrite BlockVerge_panic.
  by apply EstimateScale_zero.
Qed.

(** [SetPrevTicketPool] overwrites the current ticket pool and leaves the
    previous one as it was. *)
Theorem SetPrevTicketPool_sets_current pool v :
  GetTicketPool (SetPrevTicketPool pool v) = pool
  /\ GetPrevTicketPool (SetPrevTicketPool pool v) = GetPrevTicketPool v.
Proof. done. Qed.
