(* ===== verification/Wire.v ===== *)
(** * The wire encoding primitives: wire/common.go

    A reader consumes a prefix of the remaining bytes; a writer appends to a
    buffer, so it is the list of the bytes it writes (writing to memory does
    not fail).  [readElement] and [writeElement] switch on the concrete Go type
    of their argument; that type is the value [elem] here.  The [Codec] class
    is what one message component promises to the messages that embed it. *)

From Stdlib Require Import String.
From S2P Require Import Prelude Chainhash.



(** ** Readers *)

Inductive wire_error :=
  | EOF                                  (** [io.EOF] *)
  | UnexpectedEOF                        (** [io.ErrUnexpectedEOF] *)
  | MessageError (func : string) (desc : string)
  | ErrInsaneCFHeaderCount.

Definition Reader (A : Type) : Type := list byte -> result wire_error (A * list byte).

Definition ret {A} (a : A) : Reader A := fun r => Ok (a, r).
Definition fail {A} (e : wire_error) : Reader A := fun _ => Err e.
Definition bind {A B} (c : Reader A) (k : A -> Reader B) : Reader B :=
  fun r => let* (a, r) := c r in k a r.
Definition messageError {A} (func desc : string) : Reader A := fail (MessageError func desc).

Notation "'let!' p := c 'in' k" := (bind c (fun x => match x with p => k end))
  (at level 10, p pattern, c at level 100, k at level 200) : go_scope.

(** [io.ReadFull] into a buffer of [n] bytes. *)
Definition ReadFull (n : nat) : Reader (list byte) := fun r =>
  if (n =? 0)%nat then Ok ([], r)
  else match r with
       | [] => Err EOF
       | _ => if (length r <? n)%nat then Err UnexpectedEOF else Ok (take n r, drop n r)
       end.

(** The loop [for i := uint64(0); i < count; i++] that reads [count] items. *)
Fixpoint read_n {A} (n : nat) (c : Reader A) : Reader (list A) :=
  match n with
  | O => ret []
  | S n => let! a := c in let! l := read_n n c in ret (a :: l)
  end.

(** ** binaryFreeList

    The free list only recycles scratch buffers, each of which is filled before
    it is used, so it is not part of the state. *)

Definition Uint8 : Reader Z := let! b := ReadFull 1 in ret (le_value b).
Definition Uint16 : Reader Z := let! b := ReadFull 2 in ret (le_value b).
Definition Uint32 : Reader Z := let! b := ReadFull 4 in ret (le_value b).
Definition Uint64 : Reader Z := let! b := ReadFull 8 in ret (le_value b).
Definition PutUint8 (val : Z) : list byte := le_bytes 1 val.
Definition PutUint16 (val : Z) : list byte := le_bytes 2 val.
Definition PutUint32 (val : Z) : list byte := le_bytes 4 val.
Definition PutUint64 (val : Z) : list byte := le_bytes 8 val.

(** ** Elements *)

Definition CommandSize : nat := 12.

(** The Go types [readElement] and [writeElement] handle.  [EInt8] is served by
    the [encoding/binary] fallback; a [time.Time] is its Unix time in seconds. *)
Inductive elem :=
  | EInt8 | EInt16 | EUint16 | EInt32 | EUint32 | EInt64 | EUint64 | EBool
  | EUint32Time | EInt64Time | EChecksum | ECommand | EIP
  | EHash | EHash64 | EHash33
  | EServiceFlag | EInvType | EBitcoinNet | EBloomUpdateType | ERejectCode.

Definition elem_ty (k : elem) : Type :=
  match k with
  | EBool => bool
  | EChecksum | ECommand | EIP | EHash | EHash64 | EHash33 => list byte
  | _ => Z
  end.

Definition i8 (z : Z) : Z := (z + 2 ^ 7) mod 2 ^ 8 - 2 ^ 7.
Definition i16 (z : Z) : Z := (z + 2 ^ 15) mod 2 ^ 16 - 2 ^ 15.

(** The values of the type. *)
Definition elem_ok (k : elem) : elem_ty k -> Prop :=
  match k with
  | EInt8 => fun z => - 2 ^ 7 <= z < 2 ^ 7
  | EInt16 => fun z => - 2 ^ 15 <= z < 2 ^ 15
  | EUint16 => is_u16
  | EInt32 => is_i32
  | EUint32 | EUint32Time | EInvType | EBitcoinNet => is_u32
  | EInt64 | EInt64Time => is_i64
  | EUint64 | EServiceFlag => is_u64
  | EBool => fun _ => True
  | EBloomUpdateType | ERejectCode => is_u8
  | EChecksum => fun b => length b = 4%nat
  | ECommand => fun b => length b = CommandSize
  | EIP => fun b => length b = 16%nat
  | EHash => hash_ok
  | EHash64 => hash64_ok
  | EHash33 => hash33_ok
  end.

Definition readElement (k : elem) : Reader (elem_ty k) :=
  match k with
  | EInt8 => let! rv := Uint8 in ret (i8 rv)
  | EInt16 => let! rv := Uint16 in ret (i16 rv)
  | EUint16 => Uint16
  | EInt32 => let! rv := Uint32 in ret (i32 rv)
  | EUint32 => Uint32
  | EInt64 => let! rv := Uint64 in ret (i64 rv)
  | EUint64 => Uint64
  | EBool => let! rv := Uint8 in ret (negb (rv =? 0))
  | EUint32Time => Uint32
  | EInt64Time => let! rv := Uint64 in ret (i64 rv)
  | EChecksum => ReadFull 4
  | ECommand => ReadFull CommandSize
  | EIP => ReadFull 16
  | EHash => ReadFull HashSize
  | EHash64 => ReadFull Hash64Size
  | EHash33 => ReadFull Hash33Size
  | EServiceFlag => Uint64
  | EInvType | EBitcoinNet => Uint32
  | EBloomUpdateType | ERejectCode => Uint8
  end.

Definition writeElement (k : elem) : elem_ty k -> list byte :=
  match k with
  | EInt8 => fun e => PutUint8 (u8 e)
  | EInt16 => fun e => PutUint16 (u16 e)
  | EUint16 => PutUint16
  | EInt32 => fun e => PutUint32 (u32 e)
  | EUint32 => PutUint32
  | EInt64 => fun e => PutUint64 (u64 e)
  | EUint64 => PutUint64
  | EBool => fun e => if e then PutUint8 1 else PutUint8 0
  | EUint32Time => fun e => PutUint32 (u32 e)
  | EInt64Time => fun e => PutUint64 (u64 e)
  | EChecksum | ECommand | EIP | EHash | EHash64 | EHash33 => fun e => e
  | EServiceFlag => PutUint64
  | EInvType | EBitcoinNet => PutUint32
  | EBloomUpdateType | ERejectCode => PutUint8
  end.

(** ** Variable length integers *)

Definition ReadVarInt : Reader Z :=
  let! discriminant := Uint8 in
  if discriminant =? 0xff then
    let! rv := Uint64 in
    if rv <? 0x100000000 then messageError "ReadVarInt" "non-canonical varint" else ret rv
  else if discriminant =? 0xfe then
    let! rv := Uint32 in
    if rv <? 0x10000 then messageError "ReadVarInt" "non-canonical varint" else ret rv
  else if discriminant =? 0xfd then
    let! rv := Uint16 in
    if rv <? 0xfd then messageError "ReadVarInt" "non-canonical varint" else ret rv
  else ret discriminant.

Definition WriteVarInt (val : Z) : list byte :=
  if val <? 0xfd then PutUint8 val
  else if val <=? 2 ^ 16 - 1 then PutUint8 0xfd ++ PutUint16 val
  else if val <=? 2 ^ 32 - 1 then PutUint8 0xfe ++ PutUint32 val
  else PutUint8 0xff ++ PutUint64 val.

Definition VarIntSerializeSize (val : Z) : Z :=
  if val <? 0xfd then 1
  else if val <=? 2 ^ 16 - 1 then 3
  else if val <=? 2 ^ 32 - 1 then 5
  else 9.

(** ** Variable length strings and byte arrays *)

Definition MaxMessagePayload : Z := 1024 * 1024 * 32.

Definition ReadVarString : Reader (list byte) :=
  let! count := ReadVarInt in
  if MaxMessagePayload <? count
  then messageError "ReadVarString" "variable length string is too long"
  else ReadFull (Z.to_nat count).

Definition WriteVarString (str : list byte) : list byte :=
  WriteVarInt (Z.of_nat (length str)) ++ str.

Definition ReadVarBytes (maxAllowed : Z) (fieldName : string) : Reader (list byte) :=
  let! count := ReadVarInt in
  if maxAllowed <? count
  then messageError "ReadVarBytes" (fieldName ++ " is larger than the max allowed size")%string
  else ReadFull (Z.to_nat count).

Definition WriteVarBytes (bytes : list byte) : list byte :=
  WriteVarInt (Z.of_nat (length bytes)) ++ bytes.

(** ** The interface between message components *)

Class Codec (A : Type) := {
  codec_write : A -> list byte;
  codec_read : Reader A;
  codec_ok : A -> Prop
}.

Class LawfulCodec (A : Type) `{Codec A} := {
  codec_read_write a rest :
    codec_ok a -> codec_read (codec_write a ++ rest) = Ok (a, rest)
}.

(** ** Reading back what was written *)

Lemma bind_Ok {A B} (c : Reader A) (k : A -> Reader B) r a r' :
  c r = Ok (a, r') -> bind c k r = k a r'.
Proof. intros H. unfold bind. by rewrite H. Qed.

Lemma ReadFull_app n bs rest : length bs = n -> ReadFull n (bs ++ rest) = Ok (bs, rest).
Proof.
  intros <-. unfold ReadFull. destruct bs as [|b bs]; [done|].
  cbn [length Nat.eqb app]. rewrite (proj2 (Nat.ltb_ge _ _)) by (cbn [length]; rewrite length_app; lia).
  change (b :: bs ++ rest) with ((b :: bs) ++ rest).
  change (S (length bs)) with (length (b :: bs)).
  by rewrite take_app_length, drop_app_length.
Qed.

Lemma ReadFull_le n z rest :
  (let! b := ReadFull n in ret (le_value b)) (le_bytes n z ++ rest)
  = Ok (z mod 2 ^ (8 * Z.of_nat n), rest).
Proof.
  erewrite bind_Ok by (apply ReadFull_app, length_le_bytes).
  unfold ret. by rewrite le_value_bytes.
Qed.

Lemma Uint8_Put z rest : is_u8 z -> Uint8 (PutUint8 z ++ rest) = Ok (z, rest).
Proof. intros. unfold Uint8, PutUint8. rewrite ReadFull_le. by rewrite Z.mod_small. Qed.
Lemma Uint16_Put z rest : is_u16 z -> Uint16 (PutUint16 z ++ rest) = Ok (z, rest).
Proof. intros. unfold Uint16, PutUint16. rewrite ReadFull_le. by rewrite Z.mod_small. Qed.
Lemma Uint32_Put z rest : is_u32 z -> Uint32 (PutUint32 z ++ rest) = Ok (z, rest).
Proof. intros. unfold Uint32, PutUint32. rewrite ReadFull_le. by rewrite Z.mod_small. Qed.
Lemma Uint64_Put z rest : is_u64 z -> Uint64 (PutUint64 z ++ rest) = Ok (z, rest).
Proof. intros. unfold Uint64, PutUint64. rewrite ReadFull_le. by rewrite Z.mod_small. Qed.

Create HintDb wire.
Create Rewrite HintDb wire.
#[export] Hint Resolve Uint8_Put Uint16_Put Uint32_Put Uint64_Put : wire.
#[export] Hint Resolve u8_range u16_range u32_range u64_range : wire.

(** Run the first reader of a sequence on the bytes its writer put in front. *)
Ltac read_step :=
  rewrite <- ?(assoc_L (++)); erewrite bind_Ok by (solve [eauto with wire nocore]); cbv beta.

#[export] Hint Resolve ReadFull_app : wire.

(** Run a whole sequence of readers. *)
Ltac read_seq := repeat read_step; unfold ret.

Lemma readElement_write k e rest :
  elem_ok k e -> readElement k (writeElement k e ++ rest) = Ok (e, rest).
Proof.
  destruct k; cbn [readElement writeElement elem_ok elem_ty]; intros Hok;
    try (by apply ReadFull_app);
    try (solve [eauto with wire nocore]);
    try (read_step; unfold ret; repeat f_equal; unfold i8, i16; width_lia).
  - destruct e; (erewrite bind_Ok by (apply Uint8_Put; widths; lia)); done.
  - rewrite u32_small by done. by apply Uint32_Put.
Qed.

Lemma ReadVarInt_write v rest : is_u64 v -> ReadVarInt (WriteVarInt v ++ rest) = Ok (v, rest).
Proof.
  intros Hv. unfold ReadVarInt, WriteVarInt.
  repeat case_if; rewrite <- ?(assoc_L (++));
    (erewrite bind_Ok by (apply Uint8_Put; widths; lia)); cbn [Z.eqb Pos.eqb]; unfold ret.
  - repeat case_if; done || lia.
  - erewrite bind_Ok by (apply Uint16_Put; widths; lia). by case_if; [lia|].
  - erewrite bind_Ok by (apply Uint32_Put; widths; lia). by case_if; [widths; lia|].
  - erewrite bind_Ok by (apply Uint64_Put; done). by case_if; [widths; lia|].
Qed.

Lemma length_WriteVarInt v : Z.of_nat (length (WriteVarInt v)) = VarIntSerializeSize v.
Proof. unfold WriteVarInt, VarIntSerializeSize. by repeat case_if. Qed.

#[export] Hint Resolve ReadVarInt_write readElement_write : wire.

Lemma length_is_u64 {A} (l : list A) m :
  Z.of_nat (length l) <= m -> m < 2 ^ 64 -> is_u64 (Z.of_nat (length l)).
Proof. widths. lia. Qed.

Lemma ReadVarString_write s rest :
  Z.of_nat (length s) <= MaxMessagePayload ->
  ReadVarString (WriteVarString s ++ rest) = Ok (s, rest).
Proof.
  intros Hs. unfold ReadVarString, WriteVarString. rewrite <- (assoc_L (++)).
  erewrite bind_Ok by (apply ReadVarInt_write; eapply length_is_u64; [exact Hs|done]).
  case_if; [lia|]. apply ReadFull_app. lia.
Qed.

Lemma ReadVarBytes_write m f s rest :
  Z.of_nat (length s) <= m -> is_u32 m ->
  ReadVarBytes m f (WriteVarBytes s ++ rest) = Ok (s, rest).
Proof.
  intros Hs Hm. unfold ReadVarBytes, WriteVarBytes. rewrite <- (assoc_L (++)).
  erewrite bind_Ok by (apply ReadVarInt_write; eapply length_is_u64; [exact Hs|widths; lia]).
  case_if; [lia|]. apply ReadFull_app. lia.
Qed.

(** ** What a successful read says about the input *)

Lemma bind_inv {A B} (c : Reader A) (k : A -> Reader B) r b rest :
  bind c k r = Ok (b, rest) -> exists a r', c r = Ok (a, r') /\ k a r' = Ok (b, rest).
Proof. unfold bind. intros H. go_inv. eauto. Qed.

Lemma ReadFull_inv n r bs rest :
  ReadFull n r = Ok (bs, rest) -> r = bs ++ rest /\ length bs = n.
Proof.
  unfold ReadFull. destruct (n =? 0)%nat eqn:Hn.
  - intros [= <- <-]. apply Nat.eqb_eq in Hn. by subst.
  - destruct r as [|b r]; [done|]. destruct (_ <? n)%nat eqn:Hlt; [done|].
    apply Nat.ltb_ge in Hlt. intros [= <- <-]. rewrite take_drop. split; [done|].
    rewrite length_take. lia.
Qed.

Lemma read_le_inv n r v rest :
  (let! b := ReadFull n in ret (le_value b)) r = Ok (v, rest) ->
  r = le_bytes n v ++ rest /\ 0 <= v < 2 ^ (8 * Z.of_nat n).
Proof.
  intros H. apply bind_inv in H as (bs & r' & Hbs & Hret).
  injection Hret as <- <-. apply ReadFull_inv in Hbs as [-> <-].
  rewrite le_bytes_value. auto using le_value_range.
Qed.

(** Every value has exactly one accepted encoding: whatever [ReadVarInt]
    consumed is what [WriteVarInt] would have produced. *)
Lemma ReadVarInt_inv r v rest :
  ReadVarInt r = Ok (v, rest) -> r = WriteVarInt v ++ rest /\ is_u64 v.
Proof.
  unfold ReadVarInt. intros H. apply bind_inv in H as (d & r' & Hd & H).
  apply read_le_inv in Hd as [-> Hd]. change (2 ^ (8 * Z.of_nat 1)) with 256 in Hd.
  unfold WriteVarInt.
  repeat match type of H with
  | (if ?b then _ else _) _ = _ => destruct b eqn:?; bool_to_Z
  end.
  1-3: apply bind_inv in H as (w & r'' & Hw & H);
       match type of H with (if ?b then _ else _) _ = _ => destruct b eqn:?; bool_to_Z end;
       [done|]; injection H as <- <-; apply read_le_inv in Hw as [-> Hw];
       subst d; repeat case_if; rewrite <- ?(assoc_L (++));
       try (split; [done|]); simpl in Hw; widths; lia.
  injection H as <- <-. repeat case_if; try (split; [done|]); widths; lia.
Qed.

#[global] Arguments readElement : simpl never.
#[global] Arguments writeElement : simpl never.
#[global] Arguments PutUint8 : simpl never.
#[global] Arguments PutUint16 : simpl never.
#[global] Arguments PutUint32 : simpl never.
#[global] Arguments PutUint64 : simpl never.
#[global] Arguments WriteVarInt : simpl never.
#[global] Arguments WriteVarBytes : simpl never.
#[global] Arguments ReadVarInt : simpl never.
#[global] Arguments ReadFull : simpl never.
#[global] Arguments bind : simpl never.

(** ** Properties *)

(** variable-length integers have one encoding each: [ReadVarInt] accepts
    exactly the bytes [WriteVarInt] writes for the value it returns, for every
    64-bit value, and leaves the rest of the stream. *)
Theorem ReadVarInt_canonical r v rest :
  ReadVarInt r = Ok (v, rest) <-> is_u64 v /\ r = WriteVarInt v ++ rest.
Proof.
  split; [by intros [-> ?]%ReadVarInt_inv|]. intros [Hv ->]. by apply ReadVarInt_write.
Qed.

(** every primitive the messages are made of survives the wire: reading
    what [writeElement] wrote for a value in range gives the value back and
    consumes exactly those bytes. *)
Theorem readElement_writeElement k e rest :
  elem_ok k e -> readElement k (writeElement k e ++ rest) = Ok (e, rest).
Proof. apply readElement_write. Qed.

Lemma readElement_writeElement_witness :
  elem_ok EInt32 (-5) /\ readElement EInt32 (writeElement EInt32 (-5) ++ []) = Ok (-5, []).
Proof.
  assert (Hok : elem_ok EInt32 (-5)) by (split; [discriminate|reflexivity]).
  split; [exact Hok|]. exact (readElement_writeElement EInt32 (-5) [] Hok).
Defined.
