(* ===== verification/Hash.v ===== *)
(** * SHA-256 and the double hash: chaincfg/chainhash/hashfuncs.go

    The identity of a block, a transaction and a lottery draw is the double
    SHA-256 of some bytes.  The development is written against the interface
    [HashFunctions]; the instance is an executable SHA-256 ([crypto/sha256]), so
    that hashes of concrete data can be computed. *)

From S2P Require Import Prelude Chainhash.

Class HashFunctions := {
  Sum256 : list byte -> list byte;
  Sum256_length bs : length (Sum256 bs) = HashSize
}.

Section Hashes.
Context `{HashFunctions}.

Definition HashB (b : list byte) : list byte := Sum256 b.
Definition HashH (b : list byte) : Hash := Sum256 b.
Definition DoubleHashB (b : list byte) : list byte := Sum256 (Sum256 b).
Definition DoubleHashH (b : list byte) : Hash := Sum256 (Sum256 b).

Lemma DoubleHashH_ok b : hash_ok (DoubleHashH b).
Proof. apply Sum256_length. Qed.

(** The lottery weight [new(big.Int).SetBytes(chainhash.DoubleHashB(sig))]. *)
Definition sig_weight (sig : list byte) : Z := be_value (DoubleHashB sig).

Lemma sig_weight_range sig : 0 <= sig_weight sig < 2 ^ 256.
Proof.
  unfold sig_weight, be_value. pose proof (le_value_range (reverse (DoubleHashB sig))) as Hr.
  unfold DoubleHashB in *. by rewrite length_reverse, Sum256_length in Hr.
Qed.

End Hashes.

(** ** crypto/sha256 *)
Module SHA256.

(** Eight 32-bit words of a 256-bit row, first word first. *)
Definition row_words (row : Z) : list Z :=
  map (fun i => u32 (Z.shiftr row (32 * i))) [7; 6; 5; 4; 3; 2; 1; 0].

(** The round constants, eight to a row. *)
Definition K : list Z := concat (map row_words [
  0x428a2f9871374491b5c0fbcfe9b5dba53956c25b59f111f1923f82a4ab1c5ed5;
  0xd807aa9812835b01243185be550c7dc372be5d7480deb1fe9bdc06a7c19bf174;
  0xe49b69c1efbe47860fc19dc6240ca1cc2de92c6f4a7484aa5cb0a9dc76f988da;
  0x983e5152a831c66db00327c8bf597fc7c6e00bf3d5a7914706ca635114292967;
  0x27b70a852e1b21384d2c6dfc53380d13650a7354766a0abb81c2c92e92722c85;
  0xa2bfe8a1a81a664bc24b8b70c76c51a3d192e819d6990624f40e3585106aa070;
  0x19a4c1161e376c082748774c34b0bcb5391c0cb34ed8aa4a5b9cca4f682e6ff3;
  0x748f82ee78a5636f84c878148cc7020890befffaa4506cebbef9a3f7c67178f2]).
Definition H0 : list Z :=
  row_words 0x6a09e667bb67ae853c6ef372a54ff53a510e527f9b05688c1f83d9ab5be0cd19.

Definition rotr (x n : Z) : Z := Z.lor (Z.shiftr x n) (u32 (Z.shiftl x (32 - n))).
Definition ch (x y z : Z) : Z := Z.lxor (Z.land x y) (Z.land (Z.lxor x (2 ^ 32 - 1)) z).
Definition maj (x y z : Z) : Z := Z.lxor (Z.lxor (Z.land x y) (Z.land x z)) (Z.land y z).
Definition bsig0 (x : Z) : Z := Z.lxor (Z.lxor (rotr x 2) (rotr x 13)) (rotr x 22).
Definition bsig1 (x : Z) : Z := Z.lxor (Z.lxor (rotr x 6) (rotr x 11)) (rotr x 25).
Definition ssig0 (x : Z) : Z := Z.lxor (Z.lxor (rotr x 7) (rotr x 18)) (Z.shiftr x 3).
Definition ssig1 (x : Z) : Z := Z.lxor (Z.lxor (rotr x 17) (rotr x 19)) (Z.shiftr x 10).

Definition be_bytes (n : nat) (z : Z) : list byte := reverse (le_bytes n z).

(** [bs ++ 0x80 ++ zeros ++ bit length], a multiple of 64 bytes. *)
Definition pad (bs : list byte) : list byte :=
  let len := Z.of_nat (length bs) in
  bs ++ [x80] ++ replicate (Z.to_nat ((55 - len) mod 64)) x00 ++ be_bytes 8 (8 * len).

Fixpoint words (n : nat) (bs : list byte) : list Z :=
  match n with
  | O => []
  | S n => be_value (take 4 bs) :: words n (drop 4 bs)
  end.

(** One round per message word; the window holds the last sixteen words, the
    schedule continues after it. *)
Fixpoint rounds (ks : list Z) (w : list Z) (s : list Z) : list Z :=
  match ks, w, s with
  | k :: ks, w0 :: w', [a; b; c; d; e; f; g; h] =>
      let t1 := h + bsig1 e + ch e f g + k + w0 in
      let t2 := bsig0 a + maj a b c in
      let next := u32 (ssig1 (nth 13 w' 0) + nth 8 w' 0 + ssig0 (nth 0 w' 0) + w0) in
      rounds ks (w' ++ [next]) [u32 (t1 + t2); a; b; c; u32 (d + t1); e; f; g]
  | _, _, _ => s
  end.

Definition block (h : list Z) (bs : list byte) : list Z :=
  zip_with (fun a b => u32 (a + b)) h (rounds K (words 16 bs) h).

Fixpoint blocks (n : nat) (h : list Z) (bs : list byte) : list Z :=
  match n with
  | O => h
  | S n => blocks n (block h (take 64 bs)) (drop 64 bs)
  end.

Definition sum256 (bs : list byte) : list byte :=
  let p := pad bs in
  concat (map (be_bytes 4) (blocks (length p / 64) H0 p)).

Lemma length_rounds ks w s : length s = 8%nat -> length (rounds ks w s) = 8%nat.
Proof.
  revert w s. induction ks as [|k ks IH]; intros w s Hs; [done|].
  destruct w as [|w0 w]; [done|]. do 8 (destruct s as [|? s]; [done|]).
  destruct s; [|done]. simpl. by apply IH.
Qed.

Lemma length_blocks n h bs : length h = 8%nat -> length (blocks n h bs) = 8%nat.
Proof.
  revert h bs. induction n as [|n IH]; intros h bs Hh; [done|]. simpl. apply IH.
  unfold block. rewrite length_zip_with, length_rounds by done. lia.
Qed.

Lemma length_sum256 bs : length (sum256 bs) = HashSize.
Proof.
  unfold sum256. set (h := blocks _ _ _).
  assert (Hh : length h = 8%nat) by by apply length_blocks.
  do 8 (destruct h as [|? h]; [done|]). destruct h; [|done].
  cbn [map concat]. rewrite !length_app. unfold be_bytes.
  by rewrite !length_reverse, !length_le_bytes.
Qed.

End SHA256.

#[export] Instance sha256_hash_functions : HashFunctions := {
  Sum256 := SHA256.sum256;
  Sum256_length := SHA256.length_sum256
}.

(** FIPS 180-4: the digest of "abc". *)
Example sum256_abc :
  hex_encode (SHA256.sum256 [x61; x62; x63]) =
  hex_encode (SHA256.be_bytes 32
    0xba7816bf8f01cfea414140de5dae2223b00361a396177a9cb410ff61f20015ad).
Proof. vm_compute. reflexivity. Qed.

(** A second, trivial instance for concrete checks that need no real hash:
    the first 32 bytes of the input, padded with zeros. *)
Definition prefix_sum (bs : list byte) : list byte := take HashSize (bs ++ replicate HashSize x00).

Lemma length_prefix_sum bs : length (prefix_sum bs) = HashSize.
Proof. unfold prefix_sum. rewrite length_take, length_app, length_replicate. lia. Qed.

Definition prefix_hash_functions : HashFunctions :=
  {| Sum256 := prefix_sum; Sum256_length := length_prefix_sum |}.
