(* ===== verification/WireMsg.v ===== *)
(** * Block headers, transactions, blocks and the voting messages

    wire/blockheader.go, wire/msgtx.go, wire/msgblock.go, wire/msgcandidate.go,
    wire/msgsign.go, wire/msggetblock.go, wire/msgsyncblock.go and
    wire/invvect.go.  The protocol version is only used by messages outside this
    file, so the codecs do not take it.  A [time.Time] is its Unix time. *)

From Stdlib Require Import String.
From S2P Require Import Prelude Chainhash Hash Wire.

Inductive MessageEncoding := BaseEncoding | WitnessEncoding.
#[export] Instance MessageEncoding_eq_dec : EqDecision MessageEncoding.
Proof. solve_decision. Defined.

(** ** Block headers: wire/blockheader.go *)

Record BlockHeader := mkBlockHeader {
  bh_Version : Z;        (** int32 *)
  bh_PrevBlock : Hash;
  bh_MerkleRoot : Hash;
  bh_Timestamp : Z;
  bh_Signature : Hash64;
  bh_PublicKey : Hash33;
  bh_Scale : Z;          (** uint16 *)
  bh_Reserved : Z        (** uint16 *)
}.
#[export] Instance BlockHeader_eq_dec : EqDecision BlockHeader.
Proof. solve_decision. Defined.

Definition blockHeaderLen : Z := 173.

Definition readBlockHeader : Reader BlockHeader :=
  let! version := readElement EInt32 in
  let! prev := readElement EHash in
  let! root := readElement EHash in
  let! time := readElement EUint32Time in
  let! sig := readElement EHash64 in
  let! key := readElement EHash33 in
  let! scale := readElement EUint16 in
  let! reserved := readElement EUint16 in
  ret (mkBlockHeader version prev root time sig key scale reserved).

Definition writeBlockHeader (bh : BlockHeader) : list byte :=
  let sec := u32 (bh_Timestamp bh) in
  writeElement EInt32 (bh_Version bh) ++ writeElement EHash (bh_PrevBlock bh) ++
  writeElement EHash (bh_MerkleRoot bh) ++ writeElement EUint32 sec ++
  writeElement EHash64 (bh_Signature bh) ++ writeElement EHash33 (bh_PublicKey bh) ++
  writeElement EUint16 (bh_Scale bh) ++ writeElement EUint16 (bh_Reserved bh).

Definition BlockHash `{HashFunctions} (bh : BlockHeader) : Hash :=
  DoubleHashH (writeBlockHeader bh).

(** The field values the Go types allow; the timestamp must fit the uint32 of
    the encoding. *)
Record header_ok (bh : BlockHeader) : Prop := {
  hok_version : is_i32 (bh_Version bh);
  hok_prev : hash_ok (bh_PrevBlock bh);
  hok_root : hash_ok (bh_MerkleRoot bh);
  hok_time : is_u32 (bh_Timestamp bh);
  hok_sig : hash64_ok (bh_Signature bh);
  hok_key : hash33_ok (bh_PublicKey bh);
  hok_scale : is_u16 (bh_Scale bh);
  hok_reserved : is_u16 (bh_Reserved bh)
}.

(** ** Transactions: wire/msgtx.go *)

Record OutPoint := mkOutPoint { op_Hash : Hash; op_Index : Z }.
Record TxIn := mkTxIn {
  ti_PreviousOutPoint : OutPoint;
  ti_SignatureScript : list byte;
  ti_Witness : list (list byte);
  ti_Sequence : Z
}.
Record TxOut := mkTxOut { to_Value : Z; to_PkScript : list byte }.
Record MsgTx := mkMsgTx {
  tx_Version : Z; tx_TxIn : list TxIn; tx_TxOut : list TxOut; tx_LockTime : Z
}.
#[export] Instance OutPoint_eq_dec : EqDecision OutPoint.
Proof. solve_decision. Defined.
#[export] Instance TxIn_eq_dec : EqDecision TxIn.
Proof. solve_decision. Defined.
#[export] Instance TxOut_eq_dec : EqDecision TxOut.
Proof. solve_decision. Defined.
#[export] Instance MsgTx_eq_dec : EqDecision MsgTx.
Proof. solve_decision. Defined.

Definition minTxInPayload : Z := 9 + Z.of_nat HashSize.
Definition maxTxInPerMessage : Z := MaxMessagePayload / minTxInPayload + 1.
Definition MinTxOutPayload : Z := 9.
Definition maxTxOutPerMessage : Z := MaxMessagePayload / MinTxOutPayload + 1.
Definition maxWitnessItemsPerInput : Z := 500000.
Definition maxWitnessItemSize : Z := 11000.

Definition readOutPoint : Reader OutPoint :=
  let! hash := ReadFull HashSize in
  let! index := Uint32 in
  ret (mkOutPoint hash index).

Definition writeOutPoint (op : OutPoint) : list byte := op_Hash op ++ PutUint32 (op_Index op).

Definition readScript (maxAllowed : Z) (fieldName : string) : Reader (list byte) :=
  let! count := ReadVarInt in
  if maxAllowed <? count
  then messageError "readScript" (fieldName ++ " is larger than the max allowed size")%string
  else ReadFull (Z.to_nat count).

(** The witness is read later, after the outputs. *)
Definition readTxIn : Reader TxIn :=
  let! prev := readOutPoint in
  let! script := readScript MaxMessagePayload "transaction input signature script" in
  let! sequence := readElement EUint32 in
  ret (mkTxIn prev script [] sequence).

Definition writeTxIn (ti : TxIn) : list byte :=
  writeOutPoint (ti_PreviousOutPoint ti) ++ WriteVarBytes (ti_SignatureScript ti) ++
  PutUint32 (ti_Sequence ti).

Definition readTxOut : Reader TxOut :=
  let! value := readElement EInt64 in
  let! script := readScript MaxMessagePayload "transaction output public key script" in
  ret (mkTxOut value script).

Definition WriteTxOut (to : TxOut) : list byte :=
  PutUint64 (u64 (to_Value to)) ++ WriteVarBytes (to_PkScript to).

Definition writeTxWitness (wit : list (list byte)) : list byte :=
  WriteVarInt (Z.of_nat (length wit)) ++ concat (map WriteVarBytes wit).

(** The body of the witness loop in [MsgTx.BtcDecode]. *)
Definition readTxWitness : Reader (list (list byte)) :=
  let! witCount := ReadVarInt in
  if maxWitnessItemsPerInput <? witCount
  then messageError "MsgTx.BtcDecode" "too many witness items to fit into max message size"
  else read_n (Z.to_nat witCount) (readScript maxWitnessItemSize "script witness item").

Definition set_witness (ti : TxIn) (wit : list (list byte)) : TxIn :=
  mkTxIn (ti_PreviousOutPoint ti) (ti_SignatureScript ti) wit (ti_Sequence ti).

(** [for _, txin := range msg.TxIn { ... txin.Witness = ... }] *)
Fixpoint readWitnesses (txins : list TxIn) : Reader (list TxIn) :=
  match txins with
  | [] => ret []
  | txin :: txins =>
      let! wit := readTxWitness in
      let! rest := readWitnesses txins in
      ret (set_witness txin wit :: rest)
  end.

(** [MsgTx.BtcDecode] from the check of the input count on.  The closing loops
    of the Go function move the scripts from pooled buffers into one
    allocation; the bytes do not change. *)
Definition read_tx_rest (enc : MessageEncoding) (version flag count : Z) : Reader MsgTx :=
  if maxTxInPerMessage <? count
  then messageError "MsgTx.BtcDecode" "too many input transactions to fit into max message size"
  else
  let! txIns := read_n (Z.to_nat count) readTxIn in
  let! count := ReadVarInt in
  if maxTxOutPerMessage <? count
  then messageError "MsgTx.BtcDecode" "too many output transactions to fit into max message size"
  else
  let! txOuts := read_n (Z.to_nat count) readTxOut in
  let! txIns :=
    if negb (flag =? 0) && bool_decide (enc = WitnessEncoding)
    then readWitnesses txIns else ret txIns in
  let! lockTime := Uint32 in
  ret (mkMsgTx version txIns txOuts lockTime).

Definition MsgTx_BtcDecode (enc : MessageEncoding) : Reader MsgTx :=
  let! version := Uint32 in
  let! count := ReadVarInt in
  if (count =? 0) && bool_decide (enc = WitnessEncoding) then
    let! flag := Uint8 in
    if negb (flag =? 1)
    then messageError "MsgTx.BtcDecode" "witness tx but flag byte is not 01"
    else
      let! count := ReadVarInt in
      read_tx_rest enc (i32 version) flag count
  else read_tx_rest enc (i32 version) 0 count.

Definition HasWitness (msg : MsgTx) : bool :=
  existsb (fun txIn => negb (length (ti_Witness txIn) =? 0)%nat) (tx_TxIn msg).

Definition witessMarkerBytes : list byte := [x00; x01].

Definition MsgTx_BtcEncode (enc : MessageEncoding) (msg : MsgTx) : list byte :=
  let doWitness := bool_decide (enc = WitnessEncoding) && HasWitness msg in
  PutUint32 (u32 (tx_Version msg)) ++
  (if doWitness then witessMarkerBytes else []) ++
  WriteVarInt (Z.of_nat (length (tx_TxIn msg))) ++
  concat (map writeTxIn (tx_TxIn msg)) ++
  WriteVarInt (Z.of_nat (length (tx_TxOut msg))) ++
  concat (map WriteTxOut (tx_TxOut msg)) ++
  (if doWitness then concat (map (fun ti => writeTxWitness (ti_Witness ti)) (tx_TxIn msg)) else []) ++
  PutUint32 (tx_LockTime msg).

Definition TxHash `{HashFunctions} (msg : MsgTx) : Hash :=
  DoubleHashH (MsgTx_BtcEncode BaseEncoding msg).

Definition WitnessHash `{HashFunctions} (msg : MsgTx) : Hash :=
  if HasWitness msg then DoubleHashH (MsgTx_BtcEncode WitnessEncoding msg) else TxHash msg.

(** *** Sizes *)

Definition zlen {A} (l : list A) : Z := Z.of_nat (length l).
Definition sumZ {A} (f : A -> Z) (l : list A) : Z := foldr (fun a n => f a + n) 0 l.

Definition TxIn_SerializeSize (t : TxIn) : Z :=
  40 + VarIntSerializeSize (zlen (ti_SignatureScript t)) + zlen (ti_SignatureScript t).
Definition TxOut_SerializeSize (t : TxOut) : Z :=
  8 + VarIntSerializeSize (zlen (to_PkScript t)) + zlen (to_PkScript t).
Definition TxWitness_SerializeSize (t : list (list byte)) : Z :=
  VarIntSerializeSize (zlen t) + sumZ (fun w => VarIntSerializeSize (zlen w) + zlen w) t.

Definition baseSize (msg : MsgTx) : Z :=
  8 + VarIntSerializeSize (zlen (tx_TxIn msg)) + VarIntSerializeSize (zlen (tx_TxOut msg)) +
  sumZ TxIn_SerializeSize (tx_TxIn msg) + sumZ TxOut_SerializeSize (tx_TxOut msg).

Definition MsgTx_SerializeSize (msg : MsgTx) : Z :=
  baseSize msg +
  if HasWitness msg
  then 2 + sumZ (fun ti => TxWitness_SerializeSize (ti_Witness ti)) (tx_TxIn msg)
  else 0.

Definition MsgTx_SerializeSizeStripped (msg : MsgTx) : Z := baseSize msg.

(** ** Blocks: wire/msgblock.go, and candidates: wire/msgcandidate.go *)

Record MsgBlock := mkMsgBlock { mb_Header : BlockHeader; mb_Transactions : list MsgTx }.
Record MsgCandidate := mkMsgCandidate {
  mc_Header : BlockHeader;
  mc_Transactions : list MsgTx;
  mc_Height : Z            (** [Sigwit.Height], int32 *)
}.
#[export] Instance MsgCandidate_eq_dec : EqDecision MsgCandidate.
Proof. solve_decision. Defined.

Definition MaxBlockPayload : Z := 4000000.
Definition minTxPayload : Z := 10.
Definition maxTxPerBlock : Z := MaxBlockPayload / minTxPayload + 1.

(** The part the two decoders share: header, count, transactions. *)
Definition read_block_body (enc : MessageEncoding) : Reader (BlockHeader * list MsgTx) :=
  let! header := readBlockHeader in
  let! txCount := ReadVarInt in
  if maxTxPerBlock <? txCount
  then messageError "MsgBlock.BtcDecode" "too many transactions to fit into a block"
  else
  let! txs := read_n (Z.to_nat txCount) (MsgTx_BtcDecode enc) in
  ret (header, txs).

Definition write_block_body (enc : MessageEncoding) (h : BlockHeader) (txs : list MsgTx) : list byte :=
  writeBlockHeader h ++ WriteVarInt (zlen txs) ++ concat (map (MsgTx_BtcEncode enc) txs).

Definition MsgBlock_BtcDecode (enc : MessageEncoding) : Reader MsgBlock :=
  let! (h, txs) := read_block_body enc in ret (mkMsgBlock h txs).
Definition MsgBlock_BtcEncode (enc : MessageEncoding) (msg : MsgBlock) : list byte :=
  write_block_body enc (mb_Header msg) (mb_Transactions msg).

Definition MsgBlock_SerializeSize (msg : MsgBlock) : Z :=
  blockHeaderLen + VarIntSerializeSize (zlen (mb_Transactions msg)) +
  sumZ MsgTx_SerializeSize (mb_Transactions msg).
Definition MsgBlock_SerializeSizeStripped (msg : MsgBlock) : Z :=
  blockHeaderLen + VarIntSerializeSize (zlen (mb_Transactions msg)) +
  sumZ MsgTx_SerializeSizeStripped (mb_Transactions msg).

Definition MsgSigwit_BtcDecode : Reader Z := readElement EInt32.
(** [&msg.Height] goes through [binary.Write], which follows the pointer. *)
Definition MsgSigwit_BtcEncode (height : Z) : list byte := writeElement EInt32 height.

Definition MsgCandidate_BtcDecode (enc : MessageEncoding) : Reader MsgCandidate :=
  let! (h, txs) := read_block_body enc in
  let! height := MsgSigwit_BtcDecode in
  ret (mkMsgCandidate h txs height).
Definition MsgCandidate_BtcEncode (enc : MessageEncoding) (msg : MsgCandidate) : list byte :=
  write_block_body enc (mc_Header msg) (mc_Transactions msg) ++ MsgSigwit_BtcEncode (mc_Height msg).

Definition MsgCandidate_BlockHash `{HashFunctions} (msg : MsgCandidate) : Hash :=
  BlockHash (mc_Header msg).

(** ** Votes: wire/msgsign.go *)

Record MsgSign := mkMsgSign {
  ms_BlockHeaderHash : Hash; ms_Signature : Hash64; ms_PublicKey : Hash33
}.
#[export] Instance MsgSign_eq_dec : EqDecision MsgSign.
Proof. solve_decision. Defined.

Definition MaxVotePayload : Z := 200.

Definition readSign : Reader MsgSign :=
  let! h := readElement EHash in
  let! s := readElement EHash64 in
  let! k := readElement EHash33 in
  ret (mkMsgSign h s k).
Definition writeSign (msg : MsgSign) : list byte :=
  writeElement EHash (ms_BlockHeaderHash msg) ++ writeElement EHash64 (ms_Signature msg) ++
  writeElement EHash33 (ms_PublicKey msg).

(** ** Block requests and answers: wire/msggetblock.go, wire/msgsyncblock.go *)

Record MsgGetBlock := mkMsgGetBlock { gb_TypeParameter : Z; gb_Height : Z; gb_BlockHash : Hash }.

Definition MsgGetBlock_BtcDecode : Reader MsgGetBlock :=
  let! t := readElement EInt8 in
  let! h := readElement EInt32 in
  let! b := readElement EHash in
  ret (mkMsgGetBlock t h b).
Definition MsgGetBlock_BtcEncode (msg : MsgGetBlock) : list byte :=
  writeElement EInt8 (gb_TypeParameter msg) ++ writeElement EInt32 (gb_Height msg) ++
  writeElement EHash (gb_BlockHash msg).

Record MsgSyncBlock := mkMsgSyncBlock { sb_TypeParameter : Z; sb_MsgCandidate : MsgCandidate }.

Definition MsgSyncBlock_BtcDecode (enc : MessageEncoding) : Reader MsgSyncBlock :=
  let! t := readElement EInt8 in
  let! c := MsgCandidate_BtcDecode enc in
  ret (mkMsgSyncBlock t c).
Definition MsgSyncBlock_BtcEncode (enc : MessageEncoding) (msg : MsgSyncBlock) : list byte :=
  writeElement EInt8 (sb_TypeParameter msg) ++ MsgCandidate_BtcEncode enc (sb_MsgCandidate msg).

(** ** Inventory vectors: wire/invvect.go *)

Record InvVect := mkInvVect { iv_Type : Z; iv_Hash : Hash }.
Definition readInvVect : Reader InvVect :=
  let! t := readElement EInvType in
  let! h := readElement EHash in
  ret (mkInvVect t h).
Definition writeInvVect (iv : InvVect) : list byte :=
  writeElement EInvType (iv_Type iv) ++ writeElement EHash (iv_Hash iv).

(** ** Well-formed values *)

Definition script_ok (m : Z) (s : list byte) : Prop := zlen s <= m.

Record txin_ok (ti : TxIn) : Prop := {
  tiok_hash : hash_ok (op_Hash (ti_PreviousOutPoint ti));
  tiok_index : is_u32 (op_Index (ti_PreviousOutPoint ti));
  tiok_script : script_ok MaxMessagePayload (ti_SignatureScript ti);
  tiok_sequence : is_u32 (ti_Sequence ti);
  tiok_items : zlen (ti_Witness ti) <= maxWitnessItemsPerInput;
  tiok_witness : Forall (script_ok maxWitnessItemSize) (ti_Witness ti)
}.

Record txout_ok (to : TxOut) : Prop := {
  took_value : is_i64 (to_Value to);
  took_script : script_ok MaxMessagePayload (to_PkScript to)
}.

(** A transaction the encoding [enc] can carry: with the witness encoding an
    input-less transaction is read as a witness marker, without it witnesses
    are dropped. *)
Record tx_ok (enc : MessageEncoding) (tx : MsgTx) : Prop := {
  txok_version : is_i32 (tx_Version tx);
  txok_ins : Forall txin_ok (tx_TxIn tx);
  txok_outs : Forall txout_ok (tx_TxOut tx);
  txok_nins : zlen (tx_TxIn tx) <= maxTxInPerMessage;
  txok_nouts : zlen (tx_TxOut tx) <= maxTxOutPerMessage;
  txok_lock : is_u32 (tx_LockTime tx);
  txok_enc : match enc with
             | WitnessEncoding => tx_TxIn tx <> []
             | BaseEncoding => HasWitness tx = false
             end
}.

Definition block_body_ok enc (h : BlockHeader) (txs : list MsgTx) : Prop :=
  header_ok h /\ Forall (tx_ok enc) txs /\ zlen txs <= maxTxPerBlock.

Definition candidate_ok enc (c : MsgCandidate) : Prop :=
  block_body_ok enc (mc_Header c) (mc_Transactions c) /\ is_i32 (mc_Height c).

Definition sign_ok (s : MsgSign) : Prop :=
  hash_ok (ms_BlockHeaderHash s) /\ hash64_ok (ms_Signature s) /\ hash33_ok (ms_PublicKey s).

Definition getblock_ok (m : MsgGetBlock) : Prop :=
  elem_ok EInt8 (gb_TypeParameter m) /\ is_i32 (gb_Height m) /\ hash_ok (gb_BlockHash m).

Lemma sumZ_app {A} (f : A -> Z) a b : sumZ f (a ++ b) = sumZ f a + sumZ f b.
Proof. unfold sumZ. induction a as [|x a IH]; cbn; [easy|]. rewrite IH. lia. Qed.

(** ** Round trips *)

(** Reading back a list whose items are read back as [f a]. *)
Lemma read_n_write_map {A B} (c : Reader B) (w : A -> list byte) (f : A -> B) (P : A -> Prop) l rest :
  (forall a rest, P a -> c (w a ++ rest) = Ok (f a, rest)) ->
  Forall P l -> read_n (length l) c (concat (map w l) ++ rest) = Ok (map f l, rest).
Proof.
  intros Hc Hl. induction Hl as [|a l Ha Hl IH]; [done|].
  simpl. rewrite <- (assoc_L (++)). erewrite bind_Ok by by apply Hc.
  by erewrite bind_Ok by apply IH.
Qed.

Lemma read_n_write {A} (c : Reader A) (w : A -> list byte) (P : A -> Prop) l rest :
  (forall a rest, P a -> c (w a ++ rest) = Ok (a, rest)) ->
  Forall P l -> read_n (length l) c (concat (map w l) ++ rest) = Ok (l, rest).
Proof. intros. rewrite <- (map_id l) at 3. by eapply (read_n_write_map _ _ (fun a => a)). Qed.

Lemma readBlockHeader_write bh rest :
  header_ok bh -> readBlockHeader (writeBlockHeader bh ++ rest) = Ok (bh, rest).
Proof.
  intros []. unfold readBlockHeader, writeBlockHeader.
  change (writeElement EUint32 (u32 ?t)) with (writeElement EUint32Time t).
  read_seq. by destruct bh.
Qed.

Lemma length_writeBlockHeader bh :
  header_ok bh -> zlen (writeBlockHeader bh) = blockHeaderLen.
Proof.
  intros []. unfold zlen, writeBlockHeader, writeElement, PutUint32, PutUint16.
  unfold hash_ok, hash33_ok, hash64_ok in *.
  rewrite !length_app, !length_le_bytes, hok_prev0, hok_root0, hok_sig0, hok_key0. done.
Qed.

Lemma readScript_write m f s rest :
  script_ok m s -> is_u32 m -> readScript m f (WriteVarBytes s ++ rest) = Ok (s, rest).
Proof.
  intros Hs Hm. unfold readScript, WriteVarBytes. rewrite <- (assoc_L (++)).
  unfold script_ok, zlen in Hs.
  erewrite bind_Ok by (apply ReadVarInt_write; eapply length_is_u64; [exact Hs|widths; lia]).
  case_if; [lia|]. apply ReadFull_app. lia.
Qed.

Lemma readOutPoint_write op rest :
  hash_ok (op_Hash op) -> is_u32 (op_Index op) ->
  readOutPoint (writeOutPoint op ++ rest) = Ok (op, rest).
Proof. intros. unfold readOutPoint, writeOutPoint. read_seq. by destruct op. Qed.
#[export] Hint Resolve readOutPoint_write readScript_write readBlockHeader_write : wire.

Lemma payload_u32 : is_u32 MaxMessagePayload. Proof. unfold MaxMessagePayload. widths. lia. Qed.
Lemma witness_item_u32 : is_u32 maxWitnessItemSize. Proof. unfold maxWitnessItemSize. widths. lia. Qed.
#[export] Hint Resolve payload_u32 witness_item_u32 : wire.

Lemma readTxIn_write ti rest :
  txin_ok ti -> readTxIn (writeTxIn ti ++ rest) = Ok (set_witness ti [], rest).
Proof.
  intros []. unfold readTxIn, writeTxIn.
  change (PutUint32 (ti_Sequence ti)) with (writeElement EUint32 (ti_Sequence ti)).
  by read_seq.
Qed.

Lemma readTxOut_write to rest :
  txout_ok to -> readTxOut (WriteTxOut to ++ rest) = Ok (to, rest).
Proof.
  intros []. unfold readTxOut, WriteTxOut.
  change (PutUint64 (u64 ?v)) with (writeElement EInt64 v).
  read_seq. by destruct to.
Qed.

Lemma readTxWitness_write wit rest :
  zlen wit <= maxWitnessItemsPerInput -> Forall (script_ok maxWitnessItemSize) wit ->
  readTxWitness (writeTxWitness wit ++ rest) = Ok (wit, rest).
Proof.
  intros Hn Hall. unfold readTxWitness, writeTxWitness. rewrite <- (assoc_L (++)).
  unfold zlen in Hn.
  erewrite bind_Ok by (apply ReadVarInt_write; by eapply length_is_u64).
  case_if; [lia|]. rewrite Nat2Z.id.
  eapply read_n_write; [|exact Hall]. intros; by apply readScript_write; auto with wire.
Qed.

Lemma readWitnesses_write ins rest :
  Forall txin_ok ins ->
  readWitnesses (map (fun ti => set_witness ti []) ins)
    (concat (map (fun ti => writeTxWitness (ti_Witness ti)) ins) ++ rest) = Ok (ins, rest).
Proof.
  induction 1 as [|ti ins [] Hins IH]; [done|]. cbn [map concat readWitnesses].
  rewrite <- (assoc_L (++)). erewrite bind_Ok by by apply readTxWitness_write.
  erewrite bind_Ok by apply IH. by destruct ti.
Qed.

Lemma no_witness_set ins :
  existsb (fun txIn => negb (length (ti_Witness txIn) =? 0)%nat) ins = false ->
  map (fun ti => set_witness ti []) ins = ins.
Proof.
  induction ins as [|[p s w q] ins IH]; [done|]. cbn [existsb map].
  intros [Hw Hins]%orb_false_iff. rewrite IH by done.
  by destruct w.
Qed.

Lemma count_in_ok {A} (l : list A) m : zlen l <= m -> m <= 2 ^ 32 -> is_u64 (zlen l).
Proof. unfold zlen. widths. lia. Qed.

Lemma maxTxIn_small : maxTxInPerMessage <= 2 ^ 32. Proof. vm_compute. discriminate. Qed.
Lemma maxTxOut_small : maxTxOutPerMessage <= 2 ^ 32. Proof. vm_compute. discriminate. Qed.
Lemma maxTxPerBlock_small : maxTxPerBlock <= 2 ^ 32. Proof. vm_compute. discriminate. Qed.
#[local] Hint Resolve count_in_ok maxTxIn_small maxTxOut_small maxTxPerBlock_small : wire.

(** Everything after the input count, with the witnesses present or not. *)
Lemma read_tx_rest_write enc tx flag rest :
  tx_ok enc tx ->
  (negb (flag =? 0) && bool_decide (enc = WitnessEncoding) = HasWitness tx) ->
  read_tx_rest enc (tx_Version tx) flag (zlen (tx_TxIn tx))
    (concat (map writeTxIn (tx_TxIn tx)) ++ WriteVarInt (zlen (tx_TxOut tx)) ++
     concat (map WriteTxOut (tx_TxOut tx)) ++
     (if HasWitness tx
      then concat (map (fun ti => writeTxWitness (ti_Witness ti)) (tx_TxIn tx)) else []) ++
     PutUint32 (tx_LockTime tx) ++ rest) = Ok (tx, rest).
Proof.
  unfold read_tx_rest.
  intros [] Hflag. rewrite Hflag. case_if; [lia|]. unfold zlen at 1. rewrite Nat2Z.id.
  erewrite bind_Ok by (eapply read_n_write_map; [apply readTxIn_write|done]).
  erewrite bind_Ok by (apply ReadVarInt_write; eauto with wire). cbv beta.
  case_if; [lia|]. unfold zlen at 1. rewrite Nat2Z.id.
  erewrite bind_Ok by (eapply read_n_write; [apply readTxOut_write|done]).
  destruct (HasWitness tx) eqn:Hw.
  - erewrite bind_Ok by by apply readWitnesses_write.
    read_seq. by destruct tx.
  - rewrite no_witness_set by done. rewrite (left_id_L [] (++)).
    erewrite bind_Ok by reflexivity. read_seq. by destruct tx.
Qed.

Lemma zlen_nil_iff {A} (l : list A) : (zlen l =? 0) = false <-> l <> [].
Proof. rewrite Z.eqb_neq. unfold zlen. destruct l; simpl; split; done || lia. Qed.

Lemma MsgTx_roundtrip enc tx rest :
  tx_ok enc tx -> MsgTx_BtcDecode enc (MsgTx_BtcEncode enc tx ++ rest) = Ok (tx, rest).
Proof.
  intros Hok. pose proof Hok as []. unfold MsgTx_BtcDecode, MsgTx_BtcEncode.
  rewrite <- !(assoc_L (++)). read_step. rewrite i32_u32 by done.
  fold (zlen (tx_TxIn tx)). fold (zlen (tx_TxOut tx)).
  destruct enc.
  - rewrite !(bool_decide_eq_false_2 (BaseEncoding = WitnessEncoding)) by done. cbn [andb].
    rewrite (left_id_L [] (++)). erewrite bind_Ok by (apply ReadVarInt_write; eauto with wire).
    rewrite andb_false_r.
    pose proof (read_tx_rest_write BaseEncoding tx 0 rest Hok) as Hrest.
    rewrite txok_enc0 in Hrest. by apply Hrest.
  - rewrite !bool_decide_eq_true_2 by done. cbn [andb].
    destruct (HasWitness tx) eqn:Hw.
    + change witessMarkerBytes with (WriteVarInt 0 ++ PutUint8 1). rewrite <- !(assoc_L (++)).
      erewrite bind_Ok by (apply ReadVarInt_write; widths; lia).
      cbn [Z.eqb andb]. erewrite bind_Ok by (apply Uint8_Put; widths; lia).
      cbn [Z.eqb Pos.eqb negb]. erewrite bind_Ok by (apply ReadVarInt_write; eauto with wire).
      pose proof (read_tx_rest_write WitnessEncoding tx 1 rest Hok) as Hrest.
      rewrite Hw in Hrest. by apply Hrest.
    + rewrite (left_id_L [] (++)). erewrite bind_Ok by (apply ReadVarInt_write; eauto with wire).
      rewrite (proj2 (zlen_nil_iff _)) by done. cbn [andb].
      pose proof (read_tx_rest_write WitnessEncoding tx 0 rest Hok) as Hrest.
      rewrite Hw in Hrest. by apply Hrest.
Qed.

(** ** Sizes *)

Lemma zlen_app {A} (a b : list A) : zlen (a ++ b) = zlen a + zlen b.
Proof. unfold zlen. rewrite length_app. lia. Qed.

Lemma zlen_concat_map {A} (w : A -> list byte) (size : A -> Z) (P : A -> Prop) l :
  (forall a, P a -> zlen (w a) = size a) -> Forall P l -> zlen (concat (map w l)) = sumZ size l.
Proof.
  intros Hw Hl. induction Hl as [|a l Ha Hl IH]; [done|]. cbn [map concat sumZ foldr].
  rewrite zlen_app, Hw by done. unfold sumZ in IH. lia.
Qed.

Lemma zlen_WriteVarInt v : zlen (WriteVarInt v) = VarIntSerializeSize v.
Proof. apply length_WriteVarInt. Qed.

Lemma zlen_WriteVarBytes s : zlen (WriteVarBytes s) = VarIntSerializeSize (zlen s) + zlen s.
Proof. unfold WriteVarBytes. by rewrite zlen_app, zlen_WriteVarInt. Qed.

Lemma zlen_Put32 v : zlen (PutUint32 v) = 4.
Proof. unfold zlen, PutUint32. by rewrite length_le_bytes. Qed.

Lemma zlen_Put64 v : zlen (PutUint64 v) = 8.
Proof. unfold zlen, PutUint64. by rewrite length_le_bytes. Qed.

Lemma zlen_writeTxIn ti : txin_ok ti -> zlen (writeTxIn ti) = TxIn_SerializeSize ti.
Proof.
  intros []. unfold writeTxIn, writeOutPoint, TxIn_SerializeSize.
  rewrite !zlen_app, zlen_WriteVarBytes, !zlen_Put32. unfold zlen at 1. rewrite tiok_hash0.
  unfold HashSize. lia.
Qed.

Lemma zlen_WriteTxOut to : txout_ok to -> zlen (WriteTxOut to) = TxOut_SerializeSize to.
Proof.
  intros _. unfold WriteTxOut, TxOut_SerializeSize.
  rewrite zlen_app, zlen_WriteVarBytes, zlen_Put64. lia.
Qed.

Lemma zlen_writeTxWitness ti :
  txin_ok ti -> zlen (writeTxWitness (ti_Witness ti)) = TxWitness_SerializeSize (ti_Witness ti).
Proof.
  intros []. unfold writeTxWitness, TxWitness_SerializeSize.
  rewrite zlen_app, zlen_WriteVarInt. f_equal.
  eapply zlen_concat_map; [intros; apply zlen_WriteVarBytes|exact tiok_witness0].
Qed.

Lemma zlen_MsgTx_BtcEncode enc tx :
  tx_ok enc tx -> zlen (MsgTx_BtcEncode enc tx) = MsgTx_SerializeSize tx.
Proof.
  intros []. unfold MsgTx_BtcEncode, MsgTx_SerializeSize, baseSize.
  fold (zlen (tx_TxIn tx)). fold (zlen (tx_TxOut tx)).
  rewrite !zlen_app, !zlen_WriteVarInt, !zlen_Put32.
  rewrite (zlen_concat_map _ _ _ _ zlen_writeTxIn txok_ins0).
  rewrite (zlen_concat_map _ _ _ _ zlen_WriteTxOut txok_outs0).
  destruct (HasWitness tx) eqn:Hw.
  - destruct enc; [congruence|]. rewrite bool_decide_eq_true_2 by done. cbn [andb].
    rewrite (zlen_concat_map _ _ _ _ zlen_writeTxWitness txok_ins0).
    change (zlen witessMarkerBytes) with 2. lia.
  - rewrite andb_false_r. change (zlen (@nil byte)) with 0. lia.
Qed.

Lemma zlen_write_block_body enc h txs :
  block_body_ok enc h txs ->
  zlen (write_block_body enc h txs) =
  blockHeaderLen + VarIntSerializeSize (zlen txs) + sumZ MsgTx_SerializeSize txs.
Proof.
  intros (Hh & Htxs & _). unfold write_block_body.
  rewrite !zlen_app, zlen_WriteVarInt, (length_writeBlockHeader _ Hh).
  rewrite (zlen_concat_map _ _ _ _ (zlen_MsgTx_BtcEncode enc) Htxs). lia.
Qed.

(** ** Messages *)

Lemma read_block_body_write enc h txs rest :
  block_body_ok enc h txs ->
  read_block_body enc (write_block_body enc h txs ++ rest) = Ok ((h, txs), rest).
Proof.
  intros (Hh & Htxs & Hn). unfold read_block_body, write_block_body.
  rewrite <- !(assoc_L (++)). erewrite bind_Ok by by apply readBlockHeader_write.
  erewrite bind_Ok by (apply ReadVarInt_write; eauto with wire). cbv beta.
  case_if; [lia|]. unfold zlen at 1. rewrite Nat2Z.id.
  by erewrite bind_Ok by (eapply read_n_write; [apply MsgTx_roundtrip|done]).
Qed.
#[export] Hint Resolve read_block_body_write : wire.

Lemma MsgCandidate_decode_encode enc c rest :
  candidate_ok enc c ->
  MsgCandidate_BtcDecode enc (MsgCandidate_BtcEncode enc c ++ rest) = Ok (c, rest).
Proof.
  intros [Hb Hh]. unfold MsgCandidate_BtcDecode, MsgCandidate_BtcEncode, MsgSigwit_BtcDecode, MsgSigwit_BtcEncode.
  rewrite <- (assoc_L (++)). erewrite bind_Ok by by apply read_block_body_write.
  cbv beta iota. erewrite bind_Ok by by apply (readElement_write EInt32). by destruct c.
Qed.
#[export] Hint Resolve MsgCandidate_decode_encode : wire.

(** The messages as codecs. *)
#[export] Instance header_codec : Codec BlockHeader :=
  {| codec_write := writeBlockHeader; codec_read := readBlockHeader; codec_ok := header_ok |}.
#[export] Instance sign_codec : Codec MsgSign :=
  {| codec_write := writeSign; codec_read := readSign; codec_ok := sign_ok |}.
#[export] Instance tx_codec enc : Codec MsgTx :=
  {| codec_write := MsgTx_BtcEncode enc; codec_read := MsgTx_BtcDecode enc; codec_ok := tx_ok enc |}.
#[export] Instance block_codec enc : Codec MsgBlock :=
  {| codec_write := MsgBlock_BtcEncode enc; codec_read := MsgBlock_BtcDecode enc;
     codec_ok b := block_body_ok enc (mb_Header b) (mb_Transactions b) |}.
#[export] Instance candidate_codec enc : Codec MsgCandidate :=
  {| codec_write := MsgCandidate_BtcEncode enc; codec_read := MsgCandidate_BtcDecode enc;
     codec_ok := candidate_ok enc |}.
#[export] Instance getblock_codec : Codec MsgGetBlock :=
  {| codec_write := MsgGetBlock_BtcEncode; codec_read := MsgGetBlock_BtcDecode;
     codec_ok := getblock_ok |}.
#[export] Instance syncblock_codec enc : Codec MsgSyncBlock :=
  {| codec_write := MsgSyncBlock_BtcEncode enc; codec_read := MsgSyncBlock_BtcDecode enc;
     codec_ok m := elem_ok EInt8 (sb_TypeParameter m) /\ candidate_ok enc (sb_MsgCandidate m) |}.
#[export] Instance invvect_codec : Codec InvVect :=
  {| codec_write := writeInvVect; codec_read := readInvVect;
     codec_ok m := is_u32 (iv_Type m) /\ hash_ok (iv_Hash m) |}.

#[export] Instance header_lawful : @LawfulCodec BlockHeader header_codec.
Proof. constructor. intros. by apply readBlockHeader_write. Qed.
#[export] Instance tx_lawful enc : @LawfulCodec MsgTx (tx_codec enc).
Proof. constructor. intros. by apply MsgTx_roundtrip. Qed.
#[export] Instance candidate_lawful enc : @LawfulCodec MsgCandidate (candidate_codec enc).
Proof. constructor. intros. by apply MsgCandidate_decode_encode. Qed.
#[export] Instance block_lawful enc : @LawfulCodec MsgBlock (block_codec enc).
Proof.
  constructor. intros b rest Hok. unfold codec_read, codec_write, block_codec. unfold MsgBlock_BtcDecode, MsgBlock_BtcEncode.
  erewrite bind_Ok by by apply read_block_body_write. by destruct b.
Qed.
#[export] Instance sign_lawful : LawfulCodec MsgSign.
Proof.
  constructor. intros s rest (H1 & H2 & H3). unfold codec_read, codec_write, sign_codec. unfold readSign, writeSign.
  read_seq. by destruct s.
Qed.
#[export] Instance getblock_lawful : LawfulCodec MsgGetBlock.
Proof.
  constructor. intros m rest (H1 & H2 & H3). unfold codec_read, codec_write, getblock_codec. unfold MsgGetBlock_BtcDecode, MsgGetBlock_BtcEncode.
  read_seq. by destruct m.
Qed.
#[export] Instance syncblock_lawful enc : @LawfulCodec MsgSyncBlock (syncblock_codec enc).
Proof.
  constructor. intros m rest (H1 & H2). unfold codec_read, codec_write, syncblock_codec. unfold MsgSyncBlock_BtcDecode, MsgSyncBlock_BtcEncode.
  read_seq. by destruct m.
Qed.
#[export] Instance invvect_lawful : LawfulCodec InvVect.
Proof.
  constructor. intros m rest (H1 & H2). unfold codec_read, codec_write, invvect_codec. unfold readInvVect, writeInvVect.
  read_seq. by destruct m.
Qed.

(** ** Properties *)

(** transactions survive the wire: a transaction in range decodes, from the
    bytes either encoding writes, to itself with nothing of the stream consumed
    beyond it, and its encoding has the length [SerializeSize] predicts. *)
Theorem MsgTx_wire enc tx rest :
  tx_ok enc tx ->
  MsgTx_BtcDecode enc (MsgTx_BtcEncode enc tx ++ rest) = Ok (tx, rest)
  /\ zlen (MsgTx_BtcEncode enc tx) = MsgTx_SerializeSize tx.
Proof. split; [by apply MsgTx_roundtrip|by apply zlen_MsgTx_BtcEncode]. Qed.

Definition wire_tx : MsgTx :=
  mkMsgTx 1 [mkTxIn (mkOutPoint zero_hash 7) [x51] [[x01; x02]] 9] [mkTxOut 5 [x52]] 0.

Lemma wire_tx_ok : tx_ok WitnessEncoding wire_tx.
Proof.
  constructor; try (split; [discriminate|reflexivity]); try discriminate.
  - constructor; [|constructor]. constructor; try (split; [discriminate|reflexivity]);
      try reflexivity; try discriminate. constructor; [discriminate|constructor].
  - constructor; [|constructor]. constructor; [split; [discriminate|reflexivity]|discriminate].
Qed.

Lemma MsgTx_wire_witness :
  tx_ok WitnessEncoding wire_tx /\
  MsgTx_BtcDecode WitnessEncoding (MsgTx_BtcEncode WitnessEncoding wire_tx ++ []) = Ok (wire_tx, []).
Proof.
  split; [exact wire_tx_ok|]. exact (proj1 (MsgTx_wire WitnessEncoding wire_tx [] wire_tx_ok)).
Defined.

(** the messages of a round survive the wire: candidates (header,
    transactions and height), votes, block requests and the synchronised blocks
    that answer them decode to what was encoded, leaving what follows unread,
    and a header always takes 173 bytes. *)
Theorem round_messages_wire enc c s g t rest :
  candidate_ok enc c -> sign_ok s -> getblock_ok g -> elem_ok EInt8 t ->
  MsgCandidate_BtcDecode enc (MsgCandidate_BtcEncode enc c ++ rest) = Ok (c, rest)
  /\ readSign (writeSign s ++ rest) = Ok (s, rest)
  /\ MsgGetBlock_BtcDecode (MsgGetBlock_BtcEncode g ++ rest) = Ok (g, rest)
  /\ MsgSyncBlock_BtcDecode enc (MsgSyncBlock_BtcEncode enc (mkMsgSyncBlock t c) ++ rest)
     = Ok (mkMsgSyncBlock t c, rest)
  /\ zlen (writeBlockHeader (mc_Header c)) = blockHeaderLen.
Proof.
  intros Hc Hs Hg Ht. split; [by apply MsgCandidate_decode_encode|].
  split; [exact (codec_read_write (A := MsgSign) s rest Hs)|].
  split; [exact (codec_read_write (A := MsgGetBlock) g rest Hg)|].
  split; [exact (@codec_read_write MsgSyncBlock (syncblock_codec enc) _ (mkMsgSyncBlock t c) rest (conj Ht Hc))|].
  by apply length_writeBlockHeader, Hc.
Qed.

Definition wire_candidate : MsgCandidate :=
  mkMsgCandidate (mkBlockHeader 1 zero_hash zero_hash 1000 (replicate 64 x00) (replicate 33 x00) 1 0)
    [wire_tx] 3.

Lemma wire_candidate_ok : candidate_ok WitnessEncoding wire_candidate.
Proof.
  split; [|split; [discriminate|reflexivity]]. split; [|split].
  - constructor; try reflexivity; split; (discriminate || reflexivity).
  - constructor; [exact wire_tx_ok|constructor].
  - discriminate.
Qed.

Lemma round_messages_wire_witness :
  candidate_ok WitnessEncoding wire_candidate /\
  readSign (writeSign (mkMsgSign zero_hash (replicate 64 x00) (replicate 33 x00)) ++ [])
  = Ok (mkMsgSign zero_hash (replicate 64 x00) (replicate 33 x00), []).
Proof.
  split; [exact wire_candidate_ok|].
  refine (proj1 (proj2 (round_messages_wire WitnessEncoding _ _
    (mkMsgGetBlock 2 7 zero_hash) 1 [] wire_candidate_ok _ _ _)));
    repeat split; (discriminate || reflexivity).
Defined.
