(* ===== verification/WireNet.v ===== *)
(** * The remaining messages of the protocol: wire/msg*.go, wire/netaddress.go

    Decoders and encoders of the messages that the round protocol inherits:
    handshake, addresses, inventories, headers, locators, alerts and the filter
    messages.  [pver] is the protocol version both sides have agreed on.  An
    encoder that fails leaves nothing behind: the caller drops its buffer.  The
    texts of the errors are shortened to what they are about. *)
From Stdlib Require Import String.
From S2P Require Import Prelude Chainhash Wire Hash WireMsg.
Import ListNotations.
Open Scope Z_scope.
Open Scope list_scope.

(** ** Protocol versions: wire/protocol.go *)

Definition ProtocolVersion : Z := 70013.
Definition MultipleAddressVersion : Z := 209.
Definition NetAddressTimeVersion : Z := 31402.
Definition BIP0031Version : Z := 60000.
Definition BIP0035Version : Z := 60002.
Definition BIP0037Version : Z := 70001.
Definition RejectVersion : Z := 70002.
Definition SendHeadersVersion : Z := 70012.
Definition FeeFilterVersion : Z := 70013.

Definition MaxVarIntPayload : Z := 9.
Definition MaxInvPerMsg : Z := 50000.
Definition maxInvVectPayload : Z := 4 + Z.of_nat HashSize.
Definition MaxBlockLocatorsPerMsg : Z := 500.
Definition MaxBlockHeadersPerMsg : Z := 2000.
Definition MaxBlockHeaderPayload : Z := 12 + Z.of_nat HashSize * 2 + Z.of_nat Hash64Size + Z.of_nat Hash33Size.
Definition MaxAddrPerMsg : Z := 1000.
Definition MaxUserAgentLen : Z := 256.
Definition MaxFilterLoadHashFuncs : Z := 50.
Definition MaxFilterLoadFilterSize : Z := 36000.
Definition MaxFilterAddDataSize : Z := 520.
Definition maxFlagsPerMerkleBlock : Z := maxTxPerBlock / 8.
Definition MaxCFilterDataSize : Z := 256 * 1024.
Definition MaxCFHeadersPerMsg : Z := 2000.
Definition maxCFHeadersLen : Z := 100000.

(** ** Commands: wire/message.go *)

Inductive Cmd :=
  | CmdVersion | CmdVerAck | CmdGetAddr | CmdAddr | CmdGetBlocks | CmdInv
  | CmdGetData | CmdNotFound | CmdBlock | CmdCandidate | CmdTx | CmdGetHeaders
  | CmdHeaders | CmdPing | CmdPong | CmdAlert | CmdMemPool | CmdFilterAdd
  | CmdFilterClear | CmdFilterLoad | CmdMerkleBlock | CmdReject | CmdSendHeaders | CmdFeeFilter
  | CmdGetCFilters | CmdGetCFHeaders | CmdGetCFCheckpt | CmdCFilter | CmdCFHeaders | CmdCFCheckpt
  | CmdSign | CmdGetBlock | CmdSyncBlock.
#[export] Instance Cmd_eq_dec : EqDecision Cmd.
Proof. solve_decision. Defined.

Definition command_name (c : Cmd) : string :=
  match c with
  | CmdVersion => "version"
  | CmdVerAck => "verack"
  | CmdGetAddr => "getaddr"
  | CmdAddr => "addr"
  | CmdGetBlocks => "getblocks"
  | CmdInv => "inv"
  | CmdGetData => "getdata"
  | CmdNotFound => "notfound"
  | CmdBlock => "block"
  | CmdCandidate => "candidate"
  | CmdTx => "tx"
  | CmdGetHeaders => "getheaders"
  | CmdHeaders => "headers"
  | CmdPing => "ping"
  | CmdPong => "pong"
  | CmdAlert => "alert"
  | CmdMemPool => "mempool"
  | CmdFilterAdd => "filteradd"
  | CmdFilterClear => "filterclear"
  | CmdFilterLoad => "filterload"
  | CmdMerkleBlock => "merkleblock"
  | CmdReject => "reject"
  | CmdSendHeaders => "sendheaders"
  | CmdFeeFilter => "feefilter"
  | CmdGetCFilters => "getcfilters"
  | CmdGetCFHeaders => "getcfheaders"
  | CmdGetCFCheckpt => "getcfcheckpt"
  | CmdCFilter => "cfilter"
  | CmdCFHeaders => "cfheaders"
  | CmdCFCheckpt => "cfcheckpt"
  | CmdSign => "sign"
  | CmdGetBlock => "getblock"
  | CmdSyncBlock => "syncblock"
  end.
Definition command_text (c : Cmd) : list byte := list_byte_of_string (command_name c).

(** ** Lists with a bounded count *)

Definition read_list {A} (func : string) (max : Z) (c : Reader A) : Reader (list A) :=
  let! count := ReadVarInt in
  if max <? count then messageError func "too many items" else read_n (Z.to_nat count) c.

Definition write_list {A} (w : A -> list byte) (l : list A) : list byte :=
  WriteVarInt (zlen l) ++ concat (map w l).

Definition too_many {A} (func : string) : result wire_error A := Err (MessageError func "too many items").
Definition wrong_version {A} (func : string) : result wire_error A := Err (MessageError func "invalid for protocol version").

(** ** Network addresses: wire/netaddress.go *)

(** The Unix time of Go's zero [time.Time]. *)
Definition zero_time : Z := -62135596800.

Record NetAddress := mkNetAddress { na_Timestamp : Z; na_Services : Z; na_IP : list byte; na_Port : Z }.

Definition maxNetAddressPayload (pver : Z) : Z := if NetAddressTimeVersion <=? pver then 26 + 4 else 26.

Definition HasService (services service : Z) : bool := Z.land services service =? service.
Definition AddService (services service : Z) : Z := Z.lor services service.

(** net.IP.To16: an IPv4 address is mapped; any other length gives nil. *)
Definition To16 (ip : list byte) : list byte :=
  if (length ip =? 4)%nat then replicate 10 x00 ++ [xff; xff] ++ ip
  else if (length ip =? 16)%nat then ip
  else [].

(** The port is big endian. *)
Definition Uint16BE : Reader Z := let! b := ReadFull 2 in ret (be_value b).
Definition PutUint16BE (v : Z) : list byte := reverse (le_bytes 2 v).

Definition readNetAddress (pver : Z) (ts : bool) : Reader NetAddress :=
  let! timestamp := if ts && (NetAddressTimeVersion <=? pver) then readElement EUint32Time else ret zero_time in
  let! services := readElement EServiceFlag in
  let! ip := readElement EIP in
  let! port := Uint16BE in
  ret (mkNetAddress timestamp services ip port).

(** [copy] of nil leaves the array zero. *)
Definition writeNetAddress (pver : Z) (ts : bool) (na : NetAddress) : list byte :=
  (if ts && (NetAddressTimeVersion <=? pver) then writeElement EUint32 (u32 (na_Timestamp na)) else []) ++
  writeElement EServiceFlag (na_Services na) ++
  writeElement EIP (let ip := To16 (na_IP na) in ip ++ replicate (16 - length ip) x00) ++
  PutUint16BE (na_Port na).

(** ** Addresses: wire/msgaddr.go *)

Definition AddAddress (l : list NetAddress) (na : NetAddress) : result wire_error (list NetAddress) :=
  if MaxAddrPerMsg <? zlen l + 1 then too_many "MsgAddr.AddAddress" else Ok (l ++ [na]).

(** Addresses added before the one that does not fit stay in the message. *)
Fixpoint AddAddresses (l : list NetAddress) (netAddrs : list NetAddress) : list NetAddress * result wire_error unit :=
  match netAddrs with
  | [] => (l, Ok tt)
  | na :: netAddrs =>
      match AddAddress l na with
      | Ok l => AddAddresses l netAddrs
      | Err e => (l, Err e)
      | Panic => (l, Panic)
      end
  end.

Definition MsgAddr_BtcDecode (pver : Z) : Reader (list NetAddress) :=
  read_list "MsgAddr.BtcDecode" MaxAddrPerMsg (readNetAddress pver true).

Definition MsgAddr_BtcEncode (pver : Z) (l : list NetAddress) : result wire_error (list byte) :=
  let count := zlen l in
  if (pver <? MultipleAddressVersion) && (1 <? count) then too_many "MsgAddr.BtcEncode"
  else if MaxAddrPerMsg <? count then too_many "MsgAddr.BtcEncode"
  else Ok (write_list (writeNetAddress pver true) l).

Definition MsgAddr_MaxPayloadLength (pver : Z) : Z :=
  if pver <? MultipleAddressVersion then MaxVarIntPayload + maxNetAddressPayload pver
  else MaxVarIntPayload + MaxAddrPerMsg * maxNetAddressPayload pver.

(** ** Locators: wire/msggetblocks.go, wire/msggetheaders.go *)

Record MsgGetBlocks := mkMsgGetBlocks {
  gbs_ProtocolVersion : Z; gbs_BlockLocatorHashes : list Hash; gbs_HashStop : Hash
}.

Definition AddBlockLocatorHash (msg : MsgGetBlocks) (hash : Hash) : result wire_error MsgGetBlocks :=
  if MaxBlockLocatorsPerMsg <? zlen (gbs_BlockLocatorHashes msg) + 1 then too_many "AddBlockLocatorHash"
  else Ok (mkMsgGetBlocks (gbs_ProtocolVersion msg) (gbs_BlockLocatorHashes msg ++ [hash]) (gbs_HashStop msg)).

(** The two messages have the same form. *)
Definition locator_BtcDecode (func : string) : Reader MsgGetBlocks :=
  let! version := readElement EUint32 in
  let! hashes := read_list func MaxBlockLocatorsPerMsg (readElement EHash) in
  let! stop := readElement EHash in
  ret (mkMsgGetBlocks version hashes stop).

Definition locator_BtcEncode (func : string) (msg : MsgGetBlocks) : result wire_error (list byte) :=
  if MaxBlockLocatorsPerMsg <? zlen (gbs_BlockLocatorHashes msg) then too_many func
  else Ok (writeElement EUint32 (gbs_ProtocolVersion msg) ++
           write_list (writeElement EHash) (gbs_BlockLocatorHashes msg) ++ writeElement EHash (gbs_HashStop msg)).

Definition MsgGetBlocks_BtcDecode := locator_BtcDecode "MsgGetBlocks.BtcDecode".
Definition MsgGetBlocks_BtcEncode := locator_BtcEncode "MsgGetBlocks.BtcEncode".
Definition MsgGetHeaders_BtcDecode := locator_BtcDecode "MsgGetHeaders.BtcDecode".
Definition MsgGetHeaders_BtcEncode := locator_BtcEncode "MsgGetHeaders.BtcEncode".

Definition locator_MaxPayloadLength : Z :=
  4 + MaxVarIntPayload + MaxBlockLocatorsPerMsg * Z.of_nat HashSize + Z.of_nat HashSize.

(** ** Inventories: wire/msginv.go, wire/msggetdata.go, wire/msgnotfound.go *)

Definition AddInvVect (l : list InvVect) (iv : InvVect) : result wire_error (list InvVect) :=
  if MaxInvPerMsg <? zlen l + 1 then too_many "AddInvVect" else Ok (l ++ [iv]).

Definition inv_BtcDecode (func : string) : Reader (list InvVect) := read_list func MaxInvPerMsg readInvVect.
Definition inv_BtcEncode (func : string) (l : list InvVect) : result wire_error (list byte) :=
  if MaxInvPerMsg <? zlen l then too_many func else Ok (write_list writeInvVect l).

Definition MsgInv_BtcDecode := inv_BtcDecode "MsgInv.BtcDecode".
Definition MsgInv_BtcEncode := inv_BtcEncode "MsgInv.BtcEncode".
Definition MsgGetData_BtcDecode := inv_BtcDecode "MsgGetData.BtcDecode".
Definition MsgGetData_BtcEncode := inv_BtcEncode "MsgGetData.BtcEncode".
Definition MsgNotFound_BtcDecode := inv_BtcDecode "MsgNotFound.BtcDecode".
Definition MsgNotFound_BtcEncode := inv_BtcEncode "MsgNotFound.BtcEncode".

Definition inv_MaxPayloadLength : Z := MaxVarIntPayload + MaxInvPerMsg * maxInvVectPayload.

(** ** Headers: wire/msgheaders.go *)

Definition read_header_entry : Reader BlockHeader :=
  let! bh := readBlockHeader in
  let! txCount := ReadVarInt in
  if 0 <? txCount then messageError "MsgHeaders.BtcDecode" "block headers may not contain transactions" else ret bh.

Definition MsgHeaders_BtcDecode : Reader (list BlockHeader) :=
  read_list "MsgHeaders.BtcDecode" MaxBlockHeadersPerMsg read_header_entry.
Definition MsgHeaders_BtcEncode (l : list BlockHeader) : result wire_error (list byte) :=
  if MaxBlockHeadersPerMsg <? zlen l then too_many "MsgHeaders.BtcEncode"
  else Ok (write_list (fun bh => writeBlockHeader bh ++ WriteVarInt 0) l).
Definition MsgHeaders_MaxPayloadLength : Z := MaxVarIntPayload + (MaxBlockHeaderPayload + 1) * MaxBlockHeadersPerMsg.

Definition AddBlockHeader (l : list BlockHeader) (bh : BlockHeader) : result wire_error (list BlockHeader) :=
  if MaxBlockHeadersPerMsg <? zlen l + 1 then too_many "MsgHeaders.AddBlockHeader" else Ok (l ++ [bh]).

(** ** Keeping alive: wire/msgping.go, wire/msgpong.go *)

Definition MsgPing_BtcDecode (pver : Z) : Reader Z := if BIP0031Version <? pver then readElement EUint64 else ret 0.
Definition MsgPing_BtcEncode (pver nonce : Z) : list byte := if BIP0031Version <? pver then writeElement EUint64 nonce else [].
Definition MsgPing_MaxPayloadLength (pver : Z) : Z := if BIP0031Version <? pver then 8 else 0.

Definition MsgPong_BtcDecode (pver : Z) : Reader Z :=
  if pver <=? BIP0031Version then messageError "MsgPong.BtcDecode" "invalid for protocol version" else readElement EUint64.
Definition MsgPong_BtcEncode (pver nonce : Z) : result wire_error (list byte) :=
  if pver <=? BIP0031Version then wrong_version "MsgPong.BtcEncode" else Ok (writeElement EUint64 nonce).
Definition MsgPong_MaxPayloadLength (pver : Z) : Z := if BIP0031Version <? pver then 8 else 0.

(** ** The handshake: wire/msgversion.go *)

Record MsgVersion := mkMsgVersion {
  mv_ProtocolVersion : Z; mv_Services : Z; mv_Timestamp : Z; mv_AddrYou : NetAddress; mv_AddrMe : NetAddress;
  mv_Nonce : Z; mv_UserAgent : list byte; mv_LastBlock : Z; mv_DisableRelayTx : bool
}.

Definition validateUserAgent (userAgent : list byte) : result wire_error unit :=
  if MaxUserAgentLen <? zlen userAgent then Err (MessageError "MsgVersion" "user agent too long") else Ok tt.

(** A field that is read only if something is left in the buffer. *)
Definition optional {A} (default : A) (c : Reader A) : Reader A :=
  fun r => match r with [] => Ok (default, []) | _ => c r end.

Definition zero_address : NetAddress := mkNetAddress zero_time 0 [] 0.

Definition read_user_agent : Reader (list byte) :=
  let! userAgent := ReadVarString in
  match validateUserAgent userAgent with Ok _ => ret userAgent | Err e => fail e | Panic => fun _ => Panic end.

(** The error of the last read is ignored; [relayTx] is then false. *)
Definition read_relay : Reader bool :=
  fun r => match readElement EBool r with Ok (relayTx, r) => Ok (negb relayTx, r) | _ => Ok (true, r) end.

Definition MsgVersion_BtcDecode (pver : Z) : Reader MsgVersion :=
  let! version := readElement EInt32 in
  let! services := readElement EServiceFlag in
  let! timestamp := readElement EInt64Time in
  let! you := readNetAddress pver false in
  let! me := optional zero_address (readNetAddress pver false) in
  let! nonce := optional 0 (readElement EUint64) in
  let! userAgent := optional [] read_user_agent in
  let! lastBlock := optional 0 (readElement EInt32) in
  let! disable := optional false read_relay in
  ret (mkMsgVersion version services timestamp you me nonce userAgent lastBlock disable).

Definition MsgVersion_BtcEncode (pver : Z) (msg : MsgVersion) : result wire_error (list byte) :=
  let* _ := validateUserAgent (mv_UserAgent msg) in
  Ok (writeElement EInt32 (mv_ProtocolVersion msg) ++ writeElement EServiceFlag (mv_Services msg) ++
      writeElement EInt64 (mv_Timestamp msg) ++ writeNetAddress pver false (mv_AddrYou msg) ++
      writeNetAddress pver false (mv_AddrMe msg) ++ writeElement EUint64 (mv_Nonce msg) ++
      WriteVarString (mv_UserAgent msg) ++ writeElement EInt32 (mv_LastBlock msg) ++
      if BIP0037Version <=? pver then writeElement EBool (negb (mv_DisableRelayTx msg)) else []).

Definition MsgVersion_MaxPayloadLength (pver : Z) : Z :=
  33 + maxNetAddressPayload pver * 2 + MaxVarIntPayload + MaxUserAgentLen.

Definition DefaultUserAgent : list byte := list_byte_of_string "/btcwire:0.5.0/".

Definition NewMsgVersion (now : Z) (me you : NetAddress) (nonce lastBlock : Z) : MsgVersion :=
  mkMsgVersion ProtocolVersion 0 now you me nonce DefaultUserAgent lastBlock false.

(** [strings.Join(comments, "; ")] *)
Fixpoint join_comments (comments : list (list byte)) : list byte :=
  match comments with
  | [] => []
  | [c] => c
  | c :: comments => c ++ list_byte_of_string "; " ++ join_comments comments
  end.

Definition AddUserAgent (msg : MsgVersion) (name version : list byte) (comments : list (list byte))
    : result wire_error MsgVersion :=
  let newUserAgent := name ++ list_byte_of_string ":" ++ version in
  let newUserAgent :=
    match comments with
    | [] => newUserAgent
    | _ => newUserAgent ++ list_byte_of_string "(" ++ join_comments comments ++ list_byte_of_string ")"
    end in
  let newUserAgent := mv_UserAgent msg ++ newUserAgent ++ list_byte_of_string "/" in
  let* _ := validateUserAgent newUserAgent in
  Ok (mkMsgVersion (mv_ProtocolVersion msg) (mv_Services msg) (mv_Timestamp msg) (mv_AddrYou msg) (mv_AddrMe msg)
        (mv_Nonce msg) newUserAgent (mv_LastBlock msg) (mv_DisableRelayTx msg)).

(** ** Rejections: wire/msgreject.go *)

Record MsgReject := mkMsgReject { mr_Cmd : list byte; mr_Code : Z; mr_Reason : list byte; mr_Hash : Hash }.

Definition reject_has_hash (cmd : list byte) : bool :=
  bool_decide (cmd = command_text CmdBlock) || bool_decide (cmd = command_text CmdTx).

Definition MsgReject_BtcDecode (pver : Z) : Reader MsgReject :=
  if pver <? RejectVersion then messageError "MsgReject.BtcDecode" "invalid for protocol version"
  else
    let! cmd := ReadVarString in
    let! code := readElement ERejectCode in
    let! reason := ReadVarString in
    let! hash := if reject_has_hash cmd then readElement EHash else ret zero_hash in
    ret (mkMsgReject cmd code reason hash).

Definition MsgReject_BtcEncode (pver : Z) (msg : MsgReject) : result wire_error (list byte) :=
  if pver <? RejectVersion then wrong_version "MsgReject.BtcEncode"
  else Ok (WriteVarString (mr_Cmd msg) ++ writeElement ERejectCode (mr_Code msg) ++ WriteVarString (mr_Reason msg) ++
           if reject_has_hash (mr_Cmd msg) then writeElement EHash (mr_Hash msg) else []).

Definition MsgReject_MaxPayloadLength (pver : Z) : Z := if RejectVersion <=? pver then MaxMessagePayload else 0.

(** ** Bloom filters: wire/msgfilterload.go, msgfilteradd.go, msgfilterclear.go, msgmerkleblock.go *)

Record MsgFilterLoad := mkMsgFilterLoad { fl_Filter : list byte; fl_HashFuncs : Z; fl_Tweak : Z; fl_Flags : Z }.

Definition MsgFilterLoad_BtcDecode (pver : Z) : Reader MsgFilterLoad :=
  if pver <? BIP0037Version then messageError "MsgFilterLoad.BtcDecode" "invalid for protocol version"
  else
    let! filter := ReadVarBytes MaxFilterLoadFilterSize "filterload filter size" in
    let! hashFuncs := readElement EUint32 in
    let! tweak := readElement EUint32 in
    let! flags := readElement EBloomUpdateType in
    if MaxFilterLoadHashFuncs <? hashFuncs then messageError "MsgFilterLoad.BtcDecode" "too many filter hash functions"
    else ret (mkMsgFilterLoad filter hashFuncs tweak flags).

Definition MsgFilterLoad_BtcEncode (pver : Z) (msg : MsgFilterLoad) : result wire_error (list byte) :=
  if pver <? BIP0037Version then wrong_version "MsgFilterLoad.BtcEncode"
  else if MaxFilterLoadFilterSize <? zlen (fl_Filter msg) then too_many "MsgFilterLoad.BtcEncode"
  else if MaxFilterLoadHashFuncs <? fl_HashFuncs msg then too_many "MsgFilterLoad.BtcEncode"
  else Ok (WriteVarBytes (fl_Filter msg) ++ writeElement EUint32 (fl_HashFuncs msg) ++
           writeElement EUint32 (fl_Tweak msg) ++ writeElement EBloomUpdateType (fl_Flags msg)).

Definition MsgFilterLoad_MaxPayloadLength : Z := VarIntSerializeSize MaxFilterLoadFilterSize + MaxFilterLoadFilterSize + 9.

Definition MsgFilterAdd_BtcDecode (pver : Z) : Reader (list byte) :=
  if pver <? BIP0037Version then messageError "MsgFilterAdd.BtcDecode" "invalid for protocol version"
  else ReadVarBytes MaxFilterAddDataSize "filteradd data".
Definition MsgFilterAdd_BtcEncode (pver : Z) (d : list byte) : result wire_error (list byte) :=
  if pver <? BIP0037Version then wrong_version "MsgFilterAdd.BtcEncode"
  else if MaxFilterAddDataSize <? zlen d then too_many "MsgFilterAdd.BtcEncode"
  else Ok (WriteVarBytes d).
Definition MsgFilterAdd_MaxPayloadLength : Z := VarIntSerializeSize MaxFilterAddDataSize + MaxFilterAddDataSize.

(** The messages without a payload; each has a least protocol version. *)
Definition empty_BtcDecode (func : string) (least pver : Z) : Reader unit :=
  if pver <? least then messageError func "invalid for protocol version" else ret tt.
Definition empty_BtcEncode (func : string) (least pver : Z) : result wire_error (list byte) :=
  if pver <? least then wrong_version func else Ok [].

Definition MsgFilterClear_BtcDecode := empty_BtcDecode "MsgFilterClear.BtcDecode" BIP0037Version.
Definition MsgFilterClear_BtcEncode := empty_BtcEncode "MsgFilterClear.BtcEncode" BIP0037Version.
Definition MsgMemPool_BtcDecode := empty_BtcDecode "MsgMemPool.BtcDecode" BIP0035Version.
Definition MsgMemPool_BtcEncode := empty_BtcEncode "MsgMemPool.BtcEncode" BIP0035Version.
Definition MsgSendHeaders_BtcDecode := empty_BtcDecode "MsgSendHeaders.BtcDecode" SendHeadersVersion.
Definition MsgSendHeaders_BtcEncode := empty_BtcEncode "MsgSendHeaders.BtcEncode" SendHeadersVersion.
Definition MsgGetAddr_BtcDecode : Reader unit := ret tt.
Definition MsgGetAddr_BtcEncode : result wire_error (list byte) := Ok [].
Definition MsgVerAck_BtcDecode : Reader unit := ret tt.
Definition MsgVerAck_BtcEncode : result wire_error (list byte) := Ok [].

Definition MsgFeeFilter_BtcDecode (pver : Z) : Reader Z :=
  if pver <? FeeFilterVersion then messageError "MsgFeeFilter.BtcDecode" "invalid for protocol version" else readElement EInt64.
Definition MsgFeeFilter_BtcEncode (pver minFee : Z) : result wire_error (list byte) :=
  if pver <? FeeFilterVersion then wrong_version "MsgFeeFilter.BtcEncode" else Ok (writeElement EInt64 minFee).

Record MsgMerkleBlock := mkMsgMerkleBlock {
  mk_Header : BlockHeader; mk_Transactions : Z; mk_Hashes : list Hash; mk_Flags : list byte
}.

Definition AddTxHash (l : list Hash) (h : Hash) : result wire_error (list Hash) :=
  if maxTxPerBlock <? zlen l + 1 then too_many "MsgMerkleBlock.AddTxHash" else Ok (l ++ [h]).

Definition MsgMerkleBlock_BtcDecode (pver : Z) : Reader MsgMerkleBlock :=
  if pver <? BIP0037Version then messageError "MsgMerkleBlock.BtcDecode" "invalid for protocol version"
  else
    let! header := readBlockHeader in
    let! transactions := readElement EUint32 in
    let! hashes := read_list "MsgMerkleBlock.BtcDecode" maxTxPerBlock (readElement EHash) in
    let! flags := ReadVarBytes maxFlagsPerMerkleBlock "merkle block flags size" in
    ret (mkMsgMerkleBlock header transactions hashes flags).

Definition MsgMerkleBlock_BtcEncode (pver : Z) (msg : MsgMerkleBlock) : result wire_error (list byte) :=
  if pver <? BIP0037Version then wrong_version "MsgMerkleBlock.BtcEncode"
  else if maxTxPerBlock <? zlen (mk_Hashes msg) then too_many "MsgMerkleBlock.BtcDecode"
  else if maxFlagsPerMerkleBlock <? zlen (mk_Flags msg) then too_many "MsgMerkleBlock.BtcDecode"
  else Ok (writeBlockHeader (mk_Header msg) ++ writeElement EUint32 (mk_Transactions msg) ++
           write_list (writeElement EHash) (mk_Hashes msg) ++ WriteVarBytes (mk_Flags msg)).

(** ** Committed filters: wire/msg*cf*.go

    A FilterType is one byte, read and written by the encoding/binary fallback. *)

Record MsgGetCFilters := mkMsgGetCFilters { gf_FilterType : Z; gf_StartHeight : Z; gf_StopHash : Hash }.

(** [getcfilters] and [getcfheaders] have the same form. *)
Definition cf_request_BtcDecode : Reader MsgGetCFilters :=
  let! ty := Uint8 in
  let! start := readElement EUint32 in
  let! stop := readElement EHash in
  ret (mkMsgGetCFilters ty start stop).
Definition cf_request_BtcEncode (msg : MsgGetCFilters) : result wire_error (list byte) :=
  Ok (PutUint8 (gf_FilterType msg) ++ writeElement EUint32 (gf_StartHeight msg) ++ writeElement EHash (gf_StopHash msg)).

Definition MsgGetCFilters_BtcDecode := cf_request_BtcDecode.
Definition MsgGetCFilters_BtcEncode := cf_request_BtcEncode.
Definition MsgGetCFHeaders_BtcDecode := cf_request_BtcDecode.
Definition MsgGetCFHeaders_BtcEncode := cf_request_BtcEncode.

Record MsgGetCFCheckpt := mkMsgGetCFCheckpt { gc_FilterType : Z; gc_StopHash : Hash }.
Definition MsgGetCFCheckpt_BtcDecode : Reader MsgGetCFCheckpt :=
  let! ty := Uint8 in
  let! stop := readElement EHash in
  ret (mkMsgGetCFCheckpt ty stop).
Definition MsgGetCFCheckpt_BtcEncode (msg : MsgGetCFCheckpt) : result wire_error (list byte) :=
  Ok (PutUint8 (gc_FilterType msg) ++ writeElement EHash (gc_StopHash msg)).

Record MsgCFilter := mkMsgCFilter { cf_FilterType : Z; cf_BlockHash : Hash; cf_Data : list byte }.
Definition MsgCFilter_BtcDecode : Reader MsgCFilter :=
  let! ty := Uint8 in
  let! hash := readElement EHash in
  let! d := ReadVarBytes MaxCFilterDataSize "cfilter data" in
  ret (mkMsgCFilter ty hash d).
Definition MsgCFilter_BtcEncode (msg : MsgCFilter) : result wire_error (list byte) :=
  if MaxCFilterDataSize <? zlen (cf_Data msg) then too_many "MsgCFilter.BtcEncode"
  else Ok (PutUint8 (cf_FilterType msg) ++ writeElement EHash (cf_BlockHash msg) ++ WriteVarBytes (cf_Data msg)).
Definition MsgCFilter_MaxPayloadLength : Z :=
  VarIntSerializeSize MaxCFilterDataSize + MaxCFilterDataSize + Z.of_nat HashSize + 1.

Record MsgCFHeaders := mkMsgCFHeaders {
  ch_FilterType : Z; ch_StopHash : Hash; ch_PrevFilterHeader : Hash; ch_FilterHashes : list Hash
}.
Definition AddCFHash (l : list Hash) (h : Hash) : result wire_error (list Hash) :=
  if MaxCFHeadersPerMsg <? zlen l + 1 then too_many "MsgCFHeaders.AddCFHash" else Ok (l ++ [h]).
Definition MsgCFHeaders_BtcDecode : Reader MsgCFHeaders :=
  let! ty := Uint8 in
  let! stop := readElement EHash in
  let! prev := readElement EHash in
  let! hashes := read_list "MsgCFHeaders.BtcDecode" MaxCFHeadersPerMsg (readElement EHash) in
  ret (mkMsgCFHeaders ty stop prev hashes).
Definition MsgCFHeaders_BtcEncode (msg : MsgCFHeaders) : result wire_error (list byte) :=
  if MaxCFHeadersPerMsg <? zlen (ch_FilterHashes msg) then too_many "MsgCFHeaders.BtcEncode"
  else Ok (PutUint8 (ch_FilterType msg) ++ writeElement EHash (ch_StopHash msg) ++
           writeElement EHash (ch_PrevFilterHeader msg) ++ write_list (writeElement EHash) (ch_FilterHashes msg)).
Definition MsgCFHeaders_MaxPayloadLength : Z :=
  1 + Z.of_nat HashSize + Z.of_nat HashSize + MaxVarIntPayload + Z.of_nat HashSize * MaxCFHeadersPerMsg.

Record MsgCFCheckpt := mkMsgCFCheckpt { cc_FilterType : Z; cc_StopHash : Hash; cc_FilterHeaders : list Hash }.
(** The slice was allocated with room for [capacity] headers. *)
Definition AddCFHeader (capacity : Z) (l : list Hash) (h : Hash) : result wire_error (list Hash) :=
  if zlen l =? capacity then Err (MessageError "MsgCFCheckpt.AddCFHeader" "insufficient capacity") else Ok (l ++ [h]).
Definition MsgCFCheckpt_BtcDecode : Reader MsgCFCheckpt :=
  let! ty := Uint8 in
  let! stop := readElement EHash in
  let! count := ReadVarInt in
  if maxCFHeadersLen <? count then fail ErrInsaneCFHeaderCount
  else
    let! headers := read_n (Z.to_nat count) (readElement EHash) in
    ret (mkMsgCFCheckpt ty stop headers).
(** The encoder has no bound. *)
Definition MsgCFCheckpt_BtcEncode (msg : MsgCFCheckpt) : result wire_error (list byte) :=
  Ok (PutUint8 (cc_FilterType msg) ++ writeElement EHash (cc_StopHash msg) ++
      write_list (writeElement EHash) (cc_FilterHeaders msg)).

(** ** Alerts: wire/msgalert.go *)

Definition fixedAlertSize : Z := 45.
Definition maxSignatureSize : Z := 72.
Definition maxAlertSize : Z := MaxMessagePayload - maxSignatureSize - MaxVarIntPayload - 1.
Definition maxCountSetCancel : Z := (maxAlertSize - fixedAlertSize - MaxVarIntPayload + 1) / 4.
Definition maxCountSetSubVer : Z := (maxAlertSize - fixedAlertSize - MaxVarIntPayload + 1) / 256.

Record Alert := mkAlert {
  al_Version : Z; al_RelayUntil : Z; al_Expiration : Z; al_ID : Z; al_Cancel : Z; al_SetCancel : list Z;
  al_MinVer : Z; al_MaxVer : Z; al_SetSubVer : list (list byte); al_Priority : Z;
  al_Comment : list byte; al_StatusBar : list byte; al_Reserved : list byte
}.

Definition Alert_Serialize (alert : Alert) : result wire_error (list byte) :=
  if maxCountSetCancel <? zlen (al_SetCancel alert) then too_many "Alert.Serialize"
  else if maxCountSetSubVer <? zlen (al_SetSubVer alert) then too_many "Alert.Serialize"
  else Ok (writeElement EInt32 (al_Version alert) ++ writeElement EInt64 (al_RelayUntil alert) ++
           writeElement EInt64 (al_Expiration alert) ++ writeElement EInt32 (al_ID alert) ++
           writeElement EInt32 (al_Cancel alert) ++ write_list (writeElement EInt32) (al_SetCancel alert) ++
           writeElement EInt32 (al_MinVer alert) ++ writeElement EInt32 (al_MaxVer alert) ++
           write_list WriteVarString (al_SetSubVer alert) ++ writeElement EInt32 (al_Priority alert) ++
           WriteVarString (al_Comment alert) ++ WriteVarString (al_StatusBar alert) ++ WriteVarString (al_Reserved alert)).

Definition Alert_Deserialize : Reader Alert :=
  let! version := readElement EInt32 in
  let! relayUntil := readElement EInt64 in
  let! expiration := readElement EInt64 in
  let! id := readElement EInt32 in
  let! cancel := readElement EInt32 in
  let! setCancel := read_list "Alert.Deserialize" maxCountSetCancel (readElement EInt32) in
  let! minVer := readElement EInt32 in
  let! maxVer := readElement EInt32 in
  let! setSubVer := read_list "Alert.Deserialize" maxCountSetSubVer ReadVarString in
  let! priority := readElement EInt32 in
  let! comment := ReadVarString in
  let! statusBar := ReadVarString in
  let! reserved := ReadVarString in
  ret (mkAlert version relayUntil expiration id cancel setCancel minVer maxVer setSubVer priority comment statusBar reserved).

Definition NewAlertFromPayload (serializedPayload : list byte) : option Alert :=
  match Alert_Deserialize serializedPayload with Ok (a, _) => Some a | _ => None end.

Record MsgAlert := mkMsgAlert { ma_SerializedPayload : list byte; ma_Signature : list byte; ma_Payload : option Alert }.

Definition MsgAlert_BtcDecode : Reader MsgAlert :=
  let! serialized := ReadVarBytes MaxMessagePayload "alert serialized payload" in
  let! signature := ReadVarBytes MaxMessagePayload "alert signature" in
  ret (mkMsgAlert serialized signature (NewAlertFromPayload serialized)).

Definition MsgAlert_BtcEncode (msg : MsgAlert) : result wire_error (list byte) :=
  let serializedpayload :=
    match ma_Payload msg with
    | Some alert => match Alert_Serialize alert with Ok r => r | _ => ma_SerializedPayload msg end
    | None => ma_SerializedPayload msg
    end in
  if zlen serializedpayload =? 0 then Err (MessageError "MsgAlert.BtcEncode" "empty serialized payload")
  else Ok (WriteVarBytes serializedpayload ++ WriteVarBytes (ma_Signature msg)).
