(* ===== verification/WireNetSpec.v ===== *)
(** * The inherited messages survive the wire

    For every message of [WireNet], the values its encoder can carry and that
    the decoder gives them back.  What an encoder itself refuses (counts above
    the limit of the message, a protocol version before the message existed) is
    a premise only through the success of the encoder. *)
From Stdlib Require Import String.
From S2P Require Import Prelude Chainhash Wire Hash WireMsg WireNet.
Import ListNotations.
Open Scope Z_scope.
Open Scope list_scope.

(** ** Lists *)

Lemma read_list_write {A} f m (c : Reader A) w (P : A -> Prop) l rest :
  (forall a rest, P a -> c (w a ++ rest) = Ok (a, rest)) ->
  Forall P l -> zlen l <= m -> m <= 2 ^ 32 ->
  read_list f m c (write_list w l ++ rest) = Ok (l, rest).
Proof.
  intros Hc Hl Hlen Hm. unfold read_list, write_list. rewrite <- (assoc_L (++)).
  erewrite bind_Ok by (apply ReadVarInt_write; eapply count_in_ok; eassumption).
  rewrite (proj2 (Z.ltb_ge _ _)) by done. unfold zlen. rewrite Nat2Z.id.
  by apply (read_n_write _ _ P).
Qed.

Lemma read_elements_write f m k (l : list (elem_ty k)) rest :
  Forall (elem_ok k) l -> zlen l <= m -> m <= 2 ^ 32 ->
  read_list f m (readElement k) (write_list (writeElement k) l ++ rest) = Ok (l, rest).
Proof. intros. apply (read_list_write _ _ _ _ (elem_ok k)); auto. intros. by apply readElement_write. Qed.

#[export] Hint Resolve read_elements_write ReadVarString_write ReadVarBytes_write : wire.

(** Close a bound on constants. *)
Ltac limit := solve [vm_compute; discriminate | split; [vm_compute; discriminate | vm_compute; reflexivity]].
#[export] Hint Extern 5 (_ <= 2 ^ 32) => limit : wire.
#[export] Hint Extern 5 (is_u32 _) => limit : wire.

(** Name the branch an encoder took. *)
Ltac encoded H :=
  repeat match type of H with
  | (if ?b then _ else _) = Ok _ => destruct b eqn:?; [discriminate H|]
  | rbind ?c _ = Ok _ => destruct c eqn:?; [|discriminate H|discriminate H]; cbn [rbind] in H
  end;
  apply Ok_inj in H; subst; bool_to_Z.

(** ** Network addresses *)

(** An address the wire carries: sixteen bytes, and a time stamp where the
    protocol version has one. *)
Record net_address_ok (pver : Z) (ts : bool) (na : NetAddress) : Prop := {
  naok_time : if ts && (NetAddressTimeVersion <=? pver) then is_u32 (na_Timestamp na) else na_Timestamp na = zero_time;
  naok_services : is_u64 (na_Services na);
  naok_ip : length (na_IP na) = 16%nat;
  naok_port : is_u16 (na_Port na)
}.

Lemma Uint16BE_Put z rest : is_u16 z -> Uint16BE (PutUint16BE z ++ rest) = Ok (z, rest).
Proof.
  intros Hz. unfold Uint16BE, PutUint16BE.
  erewrite bind_Ok by (apply ReadFull_app; by rewrite length_reverse, length_le_bytes).
  unfold ret, be_value. rewrite reverse_involutive, le_value_bytes. by rewrite Z.mod_small.
Qed.

Lemma To16_16 ip : length ip = 16%nat -> To16 ip ++ replicate (16 - length (To16 ip)) x00 = ip.
Proof. intros H. unfold To16. rewrite H. cbn [Nat.eqb]. rewrite H. apply app_nil_r. Qed.

Lemma readNetAddress_write pver ts na rest :
  net_address_ok pver ts na -> readNetAddress pver ts (writeNetAddress pver ts na ++ rest) = Ok (na, rest).
Proof.
  intros [Ht Hs Hip Hp]. unfold readNetAddress, writeNetAddress. cbv zeta. rewrite To16_16 by done.
  destruct (ts && _).
  - change (writeElement EUint32 (u32 ?t)) with (writeElement EUint32Time t).
    read_seq. erewrite bind_Ok by by apply Uint16BE_Put. by destruct na.
  - rewrite app_nil_l. unfold ret at 1. unfold bind at 1. cbn [rbind]. 
    read_seq. erewrite bind_Ok by by apply Uint16BE_Put. rewrite <- Ht. by destruct na.
Qed.
#[export] Hint Resolve readNetAddress_write : wire.

Lemma MsgAddr_wire pver l p rest :
  Forall (net_address_ok pver true) l -> MsgAddr_BtcEncode pver l = Ok p ->
  MsgAddr_BtcDecode pver (p ++ rest) = Ok (l, rest).
Proof.
  intros Hl H. unfold MsgAddr_BtcEncode in H. encoded H.
  apply (read_list_write _ _ _ _ (net_address_ok pver true)); auto; [|limit].
  intros. by apply readNetAddress_write.
Qed.

(** ** Locators, inventories and headers *)

Record locator_ok (m : MsgGetBlocks) : Prop := {
  lok_version : is_u32 (gbs_ProtocolVersion m);
  lok_hashes : Forall hash_ok (gbs_BlockLocatorHashes m);
  lok_stop : hash_ok (gbs_HashStop m)
}.

Lemma locator_wire f g m p rest :
  locator_ok m -> locator_BtcEncode f m = Ok p -> locator_BtcDecode g (p ++ rest) = Ok (m, rest).
Proof.
  intros [] H. unfold locator_BtcEncode in H. encoded H. unfold locator_BtcDecode.
  read_seq. by destruct m.
Qed.

Definition inv_ok (iv : InvVect) : Prop := is_u32 (iv_Type iv) /\ hash_ok (iv_Hash iv).

Lemma inv_wire f g l p rest :
  Forall inv_ok l -> inv_BtcEncode f l = Ok p -> inv_BtcDecode g (p ++ rest) = Ok (l, rest).
Proof.
  intros Hl H. unfold inv_BtcEncode in H. encoded H.
  apply (read_list_write _ _ _ _ inv_ok); auto; [|limit].
  intros iv r Hiv. exact (codec_read_write iv r Hiv).
Qed.

Lemma MsgHeaders_wire l p rest :
  Forall header_ok l -> MsgHeaders_BtcEncode l = Ok p -> MsgHeaders_BtcDecode (p ++ rest) = Ok (l, rest).
Proof.
  intros Hl H. unfold MsgHeaders_BtcEncode in H. encoded H.
  apply (read_list_write _ _ _ _ header_ok); auto; [|limit].
  intros bh r Hbh. unfold read_header_entry. read_seq.
  erewrite bind_Ok by (apply ReadVarInt_write; limit). done.
Qed.

(** ** The handshake *)

Record version_ok (pver : Z) (m : MsgVersion) : Prop := {
  vok_version : is_i32 (mv_ProtocolVersion m);
  vok_services : is_u64 (mv_Services m);
  vok_time : is_i64 (mv_Timestamp m);
  vok_you : net_address_ok pver false (mv_AddrYou m);
  vok_me : net_address_ok pver false (mv_AddrMe m);
  vok_nonce : is_u64 (mv_Nonce m);
  vok_last : is_i32 (mv_LastBlock m);
  vok_relay : pver < BIP0037Version -> mv_DisableRelayTx m = false
}.

Lemma optional_Ok {A} (d : A) c r a r' : r <> [] -> c r = Ok (a, r') -> optional d c r = Ok (a, r').
Proof. by destruct r. Qed.

Lemma read_user_agent_write s rest :
  validateUserAgent s = Ok tt -> read_user_agent (WriteVarString s ++ rest) = Ok (s, rest).
Proof.
  intros Hs. unfold read_user_agent. erewrite bind_Ok; [by rewrite Hs|].
  apply ReadVarString_write. unfold validateUserAgent in Hs. destruct (MaxUserAgentLen <? zlen s) eqn:H; [done|].
  bool_to_Z. unfold MaxUserAgentLen, zlen in H. unfold MaxMessagePayload. lia.
Qed.

Lemma le_bytes_cons_ne n z r : le_bytes (S n) z ++ r <> [].
Proof. done. Qed.

Lemma WriteVarInt_ne v r : WriteVarInt v ++ r <> [].
Proof. unfold WriteVarInt. by repeat case_if. Qed.

Lemma writeNetAddress_ne pver na r : writeNetAddress pver false na ++ r <> [].
Proof. done. Qed.

Lemma read_relay_write b rest : read_relay (writeElement EBool (negb b) ++ rest) = Ok (b, rest).
Proof. unfold read_relay. rewrite readElement_write by done. by rewrite negb_involutive. Qed.

Lemma MsgVersion_wire pver m p :
  version_ok pver m -> MsgVersion_BtcEncode pver m = Ok p -> MsgVersion_BtcDecode pver p = Ok (m, []).
Proof.
  intros [] H. unfold MsgVersion_BtcEncode in H. destruct (validateUserAgent _) as [[]| |] eqn:Hua; [|done|done].
  apply Ok_inj in H. subst p.
  unfold MsgVersion_BtcDecode. change (writeElement EInt64 ?t) with (writeElement EInt64Time t).
  do 4 read_step.
  erewrite bind_Ok by (apply optional_Ok; [apply writeNetAddress_ne|by apply readNetAddress_write]).
  erewrite bind_Ok by (apply optional_Ok; [done|by apply (readElement_write EUint64)]).
  erewrite bind_Ok by (apply optional_Ok;
    [unfold WriteVarString; rewrite <- (assoc_L (++)); apply WriteVarInt_ne|by apply read_user_agent_write]).
  erewrite bind_Ok by (apply optional_Ok; [done|by apply (readElement_write EInt32)]).
  destruct (BIP0037Version <=? pver) eqn:Hv.
  - rewrite <- (app_nil_r (writeElement EBool _)).
    erewrite bind_Ok by (apply optional_Ok; [by destruct (mv_DisableRelayTx m)|apply read_relay_write]). by destruct m.
  - bool_to_Z. unfold optional, bind, ret. cbn [rbind]. rewrite <- vok_relay0 by done. by destruct m.
Qed.

(** ** Keeping alive, rejections, filters *)

Lemma MsgPing_wire pver n rest :
  (if BIP0031Version <? pver then is_u64 n else n = 0) ->
  MsgPing_BtcDecode pver (MsgPing_BtcEncode pver n ++ rest) = Ok (n, rest).
Proof.
  intros Hn. unfold MsgPing_BtcDecode, MsgPing_BtcEncode. destruct (_ <? pver).
  - by apply (readElement_write EUint64).
  - by subst n.
Qed.

Lemma MsgPong_wire pver n p rest :
  is_u64 n -> MsgPong_BtcEncode pver n = Ok p -> MsgPong_BtcDecode pver (p ++ rest) = Ok (n, rest).
Proof.
  intros Hn H. unfold MsgPong_BtcEncode in H. unfold MsgPong_BtcDecode. encoded H.
  by apply (readElement_write EUint64).
Qed.

Lemma MsgFeeFilter_wire pver n p rest :
  is_i64 n -> MsgFeeFilter_BtcEncode pver n = Ok p -> MsgFeeFilter_BtcDecode pver (p ++ rest) = Ok (n, rest).
Proof.
  intros Hn H. unfold MsgFeeFilter_BtcEncode in H. unfold MsgFeeFilter_BtcDecode. encoded H.
  by apply (readElement_write EInt64).
Qed.

Lemma empty_wire f g least pver p rest :
  empty_BtcEncode f least pver = Ok p -> empty_BtcDecode g least pver (p ++ rest) = Ok (tt, rest).
Proof. intros H. unfold empty_BtcEncode in H. unfold empty_BtcDecode. by encoded H. Qed.

Record reject_ok (m : MsgReject) : Prop := {
  rok_cmd : zlen (mr_Cmd m) <= MaxMessagePayload;
  rok_code : is_u8 (mr_Code m);
  rok_reason : zlen (mr_Reason m) <= MaxMessagePayload;
  rok_hash : if reject_has_hash (mr_Cmd m) then hash_ok (mr_Hash m) else mr_Hash m = zero_hash
}.

Lemma MsgReject_wire pver m p rest :
  reject_ok m -> MsgReject_BtcEncode pver m = Ok p -> MsgReject_BtcDecode pver (p ++ rest) = Ok (m, rest).
Proof.
  intros [] H. unfold MsgReject_BtcEncode in H. unfold MsgReject_BtcDecode.
  destruct (pver <? RejectVersion); [done|]. apply Ok_inj in H. subst p.
  do 3 read_step. destruct (reject_has_hash _).
  - read_seq. by destruct m.
  - unfold bind, ret. cbn [rbind]. rewrite <- rok_hash0. by destruct m.
Qed.

Record filter_load_ok (m : MsgFilterLoad) : Prop := {
  flok_funcs : is_u32 (fl_HashFuncs m); flok_tweak : is_u32 (fl_Tweak m); flok_flags : is_u8 (fl_Flags m)
}.

Lemma MsgFilterLoad_wire pver m p rest :
  filter_load_ok m -> MsgFilterLoad_BtcEncode pver m = Ok p ->
  MsgFilterLoad_BtcDecode pver (p ++ rest) = Ok (m, rest).
Proof.
  intros [] H. unfold MsgFilterLoad_BtcEncode in H. unfold MsgFilterLoad_BtcDecode. encoded H.
  read_seq. rewrite (proj2 (Z.ltb_ge _ _)) by done. by destruct m.
Qed.

Lemma MsgFilterAdd_wire pver d p rest :
  MsgFilterAdd_BtcEncode pver d = Ok p -> MsgFilterAdd_BtcDecode pver (p ++ rest) = Ok (d, rest).
Proof.
  intros H. unfold MsgFilterAdd_BtcEncode in H. unfold MsgFilterAdd_BtcDecode. encoded H.
  apply ReadVarBytes_write; [done|limit].
Qed.

Record merkle_block_ok (m : MsgMerkleBlock) : Prop := {
  mbok_header : header_ok (mk_Header m);
  mbok_transactions : is_u32 (mk_Transactions m);
  mbok_hashes : Forall hash_ok (mk_Hashes m)
}.

Lemma MsgMerkleBlock_wire pver m p rest :
  merkle_block_ok m -> MsgMerkleBlock_BtcEncode pver m = Ok p ->
  MsgMerkleBlock_BtcDecode pver (p ++ rest) = Ok (m, rest).
Proof.
  intros [] H. unfold MsgMerkleBlock_BtcEncode in H. unfold MsgMerkleBlock_BtcDecode. encoded H.
  read_seq. by destruct m.
Qed.

(** ** Committed filters *)

Record cf_request_ok (m : MsgGetCFilters) : Prop := {
  cfok_type : is_u8 (gf_FilterType m); cfok_start : is_u32 (gf_StartHeight m); cfok_stop : hash_ok (gf_StopHash m)
}.
Definition cf_checkpt_request_ok (m : MsgGetCFCheckpt) : Prop := is_u8 (gc_FilterType m) /\ hash_ok (gc_StopHash m).
Definition cfilter_ok (m : MsgCFilter) : Prop := is_u8 (cf_FilterType m) /\ hash_ok (cf_BlockHash m).
Record cf_headers_ok (m : MsgCFHeaders) : Prop := {
  chok_type : is_u8 (ch_FilterType m);
  chok_stop : hash_ok (ch_StopHash m);
  chok_prev : hash_ok (ch_PrevFilterHeader m);
  chok_hashes : Forall hash_ok (ch_FilterHashes m)
}.
(** The encoder of the check points has no limit, the decoder has. *)
Record cf_checkpt_ok (m : MsgCFCheckpt) : Prop := {
  ccok_type : is_u8 (cc_FilterType m);
  ccok_stop : hash_ok (cc_StopHash m);
  ccok_headers : Forall hash_ok (cc_FilterHeaders m);
  ccok_count : zlen (cc_FilterHeaders m) <= maxCFHeadersLen
}.

Lemma cf_request_wire m p rest :
  cf_request_ok m -> cf_request_BtcEncode m = Ok p -> cf_request_BtcDecode (p ++ rest) = Ok (m, rest).
Proof.
  intros [] H. unfold cf_request_BtcEncode in H. apply Ok_inj in H. subst p.
  unfold cf_request_BtcDecode. read_seq. by destruct m.
Qed.

Lemma MsgGetCFCheckpt_wire m p rest :
  cf_checkpt_request_ok m -> MsgGetCFCheckpt_BtcEncode m = Ok p -> MsgGetCFCheckpt_BtcDecode (p ++ rest) = Ok (m, rest).
Proof.
  intros [Ht Hs] H. unfold MsgGetCFCheckpt_BtcEncode in H. apply Ok_inj in H. subst p.
  unfold MsgGetCFCheckpt_BtcDecode. read_seq. by destruct m.
Qed.

Lemma MsgCFilter_wire m p rest :
  cfilter_ok m -> MsgCFilter_BtcEncode m = Ok p -> MsgCFilter_BtcDecode (p ++ rest) = Ok (m, rest).
Proof.
  intros [Ht Hs] H. unfold MsgCFilter_BtcEncode in H. encoded H.
  unfold MsgCFilter_BtcDecode. read_seq. by destruct m.
Qed.

Lemma MsgCFHeaders_wire m p rest :
  cf_headers_ok m -> MsgCFHeaders_BtcEncode m = Ok p -> MsgCFHeaders_BtcDecode (p ++ rest) = Ok (m, rest).
Proof.
  intros [] H. unfold MsgCFHeaders_BtcEncode in H. encoded H.
  unfold MsgCFHeaders_BtcDecode. read_seq. by destruct m.
Qed.

Lemma MsgCFCheckpt_wire m p rest :
  cf_checkpt_ok m -> MsgCFCheckpt_BtcEncode m = Ok p -> MsgCFCheckpt_BtcDecode (p ++ rest) = Ok (m, rest).
Proof.
  intros Hm H. destruct Hm. unfold MsgCFCheckpt_BtcEncode in H. apply Ok_inj in H. subst p.
  unfold MsgCFCheckpt_BtcDecode, write_list. do 2 read_step.
  erewrite bind_Ok by (apply ReadVarInt_write; eapply count_in_ok; [eassumption|limit]).
  rewrite (proj2 (Z.ltb_ge _ _)) by done. unfold zlen. rewrite Nat2Z.id.
  erewrite bind_Ok by (by apply (read_n_write _ _ hash_ok); [intros; apply (readElement_write EHash)|]).
  by destruct m.
Qed.

(** ** Alerts *)

Definition text_ok (s : list byte) : Prop := zlen s <= MaxMessagePayload.

Record alert_ok (a : Alert) : Prop := {
  aok_version : is_i32 (al_Version a);
  aok_relay : is_i64 (al_RelayUntil a);
  aok_expiration : is_i64 (al_Expiration a);
  aok_id : is_i32 (al_ID a);
  aok_cancel : is_i32 (al_Cancel a);
  aok_set_cancel : Forall is_i32 (al_SetCancel a);
  aok_min : is_i32 (al_MinVer a);
  aok_max : is_i32 (al_MaxVer a);
  aok_set_sub : Forall text_ok (al_SetSubVer a);
  aok_priority : is_i32 (al_Priority a);
  aok_comment : text_ok (al_Comment a);
  aok_status : text_ok (al_StatusBar a);
  aok_reserved : text_ok (al_Reserved a)
}.

Lemma read_texts_write f m l rest :
  Forall text_ok l -> zlen l <= m -> m <= 2 ^ 32 ->
  read_list f m ReadVarString (write_list WriteVarString l ++ rest) = Ok (l, rest).
Proof. intros. apply (read_list_write _ _ _ _ text_ok); auto. intros. by apply ReadVarString_write. Qed.
#[local] Hint Resolve read_texts_write : wire.

Lemma Alert_Deserialize_Serialize a p rest :
  alert_ok a -> Alert_Serialize a = Ok p -> Alert_Deserialize (p ++ rest) = Ok (a, rest).
Proof.
  intros [] H. unfold Alert_Serialize in H. encoded H. unfold Alert_Deserialize.
  read_seq. by destruct a.
Qed.

(** An alert message is either understood, and then its bytes are those of the
    alert, or it is opaque. *)
Definition msg_alert_ok (m : MsgAlert) : Prop :=
  zlen (ma_SerializedPayload m) <= MaxMessagePayload /\ zlen (ma_Signature m) <= MaxMessagePayload /\
  match ma_Payload m with
  | Some a => alert_ok a /\ Alert_Serialize a = Ok (ma_SerializedPayload m)
  | None => NewAlertFromPayload (ma_SerializedPayload m) = None
  end.

Lemma MsgAlert_wire m p rest :
  msg_alert_ok m -> MsgAlert_BtcEncode m = Ok p -> MsgAlert_BtcDecode (p ++ rest) = Ok (m, rest).
Proof.
  intros (Hs & Hg & Hp) H. unfold MsgAlert_BtcEncode in H.
  assert (Hsp : NewAlertFromPayload (ma_SerializedPayload m) = ma_Payload m).
  { destruct (ma_Payload m) as [a|]; [|done]. destruct Hp as [Ha Hse]. unfold NewAlertFromPayload.
    rewrite <- (app_nil_r (ma_SerializedPayload m)). by rewrite (Alert_Deserialize_Serialize a). }
  assert (H' : (if zlen (ma_SerializedPayload m) =? 0 then Err (MessageError "MsgAlert.BtcEncode" "empty serialized payload")
                else Ok (WriteVarBytes (ma_SerializedPayload m) ++ WriteVarBytes (ma_Signature m))) = Ok p).
  { destruct (ma_Payload m) as [a|]; [|done]. by rewrite (proj2 Hp) in H. }
  clear H. encoded H'. unfold MsgAlert_BtcDecode. read_seq. rewrite Hsp. by destruct m.
Qed.
