(* ===== verification/Framing.v ===== *)
(** * Framing: wire/message.go

    The interface [Message] as the sum of its thirty-three implementations, the
    dispatch on the command, and the reading and writing of framed messages.  A
    connection is the list of the bytes still to come; [io.ReadFull] on a
    connection that ends early consumes what is left.  The messages whose form
    is the same share a record ([getblocks] and [getheaders]; [inv], [getdata]
    and [notfound]; [getcfilters] and [getcfheaders]). *)
From Stdlib Require Import String.
From S2P Require Import Prelude Chainhash Wire Hash WireMsg WireNet WireNetSpec.
Import ListNotations.
Open Scope Z_scope.
Open Scope list_scope.

(** ** Messages *)

Inductive Message :=
  | VersionMsg (m : MsgVersion) | VerAckMsg | GetAddrMsg | AddrMsg (m : list NetAddress)
  | GetBlocksMsg (m : MsgGetBlocks) | InvMsg (m : list InvVect) | GetDataMsg (m : list InvVect) | NotFoundMsg (m : list InvVect)
  | BlockMsg (m : MsgBlock) | CandidateMsg (m : MsgCandidate) | TxMsg (m : MsgTx) | GetHeadersMsg (m : MsgGetBlocks)
  | HeadersMsg (m : list BlockHeader) | PingMsg (m : Z) | PongMsg (m : Z) | AlertMsg (m : MsgAlert)
  | MemPoolMsg | FilterAddMsg (m : list byte) | FilterClearMsg | FilterLoadMsg (m : MsgFilterLoad)
  | MerkleBlockMsg (m : MsgMerkleBlock) | RejectMsg (m : MsgReject) | SendHeadersMsg | FeeFilterMsg (m : Z)
  | GetCFiltersMsg (m : MsgGetCFilters) | GetCFHeadersMsg (m : MsgGetCFilters) | GetCFCheckptMsg (m : MsgGetCFCheckpt) | CFilterMsg (m : MsgCFilter)
  | CFHeadersMsg (m : MsgCFHeaders) | CFCheckptMsg (m : MsgCFCheckpt) | SignMsg (m : MsgSign) | GetBlockMsg (m : MsgGetBlock)
  | SyncBlockMsg (m : MsgSyncBlock).

Definition Command (msg : Message) : Cmd :=
  match msg with
  | VersionMsg _ => CmdVersion | VerAckMsg => CmdVerAck | GetAddrMsg => CmdGetAddr
  | AddrMsg _ => CmdAddr | GetBlocksMsg _ => CmdGetBlocks | InvMsg _ => CmdInv
  | GetDataMsg _ => CmdGetData | NotFoundMsg _ => CmdNotFound | BlockMsg _ => CmdBlock
  | CandidateMsg _ => CmdCandidate | TxMsg _ => CmdTx | GetHeadersMsg _ => CmdGetHeaders
  | HeadersMsg _ => CmdHeaders | PingMsg _ => CmdPing | PongMsg _ => CmdPong
  | AlertMsg _ => CmdAlert | MemPoolMsg => CmdMemPool | FilterAddMsg _ => CmdFilterAdd
  | FilterClearMsg => CmdFilterClear | FilterLoadMsg _ => CmdFilterLoad | MerkleBlockMsg _ => CmdMerkleBlock
  | RejectMsg _ => CmdReject | SendHeadersMsg => CmdSendHeaders | FeeFilterMsg _ => CmdFeeFilter
  | GetCFiltersMsg _ => CmdGetCFilters | GetCFHeadersMsg _ => CmdGetCFHeaders | GetCFCheckptMsg _ => CmdGetCFCheckpt
  | CFilterMsg _ => CmdCFilter | CFHeadersMsg _ => CmdCFHeaders | CFCheckptMsg _ => CmdCFCheckpt
  | SignMsg _ => CmdSign | GetBlockMsg _ => CmdGetBlock | SyncBlockMsg _ => CmdSyncBlock
  end.

Definition all_commands : list Cmd :=
  [CmdVersion; CmdVerAck; CmdGetAddr; CmdAddr; CmdGetBlocks; CmdInv; CmdGetData; CmdNotFound; CmdBlock; CmdCandidate;
   CmdTx; CmdGetHeaders; CmdHeaders; CmdPing; CmdPong; CmdAlert; CmdMemPool; CmdFilterAdd; CmdFilterClear;
   CmdFilterLoad; CmdMerkleBlock; CmdReject; CmdSendHeaders; CmdFeeFilter; CmdGetCFilters; CmdGetCFHeaders;
   CmdGetCFCheckpt; CmdCFilter; CmdCFHeaders; CmdCFCheckpt; CmdSign; CmdGetBlock; CmdSyncBlock].

(** [makeEmptyMessage]: the concrete type a command stands for. *)
Definition makeEmptyMessage (command : list byte) : option Cmd :=
  list_find (fun c => command = command_text c) all_commands ≫= fun ic => Some (snd ic).

Definition map_reader {A B} (f : A -> B) (c : Reader A) : Reader B := let! a := c in ret (f a).

Definition BtcDecode (pver : Z) (enc : MessageEncoding) (cmd : Cmd) : Reader Message :=
  match cmd with
  | CmdVersion => map_reader VersionMsg (MsgVersion_BtcDecode pver)
  | CmdVerAck => map_reader (fun _ => VerAckMsg) MsgVerAck_BtcDecode
  | CmdGetAddr => map_reader (fun _ => GetAddrMsg) MsgGetAddr_BtcDecode
  | CmdAddr => map_reader AddrMsg (MsgAddr_BtcDecode pver)
  | CmdGetBlocks => map_reader GetBlocksMsg MsgGetBlocks_BtcDecode
  | CmdInv => map_reader InvMsg MsgInv_BtcDecode
  | CmdGetData => map_reader GetDataMsg MsgGetData_BtcDecode
  | CmdNotFound => map_reader NotFoundMsg MsgNotFound_BtcDecode
  | CmdBlock => map_reader BlockMsg (MsgBlock_BtcDecode enc)
  | CmdCandidate => map_reader CandidateMsg (MsgCandidate_BtcDecode enc)
  | CmdTx => map_reader TxMsg (MsgTx_BtcDecode enc)
  | CmdGetHeaders => map_reader GetHeadersMsg MsgGetHeaders_BtcDecode
  | CmdHeaders => map_reader HeadersMsg MsgHeaders_BtcDecode
  | CmdPing => map_reader PingMsg (MsgPing_BtcDecode pver)
  | CmdPong => map_reader PongMsg (MsgPong_BtcDecode pver)
  | CmdAlert => map_reader AlertMsg MsgAlert_BtcDecode
  | CmdMemPool => map_reader (fun _ => MemPoolMsg) (MsgMemPool_BtcDecode pver)
  | CmdFilterAdd => map_reader FilterAddMsg (MsgFilterAdd_BtcDecode pver)
  | CmdFilterClear => map_reader (fun _ => FilterClearMsg) (MsgFilterClear_BtcDecode pver)
  | CmdFilterLoad => map_reader FilterLoadMsg (MsgFilterLoad_BtcDecode pver)
  | CmdMerkleBlock => map_reader MerkleBlockMsg (MsgMerkleBlock_BtcDecode pver)
  | CmdReject => map_reader RejectMsg (MsgReject_BtcDecode pver)
  | CmdSendHeaders => map_reader (fun _ => SendHeadersMsg) (MsgSendHeaders_BtcDecode pver)
  | CmdFeeFilter => map_reader FeeFilterMsg (MsgFeeFilter_BtcDecode pver)
  | CmdGetCFilters => map_reader GetCFiltersMsg MsgGetCFilters_BtcDecode
  | CmdGetCFHeaders => map_reader GetCFHeadersMsg MsgGetCFHeaders_BtcDecode
  | CmdGetCFCheckpt => map_reader GetCFCheckptMsg MsgGetCFCheckpt_BtcDecode
  | CmdCFilter => map_reader CFilterMsg MsgCFilter_BtcDecode
  | CmdCFHeaders => map_reader CFHeadersMsg MsgCFHeaders_BtcDecode
  | CmdCFCheckpt => map_reader CFCheckptMsg MsgCFCheckpt_BtcDecode
  | CmdSign => map_reader SignMsg readSign
  | CmdGetBlock => map_reader GetBlockMsg MsgGetBlock_BtcDecode
  | CmdSyncBlock => map_reader SyncBlockMsg (MsgSyncBlock_BtcDecode enc)
  end.

Definition BtcEncode (pver : Z) (enc : MessageEncoding) (msg : Message) : result wire_error (list byte) :=
  match msg with
  | VersionMsg m => MsgVersion_BtcEncode pver m
  | VerAckMsg => MsgVerAck_BtcEncode
  | GetAddrMsg => MsgGetAddr_BtcEncode
  | AddrMsg m => MsgAddr_BtcEncode pver m
  | GetBlocksMsg m => MsgGetBlocks_BtcEncode m
  | InvMsg m => MsgInv_BtcEncode m
  | GetDataMsg m => MsgGetData_BtcEncode m
  | NotFoundMsg m => MsgNotFound_BtcEncode m
  | BlockMsg m => Ok (MsgBlock_BtcEncode enc m)
  | CandidateMsg m => Ok (MsgCandidate_BtcEncode enc m)
  | TxMsg m => Ok (MsgTx_BtcEncode enc m)
  | GetHeadersMsg m => MsgGetHeaders_BtcEncode m
  | HeadersMsg m => MsgHeaders_BtcEncode m
  | PingMsg m => Ok (MsgPing_BtcEncode pver m)
  | PongMsg m => MsgPong_BtcEncode pver m
  | AlertMsg m => MsgAlert_BtcEncode m
  | MemPoolMsg => MsgMemPool_BtcEncode pver
  | FilterAddMsg m => MsgFilterAdd_BtcEncode pver m
  | FilterClearMsg => MsgFilterClear_BtcEncode pver
  | FilterLoadMsg m => MsgFilterLoad_BtcEncode pver m
  | MerkleBlockMsg m => MsgMerkleBlock_BtcEncode pver m
  | RejectMsg m => MsgReject_BtcEncode pver m
  | SendHeadersMsg => MsgSendHeaders_BtcEncode pver
  | FeeFilterMsg m => MsgFeeFilter_BtcEncode pver m
  | GetCFiltersMsg m => MsgGetCFilters_BtcEncode m
  | GetCFHeadersMsg m => MsgGetCFHeaders_BtcEncode m
  | GetCFCheckptMsg m => MsgGetCFCheckpt_BtcEncode m
  | CFilterMsg m => MsgCFilter_BtcEncode m
  | CFHeadersMsg m => MsgCFHeaders_BtcEncode m
  | CFCheckptMsg m => MsgCFCheckpt_BtcEncode m
  | SignMsg m => Ok (writeSign m)
  | GetBlockMsg m => Ok (MsgGetBlock_BtcEncode m)
  | SyncBlockMsg m => Ok (MsgSyncBlock_BtcEncode enc m)
  end.

Definition MaxMsgGetBlock : Z := 5 + Z.of_nat HashSize.

Definition MaxPayloadLength (pver : Z) (cmd : Cmd) : Z :=
  match cmd with
  | CmdVersion => MsgVersion_MaxPayloadLength pver
  | CmdAddr => MsgAddr_MaxPayloadLength pver
  | CmdHeaders => MsgHeaders_MaxPayloadLength
  | CmdPing => MsgPing_MaxPayloadLength pver
  | CmdPong => MsgPong_MaxPayloadLength pver
  | CmdFilterAdd => MsgFilterAdd_MaxPayloadLength
  | CmdFilterLoad => MsgFilterLoad_MaxPayloadLength
  | CmdReject => MsgReject_MaxPayloadLength pver
  | CmdFeeFilter => 8
  | CmdGetCFCheckpt => 1 + Z.of_nat HashSize
  | CmdCFilter => MsgCFilter_MaxPayloadLength
  | CmdCFHeaders => MsgCFHeaders_MaxPayloadLength
  | CmdSign => MaxVotePayload
  | CmdGetBlock => MaxMsgGetBlock
  | CmdVerAck | CmdGetAddr | CmdMemPool | CmdFilterClear | CmdSendHeaders => 0
  | CmdGetBlocks | CmdGetHeaders => locator_MaxPayloadLength
  | CmdInv | CmdGetData | CmdNotFound => inv_MaxPayloadLength
  | CmdBlock | CmdCandidate | CmdTx | CmdMerkleBlock | CmdSyncBlock => MaxBlockPayload
  | CmdAlert | CmdCFCheckpt => MaxMessagePayload
  | CmdGetCFilters | CmdGetCFHeaders => 1 + 4 + Z.of_nat HashSize
  end.

(** ** Headers *)

Definition MessageHeaderSize : nat := 24.

Record messageHeader := mkMessageHeader { mh_magic : Z; mh_command : list byte; mh_length : Z; mh_checksum : list byte }.

(** [bytes.TrimRight] of the zero byte. *)
Fixpoint trim_zeros (bs : list byte) : list byte :=
  match bs with
  | [] => []
  | b :: bs => match trim_zeros bs with [] => if bool_decide (b = x00) then [] else [b] | t => b :: t end
  end.

(** [unicode/utf8.ValidString]: the accepted ranges of the second byte follow
    from the first. *)
Definition in_range (lo hi : Z) (b : byte) : bool := (lo <=? Z_of_byte b) && (Z_of_byte b <=? hi).
Definition continuation : byte -> bool := in_range 0x80 0xbf.
Definition second_byte (b0 : byte) : byte -> bool :=
  let v := Z_of_byte b0 in
  if v =? 0xe0 then in_range 0xa0 0xbf else if v =? 0xed then in_range 0x80 0x9f
  else if v =? 0xf0 then in_range 0x90 0xbf else if v =? 0xf4 then in_range 0x80 0x8f
  else continuation.
Fixpoint valid_utf8 (bs : list byte) : bool :=
  match bs with
  | [] => true
  | b0 :: bs =>
      if in_range 0 0x7f b0 then valid_utf8 bs
      else if in_range 0xc2 0xdf b0 then
        match bs with b1 :: bs => second_byte b0 b1 && valid_utf8 bs | _ => false end
      else if in_range 0xe0 0xef b0 then
        match bs with b1 :: b2 :: bs => second_byte b0 b1 && continuation b2 && valid_utf8 bs | _ => false end
      else if in_range 0xf0 0xf4 b0 then
        match bs with
        | b1 :: b2 :: b3 :: bs => second_byte b0 b1 && continuation b2 && continuation b3 && valid_utf8 bs
        | _ => false
        end
      else false
  end.

(** The four fields of the header bytes. *)
Definition parse_header : Reader messageHeader :=
  let! magic := readElement EBitcoinNet in
  let! command := readElement ECommand in
  let! length := readElement EUint32 in
  let! checksum := readElement EChecksum in
  ret (mkMessageHeader magic (trim_zeros command) length checksum).

(** [io.ReadFull] on a connection: the count, the outcome, what is left. *)
Definition read_full (n : nat) (r : list byte) : Z * result wire_error (list byte) * list byte :=
  match ReadFull n r with
  | Ok (b, r) => (Z.of_nat n, Ok b, r)
  | Err e => (zlen r, Err e, [])
  | Panic => (0, Panic, r)
  end.

Definition readMessageHeader (r : list byte) : Z * result wire_error messageHeader * list byte :=
  match read_full MessageHeaderSize r with
  | (n, Ok headerBytes, r) => (n, (let* (hdr, _) := parse_header headerBytes in Ok hdr), r)
  | (n, Err e, r) => (n, Err e, r)
  | (n, Panic, r) => (n, Panic, r)
  end.

(** What is left of the connection after [discardInput]. *)
Definition discardInput (r : list byte) (n : Z) : list byte :=
  let maxSize := 10 * 1024 in
  let numReads := n / maxSize in
  let bytesRemaining := n mod maxSize in
  let read (k : Z) r := snd (read_full (Z.to_nat k) r) in
  let r := if 0 <? n then Nat.iter (Z.to_nat numReads) (read maxSize) r else r in
  if 0 <? bytesRemaining then read bytesRemaining r else r.

Section Framing.
Context `{HashFunctions}.

Definition checksum (payload : list byte) : list byte := take 4 (DoubleHashB payload).

Definition writeError {A} (desc : string) : result wire_error A := Err (MessageError "WriteMessage" desc).

(** The bytes written to the connection; their number is the count returned. *)
Definition WriteMessageWithEncodingN (msg : Message) (pver btcnet : Z) (enc : MessageEncoding) : result wire_error (list byte) :=
  let cmd := command_text (Command msg) in
  if Z.of_nat CommandSize <? zlen cmd then writeError "command is too long"
  else
  let command := cmd ++ replicate (CommandSize - length cmd) x00 in
  let* payload := BtcEncode pver enc msg in
  let lenp := zlen payload in
  if MaxMessagePayload <? lenp then writeError "message payload is too large"
  else if MaxPayloadLength pver (Command msg) <? u32 lenp then writeError "message payload is too large for its type"
  else Ok (writeElement EBitcoinNet btcnet ++ writeElement ECommand command ++
           writeElement EUint32 (u32 lenp) ++ writeElement EChecksum (checksum payload) ++ payload).

Definition readError {A} (desc : string) : result wire_error A := Err (MessageError "ReadMessage" desc).

(** The count, the message with its payload or the error, and what is left of
    the connection. *)
Definition ReadMessageWithEncodingN (r : list byte) (pver btcnet : Z) (enc : MessageEncoding)
    : Z * result wire_error (Message * list byte) * list byte :=
  match readMessageHeader r with
  | (n, Err e, r) => (n, Err e, r)
  | (n, Panic, r) => (n, Panic, r)
  | (n, Ok hdr, r) =>
      if MaxMessagePayload <? mh_length hdr then (n, readError "message payload is too large", r)
      else if negb (mh_magic hdr =? btcnet) then
        (n, readError "message from other network", discardInput r (mh_length hdr))
      else if negb (valid_utf8 (mh_command hdr)) then
        (n, readError "invalid command", discardInput r (mh_length hdr))
      else
      match makeEmptyMessage (mh_command hdr) with
      | None => (n, readError "unhandled command", discardInput r (mh_length hdr))
      | Some cmd =>
          if MaxPayloadLength pver cmd <? mh_length hdr then
            (n, readError "payload exceeds max length", discardInput r (mh_length hdr))
          else
          match read_full (Z.to_nat (mh_length hdr)) r with
          | (k, Err e, r) => (n + k, Err e, r)
          | (k, Panic, r) => (n + k, Panic, r)
          | (k, Ok payload, r) =>
              if negb (bool_decide (checksum payload = mh_checksum hdr)) then
                (n + k, readError "payload checksum failed", r)
              else (n + k, (let* (msg, _) := BtcDecode pver enc cmd payload in Ok (msg, payload)), r)
          end
      end
  end.

Definition ReadMessageN r pver btcnet := ReadMessageWithEncodingN r pver btcnet BaseEncoding.
Definition WriteMessageN msg pver btcnet := WriteMessageWithEncodingN msg pver btcnet BaseEncoding.

End Framing.
