(* ===== verification/FramingSpec.v ===== *)
(** * Framing: what reading and writing messages guarantees

    Reading is the exact inverse of framing, a message that was written is read
    back, and a reader never loses the boundary between messages: whatever the
    outcome, exactly the bytes the header announces are consumed. *)
From Stdlib Require Import String.
From S2P Require Import Prelude Chainhash Wire Hash WireMsg WireNet WireNetSpec Framing.
Import ListNotations.
Open Scope Z_scope.
Open Scope list_scope.

(** ** Commands *)

Lemma command_text_inj c d : command_text c = command_text d -> c = d.
Proof. intros H. by destruct c, d; first [reflexivity | discriminate H]. Qed.

Lemma makeEmptyMessage_text c : makeEmptyMessage (command_text c) = Some c.
Proof. by destruct c. Qed.

Lemma makeEmptyMessage_Some text c : makeEmptyMessage text = Some c <-> text = command_text c.
Proof.
  split; [|by intros ->; apply makeEmptyMessage_text].
  unfold makeEmptyMessage. intros (ic & Hf & Hc)%bind_Some. destruct ic as [i d].
  apply (inj Some) in Hc. cbn [snd] in Hc. subst d. by apply list_find_Some in Hf as (_ & H & _).
Qed.

Lemma valid_utf8_command c : valid_utf8 (command_text c) = true.
Proof. by destruct c. Qed.

Definition padded (c : Cmd) : list byte := command_text c ++ replicate (CommandSize - length (command_text c)) x00.

Lemma command_length c : (length (command_text c) <= CommandSize)%nat.
Proof. apply Nat.leb_le. by destruct c. Qed.

Lemma length_padded c : length (padded c) = CommandSize.
Proof. unfold padded. rewrite length_app, length_replicate. pose proof (command_length c). lia. Qed.

Lemma trim_zeros_padded c : trim_zeros (padded c) = command_text c.
Proof. by destruct c. Qed.

Lemma trim_zeros_split bs : bs = trim_zeros bs ++ replicate (length bs - length (trim_zeros bs)) x00.
Proof.
  induction bs as [|b bs IH]; [done|]. cbn [trim_zeros]. destruct (trim_zeros bs) as [|t ts] eqn:Ht.
  - rewrite app_nil_l, Nat.sub_0_r in IH. case_bool_decide as Hb; [by subst b; cbn; f_equal|].
    cbn. rewrite Nat.sub_0_r. by f_equal.
  - cbn [app length Nat.sub]. f_equal. rewrite IH at 1. done.
Qed.

(** The padding is the only preimage of a command. *)
Lemma trim_zeros_command bs c :
  length bs = CommandSize -> trim_zeros bs = command_text c -> bs = padded c.
Proof. intros Hl Ht. rewrite (trim_zeros_split bs), Ht, Hl. done. Qed.

(** ** Skipping *)

Lemma snd_read_full n r : snd (read_full n r) = drop n r.
Proof.
  unfold read_full, ReadFull. destruct (n =? 0)%nat eqn:Hn; [apply Nat.eqb_eq in Hn; by subst n|].
  destruct r as [|b r]; [by rewrite drop_nil|].
  destruct (_ <? n)%nat eqn:Hl; [|done]. apply Nat.ltb_lt in Hl. cbn [snd]. by rewrite drop_ge by lia.
Qed.

Lemma iter_drop {A} k m (r : list A) : Nat.iter k (drop m) r = drop (k * m) r.
Proof.
  induction k as [|k IH]; [done|]. change (drop m (Nat.iter k (drop m) r) = drop (S k * m) r).
  rewrite IH, drop_drop. f_equal. lia.
Qed.

Lemma iter_ext {A} (f g : A -> A) k x : (forall y, f y = g y) -> Nat.iter k f x = Nat.iter k g x.
Proof. intros Hfg. induction k as [|k IH]; [done|]. change (f (Nat.iter k f x) = g (Nat.iter k g x)). by rewrite IH, Hfg. Qed.

Lemma discardInput_drop r n : 0 <= n -> discardInput r n = drop (Z.to_nat n) r.
Proof.
  intros Hn. unfold discardInput. cbv zeta.
  rewrite (iter_ext _ (drop (Z.to_nat (10 * 1024)))) by (intros; apply snd_read_full).
  rewrite snd_read_full, iter_drop. pose proof (Z.div_mod n (10 * 1024)) as Hd.
  pose proof (Z.mod_pos_bound n (10 * 1024)) as Hm. pose proof (Z.div_pos n (10 * 1024)) as Hq.
  destruct (0 <? n) eqn:H0, (0 <? n mod (10 * 1024)) eqn:H1; bool_to_Z; rewrite ?drop_drop; try f_equal; try lia.
  by replace n with 0 by lia.
Qed.

Lemma read_full_app n b r : length b = n -> read_full n (b ++ r) = (Z.of_nat n, Ok b, r).
Proof. intros Hb. unfold read_full. by rewrite ReadFull_app. Qed.

Lemma read_full_Ok n r k b r' :
  read_full n r = (k, Ok b, r') -> r = b ++ r' /\ length b = n /\ k = Z.of_nat n.
Proof.
  unfold read_full. destruct (ReadFull n r) as [[b0 r0]| |] eqn:H; [|done|done].
  intros [= <- <- <-]. by apply ReadFull_inv in H as [-> ->].
Qed.

(** ** Headers *)

Lemma parse_header_app m c l k :
  length m = 4%nat -> length c = CommandSize -> length l = 4%nat -> length k = 4%nat ->
  parse_header (m ++ c ++ l ++ k) = Ok (mkMessageHeader (le_value m) (trim_zeros c) (le_value l) k, []).
Proof.
  intros Hm Hc Hl Hk. unfold parse_header. rewrite <- (app_nil_r k) at 1.
  erewrite bind_Ok by (unfold readElement, Uint32; erewrite bind_Ok by (by apply ReadFull_app); reflexivity).
  erewrite bind_Ok by (by apply (ReadFull_app CommandSize)).
  erewrite bind_Ok by (unfold readElement, Uint32; erewrite bind_Ok by (by apply ReadFull_app); reflexivity).
  by erewrite bind_Ok by (by apply (ReadFull_app 4)).
Qed.

Lemma readMessageHeader_app m c l k r :
  length m = 4%nat -> length c = CommandSize -> length l = 4%nat -> length k = 4%nat ->
  readMessageHeader (m ++ c ++ l ++ k ++ r) = (24, Ok (mkMessageHeader (le_value m) (trim_zeros c) (le_value l) k), r).
Proof.
  intros Hm Hc Hl Hk. unfold readMessageHeader.
  replace (m ++ c ++ l ++ k ++ r) with ((m ++ c ++ l ++ k) ++ r) by by rewrite <- !(assoc_L (++)).
  rewrite read_full_app by (rewrite !length_app, Hm, Hc, Hl, Hk; done). by rewrite parse_header_app.
Qed.

Lemma readMessageHeader_Ok r n hdr r' :
  readMessageHeader r = (n, Ok hdr, r') ->
  n = 24 /\ exists m c l k, r = m ++ c ++ l ++ k ++ r' /\ length m = 4%nat /\ length c = CommandSize /\
    length l = 4%nat /\ length k = 4%nat /\ hdr = mkMessageHeader (le_value m) (trim_zeros c) (le_value l) k.
Proof.
  unfold readMessageHeader. destruct (read_full _ r) as [[k0 [b|e|]] r0] eqn:Hr; [|done|done].
  apply read_full_Ok in Hr as (-> & Hb & ->). intros Hh.
  assert (Hs : b = take 4 b ++ take 12 (drop 4 b) ++ take 4 (drop 16 b) ++ drop 20 b).
  { unfold MessageHeaderSize in Hb. clear Hh. do 24 (destruct b as [|? b]; [done|]). reflexivity. }
  unfold MessageHeaderSize in Hb.
  assert (length (take 4 b) = 4%nat) as H1 by (rewrite length_take; lia).
  assert (length (take 12 (drop 4 b)) = CommandSize) as H2
    by (rewrite length_take, length_drop; unfold CommandSize; lia).
  assert (length (take 4 (drop 16 b)) = 4%nat) as H3 by (rewrite length_take, length_drop; lia).
  assert (length (drop 20 b) = 4%nat) as H4 by (rewrite length_drop; lia).
  rewrite Hs, parse_header_app in Hh by done. cbn [rbind] in Hh. injection Hh as <- <- <-.
  split; [done|]. exists (take 4 b), (take 12 (drop 4 b)), (take 4 (drop 16 b)), (drop 20 b).
  split_and!; try done. rewrite Hs at 1. by rewrite <- !(assoc_L (++)).
Qed.

(** ** Decoding and encoding by command *)

Lemma map_reader_Ok {A B} (f : A -> B) c r a r' : c r = Ok (a, r') -> map_reader f c r = Ok (f a, r').
Proof. intros Hc. unfold map_reader. by erewrite bind_Ok by exact Hc. Qed.

Lemma map_reader_inv {A B} (f : A -> B) c r b r' : map_reader f c r = Ok (b, r') -> exists a, b = f a.
Proof. unfold map_reader. intros (a & r0 & _ & Hb)%bind_inv. injection Hb as <- _. by exists a. Qed.

Lemma BtcDecode_Command pver enc c r m t : BtcDecode pver enc c r = Ok (m, t) -> Command m = c.
Proof. destruct c; intros (a & ->)%map_reader_inv; reflexivity. Qed.

(** What a message must satisfy to be carried unchanged by the protocol version
    and the encoding; the limits an encoder checks itself are not repeated.
    Some messages that the encoders write are excluded, since they are read back
    changed: transactions with witnesses under [BaseEncoding], which drops them
    (server.go broadcasts candidates so), IP addresses of 4 bytes, which come
    back with 16, the nonce of a ping in versions without one, and fields that
    do not fit their width. *)
Definition message_ok (pver : Z) (enc : MessageEncoding) (msg : Message) : Prop :=
  match msg with
  | VersionMsg m => version_ok pver m
  | VerAckMsg | GetAddrMsg | MemPoolMsg | FilterClearMsg | SendHeadersMsg | FilterAddMsg _ => True
  | AddrMsg l => Forall (net_address_ok pver true) l
  | GetBlocksMsg m | GetHeadersMsg m => locator_ok m
  | InvMsg l | GetDataMsg l | NotFoundMsg l => Forall inv_ok l
  | BlockMsg m => block_body_ok enc (mb_Header m) (mb_Transactions m)
  | CandidateMsg m => candidate_ok enc m
  | TxMsg m => tx_ok enc m
  | HeadersMsg l => Forall header_ok l
  | PingMsg n => if BIP0031Version <? pver then is_u64 n else n = 0
  | PongMsg n => is_u64 n
  | AlertMsg m => msg_alert_ok m
  | FilterLoadMsg m => filter_load_ok m
  | MerkleBlockMsg m => merkle_block_ok m
  | RejectMsg m => reject_ok m
  | FeeFilterMsg n => is_i64 n
  | GetCFiltersMsg m | GetCFHeadersMsg m => cf_request_ok m
  | GetCFCheckptMsg m => cf_checkpt_request_ok m
  | CFilterMsg m => cfilter_ok m
  | CFHeadersMsg m => cf_headers_ok m
  | CFCheckptMsg m => cf_checkpt_ok m
  | SignMsg m => sign_ok m
  | GetBlockMsg m => getblock_ok m
  | SyncBlockMsg m => elem_ok EInt8 (sb_TypeParameter m) /\ candidate_ok enc (sb_MsgCandidate m)
  end.

Create HintDb wire_messages.
#[export] Hint Resolve MsgVersion_wire MsgAddr_wire locator_wire inv_wire MsgHeaders_wire MsgPing_wire MsgPong_wire
  MsgFeeFilter_wire empty_wire MsgReject_wire MsgFilterLoad_wire MsgFilterAdd_wire MsgMerkleBlock_wire
  cf_request_wire MsgGetCFCheckpt_wire MsgCFilter_wire MsgCFHeaders_wire MsgCFCheckpt_wire MsgAlert_wire : wire_messages.

(** Messages whose codec is an instance of the interface. *)
Lemma lawful_wire {A} `{LawfulCodec A} (a : A) p rest :
  codec_ok a -> Ok (E := wire_error) (codec_write a) = Ok p -> codec_read (p ++ rest) = Ok (a, rest).
Proof. intros Ha Hp. apply Ok_inj in Hp. subst p. by apply codec_read_write. Qed.

Lemma BtcDecode_BtcEncode pver enc m p :
  message_ok pver enc m -> BtcEncode pver enc m = Ok p -> BtcDecode pver enc (Command m) p = Ok (m, []).
Proof.
  intros Hm He. destruct m; cbn [message_ok] in Hm; cbn [BtcEncode] in He; cbn [Command BtcDecode];
    first [apply map_reader_Ok | apply (map_reader_Ok (fun _ : unit => _) _ _ tt)];
    first [by apply MsgVersion_wire | rewrite <- (app_nil_r p)];
    try (by eauto with wire_messages nocore).
  - apply Ok_inj in He. by subst p.
  - apply Ok_inj in He. by subst p.
  - exact (lawful_wire (H := block_codec enc) m p [] Hm He).
  - exact (lawful_wire (H := candidate_codec enc) m p [] Hm He).
  - exact (lawful_wire (H := tx_codec enc) m p [] Hm He).
  - apply Ok_inj in He. subst p. by apply MsgPing_wire.
  - exact (lawful_wire m p [] Hm He).
  - exact (lawful_wire m p [] Hm He).
  - exact (lawful_wire (H := syncblock_codec enc) m p [] Hm He).
Qed.

(** ** Frames *)

Section Frames.
Context `{HashFunctions}.
Context (pver btcnet : Z) (enc : MessageEncoding).
Context (Hnet : is_u32 btcnet).

Definition frame (c : Cmd) (payload : list byte) : list byte :=
  PutUint32 btcnet ++ padded c ++ PutUint32 (zlen payload) ++ checksum payload ++ payload.

Lemma length_checksum p : length (checksum p) = 4%nat.
Proof. unfold checksum. rewrite length_take. unfold DoubleHashB. rewrite Sum256_length. done. Qed.

Lemma le_value_Put32 v : is_u32 v -> le_value (PutUint32 v) = v.
Proof. intros Hv. unfold PutUint32. rewrite le_value_bytes. by rewrite Z.mod_small. Qed.

Lemma Put32_le_value b : length b = 4%nat -> PutUint32 (le_value b) = b.
Proof. intros Hb. unfold PutUint32. rewrite <- Hb. apply le_bytes_value. Qed.

Lemma payload_len_u32 (p : list byte) : zlen p <= MaxMessagePayload -> is_u32 (zlen p).
Proof. unfold MaxMessagePayload, zlen. widths. lia. Qed.

Lemma zlen_frame c p : zlen (frame c p) = 24 + zlen p.
Proof.
  unfold frame, zlen. rewrite !length_app, length_padded, length_checksum.
  unfold PutUint32. rewrite !length_le_bytes. unfold CommandSize. lia.
Qed.

Lemma read_frame c p m t rest :
  zlen p <= MaxMessagePayload -> zlen p <= MaxPayloadLength pver c -> BtcDecode pver enc c p = Ok (m, t) ->
  ReadMessageWithEncodingN (frame c p ++ rest) pver btcnet enc = (24 + zlen p, Ok (m, p), rest).
Proof.
  intros Hmax Hty Hd. unfold ReadMessageWithEncodingN, frame. rewrite <- !(assoc_L (++)).
  rewrite readMessageHeader_app by first [apply length_padded | apply length_checksum | apply length_le_bytes].
  cbn [mh_magic mh_command mh_length mh_checksum].
  rewrite trim_zeros_padded, !le_value_Put32 by auto using payload_len_u32.
  rewrite (proj2 (Z.ltb_ge _ _)), Z.eqb_refl, valid_utf8_command, makeEmptyMessage_text by done. cbn [negb].
  rewrite (proj2 (Z.ltb_ge _ _)) by done. rewrite read_full_app by (unfold zlen; lia).
  rewrite bool_decide_eq_true_2 by done. cbn [negb]. rewrite Hd. cbn [rbind]. unfold zlen. by rewrite Nat2Z.id.
Qed.

Lemma read_frame_inv r n m p rest :
  ReadMessageWithEncodingN r pver btcnet enc = (n, Ok (m, p), rest) ->
  r = frame (Command m) p ++ rest /\ zlen p <= MaxMessagePayload /\ zlen p <= MaxPayloadLength pver (Command m) /\
  n = 24 + zlen p /\ exists t, BtcDecode pver enc (Command m) p = Ok (m, t).
Proof.
  unfold ReadMessageWithEncodingN. destruct (readMessageHeader r) as [[n0 [hdr|e|]] r0] eqn:Hh; [|done|done].
  apply readMessageHeader_Ok in Hh as (-> & bm & bc & bl & bk & -> & Hm & Hc & Hl & Hk & ->).
  cbn [mh_magic mh_command mh_length mh_checksum].
  destruct (MaxMessagePayload <? _) eqn:H1; [done|]. destruct (negb (_ =? _)) eqn:H2; [done|].
  destruct (negb (valid_utf8 _)); [done|]. destruct (makeEmptyMessage _) as [c|] eqn:H4; [|done].
  destruct (MaxPayloadLength pver c <? _) eqn:H5; [done|].
  destruct (read_full _ r0) as [[k [p0|e|]] r1] eqn:H6; [|done|done].
  apply read_full_Ok in H6 as (-> & Hp & ->). case_bool_decide as H7; cbn [negb]; [|done].
  destruct (BtcDecode pver enc c p0) as [[m0 t]|e|] eqn:H8; [|done|done]. cbn [rbind].
  intros Hres. injection Hres as <- -> -> ->. rewrite (BtcDecode_Command _ _ _ _ _ _ H8).
  apply makeEmptyMessage_Some, trim_zeros_command in H4; [|done].
  pose proof (le_value_range bl) as Hr. apply negb_false_iff, Z.eqb_eq in H2. bool_to_Z.
  assert (Hz : zlen p = le_value bl) by (unfold zlen; lia).
  split_and!; try lia; [|by eauto].
  unfold frame. rewrite Hz, <- H2, H7, <- H4. rewrite !Put32_le_value by done. by rewrite <- !(assoc_L (++)).
Qed.

End Frames.

(** ** Connections *)

Section Connections.
Context `{HashFunctions}.
Context (pver btcnet : Z) (enc : MessageEncoding).
Context (Hnet : is_u32 btcnet).

Lemma WriteMessage_frame m bs :
  WriteMessageWithEncodingN m pver btcnet enc = Ok bs ->
  exists p, BtcEncode pver enc m = Ok p /\ bs = frame btcnet (Command m) p /\
    zlen p <= MaxMessagePayload /\ zlen p <= MaxPayloadLength pver (Command m).
Proof.
  unfold WriteMessageWithEncodingN. destruct (_ <? zlen (command_text _)); [done|].
  destruct (BtcEncode pver enc m) as [p|e|]; [|done|done]. cbn [rbind].
  destruct (MaxMessagePayload <? zlen p) eqn:H1; [done|]. bool_to_Z.
  rewrite u32_small by by apply payload_len_u32.
  destruct (MaxPayloadLength _ _ <? zlen p) eqn:H2; [done|]. bool_to_Z. intros Hb. apply Ok_inj in Hb.
  exists p. split_and!; try done; try lia.
Qed.

Lemma read_written m bs rest :
  message_ok pver enc m -> WriteMessageWithEncodingN m pver btcnet enc = Ok bs ->
  exists p, BtcEncode pver enc m = Ok p /\
    ReadMessageWithEncodingN (bs ++ rest) pver btcnet enc = (zlen bs, Ok (m, p), rest).
Proof.
  intros Hm (p & Hp & -> & H1 & H2)%WriteMessage_frame. exists p. split; [done|].
  rewrite zlen_frame. eapply read_frame; try done. by apply BtcDecode_BtcEncode.
Qed.

(** Whatever a header and the payload it announces are, reading them leaves the
    connection at the next message. *)
Lemma read_delimited m c l k p rest :
  length m = 4%nat -> length c = CommandSize -> length l = 4%nat -> length k = 4%nat ->
  le_value l = zlen p -> zlen p <= MaxMessagePayload ->
  exists n res, ReadMessageWithEncodingN (m ++ c ++ l ++ k ++ p ++ rest) pver btcnet enc = (n, res, rest).
Proof.
  intros Hm Hc Hl Hk Hp Hmax. unfold ReadMessageWithEncodingN. rewrite readMessageHeader_app by done.
  cbn [mh_magic mh_command mh_length mh_checksum]. rewrite Hp, discardInput_drop by (unfold zlen; lia).
  replace (drop (Z.to_nat (zlen p)) (p ++ rest)) with rest by (unfold zlen; by rewrite Nat2Z.id, drop_app_length).
  rewrite (proj2 (Z.ltb_ge _ _)) by done. destruct (negb _); [by eauto|]. destruct (negb _); [by eauto|].
  destruct (makeEmptyMessage _); [|by eauto]. destruct (_ <? _); [by eauto|].
  rewrite read_full_app by (unfold zlen; lia). destruct (negb _); by eauto.
Qed.

(** A stretch of a connection: a message this node wrote, or any bytes a header
    delimits. *)
Inductive chunk := Written (m : Message) | Foreign (header payload : list byte).

Definition announced (header : list byte) : Z := le_value (take 4 (drop 16 header)).

Definition chunk_bytes (c : chunk) : list byte :=
  match c with
  | Written m => match WriteMessageWithEncodingN m pver btcnet enc with Ok bs => bs | _ => [] end
  | Foreign header payload => header ++ payload
  end.

Definition chunk_ok (c : chunk) : Prop :=
  match c with
  | Written m => message_ok pver enc m /\ exists bs, WriteMessageWithEncodingN m pver btcnet enc = Ok bs
  | Foreign header payload =>
      length header = MessageHeaderSize /\ announced header = zlen payload /\ zlen payload <= MaxMessagePayload
  end.

(** What reading the stretch gives: a written message comes back. *)
Definition chunk_read (c : chunk) (res : result wire_error (Message * list byte)) : Prop :=
  match c with
  | Written m => exists p, BtcEncode pver enc m = Ok p /\ res = Ok (m, p)
  | Foreign _ _ => True
  end.

Fixpoint read_messages (n : nat) (r : list byte) : list (result wire_error (Message * list byte)) * list byte :=
  match n with
  | O => ([], r)
  | S n =>
      let '(_, res, r) := ReadMessageWithEncodingN r pver btcnet enc in
      let '(l, r) := read_messages n r in (res :: l, r)
  end.

Lemma header_fields header :
  length header = MessageHeaderSize -> exists m c l k, header = m ++ c ++ l ++ k /\ length m = 4%nat /\
    length c = CommandSize /\ length l = 4%nat /\ length k = 4%nat /\ announced header = le_value l.
Proof.
  intros Hh. exists (take 4 header), (take 12 (drop 4 header)), (take 4 (drop 16 header)), (drop 20 header).
  unfold MessageHeaderSize in Hh. rewrite !length_take, !length_drop. unfold CommandSize.
  split_and!; try lia; [|done]. do 24 (destruct header as [|? header]; [done|]). reflexivity.
Qed.

Lemma read_chunk c rest :
  chunk_ok c -> exists n res, ReadMessageWithEncodingN (chunk_bytes c ++ rest) pver btcnet enc = (n, res, rest) /\
    chunk_read c res.
Proof.
  destruct c as [m|header payload]; cbn [chunk_ok chunk_bytes chunk_read].
  - intros [Hm [bs Hbs]]. rewrite Hbs. destruct (read_written m bs rest Hm Hbs) as (p & Hp & Hr). by eauto 8.
  - intros (Hh & Ha & Hmax). apply header_fields in Hh as (m & c & l & k & -> & Hm & Hc & Hl & Hk & He).
    rewrite <- !(assoc_L (++)). destruct (read_delimited m c l k payload rest) as (n & res & Hr); try done; [by rewrite <- He|].
    by eauto.
Qed.

Lemma read_chunks chunks rest :
  Forall chunk_ok chunks ->
  exists l, read_messages (length chunks) (concat (map chunk_bytes chunks) ++ rest) = (l, rest) /\
    Forall2 chunk_read chunks l.
Proof.
  intros Hc. induction Hc as [|c cs Hc _ (l & IH & Hl)]; [by exists []|].
  cbn [map concat length read_messages]. rewrite <- (assoc_L (++)).
  destruct (read_chunk c (concat (map chunk_bytes cs) ++ rest) Hc) as (n & res & Hr & Hok).
  rewrite Hr, IH. by eauto.
Qed.

End Connections.

(** ** Properties *)

(** C34: [ReadMessageWithEncodingN] accepts exactly the frames of the network:
    it returns a message and its payload precisely when the connection starts
    with the magic, the padded command of that message, the length and the
    checksum of the payload and the payload itself, within the limits of all
    messages and of this one, and the payload decodes to the message; it then
    has counted and consumed exactly the frame. *)
Theorem frames_exact `{HashFunctions} pver btcnet enc r n m p rest :
  is_u32 btcnet ->
  ReadMessageWithEncodingN r pver btcnet enc = (n, Ok (m, p), rest) <->
  r = frame btcnet (Command m) p ++ rest /\ n = zlen (frame btcnet (Command m) p) /\
  zlen p <= MaxMessagePayload /\ zlen p <= MaxPayloadLength pver (Command m) /\
  exists t, BtcDecode pver enc (Command m) p = Ok (m, t).
Proof.
  intros Hnet. rewrite zlen_frame. split.
  - intros (-> & H1 & H2 & -> & t & Hd)%read_frame_inv. by eauto 8.
  - intros (-> & -> & H1 & H2 & t & Hd). by eapply read_frame.
Qed.

Definition MainNet : Z := 0xd9b4bef9.

Lemma frames_exact_witness :
  @ReadMessageWithEncodingN prefix_hash_functions (@frame prefix_hash_functions MainNet CmdVerAck [] ++ [x01])
    ProtocolVersion MainNet BaseEncoding = (24, Ok (VerAckMsg, []), [x01]).
Proof.
  apply (frames_exact (H := prefix_hash_functions)); [split; [discriminate|reflexivity]|].
  split_and!; [reflexivity|reflexivity|discriminate|discriminate|]. by exists [].
Defined.

(** C33: a connection never loses the boundary between messages.  Whatever mix
    of messages written by [WriteMessageWithEncodingN] and of arbitrary frames
    (another network, unknown commands, malformed payloads, wrong checksums)
    of at most the maximal payload arrives, reading as many messages as there
    are frames ends exactly behind the last one, and every message written that
    the version and the encoding can carry ([message_ok]) is returned, unchanged
    and in its place. *)
Theorem connection_stays_framed `{HashFunctions} pver btcnet enc chunks rest :
  is_u32 btcnet -> Forall (chunk_ok pver btcnet enc) chunks ->
  exists l, read_messages pver btcnet enc (length chunks) (concat (map (chunk_bytes pver btcnet enc) chunks) ++ rest) = (l, rest) /\
    Forall2 (chunk_read pver enc) chunks l.
Proof. intros. by apply read_chunks. Qed.

Lemma connection_stays_framed_witness :
  exists l, @read_messages prefix_hash_functions ProtocolVersion MainNet BaseEncoding 2
    (concat (map (@chunk_bytes prefix_hash_functions ProtocolVersion MainNet BaseEncoding)
      [Foreign (replicate 24 x00) []; Written (PingMsg 7)]) ++ [x01]) = (l, [x01]) /\
    Forall2 (chunk_read ProtocolVersion BaseEncoding) [Foreign (replicate 24 x00) []; Written (PingMsg 7)] l.
Proof.
  apply (connection_stays_framed (H := prefix_hash_functions) ProtocolVersion MainNet BaseEncoding
    [Foreign (replicate 24 x00) []; Written (PingMsg 7)] [x01]); [split; [discriminate|reflexivity]|].
  constructor; [split_and!; [reflexivity|reflexivity|discriminate]|].
  constructor; [|constructor]. split; [split; [discriminate|reflexivity]|]. eexists. reflexivity.
Defined.
