(* ===== verification/FramingSize.v ===== *)
(** * Every message of bounded form can be framed

    The limit each message declares with [MaxPayloadLength] is large enough for
    whatever its encoder accepts, so that [WriteMessageWithEncodingN] refuses
    none of them for its size. *)
From Stdlib Require Import String.
From S2P Require Import Prelude Chainhash Wire Hash WireMsg WireNet WireNetSpec Framing FramingSpec.
Import ListNotations.
Open Scope Z_scope.
Open Scope list_scope.

(** The bytes an element takes. *)
Definition elem_size (k : elem) : Z :=
  match k with
  | EInt8 | EBool | EBloomUpdateType | ERejectCode => 1
  | EInt16 | EUint16 => 2
  | EInt32 | EUint32 | EUint32Time | EChecksum | EInvType | EBitcoinNet => 4
  | EInt64 | EUint64 | EInt64Time | EServiceFlag => 8
  | ECommand => 12
  | EIP => 16
  | EHash => 32
  | EHash64 => 64
  | EHash33 => 33
  end.

Lemma zlen_writeElement k e : elem_ok k e -> zlen (writeElement k e) = elem_size k.
Proof.
  destruct k; unfold writeElement, zlen, elem_ok, elem_size; try done.
  - by destruct e.
  - intros ->. done.
  - intros ->. done.
  - intros ->. done.
  - unfold elem_ty, hash_ok. intros ->. done.
  - unfold elem_ty, hash64_ok. intros ->. done.
  - unfold elem_ty, hash33_ok. intros ->. done.
Qed.

Lemma VarIntSerializeSize_le v : 1 <= VarIntSerializeSize v <= 9.
Proof. unfold VarIntSerializeSize. repeat case_if; lia. Qed.

Lemma zlen_write_list {A} (w : A -> list byte) (P : A -> Prop) k l :
  (forall a, P a -> zlen (w a) <= k) -> Forall P l -> zlen (write_list w l) <= MaxVarIntPayload + k * zlen l.
Proof.
  intros Hw Hl. unfold write_list. rewrite zlen_app, zlen_WriteVarInt.
  pose proof (VarIntSerializeSize_le (zlen l)). unfold MaxVarIntPayload.
  assert (zlen (concat (map w l)) <= k * zlen l); [|lia]. clear H.
  induction Hl as [|a l Ha _ IH]; [unfold zlen; cbn; lia|].
  cbn [map concat]. rewrite zlen_app. specialize (Hw a Ha). change (a :: l) with ([a] ++ l). rewrite zlen_app.
  change (zlen [a]) with 1. lia.
Qed.

Lemma zlen_write_hashes l : Forall hash_ok l -> zlen (write_list (writeElement EHash) l) <= MaxVarIntPayload + 32 * zlen l.
Proof. apply zlen_write_list. intros h Hh. by rewrite zlen_writeElement. Qed.

Lemma zlen_PutUint16BE v : zlen (PutUint16BE v) = 2.
Proof. unfold zlen, PutUint16BE. by rewrite length_reverse, length_le_bytes. Qed.

Lemma zlen_writeNetAddress pver ts na :
  net_address_ok pver ts na -> zlen (writeNetAddress pver ts na) <= maxNetAddressPayload pver.
Proof.
  intros [Ht Hs Hip Hp]. unfold writeNetAddress, maxNetAddressPayload. cbv zeta. rewrite To16_16 by done.
  rewrite !zlen_app, zlen_PutUint16BE, (zlen_writeElement EServiceFlag), (zlen_writeElement EIP) by done.
  change (writeElement EUint32 (u32 ?t)) with (writeElement EUint32Time t).
  destruct ts, (NetAddressTimeVersion <=? pver); cbn [andb] in *; rewrite ?(zlen_writeElement EUint32Time) by done; change (zlen []) with 0; cbn; lia.
Qed.

(** Messages that hold no transactions, alerts, texts or unbounded lists. *)
Definition bounded (c : Cmd) : bool :=
  match c with
  | CmdBlock | CmdCandidate | CmdTx | CmdMerkleBlock | CmdSyncBlock | CmdAlert | CmdReject | CmdCFCheckpt => false
  | _ => true
  end.

Lemma MsgVersion_fits pver m p :
  version_ok pver m -> MsgVersion_BtcEncode pver m = Ok p -> zlen p <= MsgVersion_MaxPayloadLength pver.
Proof.
  intros [] H. unfold MsgVersion_BtcEncode in H. destruct (validateUserAgent _) as [[]| |] eqn:Hua; [|done|done].
  apply Ok_inj in H. subst p. change (writeElement EInt64 ?t) with (writeElement EInt64Time t).
  unfold WriteVarString. rewrite !zlen_app.
  rewrite (zlen_writeElement EServiceFlag), (zlen_writeElement EInt64Time), (zlen_writeElement EUint64),
    !(zlen_writeElement EInt32) by done.
  pose proof (zlen_writeNetAddress pver false _ vok_you). pose proof (zlen_writeNetAddress pver false _ vok_me).
  rewrite zlen_WriteVarInt. pose proof (VarIntSerializeSize_le (Z.of_nat (length (mv_UserAgent m)))).
  unfold validateUserAgent in Hua. destruct (MaxUserAgentLen <? _) eqn:Hl; [done|]. bool_to_Z.
  unfold MsgVersion_MaxPayloadLength, MaxUserAgentLen, MaxVarIntPayload in *.
  destruct (BIP0037Version <=? pver); rewrite ?(zlen_writeElement EBool) by done; cbn [elem_size];
    change (zlen []) with 0; lia.
Qed.

Lemma MsgAddr_fits pver l p :
  Forall (net_address_ok pver true) l -> MsgAddr_BtcEncode pver l = Ok p -> zlen p <= MsgAddr_MaxPayloadLength pver.
Proof.
  intros Hl H. unfold MsgAddr_BtcEncode in H. cbv zeta in H.
  destruct ((pver <? _) && _) eqn:H1 in H; [done|]. destruct (MaxAddrPerMsg <? zlen l) eqn:H2 in H; [done|].
  apply Ok_inj in H. subst p.
  pose proof (zlen_write_list _ _ _ l (zlen_writeNetAddress pver true) Hl) as Hz.
  unfold MsgAddr_MaxPayloadLength. unfold maxNetAddressPayload in *.
  destruct (pver <? MultipleAddressVersion); cbn [andb] in H1; bool_to_Z; unfold MaxAddrPerMsg in *;
    destruct (NetAddressTimeVersion <=? pver); lia.
Qed.

(** Collect the sizes of what was written. *)
Ltac sizes :=
  rewrite ?zlen_app;
  repeat first
    [ rewrite (zlen_writeElement EHash) by (unfold elem_ok; assumption)
    | rewrite (zlen_writeElement EUint32) by (unfold elem_ok; assumption)
    | rewrite (zlen_writeElement EUint64) by (unfold elem_ok; assumption)
    | rewrite (zlen_writeElement EInt64) by (unfold elem_ok; assumption)
    | rewrite (zlen_writeElement EInt32) by (unfold elem_ok; assumption)
    | rewrite (zlen_writeElement EInt8) by (unfold elem_ok; assumption)
    | rewrite (zlen_writeElement EHash64) by (unfold elem_ok; assumption)
    | rewrite (zlen_writeElement EHash33) by (unfold elem_ok; assumption)
    | rewrite (zlen_writeElement EBloomUpdateType) by (unfold elem_ok; assumption)
    | rewrite (zlen_writeElement EInvType) by (unfold elem_ok; assumption)
    | rewrite zlen_WriteVarBytes ];
  change (zlen []) with 0; rewrite ?(fun v => eq_refl : zlen (PutUint8 v) = 1); cbn [elem_size].

Lemma locator_fits f m p : locator_ok m -> locator_BtcEncode f m = Ok p -> zlen p <= locator_MaxPayloadLength.
Proof.
  intros [] H. unfold locator_BtcEncode in H. encoded H. sizes.
  pose proof (zlen_write_hashes _ lok_hashes). unfold locator_MaxPayloadLength, MaxBlockLocatorsPerMsg, HashSize in *. lia.
Qed.

Lemma inv_fits f l p : Forall inv_ok l -> inv_BtcEncode f l = Ok p -> zlen p <= inv_MaxPayloadLength.
Proof.
  intros Hl H. unfold inv_BtcEncode in H. encoded H.
  pose proof (zlen_write_list writeInvVect inv_ok 36 l) as Hz.
  assert (zlen (write_list writeInvVect l) <= MaxVarIntPayload + 36 * zlen l).
  { apply Hz; [|done]. intros iv [Ht Hh]. unfold writeInvVect. sizes. lia. }
  unfold inv_MaxPayloadLength, MaxInvPerMsg, maxInvVectPayload, HashSize in *. lia.
Qed.

Lemma MsgHeaders_fits l p : Forall header_ok l -> MsgHeaders_BtcEncode l = Ok p -> zlen p <= MsgHeaders_MaxPayloadLength.
Proof.
  intros Hl H. unfold MsgHeaders_BtcEncode in H. encoded H.
  assert (zlen (write_list (fun bh => writeBlockHeader bh ++ WriteVarInt 0) l) <= MaxVarIntPayload + 174 * zlen l).
  { apply (zlen_write_list _ header_ok); [|done]. intros bh Hbh. rewrite zlen_app, length_writeBlockHeader by done.
    rewrite zlen_WriteVarInt. unfold blockHeaderLen. cbn. lia. }
  unfold MsgHeaders_MaxPayloadLength, MaxBlockHeadersPerMsg, MaxBlockHeaderPayload, HashSize, Hash64Size, Hash33Size in *. lia.
Qed.

Lemma VarIntSerializeSize_small v m : v <= m -> VarIntSerializeSize v <= VarIntSerializeSize m.
Proof. intros Hv. unfold VarIntSerializeSize. repeat case_if; lia. Qed.

Lemma filters_fit pver :
  (forall m p, filter_load_ok m -> MsgFilterLoad_BtcEncode pver m = Ok p -> zlen p <= MsgFilterLoad_MaxPayloadLength) /\
  (forall d p, MsgFilterAdd_BtcEncode pver d = Ok p -> zlen p <= MsgFilterAdd_MaxPayloadLength) /\
  (forall m p, cfilter_ok m -> MsgCFilter_BtcEncode m = Ok p -> zlen p <= MsgCFilter_MaxPayloadLength).
Proof.
  split_and!.
  - intros m p [] H. unfold MsgFilterLoad_BtcEncode in H. encoded H. sizes.
    pose proof (VarIntSerializeSize_small (zlen (fl_Filter m)) MaxFilterLoadFilterSize).
    unfold MsgFilterLoad_MaxPayloadLength. lia.
  - intros d p H. unfold MsgFilterAdd_BtcEncode in H. encoded H. sizes.
    pose proof (VarIntSerializeSize_small (zlen d) MaxFilterAddDataSize). unfold MsgFilterAdd_MaxPayloadLength. lia.
  - intros m p [Ht Hh] H. unfold MsgCFilter_BtcEncode in H. encoded H. sizes.
    pose proof (VarIntSerializeSize_small (zlen (cf_Data m)) MaxCFilterDataSize).
    unfold MsgCFilter_MaxPayloadLength, HashSize. lia.
Qed.

Lemma MsgCFHeaders_fits m p : cf_headers_ok m -> MsgCFHeaders_BtcEncode m = Ok p -> zlen p <= MsgCFHeaders_MaxPayloadLength.
Proof.
  intros [] H. unfold MsgCFHeaders_BtcEncode in H. encoded H. sizes.
  pose proof (zlen_write_hashes _ chok_hashes). unfold MsgCFHeaders_MaxPayloadLength, MaxCFHeadersPerMsg, HashSize in *. lia.
Qed.

Create HintDb wire_sizes.
#[export] Hint Resolve MsgVersion_fits MsgAddr_fits locator_fits inv_fits MsgHeaders_fits MsgCFHeaders_fits : wire_sizes.

Lemma bounded_fits pver enc m p :
  bounded (Command m) = true -> message_ok pver enc m -> BtcEncode pver enc m = Ok p ->
  zlen p <= MaxPayloadLength pver (Command m).
Proof.
  intros Hb Hm He. destruct (filters_fit pver) as (Hload & Hadd & Hcf).
  destruct m; cbn [Command bounded] in Hb; try discriminate Hb; clear Hb; cbn [message_ok] in Hm; cbn [BtcEncode] in He;
    cbn [Command MaxPayloadLength]; try (by eauto with wire_sizes nocore).
  - apply Ok_inj in He. by subst p.
  - apply Ok_inj in He. by subst p.
  - unfold MsgPing_BtcEncode in He. unfold MsgPing_MaxPayloadLength. destruct (_ <? pver); encoded He; sizes; lia.
  - unfold MsgPong_BtcEncode in He. unfold MsgPong_MaxPayloadLength. rewrite Z.ltb_antisym. 
    destruct (pver <=? BIP0031Version); [done|]. encoded He. sizes. cbn. lia.
  - unfold MsgMemPool_BtcEncode, empty_BtcEncode in He. encoded He. done.
  - unfold MsgFilterClear_BtcEncode, empty_BtcEncode in He. encoded He. done.
  - unfold MsgSendHeaders_BtcEncode, empty_BtcEncode in He. encoded He. done.
  - unfold MsgFeeFilter_BtcEncode in He. encoded He. sizes. lia.
  - destruct Hm. apply Ok_inj in He. subst p. sizes. unfold HashSize. lia.
  - destruct Hm. apply Ok_inj in He. subst p. sizes. unfold HashSize. lia.
  - destruct Hm. apply Ok_inj in He. subst p. sizes. unfold HashSize. lia.
  - destruct Hm as (? & ? & ?). apply Ok_inj in He. subst p. unfold writeSign. sizes. unfold MaxVotePayload. lia.
  - destruct Hm as (? & ? & ?). apply Ok_inj in He. subst p. unfold MsgGetBlock_BtcEncode. sizes. unfold MaxMsgGetBlock, HashSize. lia.
Qed.

Lemma MaxPayloadLength_le pver c : MaxPayloadLength pver c <= MaxMessagePayload.
Proof.
  destruct c; cbn [MaxPayloadLength];
    lazymatch goal with |- context [pver] => idtac | _ => vm_compute; discriminate end.
  - unfold MsgVersion_MaxPayloadLength, maxNetAddressPayload. case_if; vm_compute; discriminate.
  - unfold MsgAddr_MaxPayloadLength, maxNetAddressPayload. repeat case_if; vm_compute; discriminate.
  - unfold MsgPing_MaxPayloadLength. case_if; vm_compute; discriminate.
  - unfold MsgPong_MaxPayloadLength. case_if; vm_compute; discriminate.
  - unfold MsgReject_MaxPayloadLength. case_if; vm_compute; discriminate.
Qed.

(** the limits the messages declare are wide enough: a well-formed message
    that holds no transactions, texts or unbounded lists and that its encoder
    accepts is always written; its payload is within the limit of its command
    and so within the limit of all messages. *)
Theorem bounded_messages_written `{HashFunctions} pver btcnet enc m p :
  bounded (Command m) = true -> message_ok pver enc m -> BtcEncode pver enc m = Ok p ->
  WriteMessageWithEncodingN m pver btcnet enc = Ok (frame btcnet (Command m) p).
Proof.
  intros Hb Hm He. pose proof (bounded_fits pver enc m p Hb Hm He) as Hp.
  pose proof (MaxPayloadLength_le pver (Command m)) as Hmax.
  unfold WriteMessageWithEncodingN. rewrite (proj2 (Z.ltb_ge _ _)) by (pose proof (command_length (Command m)); unfold zlen; lia).
  rewrite He. cbn [rbind]. rewrite u32_small by (apply payload_len_u32; lia).
  rewrite !(proj2 (Z.ltb_ge _ _)) by lia. done.
Qed.

Lemma bounded_messages_written_witness :
  @WriteMessageWithEncodingN prefix_hash_functions (PingMsg 7) ProtocolVersion MainNet BaseEncoding
  = Ok (@frame prefix_hash_functions MainNet CmdPing (PutUint64 7)).
Proof.
  apply (bounded_messages_written (H := prefix_hash_functions) ProtocolVersion MainNet BaseEncoding (PingMsg 7));
    [reflexivity|split; [discriminate|reflexivity]|reflexivity].
Defined.

(** The bytes of a message from another network are consumed, but the count
    that is returned is that of its header alone. *)
Theorem discarded_bytes_not_counted `{HashFunctions} pver btcnet enc m c l k p rest :
  length m = 4%nat -> length c = CommandSize -> length l = 4%nat -> length k = 4%nat ->
  le_value m <> btcnet -> le_value l = zlen p -> zlen p <= MaxMessagePayload ->
  ReadMessageWithEncodingN (m ++ c ++ l ++ k ++ p ++ rest) pver btcnet enc
  = (24, readError "message from other network", rest).
Proof.
  intros Hm Hc Hl Hk Hne Hp Hmax. unfold ReadMessageWithEncodingN. rewrite readMessageHeader_app by done.
  cbn [mh_magic mh_command mh_length mh_checksum]. rewrite Hp, (proj2 (Z.ltb_ge _ _)), (proj2 (Z.eqb_neq _ _)) by done.
  cbn [negb]. rewrite discardInput_drop by (unfold zlen; lia). unfold zlen. by rewrite Nat2Z.id, drop_app_length.
Qed.
