(* ===== verification/ScriptNum.v ===== *)
(** * Script numbers: txscript/scriptnum.go

    Numbers on the script stack are little-endian byte strings with a sign bit.
    [Bytes] encodes an int64, [makeScriptNum] decodes at most [scriptNumLen]
    bytes and can insist on the shortest encoding. *)

From S2P Require Import Prelude.

(** The error codes of txscript/error.go that the modelled code returns. *)
Inductive script_error :=
  | ErrInternal | ErrInvalidFlags | ErrInvalidIndex | ErrUnsupportedAddress
  | ErrNotMultisigScript | ErrTooManyRequiredSigs | ErrTooMuchNullData
  | ErrEarlyReturn | ErrEmptyStack | ErrEvalFalse | ErrScriptUnfinished
  | ErrInvalidProgramCounter | ErrScriptTooBig | ErrElementTooBig
  | ErrTooManyOperations | ErrStackOverflow | ErrInvalidPubKeyCount
  | ErrInvalidSignatureCount | ErrNumberTooBig
  | ErrVerify | ErrEqualVerify | ErrNumEqualVerify | ErrCheckSigVerify
  | ErrCheckMultiSigVerify
  | ErrDisabledOpcode | ErrReservedOpcode | ErrMalformedPush
  | ErrInvalidStackOperation | ErrUnbalancedConditional
  | ErrMinimalData | ErrInvalidSigHashType | ErrSigTooShort | ErrSigTooLong
  | ErrSigInvalidSeqID | ErrSigInvalidDataLen | ErrSigMissingSTypeID
  | ErrSigMissingSLen | ErrSigInvalidSLen | ErrSigInvalidRIntID | ErrSigZeroRLen
  | ErrSigNegativeR | ErrSigTooMuchRPadding | ErrSigInvalidSIntID | ErrSigZeroSLen
  | ErrSigNegativeS | ErrSigTooMuchSPadding | ErrSigHighS | ErrNotPushOnly
  | ErrSigNullDummy | ErrPubKeyType | ErrCleanStack | ErrNullFail
  | ErrWitnessMalleated | ErrWitnessMalleatedP2SH
  | ErrDiscourageUpgradableNOPs | ErrNegativeLockTime | ErrUnsatisfiedLockTime
  | ErrMinimalIf | ErrDiscourageUpgradableWitnessProgram
  | ErrWitnessProgramEmpty | ErrWitnessProgramMismatch
  | ErrWitnessProgramWrongLength | ErrWitnessUnexpected | ErrWitnessPubKeyType
  (** an error value that is not a [txscript.Error] *)
  | OtherError.

Definition maxInt32 : Z := 2 ^ 31 - 1.
Definition minInt32 : Z := - 2 ^ 31.
Definition defaultScriptNumLen : nat := 4.

(** [v[len(v)-1-k]]; out of range is a panic, so the callers check first. *)
Definition from_end (k : nat) (v : list byte) : byte := nth (length v - 1 - k) v x00.

Definition checkMinimalDataEncoding (v : list byte) : result script_error unit :=
  if (length v =? 0)%nat then Ok tt
  else if (Z.land (from_end 0 v) 0x7f =? 0)
          && ((length v =? 1)%nat || (Z.land (from_end 1 v) 0x80 =? 0))
       then Err ErrMinimalData
       else Ok tt.

(** [for n > 0 { result = append(result, byte(n&0xff)); n >>= 8 }]; an int64
    takes at most eight iterations. *)
Fixpoint encode_loop (fuel : nat) (n : Z) : list byte :=
  match fuel with
  | O => []
  | S fuel =>
      if 0 <? n then byte_of_Z (Z.land n 0xff) :: encode_loop fuel (Z.shiftr n 8) else []
  end.

Definition set_last (v : list byte) (b : byte) : list byte := <[(length v - 1)%nat := b]> v.

(** [result[len(result)-1]] panics on the empty slice, which the loop produces
    for [-n = n = -2^63]. *)
Definition Bytes (n : Z) : result script_error (list byte) :=
  if n =? 0 then Ok []
  else
    let isNegative := n <? 0 in
    let n := if isNegative then i64 (- n) else n in
    let result := encode_loop 8 n in
    if (length result =? 0)%nat then Panic
    else if negb (Z.land (from_end 0 result) 0x80 =? 0) then
      Ok (result ++ [if isNegative then x80 else x00])
    else if isNegative then
      Ok (set_last result (byte_of_Z (Z.lor (from_end 0 result) 0x80)))
    else Ok result.

Definition Int32 (n : Z) : Z :=
  if maxInt32 <? n then maxInt32 else if n <? minInt32 then minInt32 else i32 n.

(** [for i, val := range v { result |= int64(val) << uint8(8*i) }] *)
Fixpoint decode_loop (i : Z) (v : list byte) (result : Z) : Z :=
  match v with
  | [] => result
  | val :: v => decode_loop (i + 1) v (Z.lor result (i64 (Z.shiftl val (u8 (8 * i)))))
  end.

Definition makeScriptNum (v : list byte) (requireMinimal : bool) (scriptNumLen : nat)
    : result script_error Z :=
  if (scriptNumLen <? length v)%nat then Err ErrNumberTooBig
  else
    let* _ := if requireMinimal then checkMinimalDataEncoding v else Ok tt in
    if (length v =? 0)%nat then Ok 0
    else
      let result := decode_loop 0 v 0 in
      if negb (Z.land (from_end 0 v) 0x80 =? 0) then
        let mask := Z.lnot (i64 (Z.shiftl 0x80 (u8 (8 * (Z.of_nat (length v) - 1))))) in
        Ok (i64 (- Z.land result mask))
      else Ok result.

(** ** The encoding as arithmetic *)

Lemma from_end_snoc v b : from_end 0 (v ++ [b]) = b.
Proof.
  unfold from_end. rewrite length_app, app_nth2; simpl; [|lia].
  by replace (length v + 1 - 1 - 0 - length v)%nat with 0%nat by lia.
Qed.

Lemma from_end_1_snoc v a b : from_end 1 (v ++ [a; b]) = a.
Proof.
  unfold from_end. rewrite length_app, app_nth2; simpl; [|lia].
  by replace (length v + 2 - 1 - 1 - length v)%nat with 0%nat by lia.
Qed.

Lemma set_last_snoc v a b : set_last (v ++ [a]) b = v ++ [b].
Proof.
  unfold set_last. rewrite length_app; simpl.
  replace (length v + 1 - 1)%nat with (length v + 0)%nat by lia.
  by rewrite insert_app_r.
Qed.

Lemma land_high_bit (b : byte) : (Z.land b 0x80 =? 0) = (b <? 128).
Proof. by destruct b. Qed.

Lemma land_low_bits (b : byte) : Z.land b 0x7f = b mod 128.
Proof. by destruct b. Qed.

Lemma lor_high_bit (b : byte) : b < 128 -> byte_of_Z (Z.lor b 0x80) = byte_of_Z (b + 128).
Proof. destruct b; vm_compute; congruence. Qed.

(** The loop writes the little-endian digits without a leading zero. *)
Lemma encode_loop_spec fuel n :
  0 <= n < 2 ^ (8 * Z.of_nat fuel) ->
  le_value (encode_loop fuel n) = n /\
  (n <> 0 -> exists bs (b : byte), encode_loop fuel n = bs ++ [b] /\ 0 < b).
Proof.
  revert n. induction fuel as [|fuel IH]; intros n Hn; [simpl in *; lia|].
  replace (8 * Z.of_nat (S fuel)) with (8 + 8 * Z.of_nat fuel) in Hn by lia.
  rewrite Z.pow_add_r in Hn by lia. cbn [encode_loop]. case_if; [|simpl; lia].
  rewrite Z.shiftr_div_pow2 by lia. change 0xff with (Z.ones 8). rewrite Z.land_ones by lia.
  destruct (IH (n / 2 ^ 8)) as [IHv IHne]; [split; [apply Z.div_pos|apply Z.div_lt_upper_bound]; lia|].
  cbn [le_value]. rewrite IHv, Z_of_byte_of_Z.
  assert (Hlow : u8 (n mod 2 ^ 8) = n mod 256) by (unfold u8; by rewrite Zmod_mod).
  rewrite Hlow. split; [width_lia|]. intros _.
  destruct (Z.eq_dec (n / 2 ^ 8) 0) as [Hz|Hz].
  - exists [], (byte_of_Z (n mod 2 ^ 8)). rewrite Hz.
    assert (encode_loop fuel 0 = []) as -> by by destruct fuel.
    split; [done|]. rewrite Z_of_byte_of_Z, Hlow. width_lia.
  - destruct (IHne Hz) as (bs & b & -> & Hb). by eexists (_ :: bs), b.
Qed.

(** The number a byte string denotes. *)
Definition signed_value (v : list byte) : Z :=
  if from_end 0 v <? 128 then le_value v
  else - (le_value v - 2 ^ (8 * Z.of_nat (length v) - 1)).

Lemma lor_shiftl_add r x k : 0 <= k -> 0 <= r < 2 ^ k -> Z.lor r (Z.shiftl x k) = r + x * 2 ^ k.
Proof.
  intros Hk Hr. rewrite <- Z.shiftl_mul_pow2 by done. symmetry. rewrite <- Z.add_lor_land.
  replace (Z.land r (Z.shiftl x k)) with 0; [lia|]. symmetry.
  apply Z.bits_inj'. intros j Hj. rewrite Z.bits_0, Z.land_spec.
  destruct (Z.lt_ge_cases j k).
  - rewrite Z.shiftl_spec_low by lia. apply andb_false_r.
  - destruct (Z.eq_dec r 0) as [->|]; [by rewrite Z.bits_0|].
    assert (Z.log2 r < k) by (apply Z.log2_lt_pow2; lia).
    by rewrite (Z.bits_above_log2 r) by lia.
Qed.

Lemma decode_loop_spec v i r :
  0 <= i -> i + Z.of_nat (length v) <= 7 -> 0 <= r < 2 ^ (8 * i) ->
  decode_loop i v r = r + 2 ^ (8 * i) * le_value v.
Proof.
  revert i r. induction v as [|b v IH]; intros i r Hi Hlen Hr; cbn [decode_loop le_value]; [lia|].
  cbn [length] in Hlen. pose proof (Z_of_byte_range b) as Hb.
  assert (Hu : u8 (8 * i) = 8 * i) by (apply u8_small; widths; lia).
  assert (H2 : 2 ^ (8 * (i + 1)) = 256 * 2 ^ (8 * i)).
  { replace (8 * (i + 1)) with (8 + 8 * i) by lia. rewrite Z.pow_add_r; lia. }
  assert (Hsh : i64 (Z.shiftl b (8 * i)) = Z.shiftl b (8 * i)).
  { apply i64_small. rewrite Z.shiftl_mul_pow2 by lia.
    assert (2 ^ (8 * i) <= 2 ^ 48) by (apply Z.pow_le_mono_r; lia).
    pose proof (Z.pow_pos_nonneg 2 (8 * i) ltac:(lia) ltac:(lia)). widths. nia. }
  rewrite Hu, Hsh, lor_shiftl_add by lia. rewrite IH; rewrite ?H2; widths; nia.
Qed.

Lemma snoc_inv (v : list byte) : (length v =? 0)%nat = false -> exists bs b, v = bs ++ [b].
Proof.
  destruct v as [|x v] using rev_ind; [done|]. intros _. by exists v, x.
Qed.

Lemma le_value_snoc bs (b : byte) :
  le_value (bs ++ [b]) = le_value bs + 2 ^ (8 * Z.of_nat (length bs)) * b.
Proof. rewrite le_value_app. simpl. lia. Qed.

Lemma clear_sign_bit bs (b : byte) :
  128 <= b ->
  Z.land (le_value (bs ++ [b])) (Z.lnot (Z.shiftl 0x80 (8 * Z.of_nat (length bs)))) =
  le_value (bs ++ [b]) - 2 ^ (8 * Z.of_nat (length bs) + 7).
Proof.
  intros Hb. set (p := 8 * Z.of_nat (length bs)).
  rewrite Z.shiftl_mul_pow2 by lia. change 0x80 with (2 ^ 7). rewrite <- Z.pow_add_r, <- Z.ldiff_land by lia.
  replace (7 + p) with (p + 7) by lia. symmetry. apply Z.sub_nocarry_ldiff.
  apply Z.bits_inj'. intros j Hj. rewrite Z.bits_0, Z.ldiff_spec, Z.pow2_bits_eqb by lia.
  destruct (Z.eqb_spec (p + 7) j) as [<-|]; [|done].
  enough (Z.testbit (le_value (bs ++ [b])) (p + 7) = true) as -> by done.
  apply Z.testbit_true; [lia|]. rewrite le_value_snoc. fold p.
  pose proof (le_value_range bs) as Hr. fold p in Hr. pose proof (Z_of_byte_range b).
  rewrite Z.pow_add_r by lia. change (2 ^ 7) with 128.
  rewrite <- Z.div_div by lia. rewrite (Z.mul_comm (2 ^ p)), Z.div_add, (Z.div_small (le_value bs)) by lia.
  width_lia.
Qed.

(** [makeScriptNum] without the minimality check: the value of the bytes. *)
Lemma makeScriptNum_value v k :
  (length v <= k <= 7)%nat -> makeScriptNum v false k = Ok (signed_value v).
Proof.
  intros Hk. unfold makeScriptNum, signed_value.
  rewrite (proj2 (Nat.ltb_ge _ _)) by lia. simpl rbind.
  destruct (length v =? 0)%nat eqn:Hlen; [by destruct v|].
  destruct (snoc_inv v Hlen) as (bs & b & ->). rewrite from_end_snoc, land_high_bit.
  rewrite length_app in *. simpl length in *.
  rewrite decode_loop_spec by (rewrite ?length_app; simpl; lia).
  change (2 ^ (8 * 0)) with 1. rewrite Z.mul_1_l, Z.add_0_l.
  replace (Z.of_nat (length bs + 1) - 1) with (Z.of_nat (length bs)) by lia.
  replace (8 * Z.of_nat (length bs + 1) - 1) with (8 * Z.of_nat (length bs) + 7) by lia.
  destruct (b <? 128) eqn:Hb; bool_to_Z; simpl; [done|].
  pose proof (le_value_range (bs ++ [b])) as Hr. rewrite length_app in Hr; simpl length in Hr.
  assert (2 ^ (8 * Z.of_nat (length bs + 1)) <= 2 ^ 56) by (apply Z.pow_le_mono_r; lia).
  assert (2 ^ (8 * Z.of_nat (length bs) + 7) <= 2 ^ 56) by (apply Z.pow_le_mono_r; lia).
  pose proof (Z.pow_pos_nonneg 2 (8 * Z.of_nat (length bs) + 7) ltac:(lia) ltac:(lia)).
  rewrite u8_small by (widths; lia).
  rewrite i64_small with (z := Z.shiftl 0x80 _).
  - rewrite clear_sign_bit by lia. rewrite i64_small; [done|].
    change (2 ^ 56) with 72057594037927936 in *. widths. lia.
  - rewrite Z.shiftl_mul_pow2 by lia. change 0x80 with (2 ^ 7).
    rewrite <- Z.pow_add_r by lia. replace (7 + 8 * Z.of_nat (length bs)) with (8 * Z.of_nat (length bs) + 7) by lia.
    change (2 ^ 56) with 72057594037927936 in *. widths. lia.
Qed.

Lemma signed_value_range v :
  v <> [] -> Z.abs (signed_value v) < 2 ^ (8 * Z.of_nat (length v) - 1).
Proof.
  intros Hv. destruct (snoc_inv v) as (bs & b & ->); [by destruct v|].
  unfold signed_value. rewrite from_end_snoc, le_value_snoc, length_app. simpl length.
  pose proof (le_value_range bs). pose proof (Z_of_byte_range b).
  replace (8 * Z.of_nat (length bs + 1) - 1) with (8 * Z.of_nat (length bs) + 7) by lia.
  rewrite Z.pow_add_r by lia. set (p := 2 ^ (8 * Z.of_nat (length bs))) in *.
  widths. destruct (b <? 128) eqn:Hb; bool_to_Z; nia.
Qed.

Lemma checkMinimal_snoc bs (b : byte) :
  checkMinimalDataEncoding (bs ++ [b]) = Ok tt <->
  b mod 128 <> 0 \/ exists bs' (c : byte), bs = bs' ++ [c] /\ 128 <= c.
Proof.
  unfold checkMinimalDataEncoding. rewrite from_end_snoc, land_low_bits, length_app. simpl length.
  rewrite (proj2 (Nat.eqb_neq _ _)) by lia.
  destruct (Z.eqb_spec (b mod 128) 0) as [Hz|Hz]; simpl; [|naive_solver].
  destruct bs as [|c bs'] using rev_ind.
  - simpl. split; [done|]. intros [?|(bs' & c & Hnil & _)]; [done|]. by destruct bs'.
  - rewrite <- (assoc_L (++)). simpl app. rewrite from_end_1_snoc, land_high_bit, length_app. simpl length.
    rewrite (proj2 (Nat.eqb_neq _ _)) by lia. simpl. split.
    + intros Hc. right. exists bs', c. split; [done|]. by destruct (Z.ltb_spec c 128).
    + intros [?|(bs'' & c' & Heq & Hc)]; [done|]. apply app_inj_tail in Heq as [-> ->].
      by rewrite (proj2 (Z.ltb_ge _ _) Hc).
Qed.

Lemma Bytes_spec n :
  Z.abs n < 2 ^ 63 ->
  exists v, Bytes n = Ok v /\ signed_value v = n /\ checkMinimalDataEncoding v = Ok tt.
Proof.
  intros Hn. unfold Bytes. case_if; [subst; by exists []|].
  assert (Habs : (if n <? 0 then i64 (- n) else n) = Z.abs n).
  { case_if; [rewrite i64_small by (widths; lia)|]; lia. }
  rewrite Habs. destruct (encode_loop_spec 8 (Z.abs n)) as [Hval Hne].
  { simpl. change (2 ^ 64) with (2 * 2 ^ 63). lia. }
  destruct Hne as (bs & b & Heq & Hb); [lia|]. rewrite Heq in *.
  rewrite length_app, from_end_snoc, land_high_bit. simpl length.
  rewrite (proj2 (Nat.eqb_neq _ _)) by lia.
  pose proof (Z_of_byte_range b) as Hb8. rewrite le_value_snoc in Hval.
  destruct (Z.ltb_spec b 128) as [Hlow|Hhigh]; simpl negb; cbv iota.
  - destruct (Z.ltb_spec n 0) as [Hneg|Hpos].
    + rewrite lor_high_bit, set_last_snoc by done. set (b' := byte_of_Z (b + 128)).
      assert (Hb' : Z_of_byte b' = b + 128) by (unfold b'; rewrite Z_of_byte_of_Z; width_lia).
      eexists; split; [done|split].
      * unfold signed_value. rewrite from_end_snoc, le_value_snoc, length_app, Hb'. simpl length.
        case_if; [lia|]. replace (8 * Z.of_nat (length bs + 1) - 1) with (8 * Z.of_nat (length bs) + 7) by lia.
        rewrite Z.pow_add_r by lia. change (2 ^ 7) with 128. lia.
      * apply checkMinimal_snoc. left. rewrite Hb'. width_lia.
    + eexists; split; [done|split].
      * unfold signed_value. rewrite from_end_snoc, le_value_snoc. case_if; lia.
      * apply checkMinimal_snoc. left. width_lia.
  - eexists; split; [done|split].
    + unfold signed_value. rewrite from_end_snoc, le_value_snoc, le_value_snoc, !length_app. simpl length.
      replace (8 * Z.of_nat (length bs + 1 + 1) - 1) with (8 * Z.of_nat (length bs + 1) + 7) by lia.
      rewrite (Z.pow_add_r 2 _ 7) by lia. set (p := 2 ^ (8 * Z.of_nat (length bs + 1))).
      change (2 ^ 7) with 128. rewrite Hval.
      destruct (Z.ltb_spec n 0).
      * change (Z_of_byte x80) with 128. case_if; lia.
      * change (Z_of_byte x00) with 0. case_if; lia.
    + apply checkMinimal_snoc. right. by exists bs, b.
Qed.

(** The magnitude of a minimal encoding determines its length. *)
Lemma minimal_magnitude bs (b : byte) :
  checkMinimalDataEncoding (bs ++ [b]) = Ok tt ->
  exists m, 2 ^ (8 * Z.of_nat (length bs)) <= 2 * m < 2 ^ (8 * Z.of_nat (S (length bs))) /\
    m = le_value bs + 2 ^ (8 * Z.of_nat (length bs)) * (b mod 128) /\
    signed_value (bs ++ [b]) = if b <? 128 then m else - m.
Proof.
  intros Hmin. exists (le_value bs + 2 ^ (8 * Z.of_nat (length bs)) * (b mod 128)).
  pose proof (le_value_range bs). pose proof (Z_of_byte_range b).
  split; [|split; [done|]].
  - replace (8 * Z.of_nat (S (length bs))) with (8 * Z.of_nat (length bs) + 8) by lia.
    rewrite Z.pow_add_r by lia. apply checkMinimal_snoc in Hmin as [Hb|(bs' & c & -> & Hc)].
    + set (p := 2 ^ _) in *. assert (0 < b mod 128 < 128) by width_lia. widths. nia.
    + rewrite le_value_snoc, length_app in *. simpl length in *.
      replace (8 * Z.of_nat (length bs' + 1)) with (8 * Z.of_nat (length bs') + 8) in * by lia.
      rewrite Z.pow_add_r in * by lia. pose proof (le_value_range bs').
      set (p := 2 ^ (8 * Z.of_nat (length bs'))) in *.
      assert (0 <= b mod 128 < 128) by width_lia. widths. nia.
  - unfold signed_value. rewrite from_end_snoc, le_value_snoc, length_app. simpl length.
    replace (8 * Z.of_nat (length bs + 1) - 1) with (8 * Z.of_nat (length bs) + 7) by lia.
    rewrite Z.pow_add_r by lia. set (p := 2 ^ (8 * _)) in *.
    destruct (Z.ltb_spec b 128).
    + by rewrite Z.mod_small by (widths; lia).
    + replace (b mod 128) with (b - 128) by width_lia. change (2 ^ 7) with 128. lia.
Qed.

Lemma minimal_length_inj (k l : nat) m :
  2 ^ (8 * Z.of_nat k) <= 2 * m < 2 ^ (8 * Z.of_nat (S k)) ->
  2 ^ (8 * Z.of_nat l) <= 2 * m < 2 ^ (8 * Z.of_nat (S l)) -> k = l.
Proof.
  intros Hk Hl. destruct (Nat.lt_trichotomy k l) as [Hlt|[->|Hlt]]; [|done|]; exfalso.
  - assert (2 ^ (8 * Z.of_nat (S k)) <= 2 ^ (8 * Z.of_nat l)) by (apply Z.pow_le_mono_r; lia). lia.
  - assert (2 ^ (8 * Z.of_nat (S l)) <= 2 ^ (8 * Z.of_nat k)) by (apply Z.pow_le_mono_r; lia). lia.
Qed.

Lemma le_value_inj a b : length a = length b -> le_value a = le_value b -> a = b.
Proof.
  intros Hlen Hval. rewrite <- (le_bytes_value a), <- (le_bytes_value b). by rewrite Hlen, Hval.
Qed.

(** Two minimal encodings of the same number are the same bytes. *)
Lemma signed_value_minimal_inj v w :
  checkMinimalDataEncoding v = Ok tt -> checkMinimalDataEncoding w = Ok tt ->
  signed_value v = signed_value w -> v = w.
Proof.
  intros Hv Hw Heq.
  destruct v as [|b v _] using rev_ind; destruct w as [|c w _] using rev_ind; [done| | |].
  - apply minimal_magnitude in Hw as (m & Hm & _ & Hs). rewrite Hs in Heq.
    pose proof (Z.pow_pos_nonneg 2 (8 * Z.of_nat (length w))). change (signed_value []) with 0 in Heq.
    destruct (c <? 128); lia.
  - apply minimal_magnitude in Hv as (m & Hm & _ & Hs). rewrite Hs in Heq.
    pose proof (Z.pow_pos_nonneg 2 (8 * Z.of_nat (length v))). change (signed_value []) with 0 in Heq.
    destruct (b <? 128); lia.
  - apply minimal_magnitude in Hv as (m & Hm & Hmv & Hs), Hw as (m' & Hm' & Hmw & Hs').
    rewrite Hs, Hs' in Heq. pose proof (Z_of_byte_range b). pose proof (Z_of_byte_range c).
    pose proof (Z.pow_pos_nonneg 2 (8 * Z.of_nat (length w))).
    pose proof (Z.pow_pos_nonneg 2 (8 * Z.of_nat (length v))).
    assert (Hmm : m' = m) by (destruct (b <? 128), (c <? 128); lia). rewrite Hmm in *.
    assert (Hlen : length v = length w) by by apply (minimal_length_inj _ _ m).
    pose proof (le_value_range v) as Hrv. pose proof (le_value_range w) as Hrw.
    rewrite Hlen in Hmv, Hrv, Hm.
    set (p := 2 ^ (8 * Z.of_nat (length w))) in *.
    assert (Hbc : b mod 128 = c mod 128).
    { clear Heq Hs Hs' Hm Hm'. set (x := b mod 128) in *. set (y := c mod 128) in *. nia. }
    assert (Hvw : le_value v = le_value w) by (rewrite Hbc in Hmv; lia).
    assert (b = c) as -> by (apply Z_of_byte_inj;
      destruct (Z.ltb_spec b 128), (Z.ltb_spec c 128); try lia; width_lia).
    f_equal. by apply le_value_inj.
Qed.

Lemma makeScriptNum_minimal v k n :
  (k <= 7)%nat ->
  makeScriptNum v true k = Ok n <->
  (length v <= k)%nat /\ checkMinimalDataEncoding v = Ok tt /\ signed_value v = n.
Proof.
  intros Hk. destruct (Nat.leb_spec (length v) k) as [Hl|Hl].
  - pose proof (makeScriptNum_value v k (conj Hl Hk)) as Hv. unfold makeScriptNum in *.
    rewrite (proj2 (Nat.ltb_ge _ _)) in * by lia. cbn [rbind] in Hv.
    destruct (checkMinimalDataEncoding v) as [[]| |]; cbn [rbind].
    + rewrite Hv. split; [intros [= <-]; done|]. by intros (_ & _ & <-).
    + split; [done|]. by intros (_ & ? & _).
    + split; [done|]. by intros (_ & ? & _).
  - unfold makeScriptNum. rewrite (proj2 (Nat.ltb_lt _ _)) by lia. split; [done|]. lia.
Qed.

Lemma minimal_length v k :
  (0 < k)%nat ->
  checkMinimalDataEncoding v = Ok tt -> Z.abs (signed_value v) < 2 ^ (8 * Z.of_nat k - 1) ->
  (length v <= k)%nat.
Proof.
  intros Hk Hm Hs. destruct v as [|b v _] using rev_ind; [simpl; lia|].
  apply minimal_magnitude in Hm as (m & Hm & _ & Hmv). rewrite length_app. simpl.
  assert (Habs : Z.abs (signed_value (v ++ [b])) = m).
  { pose proof (Z.pow_nonneg 2 (8 * Z.of_nat (length v))). rewrite Hmv. case_if; lia. }
  rewrite Habs in Hs. assert (Hp : 2 ^ (8 * Z.of_nat (length v)) < 2 ^ (8 * Z.of_nat k)).
  { replace (8 * Z.of_nat k) with (Z.succ (8 * Z.of_nat k - 1)) by lia.
    rewrite Z.pow_succ_r by lia. lia. }
  apply Z.pow_lt_mono_r_iff in Hp; lia.
Qed.

(** ** Properties *)

(** numbers on the stack: decoding with the minimal-encoding rule accepts
    exactly the encodings [Bytes] writes, for exactly the numbers below
    [2^(8k-1)] in absolute value, where [k] is the allowed length (4 for most
    opcodes, 5 for the lock-time opcodes): encoding and decoding are inverse
    and every number has one accepted encoding. *)
Theorem makeScriptNum_Bytes v k n :
  (0 < k <= 7)%nat ->
  makeScriptNum v true k = Ok n <-> Bytes n = Ok v /\ Z.abs n < 2 ^ (8 * Z.of_nat k - 1).
Proof.
  intros Hk. rewrite makeScriptNum_minimal by lia.
  assert (Hpow : 2 ^ (8 * Z.of_nat k - 1) <= 2 ^ 63) by (apply Z.pow_le_mono_r; lia).
  split.
  - intros (Hl & Hm & <-). assert (Hr : Z.abs (signed_value v) < 2 ^ (8 * Z.of_nat k - 1)).
    { destruct v as [|b v]; [apply Z.pow_pos_nonneg; simpl; lia|].
      eapply Z.lt_le_trans; [by apply signed_value_range|]. apply Z.pow_le_mono_r; lia. }
    split; [|done]. destruct (Bytes_spec (signed_value v)) as (w & Hw & Hs & Hmw); [lia|].
    rewrite Hw. f_equal. by apply signed_value_minimal_inj.
  - intros [Hb Hr]. destruct (Bytes_spec n) as (w & Hw & Hs & Hmw); [lia|].
    rewrite Hb in Hw. injection Hw as <-. split; [|done].
    apply minimal_length; [lia|done|by rewrite Hs].
Qed.

Lemma makeScriptNum_Bytes_witness :
  makeScriptNum [xff; x80] true 4 = Ok (-255) <-> Bytes (-255) = Ok [xff; x80] /\ Z.abs (-255) < 2 ^ 31.
Proof. apply (makeScriptNum_Bytes [xff; x80] 4 (-255)). lia. Defined.
