(* ===== verification/Stack.v ===== *)
(** * The script stack: txscript/stack.go

    The Go slice [stk] holds the bottom of the stack first.  Every error of a
    stack operation aborts the script, so a failing operation returns only the
    error.  The last section states each operation as the stack transformation
    its Go comment promises. *)

From S2P Require Import Prelude ScriptNum.

Record stack := mkStack { stk : list (list byte); verifyMinimalData : bool }.

Definition stack_result (A : Type) : Type := result script_error (A * stack).

(** [for i := range t { if t[i] != 0 { ... } }] *)
Fixpoint asBool (t : list byte) : bool :=
  match t with
  | [] => false
  | b :: t' =>
      if negb (b =? 0) then
        if (length t' =? 0)%nat && (b =? 0x80) then false else true
      else asBool t'
  end.

Definition fromBool (v : bool) : list byte := if v then [x01] else [].

Definition set_stk (s : stack) (l : list (list byte)) : stack := mkStack l (verifyMinimalData s).

Definition Depth (s : stack) : Z := i32 (Z.of_nat (length (stk s))).

Definition PushByteArray (so : list byte) (s : stack) : stack := set_stk s (stk s ++ [so]).

Definition PushInt (val : Z) (s : stack) : result script_error stack :=
  let* b := Bytes val in Ok (PushByteArray b s).

Definition PushBool (val : bool) (s : stack) : stack := PushByteArray (fromBool val) s.

Definition PeekByteArray (idx : Z) (s : stack) : result script_error (list byte) :=
  let sz := i32 (Z.of_nat (length (stk s))) in
  if (idx <? 0) || (sz <=? idx) then Err ErrInvalidStackOperation
  else match stk s !! Z.to_nat (sz - idx - 1) with
       | Some so => Ok so
       | None => Panic
       end.

(** The three ways [nipN] removes an element: truncate, copy the tail into a
    fresh slice, or move the tail down in place. *)
Definition nipN (idx : Z) (s : stack) : stack_result (list byte) :=
  let sz := i32 (Z.of_nat (length (stk s))) in
  if (idx <? 0) || (sz - 1 <? idx) then Err ErrInvalidStackOperation
  else match stk s !! Z.to_nat (sz - idx - 1) with
       | None => Panic
       | Some so =>
           let stk' :=
             if idx =? 0 then take (Z.to_nat (sz - 1)) (stk s)
             else if idx =? sz - 1 then drop 1 (stk s)
             else take (Z.to_nat (sz - idx - 1)) (stk s) ++ drop (Z.to_nat (sz - idx)) (stk s) in
           Ok (so, set_stk s stk')
       end.

Definition PopByteArray (s : stack) : stack_result (list byte) := nipN 0 s.

Definition PopInt (s : stack) : stack_result Z :=
  let* (so, s) := PopByteArray s in
  let* n := makeScriptNum so (verifyMinimalData s) defaultScriptNumLen in
  Ok (n, s).

Definition PopBool (s : stack) : stack_result bool :=
  let* (so, s) := PopByteArray s in Ok (asBool so, s).

Definition PeekInt (idx : Z) (s : stack) : result script_error Z :=
  let* so := PeekByteArray idx s in
  makeScriptNum so (verifyMinimalData s) defaultScriptNumLen.

Definition PeekBool (idx : Z) (s : stack) : result script_error bool :=
  let* so := PeekByteArray idx s in Ok (asBool so).

Definition NipN (idx : Z) (s : stack) : result script_error stack :=
  let* (_, s) := nipN idx s in Ok s.

Definition Tuck (s : stack) : result script_error stack :=
  let* (so2, s) := PopByteArray s in
  let* (so1, s) := PopByteArray s in
  Ok (PushByteArray so2 (PushByteArray so1 (PushByteArray so2 s))).

(** The counting loops run [n] times. *)
Fixpoint repeat_n (n : nat) (f : stack -> result script_error stack) (s : stack) : result script_error stack :=
  match n with
  | O => Ok s
  | S n => let* s := f s in repeat_n n f s
  end.

Definition DropN (n : Z) (s : stack) : result script_error stack :=
  if n <? 1 then Err ErrInvalidStackOperation
  else repeat_n (Z.to_nat n) (fun s => let* (_, s) := PopByteArray s in Ok s) s.

Definition DupN (n : Z) (s : stack) : result script_error stack :=
  if n <? 1 then Err ErrInvalidStackOperation
  else repeat_n (Z.to_nat n)
         (fun s => let* so := PeekByteArray (n - 1) s in Ok (PushByteArray so s)) s.

(** Move the entry [entry] below the top to the top. *)
Definition roll_step (entry : Z) (s : stack) : result script_error stack :=
  let* (so, s) := nipN entry s in Ok (PushByteArray so s).

(** Copy the entry [entry] below the top to the top. *)
Definition pick_step (entry : Z) (s : stack) : result script_error stack :=
  let* so := PeekByteArray entry s in Ok (PushByteArray so s).

Definition RotN (n : Z) (s : stack) : result script_error stack :=
  if n <? 1 then Err ErrInvalidStackOperation
  else let entry := i32 (3 * n - 1) in repeat_n (Z.to_nat n) (roll_step entry) s.

Definition SwapN (n : Z) (s : stack) : result script_error stack :=
  if n <? 1 then Err ErrInvalidStackOperation
  else let entry := i32 (2 * n - 1) in repeat_n (Z.to_nat n) (roll_step entry) s.

Definition OverN (n : Z) (s : stack) : result script_error stack :=
  if n <? 1 then Err ErrInvalidStackOperation
  else let entry := i32 (2 * n - 1) in repeat_n (Z.to_nat n) (pick_step entry) s.

Definition PickN (n : Z) (s : stack) : result script_error stack := pick_step n s.

Definition RollN (n : Z) (s : stack) : result script_error stack := roll_step n s.

(** ** Lemmas *)

(** The depth of a stack fits its int32 counter. *)
Definition stack_small (s : stack) : Prop := Z.of_nat (length (stk s)) < 2 ^ 31.

Lemma depth_small s : stack_small s -> i32 (Z.of_nat (length (stk s))) = Z.of_nat (length (stk s)).
Proof. intros. apply i32_small. unfold stack_small in *. widths. lia. Qed.

(** The entry [idx] below the top of [a ++ x :: b] with [length b = idx]. *)
Lemma nipN_at m a x b :
  Z.of_nat (length (a ++ x :: b)) < 2 ^ 31 ->
  nipN (Z.of_nat (length b)) (mkStack (a ++ x :: b) m) = Ok (x, mkStack (a ++ b) m).
Proof.
  intros Hs. unfold nipN. rewrite depth_small by done. cbn [stk].
  rewrite length_app in *. cbn [length] in *.
  rewrite (proj2 (Z.ltb_ge _ 0)), (proj2 (Z.ltb_ge _ _)) by lia. simpl orb. cbv iota.
  replace (Z.to_nat _) with (length a) by lia.
  rewrite lookup_app_r, Nat.sub_diag by lia. cbn [lookup list_lookup].
  unfold set_stk. cbn [verifyMinimalData]. do 3 f_equal.
  repeat case_if.
  - destruct b; [|simpl in *; lia]. replace (Z.to_nat _) with (length a) by (simpl; lia).
    rewrite take_app_length. by rewrite app_nil_r.
  - destruct a; [done|simpl in *; lia].
  - rewrite take_app_length.
    replace (Z.to_nat _) with (length (a ++ [x])) by (rewrite length_app; simpl; lia).
    change (x :: b) with ([x] ++ b). by rewrite (assoc_L (++)), drop_app_length.
Qed.

Lemma Peek_at m a x b :
  Z.of_nat (length (a ++ x :: b)) < 2 ^ 31 ->
  PeekByteArray (Z.of_nat (length b)) (mkStack (a ++ x :: b) m) = Ok x.
Proof.
  intros Hs. unfold PeekByteArray. rewrite depth_small by done. cbn [stk].
  rewrite length_app in *. cbn [length] in *.
  rewrite (proj2 (Z.ltb_ge _ 0)), (proj2 (Z.leb_gt _ _)) by lia. simpl orb. cbv iota.
  replace (Z.to_nat _) with (length a) by lia.
  by rewrite lookup_app_r, Nat.sub_diag by lia.
Qed.

Lemma Pop_snoc m a x :
  Z.of_nat (length (a ++ [x])) < 2 ^ 31 ->
  PopByteArray (mkStack (a ++ [x]) m) = Ok (x, mkStack a m).
Proof.
  intros Hs. unfold PopByteArray. change 0 with (Z.of_nat (length (@nil (list byte)))).
  rewrite nipN_at by done. by rewrite app_nil_r.
Qed.

(** Rolling up the same depth [k] times rotates the top [entry + 1] entries. *)
Lemma roll_repeat m a x y entry :
  entry = Z.of_nat (length x + length y) - 1 ->
  Z.of_nat (length (a ++ x ++ y)) < 2 ^ 31 ->
  repeat_n (length x) (roll_step entry) (mkStack (a ++ x ++ y) m) = Ok (mkStack (a ++ y ++ x) m).
Proof.
  revert y. induction x as [|e x IH]; intros y Hentry Hs; [by rewrite app_nil_r|].
  cbn [length repeat_n app] in *. unfold roll_step at 1.
  assert (He : entry = Z.of_nat (length (x ++ y))) by (rewrite length_app; lia).
  rewrite He at 1. rewrite nipN_at by done. simpl rbind. unfold PushByteArray, set_stk; cbn [stk verifyMinimalData].
  rewrite <- !(assoc_L (++)). rewrite IH.
  - by rewrite <- (assoc_L (++)).
  - rewrite !length_app. simpl. lia.
  - rewrite !length_app in *. simpl in *. rewrite !length_app in *. lia.
Qed.

(** Copying from the same depth [k] times copies a block of [k] entries. *)
Lemma pick_repeat m a x y entry :
  entry = Z.of_nat (length x + length y) - 1 ->
  Z.of_nat (length (a ++ x ++ y ++ x)) < 2 ^ 31 ->
  repeat_n (length x) (pick_step entry) (mkStack (a ++ x ++ y) m) = Ok (mkStack (a ++ x ++ y ++ x) m).
Proof.
  revert a y. induction x as [|e x IH]; intros a y Hentry Hs; [by rewrite app_nil_r|].
  rewrite !length_app in Hs. cbn [length repeat_n app] in *. unfold pick_step at 1.
  assert (He : entry = Z.of_nat (length (x ++ y))) by (rewrite length_app; lia).
  rewrite He at 1. rewrite Peek_at by (rewrite !length_app; simpl; rewrite length_app; lia). simpl rbind.
  unfold PushByteArray, set_stk; cbn [stk verifyMinimalData].
  replace ((a ++ e :: x ++ y) ++ [e]) with ((a ++ [e]) ++ x ++ (y ++ [e]))
    by (rewrite <- !(assoc_L (++)); simpl; by rewrite <- !(assoc_L (++))).
  rewrite IH.
  - rewrite <- !(assoc_L (++)). done.
  - rewrite !length_app. simpl. lia.
  - rewrite !length_app. simpl. lia.
Qed.

Lemma drop_repeat m a x :
  Z.of_nat (length (a ++ x)) < 2 ^ 31 ->
  repeat_n (length x) (fun s => let* (_, s) := PopByteArray s in Ok s) (mkStack (a ++ x) m)
  = Ok (mkStack a m).
Proof.
  induction x as [|e x IH] using rev_ind; intros Hs; [by rewrite app_nil_r|].
  rewrite length_app, Nat.add_comm. cbn [length Nat.add repeat_n].
  rewrite (assoc_L (++)), Pop_snoc by by rewrite <- (assoc_L (++)). simpl rbind.
  apply IH. rewrite !length_app in *. simpl in *. lia.
Qed.

(** What was popped was the top. *)
Lemma Pop_inv s x s' :
  stack_small s -> PopByteArray s = Ok (x, s') ->
  stk s = stk s' ++ [x] /\ s = mkStack (stk s' ++ [x]) (verifyMinimalData s').
Proof.
  destruct s as [l m]. unfold stack_small. cbn [stk]. destruct l as [|y l _] using rev_ind; [done|].
  intros Hs. rewrite Pop_snoc by done. by intros [= <- <-].
Qed.

(** ** Properties *)

(** the block operations: with blocks of [n >= 1] entries on top of the
    stack, [DropN], [DupN], [OverN], [SwapN] and [RotN] drop, duplicate, copy
    and exchange whole blocks, in order, as their comments say. *)
Theorem stack_blocks m a x y z :
  let n := Z.of_nat (length x) in
  1 <= n -> length y = length x -> length z = length x ->
  Z.of_nat (length a) + 4 * n < 2 ^ 31 ->
  DropN n (mkStack (a ++ x) m) = Ok (mkStack a m)
  /\ DupN n (mkStack (a ++ x) m) = Ok (mkStack (a ++ x ++ x) m)
  /\ OverN n (mkStack (a ++ x ++ y) m) = Ok (mkStack (a ++ x ++ y ++ x) m)
  /\ SwapN n (mkStack (a ++ x ++ y) m) = Ok (mkStack (a ++ y ++ x) m)
  /\ RotN n (mkStack (a ++ x ++ y ++ z) m) = Ok (mkStack (a ++ y ++ z ++ x) m).
Proof.
  intros n Hn Hy Hz Hl. unfold DropN, DupN, OverN, SwapN, RotN.
  rewrite (proj2 (Z.ltb_ge n 1) Hn). cbv zeta. rewrite !i32_small by (widths; lia).
  replace (Z.to_nat n) with (length x) by lia.
  split_and!.
  - apply drop_repeat. rewrite length_app. lia.
  - rewrite <- (app_nil_r (a ++ x)), <- app_assoc.
    apply (pick_repeat m a x []); rewrite ?length_app; cbn [length]; lia.
  - apply pick_repeat; rewrite ?length_app; lia.
  - apply roll_repeat; rewrite ?length_app; lia.
  - pose proof (roll_repeat m a x (y ++ z) (3 * n - 1)) as Hr. rewrite <- app_assoc in Hr.
    apply Hr; rewrite ?length_app; lia.
Qed.

Lemma stack_blocks_witness :
  RotN 2 (mkStack [[x00]; [x01]; [x02]; [x03]; [x04]; [x05]; [x06]] true)
  = Ok (mkStack [[x00]; [x03]; [x04]; [x05]; [x06]; [x01]; [x02]] true).
Proof.
  apply (stack_blocks true [[x00]] [[x01]; [x02]] [[x03]; [x04]] [[x05]; [x06]]);
    [cbn; lia|reflexivity|reflexivity|cbn; lia].
Defined.
