(* ===== verification/Opcode.v ===== *)
(** * Opcodes: the tables of txscript/opcode.go

    The constants, the table [opcodeArray] (value, length and handler of every
    opcode; the printed names are left out) and the classification predicates.
    The undefined opcodes 0xba to 0xf9 all share one entry shape. *)

From S2P Require Import Prelude ScriptNum.

Definition OP_0 : Z := 0x00.
Definition OP_FALSE : Z := 0x00.
Definition OP_DATA_1 : Z := 0x01.
Definition OP_DATA_20 : Z := 0x14.
Definition OP_DATA_32 : Z := 0x20.
Definition OP_DATA_33 : Z := 0x21.
Definition OP_DATA_65 : Z := 0x41.
Definition OP_DATA_75 : Z := 0x4b.
Definition OP_PUSHDATA1 : Z := 0x4c.
Definition OP_PUSHDATA2 : Z := 0x4d.
Definition OP_PUSHDATA4 : Z := 0x4e.
Definition OP_1NEGATE : Z := 0x4f.
Definition OP_RESERVED : Z := 0x50.
Definition OP_1 : Z := 0x51.
Definition OP_TRUE : Z := 0x51.
Definition OP_2 : Z := 0x52.
Definition OP_16 : Z := 0x60.
Definition OP_NOP : Z := 0x61.
Definition OP_VER : Z := 0x62.
Definition OP_IF : Z := 0x63.
Definition OP_NOTIF : Z := 0x64.
Definition OP_VERIF : Z := 0x65.
Definition OP_VERNOTIF : Z := 0x66.
Definition OP_ELSE : Z := 0x67.
Definition OP_ENDIF : Z := 0x68.
Definition OP_VERIFY : Z := 0x69.
Definition OP_RETURN : Z := 0x6a.
Definition OP_TOALTSTACK : Z := 0x6b.
Definition OP_FROMALTSTACK : Z := 0x6c.
Definition OP_2DROP : Z := 0x6d.
Definition OP_2DUP : Z := 0x6e.
Definition OP_3DUP : Z := 0x6f.
Definition OP_2OVER : Z := 0x70.
Definition OP_2ROT : Z := 0x71.
Definition OP_2SWAP : Z := 0x72.
Definition OP_IFDUP : Z := 0x73.
Definition OP_DEPTH : Z := 0x74.
Definition OP_DROP : Z := 0x75.
Definition OP_DUP : Z := 0x76.
Definition OP_NIP : Z := 0x77.
Definition OP_OVER : Z := 0x78.
Definition OP_PICK : Z := 0x79.
Definition OP_ROLL : Z := 0x7a.
Definition OP_ROT : Z := 0x7b.
Definition OP_SWAP : Z := 0x7c.
Definition OP_TUCK : Z := 0x7d.
Definition OP_CAT : Z := 0x7e.
Definition OP_SUBSTR : Z := 0x7f.
Definition OP_LEFT : Z := 0x80.
Definition OP_RIGHT : Z := 0x81.
Definition OP_SIZE : Z := 0x82.
Definition OP_INVERT : Z := 0x83.
Definition OP_AND : Z := 0x84.
Definition OP_OR : Z := 0x85.
Definition OP_XOR : Z := 0x86.
Definition OP_EQUAL : Z := 0x87.
Definition OP_EQUALVERIFY : Z := 0x88.
Definition OP_RESERVED1 : Z := 0x89.
Definition OP_RESERVED2 : Z := 0x8a.
Definition OP_1ADD : Z := 0x8b.
Definition OP_1SUB : Z := 0x8c.
Definition OP_2MUL : Z := 0x8d.
Definition OP_2DIV : Z := 0x8e.
Definition OP_NEGATE : Z := 0x8f.
Definition OP_ABS : Z := 0x90.
Definition OP_NOT : Z := 0x91.
Definition OP_0NOTEQUAL : Z := 0x92.
Definition OP_ADD : Z := 0x93.
Definition OP_SUB : Z := 0x94.
Definition OP_MUL : Z := 0x95.
Definition OP_DIV : Z := 0x96.
Definition OP_MOD : Z := 0x97.
Definition OP_LSHIFT : Z := 0x98.
Definition OP_RSHIFT : Z := 0x99.
Definition OP_BOOLAND : Z := 0x9a.
Definition OP_BOOLOR : Z := 0x9b.
Definition OP_NUMEQUAL : Z := 0x9c.
Definition OP_NUMEQUALVERIFY : Z := 0x9d.
Definition OP_NUMNOTEQUAL : Z := 0x9e.
Definition OP_LESSTHAN : Z := 0x9f.
Definition OP_GREATERTHAN : Z := 0xa0.
Definition OP_LESSTHANOREQUAL : Z := 0xa1.
Definition OP_GREATERTHANOREQUAL : Z := 0xa2.
Definition OP_MIN : Z := 0xa3.
Definition OP_MAX : Z := 0xa4.
Definition OP_WITHIN : Z := 0xa5.
Definition OP_RIPEMD160 : Z := 0xa6.
Definition OP_SHA1 : Z := 0xa7.
Definition OP_SHA256 : Z := 0xa8.
Definition OP_HASH160 : Z := 0xa9.
Definition OP_HASH256 : Z := 0xaa.
Definition OP_CODESEPARATOR : Z := 0xab.
Definition OP_CHECKSIG : Z := 0xac.
Definition OP_CHECKSIGVERIFY : Z := 0xad.
Definition OP_CHECKMULTISIG : Z := 0xae.
Definition OP_CHECKMULTISIGVERIFY : Z := 0xaf.
Definition OP_NOP1 : Z := 0xb0.
Definition OP_NOP2 : Z := 0xb1.
Definition OP_CHECKLOCKTIMEVERIFY : Z := 0xb1.
Definition OP_NOP3 : Z := 0xb2.
Definition OP_CHECKSEQUENCEVERIFY : Z := 0xb2.
Definition OP_NOP4 : Z := 0xb3.
Definition OP_NOP5 : Z := 0xb4.
Definition OP_NOP6 : Z := 0xb5.
Definition OP_NOP7 : Z := 0xb6.
Definition OP_NOP8 : Z := 0xb7.
Definition OP_NOP9 : Z := 0xb8.
Definition OP_NOP10 : Z := 0xb9.

(** The handler functions the table refers to. *)
Inductive handler :=
  | H_opcodeFalse
  | H_opcodePushData
  | H_opcode1Negate
  | H_opcodeReserved
  | H_opcodeN
  | H_opcodeNop
  | H_opcodeIf
  | H_opcodeNotIf
  | H_opcodeElse
  | H_opcodeEndif
  | H_opcodeVerify
  | H_opcodeReturn
  | H_opcodeCheckLockTimeVerify
  | H_opcodeCheckSequenceVerify
  | H_opcodeToAltStack
  | H_opcodeFromAltStack
  | H_opcode2Drop
  | H_opcode2Dup
  | H_opcode3Dup
  | H_opcode2Over
  | H_opcode2Rot
  | H_opcode2Swap
  | H_opcodeIfDup
  | H_opcodeDepth
  | H_opcodeDrop
  | H_opcodeDup
  | H_opcodeNip
  | H_opcodeOver
  | H_opcodePick
  | H_opcodeRoll
  | H_opcodeRot
  | H_opcodeSwap
  | H_opcodeTuck
  | H_opcodeDisabled
  | H_opcodeSize
  | H_opcodeEqual
  | H_opcodeEqualVerify
  | H_opcode1Add
  | H_opcode1Sub
  | H_opcodeNegate
  | H_opcodeAbs
  | H_opcodeNot
  | H_opcode0NotEqual
  | H_opcodeAdd
  | H_opcodeSub
  | H_opcodeBoolAnd
  | H_opcodeBoolOr
  | H_opcodeNumEqual
  | H_opcodeNumEqualVerify
  | H_opcodeNumNotEqual
  | H_opcodeLessThan
  | H_opcodeGreaterThan
  | H_opcodeLessThanOrEqual
  | H_opcodeGreaterThanOrEqual
  | H_opcodeMin
  | H_opcodeMax
  | H_opcodeWithin
  | H_opcodeRipemd160
  | H_opcodeSha1
  | H_opcodeSha256
  | H_opcodeHash160
  | H_opcodeHash256
  | H_opcodeCodeSeparator
  | H_opcodeCheckSig
  | H_opcodeCheckSigVerify
  | H_opcodeCheckMultiSig
  | H_opcodeCheckMultiSigVerify
  | H_opcodeInvalid.

Record opcode := mkOpcode { value : Z; op_length : Z; opfunc : handler }.

Definition push_opcodes : list opcode :=
  [mkOpcode OP_FALSE 1 H_opcodeFalse;
   mkOpcode OP_DATA_1 2 H_opcodePushData;
   mkOpcode 0x02 3 H_opcodePushData;
   mkOpcode 0x03 4 H_opcodePushData;
   mkOpcode 0x04 5 H_opcodePushData;
   mkOpcode 0x05 6 H_opcodePushData;
   mkOpcode 0x06 7 H_opcodePushData;
   mkOpcode 0x07 8 H_opcodePushData;
   mkOpcode 0x08 9 H_opcodePushData;
   mkOpcode 0x09 10 H_opcodePushData;
   mkOpcode 0x0a 11 H_opcodePushData;
   mkOpcode 0x0b 12 H_opcodePushData;
   mkOpcode 0x0c 13 H_opcodePushData;
   mkOpcode 0x0d 14 H_opcodePushData;
   mkOpcode 0x0e 15 H_opcodePushData;
   mkOpcode 0x0f 16 H_opcodePushData;
   mkOpcode 0x10 17 H_opcodePushData;
   mkOpcode 0x11 18 H_opcodePushData;
   mkOpcode 0x12 19 H_opcodePushData;
   mkOpcode 0x13 20 H_opcodePushData;
   mkOpcode OP_DATA_20 21 H_opcodePushData;
   mkOpcode 0x15 22 H_opcodePushData;
   mkOpcode 0x16 23 H_opcodePushData;
   mkOpcode 0x17 24 H_opcodePushData;
   mkOpcode 0x18 25 H_opcodePushData;
   mkOpcode 0x19 26 H_opcodePushData;
   mkOpcode 0x1a 27 H_opcodePushData;
   mkOpcode 0x1b 28 H_opcodePushData;
   mkOpcode 0x1c 29 H_opcodePushData;
   mkOpcode 0x1d 30 H_opcodePushData;
   mkOpcode 0x1e 31 H_opcodePushData;
   mkOpcode 0x1f 32 H_opcodePushData;
   mkOpcode OP_DATA_32 33 H_opcodePushData;
   mkOpcode OP_DATA_33 34 H_opcodePushData;
   mkOpcode 0x22 35 H_opcodePushData;
   mkOpcode 0x23 36 H_opcodePushData;
   mkOpcode 0x24 37 H_opcodePushData;
   mkOpcode 0x25 38 H_opcodePushData;
   mkOpcode 0x26 39 H_opcodePushData;
   mkOpcode 0x27 40 H_opcodePushData;
   mkOpcode 0x28 41 H_opcodePushData;
   mkOpcode 0x29 42 H_opcodePushData;
   mkOpcode 0x2a 43 H_opcodePushData;
   mkOpcode 0x2b 44 H_opcodePushData;
   mkOpcode 0x2c 45 H_opcodePushData;
   mkOpcode 0x2d 46 H_opcodePushData;
   mkOpcode 0x2e 47 H_opcodePushData;
   mkOpcode 0x2f 48 H_opcodePushData;
   mkOpcode 0x30 49 H_opcodePushData;
   mkOpcode 0x31 50 H_opcodePushData;
   mkOpcode 0x32 51 H_opcodePushData;
   mkOpcode 0x33 52 H_opcodePushData;
   mkOpcode 0x34 53 H_opcodePushData;
   mkOpcode 0x35 54 H_opcodePushData;
   mkOpcode 0x36 55 H_opcodePushData;
   mkOpcode 0x37 56 H_opcodePushData;
   mkOpcode 0x38 57 H_opcodePushData;
   mkOpcode 0x39 58 H_opcodePushData;
   mkOpcode 0x3a 59 H_opcodePushData;
   mkOpcode 0x3b 60 H_opcodePushData;
   mkOpcode 0x3c 61 H_opcodePushData;
   mkOpcode 0x3d 62 H_opcodePushData;
   mkOpcode 0x3e 63 H_opcodePushData;
   mkOpcode 0x3f 64 H_opcodePushData;
   mkOpcode 0x40 65 H_opcodePushData;
   mkOpcode OP_DATA_65 66 H_opcodePushData;
   mkOpcode 0x42 67 H_opcodePushData;
   mkOpcode 0x43 68 H_opcodePushData;
   mkOpcode 0x44 69 H_opcodePushData;
   mkOpcode 0x45 70 H_opcodePushData;
   mkOpcode 0x46 71 H_opcodePushData;
   mkOpcode 0x47 72 H_opcodePushData;
   mkOpcode 0x48 73 H_opcodePushData;
   mkOpcode 0x49 74 H_opcodePushData;
   mkOpcode 0x4a 75 H_opcodePushData;
   mkOpcode OP_DATA_75 76 H_opcodePushData;
   mkOpcode OP_PUSHDATA1 (-1) H_opcodePushData;
   mkOpcode OP_PUSHDATA2 (-2) H_opcodePushData;
   mkOpcode OP_PUSHDATA4 (-4) H_opcodePushData;
   mkOpcode OP_1NEGATE 1 H_opcode1Negate;
   mkOpcode OP_RESERVED 1 H_opcodeReserved;
   mkOpcode OP_TRUE 1 H_opcodeN;
   mkOpcode OP_2 1 H_opcodeN;
   mkOpcode 0x53 1 H_opcodeN;
   mkOpcode 0x54 1 H_opcodeN;
   mkOpcode 0x55 1 H_opcodeN;
   mkOpcode 0x56 1 H_opcodeN;
   mkOpcode 0x57 1 H_opcodeN;
   mkOpcode 0x58 1 H_opcodeN;
   mkOpcode 0x59 1 H_opcodeN;
   mkOpcode 0x5a 1 H_opcodeN;
   mkOpcode 0x5b 1 H_opcodeN;
   mkOpcode 0x5c 1 H_opcodeN;
   mkOpcode 0x5d 1 H_opcodeN;
   mkOpcode 0x5e 1 H_opcodeN;
   mkOpcode 0x5f 1 H_opcodeN;
   mkOpcode OP_16 1 H_opcodeN].

Definition control_opcodes : list opcode :=
  [mkOpcode OP_NOP 1 H_opcodeNop;
   mkOpcode OP_VER 1 H_opcodeReserved;
   mkOpcode OP_IF 1 H_opcodeIf;
   mkOpcode OP_NOTIF 1 H_opcodeNotIf;
   mkOpcode OP_VERIF 1 H_opcodeReserved;
   mkOpcode OP_VERNOTIF 1 H_opcodeReserved;
   mkOpcode OP_ELSE 1 H_opcodeElse;
   mkOpcode OP_ENDIF 1 H_opcodeEndif;
   mkOpcode OP_VERIFY 1 H_opcodeVerify;
   mkOpcode OP_RETURN 1 H_opcodeReturn;
   mkOpcode OP_CHECKLOCKTIMEVERIFY 1 H_opcodeCheckLockTimeVerify;
   mkOpcode OP_CHECKSEQUENCEVERIFY 1 H_opcodeCheckSequenceVerify].

Definition stack_opcodes : list opcode :=
  [mkOpcode OP_TOALTSTACK 1 H_opcodeToAltStack;
   mkOpcode OP_FROMALTSTACK 1 H_opcodeFromAltStack;
   mkOpcode OP_2DROP 1 H_opcode2Drop;
   mkOpcode OP_2DUP 1 H_opcode2Dup;
   mkOpcode OP_3DUP 1 H_opcode3Dup;
   mkOpcode OP_2OVER 1 H_opcode2Over;
   mkOpcode OP_2ROT 1 H_opcode2Rot;
   mkOpcode OP_2SWAP 1 H_opcode2Swap;
   mkOpcode OP_IFDUP 1 H_opcodeIfDup;
   mkOpcode OP_DEPTH 1 H_opcodeDepth;
   mkOpcode OP_DROP 1 H_opcodeDrop;
   mkOpcode OP_DUP 1 H_opcodeDup;
   mkOpcode OP_NIP 1 H_opcodeNip;
   mkOpcode OP_OVER 1 H_opcodeOver;
   mkOpcode OP_PICK 1 H_opcodePick;
   mkOpcode OP_ROLL 1 H_opcodeRoll;
   mkOpcode OP_ROT 1 H_opcodeRot;
   mkOpcode OP_SWAP 1 H_opcodeSwap;
   mkOpcode OP_TUCK 1 H_opcodeTuck].

Definition splice_opcodes : list opcode :=
  [mkOpcode OP_CAT 1 H_opcodeDisabled;
   mkOpcode OP_SUBSTR 1 H_opcodeDisabled;
   mkOpcode OP_LEFT 1 H_opcodeDisabled;
   mkOpcode OP_RIGHT 1 H_opcodeDisabled;
   mkOpcode OP_SIZE 1 H_opcodeSize].

Definition bitwise_opcodes : list opcode :=
  [mkOpcode OP_INVERT 1 H_opcodeDisabled;
   mkOpcode OP_AND 1 H_opcodeDisabled;
   mkOpcode OP_OR 1 H_opcodeDisabled;
   mkOpcode OP_XOR 1 H_opcodeDisabled;
   mkOpcode OP_EQUAL 1 H_opcodeEqual;
   mkOpcode OP_EQUALVERIFY 1 H_opcodeEqualVerify;
   mkOpcode OP_RESERVED1 1 H_opcodeReserved;
   mkOpcode OP_RESERVED2 1 H_opcodeReserved].

Definition numeric_opcodes : list opcode :=
  [mkOpcode OP_1ADD 1 H_opcode1Add;
   mkOpcode OP_1SUB 1 H_opcode1Sub;
   mkOpcode OP_2MUL 1 H_opcodeDisabled;
   mkOpcode OP_2DIV 1 H_opcodeDisabled;
   mkOpcode OP_NEGATE 1 H_opcodeNegate;
   mkOpcode OP_ABS 1 H_opcodeAbs;
   mkOpcode OP_NOT 1 H_opcodeNot;
   mkOpcode OP_0NOTEQUAL 1 H_opcode0NotEqual;
   mkOpcode OP_ADD 1 H_opcodeAdd;
   mkOpcode OP_SUB 1 H_opcodeSub;
   mkOpcode OP_MUL 1 H_opcodeDisabled;
   mkOpcode OP_DIV 1 H_opcodeDisabled;
   mkOpcode OP_MOD 1 H_opcodeDisabled;
   mkOpcode OP_LSHIFT 1 H_opcodeDisabled;
   mkOpcode OP_RSHIFT 1 H_opcodeDisabled;
   mkOpcode OP_BOOLAND 1 H_opcodeBoolAnd;
   mkOpcode OP_BOOLOR 1 H_opcodeBoolOr;
   mkOpcode OP_NUMEQUAL 1 H_opcodeNumEqual;
   mkOpcode OP_NUMEQUALVERIFY 1 H_opcodeNumEqualVerify;
   mkOpcode OP_NUMNOTEQUAL 1 H_opcodeNumNotEqual;
   mkOpcode OP_LESSTHAN 1 H_opcodeLessThan;
   mkOpcode OP_GREATERTHAN 1 H_opcodeGreaterThan;
   mkOpcode OP_LESSTHANOREQUAL 1 H_opcodeLessThanOrEqual;
   mkOpcode OP_GREATERTHANOREQUAL 1 H_opcodeGreaterThanOrEqual;
   mkOpcode OP_MIN 1 H_opcodeMin;
   mkOpcode OP_MAX 1 H_opcodeMax;
   mkOpcode OP_WITHIN 1 H_opcodeWithin].

Definition crypto_opcodes : list opcode :=
  [mkOpcode OP_RIPEMD160 1 H_opcodeRipemd160;
   mkOpcode OP_SHA1 1 H_opcodeSha1;
   mkOpcode OP_SHA256 1 H_opcodeSha256;
   mkOpcode OP_HASH160 1 H_opcodeHash160;
   mkOpcode OP_HASH256 1 H_opcodeHash256;
   mkOpcode OP_CODESEPARATOR 1 H_opcodeCodeSeparator;
   mkOpcode OP_CHECKSIG 1 H_opcodeCheckSig;
   mkOpcode OP_CHECKSIGVERIFY 1 H_opcodeCheckSigVerify;
   mkOpcode OP_CHECKMULTISIG 1 H_opcodeCheckMultiSig;
   mkOpcode OP_CHECKMULTISIGVERIFY 1 H_opcodeCheckMultiSigVerify].

Definition reserved_opcodes : list opcode :=
  [mkOpcode OP_NOP1 1 H_opcodeNop;
   mkOpcode OP_NOP4 1 H_opcodeNop;
   mkOpcode OP_NOP5 1 H_opcodeNop;
   mkOpcode OP_NOP6 1 H_opcodeNop;
   mkOpcode OP_NOP7 1 H_opcodeNop;
   mkOpcode OP_NOP8 1 H_opcodeNop;
   mkOpcode OP_NOP9 1 H_opcodeNop;
   mkOpcode OP_NOP10 1 H_opcodeNop].

Definition undefined_opcodes : list opcode :=
  [mkOpcode 0xba 1 H_opcodeInvalid;
   mkOpcode 0xbb 1 H_opcodeInvalid;
   mkOpcode 0xbc 1 H_opcodeInvalid;
   mkOpcode 0xbd 1 H_opcodeInvalid;
   mkOpcode 0xbe 1 H_opcodeInvalid;
   mkOpcode 0xbf 1 H_opcodeInvalid;
   mkOpcode 0xc0 1 H_opcodeInvalid;
   mkOpcode 0xc1 1 H_opcodeInvalid;
   mkOpcode 0xc2 1 H_opcodeInvalid;
   mkOpcode 0xc3 1 H_opcodeInvalid;
   mkOpcode 0xc4 1 H_opcodeInvalid;
   mkOpcode 0xc5 1 H_opcodeInvalid;
   mkOpcode 0xc6 1 H_opcodeInvalid;
   mkOpcode 0xc7 1 H_opcodeInvalid;
   mkOpcode 0xc8 1 H_opcodeInvalid;
   mkOpcode 0xc9 1 H_opcodeInvalid;
   mkOpcode 0xca 1 H_opcodeInvalid;
   mkOpcode 0xcb 1 H_opcodeInvalid;
   mkOpcode 0xcc 1 H_opcodeInvalid;
   mkOpcode 0xcd 1 H_opcodeInvalid;
   mkOpcode 0xce 1 H_opcodeInvalid;
   mkOpcode 0xcf 1 H_opcodeInvalid;
   mkOpcode 0xd0 1 H_opcodeInvalid;
   mkOpcode 0xd1 1 H_opcodeInvalid;
   mkOpcode 0xd2 1 H_opcodeInvalid;
   mkOpcode 0xd3 1 H_opcodeInvalid;
   mkOpcode 0xd4 1 H_opcodeInvalid;
   mkOpcode 0xd5 1 H_opcodeInvalid;
   mkOpcode 0xd6 1 H_opcodeInvalid;
   mkOpcode 0xd7 1 H_opcodeInvalid;
   mkOpcode 0xd8 1 H_opcodeInvalid;
   mkOpcode 0xd9 1 H_opcodeInvalid;
   mkOpcode 0xda 1 H_opcodeInvalid;
   mkOpcode 0xdb 1 H_opcodeInvalid;
   mkOpcode 0xdc 1 H_opcodeInvalid;
   mkOpcode 0xdd 1 H_opcodeInvalid;
   mkOpcode 0xde 1 H_opcodeInvalid;
   mkOpcode 0xdf 1 H_opcodeInvalid;
   mkOpcode 0xe0 1 H_opcodeInvalid;
   mkOpcode 0xe1 1 H_opcodeInvalid;
   mkOpcode 0xe2 1 H_opcodeInvalid;
   mkOpcode 0xe3 1 H_opcodeInvalid;
   mkOpcode 0xe4 1 H_opcodeInvalid;
   mkOpcode 0xe5 1 H_opcodeInvalid;
   mkOpcode 0xe6 1 H_opcodeInvalid;
   mkOpcode 0xe7 1 H_opcodeInvalid;
   mkOpcode 0xe8 1 H_opcodeInvalid;
   mkOpcode 0xe9 1 H_opcodeInvalid;
   mkOpcode 0xea 1 H_opcodeInvalid;
   mkOpcode 0xeb 1 H_opcodeInvalid;
   mkOpcode 0xec 1 H_opcodeInvalid;
   mkOpcode 0xed 1 H_opcodeInvalid;
   mkOpcode 0xee 1 H_opcodeInvalid;
   mkOpcode 0xef 1 H_opcodeInvalid;
   mkOpcode 0xf0 1 H_opcodeInvalid;
   mkOpcode 0xf1 1 H_opcodeInvalid;
   mkOpcode 0xf2 1 H_opcodeInvalid;
   mkOpcode 0xf3 1 H_opcodeInvalid;
   mkOpcode 0xf4 1 H_opcodeInvalid;
   mkOpcode 0xf5 1 H_opcodeInvalid;
   mkOpcode 0xf6 1 H_opcodeInvalid;
   mkOpcode 0xf7 1 H_opcodeInvalid;
   mkOpcode 0xf8 1 H_opcodeInvalid;
   mkOpcode 0xf9 1 H_opcodeInvalid].

Definition internal_opcodes : list opcode :=
  [mkOpcode 0xfa 1 H_opcodeInvalid;
   mkOpcode 0xfb 1 H_opcodeInvalid;
   mkOpcode 0xfc 1 H_opcodeInvalid;
   mkOpcode 0xfd 1 H_opcodeInvalid;
   mkOpcode 0xfe 1 H_opcodeInvalid;
   mkOpcode 0xff 1 H_opcodeInvalid].

(** The Go composite literal places each entry at its own index. *)
Definition opcode_entries : list opcode :=
  push_opcodes ++ control_opcodes ++ stack_opcodes ++ splice_opcodes ++ bitwise_opcodes ++
  numeric_opcodes ++ crypto_opcodes ++ reserved_opcodes ++ undefined_opcodes ++ internal_opcodes.

Fixpoint find_entry (v : Z) (es : list opcode) : option opcode :=
  match es with
  | [] => None
  | e :: es => if value e =? v then Some e else find_entry v es
  end.

(** The zero value of [opcode] would fill an index without an entry. *)
Definition zero_opcode : opcode := mkOpcode 0 0 H_opcodeInvalid.

Definition table : list opcode :=
  Eval vm_compute in
    map (fun i => default zero_opcode (find_entry (Z.of_nat i) opcode_entries)) (seq 0 256).

Definition opcodeArray (instr : byte) : opcode := nth (Z.to_nat instr) table zero_opcode.
