(* ===== verification/Script.v ===== *)
(** * Scripts: parsing and inspection (txscript/script.go, parsedOpcode of
    txscript/opcode.go, txscript/hashcache.go)

    A script is a byte string; [parseScript] splits it into opcodes with their
    push data, [unparseScript] is its inverse.  The file also holds the
    predicates on parsed scripts, the counting of signature operations and the
    two signature hashes. *)

From S2P Require Import Prelude Chainhash Wire Hash WireMsg ScriptNum Opcode.

Record parsedOpcode := mkParsed { pop_opcode : opcode; data : list byte }.

Definition pop_value (pop : parsedOpcode) : Z := value (pop_opcode pop).

Definition elem_of_Z (v : Z) (l : list Z) : bool := existsb (Z.eqb v) l.

Definition isDisabled (pop : parsedOpcode) : bool :=
  elem_of_Z (pop_value pop)
    [OP_CAT; OP_SUBSTR; OP_LEFT; OP_RIGHT; OP_INVERT; OP_AND; OP_OR; OP_XOR; OP_2MUL;
     OP_2DIV; OP_MUL; OP_DIV; OP_MOD; OP_LSHIFT; OP_RSHIFT].

Definition alwaysIllegal (pop : parsedOpcode) : bool :=
  elem_of_Z (pop_value pop) [OP_VERIF; OP_VERNOTIF].

Definition isConditional (pop : parsedOpcode) : bool :=
  elem_of_Z (pop_value pop) [OP_IF; OP_NOTIF; OP_ELSE; OP_ENDIF].

Definition data0 (d : list byte) : Z := Z_of_byte (nth 0 d x00).

Definition checkMinimalDataPush (pop : parsedOpcode) : result script_error unit :=
  let d := data pop in
  let dataLen := zlen d in
  let op := pop_value pop in
  let require (b : bool) := if b then Ok tt else Err ErrMinimalData in
  if (dataLen =? 0) && negb (op =? OP_0) then Err ErrMinimalData
  else if (dataLen =? 1) && (1 <=? data0 d) && (data0 d <=? 16) then
    require (op =? u8 (OP_1 + data0 d - 1))
  else if (dataLen =? 1) && (data0 d =? 0x81) then require (op =? OP_1NEGATE)
  else if dataLen <=? 75 then require (op =? dataLen)
  else if dataLen <=? 255 then require (op =? OP_PUSHDATA1)
  else if dataLen <=? 65535 then require (op =? OP_PUSHDATA2)
  else Ok tt.

(** [bytes]: the length prefix of a PUSHDATA opcode is the low bytes of the
    data length, re-read to compute the expected size. *)
Definition bytes (pop : parsedOpcode) : result script_error (list byte) :=
  let head := [byte_of_Z (pop_value pop)] in
  let len := op_length (pop_opcode pop) in
  let l := zlen (data pop) in
  if len =? 1 then
    if negb (l =? 0) then Err ErrInternal else Ok head
  else
    let '(retbytes, nbytes) :=
      if len <? 0 then
        if (len =? -1) || (len =? -2) || (len =? -4) then
          let prefix := le_bytes (Z.to_nat (- len)) l in
          (head ++ prefix, le_value prefix + (1 + - len))
        else (head, len)
      else (head, len) in
    let retbytes := retbytes ++ data pop in
    if negb (zlen retbytes =? nbytes) then Err ErrInternal else Ok retbytes.

(** ** Parsing *)

(** One iteration of the loop of [parseScriptTemplate] at a non-empty
    suffix [instr :: rest] of the script. *)
Definition parse_one (opcodes : byte -> opcode) (instr : byte) (rest : list byte)
  : result script_error (parsedOpcode * list byte) :=
  let op := opcodes instr in
  let len := op_length op in
  if len =? 1 then Ok (mkParsed op [], rest)
  else if 1 <? len then
    if 1 + zlen rest <? len then Err ErrMalformedPush
    else Ok (mkParsed op (take (Z.to_nat (len - 1)) rest), drop (Z.to_nat (len - 1)) rest)
  else if len <? 0 then
    if zlen rest <? - len then Err ErrMalformedPush
    else if (len =? -1) || (len =? -2) || (len =? -4) then
      let l := le_value (take (Z.to_nat (- len)) rest) in
      let rest := drop (Z.to_nat (- len)) rest in
      if zlen rest <? l then Err ErrMalformedPush
      else Ok (mkParsed op (take (Z.to_nat l) rest), drop (Z.to_nat l) rest)
    else Err ErrMalformedPush
  else Ok (mkParsed op [], instr :: rest).

(** The loop; [None] when the fuel is spent.  On an error the opcodes parsed so
    far are returned with it. *)
Fixpoint parse_loop (opcodes : byte -> opcode) (fuel : nat) (script : list byte)
  : option (list parsedOpcode * option script_error) :=
  match script with
  | [] => Some ([], None)
  | instr :: rest =>
      match fuel with
      | O => None
      | S fuel =>
          match parse_one opcodes instr rest with
          | Ok (pop, rest) =>
              match parse_loop opcodes fuel rest with
              | Some (pops, err) => Some (pop :: pops, err)
              | None => None
              end
          | Err e => Some ([], Some e)
          | Panic => None
          end
      end
  end.

Definition parseScriptTemplate (script : list byte) (opcodes : byte -> opcode)
  : list parsedOpcode * option script_error :=
  default ([], Some ErrInternal) (parse_loop opcodes (length script) script).

Definition parseScript (script : list byte) : list parsedOpcode * option script_error :=
  parseScriptTemplate script opcodeArray.

Fixpoint unparseScript (pops : list parsedOpcode) : result script_error (list byte) :=
  match pops with
  | [] => Ok []
  | pop :: pops => let* b := bytes pop in let* script := unparseScript pops in Ok (b ++ script)
  end.

(** ** Predicates *)

Definition MaxOpsPerScript : Z := 201.
Definition MaxPubKeysPerMultiSig : Z := 20.
Definition MaxScriptElementSize : Z := 520.
Definition LockTimeThreshold : Z := 5 * 10 ^ 8.

Definition isSmallInt (op : opcode) : bool :=
  (value op =? OP_0) || ((OP_1 <=? value op) && (value op <=? OP_16)).

Definition asSmallInt (op : opcode) : Z :=
  if value op =? OP_0 then 0 else value op - (OP_1 - 1).

Definition parses_and (p : list parsedOpcode -> bool) (script : list byte) : bool :=
  match parseScript script with (pops, None) => p pops | _ => false end.

Definition isScriptHash (pops : list parsedOpcode) : bool :=
  match pops with
  | [a; b; c] => (pop_value a =? OP_HASH160) && (pop_value b =? OP_DATA_20)
                 && (pop_value c =? OP_EQUAL)
  | _ => false
  end.
Definition IsPayToScriptHash (script : list byte) : bool := parses_and isScriptHash script.

Definition isWitnessScriptHash (pops : list parsedOpcode) : bool :=
  match pops with
  | [a; b] => (pop_value a =? OP_0) && (pop_value b =? OP_DATA_32)
  | _ => false
  end.
Definition IsPayToWitnessScriptHash (script : list byte) : bool :=
  parses_and isWitnessScriptHash script.

Definition isWitnessPubKeyHash (pops : list parsedOpcode) : bool :=
  match pops with
  | [a; b] => (pop_value a =? OP_0) && (pop_value b =? OP_DATA_20)
  | _ => false
  end.
Definition IsPayToWitnessPubKeyHash (script : list byte) : bool :=
  parses_and isWitnessPubKeyHash script.

Definition canonicalPush (pop : parsedOpcode) : bool :=
  let op := pop_value pop in
  let dataLen := zlen (data pop) in
  if OP_16 <? op then true
  else if (op <? OP_PUSHDATA1) && (OP_0 <? op) && ((dataLen =? 1) && (data0 (data pop) <=? 16))
  then false
  else if (op =? OP_PUSHDATA1) && (dataLen <? OP_PUSHDATA1) then false
  else if (op =? OP_PUSHDATA2) && (dataLen <=? 0xff) then false
  else if (op =? OP_PUSHDATA4) && (dataLen <=? 0xffff) then false
  else true.

Definition isWitnessProgram (pops : list parsedOpcode) : bool :=
  match pops with
  | [a; b] => isSmallInt (pop_opcode a) && canonicalPush b
              && ((2 <=? zlen (data b)) && (zlen (data b) <=? 40))
  | _ => false
  end.
Definition IsWitnessProgram (script : list byte) : bool :=
  if (zlen script <? 4) || (42 <? zlen script) then false
  else parses_and isWitnessProgram script.

(** The error of the source is not a script error; it is only tested. *)
Definition ExtractWitnessProgramInfo (script : list byte) : option (Z * list byte) :=
  match parseScript script with
  | (pops, None) =>
      if negb (isWitnessProgram pops) then None
      else match pops with
           | [a; b] => Some (asSmallInt (pop_opcode a), data b)
           | _ => None
           end
  | _ => None
  end.

Definition isPushOnly (pops : list parsedOpcode) : bool :=
  forallb (fun pop => pop_value pop <=? OP_16) pops.
Definition IsPushOnlyScript (script : list byte) : bool := parses_and isPushOnly script.

Definition IsUnspendable (pkScript : list byte) : bool :=
  match parseScript pkScript with
  | (pops, None) => match pops with pop :: _ => pop_value pop =? OP_RETURN | [] => false end
  | _ => true
  end.

(** ** Removing opcodes *)

Definition removeOpcode (pkscript : list parsedOpcode) (op : Z) : list parsedOpcode :=
  List.filter (fun pop => negb (pop_value pop =? op)) pkscript.

(** [bytes.Contains]. *)
Fixpoint is_prefix (d l : list byte) : bool :=
  match d, l with
  | [], _ => true
  | a :: d, b :: l => bool_decide (a = b) && is_prefix d l
  | _ :: _, [] => false
  end.
Fixpoint contains (l d : list byte) : bool :=
  is_prefix d l || match l with [] => false | _ :: l => contains l d end.

Definition removeOpcodeByData (pkscript : list parsedOpcode) (d : list byte)
  : list parsedOpcode :=
  List.filter (fun pop => negb (canonicalPush pop) || negb (contains (data pop) d)) pkscript.

(** ** Counting signature operations *)

(** [prev] is [pops[i-1]], absent for [i = 0]. *)
Fixpoint sigop_loop (precise : bool) (prev : option parsedOpcode) (pops : list parsedOpcode)
  : Z :=
  match pops with
  | [] => 0
  | pop :: pops =>
      let v := pop_value pop in
      let n :=
        if (v =? OP_CHECKSIG) || (v =? OP_CHECKSIGVERIFY) then 1
        else if (v =? OP_CHECKMULTISIG) || (v =? OP_CHECKMULTISIGVERIFY) then
          match prev with
          | Some p =>
              if precise && (OP_1 <=? pop_value p) && (pop_value p <=? OP_16)
              then asSmallInt (pop_opcode p) else MaxPubKeysPerMultiSig
          | None => MaxPubKeysPerMultiSig
          end
        else 0 in
      n + sigop_loop precise (Some pop) pops
  end.

Definition getSigOpCount (pops : list parsedOpcode) (precise : bool) : Z :=
  sigop_loop precise None pops.

Definition GetSigOpCount (script : list byte) : Z := getSigOpCount (parseScript script).1 false.

Definition last_data (pops : list parsedOpcode) : list byte :=
  match list.last pops with Some pop => data pop | None => [] end.

Definition GetPreciseSigOpCount (scriptSig scriptPubKey : list byte) (bip16 : bool) : Z :=
  let pops := (parseScript scriptPubKey).1 in
  if negb (bip16 && isScriptHash pops) then getSigOpCount pops true
  else match parseScript scriptSig with
       | (_, Some _) => 0
       | (sigPops, None) =>
           if negb (isPushOnly sigPops) || (zlen sigPops =? 0) then 0
           else
             let shScript := last_data sigPops in
             if zlen shScript =? 0 then 0
             else getSigOpCount (parseScript shScript).1 true
       end.

Definition payToWitnessPubKeyHashDataSize : Z := 20.
Definition payToWitnessScriptHashDataSize : Z := 32.

Definition getWitnessSigOps (pkScript : list byte) (witness : list (list byte)) : Z :=
  match ExtractWitnessProgramInfo pkScript with
  | None => 0
  | Some (witnessVersion, witnessProgram) =>
      if witnessVersion =? 0 then
        if zlen witnessProgram =? payToWitnessPubKeyHashDataSize then 1
        else if (zlen witnessProgram =? payToWitnessScriptHashDataSize)
                && (0 <? zlen witness) then
          getSigOpCount (parseScript (default [] (list.last witness))).1 true
        else 0
      else 0
  end.

(** [sigScript[1:]] panics on an empty script. *)
Definition GetWitnessSigOpCount (sigScript pkScript : list byte) (witness : list (list byte))
  : result script_error Z :=
  if IsWitnessProgram pkScript then Ok (getWitnessSigOps pkScript witness)
  else match parseScript sigScript with
       | (_, Some _) => Ok 0
       | (sigPops, None) =>
           if IsPayToScriptHash pkScript && isPushOnly sigPops then
             match sigScript with
             | [] => Panic
             | _ :: tail =>
                 if IsWitnessProgram tail then Ok (getWitnessSigOps tail witness) else Ok 0
             end
           else Ok 0
       end.

(** ** Signature hashes *)

Definition SigHashOld : Z := 0x0.
Definition SigHashAll : Z := 0x1.
Definition SigHashNone : Z := 0x2.
Definition SigHashSingle : Z := 0x3.
Definition SigHashAnyOneCanPay : Z := 0x80.
Definition sigHashMask : Z := 0x1f.

Record TxSigHashes := mkTxSigHashes {
  HashPrevOuts : Hash; HashSequence : Hash; HashOutputs : Hash
}.

Section SigHash.
Context `{HashFunctions}.

Definition calcHashPrevOuts (tx : MsgTx) : Hash :=
  DoubleHashH (concat (map (fun i => op_Hash (ti_PreviousOutPoint i)
                                     ++ PutUint32 (op_Index (ti_PreviousOutPoint i)))
                           (tx_TxIn tx))).

Definition calcHashSequence (tx : MsgTx) : Hash :=
  DoubleHashH (concat (map (fun i => PutUint32 (ti_Sequence i)) (tx_TxIn tx))).

Definition calcHashOutputs (tx : MsgTx) : Hash :=
  DoubleHashH (concat (map WriteTxOut (tx_TxOut tx))).

Definition NewTxSigHashes (tx : MsgTx) : TxSigHashes :=
  mkTxSigHashes (calcHashPrevOuts tx) (calcHashSequence tx) (calcHashOutputs tx).

Definition ignore_err (r : result script_error (list byte)) : list byte :=
  match r with Ok b => b | _ => [] end.

(** [None] is the plain error of the index check. *)
Definition calcWitnessSignatureHash (subScript : list parsedOpcode) (sigHashes : TxSigHashes)
    (hashType : Z) (tx : MsgTx) (idx : nat) (amt : Z) : option (list byte) :=
  match tx_TxIn tx !! idx with
  | None => None
  | Some txIn =>
      let masked := Z.land hashType sigHashMask in
      let prevouts :=
        if Z.land hashType SigHashAnyOneCanPay =? 0 then HashPrevOuts sigHashes else zero_hash in
      let sequence :=
        if (Z.land hashType SigHashAnyOneCanPay =? 0)
           && negb (masked =? SigHashSingle) && negb (masked =? SigHashNone)
        then HashSequence sigHashes else zero_hash in
      let outpoint := op_Hash (ti_PreviousOutPoint txIn)
                      ++ PutUint32 (op_Index (ti_PreviousOutPoint txIn)) in
      let code :=
        if isWitnessPubKeyHash subScript then
          [x19] ++ map byte_of_Z [OP_DUP; OP_HASH160; OP_DATA_20]
          ++ last_data subScript ++ map byte_of_Z [OP_EQUALVERIFY; OP_CHECKSIG]
        else WriteVarBytes (ignore_err (unparseScript subScript)) in
      let outputs :=
        if negb (Z.land hashType SigHashSingle =? SigHashSingle)
           && negb (Z.land hashType SigHashNone =? SigHashNone)
        then HashOutputs sigHashes
        else match (if masked =? SigHashSingle then tx_TxOut tx !! idx else None) with
             | Some out => DoubleHashB (WriteTxOut out)
             | None => zero_hash
             end in
      Some (DoubleHashB
        (PutUint32 (tx_Version tx) ++ prevouts ++ sequence ++ outpoint ++ code
         ++ PutUint64 amt ++ PutUint32 (ti_Sequence txIn) ++ outputs
         ++ PutUint32 (tx_LockTime tx) ++ PutUint32 hashType))
  end.

Definition set_sig_script (s : list byte) (t : TxIn) : TxIn :=
  mkTxIn (ti_PreviousOutPoint t) s (ti_Witness t) (ti_Sequence t).
Definition zero_sequence (t : TxIn) : TxIn :=
  mkTxIn (ti_PreviousOutPoint t) (ti_SignatureScript t) (ti_Witness t) 0.

(** [txCopy.TxIn[idx : idx+1]] panics when [idx] is not an input. *)
Definition calcSignatureHash (script : list parsedOpcode) (hashType : Z) (tx : MsgTx) (idx : nat)
  : result script_error (list byte) :=
  let masked := Z.land hashType sigHashMask in
  if (masked =? SigHashSingle) && (zlen (tx_TxOut tx) <=? Z.of_nat idx) then
    Ok (x01 :: replicate 31 x00)
  else
    let script := removeOpcode script OP_CODESEPARATOR in
    let txins := imap (fun i t =>
      if (i =? idx)%nat then set_sig_script (ignore_err (unparseScript script)) t
      else set_sig_script [] t) (tx_TxIn tx) in
    let zeroed := imap (fun i t => if (i =? idx)%nat then t else zero_sequence t) txins in
    let '(txins, txouts) :=
      if masked =? SigHashNone then (zeroed, [])
      else if masked =? SigHashSingle then
        (zeroed, imap (fun i o => if (i <? idx)%nat then mkTxOut (-1) [] else o)
                      (take (S idx) (tx_TxOut tx)))
      else (txins, tx_TxOut tx) in
    let* txins :=
      if negb (Z.land hashType SigHashAnyOneCanPay =? 0) then
        match txins !! idx with Some t => Ok [t] | None => Panic end
      else Ok txins in
    let txCopy := mkMsgTx (tx_Version tx) txins txouts (tx_LockTime tx) in
    Ok (DoubleHashB (MsgTx_BtcEncode BaseEncoding txCopy ++ PutUint32 hashType)).

End SigHash.

(** ** Lemmas *)

#[local] Arguments opcodeArray : simpl never.
#[local] Arguments byte_of_Z : simpl never.
#[local] Arguments zlen : simpl never.
#[local] Arguments parse_one : simpl never.
#[local] Arguments bytes : simpl never.

(** What parsing relies on in the table: every byte has its own entry, and the
    lengths are those the two switches handle. *)
Definition entry_ok (instr : byte) : bool :=
  let len := op_length (opcodeArray instr) in
  (value (opcodeArray instr) =? instr)
  && ((len =? 1) || ((2 <=? len) && (len <=? 76)) || (len =? -1) || (len =? -2) || (len =? -4)).

Lemma table_ok instr : entry_ok instr = true.
Proof.
  assert (Hall : forallb entry_ok all_bytes = true) by reflexivity.
  rewrite forallb_forall in Hall. apply Hall, in_all_bytes.
Qed.

Lemma opcode_value instr : value (opcodeArray instr) = instr.
Proof. pose proof (table_ok instr) as Hok. unfold entry_ok in Hok. bool_to_Z. lia. Qed.

Lemma opcode_length instr :
  let len := op_length (opcodeArray instr) in
  len = 1 \/ (2 <= len <= 76) \/ len = -1 \/ len = -2 \/ len = -4.
Proof. pose proof (table_ok instr) as Hok. unfold entry_ok in Hok. bool_to_Z. lia. Qed.

Lemma zlen_take_drop {A} n (l : list A) :
  0 <= n <= zlen l -> zlen (take (Z.to_nat n) l) = n.
Proof. unfold zlen. rewrite length_take. lia. Qed.

(** The entries without an embedded length. *)
Lemma parse_one_fixed instr rest pop rest' :
  0 < op_length (opcodeArray instr) ->
  parse_one opcodeArray instr rest = Ok (pop, rest') ->
  exists b, bytes pop = Ok b /\ instr :: rest = b ++ rest' /\ b <> [].
Proof.
  intros Hpos Hp. pose proof (opcode_value instr) as Hv.
  unfold parse_one in Hp. destruct (op_length (opcodeArray instr) =? 1) eqn:H1 in Hp.
  - injection Hp as <- <-. exists [instr]. unfold bytes, pop_value. cbn -[byte_of_Z Z.eqb].
    now rewrite H1, Hv, byte_of_Z_of_byte.
  - assert (1 < op_length (opcodeArray instr)) as Hlt by (bool_to_Z; lia).
    destruct (1 <? _) eqn:? in Hp; [|bool_to_Z; lia].
    destruct (_ <? _) eqn:? in Hp; [discriminate|]. injection Hp as <- <-.
    exists (instr :: take (Z.to_nat (op_length (opcodeArray instr) - 1)) rest).
    rewrite <- app_comm_cons, take_drop. split; [|easy].
    unfold bytes, pop_value. cbn -[byte_of_Z Z.eqb Z.ltb take]. rewrite Hv, byte_of_Z_of_byte.
    bool_to_Z. destruct (op_length _ =? 1) eqn:?; [bool_to_Z; lia|].
    destruct (op_length _ <? 0) eqn:?; [bool_to_Z; lia|].
    rewrite <- app_comm_cons. unfold zlen. cbn [length app]. rewrite Nat2Z.inj_succ.
    fold (zlen (take (Z.to_nat (op_length (opcodeArray instr) - 1)) rest)).
    rewrite zlen_take_drop by lia. case_if; [bool_to_Z; lia|easy].
Qed.

(** The PUSHDATA entries. *)
Lemma parse_one_pushdata instr rest pop rest' :
  op_length (opcodeArray instr) < 0 ->
  parse_one opcodeArray instr rest = Ok (pop, rest') ->
  exists b, bytes pop = Ok b /\ instr :: rest = b ++ rest' /\ b <> [].
Proof.
  intros Hneg Hp. pose proof (opcode_value instr) as Hv. pose proof (opcode_length instr) as Hl.
  cbv zeta in Hl. unfold parse_one in Hp. set (len := op_length (opcodeArray instr)) in *.
  destruct (len =? 1) eqn:? in Hp; [bool_to_Z; lia|].
  destruct (1 <? len) eqn:? in Hp; [bool_to_Z; lia|].
  destruct (len <? 0) eqn:Hlt0 in Hp; [|bool_to_Z; lia].
  destruct (zlen rest <? - len) eqn:? in Hp; [discriminate|].
  destruct ((len =? -1) || _ || _) eqn:Hk in Hp; [|bool_to_Z; lia].
  set (pre := take (Z.to_nat (- len)) rest) in *.
  set (tl := drop (Z.to_nat (- len)) rest) in *.
  destruct (zlen tl <? le_value pre) eqn:? in Hp; [discriminate|]. injection Hp as <- <-.
  assert (Hrest : rest = pre ++ tl) by (symmetry; apply take_drop).
  assert (Hpre : length pre = Z.to_nat (- len)).
  { unfold pre. rewrite length_take. bool_to_Z. unfold zlen in *. lia. }
  pose proof (le_value_range pre) as Hr.
  exists (instr :: pre ++ take (Z.to_nat (le_value pre)) tl).
  split; [|split; [|easy]].
  - unfold bytes, pop_value. cbn -[byte_of_Z Z.eqb Z.ltb take le_bytes].
    fold len. rewrite Hlt0, Hk, Hv, byte_of_Z_of_byte.
    destruct (len =? 1) eqn:?; [bool_to_Z; lia|].
    rewrite zlen_take_drop by (bool_to_Z; lia). rewrite <- Hpre, le_bytes_value.
    rewrite <- app_comm_cons. unfold zlen at 1. rewrite length_cons, length_app, Hpre.
    rewrite length_take. unfold zlen in *. bool_to_Z. case_if; [bool_to_Z; lia|easy].
  - rewrite <- app_comm_cons, <- app_assoc, take_drop. now rewrite <- Hrest.
Qed.

Lemma parse_one_sound instr rest pop rest' :
  parse_one opcodeArray instr rest = Ok (pop, rest') ->
  exists b, bytes pop = Ok b /\ instr :: rest = b ++ rest' /\ b <> [].
Proof.
  pose proof (opcode_length instr) as Hl. cbv zeta in Hl.
  destruct (Z_lt_le_dec (op_length (opcodeArray instr)) 0).
  - now apply parse_one_pushdata.
  - apply parse_one_fixed. lia.
Qed.

Lemma parse_one_no_panic ops instr rest : parse_one ops instr rest <> Panic.
Proof. unfold parse_one. repeat case_if; discriminate. Qed.

(** The fuel of [parseScript] suffices: an opcode takes at least one byte. *)
Lemma parse_loop_total fuel script :
  (length script <= fuel)%nat -> is_Some (parse_loop opcodeArray fuel script).
Proof.
  revert script. induction fuel as [|fuel IH]; intros [|instr rest] Hle; cbn;
    try (eexists; reflexivity); [cbn in Hle; lia|].
  destruct (parse_one opcodeArray instr rest) as [[pop rest']|e|] eqn:Hp;
    [|eexists; reflexivity|now destruct (parse_one_no_panic opcodeArray instr rest)].
  destruct (parse_one_sound _ _ _ _ Hp) as (b & _ & Heq & Hb).
  assert (length rest' <= fuel)%nat as Hlen.
  { apply (f_equal length) in Heq. rewrite length_app in Heq. destruct b; [easy|].
    cbn in *. lia. }
  destruct (IH rest' Hlen) as [[pops err] ->]. eexists; reflexivity.
Qed.

Lemma parse_loop_sound fuel script pops :
  parse_loop opcodeArray fuel script = Some (pops, None) -> unparseScript pops = Ok script.
Proof.
  revert script pops. induction fuel as [|fuel IH]; intros [|instr rest] pops;
    cbn; intros Hp; try discriminate; try (injection Hp as <-; reflexivity).
  destruct (parse_one opcodeArray instr rest) as [[pop rest']|e|] eqn:Hone; try discriminate.
  destruct (parse_loop opcodeArray fuel rest') as [[ps err]|] eqn:Hloop; [|discriminate].
  injection Hp as <- ->. destruct (parse_one_sound _ _ _ _ Hone) as (b & Hb & -> & _).
  cbn. now rewrite Hb, (IH _ _ Hloop).
Qed.

Lemma parseScript_loop script pops :
  parseScript script = (pops, None) ->
  parse_loop opcodeArray (length script) script = Some (pops, None).
Proof.
  unfold parseScript, parseScriptTemplate.
  destruct (parse_loop_total (length script) script) as [x ->]; [lia|]. cbn. now intros ->.
Qed.

(** Opcodes of the table, the only ones a script can name. *)
Definition from_table (pop : parsedOpcode) : Prop :=
  exists instr, pop_opcode pop = opcodeArray instr.

Lemma parse_one_bytes instr pop b rest :
  pop_opcode pop = opcodeArray instr -> bytes pop = Ok b ->
  exists tl, b = instr :: tl /\ parse_one opcodeArray instr (tl ++ rest) = Ok (pop, rest).
Proof.
  intros Hop Hb. pose proof (opcode_value instr) as Hv. pose proof (opcode_length instr) as Hl.
  cbv zeta in Hl. destruct pop as [op d]. cbn in Hop. subst op.
  unfold bytes, pop_value in Hb. cbn -[byte_of_Z Z.eqb Z.ltb le_bytes] in Hb.
  unfold parse_one. set (len := op_length (opcodeArray instr)) in *.
  rewrite Hv, byte_of_Z_of_byte in Hb.
  destruct (len =? 1) eqn:?.
  { destruct (negb (zlen d =? 0)) eqn:? in Hb; [discriminate|]. injection Hb as <-.
    exists []. split; [easy|]. destruct d; [easy|]. unfold zlen in *. cbn in *. bool_to_Z. lia. }
  destruct (len <? 0) eqn:?; bool_to_Z.
  - destruct ((len =? -1) || _ || _) eqn:Hk in Hb; [|bool_to_Z; lia]. rewrite Hk.
    destruct (negb _) eqn:Hlen in Hb; [discriminate|]. injection Hb as <-.
    eexists. split; [reflexivity|]. bool_to_Z.
    pose proof (length_le_bytes (Z.to_nat (- len)) (zlen d)) as Hpl.
    set (pre := le_bytes (Z.to_nat (- len)) (zlen d)) in *.
    unfold zlen in Hlen. cbn [app] in Hlen. rewrite length_cons, length_app in Hlen.
    case_if; [lia|].
    rewrite <- app_assoc, take_app_length', drop_app_length' by lia.
    unfold zlen. rewrite !length_app.
    assert (Hvd : le_value pre = Z.of_nat (length d)) by lia.
    rewrite Hvd, Nat2Z.id, take_app_length, drop_app_length.
    repeat (case_if; [bool_to_Z; lia|]). easy.
  - destruct (negb _) eqn:Hlen in Hb; [discriminate|]. injection Hb as <-.
    exists d. split; [easy|]. unfold zlen in *. cbn [app] in *. rewrite length_cons in *.
    bool_to_Z. rewrite !length_app. case_if; [|lia]. case_if; [lia|].
    now rewrite take_app_length', drop_app_length' by lia.
Qed.

Lemma parse_loop_complete pops script fuel :
  Forall from_table pops -> unparseScript pops = Ok script -> (length script <= fuel)%nat ->
  parse_loop opcodeArray fuel script = Some (pops, None).
Proof.
  intros Hall. revert script fuel. induction Hall as [|pop pops [instr Hop] _ IH];
    intros script fuel Hs Hf.
  - injection Hs as <-. now destruct fuel.
  - cbn in Hs. destruct (bytes pop) as [b| |] eqn:Hb; try discriminate.
    destruct (unparseScript pops) as [s| |] eqn:Hu; try discriminate. injection Hs as <-.
    destruct (parse_one_bytes _ _ _ s Hop Hb) as (tl & -> & Hp).
    destruct fuel as [|fuel]; [cbn in Hf; lia|]. cbn. rewrite Hp.
    rewrite (IH s fuel eq_refl); [easy|]. cbn in Hf. rewrite length_app in Hf. lia.
Qed.

Lemma parse_loop_from_table fuel script pops err :
  parse_loop opcodeArray fuel script = Some (pops, err) -> Forall from_table pops.
Proof.
  revert script pops. induction fuel as [|fuel IH]; intros [|instr rest] pops;
    cbn; intros Hp; try discriminate; try (injection Hp as <- <-; constructor).
  destruct (parse_one opcodeArray instr rest) as [[pop rest']|e|] eqn:Hone; try discriminate.
  - destruct (parse_loop opcodeArray fuel rest') as [[ps e]|] eqn:Hloop; [|discriminate].
    injection Hp as <- ->. constructor; [|eauto].
    exists instr. unfold parse_one in Hone. revert Hone. repeat case_if; intros [= <- _];
      reflexivity.
  - injection Hp as <- <-. constructor.
Qed.

Lemma sigop_loop_le prev pops :
  0 <= sigop_loop true prev pops <= sigop_loop false prev pops.
Proof.
  revert prev. induction pops as [|pop pops IH]; intros prev; cbn -[Z.add]; [lia|].
  specialize (IH (Some pop)). unfold MaxPubKeysPerMultiSig in *.
  destruct (_ || _); [lia|]. destruct (_ || _); [|lia]. destruct prev as [p|]; [|lia].
  cbn [andb]. destruct (_ && _) eqn:Hp; [|lia]. bool_to_Z. unfold pop_value, asSmallInt, OP_1, OP_16 in *.
  case_if; unfold OP_0 in *; lia.
Qed.

(** ** Properties *)

(** C35: parsing and unparsing are inverse: a byte string parses without error
    to a list of opcodes exactly when the opcodes come from the opcode table
    and serialise back to that byte string.  In particular no two scripts have
    the same parse, and no information is lost. *)
Theorem parse_unparse_script script pops :
  parseScript script = (pops, None) <->
  Forall from_table pops /\ unparseScript pops = Ok script.
Proof.
  split.
  - intros Hp%parseScript_loop. split; eauto using parse_loop_from_table, parse_loop_sound.
  - intros [Hall Hu]. unfold parseScript, parseScriptTemplate.
    now rewrite (parse_loop_complete _ _ _ Hall Hu).
Qed.

(** the precise count of signature operations never exceeds the
    conservative one, and neither is negative: a script that the block-level
    check accepts also satisfies the tighter limit. *)
Theorem precise_sigops_le pops :
  0 <= getSigOpCount pops true <= getSigOpCount pops false.
Proof. apply sigop_loop_le. Qed.

(** counting the signature operations of an input crashes when it spends
    a pay-to-script-hash output with an empty signature script:
    [sigScript[1:]] is out of range. *)
Theorem witness_sigops_panics hash witness :
  length hash = 20%nat ->
  GetWitnessSigOpCount [] (map byte_of_Z [OP_HASH160; OP_DATA_20] ++ hash ++ [byte_of_Z OP_EQUAL]) witness
  = Panic.
Proof.
  intros Hlen.
  do 20 (destruct hash as [|? hash]; [discriminate|]). destruct hash; [|discriminate].
  reflexivity.
Qed.

Lemma witness_sigops_panics_witness :
  length (replicate 20 x00) = 20%nat /\
  GetWitnessSigOpCount []
    (map byte_of_Z [OP_HASH160; OP_DATA_20] ++ replicate 20 x00 ++ [byte_of_Z OP_EQUAL]) []
  = Panic.
Proof. split; [reflexivity|apply (witness_sigops_panics (replicate 20 x00) []); reflexivity]. Defined.
