(* ===== verification/ScriptBuilder.v ===== *)
(** * Building scripts: txscript/scriptbuilder.go and the pay-to-pubkey-hash
    script of txscript/standard.go

    A builder collects bytes and remembers the first error, after which every
    operation leaves it alone. *)

From S2P Require Import Prelude Chainhash Wire WireMsg ScriptNum Opcode Script.

Definition MaxScriptSize : Z := 10000.

(** [err != nil] is [sb_failed]: the only error is [ErrScriptNotCanonical]. *)
Record ScriptBuilder := mkBuilder { sb_script : list byte; sb_failed : bool }.

Definition NewScriptBuilder : ScriptBuilder := mkBuilder [] false.
Definition Reset (b : ScriptBuilder) : ScriptBuilder := mkBuilder [] false.

Definition sb_append (bs : list byte) (b : ScriptBuilder) : ScriptBuilder :=
  mkBuilder (sb_script b ++ bs) (sb_failed b).
Definition sb_fail (b : ScriptBuilder) : ScriptBuilder := mkBuilder (sb_script b) true.

Definition AddOp (opcode : Z) (b : ScriptBuilder) : ScriptBuilder :=
  if sb_failed b then b
  else if MaxScriptSize <? zlen (sb_script b) + 1 then sb_fail b
  else sb_append [byte_of_Z opcode] b.

Definition AddOps (opcodes : list byte) (b : ScriptBuilder) : ScriptBuilder :=
  if sb_failed b then b
  else if MaxScriptSize <? zlen (sb_script b) + zlen opcodes then sb_fail b
  else sb_append opcodes b.

Definition canonicalDataSize (d : list byte) : Z :=
  let dataLen := zlen d in
  if dataLen =? 0 then 1
  else if (dataLen =? 1) && (data0 d <=? 16) then 1
  else if (dataLen =? 1) && (data0 d =? 0x81) then 1
  else if dataLen <? OP_PUSHDATA1 then 1 + dataLen
  else if dataLen <=? 0xff then 2 + dataLen
  else if dataLen <=? 0xffff then 3 + dataLen
  else 5 + dataLen.

(** The bytes [addData] appends. *)
Definition data_push (d : list byte) : list byte :=
  let dataLen := zlen d in
  if (dataLen =? 0) || (dataLen =? 1) && (data0 d =? 0) then [byte_of_Z OP_0]
  else if (dataLen =? 1) && (data0 d <=? 16) then [byte_of_Z (OP_1 - 1 + data0 d)]
  else if (dataLen =? 1) && (data0 d =? 0x81) then [byte_of_Z OP_1NEGATE]
  else if dataLen <? OP_PUSHDATA1 then byte_of_Z (OP_DATA_1 - 1 + dataLen) :: d
  else if dataLen <=? 0xff then byte_of_Z OP_PUSHDATA1 :: byte_of_Z dataLen :: d
  else if dataLen <=? 0xffff then byte_of_Z OP_PUSHDATA2 :: le_bytes 2 dataLen ++ d
  else byte_of_Z OP_PUSHDATA4 :: le_bytes 4 dataLen ++ d.

Definition addData (d : list byte) (b : ScriptBuilder) : ScriptBuilder := sb_append (data_push d) b.

Definition AddFullData (d : list byte) (b : ScriptBuilder) : ScriptBuilder :=
  if sb_failed b then b else addData d b.

Definition AddData (d : list byte) (b : ScriptBuilder) : ScriptBuilder :=
  if sb_failed b then b
  else if MaxScriptSize <? zlen (sb_script b) + canonicalDataSize d then sb_fail b
  else if MaxScriptElementSize <? zlen d then sb_fail b
  else addData d b.

(** [scriptNum(val).Bytes()] panics on the least int64. *)
Definition AddInt64 (val : Z) (b : ScriptBuilder) : result script_error ScriptBuilder :=
  if sb_failed b then Ok b
  else if MaxScriptSize <? zlen (sb_script b) + 1 then Ok (sb_fail b)
  else if val =? 0 then Ok (sb_append [byte_of_Z OP_0] b)
  else if (val =? -1) || (1 <=? val) && (val <=? 16) then
    Ok (sb_append [byte_of_Z (OP_1 - 1 + val)] b)
  else let* d := Bytes val in Ok (AddData d b).

(** [Script] returns the bytes and the error. *)
Definition build_script (b : ScriptBuilder) : result script_error (list byte) :=
  if sb_failed b then Err OtherError else Ok (sb_script b).

Definition payToPubKeyHashScript (pubKeyHash : list byte) : result script_error (list byte) :=
  build_script (AddOp OP_CHECKSIG (AddOp OP_EQUALVERIFY
    (AddData pubKeyHash (AddOp OP_HASH160 (AddOp OP_DUP NewScriptBuilder))))).
