(* ===== verification/Merkle.v ===== *)
(** * Merkle trees: blockchain/merkle.go

    [BuildMerkleTreeStore] lays the tree out in one array: the leaves padded
    with nil to a power of two, then each level after the one it is computed
    from.  The reference definition works level by level on lists without
    padding; [BuildMerkleTreeStore_root] relates the two. *)

From S2P Require Import Prelude Chainhash Wire Hash WireMsg.

Section Merkle.
Context `{HashFunctions}.

(** For an [n] that is not a power of two the source takes the integer part of
    [math.Log2(float64(n))], which is the binary logarithm for every slice
    length that fits in memory. *)
Definition nextPowerOfTwo (n : Z) : Z :=
  if Z.land n (n - 1) =? 0 then n else Z.shiftl 1 (Z.log2 n + 1).

Definition HashMerkleBranches (left right : Hash) : Hash := DoubleHashH (left ++ right).

(** The three cases of the switch; nil is [None]. *)
Definition merkle_parent (left right : option Hash) : option Hash :=
  match left, right with
  | None, _ => None
  | Some l, None => Some (HashMerkleBranches l l)
  | Some l, Some r => Some (HashMerkleBranches l r)
  end.

Definition leaf (witness : bool) (i : nat) (tx : MsgTx) : Hash :=
  if witness then (if (i =? 0)%nat then zero_hash else WitnessHash tx) else TxHash tx.

(** [n] iterations of the loop from index [i] and [offset]. *)
Fixpoint merkle_loop (n i offset : nat) (merkles : list (option Hash)) : list (option Hash) :=
  match n with
  | O => merkles
  | S n =>
      let get k := default None (merkles !! k) in
      merkle_loop n (i + 2) (S offset)
        (<[offset := merkle_parent (get i) (get (S i))]> merkles)
  end.

(** Without transactions the source makes a slice of length -1 and panics; here
    the array is empty, and so has no root, which the callers turn into a
    panic. *)
Definition BuildMerkleTreeStore (transactions : list MsgTx) (witness : bool)
  : list (option Hash) :=
  let nextPoT := Z.to_nat (nextPowerOfTwo (zlen transactions)) in
  let arraySize := (nextPoT * 2 - 1)%nat in
  let leaves := imap (fun i tx => Some (leaf witness i tx)) transactions in
  let merkles := leaves ++ replicate (arraySize - length transactions) None in
  merkle_loop (nextPoT - 1) 0 nextPoT merkles.

(** [merkles[len(merkles)-1]]. *)
Definition merkle_root_of (merkles : list (option Hash)) : option Hash :=
  default None (list.last merkles).

(** ** Reference definition *)

Fixpoint ref_level (hs : list Hash) : list Hash :=
  match hs with
  | a :: b :: hs => HashMerkleBranches a b :: ref_level hs
  | [a] => [HashMerkleBranches a a]
  | [] => []
  end.

(** Pair up until one hash is left; the fuel is spent by no list shorter than it. *)
Fixpoint ref_root (fuel : nat) (hs : list Hash) : option Hash :=
  match hs with
  | [] => None
  | [h] => Some h
  | _ => match fuel with O => None | S fuel => ref_root fuel (ref_level hs) end
  end.

(** ** Lemmas *)

(** One level of the padded tree. *)
Fixpoint pair_level (hs : list (option Hash)) : list (option Hash) :=
  match hs with
  | a :: b :: hs => merkle_parent a b :: pair_level hs
  | _ => []
  end.

Lemma pair_level_app a b n :
  length a = (2 * n)%nat -> pair_level (a ++ b) = pair_level a ++ pair_level b.
Proof.
  revert a. induction n as [|n IH]; intros a Ha; [now destruct a|].
  destruct a as [|x [|y a]]; cbn in Ha; try lia. cbn. rewrite IH by lia. reflexivity.
Qed.

Lemma length_pair_level hs n : length hs = (2 * n)%nat -> length (pair_level hs) = n.
Proof.
  revert hs. induction n as [|n IH]; intros hs Hl; [now destruct hs|].
  destruct hs as [|x [|y hs]]; cbn in Hl; try lia. cbn. rewrite IH by lia. reflexivity.
Qed.

(** The loop computes, from the entries [done ++ todo] of which the pairs of
    [done] are already consumed, the parents of [todo], in order. *)
Lemma merkle_loop_level n done todo out rest pad :
  length todo = (2 * n)%nat -> length rest = n ->
  merkle_loop (n + pad) (length done) (length done + length todo + length out)
    (done ++ todo ++ out ++ rest ++ replicate pad None)
  = merkle_loop pad (length done + length todo) (length done + length todo + length out + n)
      (done ++ todo ++ out ++ pair_level todo ++ replicate pad None).
Proof.
  revert done todo out rest. induction n as [|n IH]; intros done todo out rest Ht Hr.
  - destruct todo; [|discriminate]. destruct rest; [|discriminate]. cbn.
    now rewrite !Nat.add_0_r.
  - destruct todo as [|a [|b todo]]; cbn in Ht; try lia. destruct rest as [|r rest]; [easy|].
    cbn [Nat.add merkle_loop pair_level].
    assert (Ha : (done ++ (a :: b :: todo) ++ out ++ (r :: rest) ++ replicate pad None)
                   !! length done = Some a).
    { rewrite lookup_app_r, Nat.sub_diag by lia. reflexivity. }
    assert (Hb : (done ++ (a :: b :: todo) ++ out ++ (r :: rest) ++ replicate pad None)
                   !! S (length done) = Some b).
    { rewrite lookup_app_r by lia. replace (S (length done) - length done)%nat with 1%nat by lia.
      reflexivity. }
    rewrite Ha, Hb. cbn [default]. unfold id.
    rewrite insert_app_r_alt by lia.
    rewrite insert_app_r_alt by (cbn [length]; lia). rewrite insert_app_r_alt by (cbn [length]; lia).
    replace (_ - _ - _ - _)%nat with 0%nat by (cbn [length]; lia).
    cbn [app insert list_insert].
    specialize (IH (done ++ [a; b]) todo (out ++ [merkle_parent a b]) rest ltac:(lia)
                  ltac:(cbn in Hr; lia)).
    rewrite <- !app_assoc, !length_app in IH. cbn [app length] in IH.
    replace (length done + S (S (length todo)) + length out)%nat
      with (length done + 2 + length todo + length out)%nat by lia.
    replace (S (length done + 2 + length todo + length out))
      with (length done + 2 + length todo + (length out + 1))%nat by lia.
    replace (S (length done + length (a :: b :: todo) + length out))
      with (length done + 2 + length todo + (length out + 1))%nat by (cbn [length]; lia).
    rewrite IH. f_equal; cbn [length]; lia.
Qed.

Fixpoint iter_level (k : nat) (hs : list (option Hash)) : list (option Hash) :=
  match k with O => hs | S k => iter_level k (pair_level hs) end.

Lemma merkle_loop_last k done todo :
  length todo = (2 ^ k)%nat ->
  list.last (merkle_loop (2 ^ k - 1) (length done) (length done + length todo)
          (done ++ todo ++ replicate (2 ^ k - 1) None))
  = list.last (iter_level k todo).
Proof.
  revert done todo. induction k as [|k IH]; intros done todo Ht.
  - cbn in *. rewrite app_nil_r. destruct todo as [|x [|]]; try discriminate. apply last_snoc.
  - assert (0 < 2 ^ k)%nat by (apply Nat.neq_0_lt_0, Nat.pow_nonzero; lia).
    rewrite Nat.pow_succ_r' in *.
    replace (2 * 2 ^ k - 1)%nat with (2 ^ k + (2 ^ k - 1))%nat by lia.
    rewrite replicate_add.
    pose proof (merkle_loop_level (2 ^ k) done todo [] (replicate (2 ^ k) None) (2 ^ k - 1) Ht
                  (length_replicate _ _)) as Hl.
    cbn [app length] in Hl. rewrite Nat.add_0_r in Hl. rewrite Hl. cbn [iter_level].
    pose proof (length_pair_level _ _ Ht) as Hp.
    rewrite <- (IH (done ++ todo) (pair_level todo) Hp).
    now rewrite <- !app_assoc, !length_app, Hp.
Qed.

(** Padding commutes with pairing. *)
Lemma pair_level_none n : pair_level (replicate (2 * n) None) = replicate n None.
Proof.
  induction n as [|n IH]; [easy|]. replace (2 * S n)%nat with (S (S (2 * n))) by lia.
  cbn -[Nat.mul]. now rewrite IH.
Qed.

Lemma pair_level_pad hs m n :
  (length hs + m = 2 * n)%nat ->
  pair_level (map Some hs ++ replicate m None)
  = map Some (ref_level hs) ++ replicate (n - length (ref_level hs)) None.
Proof.
  revert hs. induction n as [|n IH]; intros hs Hl.
  - destruct hs; [|cbn in Hl; lia]. destruct m; [easy|cbn in Hl; lia].
  - destruct hs as [|a [|b hs]]; cbn [length] in Hl.
    + replace m with (2 * S n)%nat by lia. cbn [map app ref_level length].
      now rewrite pair_level_none, Nat.sub_0_r.
    + replace m with (S (2 * n))%nat by lia. cbn -[Nat.mul].
      now rewrite pair_level_none, Nat.sub_0_r.
    + cbn. f_equal. apply IH. lia.
Qed.

Lemma length_ref_level hs :
  (length hs <= 2 * length (ref_level hs) <= length hs + 1)%nat.
Proof.
  assert (Hall : forall n hs, (length hs <= n)%nat ->
    (length hs <= 2 * length (ref_level hs) <= length hs + 1)%nat).
  { induction n as [|n IH]; intros [|a [|b l]] Hl; cbn in *; try lia.
    specialize (IH l). lia. }
  now apply (Hall (length hs)).
Qed.

Lemma iter_level_root k hs m fuel :
  hs <> [] -> (length hs + m = 2 ^ k)%nat -> (k = 0 \/ 2 ^ (k - 1) < length hs)%nat ->
  (k <= fuel)%nat ->
  list.last (iter_level k (map Some hs ++ replicate m None)) = Some (ref_root fuel hs).
Proof.
  revert hs m fuel. induction k as [|k IH]; intros hs m fuel Hne Hl Hk Hf.
  - cbn in *. destruct hs as [|a [|]]; cbn in Hl; try easy; try lia.
    destruct m; [|lia]. now destruct fuel.
  - destruct Hk as [Hk|Hk]; [lia|]. cbn [iter_level]. replace (S k - 1)%nat with k in Hk by lia.
    rewrite Nat.pow_succ_r' in Hl. pose proof (length_ref_level hs) as Hr.
    assert (1 <= 2 ^ k)%nat by (apply Nat.neq_0_lt_0, Nat.pow_nonzero; lia).
    destruct hs as [|a [|b hs]]; [easy|cbn in Hk; lia|]. destruct fuel as [|fuel]; [lia|].
    rewrite pair_level_pad with (n := (2 ^ k)%nat) by lia.
    rewrite IH with (fuel := fuel); [easy|easy|lia| |lia].
    destruct k as [|k]; [now left|right]. rewrite Nat.pow_succ_r' in *.
    replace (S k - 1)%nat with k by lia. lia.
Qed.

Lemma ref_root_fuel (hs : list Hash) k fuel :
  (k = 0 \/ 2 ^ (k - 1) < length hs <= 2 ^ k)%nat -> (1 <= length hs)%nat ->
  (fuel = length hs) -> (k <= fuel)%nat.
Proof.
  intros [->|[Hk _]] H1 ->; [lia|]. destruct k; [lia|]. replace (S k - 1)%nat with k in Hk by lia.
  pose proof (Nat.pow_gt_lin_r 2 k). lia.
Qed.

(** The array is as large as the number of leaves requires. *)
Lemma nextPowerOfTwo_spec n :
  1 <= n ->
  exists k, nextPowerOfTwo n = 2 ^ Z.of_nat k /\ n <= 2 ^ Z.of_nat k
            /\ (k = 0%nat \/ 2 ^ Z.of_nat (k - 1) < n).
Proof.
  intros Hn. unfold nextPowerOfTwo. pose proof (Z.log2_spec n ltac:(lia)) as Hlog.
  pose proof (Z.log2_nonneg n) as Hnn.
  case_if.
  - exists (Z.to_nat (Z.log2 n)). rewrite Z2Nat.id by lia.
    assert (Hpow : n = 2 ^ Z.log2 n); [|split; [easy|split; [lia|]]].
    { destruct (Z.eq_dec n (2 ^ Z.log2 n)) as [|Hne]; [easy|exfalso].
      assert (Hb : Z.testbit (Z.land n (n - 1)) (Z.log2 n) = false) by now rewrite Hif, Z.bits_0.
      rewrite Z.land_spec, Z.bit_log2 in Hb by lia.
      assert (Hl' : Z.log2 (n - 1) = Z.log2 n) by (apply Z.log2_unique; lia).
      rewrite <- Hl' in Hb at 1. rewrite Z.bit_log2 in Hb; [easy|].
      destruct (Z.eq_dec n 1) as [->|]; [now destruct Hne|lia]. }
    destruct (Z.eq_dec (Z.log2 n) 0) as [->|]; [now left|right].
    rewrite Nat2Z.inj_sub, Z2Nat.id by lia. rewrite Hpow at 2. apply Z.pow_lt_mono_r; lia.
  - exists (Z.to_nat (Z.log2 n + 1)). rewrite Z.shiftl_1_l, Z2Nat.id by lia.
    split; [easy|]. split; [lia|right]. rewrite Nat2Z.inj_sub, Z2Nat.id by lia.
    replace (Z.log2 n + 1 - Z.of_nat 1) with (Z.log2 n) by lia.
    destruct (Z.eq_dec n (2 ^ Z.log2 n)) as [Heq|]; [|lia]. exfalso. apply Hif.
    rewrite Heq. apply Z.bits_inj'. intros i Hi. rewrite Z.land_spec, Z.bits_0.
    rewrite Z.pow2_bits_eqb by lia. destruct (Z.log2 n =? i) eqn:Hli; [bool_to_Z|easy].
    subst i. cbn [andb].
    replace (2 ^ Z.log2 n - 1) with (Z.ones (Z.log2 n)) by (rewrite Z.ones_equiv; lia).
    apply Z.ones_spec_high. lia.
Qed.

Lemma of_nat_pow2 k : Z.of_nat (2 ^ k) = 2 ^ Z.of_nat k.
Proof. now rewrite Nat2Z.inj_pow. Qed.

(** The last cell of the array is the root of the reference definition. *)
Lemma merkle_root_leaves txs (f : nat -> MsgTx -> Hash) :
  txs <> [] ->
  let n := Z.to_nat (nextPowerOfTwo (zlen txs)) in
  merkle_root_of (merkle_loop (n - 1) 0 n
    (imap (fun i tx => Some (f i tx)) txs ++ replicate (n * 2 - 1 - length txs) None))
  = ref_root (length txs) (imap f txs).
Proof.
  intros Hne n. assert (1 <= zlen txs) as H1 by (unfold zlen; destruct txs; [easy|cbn; lia]).
  destruct (nextPowerOfTwo_spec (zlen txs) H1) as (k & Hn & Hle & Hk).
  assert (n = (2 ^ k)%nat) as -> by (unfold n; rewrite Hn, <- of_nat_pow2; apply Nat2Z.id).
  rewrite <- of_nat_pow2 in Hle. unfold zlen in *.
  assert (Hk' : (k = 0 \/ 2 ^ (k - 1) < length txs)%nat).
  { destruct Hk as [|Hk]; [now left|right]. rewrite <- of_nat_pow2 in Hk. lia. }
  set (m := (2 ^ k - length txs)%nat).
  replace (2 ^ k * 2 - 1 - length txs)%nat with (m + (2 ^ k - 1))%nat by lia.
  rewrite replicate_add, app_assoc.
  replace (imap (fun i tx => Some (f i tx)) txs) with (map Some (imap f txs))
    by apply fmap_imap.
  set (todo := map Some (imap f txs) ++ replicate m None).
  assert (Ht : length todo = (2 ^ k)%nat).
  { unfold todo. rewrite length_app, length_map, length_imap, length_replicate. lia. }
  pose proof (merkle_loop_last k [] todo Ht) as Hlast. cbn [length app Nat.add] in Hlast.
  rewrite Ht in Hlast. unfold merkle_root_of. rewrite Hlast. unfold todo.
  rewrite iter_level_root with (fuel := length txs); [easy| | | |].
  - intros Hi. apply (f_equal length) in Hi. rewrite length_imap in Hi. destruct txs; easy.
  - rewrite length_imap. lia.
  - now rewrite length_imap.
  - apply (ref_root_fuel (imap f txs)); rewrite ?length_imap; lia.
Qed.

End Merkle.

(** ** Properties *)

(** C36: the merkle root a block is checked against: for every non-empty list
    of transactions the last cell of the linear array that
    [BuildMerkleTreeStore] fills is the root obtained by hashing the
    transaction hashes pairwise, level by level, the last hash of an odd
    level with itself, until one is left. *)
Theorem BuildMerkleTreeStore_root `{HashFunctions} txs witness :
  txs <> [] ->
  merkle_root_of (BuildMerkleTreeStore txs witness)
  = ref_root (length txs) (imap (leaf witness) txs).
Proof. apply merkle_root_leaves. Qed.

Definition tiny_tx : MsgTx := mkMsgTx 1 [] [] 0.

Lemma BuildMerkleTreeStore_root_witness :
  [tiny_tx; tiny_tx; tiny_tx] <> [] /\
  merkle_root_of (BuildMerkleTreeStore [tiny_tx; tiny_tx; tiny_tx] false)
  = ref_root 3 (imap (leaf false) [tiny_tx; tiny_tx; tiny_tx]).
Proof.
  split; [discriminate|].
  apply (BuildMerkleTreeStore_root [tiny_tx; tiny_tx; tiny_tx] false). discriminate.
Defined.
