(* ===== verification/BlockIndex.v ===== *)
(** * The block index: blockchain/blockindex.go, blockchain/timesorter.go

    A [blockNode] is a block header with its height, the votes it got and a
    pointer to its parent.  All of these are immutable once the node is made,
    so a node is an inductive value that contains its parent.  The validation
    status is the one mutable field: it is kept beside the nodes, in the index,
    under the hash of its block. *)

From stdpp Require Import sorting.
From S2P Require Import Prelude Chainhash Wire Hash WireMsg.

(** ** Status bits *)

Definition statusDataStored : Z := 1.
Definition statusValid : Z := 2.
Definition statusValidateFailed : Z := 4.
Definition statusInvalidAncestor : Z := 8.
Definition statusNone : Z := 0.

Definition HaveData (status : Z) : bool := negb (Z.land status statusDataStored =? 0).
Definition KnownValid (status : Z) : bool := negb (Z.land status statusValid =? 0).
Definition KnownInvalid (status : Z) : bool :=
  negb (Z.land status (Z.lor statusValidateFailed statusInvalidAncestor) =? 0).

(** ** Nodes *)

Record nodeData := mkNodeData {
  nd_hash : Hash;
  nd_height : Z;           (** int32 *)
  nd_version : Z;
  nd_timestamp : Z;        (** int64 *)
  nd_merkleRoot : Hash;
  nd_signature : Hash64;
  nd_publicKey : Hash33;
  nd_scale : Z;
  nd_reserved : Z;
  nd_Votes : Z             (** uint16 *)
}.

(** A node whose parent pointer is nil, and a node with a parent. *)
Inductive blockNode :=
  | RootNode (d : nodeData)
  | ChildNode (d : nodeData) (par : blockNode).

Definition node_data (node : blockNode) : nodeData :=
  match node with RootNode d | ChildNode d _ => d end.
Definition parent (node : blockNode) : option blockNode :=
  match node with RootNode _ => None | ChildNode _ p => Some p end.
Definition make_node (d : nodeData) (par : option blockNode) : blockNode :=
  match par with None => RootNode d | Some p => ChildNode d p end.
Definition hash (node : blockNode) : Hash := nd_hash (node_data node).
Definition height (node : blockNode) : Z := nd_height (node_data node).
Definition timestamp (node : blockNode) : Z := nd_timestamp (node_data node).
Definition scale (node : blockNode) : Z := nd_scale (node_data node).
Definition Votes (node : blockNode) : Z := nd_Votes (node_data node).

Definition newBlockNode `{HashFunctions} (blockHeader : BlockHeader) (par : option blockNode)
    (votes : Z) : blockNode :=
  make_node
    (mkNodeData (BlockHash blockHeader)
       (match par with Some p => i32 (height p + 1) | None => 0 end)
       (bh_Version blockHeader) (bh_Timestamp blockHeader) (bh_MerkleRoot blockHeader)
       (bh_Signature blockHeader) (bh_PublicKey blockHeader) (bh_Scale blockHeader)
       (bh_Reserved blockHeader) votes)
    par.

Definition Header (node : blockNode) : BlockHeader :=
  let d := node_data node in
  let prevHash := match parent node with Some p => hash p | None => zero_hash end in
  mkBlockHeader (nd_version d) prevHash (nd_merkleRoot d) (nd_timestamp d) (nd_signature d)
    (nd_publicKey d) (nd_scale d) (nd_reserved d).

(** The walk along the parents until the height matches. *)
Fixpoint ancestor_walk (height : Z) (node : blockNode) : option blockNode :=
  if nd_height (node_data node) =? height then Some node
  else match node with ChildNode _ p => ancestor_walk height p | RootNode _ => None end.

Definition Ancestor (node : blockNode) (h : Z) : option blockNode :=
  if (h <? 0) || (height node <? h) then None else ancestor_walk h node.

Definition RelativeAncestor (node : blockNode) (distance : Z) : option blockNode :=
  Ancestor node (i32 (height node - distance)).

Definition medianTimeBlocks : nat := 11.

(** The timestamps of the node and its ancestors, at most [n] of them. *)
Fixpoint past_timestamps (n : nat) (node : blockNode) : list Z :=
  match n with
  | O => []
  | S n => timestamp node
           :: match parent node with Some p => past_timestamps n p | None => [] end
  end.

(** [sort.Sort(timeSorter(timestamps))], by a merge sort. *)
Definition sort_times (timestamps : list Z) : list Z := merge_sort Z.le timestamps.

Definition CalcPastMedianTime (node : blockNode) : Z :=
  let timestamps := sort_times (past_timestamps medianTimeBlocks node) in
  nth (length timestamps / 2) timestamps 0.

(** ** The index *)

Record blockIndex := mkBlockIndex {
  index : gmap Hash blockNode;
  status : gmap Hash Z;
  dirty : gset Hash
}.

Definition newBlockIndex : blockIndex := mkBlockIndex ∅ ∅ ∅.

Definition HaveBlock (bi : blockIndex) (h : Hash) : bool := bool_decide (is_Some (index bi !! h)).

Definition LookupNode (bi : blockIndex) (h : Hash) : option blockNode := index bi !! h.

Definition addNode (node : blockNode) (bi : blockIndex) : blockIndex :=
  mkBlockIndex (<[hash node := node]> (index bi)) (status bi) (dirty bi).

(** [newNode.status = st] followed by [AddNode(newNode)]. *)
Definition AddNode (node : blockNode) (st : Z) (bi : blockIndex) : blockIndex :=
  let bi := addNode node bi in
  mkBlockIndex (index bi) (<[hash node := st]> (status bi)) ({[hash node]} ∪ dirty bi).

Definition NodeStatus (bi : blockIndex) (node : blockNode) : Z :=
  default statusNone (status bi !! hash node).

Definition NodeNum (bi : blockIndex) : nat := size (index bi).

Definition SetStatusFlags (node : blockNode) (flags : Z) (bi : blockIndex) : blockIndex :=
  mkBlockIndex (index bi) (<[hash node := Z.lor (NodeStatus bi node) flags]> (status bi))
    ({[hash node]} ∪ dirty bi).

Definition UnsetStatusFlags (node : blockNode) (flags : Z) (bi : blockIndex) : blockIndex :=
  mkBlockIndex (index bi) (<[hash node := Z.ldiff (NodeStatus bi node) flags]> (status bi))
    ({[hash node]} ∪ dirty bi).

(** ** Well-formed nodes: heights count up from a genesis block at 0 *)

Fixpoint chain_ok (node : blockNode) : Prop :=
  match node with
  | RootNode d => nd_height d = 0
  | ChildNode d p => nd_height d = height p + 1 /\ chain_ok p
  end.

(** A node and its ancestors, from the node to the genesis block. *)
Fixpoint chain_of (node : blockNode) : list blockNode :=
  node :: match node with ChildNode _ p => chain_of p | RootNode _ => [] end.

Lemma chain_ok_height node : chain_ok node -> 0 <= height node.
Proof.
  unfold height. induction node as [d|d p IH]; cbn; [lia|].
  intros [Hh Hp]. specialize (IH Hp). unfold height in *. lia.
Qed.

Lemma newBlockNode_ok `{HashFunctions} header par votes :
  match par with Some p => chain_ok p /\ height p < 2 ^ 31 - 1 | None => True end ->
  chain_ok (newBlockNode header par votes).
Proof.
  destruct par as [p|]; [|easy]. intros [Hp Hh]. split; [|easy].
  pose proof (chain_ok_height p Hp). apply i32_small. widths. lia.
Qed.

(** The position in the chain determines the height. *)
Lemma chain_of_height node k n :
  chain_ok node -> chain_of node !! k = Some n -> height n = height node - Z.of_nat k.
Proof.
  revert k. induction node as [d|d p IH]; intros k Hok Hk.
  - destruct k; [|destruct k; discriminate]. cbn in Hk. injection Hk as <-. lia.
  - destruct k; [injection Hk as <-; lia|]. destruct Hok as [Hh Hp].
    cbn in Hk. rewrite (IH k Hp Hk). unfold height in *. cbn. lia.
Qed.

Lemma length_chain_of node :
  chain_ok node -> Z.of_nat (length (chain_of node)) = height node + 1.
Proof.
  unfold height. induction node as [d|d p IH]; cbn; [lia|].
  intros [Hh Hp]. specialize (IH Hp). unfold height in *. lia.
Qed.

Lemma ancestor_walk_chain node h :
  chain_ok node -> 0 <= h <= height node ->
  ancestor_walk h node = chain_of node !! Z.to_nat (height node - h).
Proof.
  induction node as [d|d p IH]; intros Hok Hh.
  - cbn in *. unfold height in *. cbn in *. case_if; [|lia].
    now replace (Z.to_nat _) with 0%nat by lia.
  - destruct Hok as [Hd Hp]. unfold height in *. cbn in *. case_if.
    + now replace (Z.to_nat _) with 0%nat by lia.
    + replace (Z.to_nat (nd_height d - h)) with (S (Z.to_nat (nd_height (node_data p) - h))) by lia.
      cbn. apply IH; [easy|lia].
Qed.

Lemma past_timestamps_chain n node :
  past_timestamps n node = map timestamp (take n (chain_of node)).
Proof.
  revert n. induction node as [d|d p IH]; intros [|n]; try easy.
  - cbn. now destruct n.
  - cbn. f_equal. apply IH.
Qed.

#[export] Instance Zle_trans : Transitive Z.le.
Proof. intros x y z. apply Z.le_trans. Qed.
#[export] Instance Zle_total : Total Z.le.
Proof. intros x y. lia. Qed.

Lemma sort_times_sorted l : StronglySorted Z.le (sort_times l).
Proof. apply StronglySorted_merge_sort; typeclasses eauto. Qed.
Lemma sort_times_perm l : sort_times l ≡ₚ l.
Proof. apply merge_sort_Permutation. Qed.

Definition count (p : Z -> bool) (l : list Z) : nat := length (List.filter p l).

Lemma count_perm p l l' : l ≡ₚ l' -> count p l = count p l'.
Proof.
  unfold count. induction 1 as [|x l l' _ IH|x y l|]; cbn; try easy.
  - destruct (p x); cbn; lia.
  - destruct (p x), (p y); easy.
  - congruence.
Qed.

Lemma count_app p a b : count p (a ++ b) = (count p a + count p b)%nat.
Proof. unfold count. now rewrite filter_app, length_app. Qed.

Lemma count_none p l : Forall (fun x => p x = false) l -> count p l = 0%nat.
Proof. unfold count. induction 1 as [|x l Hx _ IH]; cbn; [easy|]. now rewrite Hx. Qed.

Lemma count_le p l : (count p l <= length l)%nat.
Proof. unfold count. induction l as [|x l IH]; cbn; [lia|]. destruct (p x); cbn; lia. Qed.

(** The elements below and above an element of a sorted list. *)
Lemma sorted_split_counts a x b :
  StronglySorted Z.le (a ++ x :: b) ->
  (count (fun y => (y <? x)%Z) (a ++ x :: b) <= length a)%nat /\
  (count (fun y => (x <? y)%Z) (a ++ x :: b) <= length b)%nat.
Proof.
  intros (H1 & _ & Hs2)%StronglySorted_app. apply StronglySorted_inv in Hs2 as [_ H2].
  rewrite !count_app. split.
  - rewrite (count_none _ (x :: b)).
    + pose proof (count_le (fun y => (y <? x)%Z) a). lia.
    + constructor; [lia|]. eapply List.Forall_impl; [|exact H2]. cbn. lia.
  - rewrite (count_none _ a).
    + change (x :: b) with ([x] ++ b). rewrite count_app.
      rewrite (count_none _ [x]); [|constructor; [lia|constructor]].
      pose proof (count_le (fun y => (x <? y)%Z) b). lia.
    + apply Forall_forall. intros y Hy. rewrite Z.ltb_ge.
      apply H1; [now apply list_elem_of_In|left].
Qed.

Lemma sorted_nth_counts l k :
  StronglySorted Z.le l -> (k < length l)%nat ->
  (count (fun y => (y <? nth k l 0)%Z) l <= k)%nat /\
  (count (fun y => (nth k l 0 <? y)%Z) l <= length l - k - 1)%nat.
Proof.
  intros Hs Hk. destruct (nth_split l 0 Hk) as (a & b & Hl & Ha).
  set (x := nth k l 0) in *. rewrite Hl in Hs |- *. apply sorted_split_counts in Hs as [H1 H2].
  rewrite length_app. cbn [length]. split; lia.
Qed.

(** ** Properties *)

(** looking up an ancestor: for a node whose heights count up from genesis,
    [Ancestor h] is nil exactly when [h] is negative or above the node, and
    otherwise it is the block [height - h] links back, whose height is [h]. *)
Theorem Ancestor_spec node h :
  chain_ok node ->
  if (0 <=? h) && (h <=? height node)
  then exists n, Ancestor node h = Some n
                 /\ chain_of node !! Z.to_nat (height node - h) = Some n /\ height n = h
  else Ancestor node h = None.
Proof.
  intros Hok. unfold Ancestor. destruct (_ && _) eqn:Hr.
  - bool_to_Z. replace ((h <? 0) || (height node <? h)) with false by lia.
    rewrite ancestor_walk_chain by (try easy; lia).
    destruct (chain_of node !! Z.to_nat (height node - h)) as [n|] eqn:Hn.
    + exists n. repeat split; try easy. rewrite (chain_of_height node _ n Hok Hn). lia.
    + apply lookup_ge_None_1 in Hn. pose proof (length_chain_of node Hok). lia.
  - now replace ((h <? 0) || (height node <? h)) with true by lia.
Qed.

(** the median time past: [CalcPastMedianTime] is the timestamp of one of
    the last eleven blocks, at most half of these timestamps are earlier and
    fewer than half are later. *)
Theorem CalcPastMedianTime_median node :
  let window := map timestamp (take medianTimeBlocks (chain_of node)) in
  let median := CalcPastMedianTime node in
  In median window
  /\ (2 * count (fun t => (t <? median)%Z) window <= length window)%nat
  /\ (2 * count (fun t => (median <? t)%Z) window < length window)%nat.
Proof.
  cbv zeta. unfold CalcPastMedianTime. rewrite past_timestamps_chain.
  set (w := map timestamp _). pose proof (sort_times_perm w) as Hp.
  pose proof (sort_times_sorted w) as Hs. set (s := sort_times w) in *.
  assert (Hlen : length s = length w) by now rewrite Hp.
  assert (0 < length s)%nat as Hpos.
  { rewrite Hlen. unfold w. rewrite length_map, length_take. destruct node; cbn; lia. }
  assert (Hk : (length s / 2 < length s)%nat) by (apply Nat.div_lt; lia).
  destruct (sorted_nth_counts s (length s / 2) Hs Hk) as [H1 H2].
  split; [|rewrite <- !(count_perm _ _ _ Hp), <- Hlen; split].
  - apply (Permutation_in _ Hp), nth_In, Hk.
  - pose proof (Nat.div_mod_eq (length s) 2). lia.
  - pose proof (Nat.div_mod_eq (length s) 2).
    pose proof (Nat.mod_upper_bound (length s) 2). lia.
Qed.

(** a node keeps its header: the header rebuilt from the node made for a
    block on top of its parent is the block's header. *)
Theorem Header_newBlockNode `{HashFunctions} header par votes :
  bh_PrevBlock header = match par with Some p => hash p | None => zero_hash end ->
  Header (newBlockNode header par votes) = header.
Proof. destruct header, par; cbn; now intros ->. Qed.

(** A two-block chain for the concrete checks. *)
Definition sample_header : BlockHeader :=
  mkBlockHeader 1 zero_hash zero_hash 1000 (replicate 64 x00) (replicate 33 x00) 1 0.
Definition sample_root : blockNode := newBlockNode sample_header None 1.
Definition sample_child_header : BlockHeader :=
  mkBlockHeader 1 (hash sample_root) zero_hash 1010 (replicate 64 x00) (replicate 33 x00) 1 0.
Definition sample_child : blockNode := newBlockNode sample_child_header (Some sample_root) 1.

Lemma sample_child_ok : chain_ok sample_child.
Proof. apply newBlockNode_ok. split; [reflexivity|]. cbn. lia. Qed.

Lemma Ancestor_spec_witness :
  chain_ok sample_child /\ exists n, Ancestor sample_child 0 = Some n
                 /\ chain_of sample_child !! Z.to_nat (height sample_child - 0) = Some n
                 /\ height n = 0.
Proof.
  split; [exact sample_child_ok|]. exact (Ancestor_spec sample_child 0 sample_child_ok).
Defined.

Lemma Header_newBlockNode_witness :
  bh_PrevBlock sample_child_header = hash sample_root /\
  Header (newBlockNode sample_child_header (Some sample_root) 1) = sample_child_header.
Proof.
  split; [reflexivity|].
  apply (Header_newBlockNode sample_child_header (Some sample_root) 1). reflexivity.
Defined.
