(* ===== verification/Signature.v ===== *)
(** * Keys and signatures: btcec/pubkey.go, btcec/signature.go

    The encodings of public keys and signatures of secp256k1.  The curve
    arithmetic behind verification and signing is behind the class [Curve]. *)

From S2P Require Import Prelude Chainhash Wire WireMsg.

(** ** Curve parameters *)

Definition curveP : Z := 0xFFFFFFFFFFFFFFFFFFFFFFFFFFFFFFFFFFFFFFFFFFFFFFFFFFFFFFFEFFFFFC2F.
Definition curveN : Z := 0xFFFFFFFFFFFFFFFFFFFFFFFFFFFFFFFEBAAEDCE6AF48A03BBFD25E8CD0364141.
Definition curveB : Z := 7.
Definition halfOrder : Z := Z.shiftr curveN 1.
Definition QPlus1Div4 : Z := (curveP + 1) / 4.

Record PubKey := mkPubKey { pk_X : Z; pk_Y : Z }.
Record Signature := mkSignature { sig_R : Z; sig_S : Z }.
#[export] Instance Signature_eq_dec : EqDecision Signature.
Proof. solve_decision. Defined.

(** [ecdsa.Verify] of the Go library on the curve. *)
Class Curve := { ecdsa_Verify : PubKey -> list byte -> Z -> Z -> bool }.

Inductive key_error :=
  | KeyEmpty | KeyMagic | KeyParity | KeySquareRoot | KeyLength | KeyXRange | KeyYRange
  | KeyNotOnCurve.

Inductive sig_error :=
  | SigTooShort | SigNoMagic | SigBadLength | SigNoIntMarker1 | SigBogusRLen | SigRNegative
  | SigRPadded | SigNoIntMarker2 | SigBogusSLen | SigSNegative | SigSPadded | SigFinalLength
  | SigRNotPositive | SigSNotPositive | SigRTooBig | SigSTooBig.

(** ** Byte strings *)

(** [big.Int.Bytes]: big-endian without leading zeros. *)
Definition big_Bytes (v : Z) : list byte :=
  if v =? 0 then [] else reverse (le_bytes (Z.to_nat (Z.log2 v / 8 + 1)) v).

Definition generate32Bytes (i : Z) : list byte :=
  let b := big_Bytes i in
  if (length b <? 32)%nat then replicate (32 - length b) x00 ++ b else b.

Definition paddedAppend (size : nat) (dst src : list byte) : list byte :=
  dst ++ replicate (size - length src) x00 ++ src.

(** [s[i]] and [s[lo:hi]], which panic out of range. *)
Definition at_ {E} (s : list byte) (i : nat) : result E byte :=
  match s !! i with Some b => Ok b | None => Panic end.
Definition slice {E} (s : list byte) (lo hi : nat) : result E (list byte) :=
  if (lo <=? hi)%nat && (hi <=? length s)%nat then Ok (take (hi - lo) (drop lo s)) else Panic.

(** ** Public keys *)

Definition PubKeyBytesLenCompressed : nat := 33.
Definition PubKeyBytesLenUncompressed : nat := 65.
Definition pubkeyCompressed : Z := 0x2.
Definition pubkeyUncompressed : Z := 0x4.
Definition pubkeyHybrid : Z := 0x6.

Definition isOdd (a : Z) : bool := Z.testbit a 0.

(** Modular exponentiation by squaring ([big.Int.Exp] with a modulus). *)
Fixpoint pow_mod (b : Z) (e : positive) (m : Z) : Z :=
  match e with
  | xH => b mod m
  | xO e => let r := pow_mod b e m in (r * r) mod m
  | xI e => let r := pow_mod b e m in ((r * r) mod m * b) mod m
  end.

Definition curve_rhs (x : Z) : Z := (x * x * x + curveB) mod curveP.

Definition decompressPoint (x : Z) (ybit : bool) : result key_error Z :=
  let x3 := curve_rhs x in
  let y := pow_mod x3 (Z.to_pos QPlus1Div4) curveP in
  let y := if negb (eqb ybit (isOdd y)) then curveP - y else y in
  if negb ((y * y) mod curveP =? x3) then Err KeySquareRoot
  else if negb (eqb ybit (isOdd y)) then Err KeyParity
  else Ok y.

Definition IsOnCurve (x y : Z) : bool := (y * y) mod curveP =? curve_rhs x.

Definition IsCompressedPubKey (pubKey : list byte) : bool :=
  (length pubKey =? PubKeyBytesLenCompressed)%nat
  && (Z.ldiff (nth 0 pubKey x00) 1 =? pubkeyCompressed).

Definition ParsePubKey (pubKeyStr : list byte) : result key_error PubKey :=
  match pubKeyStr with
  | [] => Err KeyEmpty
  | b0 :: _ =>
      let ybit := Z.land b0 1 =? 1 in
      let format := Z.ldiff b0 1 in
      let* key :=
        if (length pubKeyStr =? PubKeyBytesLenUncompressed)%nat then
          if negb (format =? pubkeyUncompressed) && negb (format =? pubkeyHybrid) then Err KeyMagic
          else
            let* xb := slice pubKeyStr 1 33 in
            let* yb := slice pubKeyStr 33 (length pubKeyStr) in
            let y := be_value yb in
            if (format =? pubkeyHybrid) && negb (eqb ybit (isOdd y)) then Err KeyParity
            else Ok (mkPubKey (be_value xb) y)
        else if (length pubKeyStr =? PubKeyBytesLenCompressed)%nat then
          if negb (format =? pubkeyCompressed) then Err KeyMagic
          else
            let* xb := slice pubKeyStr 1 33 in
            let* y := decompressPoint (be_value xb) ybit in
            Ok (mkPubKey (be_value xb) y)
        else Err KeyLength in
      if curveP <=? pk_X key then Err KeyXRange
      else if curveP <=? pk_Y key then Err KeyYRange
      else if negb (IsOnCurve (pk_X key) (pk_Y key)) then Err KeyNotOnCurve
      else Ok key
  end.

Definition format_with_parity (format : Z) (y : Z) : byte :=
  byte_of_Z (if isOdd y then Z.lor format 1 else format).

Definition SerializeUncompressed (p : PubKey) : list byte :=
  paddedAppend 32 (paddedAppend 32 [byte_of_Z pubkeyUncompressed] (big_Bytes (pk_X p)))
    (big_Bytes (pk_Y p)).
Definition SerializeCompressed (p : PubKey) : list byte :=
  paddedAppend 32 [format_with_parity pubkeyCompressed (pk_Y p)] (big_Bytes (pk_X p)).
Definition SerializeHybrid (p : PubKey) : list byte :=
  paddedAppend 32
    (paddedAppend 32 [format_with_parity pubkeyHybrid (pk_Y p)] (big_Bytes (pk_X p)))
    (big_Bytes (pk_Y p)).

(** ** Signatures *)

Definition GetSignature {E} (sign : list byte) : result E Signature :=
  let* r := slice sign 0 32 in
  let* s := slice sign 32 64 in
  Ok (mkSignature (be_value r) (be_value s)).

(** The bytes of [sign]: both halves padded to 32 bytes. *)
Definition sign_bytes (sig : Signature) : list byte :=
  generate32Bytes (sig_R sig) ++ generate32Bytes (sig_S sig).

Definition GenSignBytes (sig : Signature) : list byte :=
  big_Bytes (sig_R sig) ++ big_Bytes (sig_S sig).

(** [Signature.Verify]; a nil key is dereferenced. *)
Definition Verify `{Curve} {E} (sig : Signature) (hash : list byte) (pubKey : option PubKey)
  : result E bool :=
  match pubKey with
  | Some key => Ok (ecdsa_Verify key hash (sig_R sig) (sig_S sig))
  | None => Panic
  end.

Definition canonicalizeInt (val : Z) : list byte :=
  let b := big_Bytes val in
  let b := if (length b =? 0)%nat then [x00] else b in
  if negb (Z.land (nth 0 b x00) 0x80 =? 0) then x00 :: b else b.

Definition Serialize (sig : Signature) : list byte :=
  let sigS := if halfOrder <? sig_S sig then curveN - sig_S sig else sig_S sig in
  let rb := canonicalizeInt (sig_R sig) in
  let sb := canonicalizeInt sigS in
  let len := 6 + zlen rb + zlen sb in
  [x30; byte_of_Z (len - 2); x02; byte_of_Z (zlen rb)] ++ rb
  ++ [x02; byte_of_Z (zlen sb)] ++ sb.

Definition minSigLen : Z := 8.

Inductive padding := PadOk | PadNegative | PadExcessive.

Definition canonicalPadding {E} (b : list byte) : result E padding :=
  let* b0 := at_ b 0 in
  if Z.land b0 0x80 =? 0x80 then Ok PadNegative
  else if (1 <? zlen b) && (Z_of_byte b0 =? 0) then
    let* b1 := at_ b 1 in
    if negb (Z.land b1 0x80 =? 0x80) then Ok PadExcessive else Ok PadOk
  else Ok PadOk.

Definition check_padding {E} (der : bool) (neg pad : E) (b : list byte) : result E unit :=
  if der then
    let* p := canonicalPadding b in
    match p with PadOk => Ok tt | PadNegative => Err neg | PadExcessive => Err pad end
  else Ok tt.

Definition parseSig (sigStr : list byte) (der : bool) : result sig_error Signature :=
  if zlen sigStr <? minSigLen then Err SigTooShort
  else
    let* magic := at_ sigStr 0 in
    if negb (Z_of_byte magic =? 0x30) then Err SigNoMagic
    else
      let* siglen := at_ sigStr 1 in
      let total := u8 (siglen + 2) in
      if (zlen sigStr <? total) || (total <? minSigLen) then Err SigBadLength
      else
        let* sigStr := slice sigStr 0 (Z.to_nat total) in
        let* m1 := at_ sigStr 2 in
        if negb (Z_of_byte m1 =? 0x02) then Err SigNoIntMarker1
        else
          let* rl := at_ sigStr 3 in
          let rLen := Z_of_byte rl in
          if (rLen <=? 0) || (zlen sigStr - 4 - 3 <? rLen) then Err SigBogusRLen
          else
            let index := (4 + Z.to_nat rLen)%nat in
            let* rBytes := slice sigStr 4 index in
            let* _ := check_padding der SigRNegative SigRPadded rBytes in
            let* m2 := at_ sigStr index in
            if negb (Z_of_byte m2 =? 0x02) then Err SigNoIntMarker2
            else
              let* sl := at_ sigStr (index + 1) in
              let sLen := Z_of_byte sl in
              let index := (index + 2)%nat in
              if (sLen <=? 0) || (zlen sigStr - Z.of_nat index <? sLen) then Err SigBogusSLen
              else
                let* sBytes := slice sigStr index (index + Z.to_nat sLen) in
                let* _ := check_padding der SigSNegative SigSPadded sBytes in
                let r := be_value rBytes in
                let s := be_value sBytes in
                if negb (index + Z.to_nat sLen =? length sigStr)%nat then Err SigFinalLength
                else if negb (0 <? r) then Err SigRNotPositive
                else if negb (0 <? s) then Err SigSNotPositive
                else if curveN <=? r then Err SigRTooBig
                else if curveN <=? s then Err SigSTooBig
                else Ok (mkSignature r s).

Definition ParseSignature (sigStr : list byte) : result sig_error Signature := parseSig sigStr false.
Definition ParseDERSignature (sigStr : list byte) : result sig_error Signature := parseSig sigStr true.

(** ** Lemmas *)

Lemma be_value_app a b : be_value (a ++ b) = be_value a * 2 ^ (8 * zlen b) + be_value b.
Proof.
  unfold be_value, zlen. rewrite reverse_app, le_value_app, length_reverse. lia.
Qed.

Lemma be_value_range b : 0 <= be_value b < 2 ^ (8 * zlen b).
Proof. unfold be_value, zlen. rewrite <- length_reverse. apply le_value_range. Qed.

Lemma be_value_cons b l : be_value (b :: l) = Z_of_byte b * 256 ^ Z.of_nat (length l) + be_value l.
Proof.
  change (b :: l) with ([b] ++ l). rewrite be_value_app. unfold zlen.
  rewrite Z.pow_mul_r by lia. change (2 ^ 8) with 256. f_equal. f_equal. cbn. lia.
Qed.

Lemma be_value_zeros n b : be_value (replicate n x00 ++ b) = be_value b.
Proof.
  rewrite be_value_app.
  assert (Hz : be_value (replicate n x00) = 0).
  { unfold be_value. rewrite reverse_replicate. induction n as [|n IH]; [easy|]. cbn in *. lia. }
  lia.
Qed.

Lemma be_value_inj a b : length a = length b -> be_value a = be_value b -> a = b.
Proof.
  intros Hl Hv. apply (f_equal (le_bytes (length a))) in Hv. unfold be_value in Hv.
  rewrite <- (length_reverse a) in Hv at 1. rewrite le_bytes_value in Hv.
  rewrite Hl, <- (length_reverse b), le_bytes_value in Hv. now apply (inj reverse).
Qed.

Lemma be_value_big_Bytes v : 0 <= v -> be_value (big_Bytes v) = v.
Proof.
  intros Hv. unfold big_Bytes. case_if; [now subst|].
  unfold be_value. rewrite reverse_involutive, le_value_bytes. apply Z.mod_small.
  pose proof (Z.log2_spec v ltac:(lia)). pose proof (Z.log2_nonneg v).
  assert (Z.succ (Z.log2 v) <= 8 * Z.of_nat (Z.to_nat (Z.log2 v / 8 + 1))) by width_lia.
  split; [lia|]. eapply Z.lt_le_trans; [apply H|]. apply Z.pow_le_mono_r; lia.
Qed.

Lemma length_big_Bytes v n :
  0 <= v < 2 ^ (8 * Z.of_nat n) -> (length (big_Bytes v) <= n)%nat.
Proof.
  intros Hv. unfold big_Bytes. case_if; [cbn; lia|]. rewrite length_reverse, length_le_bytes.
  assert (Z.log2 v < 8 * Z.of_nat n) by (apply Z.log2_lt_pow2; lia).
  pose proof (Z.log2_nonneg v). width_lia.
Qed.

(** Both ways of padding a number to 32 bytes. *)
Lemma pad32_value v :
  0 <= v < 2 ^ 256 ->
  let b := replicate (32 - length (big_Bytes v)) x00 ++ big_Bytes v in
  length b = 32%nat /\ be_value b = v.
Proof.
  intros Hv. cbv zeta. pose proof (length_big_Bytes v 32 Hv).
  rewrite length_app, length_replicate, be_value_zeros, be_value_big_Bytes by lia. lia.
Qed.

Lemma generate32_value v :
  0 <= v < 2 ^ 256 -> length (generate32Bytes v) = 32%nat /\ be_value (generate32Bytes v) = v.
Proof.
  intros Hv. unfold generate32Bytes. pose proof (pad32_value v Hv) as [Hl Hb].
  pose proof (length_big_Bytes v 32 Hv). case_match; [easy|].
  apply Nat.ltb_ge in H0. rewrite be_value_big_Bytes by lia. lia.
Qed.

Lemma slice_mid {E} a b c :
  slice (E := E) (a ++ b ++ c) (length a) (length a + length b) = Ok b.
Proof.
  unfold slice. rewrite !length_app.
  rewrite (proj2 (Nat.leb_le (length a) _)), (proj2 (Nat.leb_le (length a + length b) _)) by lia.
  cbn [andb]. rewrite drop_app_length, Nat.add_comm, Nat.add_sub. now rewrite take_app_length.
Qed.

Lemma slice_at {E} a b c lo hi :
  lo = length a -> hi = (length a + length b)%nat -> slice (E := E) (a ++ b ++ c) lo hi = Ok b.
Proof. intros -> ->. apply slice_mid. Qed.

Lemma at_mid {E} a x c i : i = length a -> at_ (E := E) (a ++ x :: c) i = Ok x.
Proof. intros ->. unfold at_. now rewrite lookup_app_r, Nat.sub_diag by lia. Qed.

Lemma slice_length {E} s lo hi b :
  slice (E := E) s lo hi = Ok b -> length b = (hi - lo)%nat /\ (lo <= hi <= length s)%nat.
Proof.
  unfold slice. destruct (_ && _) eqn:Hr; [|discriminate]. intros [= <-].
  apply andb_true_iff in Hr as [?%Nat.leb_le ?%Nat.leb_le].
  rewrite length_take, length_drop. lia.
Qed.

Lemma big_Bytes_head v :
  0 < v -> exists b rest, big_Bytes v = b :: rest /\ Z_of_byte b <> 0.
Proof.
  intros Hv. destruct (big_Bytes v) as [|b rest] eqn:Hb.
  { pose proof (be_value_big_Bytes v ltac:(lia)) as Hx. rewrite Hb in Hx. cbn in Hx. lia. }
  exists b, rest. split; [easy|]. intros H0.
  pose proof (be_value_big_Bytes v ltac:(lia)) as Hx. rewrite Hb in Hx.
  change (b :: rest) with ([b] ++ rest) in Hx. rewrite be_value_app in Hx.
  assert (Hl : length (big_Bytes v) = S (length rest)) by now rewrite Hb.
  unfold big_Bytes in Hl. destruct (v =? 0) eqn:?; [bool_to_Z; lia|].
  rewrite length_reverse, length_le_bytes in Hl. unfold be_value at 1 in Hx. cbn in Hx.
  rewrite H0 in Hx. pose proof (be_value_range rest) as Hr.
  pose proof (Z.log2_spec v ltac:(lia)) as [Hlow _]. pose proof (Z.log2_nonneg v).
  assert (2 ^ (8 * zlen rest) <= 2 ^ Z.log2 v); [|lia].
  apply Z.pow_le_mono_r; [lia|]. unfold zlen. width_lia.
Qed.

Lemma canonicalizeInt_ok v :
  0 < v < 2 ^ 256 ->
  be_value (canonicalizeInt v) = v
  /\ (1 <= length (canonicalizeInt v) <= 33)%nat
  /\ canonicalPadding (E := sig_error) (canonicalizeInt v) = Ok PadOk.
Proof.
  intros Hv. pose proof (length_big_Bytes v 32 ltac:(cbn; lia)) as Hlen.
  pose proof (be_value_big_Bytes v ltac:(lia)) as Hval.
  destruct (big_Bytes_head v ltac:(lia)) as (b & rest & Hb & Hnz).
  unfold canonicalizeInt. rewrite Hb in *. cbn [length Nat.eqb nth] in *.
  pose proof (Z_of_byte_range b) as Hr. unfold is_u8 in Hr.
  assert (Hbit : Z.land b 0x80 = 0 \/ Z.land b 0x80 = 0x80) by (clear; destruct b; auto).
  case_if.
  - split; [|split; [cbn; lia|]].
    + change (x00 :: b :: rest) with (replicate 1 x00 ++ b :: rest). now rewrite be_value_zeros.
    + unfold canonicalPadding. cbn [at_ lookup list_lookup rbind]. cbn -[Z.land Z.eqb Z.ltb].
      destruct Hbit as [Hbit|Hbit]; [lia|]. rewrite Hbit. cbn.
      now destruct (1 <? _).
  - split; [easy|split; [cbn; lia|]].
    unfold canonicalPadding. cbn -[Z.land Z.eqb Z.ltb].
    rewrite Hif. cbn -[Z.eqb Z.ltb]. replace (Z_of_byte b =? 0) with false by lia.
    now rewrite andb_false_r.
Qed.

Lemma at_ok {E} s i : (i < length s)%nat -> exists b, at_ (E := E) s i = Ok b.
Proof. intros Hi. unfold at_. destruct (lookup_lt_is_Some_2 s i Hi) as [b ->]. eauto. Qed.

Lemma slice_ok {E} s lo hi :
  (lo <= hi <= length s)%nat -> exists b, slice (E := E) s lo hi = Ok b /\ length b = (hi - lo)%nat.
Proof.
  intros Hr. unfold slice. rewrite !(proj2 (Nat.leb_le _ _)) by lia. cbn [andb].
  eexists. split; [easy|]. rewrite length_take, length_drop. lia.
Qed.

Lemma check_padding_no_panic {E} der (e1 e2 : E) b :
  b <> [] -> check_padding der e1 e2 b <> Panic.
Proof.
  intros Hb. destruct b as [|b0 [|b1 b]]; [easy| |]; unfold check_padding, canonicalPadding;
    destruct der; cbn; repeat case_if; easy.
Qed.

(** One step of the parser: an index or a slice that is in range. *)
Ltac in_range :=
  match goal with
  | |- rbind (at_ ?s ?i) _ <> Panic =>
      let b := fresh "b" in let H := fresh "Hat" in
      destruct (at_ok (E := sig_error) s i) as [b H]; [unfold zlen in *; lia|rewrite H; cbn [rbind]]
  | |- rbind (slice ?s ?lo ?hi) _ <> Panic =>
      let b := fresh "sl" in let H := fresh "Hsl" in let Hl := fresh "Hlen" in
      destruct (slice_ok (E := sig_error) s lo hi) as [b [H Hl]];
      [unfold zlen in *; lia|rewrite H; cbn [rbind]]
  end.

Lemma parseSig_safe s der : parseSig s der <> Panic.
Proof.
  unfold parseSig. unfold minSigLen. case_if; [easy|]. in_range. case_if; [easy|]. in_range.
  set (total := u8 _). assert (0 <= total) by apply u8_range.
  destruct (_ || _) eqn:Ht; [easy|]. bool_to_Z. in_range. in_range. case_if; [easy|].
  in_range. destruct (_ || _) eqn:Hr; [easy|]. bool_to_Z. in_range.
  destruct (check_padding der SigRNegative SigRPadded _) eqn:Hp; cbn [rbind]; [|easy|].
  2: { apply check_padding_no_panic in Hp; [easy|]. destruct sl0; cbn in *; [lia|easy]. }
  in_range. case_if; [easy|]. in_range. destruct (_ || _) eqn:Hs; [easy|]. bool_to_Z. in_range.
  destruct (check_padding der SigSNegative SigSPadded _) eqn:Hp'; cbn [rbind]; [|easy|].
  2: { apply check_padding_no_panic in Hp'; [easy|]. destruct sl1; cbn in *; [lia|easy]. }
  repeat case_if; easy.
Qed.

Lemma curveN_256 : curveN < 2 ^ 256. Proof. reflexivity. Qed.

Lemma parseSig_der rb sb r s :
  canonicalPadding (E := sig_error) rb = Ok PadOk -> canonicalPadding (E := sig_error) sb = Ok PadOk ->
  (1 <= length rb <= 33)%nat -> (1 <= length sb <= 33)%nat ->
  be_value rb = r -> be_value sb = s -> 0 < r < curveN -> 0 < s < curveN ->
  parseSig ([x30; byte_of_Z (4 + zlen rb + zlen sb); x02; byte_of_Z (zlen rb)] ++ rb
            ++ [x02; byte_of_Z (zlen sb)] ++ sb) true = Ok (mkSignature r s).
Proof.
  intros Hpr Hps Hlr Hls Hr Hs Hrr Hsr.
  set (str := [x30; _; x02; _] ++ rb ++ _).
  assert (Hlen : zlen str = 6 + zlen rb + zlen sb).
  { unfold str, zlen. rewrite !length_app. cbn [length]. lia. }
  unfold zlen in Hlr, Hls.
  assert (Hbr : forall l : list byte, (length l <= 33)%nat -> Z_of_byte (byte_of_Z (zlen l)) = zlen l).
  { intros l Hl. rewrite Z_of_byte_of_Z. apply u8_small. unfold zlen. widths. lia. }
  assert (Hbt : Z_of_byte (byte_of_Z (4 + zlen rb + zlen sb)) = 4 + zlen rb + zlen sb).
  { rewrite Z_of_byte_of_Z. apply u8_small. unfold zlen. widths. lia. }
  assert (Hsl0 : slice (E := sig_error) str 0 (length str) = Ok str).
  { rewrite <- (app_nil_r str) at 1. apply (slice_at [] str []); cbn; lia. }
  assert (Hslr : slice (E := sig_error) str 4 (4 + length rb) = Ok rb).
  { apply (slice_at [x30; _; x02; _] rb); cbn; lia. }
  assert (Hsls : slice (E := sig_error) str (4 + length rb + 2) (4 + length rb + 2 + length sb) = Ok sb).
  { rewrite <- (app_nil_r str). unfold str. rewrite !app_assoc, <- (app_assoc _ sb []).
    apply slice_at; rewrite !length_app; cbn; lia. }
  assert (Hm2 : at_ (E := sig_error) str (4 + length rb) = Ok x02).
  { unfold str. rewrite app_assoc. apply at_mid. rewrite length_app. cbn. lia. }
  assert (Hl2 : at_ (E := sig_error) str (4 + length rb + 1) = Ok (byte_of_Z (zlen sb))).
  { unfold str. change ([x02; byte_of_Z (zlen sb)] ++ sb) with ([x02] ++ byte_of_Z (zlen sb) :: sb).
    rewrite !app_assoc. apply at_mid. rewrite !length_app. cbn. lia. }
  unfold parseSig, minSigLen. case_if; [unfold zlen in *; lia|].
  change (at_ str 0) with (Ok (E := sig_error) x30).
  change (at_ str 1) with (Ok (E := sig_error) (byte_of_Z (4 + zlen rb + zlen sb))).
  cbn [rbind]. change (Z_of_byte x30 =? 0x30) with true. cbn [negb].
  rewrite Hbt. rewrite u8_small by (unfold zlen; widths; lia).
  replace (4 + zlen rb + zlen sb + 2) with (zlen str) by lia.
  destruct (_ || _) eqn:?; [unfold zlen in *; lia|].
  unfold zlen at 1. rewrite Nat2Z.id, Hsl0. cbn [rbind].
  change (at_ str 2) with (Ok (E := sig_error) x02).
  change (at_ str 3) with (Ok (E := sig_error) (byte_of_Z (zlen rb))). cbn [rbind].
  change (Z_of_byte x02 =? 0x02) with true. cbn [negb]. rewrite (Hbr rb) by lia.
  destruct (_ || _) eqn:?; [unfold zlen in *; lia|].
  replace (Z.to_nat (zlen rb)) with (length rb) by (unfold zlen; lia). rewrite Hslr. cbn [rbind].
  unfold check_padding. rewrite Hpr. cbn [rbind]. rewrite Hm2. cbn [rbind].
  change (Z_of_byte x02 =? 0x02) with true. cbn [negb]. rewrite Hl2. cbn [rbind].
  rewrite (Hbr sb) by lia. destruct (_ || _) eqn:?; [unfold zlen in *; lia|].
  replace (Z.to_nat (zlen sb)) with (length sb) by (unfold zlen; lia). rewrite Hsls. cbn [rbind].
  rewrite Hps. cbn [rbind]. rewrite Hr, Hs.
  replace (4 + length rb + 2 + length sb =? length str)%nat with true
    by (symmetry; apply Nat.eqb_eq; unfold zlen in Hlen; lia).
  cbn [negb]. rewrite !Nat2Z.inj_add, Hlen. clearbody str. unfold zlen in *.
  repeat match goal with
         | |- context [if (?a || ?b)%bool then _ else _] =>
             replace (a || b)%bool with false by
               (symmetry; apply orb_false_iff; split; [apply Z.leb_gt|apply Z.ltb_ge]; lia)
         | |- context [if ?b then _ else _] => destruct b eqn:?; [lia|]
         end.
  easy.
Qed.

Lemma lowS_range s : 0 < s < curveN -> 0 < (if halfOrder <? s then curveN - s else s) < curveN.
Proof. intros. case_if; lia. Qed.

Lemma padded_eq v b : length b = 32%nat -> be_value b = v ->
  replicate (32 - length (big_Bytes v)) x00 ++ big_Bytes v = b.
Proof.
  intros Hl Hv. pose proof (be_value_range b) as Hr. unfold zlen in Hr. rewrite Hl in Hr.
  rewrite Hv in Hr. destruct (pad32_value v) as [Hpl Hpv]; [exact Hr|].
  apply be_value_inj; congruence.
Qed.

Lemma parity_byte (b : byte) (y : Z) :
  Z.ldiff b 1 = pubkeyCompressed -> eqb (Z.land b 1 =? 1) (isOdd y) = true ->
  format_with_parity pubkeyCompressed y = b.
Proof.
  intros Hb Hp%eqb_prop. unfold format_with_parity. rewrite <- Hp.
  apply Z_of_byte_inj. destruct b; try discriminate Hb; reflexivity.
Qed.

Lemma decompressPoint_parity x ybit y :
  decompressPoint x ybit = Ok y -> eqb ybit (isOdd y) = true.
Proof.
  unfold decompressPoint. set (w := pow_mod _ _ _).
  set (y' := if negb (eqb ybit (isOdd w)) then curveP - w else w).
  clearbody y'. case_if; [discriminate|]. case_if; [discriminate|]. now intros [= <-].
Qed.

(** What [ParsePubKey] reads, before the checks on the coordinates. *)
Lemma ParsePubKey_inv s k :
  ParsePubKey s = Ok k ->
  pk_X k < curveP /\ pk_Y k < curveP /\ IsOnCurve (pk_X k) (pk_Y k) = true /\
  ((length s = 33%nat /\ exists b xb, s = b :: xb /\ length xb = 32%nat /\ pk_X k = be_value xb
      /\ Z.ldiff b 1 = pubkeyCompressed /\ eqb (Z.land b 1 =? 1) (isOdd (pk_Y k)) = true)
   \/ (length s = 65%nat /\ exists b xb yb, s = b :: xb ++ yb /\ length xb = 32%nat
      /\ length yb = 32%nat /\ pk_X k = be_value xb /\ pk_Y k = be_value yb)).
Proof.
  destruct s as [|b0 s]; [discriminate|]. intros Hp. unfold ParsePubKey in Hp.
  match type of Hp with rbind ?c _ = _ => destruct c as [key| |] eqn:Hkey end;
    try discriminate. cbn [rbind] in Hp.
  destruct (curveP <=? pk_X key) eqn:?; [discriminate|].
  destruct (curveP <=? pk_Y key) eqn:?; [discriminate|].
  destruct (IsOnCurve _ _) eqn:?; [|discriminate]. injection Hp as ->. bool_to_Z.
  repeat (split; [easy|]).
  destruct (length (b0 :: s) =? PubKeyBytesLenUncompressed)%nat eqn:H65.
  - right. apply Nat.eqb_eq in H65. unfold PubKeyBytesLenUncompressed in H65. split; [easy|].
    destruct (_ && _) in Hkey; [discriminate|].
    exists b0, (take 32 s), (drop 32 s). rewrite take_drop, length_take, length_drop.
    cbn in H65. assert (length s = 64%nat) as Hls by lia.
    unfold slice in Hkey. cbn [length] in Hkey. rewrite Hls in Hkey. cbn [Nat.leb andb rbind] in Hkey.
    destruct (_ && _) in Hkey; [discriminate|]. injection Hkey as <-.
    cbn [pk_X pk_Y drop]. repeat (split; [easy || lia|]).
    change (drop 33 (b0 :: s)) with (drop 32 s). rewrite take_ge by (rewrite length_drop; lia).
    easy.
  - destruct (length (b0 :: s) =? PubKeyBytesLenCompressed)%nat eqn:H33; [|discriminate].
    left. apply Nat.eqb_eq in H33. unfold PubKeyBytesLenCompressed in H33. split; [easy|].
    destruct (negb (_ =? pubkeyCompressed)) eqn:Hf; [discriminate|]. bool_to_Z.
    assert (length s = 32%nat) as Hls by (cbn in H33; lia).
    assert (Hsl : slice (E := key_error) (b0 :: s) 1 33 = Ok s).
    { rewrite <- (app_nil_r s) at 1. apply (slice_at [b0] s []); cbn; lia. }
    rewrite Hsl in Hkey. cbn [rbind] in Hkey.
    destruct (decompressPoint _ _) as [y| |] eqn:Hy; [|discriminate|discriminate].
    injection Hkey as <-. exists b0, s. cbn [pk_X pk_Y].
    eauto 8 using decompressPoint_parity.
Qed.

Lemma ParsePubKey_no_panic s : ParsePubKey s <> Panic.
Proof.
  unfold ParsePubKey. destruct s as [|b s]; [easy|].
  match goal with |- rbind ?c _ <> Panic => assert (Hc : c <> Panic) end.
  { destruct (length (b :: s) =? PubKeyBytesLenUncompressed)%nat eqn:H65.
    - apply Nat.eqb_eq in H65. unfold PubKeyBytesLenUncompressed in H65. rewrite H65.
      destruct (_ && _); [easy|].
      destruct (slice_ok (E := key_error) (b :: s) 1 33) as (x & -> & _); [lia|]. cbn [rbind].
      destruct (slice_ok (E := key_error) (b :: s) 33 65) as (y & -> & _); [lia|]. cbn [rbind].
      now destruct (_ && _).
    - destruct (length (b :: s) =? PubKeyBytesLenCompressed)%nat eqn:H33; [|easy].
      apply Nat.eqb_eq in H33. unfold PubKeyBytesLenCompressed in H33.
      destruct (negb _); [easy|].
      destruct (slice_ok (E := key_error) (b :: s) 1 33) as (x & -> & _); [lia|]. cbn [rbind].
      unfold decompressPoint. repeat destruct (negb _); easy. }
  match goal with |- rbind ?c _ <> Panic => destruct c; cbn [rbind]; [|easy|easy] end.
  repeat destruct (_ <=? _); try easy. now destruct (negb _).
Qed.

(** A key on the curve with a short second coordinate. *)
Definition sample_pubkey : PubKey :=
  mkPubKey 0x1fe1e5ef3fceb5c135ab7741333ce5a6e80d68167653f6b2b24bcbcfaaaff507 1.

(** A curve on which every signature verifies, for concrete checks. *)
Definition accepting_curve : Curve := {| ecdsa_Verify := fun _ _ _ _ => true |}.

(** The low-S form of a signature is what the DER bytes are read back to. *)
Lemma DER_roundtrip sig :
  0 < sig_R sig < curveN -> 0 < sig_S sig < curveN ->
  ParseDERSignature (Serialize sig)
  = Ok (mkSignature (sig_R sig)
          (if halfOrder <? sig_S sig then curveN - sig_S sig else sig_S sig)).
Proof.
  intros Hr Hs%lowS_range. pose proof curveN_256.
  destruct (canonicalizeInt_ok (sig_R sig) ltac:(lia)) as (? & ? & ?).
  unfold ParseDERSignature, Serialize. set (s := if halfOrder <? sig_S sig then curveN - sig_S sig else sig_S sig) in *.
  destruct (canonicalizeInt_ok s ltac:(lia)) as (? & ? & ?).
  replace (6 + zlen _ + zlen _ - 2)
    with (4 + zlen (canonicalizeInt (sig_R sig)) + zlen (canonicalizeInt s)) by lia.
  now apply parseSig_der.
Qed.

(** ** Properties *)

(** DER round trip: a signature with both numbers in the range of the curve
    order parses, from the bytes [Serialize] writes, to itself with [S] replaced
    by the smaller of [S] and [N - S]. *)
Theorem ParseDERSignature_Serialize sig :
  0 < sig_R sig < curveN -> 0 < sig_S sig < curveN ->
  ParseDERSignature (Serialize sig)
  = Ok (mkSignature (sig_R sig)
          (if halfOrder <? sig_S sig then curveN - sig_S sig else sig_S sig)).
Proof. apply DER_roundtrip. Qed.

Lemma ParseDERSignature_Serialize_witness :
  ParseDERSignature (Serialize (mkSignature 200 (curveN - 5))) = Ok (mkSignature 200 5).
Proof.
  exact (ParseDERSignature_Serialize (mkSignature 200 (curveN - 5))
           (conj eq_refl eq_refl) (conj eq_refl eq_refl)).
Defined.

(** signature parsing is memory safe: no index or slice of [parseSig] is
    out of range, whatever bytes a peer sends. *)
Theorem parseSig_no_panic s der : parseSig s der <> Panic.
Proof. apply parseSig_safe. Qed.

(** the 64-byte signatures of headers and votes: splitting the bytes that
    signing produces gives back the two numbers, and they always fill 64 bytes. *)
Theorem GetSignature_sign_bytes {E} sig :
  0 <= sig_R sig < 2 ^ 256 -> 0 <= sig_S sig < 2 ^ 256 ->
  length (sign_bytes sig) = Hash64Size /\ GetSignature (E := E) (sign_bytes sig) = Ok sig.
Proof.
  intros [Hlr Hvr]%generate32_value [Hls Hvs]%generate32_value. unfold sign_bytes, GetSignature.
  rewrite length_app, Hlr, Hls. split; [easy|].
  rewrite <- (app_nil_r (generate32Bytes (sig_S sig))).
  pose proof (slice_at (E := E) [] (generate32Bytes (sig_R sig)) (generate32Bytes (sig_S sig) ++ [])
                0 32 eq_refl ltac:(cbn; lia)) as Hs0.
  cbn [app] in Hs0. rewrite Hs0. cbn [rbind].
  rewrite (slice_at (generate32Bytes (sig_R sig))) by lia. cbn [rbind].
  rewrite Hvr, Hvs. now destruct sig.
Qed.

Lemma GetSignature_sign_bytes_witness :
  length (sign_bytes (mkSignature 1 258)) = Hash64Size /\
  GetSignature (E := unit) (sign_bytes (mkSignature 1 258)) = Ok (mkSignature 1 258).
Proof. apply (GetSignature_sign_bytes (mkSignature 1 258)); split; reflexivity || discriminate. Defined.

(** what a parsed public key is: both coordinates are below the field prime
    and satisfy the curve equation; a 33-byte encoding is the one
    [SerializeCompressed] writes (so a compressed key has one encoding), and a
    65-byte one agrees with [SerializeUncompressed] after its first byte. *)
Theorem ParsePubKey_sound s k :
  ParsePubKey s = Ok k ->
  0 <= pk_X k < curveP /\ pk_Y k < curveP /\ IsOnCurve (pk_X k) (pk_Y k) = true /\
  (s = SerializeCompressed k \/
   exists b, s = b :: drop 1 (SerializeUncompressed k)).
Proof.
  intros (HX & HY & Hon & Hs)%ParsePubKey_inv.
  assert (Hnn : 0 <= pk_X k).
  { destruct Hs as [(_ & b & xb & _ & _ & -> & _)|(_ & b & xb & yb & _ & _ & _ & -> & _)];
      apply be_value_range. }
  repeat (split; [easy|]).
  destruct Hs as [(_ & b & xb & -> & Hl & Hx & Hf & Hpar)
                 |(_ & b & xb & yb & -> & Hlx & Hly & Hx & Hy)].
  - left. unfold SerializeCompressed, paddedAppend. rewrite (parity_byte b) by easy.
    cbn [app]. f_equal. symmetry. apply padded_eq; easy.
  - right. exists b. unfold SerializeUncompressed, paddedAppend. cbn [app drop].
    rewrite drop_0. f_equal. symmetry. f_equal; apply padded_eq; easy.
Qed.

Definition curveGx : Z := 0x79BE667EF9DCBBAC55A06295CE870B07029BFCDB2DCE28D959F2815B16F81798.
Definition curveGy : Z := 0x483ADA7726A3C4655DA4FBFC0E1108A8FD17B448A68554199C47D08FFB10D4B8.

Lemma ParsePubKey_sound_witness :
  let k := mkPubKey curveGx curveGy in
  ParsePubKey (SerializeUncompressed k) = Ok k /\
  0 <= pk_X k < curveP /\ pk_Y k < curveP /\ IsOnCurve (pk_X k) (pk_Y k) = true /\
  (SerializeUncompressed k = SerializeCompressed k \/
   exists b, SerializeUncompressed k = b :: drop 1 (SerializeUncompressed k)).
Proof.
  cbv zeta. assert (Hp : ParsePubKey (SerializeUncompressed (mkPubKey curveGx curveGy))
                         = Ok (mkPubKey curveGx curveGy)) by (vm_compute; reflexivity).
  split; [exact Hp|]. exact (ParsePubKey_sound _ _ Hp).
Defined.
