(* ===== verification/Field.v ===== *)
(** * btcec/field.go: arithmetic modulo the prime of secp256k1

    A field value is ten 32-bit words in base 2^26.  Additions do not carry: a
    word may exceed its 26 bits, and the comments of the callers keep track of
    by how much (the magnitude).  Every operation is modelled on words with the
    wrap-around of uint32 and uint64 written out; the theorems say for which
    magnitudes nothing wraps and that the result is right modulo the prime. *)
From S2P Require Import Prelude Chainhash Signature.
Import ListNotations.

(** ** Unsigned arithmetic of Go

    [+], [-], [*] and [<<] wrap; [>>], [.&], [.|] and [.^] cannot leave the type. *)
Declare Scope u32_scope.
Delimit Scope u32_scope with u32.
Declare Scope u64_scope.
Delimit Scope u64_scope with u64.
Notation "a + b" := (u32 (Z.add a%u32 b%u32)) : u32_scope.
Notation "a - b" := (u32 (Z.sub a%u32 b%u32)) : u32_scope.
Notation "a * b" := (u32 (Z.mul a%u32 b%u32)) : u32_scope.
Notation "a << b" := (u32 (Z.shiftl a%u32 b%u32)) (at level 40, left associativity) : u32_scope.
Notation "a >> b" := (Z.shiftr a%u32 b%u32) (at level 40, left associativity) : u32_scope.
Notation "a .& b" := (Z.land a%u32 b%u32) (at level 40, left associativity) : u32_scope.
Notation "a .| b" := (Z.lor a%u32 b%u32) (at level 50, left associativity) : u32_scope.
Notation "a .^ b" := (Z.lxor a%u32 b%u32) (at level 50, left associativity) : u32_scope.
Notation "a + b" := (u64 (Z.add a%u64 b%u64)) : u64_scope.
Notation "a * b" := (u64 (Z.mul a%u64 b%u64)) : u64_scope.
Notation "a >> b" := (Z.shiftr a%u64 b%u64) (at level 40, left associativity) : u64_scope.
Notation "a .& b" := (Z.land a%u64 b%u64) (at level 40, left associativity) : u64_scope.

Module Field.

Definition twoBitsMask : Z := 0x3.
Definition fourBitsMask : Z := 0xf.
Definition sixBitsMask : Z := 0x3f.
Definition eightBitsMask : Z := 0xff.
Definition fieldBase : Z := 26.
Definition fieldBaseMask : Z := Z.shiftl 1 fieldBase - 1.
Definition fieldMSBBits : Z := 256 - fieldBase * 9.
Definition fieldMSBMask : Z := Z.shiftl 1 fieldMSBBits - 1.
Definition fieldPrimeWordZero : Z := 0x3fffc2f.
Definition fieldPrimeWordOne : Z := 0x3ffffbf.

Record fieldVal := mkField {
  n0 : Z; n1 : Z; n2 : Z; n3 : Z; n4 : Z; n5 : Z; n6 : Z; n7 : Z; n8 : Z; n9 : Z }.

Definition Zero : fieldVal := mkField 0 0 0 0 0 0 0 0 0 0.
Definition SetInt (ui : Z) : fieldVal := mkField (u32 ui) 0 0 0 0 0 0 0 0 0.
Definition fieldOne : fieldVal := SetInt 1.

(** ** Bytes *)

Local Notation "b # i" := (Z_of_byte (nth i b x00)) (at level 25, left associativity).

Definition SetBytes (b : list byte) : fieldVal :=
  mkField
    ((b # 31) .| (b # 30) << 8 .| (b # 29) << 16 .| ((b # 28) .& twoBitsMask) << 24)%u32
    ((b # 28) >> 2 .| (b # 27) << 6 .| (b # 26) << 14
    .| ((b # 25) .& fourBitsMask) << 22)%u32
    ((b # 25) >> 4 .| (b # 24) << 4 .| (b # 23) << 12
    .| ((b # 22) .& sixBitsMask) << 20)%u32
    ((b # 22) >> 6 .| (b # 21) << 2 .| (b # 20) << 10 .| (b # 19) << 18)%u32
    ((b # 18) .| (b # 17) << 8 .| (b # 16) << 16 .| ((b # 15) .& twoBitsMask) << 24)%u32
    ((b # 15) >> 2 .| (b # 14) << 6 .| (b # 13) << 14
    .| ((b # 12) .& fourBitsMask) << 22)%u32
    ((b # 12) >> 4 .| (b # 11) << 4 .| (b # 10) << 12
    .| ((b # 9) .& sixBitsMask) << 20)%u32
    ((b # 9) >> 6 .| (b # 8) << 2 .| (b # 7) << 10 .| (b # 6) << 18)%u32
    ((b # 5) .| (b # 4) << 8 .| (b # 3) << 16 .| ((b # 2) .& twoBitsMask) << 24)%u32
    ((b # 2) >> 2 .| (b # 1) << 6 .| (b # 0) << 14)%u32.

(** [PutBytes] fills an array it is given; [Bytes] allocates it. *)
Definition PutBytes (f : fieldVal) : list byte :=
  map byte_of_Z [
    ((n9 f >> 14) .& eightBitsMask)%u32;
    ((n9 f >> 6) .& eightBitsMask)%u32;
    ((n8 f >> 24) .& twoBitsMask .| (n9 f .& sixBitsMask) << 2)%u32;
    ((n8 f >> 16) .& eightBitsMask)%u32;
    ((n8 f >> 8) .& eightBitsMask)%u32;
    (n8 f .& eightBitsMask)%u32;
    ((n7 f >> 18) .& eightBitsMask)%u32;
    ((n7 f >> 10) .& eightBitsMask)%u32;
    ((n7 f >> 2) .& eightBitsMask)%u32;
    ((n6 f >> 20) .& sixBitsMask .| (n7 f .& twoBitsMask) << 6)%u32;
    ((n6 f >> 12) .& eightBitsMask)%u32;
    ((n6 f >> 4) .& eightBitsMask)%u32;
    ((n5 f >> 22) .& fourBitsMask .| (n6 f .& fourBitsMask) << 4)%u32;
    ((n5 f >> 14) .& eightBitsMask)%u32;
    ((n5 f >> 6) .& eightBitsMask)%u32;
    ((n4 f >> 24) .& twoBitsMask .| (n5 f .& sixBitsMask) << 2)%u32;
    ((n4 f >> 16) .& eightBitsMask)%u32;
    ((n4 f >> 8) .& eightBitsMask)%u32;
    (n4 f .& eightBitsMask)%u32;
    ((n3 f >> 18) .& eightBitsMask)%u32;
    ((n3 f >> 10) .& eightBitsMask)%u32;
    ((n3 f >> 2) .& eightBitsMask)%u32;
    ((n2 f >> 20) .& sixBitsMask .| (n3 f .& twoBitsMask) << 6)%u32;
    ((n2 f >> 12) .& eightBitsMask)%u32;
    ((n2 f >> 4) .& eightBitsMask)%u32;
    ((n1 f >> 22) .& fourBitsMask .| (n2 f .& fourBitsMask) << 4)%u32;
    ((n1 f >> 14) .& eightBitsMask)%u32;
    ((n1 f >> 6) .& eightBitsMask)%u32;
    ((n0 f >> 24) .& twoBitsMask .| (n1 f .& sixBitsMask) << 2)%u32;
    ((n0 f >> 16) .& eightBitsMask)%u32;
    ((n0 f >> 8) .& eightBitsMask)%u32;
    (n0 f .& eightBitsMask)%u32
  ].

(** The slice is right-aligned in an array of 32 bytes.  An index that is
    computed negative, as for every slice of more than 32 bytes, panics. *)
Fixpoint place (len i : Z) (b b32 : list byte) : result hash_error (list byte) :=
  match b with
  | [] => Ok b32
  | x :: b' =>
      if i <? 32 then
        let j := i + (32 - len) in
        if (0 <=? j) && (j <? 32) then place len (i + 1) b' (<[Z.to_nat j := x]> b32) else Panic
      else place len (i + 1) b' b32
  end.

Definition SetByteSlice (b : list byte) : result hash_error fieldVal :=
  let* b32 := place (Z.of_nat (length b)) 0 b (replicate 32 x00) in Ok (SetBytes b32).

(** [SetHex] is only used for constants.  The code drops the error of an ill-formed
    string; the model returns it. *)
Definition SetHex (hexString : list byte) : result hash_error fieldVal :=
  let hexString := if Nat.odd (length hexString) then x30 :: hexString else hexString in
  let* bytes := hex_decode hexString in SetByteSlice bytes.

(** ** Normalization *)

(** Carry from word to word up to word 9; [m] is what overflows 256 bits, times
    the words of 2^256 - p. *)
Definition carry_words (m t0 t1 t2 t3 t4 t5 t6 t7 t8 t9 : Z) : fieldVal :=
  let t0 := (t0 + m * 977)%u32 in
  let t1 := ((t0 >> fieldBase) + t1 + (m << 6))%u32 in
  let t0 := (t0 .& fieldBaseMask)%u32 in
  let t2 := ((t1 >> fieldBase) + t2)%u32 in
  let t1 := (t1 .& fieldBaseMask)%u32 in
  let t3 := ((t2 >> fieldBase) + t3)%u32 in
  let t2 := (t2 .& fieldBaseMask)%u32 in
  let t4 := ((t3 >> fieldBase) + t4)%u32 in
  let t3 := (t3 .& fieldBaseMask)%u32 in
  let t5 := ((t4 >> fieldBase) + t5)%u32 in
  let t4 := (t4 .& fieldBaseMask)%u32 in
  let t6 := ((t5 >> fieldBase) + t6)%u32 in
  let t5 := (t5 .& fieldBaseMask)%u32 in
  let t7 := ((t6 >> fieldBase) + t7)%u32 in
  let t6 := (t6 .& fieldBaseMask)%u32 in
  let t8 := ((t7 >> fieldBase) + t8)%u32 in
  let t7 := (t7 .& fieldBaseMask)%u32 in
  let t9 := ((t8 >> fieldBase) + t9)%u32 in
  let t8 := (t8 .& fieldBaseMask)%u32 in
  mkField t0 t1 t2 t3 t4 t5 t6 t7 t8 t9.

(** Whether the carried value is at least the prime: the constant-time
    computation of [m] before the final reduction. *)
Definition final_carry (t : fieldVal) : Z :=
  let m := 1 in
  let m := if n9 t =? fieldMSBMask then Z.land m 1 else Z.land m 0 in
  let m := if (n2 t .& n3 t .& n4 t .& n5 t .& n6 t .& n7 t .& n8 t)%u32 =? fieldBaseMask
           then Z.land m 1 else Z.land m 0 in
  let m := if fieldBaseMask <? ((n0 t + 977) >> fieldBase + n1 t + 64)%u32
           then Z.land m 1 else Z.land m 0 in
  if negb ((n9 t >> fieldMSBBits)%u32 =? 0) then Z.lor m 1 else Z.lor m 0.

Definition Normalize (f : fieldVal) : fieldVal :=
  let t9 := n9 f in
  let m := (t9 >> fieldMSBBits)%u32 in
  let t9 := (t9 .& fieldMSBMask)%u32 in
  let t := carry_words m (n0 f) (n1 f) (n2 f) (n3 f) (n4 f) (n5 f) (n6 f) (n7 f) (n8 f) t9 in
  let m := final_carry t in
  let t := carry_words m (n0 t) (n1 t) (n2 t) (n3 t) (n4 t) (n5 t) (n6 t) (n7 t) (n8 t) (n9 t) in
  mkField (n0 t) (n1 t) (n2 t) (n3 t) (n4 t) (n5 t) (n6 t) (n7 t) (n8 t)
    (n9 t .& fieldMSBMask)%u32.

(** ** Comparison *)

Definition IsZero (f : fieldVal) : bool :=
  (n0 f .| n1 f .| n2 f .| n3 f .| n4 f .| n5 f .| n6 f .| n7 f .| n8 f .| n9 f)%u32 =? 0.

Definition IsOdd (f : fieldVal) : bool := (n0 f .& 1)%u32 =? 1.

Definition Equals (f val : fieldVal) : bool :=
  ((n0 f .^ n0 val) .| (n1 f .^ n1 val) .| (n2 f .^ n2 val) .| (n3 f .^ n3 val)
   .| (n4 f .^ n4 val) .| (n5 f .^ n5 val) .| (n6 f .^ n6 val) .| (n7 f .^ n7 val)
   .| (n8 f .^ n8 val) .| (n9 f .^ n9 val))%u32 =? 0.

(** ** Additive operations *)

Definition NegateVal (val : fieldVal) (magnitude : Z) : fieldVal :=
  mkField ((magnitude + 1) * fieldPrimeWordZero - n0 val)%u32
    ((magnitude + 1) * fieldPrimeWordOne - n1 val)%u32
    ((magnitude + 1) * fieldBaseMask - n2 val)%u32
    ((magnitude + 1) * fieldBaseMask - n3 val)%u32
    ((magnitude + 1) * fieldBaseMask - n4 val)%u32
    ((magnitude + 1) * fieldBaseMask - n5 val)%u32
    ((magnitude + 1) * fieldBaseMask - n6 val)%u32
    ((magnitude + 1) * fieldBaseMask - n7 val)%u32
    ((magnitude + 1) * fieldBaseMask - n8 val)%u32
    ((magnitude + 1) * fieldMSBMask - n9 val)%u32.
Definition Negate (f : fieldVal) (magnitude : Z) : fieldVal := NegateVal f magnitude.

Definition AddInt (f : fieldVal) (ui : Z) : fieldVal :=
  mkField (n0 f + u32 ui)%u32 (n1 f) (n2 f) (n3 f) (n4 f) (n5 f) (n6 f) (n7 f) (n8 f) (n9 f).

Definition Add2 (val val2 : fieldVal) : fieldVal :=
  mkField (n0 val + n0 val2)%u32 (n1 val + n1 val2)%u32 (n2 val + n2 val2)%u32
    (n3 val + n3 val2)%u32 (n4 val + n4 val2)%u32 (n5 val + n5 val2)%u32
    (n6 val + n6 val2)%u32 (n7 val + n7 val2)%u32 (n8 val + n8 val2)%u32
    (n9 val + n9 val2)%u32.
Definition Add (f val : fieldVal) : fieldVal := Add2 f val.

Definition MulInt (f : fieldVal) (val : Z) : fieldVal :=
  let ui := u32 val in
  mkField (n0 f * ui)%u32 (n1 f * ui)%u32 (n2 f * ui)%u32 (n3 f * ui)%u32 (n4 f * ui)%u32
    (n5 f * ui)%u32 (n6 f * ui)%u32 (n7 f * ui)%u32 (n8 f * ui)%u32 (n9 f * ui)%u32.

(** ** Multiplication *)

(** The last part of [Mul2], which [SquareVal] repeats: fold the words [t10 .. t19] back
    with the special form of the prime, then the overflow of word 9. *)
Definition reduce_terms (t0 t1 t2 t3 t4 t5 t6 t7 t8 t9
    t10 t11 t12 t13 t14 t15 t16 t17 t18 t19 : Z) : fieldVal :=
  let m := (t0 + t10 * 15632)%u64 in
  let t0 := (m .& fieldBaseMask)%u64 in
  let m := ((m >> fieldBase) + t1 + t10 * 1024 + t11 * 15632)%u64 in
  let t1 := (m .& fieldBaseMask)%u64 in
  let m := ((m >> fieldBase) + t2 + t11 * 1024 + t12 * 15632)%u64 in
  let t2 := (m .& fieldBaseMask)%u64 in
  let m := ((m >> fieldBase) + t3 + t12 * 1024 + t13 * 15632)%u64 in
  let t3 := (m .& fieldBaseMask)%u64 in
  let m := ((m >> fieldBase) + t4 + t13 * 1024 + t14 * 15632)%u64 in
  let t4 := (m .& fieldBaseMask)%u64 in
  let m := ((m >> fieldBase) + t5 + t14 * 1024 + t15 * 15632)%u64 in
  let t5 := (m .& fieldBaseMask)%u64 in
  let m := ((m >> fieldBase) + t6 + t15 * 1024 + t16 * 15632)%u64 in
  let t6 := (m .& fieldBaseMask)%u64 in
  let m := ((m >> fieldBase) + t7 + t16 * 1024 + t17 * 15632)%u64 in
  let t7 := (m .& fieldBaseMask)%u64 in
  let m := ((m >> fieldBase) + t8 + t17 * 1024 + t18 * 15632)%u64 in
  let t8 := (m .& fieldBaseMask)%u64 in
  let m := ((m >> fieldBase) + t9 + t18 * 1024 + t19 * 68719492368)%u64 in
  let t9 := (m .& fieldMSBMask)%u64 in
  let m := (m >> fieldMSBBits)%u64 in
  let d := (t0 + m * 977)%u64 in
  let f0 := u32 (d .& fieldBaseMask)%u64 in
  let d := ((d >> fieldBase) + t1 + m * 64)%u64 in
  let f1 := u32 (d .& fieldBaseMask)%u64 in
  let f2 := u32 ((d >> fieldBase) + t2)%u64 in
  mkField f0 f1 f2 (u32 t3) (u32 t4) (u32 t5) (u32 t6) (u32 t7) (u32 t8) (u32 t9).

Definition Mul2 (val val2 : fieldVal) : fieldVal :=
  let m := (n0 val * n0 val2)%u64 in
  let t0 := (m .& fieldBaseMask)%u64 in
  let m := ((m >> fieldBase) + n0 val * n1 val2 + n1 val * n0 val2)%u64 in
  let t1 := (m .& fieldBaseMask)%u64 in
  let m := ((m >> fieldBase) + n0 val * n2 val2 + n1 val * n1 val2 + n2 val * n0 val2)%u64
    in
  let t2 := (m .& fieldBaseMask)%u64 in
  let m := ((m >> fieldBase) + n0 val * n3 val2 + n1 val * n2 val2 + n2 val * n1 val2
    + n3 val * n0 val2)%u64 in
  let t3 := (m .& fieldBaseMask)%u64 in
  let m := ((m >> fieldBase) + n0 val * n4 val2 + n1 val * n3 val2 + n2 val * n2 val2
    + n3 val * n1 val2 + n4 val * n0 val2)%u64 in
  let t4 := (m .& fieldBaseMask)%u64 in
  let m := ((m >> fieldBase) + n0 val * n5 val2 + n1 val * n4 val2 + n2 val * n3 val2
    + n3 val * n2 val2 + n4 val * n1 val2 + n5 val * n0 val2)%u64 in
  let t5 := (m .& fieldBaseMask)%u64 in
  let m := ((m >> fieldBase) + n0 val * n6 val2 + n1 val * n5 val2 + n2 val * n4 val2
    + n3 val * n3 val2 + n4 val * n2 val2 + n5 val * n1 val2 + n6 val * n0 val2)%u64 in
  let t6 := (m .& fieldBaseMask)%u64 in
  let m := ((m >> fieldBase) + n0 val * n7 val2 + n1 val * n6 val2 + n2 val * n5 val2
    + n3 val * n4 val2 + n4 val * n3 val2 + n5 val * n2 val2 + n6 val * n1 val2
    + n7 val * n0 val2)%u64 in
  let t7 := (m .& fieldBaseMask)%u64 in
  let m := ((m >> fieldBase) + n0 val * n8 val2 + n1 val * n7 val2 + n2 val * n6 val2
    + n3 val * n5 val2 + n4 val * n4 val2 + n5 val * n3 val2 + n6 val * n2 val2
    + n7 val * n1 val2 + n8 val * n0 val2)%u64 in
  let t8 := (m .& fieldBaseMask)%u64 in
  let m := ((m >> fieldBase) + n0 val * n9 val2 + n1 val * n8 val2 + n2 val * n7 val2
    + n3 val * n6 val2 + n4 val * n5 val2 + n5 val * n4 val2 + n6 val * n3 val2
    + n7 val * n2 val2 + n8 val * n1 val2 + n9 val * n0 val2)%u64 in
  let t9 := (m .& fieldBaseMask)%u64 in
  let m := ((m >> fieldBase) + n1 val * n9 val2 + n2 val * n8 val2 + n3 val * n7 val2
    + n4 val * n6 val2 + n5 val * n5 val2 + n6 val * n4 val2 + n7 val * n3 val2
    + n8 val * n2 val2 + n9 val * n1 val2)%u64 in
  let t10 := (m .& fieldBaseMask)%u64 in
  let m := ((m >> fieldBase) + n2 val * n9 val2 + n3 val * n8 val2 + n4 val * n7 val2
    + n5 val * n6 val2 + n6 val * n5 val2 + n7 val * n4 val2 + n8 val * n3 val2
    + n9 val * n2 val2)%u64 in
  let t11 := (m .& fieldBaseMask)%u64 in
  let m := ((m >> fieldBase) + n3 val * n9 val2 + n4 val * n8 val2 + n5 val * n7 val2
    + n6 val * n6 val2 + n7 val * n5 val2 + n8 val * n4 val2 + n9 val * n3 val2)%u64 in
  let t12 := (m .& fieldBaseMask)%u64 in
  let m := ((m >> fieldBase) + n4 val * n9 val2 + n5 val * n8 val2 + n6 val * n7 val2
    + n7 val * n6 val2 + n8 val * n5 val2 + n9 val * n4 val2)%u64 in
  let t13 := (m .& fieldBaseMask)%u64 in
  let m := ((m >> fieldBase) + n5 val * n9 val2 + n6 val * n8 val2 + n7 val * n7 val2
    + n8 val * n6 val2 + n9 val * n5 val2)%u64 in
  let t14 := (m .& fieldBaseMask)%u64 in
  let m := ((m >> fieldBase) + n6 val * n9 val2 + n7 val * n8 val2 + n8 val * n7 val2
    + n9 val * n6 val2)%u64 in
  let t15 := (m .& fieldBaseMask)%u64 in
  let m := ((m >> fieldBase) + n7 val * n9 val2 + n8 val * n8 val2 + n9 val * n7 val2)%u64
    in
  let t16 := (m .& fieldBaseMask)%u64 in
  let m := ((m >> fieldBase) + n8 val * n9 val2 + n9 val * n8 val2)%u64 in
  let t17 := (m .& fieldBaseMask)%u64 in
  let m := ((m >> fieldBase) + n9 val * n9 val2)%u64 in
  let t18 := (m .& fieldBaseMask)%u64 in
  let t19 := (m >> fieldBase)%u64 in
  reduce_terms t0 t1 t2 t3 t4 t5 t6 t7 t8 t9 t10 t11 t12 t13 t14 t15 t16 t17 t18 t19.

Definition SquareVal (val : fieldVal) : fieldVal :=
  let m := (n0 val * n0 val)%u64 in
  let t0 := (m .& fieldBaseMask)%u64 in
  let m := ((m >> fieldBase) + 2 * n0 val * n1 val)%u64 in
  let t1 := (m .& fieldBaseMask)%u64 in
  let m := ((m >> fieldBase) + 2 * n0 val * n2 val + n1 val * n1 val)%u64 in
  let t2 := (m .& fieldBaseMask)%u64 in
  let m := ((m >> fieldBase) + 2 * n0 val * n3 val + 2 * n1 val * n2 val)%u64 in
  let t3 := (m .& fieldBaseMask)%u64 in
  let m := ((m >> fieldBase) + 2 * n0 val * n4 val + 2 * n1 val * n3 val
    + n2 val * n2 val)%u64 in
  let t4 := (m .& fieldBaseMask)%u64 in
  let m := ((m >> fieldBase) + 2 * n0 val * n5 val + 2 * n1 val * n4 val
    + 2 * n2 val * n3 val)%u64 in
  let t5 := (m .& fieldBaseMask)%u64 in
  let m := ((m >> fieldBase) + 2 * n0 val * n6 val + 2 * n1 val * n5 val
    + 2 * n2 val * n4 val + n3 val * n3 val)%u64 in
  let t6 := (m .& fieldBaseMask)%u64 in
  let m := ((m >> fieldBase) + 2 * n0 val * n7 val + 2 * n1 val * n6 val
    + 2 * n2 val * n5 val + 2 * n3 val * n4 val)%u64 in
  let t7 := (m .& fieldBaseMask)%u64 in
  let m := ((m >> fieldBase) + 2 * n0 val * n8 val + 2 * n1 val * n7 val
    + 2 * n2 val * n6 val + 2 * n3 val * n5 val + n4 val * n4 val)%u64 in
  let t8 := (m .& fieldBaseMask)%u64 in
  let m := ((m >> fieldBase) + 2 * n0 val * n9 val + 2 * n1 val * n8 val
    + 2 * n2 val * n7 val + 2 * n3 val * n6 val + 2 * n4 val * n5 val)%u64 in
  let t9 := (m .& fieldBaseMask)%u64 in
  let m := ((m >> fieldBase) + 2 * n1 val * n9 val + 2 * n2 val * n8 val
    + 2 * n3 val * n7 val + 2 * n4 val * n6 val + n5 val * n5 val)%u64 in
  let t10 := (m .& fieldBaseMask)%u64 in
  let m := ((m >> fieldBase) + 2 * n2 val * n9 val + 2 * n3 val * n8 val
    + 2 * n4 val * n7 val + 2 * n5 val * n6 val)%u64 in
  let t11 := (m .& fieldBaseMask)%u64 in
  let m := ((m >> fieldBase) + 2 * n3 val * n9 val + 2 * n4 val * n8 val
    + 2 * n5 val * n7 val + n6 val * n6 val)%u64 in
  let t12 := (m .& fieldBaseMask)%u64 in
  let m := ((m >> fieldBase) + 2 * n4 val * n9 val + 2 * n5 val * n8 val
    + 2 * n6 val * n7 val)%u64 in
  let t13 := (m .& fieldBaseMask)%u64 in
  let m := ((m >> fieldBase) + 2 * n5 val * n9 val + 2 * n6 val * n8 val
    + n7 val * n7 val)%u64 in
  let t14 := (m .& fieldBaseMask)%u64 in
  let m := ((m >> fieldBase) + 2 * n6 val * n9 val + 2 * n7 val * n8 val)%u64 in
  let t15 := (m .& fieldBaseMask)%u64 in
  let m := ((m >> fieldBase) + 2 * n7 val * n9 val + n8 val * n8 val)%u64 in
  let t16 := (m .& fieldBaseMask)%u64 in
  let m := ((m >> fieldBase) + 2 * n8 val * n9 val)%u64 in
  let t17 := (m .& fieldBaseMask)%u64 in
  let m := ((m >> fieldBase) + n9 val * n9 val)%u64 in
  let t18 := (m .& fieldBaseMask)%u64 in
  let t19 := (m >> fieldBase)%u64 in
  reduce_terms t0 t1 t2 t3 t4 t5 t6 t7 t8 t9 t10 t11 t12 t13 t14 t15 t16 t17 t18 t19.
Definition Mul (f val : fieldVal) : fieldVal := Mul2 f val.
Definition Square (f : fieldVal) : fieldVal := SquareVal f.

(** Two lines of five squarings, as they appear throughout [Inverse]. *)
Definition Square5 (f : fieldVal) : fieldVal := Square (Square (Square (Square (Square f)))).

(** [Inverse]: the power p - 2.  The code repeats the line pair [Square5] twice
    and [Mul a1023] 21 times before the last four steps. *)
Definition Inverse (f : fieldVal) : fieldVal :=
  let a2 := SquareVal f in
  let a3 := Mul2 a2 f in
  let a4 := SquareVal a2 in
  let a10 := Mul (SquareVal a4) a2 in
  let a11 := Mul2 a10 f in
  let a21 := Mul2 a10 a11 in
  let a42 := SquareVal a21 in
  let a45 := Mul2 a42 a3 in
  let a63 := Mul2 a42 a21 in
  let a1019 := Mul (Square (Square (Square (SquareVal a63)))) a11 in
  let a1023 := Mul2 a1019 a4 in
  let f := Nat.iter 21 (fun f => Mul (Square5 (Square5 f)) a1023) a63 in
  let f := Mul (Square5 (Square5 f)) a1019 in
  let f := Mul (Square5 (Square5 f)) a1023 in
  let f := Mul (Square5 (Square5 f)) a1023 in
  let f := Square5 (Square5 f) in
  Mul f a45.

End Field.
