(* ===== verification/FieldSpec.v ===== *)
(** * Correctness of the field arithmetic

    [value] is the number a field value stands for and [mag f k] the magnitude
    the comments of btcec.go track.  For the magnitudes the code allows no word
    overflows, and every operation computes modulo the prime. *)
From S2P Require Import Prelude Chainhash Signature Field.
From Stdlib Require Import Zdiv Znumtheory Setoid Morphisms.
Import ListNotations Field.

Definition B : Z := 67108864.
Definition value (f : fieldVal) : Z :=
  n0 f + B * (n1 f + B * (n2 f + B * (n3 f + B * (n4 f + B * (n5 f + B * (n6 f
  + B * (n7 f + B * (n8 f + B * n9 f)))))))).

(** ** Congruence modulo the prime *)

Record eqP (a b : Z) : Prop := mk_eqP { eqP_mod : a mod curveP = b mod curveP }.
Infix "==p" := eqP (at level 70).

#[export] Instance eqP_equiv : Equivalence eqP.
Proof.
  split; [intros ?|intros ? ? []|intros ? ? ? [] []]; constructor; congruence.
Qed.
#[export] Instance eqP_add : Proper (eqP ==> eqP ==> eqP) Z.add.
Proof. intros ? ? [] ? ? []. constructor. by apply Zplus_eqm. Qed.
#[export] Instance eqP_sub : Proper (eqP ==> eqP ==> eqP) Z.sub.
Proof. intros ? ? [] ? ? []. constructor. by apply Zminus_eqm. Qed.
#[export] Instance eqP_mul : Proper (eqP ==> eqP ==> eqP) Z.mul.
Proof. intros ? ? [] ? ? []. constructor. by apply Zmult_eqm. Qed.
#[export] Instance eqP_opp : Proper (eqP ==> eqP) Z.opp.
Proof. intros ? ? []. constructor. by apply Zopp_eqm. Qed.

Lemma eqP_intro k a b : a = b + k * curveP -> a ==p b.
Proof. intros ->. constructor. apply Z_mod_plus_full. Qed.
Lemma eqP_modulo a : a mod curveP ==p a.
Proof. constructor. apply Zmod_mod. Qed.

(** ** Bounds *)

Definition upto (X x : Z) : Prop := 0 <= x <= X.

Lemma upto_add X Y x y : upto X x -> upto Y y -> upto (X + Y) (x + y).
Proof. unfold upto; lia. Qed.
Lemma upto_mul X Y x y : upto X x -> upto Y y -> upto (X * Y) (x * y).
Proof. unfold upto; nia. Qed.
Lemma upto_weaken X Y x : upto X x -> X <= Y -> upto Y x.
Proof. unfold upto; lia. Qed.
Lemma upto_const (c : Z) : 0 <= c -> upto c c.
Proof. unfold upto; lia. Qed.

Lemma split_bits k m X : 0 <= k -> upto X m ->
  m = Z.shiftr m k * 2 ^ k + Z.land m (Z.shiftl 1 k - 1) /\
  upto (2 ^ k - 1) (Z.land m (Z.shiftl 1 k - 1)) /\ upto (X / 2 ^ k) (Z.shiftr m k).
Proof.
  intros Hk Hm. rewrite Z.shiftl_1_l, Z.sub_1_r, <- Z.ones_equiv.
  rewrite Z.shiftr_div_pow2, Z.land_ones, Z.ones_equiv by lia. unfold upto in *.
  assert (0 < 2 ^ k) by (apply Z.pow_pos_nonneg; lia).
  pose proof (Z.div_mod m (2 ^ k) ltac:(lia)). pose proof (Z.mod_pos_bound m (2 ^ k) ltac:(lia)).
  pose proof (Z.div_le_mono m X (2 ^ k) ltac:(lia) ltac:(lia)).
  pose proof (Z.div_pos m (2 ^ k) ltac:(lia) ltac:(lia)). lia.
Qed.

Lemma split26 m X : upto X m ->
  exists h t, Z.shiftr m fieldBase = h /\ Z.land m fieldBaseMask = t /\
  m = h * B + t /\ upto (B - 1) t /\ upto (X / B) h.
Proof. intros Hm. do 2 eexists. do 2 (split; [done|]). exact (split_bits 26 m X ltac:(done) Hm). Qed.

Lemma split22 m X : upto X m ->
  exists h t, Z.shiftr m fieldMSBBits = h /\ Z.land m fieldMSBMask = t /\
  m = h * 2 ^ 22 + t /\ upto (2 ^ 22 - 1) t /\ upto (X / 2 ^ 22) h.
Proof. intros Hm. do 2 eexists. do 2 (split; [done|]). exact (split_bits 22 m X ltac:(done) Hm). Qed.

Lemma u32_upto X x : upto X x -> X < 2 ^ 32 -> u32 x = x.
Proof. intros. apply u32_small. unfold upto, is_u32 in *. lia. Qed.

(** [nowrap X e e']: the machine expression [e] has the value of [e'], at most [X]. *)
Definition nowrap (X e e' : Z) : Prop := e = e' /\ upto X e'.

Lemma nowrap_atom X x : upto X x -> nowrap X x x.
Proof. done. Qed.
Lemma nowrap_64 X e e' : nowrap X e e' -> (X <? 2 ^ 64) = true -> nowrap X (u64 e) e'.
Proof. intros [-> H] HX%Z.ltb_lt. split; [|done]. apply u64_small. unfold upto, is_u64 in *. lia. Qed.
Lemma nowrap_32 X e e' : nowrap X e e' -> (X <? 2 ^ 32) = true -> nowrap X (u32 e) e'.
Proof. intros [-> H] HX%Z.ltb_lt. split; [|done]. eapply u32_upto; done. Qed.
Lemma nowrap_add X Y a b a' b' :
  nowrap X a a' -> nowrap Y b b' -> nowrap (X + Y) (a + b) (a' + b').
Proof. intros [-> ?] [-> ?]. split; [done|]. by apply upto_add. Qed.
Lemma nowrap_mul X Y a b a' b' :
  nowrap X a a' -> nowrap Y b b' -> nowrap (X * Y) (a * b) (a' * b').
Proof. intros [-> ?] [-> ?]. split; [done|]. by apply upto_mul. Qed.
Lemma nowrap_shl X k a a' :
  (0 <=? k) = true -> nowrap X a a' -> nowrap (X * 2 ^ k) (Z.shiftl a k) (a' * 2 ^ k).
Proof.
  intros Hk%Z.leb_le [-> ?]. rewrite Z.shiftl_mul_pow2 by done. split; [done|].
  apply upto_mul; [done|]. apply upto_const. apply Z.pow_nonneg; lia.
Qed.

(** ** Symbolic execution of straight-line code *)

Lemma let_nowrap {C} (P : C -> Prop) (k : Z -> C) X e e' :
  nowrap X e e' -> (forall x, x = e' -> upto X x -> P (k x)) -> P (k e).
Proof. intros [-> H] Hk. by apply Hk. Qed.

Ltac nowrap_auto :=
  lazymatch goal with
  | |- nowrap _ (u64 _) _ => eapply nowrap_64; [nowrap_auto|vm_compute; reflexivity]
  | |- nowrap _ (u32 _) _ => eapply nowrap_32; [nowrap_auto|vm_compute; reflexivity]
  | |- nowrap _ (_ + _) _ => eapply nowrap_add; nowrap_auto
  | |- nowrap _ (_ * _) _ => eapply nowrap_mul; nowrap_auto
  | |- nowrap _ (Z.shiftl _ _) _ => eapply nowrap_shl; [reflexivity|nowrap_auto]
  | |- _ => apply nowrap_atom; first [eassumption | apply upto_const; discriminate]
  end.

Ltac eval_bound H :=
  lazymatch type of H with
  | upto ?X ?x => let X' := eval vm_compute in X in change (upto X' x) in H
  end.

(** Name the value of the next [let], a sum of products that does not wrap. *)
Ltac sum_let :=
  lazymatch goal with
  | |- ?P (let x := ?e in @?k x) =>
      let m := fresh "m" in let E := fresh "E" in let H := fresh "B" in
      change (P (k e)); eapply (let_nowrap P k _ e); [nowrap_auto|]; intros m E H; cbv beta;
      eval_bound H
  end.

Ltac var_let :=
  lazymatch goal with
  | |- ?P (let x := ?e in @?k x) => is_var e; change (P (k e)); cbv beta
  end.

(** Replace the last named value by its quotient and remainder, which [split] gives. *)
Ltac split_with split :=
  lazymatch goal with
  | E : ?m = ?e, H : upto _ ?m |- _ =>
      let h := fresh "h" in let t := fresh "t" in
      let Hh := fresh in let Ht := fresh in let Bt := fresh "B" in let Bh := fresh "B" in
      let Em := fresh "E" in
      destruct (split m _ H) as (h & t & Hh & Ht & Em & Bt & Bh);
      rewrite ?Hh, ?Ht; rewrite E in Em; clear Hh Ht H E; try clear m;
      eval_bound Bt; eval_bound Bh; repeat var_let
  end.
Ltac split_sum := sum_let; split_with split26.

(** A [let] that only converts a word. *)
Ltac subst_last := lazymatch goal with E : ?m = _ |- _ => is_var m; subst m end.
Ltac word_let := sum_let; subst_last.

(** Solve the equations of the carries for the words and substitute them. *)
Ltac subst_words :=
  repeat match goal with
  | E : ?e = ?h * ?b + ?t |- _ =>
      is_var t; let E' := fresh in assert (E' : t = e - h * b) by (rewrite E; ring); clear E; subst t
  end.

(** ** Magnitudes

    Word 2 may exceed its 26 bits slightly after a multiplication. *)
Definition mag (f : fieldVal) (k : Z) : Prop :=
  upto (k * (B - 1)) (n0 f) /\ upto (k * (B - 1)) (n1 f) /\ upto (k * (B + 2 ^ 20)) (n2 f) /\
  upto (k * (B - 1)) (n3 f) /\ upto (k * (B - 1)) (n4 f) /\ upto (k * (B - 1)) (n5 f) /\
  upto (k * (B - 1)) (n6 f) /\ upto (k * (B - 1)) (n7 f) /\ upto (k * (B - 1)) (n8 f) /\
  upto (k * (2 ^ 22 - 1)) (n9 f).

Lemma mag_mono f j k : mag f j -> j <= k -> mag f k.
Proof. unfold mag, upto, B. intros. lia. Qed.

(** ** Multiplication *)

Section Multiplication.

(** The result of a multiplication of [x] with [y]. *)
Definition is_product (x y : Z) (r : fieldVal) : Prop := mag r 1 /\ value r ==p x * y.

Definition terms_value (t0 t1 t2 t3 t4 t5 t6 t7 t8 t9
    t10 t11 t12 t13 t14 t15 t16 t17 t18 t19 : Z) : Z :=
  t0 + B * (t1 + B * (t2 + B * (t3 + B * (t4 + B * (t5 + B * (t6 + B * (t7 + B * (t8 + B * (t9
  + B * (t10 + B * (t11 + B * (t12 + B * (t13 + B * (t14 + B * (t15 + B * (t16 + B * (t17
  + B * (t18 + B * t19)))))))))))))))))).

Lemma reduce_terms_spec t0 t1 t2 t3 t4 t5 t6 t7 t8 t9
    t10 t11 t12 t13 t14 t15 t16 t17 t18 t19 x y :
  Forall (upto 67108863) [t0; t1; t2; t3; t4; t5; t6; t7; t8; t9; t10; t11; t12; t13; t14; t15;
    t16; t17; t18] ->
  upto (2 ^ 25) t19 ->
  terms_value t0 t1 t2 t3 t4 t5 t6 t7 t8 t9 t10 t11 t12 t13 t14 t15 t16 t17 t18 t19 = x * y ->
  is_product x y
    (reduce_terms t0 t1 t2 t3 t4 t5 t6 t7 t8 t9 t10 t11 t12 t13 t14 t15 t16 t17 t18 t19).
Proof.
  intros Ht Ht19 Hv. rewrite !List.Forall_cons_iff in Ht. destruct_and! Ht.
  cbv beta delta [reduce_terms]. do 9 split_sum. sum_let. split_with split22.
  split_sum. word_let. split_sum. word_let. sum_let. subst_last.
  rewrite !(u32_upto 67108863), (u32_upto 4194303) by (assumption || done).
  split; [unfold mag, upto, B in *; cbn; lia|].
  rewrite <- Hv.
  symmetry. apply (eqP_intro (h8 + 16 * (t10 + B * (t11 + B * (t12 + B * (t13 + B * (t14 + B * (t15
    + B * (t16 + B * (t17 + B * (t18 + B * t19))))))))))).
  unfold terms_value, value, B, curveP in *; cbn. subst_words. ring.
Qed.

(** The terms of the product, carried into words, then reduced. *)
Ltac product_by_terms :=
  do 19 split_sum; apply reduce_terms_spec;
  [repeat (apply List.Forall_cons; [assumption|]); apply List.Forall_nil
  |eapply upto_weaken; [eassumption|]; vm_compute; discriminate
  |unfold terms_value, value, B in *; subst_words; ring].

Lemma Mul2_spec a b : mag a 8 -> mag b 8 -> is_product (value a) (value b) (Mul2 a b).
Proof.
  intros Ha Hb. unfold mag in Ha, Hb. destruct_and! Ha. destruct_and! Hb.
  cbv beta delta [Mul2]. product_by_terms.
Qed.

Lemma SquareVal_spec a : mag a 8 -> is_product (value a) (value a) (SquareVal a).
Proof.
  intros Ha. unfold mag in Ha. destruct_and! Ha.
  cbv beta delta [SquareVal]. product_by_terms.
Qed.
End Multiplication.

(** ** Normalization *)

(** Words below their base; such a representation is unique. *)
Definition canonical (f : fieldVal) : Prop :=
  upto (B - 1) (n0 f) /\ upto (B - 1) (n1 f) /\ upto (B - 1) (n2 f) /\
  upto (B - 1) (n3 f) /\ upto (B - 1) (n4 f) /\ upto (B - 1) (n5 f) /\
  upto (B - 1) (n6 f) /\ upto (B - 1) (n7 f) /\ upto (B - 1) (n8 f) /\
  upto (2 ^ 22 - 1) (n9 f).

(** All words but the last below their base. *)
Definition carried (t9max : Z) (f : fieldVal) : Prop :=
  upto (B - 1) (n0 f) /\ upto (B - 1) (n1 f) /\ upto (B - 1) (n2 f) /\
  upto (B - 1) (n3 f) /\ upto (B - 1) (n4 f) /\ upto (B - 1) (n5 f) /\
  upto (B - 1) (n6 f) /\ upto (B - 1) (n7 f) /\ upto (B - 1) (n8 f) /\ upto t9max (n9 f).

Lemma carry_words_spec m t0 t1 t2 t3 t4 t5 t6 t7 t8 t9 :
  upto 1023 m -> mag (mkField t0 t1 t2 t3 t4 t5 t6 t7 t8 0) 63 -> upto (2 ^ 22 + 63) t9 ->
  let r := carry_words m t0 t1 t2 t3 t4 t5 t6 t7 t8 t9 in
  carried (t9 + 64) r /\
  value r = value (mkField t0 t1 t2 t3 t4 t5 t6 t7 t8 t9) + m * 4294968273.
Proof.
  intros Hm Ht H9. cbn zeta.
  set (P r := carried (t9 + 64) r /\ value r =
    value (mkField t0 t1 t2 t3 t4 t5 t6 t7 t8 t9) + m * 4294968273).
  change (P (carry_words m t0 t1 t2 t3 t4 t5 t6 t7 t8 t9)).
  unfold mag in Ht; cbn in Ht. destruct_and! Ht. cbv beta delta [carry_words].
  do 9 split_sum. sum_let. repeat var_let. unfold P, carried, value, upto, B in *; cbn.
  split; [lia|]. subst_last. subst_words. ring.
Qed.

Lemma canonical_range f : canonical f -> 0 <= value f < 2 ^ 256.
Proof. unfold canonical, upto, value, B. lia. Qed.

Lemma land_le a b : 0 <= a -> 0 <= b -> 0 <= Z.land a b <= Z.min a b.
Proof.
  intros Ha Hb. rewrite <- (Z2N.id a Ha), <- (Z2N.id b Hb), <- N2Z.inj_land.
  pose proof (N.land_le_l (Z.to_N a) (Z.to_N b)). pose proof (N.land_le_r (Z.to_N a) (Z.to_N b)).
  lia.
Qed.

Lemma word_land_mask x y : upto (B - 1) x -> upto (B - 1) y ->
  upto (B - 1) (Z.land x y) /\
  (Z.land x y = fieldBaseMask <-> x = fieldBaseMask /\ y = fieldBaseMask).
Proof.
  unfold upto. intros Hx Hy. pose proof (land_le x y). change fieldBaseMask with (B - 1).
  split; [lia|]. split; [lia|]. intros [-> ->]. done.
Qed.

Lemma all_ones a b c d e f g :
  upto (B - 1) a -> upto (B - 1) b -> upto (B - 1) c -> upto (B - 1) d -> upto (B - 1) e ->
  upto (B - 1) f -> upto (B - 1) g ->
  (Z.land (Z.land (Z.land (Z.land (Z.land (Z.land a b) c) d) e) f) g =? fieldBaseMask) = true <->
  a = B - 1 /\ b = B - 1 /\ c = B - 1 /\ d = B - 1 /\ e = B - 1 /\ f = B - 1 /\ g = B - 1.
Proof.
  intros Ha Hb Hc Hd He Hf Hg. rewrite Z.eqb_eq.
  destruct (word_land_mask _ _ Ha Hb) as [B1 E1]. destruct (word_land_mask _ _ B1 Hc) as [B2 E2].
  destruct (word_land_mask _ _ B2 Hd) as [B3 E3]. destruct (word_land_mask _ _ B3 He) as [B4 E4].
  destruct (word_land_mask _ _ B4 Hf) as [B5 E5]. destruct (word_land_mask _ _ B5 Hg) as [B6 E6].
  change fieldBaseMask with (B - 1) in *. tauto.
Qed.

Lemma final_carry_spec t : carried (2 ^ 22 + 63) t ->
  final_carry t = if value t <? curveP then 0 else 1.
Proof.
  unfold carried. intros (H0 & H1 & H2 & H3 & H4 & H5 & H6 & H7 & H8 & H9).
  pose proof (all_ones _ _ _ _ _ _ _ H2 H3 H4 H5 H6 H7 H8) as Hones.
  destruct (split26 (n0 t + 977) (B + 976)) as (h & w & Hh & _ & Es & Bw & Bh).
  { unfold upto in *; lia. }
  destruct (split22 (n9 t) _ H9) as (g & u & Hg & _ & Eg & Bu & Bg).
  unfold final_carry. unfold upto, B in *.
  rewrite (u32_small (n0 t + 977)) by (unfold is_u32; lia). rewrite Hh, Hg.
  rewrite (u32_small (h + n1 t)), (u32_small (h + n1 t + 64)) by (unfold is_u32; lia).
  unfold value, curveP, B. change fieldMSBMask with 4194303. change fieldBaseMask with 67108863 in *.
  destruct (_ =? 67108863) eqn:Eo; [apply proj1 in Hones; specialize (Hones eq_refl)|].
  - destruct (Z.eqb_spec (n9 t) 4194303), (Z.ltb_spec 67108863 (h + n1 t + 64)),
      (Z.eqb_spec g 0); cbn [negb]; case_if; first [reflexivity | exfalso; lia].
  - assert (~ (n2 t = 67108863 /\ n3 t = 67108863 /\ n4 t = 67108863 /\ n5 t = 67108863 /\
      n6 t = 67108863 /\ n7 t = 67108863 /\ n8 t = 67108863)) by (intros Hc; by apply Hones in Hc).
    clear Hones.
    destruct (Z.eqb_spec (n9 t) 4194303), (Z.ltb_spec 67108863 (h + n1 t + 64)),
      (Z.eqb_spec g 0); cbn [negb]; case_if; first [reflexivity | exfalso; lia].
Qed.

(** Dropping the multiple of 2^256 leaves the value modulo 2^256. *)
Lemma mask_word9 t T : carried T t -> 0 <= T ->
  let r := mkField (n0 t) (n1 t) (n2 t) (n3 t) (n4 t) (n5 t) (n6 t) (n7 t) (n8 t)
    (Z.land (n9 t) fieldMSBMask) in
  canonical r /\ value r = value t mod 2 ^ 256.
Proof.
  unfold carried. intros (H0 & H1 & H2 & H3 & H4 & H5 & H6 & H7 & H8 & H9) HT. cbn zeta.
  destruct (split22 (n9 t) _ H9) as (g & u & _ & -> & Eg & Bu & _).
  unfold canonical, value, upto, B in *; cbn. split; [lia|].
  apply Z.mod_unique with g; [lia|]. rewrite Eg. ring.
Qed.

Definition normalized (f : fieldVal) : Prop := canonical f /\ value f < curveP.

Lemma Normalize_spec f : mag f 63 ->
  normalized (Normalize f) /\ value (Normalize f) = value f mod curveP.
Proof.
  intros Hf. unfold Normalize. cbn zeta.
  pose proof Hf as (_ & _ & _ & _ & _ & _ & _ & _ & _ & H9).
  destruct (split22 (n9 f) _ H9) as (m & t9 & -> & -> & Eg & B9 & Bm).
  destruct (carry_words_spec m (n0 f) (n1 f) (n2 f) (n3 f) (n4 f) (n5 f) (n6 f) (n7 f) (n8 f) t9)
    as [Hc Hv].
  { eapply upto_weaken; [exact Bm|done]. }
  { unfold mag, upto, B in *; cbn; lia. }
  { eapply upto_weaken; [exact B9|done]. }
  set (t := carry_words _ _ _ _ _ _ _ _ _ _ _) in *. clearbody t.
  assert (Hc' : carried (2 ^ 22 + 63) t) by (unfold carried, upto in *; lia).
  rewrite (final_carry_spec t Hc').
  set (c := if value t <? curveP then 0 else 1).
  assert (Hvt : value t = value f - m * curveP).
  { rewrite Hv. unfold value, curveP, B; cbn. rewrite Eg. ring. }
  assert (Hrange : 0 <= value t < 2 ^ 256 + 64 * 2 ^ 234).
  { unfold carried, value, upto, B in *; lia. }
  destruct (carry_words_spec c (n0 t) (n1 t) (n2 t) (n3 t) (n4 t) (n5 t) (n6 t) (n7 t) (n8 t) (n9 t))
    as [Hc2 Hv2].
  { unfold c. case_if; done. }
  { unfold carried, mag, upto, B in *; cbn; lia. }
  { apply Hc'. }
  set (r := carry_words c _ _ _ _ _ _ _ _ _ _) in *.
  destruct (mask_word9 r _ Hc2) as [Hcan Hval]; [unfold carried, upto in Hc'; lia|].
  assert (Hvr : value r = value t + c * 4294968273) by (rewrite Hv2; by destruct t).
  assert (Hres : value r mod 2 ^ 256 = value f mod curveP).
  { rewrite Hvr. replace (value f) with (value t + m * curveP) by lia.
    rewrite Z_mod_plus_full. unfold c. destruct (Z.ltb_spec (value t) curveP).
    - rewrite !Z.mod_small; [lia|lia|unfold curveP in *; lia].
    - transitivity (value t - curveP); [symmetry; apply Z.mod_unique with 1
        |apply Z.mod_unique with 1]; unfold curveP in *; lia. }
  split; [split; [exact Hcan|]|]; rewrite Hval, Hres; [|done].
  apply Z.mod_pos_bound. done.
Qed.

(** ** What a field value represents

    [rep f k x]: [f] represents [x] modulo the prime with magnitude [k].  The
    rules below are the magnitude calculus of the comments in btcec.go. *)
Definition rep (f : fieldVal) (k x : Z) : Prop := mag f k /\ value f ==p x.

Lemma rep_value f k : mag f k -> rep f k (value f).
Proof. done. Qed.

Lemma rep_eq f k x y : rep f k x -> x ==p y -> rep f k y.
Proof. intros [? Hv] Hy. split; [done|]. by rewrite Hv. Qed.

Lemma rep_mono f j k x : rep f j x -> j <= k -> rep f k x.
Proof. intros [Hm ?] ?. split; [by eapply mag_mono|done]. Qed.

Lemma Add2_exact a b j k : mag a j -> mag b k -> j + k <= 63 ->
  mag (Add2 a b) (j + k) /\ value (Add2 a b) = value a + value b.
Proof.
  unfold mag, upto, B. intros Ha Hb Hjk. unfold Add2; cbn [n0 n1 n2 n3 n4 n5 n6 n7 n8 n9].
  rewrite !u32_small by (unfold is_u32; lia). split; [lia|].
  unfold value; cbn [n0 n1 n2 n3 n4 n5 n6 n7 n8 n9]. ring.
Qed.

Lemma rep_add a b j k x y : rep a j x -> rep b k y -> j + k <= 63 -> rep (Add2 a b) (j + k) (x + y).
Proof.
  intros [Ha Ea] [Hb Eb] Hjk. destruct (Add2_exact a b j k Ha Hb Hjk) as [Hm Hv].
  split; [done|]. by rewrite Hv, Ea, Eb.
Qed.

Lemma rep_negate a k x : rep a k x -> 0 <= k <= 62 -> rep (NegateVal a k) (k + 1) (- x).
Proof.
  intros [Ha Ea] Hk. unfold rep. rewrite <- Ea. clear Ea x.
  unfold mag, upto, B in *. unfold NegateVal; cbn [n0 n1 n2 n3 n4 n5 n6 n7 n8 n9].
  change fieldPrimeWordZero with 67107887. change fieldPrimeWordOne with 67108799.
  change fieldBaseMask with 67108863. change fieldMSBMask with 4194303.
  rewrite (u32_small (k + 1)) by (unfold is_u32; lia).
  rewrite !(u32_small ((k + 1) * _)) by (unfold is_u32; lia).
  rewrite !u32_small by (unfold is_u32; lia). split; [lia|].
  apply (eqP_intro (k + 1)). unfold value, B, curveP; cbn [n0 n1 n2 n3 n4 n5 n6 n7 n8 n9]. ring.
Qed.

Lemma word_mul X k ui x : upto (k * X) x -> 0 <= ui -> 1 <= k -> k * ui <= 63 ->
  0 <= X <= B + 2 ^ 20 -> u32 (x * ui) = x * ui /\ upto (k * ui * X) (x * ui).
Proof.
  intros Hx Hu H1 Hk HX.
  assert (Hb : upto (k * ui * X) (x * ui)).
  { replace (k * ui * X) with (k * X * ui) by ring. apply upto_mul; [done|]. by apply upto_const. }
  split; [|done]. apply u32_upto with (1 := Hb). unfold B in *.
  assert (k * ui * X <= 63 * X) by nia. lia.
Qed.

Lemma rep_mulint a k x ui : rep a k x -> 0 <= ui -> 1 <= k -> k * ui <= 63 ->
  rep (MulInt a ui) (k * ui) (x * ui).
Proof.
  intros [Ha Ea] Hu H1 Hk. unfold rep. rewrite <- Ea. clear Ea x.
  assert (Hui : u32 ui = ui) by (apply u32_small; unfold is_u32; nia).
  unfold MulInt, mag in *. cbn zeta. rewrite Hui. cbn [n0 n1 n2 n3 n4 n5 n6 n7 n8 n9].
  destruct_and! Ha.
  repeat match goal with
  | H : upto (k * ?X) ?x |- _ =>
      destruct (word_mul X k ui x H Hu H1 Hk) as [-> ?]; [done|clear H]
  end.
  split; [tauto|].
  unfold value; cbn [n0 n1 n2 n3 n4 n5 n6 n7 n8 n9].
  apply (eqP_intro 0). ring.
Qed.

Lemma rep_addint a k x ui : rep a k x -> 0 <= k <= 62 -> upto (B - 1) ui ->
  rep (AddInt a ui) (k + 1) (x + ui).
Proof.
  intros [Ha Ea] Hk Hu. unfold rep. rewrite <- Ea. clear Ea x.
  unfold AddInt, mag, upto, B in *; cbn [n0 n1 n2 n3 n4 n5 n6 n7 n8 n9].
  rewrite (u32_small ui), u32_small by (unfold is_u32; lia). split; [lia|].
  unfold value; cbn [n0 n1 n2 n3 n4 n5 n6 n7 n8 n9]. apply (eqP_intro 0). ring.
Qed.

Lemma rep_mul a b j k x y : rep a j x -> rep b k y -> j <= 8 -> k <= 8 -> rep (Mul2 a b) 1 (x * y).
Proof.
  intros [Ha Ea] [Hb Eb] Hj Hk.
  destruct (Mul2_spec a b (mag_mono _ _ _ Ha Hj) (mag_mono _ _ _ Hb Hk)) as [Hm Hv].
  split; [done|]. by rewrite Hv, Ea, Eb.
Qed.

Lemma rep_square a j x : rep a j x -> j <= 8 -> rep (SquareVal a) 1 (x * x).
Proof.
  intros [Ha Ea] Hj. destruct (SquareVal_spec a (mag_mono _ _ _ Ha Hj)) as [Hm Hv].
  split; [done|]. by rewrite Hv, Ea.
Qed.

Lemma canonical_mag f : canonical f -> mag f 1.
Proof. unfold canonical, mag, upto, B. lia. Qed.

Lemma rep_normalize a k x : rep a k x -> k <= 63 -> rep (Normalize a) 1 x.
Proof.
  intros [Ha Ea] Hk. destruct (Normalize_spec a (mag_mono _ _ _ Ha Hk)) as [[Hc _] Hv].
  split; [by apply canonical_mag|]. rewrite Hv, eqP_modulo. done.
Qed.

Lemma rep_normalized a k x : rep a k x -> k <= 63 -> normalized (Normalize a).
Proof. intros [Ha _] Hk. by apply Normalize_spec, (mag_mono _ k). Qed.

Lemma value_normalize a k x : rep a k x -> k <= 63 -> value (Normalize a) = x mod curveP.
Proof.
  intros [Ha Ea] Hk. destruct (Normalize_spec a (mag_mono _ _ _ Ha Hk)) as [_ Hv].
  rewrite Hv. apply eqP_mod, Ea.
Qed.

Lemma rep_int ui : upto (B - 1) ui -> rep (SetInt ui) 1 ui.
Proof.
  intros Hu. unfold SetInt, rep, mag, upto, B, value in *; cbn [n0 n1 n2 n3 n4 n5 n6 n7 n8 n9].
  rewrite u32_small by (unfold is_u32; lia). split; [lia|]. apply (eqP_intro 0). ring.
Qed.

(** ** Comparisons *)

Lemma word_inj a b x y : upto (B - 1) a -> upto (B - 1) b -> a + B * x = b + B * y ->
  a = b /\ x = y.
Proof. unfold upto, B. lia. Qed.

Lemma canonical_inj f g : canonical f -> canonical g -> value f = value g -> f = g.
Proof.
  destruct f, g. unfold canonical, value; cbn [n0 n1 n2 n3 n4 n5 n6 n7 n8 n9].
  intros Hf Hg Hv. destruct_and! Hf. destruct_and! Hg.
  do 9 (apply word_inj in Hv as [-> Hv]; [|assumption..]). by subst.
Qed.

Lemma lor_zero a b : Z.lor a b = 0 <-> a = 0 /\ b = 0.
Proof. apply Z.lor_eq_0_iff. Qed.

Lemma Equals_spec f g : Equals f g = true <-> f = g.
Proof.
  unfold Equals. rewrite Z.eqb_eq, !lor_zero, !Z.lxor_eq_0_iff.
  destruct f, g; cbn. split; [intros; destruct_and!; by subst|intros [=]; tauto].
Qed.

(** Comparing normalized values compares what they represent. *)
Lemma Equals_normalized a b j k x y : rep a j x -> rep b k y -> j <= 63 -> k <= 63 ->
  Equals (Normalize a) (Normalize b) = true <-> x ==p y.
Proof.
  intros Ha Hb Hj Hk. rewrite Equals_spec.
  pose proof (value_normalize a j x Ha Hj) as Va. pose proof (value_normalize b k y Hb Hk) as Vb.
  split.
  - intros He. constructor. congruence.
  - intros [He]. destruct Ha as [Ha _], Hb as [Hb _].
    apply canonical_inj; [apply Normalize_spec; by eapply mag_mono..|congruence].
Qed.

Lemma mag_nonneg f k : mag f k -> 0 <= n0 f /\ 0 <= n1 f /\ 0 <= n2 f /\ 0 <= n3 f /\ 0 <= n4 f /\
  0 <= n5 f /\ 0 <= n6 f /\ 0 <= n7 f /\ 0 <= n8 f /\ 0 <= n9 f.
Proof. unfold mag, upto. lia. Qed.

(** [IsZero] decides whether the number is 0, not whether it is 0 modulo the prime. *)
Lemma IsZero_spec f k : mag f k -> IsZero f = true <-> value f = 0.
Proof.
  intros Hf%mag_nonneg. unfold IsZero. rewrite Z.eqb_eq, !lor_zero. unfold value, B. lia.
Qed.

Lemma IsZero_normalized f : normalized f -> IsZero f = true <-> value f ==p 0.
Proof.
  intros [Hc Hp]. rewrite (IsZero_spec f 1) by (by apply canonical_mag).
  pose proof (canonical_range f Hc). split; [intros ->; done|intros [Hm]].
  rewrite Z.mod_small in Hm; [done|lia].
Qed.

(** ** The inverse *)

Section Inverse.
Context (x : Z).

(** [pw f e]: [f] represents the power [x ^ e]. *)
Definition pw (f : fieldVal) (e : Z) : Prop := rep f 1 (x ^ e).

Lemma pw_square f e : pw f e -> 0 <= e -> pw (SquareVal f) (2 * e).
Proof.
  intros Hf He. unfold pw. replace (2 * e) with (e + e) by ring. rewrite Z.pow_add_r by done.
  by apply (rep_square f 1).
Qed.

Lemma pw_mul f g d e : pw f d -> pw g e -> 0 <= d -> 0 <= e -> pw (Mul2 f g) (d + e).
Proof.
  intros Hf Hg Hd He. unfold pw. rewrite Z.pow_add_r by done. by apply (rep_mul f g 1 1).
Qed.

Lemma pw_square5 f e : 0 <= e -> pw f e -> pw (Square5 f) (32 * e).
Proof.
  intros He Hf. replace (32 * e) with (2 * (2 * (2 * (2 * (2 * e))))) by ring.
  do 5 (apply pw_square; [|lia]). done.
Qed.

Lemma pw_step f g e d : 0 <= e -> 0 <= d -> pw f e -> pw g d ->
  pw (Mul2 (Square5 (Square5 f)) g) (1024 * e + d).
Proof.
  intros He Hd Hf Hg. replace (1024 * e) with (32 * (32 * e)) by ring.
  apply pw_mul; [|done|lia..]. do 2 (apply pw_square5; [lia|]). done.
Qed.

Lemma pw_steps f g d n : 0 <= d -> pw g d ->
  forall e, 0 <= e -> pw f e ->
  0 <= Nat.iter n (fun e => 1024 * e + d) e /\
  pw (Nat.iter n (fun f => Mul2 (Square5 (Square5 f)) g) f) (Nat.iter n (fun e => 1024 * e + d) e).
Proof.
  intros Hd Hg e He Hf. induction n as [|n [IHe IH]]; [done|].
  rewrite !Nat.iter_succ. split; [lia|]. by apply pw_step.
Qed.

(** The chain of [Inverse] computes the power p - 2. *)
Lemma rep_inverse f k : rep f k x -> k <= 8 -> rep (Inverse f) 1 (x ^ (curveP - 2)).
Proof.
  intros Hf Hk. unfold Inverse, Mul, Square. cbv zeta.
  assert (H2 : pw (SquareVal f) 2).
  { unfold pw. rewrite Z.pow_2_r. by eapply rep_square. }
  assert (Hmul : forall g e, pw g e -> 0 <= e -> pw (Mul2 g f) (e + 1)).
  { intros g e Hg He. unfold pw. rewrite Z.pow_add_r, Z.pow_1_r by lia.
    eapply rep_mul; [exact Hg|exact Hf|done|done]. }
  set (a2 := SquareVal f) in *. clearbody a2.
  pose proof (Hmul a2 2 H2 ltac:(done)) as H3. set (a3 := Mul2 a2 f) in *. clearbody a3.
  pose proof (pw_square a2 _ H2 ltac:(done)) as H4. set (a4 := SquareVal a2) in *. clearbody a4.
  pose proof (pw_mul _ _ _ _ (pw_square a4 _ H4 ltac:(done)) H2 ltac:(done) ltac:(done)) as H10.
  set (a10 := Mul2 (SquareVal a4) a2) in *. clearbody a10.
  pose proof (Hmul a10 _ H10 ltac:(done)) as H11. set (a11 := Mul2 a10 f) in *. clearbody a11.
  pose proof (pw_mul _ _ _ _ H10 H11 ltac:(done) ltac:(done)) as H21.
  set (a21 := Mul2 a10 a11) in *. clearbody a21.
  pose proof (pw_square a21 _ H21 ltac:(done)) as H42. set (a42 := SquareVal a21) in *. clearbody a42.
  pose proof (pw_mul _ _ _ _ H42 H3 ltac:(done) ltac:(done)) as H45.
  set (a45 := Mul2 a42 a3) in *. clearbody a45.
  pose proof (pw_mul _ _ _ _ H42 H21 ltac:(done) ltac:(done)) as H63.
  set (a63 := Mul2 a42 a21) in *. clearbody a63.
  assert (H1019 : pw (Mul2 (SquareVal (SquareVal (SquareVal (SquareVal a63)))) a11) 1019).
  { change 1019 with (2 * (2 * (2 * (2 * 63))) + 11). apply pw_mul; [|done..].
    do 4 (apply pw_square; [|done]). done. }
  set (a1019 := Mul2 _ a11) in *. clearbody a1019.
  pose proof (pw_mul _ _ _ _ H1019 H4 ltac:(done) ltac:(done)) as H1023.
  set (a1023 := Mul2 a1019 a4) in *. clearbody a1023.
  destruct (pw_steps a63 a1023 1023 21 ltac:(done) H1023 63 ltac:(done) H63) as [Ha Hs].
  set (g := Nat.iter 21 _ a63) in *. clearbody g. set (e := Nat.iter 21 _ 63) in *.
  replace (curveP - 2) with
    (32 * (32 * (1024 * (1024 * (1024 * e + 1019) + 1023) + 1023)) + 45) by (vm_compute; reflexivity).
  clearbody e. apply pw_mul; [|exact H45|lia..].
  do 2 (apply pw_square5; [lia|]). do 3 (apply pw_step; [lia..| |assumption]). exact Hs.
Qed.
End Inverse.

(** ** Bytes *)

Lemma nowrap_lor X Y k a b a' b' : nowrap X a a' -> nowrap Y b (b' * 2 ^ k) ->
  (0 <=? k) && (X <? 2 ^ k) = true -> nowrap (X + Y) (Z.lor a b) (a' + b' * 2 ^ k).
Proof.
  intros [-> Ha] [-> Hb] [Hk HX]%andb_prop. apply Z.leb_le in Hk. apply Z.ltb_lt in HX.
  split; [|by apply upto_add].
  pose proof (Z.add_lor_land a' (b' * 2 ^ k)) as Hl.
  assert (Z.land a' (b' * 2 ^ k) = 0); [|lia].
  rewrite <- Z.shiftl_mul_pow2 by lia. apply Z.bits_inj'. intros i Hi.
  rewrite Z.land_spec, Z.bits_0, Z.shiftl_spec by lia.
  destruct (Z.lt_ge_cases i k) as [Hik|Hik].
  - rewrite (Z.testbit_neg_r b') by lia. apply andb_false_r.
  - rewrite <- (Z.mod_small a' (2 ^ k)) by (unfold upto in Ha; lia).
    by rewrite Z.mod_pow2_bits_high by lia.
Qed.

Lemma nowrap_shr X k a a' : (0 <=? k) = true -> nowrap X a a' ->
  nowrap (X / 2 ^ k) (Z.shiftr a k) (a' / 2 ^ k).
Proof.
  intros Hk%Z.leb_le [-> H]. rewrite Z.shiftr_div_pow2 by done. split; [done|].
  assert (0 < 2 ^ k) by (apply Z.pow_pos_nonneg; lia). unfold upto in *.
  split; [apply Z.div_pos; lia|]. apply Z.div_le_mono; lia.
Qed.

Lemma nowrap_mask X k m a a' : m = Z.ones k -> (0 <=? k) = true -> nowrap X a a' ->
  nowrap (2 ^ k - 1) (Z.land a m) (a' mod 2 ^ k).
Proof.
  intros -> Hk%Z.leb_le [-> H]. rewrite Z.land_ones by done. split; [done|].
  assert (0 < 2 ^ k) by (apply Z.pow_pos_nonneg; lia).
  unfold upto. pose proof (Z.mod_pos_bound a' (2 ^ k)). lia.
Qed.

Lemma byte_upto (b : byte) : upto 255 b.
Proof. pose proof (Z_of_byte_range b). unfold is_u8 in *. unfold upto. lia. Qed.

Ltac nowrap_bits :=
  lazymatch goal with
  | |- nowrap _ (u32 _) _ => eapply nowrap_32; [nowrap_bits|vm_compute; reflexivity]
  | |- nowrap _ (Z.lor _ _) _ => eapply nowrap_lor; [nowrap_bits|nowrap_bits|vm_compute; reflexivity]
  | |- nowrap _ (Z.shiftl _ _) _ => eapply nowrap_shl; [reflexivity|nowrap_bits]
  | |- nowrap _ (Z.shiftr _ _) _ => eapply nowrap_shr; [reflexivity|nowrap_bits]
  | |- nowrap _ (Z.land _ twoBitsMask) _ => eapply (nowrap_mask _ 2); [reflexivity|reflexivity|nowrap_bits]
  | |- nowrap _ (Z.land _ fourBitsMask) _ => eapply (nowrap_mask _ 4); [reflexivity|reflexivity|nowrap_bits]
  | |- nowrap _ (Z.land _ sixBitsMask) _ => eapply (nowrap_mask _ 6); [reflexivity|reflexivity|nowrap_bits]
  | |- nowrap _ (Z.land _ eightBitsMask) _ => eapply (nowrap_mask _ 8); [reflexivity|reflexivity|nowrap_bits]
  | |- nowrap _ (Z_of_byte ?b) _ => apply (nowrap_atom 255); apply byte_upto
  | |- _ => apply nowrap_atom; eassumption
  end.

Ltac word_value e :=
  let H := fresh in let Hb := fresh in
  eassert (H : nowrap _ e _) by nowrap_bits; destruct H as [H Hb]; rewrite H; eval_bound Hb.

Lemma SetBytes_spec b : length b = 32%nat -> canonical (SetBytes b) /\ value (SetBytes b) = be_value b.
Proof.
  intros Hl. do 32 (destruct b as [|? b]; [discriminate Hl|]). destruct b; [|discriminate Hl]. clear Hl.
  unfold SetBytes. cbn [nth].
  lazymatch goal with
  | |- canonical (mkField ?a0 ?a1 ?a2 ?a3 ?a4 ?a5 ?a6 ?a7 ?a8 ?a9) /\ _ =>
    word_value a0; word_value a1; word_value a2; word_value a3; word_value a4; 
    word_value a5; word_value a6; word_value a7; word_value a8; word_value a9
  end.
  split; [unfold canonical; cbn [n0 n1 n2 n3 n4 n5 n6 n7 n8 n9]; change (B - 1) with 67108863;
    change (2 ^ 22 - 1) with 4194303; tauto|].
  rewrite !Z.mod_eq by done. unfold value, B, be_value, reverse.
  cbn [rev_append le_value n0 n1 n2 n3 n4 n5 n6 n7 n8 n9]. ring.
Qed.

Lemma byte_word X e e' : nowrap X e e' -> (X <=? 255) = true -> u8 e = e'.
Proof.
  intros [-> H] HX%Z.leb_le. apply u8_small. unfold upto, is_u8 in *. lia.
Qed.

(** The bytes of a word that starts [a] bits into a byte. *)
Lemma word_bytes x a b c : 0 <= a -> b = a + 8 -> c = b + 8 ->
  x = x mod 2 ^ a + 2 ^ a * ((x / 2 ^ a) mod 2 ^ 8) + 2 ^ b * ((x / 2 ^ b) mod 2 ^ 8)
    + 2 ^ c * (x / 2 ^ c).
Proof.
  intros Ha -> ->. rewrite !Z.pow_add_r, <- !Z.div_div by lia.
  assert (2 ^ a <> 0) by (apply Z.pow_nonzero; lia). rewrite !Z.mod_eq by done. ring.
Qed.

Lemma div_top k j x : 0 <= k -> 0 <= j -> upto (2 ^ (k + j) - 1) x ->
  (x / 2 ^ k) mod 2 ^ j = x / 2 ^ k.
Proof.
  intros Hk Hj Hx. unfold upto in Hx. rewrite Z.pow_add_r in Hx by done.
  assert (0 < 2 ^ k) by (apply Z.pow_pos_nonneg; lia).
  apply Z.mod_small. split; [apply Z.div_pos; lia|]. apply Z.div_lt_upper_bound; lia.
Qed.

Lemma PutBytes_spec f : canonical f -> length (PutBytes f) = 32%nat /\ be_value (PutBytes f) = value f.
Proof.
  intros (H0 & Hn1 & H2 & H3 & H4 & H5 & H6 & H7 & H8 & H9). split; [done|].
  unfold PutBytes, be_value, reverse. cbn [map rev_append le_value]. rewrite !Z_of_byte_of_Z.
  repeat match goal with |- context [u8 ?e] => erewrite (byte_word _ e); [|nowrap_bits|reflexivity] end.
  rewrite (div_top 24 2 (n0 f)), (div_top 22 4 (n1 f)), (div_top 20 6 (n2 f)),
    (div_top 18 8 (n3 f)), (div_top 24 2 (n4 f)), (div_top 22 4 (n5 f)), (div_top 20 6 (n6 f)),
    (div_top 18 8 (n7 f)), (div_top 24 2 (n8 f)) by done.
  pose proof (word_bytes (n0 f) 8 16 24 ltac:(done) eq_refl eq_refl).
  pose proof (word_bytes (n1 f) 6 14 22 ltac:(done) eq_refl eq_refl).
  pose proof (word_bytes (n2 f) 4 12 20 ltac:(done) eq_refl eq_refl).
  pose proof (word_bytes (n3 f) 2 10 18 ltac:(done) eq_refl eq_refl).
  pose proof (word_bytes (n4 f) 8 16 24 ltac:(done) eq_refl eq_refl).
  pose proof (word_bytes (n5 f) 6 14 22 ltac:(done) eq_refl eq_refl).
  pose proof (word_bytes (n6 f) 4 12 20 ltac:(done) eq_refl eq_refl).
  pose proof (word_bytes (n7 f) 2 10 18 ltac:(done) eq_refl eq_refl).
  pose proof (word_bytes (n8 f) 8 16 24 ltac:(done) eq_refl eq_refl).
  pose proof (word_bytes (n9 f) 6 14 22 ltac:(done) eq_refl eq_refl).
  pose proof (Z.div_small (n9 f) (2 ^ 22) ltac:(unfold upto in H9; lia)).
  unfold value, B. clear - H H1 H10 H11 H12 H13 H14 H15 H16 H17 H18. lia.
Qed.

Lemma place_spec len b : forall i pre rest, len <= 32 -> 0 <= i -> i + Z.of_nat (length b) = len ->
  Z.of_nat (length pre) = 32 - len + i -> length rest = length b ->
  place len i b (pre ++ rest) = Ok (pre ++ b).
Proof.
  induction b as [|x b IH]; intros i pre rest Hl Hi Hlen Hpre Hrest; cbn [place].
  - by destruct rest.
  - destruct rest as [|y rest]; [done|]. cbn [length] in *.
    destruct (Z.ltb_spec i 32); [|lia].
    destruct (Z.leb_spec 0 (i + (32 - len))); [|lia].
    destruct (Z.ltb_spec (i + (32 - len)) 32); [|lia]. cbn [andb].
    rewrite insert_app_r_alt by lia. replace (_ - _)%nat with 0%nat by lia. cbn [insert list_insert].
    change (x :: rest) with ([x] ++ rest). rewrite (assoc_L (++)).
    rewrite IH; [by rewrite <- (assoc_L (++))|..]; rewrite ?length_app; cbn [length]; lia.
Qed.

Lemma SetByteSlice_spec b :
  SetByteSlice b = if (length b <=? 32)%nat then Ok (SetBytes (replicate (32 - length b) x00 ++ b))
                   else Panic.
Proof.
  unfold SetByteSlice. destruct (Nat.leb_spec (length b) 32) as [Hl|Hl].
  - replace (replicate 32 x00) with (replicate (32 - length b) x00 ++ replicate (length b) x00)
      by (rewrite <- replicate_add; f_equal; lia).
    rewrite (place_spec _ b 0); [done|..]; rewrite ?length_replicate; lia.
  - destruct b as [|x b]; [cbn in Hl; lia|]. cbn [place].
    destruct (Z.leb_spec 0 (0 + (32 - Z.of_nat (length (x :: b))))); [lia|done].
Qed.

(** The number a slice of at most 32 bytes holds. *)
Lemma SetByteSlice_value b f : SetByteSlice b = Ok f -> canonical f /\ value f = be_value b.
Proof.
  rewrite SetByteSlice_spec. destruct (Nat.leb_spec (length b) 32); [|done]. intros [= <-].
  destruct (SetBytes_spec (replicate (32 - length b) x00 ++ b)) as [Hc Hv].
  { rewrite length_app, length_replicate. lia. }
  split; [done|]. by rewrite Hv, be_value_zeros.
Qed.
