(* ===== verification/Primes.v ===== *)
(** * The prime of the curve

    [curveP] of btcec/btcec.go is a prime: a certificate in the style of
    Pocklington, checked by computing powers.  The arithmetic of the curve
    relies on it (inverses exist, a product vanishes only if a factor does). *)
From S2P Require Import Prelude Signature.
From Stdlib Require Import Zdivisibility Zpow_facts.
From Stdlib Require Znumtheory Zmod.ZmodInv.
Import ListNotations.

Lemma prime_or_divisor n : 1 < n -> Z.prime n \/ exists d, 1 < d < n /\ (d | n).
Proof.
  intros H1. destruct (Znumtheory.prime_dec n) as [Hp|Hp]; [left; by apply Znumtheory.prime_alt|right].
  by apply Znumtheory.not_prime_divide.
Qed.

(** A composite number has a prime divisor up to its square root. *)
Lemma small_prime_divisor n : 1 < n ->
  Z.prime n \/ exists r, Z.prime r /\ (r | n) /\ r * r <= n.
Proof.
  intros H1. assert (Hn : 0 <= n) by lia. revert n Hn H1. apply (Z_lt_induction (fun n => 1 < n -> _)).
  intros n IH H1.
  destruct (prime_or_divisor n H1) as [Hp|(d & Hd & e & He)]; [by left|right].
  assert (exists c, 1 < c < n /\ (c | n) /\ c * c <= n) as (c & Hc & Hcn & Hcc).
  { destruct (Z.le_gt_cases d e); [exists d|exists e]; (split; [nia|split; [|nia]]).
    - by exists e.
    - exists d. lia. }
  destruct (IH c) as [Hp|(r & Hr & Hrc & Hrr)]; [lia..|by exists c|].
  exists r. split; [done|]. split; [by apply Z.divide_trans with c|lia].
Qed.

(** ** Trial division *)

Fixpoint no_divisor (fuel : nat) (d n : Z) : bool :=
  if n <? d * d then true
  else match fuel with
       | O => false
       | S fuel => negb (n mod d =? 0) && no_divisor fuel (d + 1) n
       end.

Lemma no_divisor_spec fuel : forall d n, 0 < d -> no_divisor fuel d n = true ->
  forall r, d <= r -> r * r <= n -> ~ (r | n).
Proof.
  induction fuel as [|fuel IH]; intros d n Hd Hn r Hr Hrr; cbn [no_divisor] in Hn;
    destruct (Z.ltb_spec n (d * d)); [nia|done|nia|].
  apply andb_prop in Hn as [Hm Hn]. destruct (Z.eq_dec r d) as [->|].
  - intros Hdiv. rewrite Z.mod0_divide in Hm by done. done.
  - by apply (IH (d + 1) n ltac:(lia) Hn r); [lia|].
Qed.

Lemma trial_prime fuel n : (1 <? n) && no_divisor fuel 2 n = true -> Z.prime n.
Proof.
  intros [H1%Z.ltb_lt Hn]%andb_prop.
  destruct (small_prime_divisor n H1) as [Hp|(r & Hr & Hrn & Hrr)]; [done|].
  apply Z.prime_ge_2 in Hr. by edestruct no_divisor_spec; [|exact Hn|exact Hr|exact Hrr|exact Hrn].
Qed.

(** ** Pocklington's criterion *)

Section Pocklington.
Context (n a : Z) (Hn : 1 < n) (Hfermat : a ^ (n - 1) mod n = 1).

(** A prime factor [q] of [n - 1] divides [r - 1] for each prime divisor [r] of [n]. *)
Lemma factor_divides r q : Z.prime r -> (r | n) -> Z.prime q -> (q | n - 1) ->
  Z.gcd (a ^ ((n - 1) / q) - 1) n = 1 -> (q | r - 1).
Proof.
  intros Hr Hrn Hq [m Hm] Hgcd. pose proof (Z.prime_ge_2 r Hr). pose proof (Z.prime_ge_2 q Hq).
  rewrite Hm, Z.div_mul in Hgcd by lia. set (b := a ^ m) in *.
  assert (0 <= m) by nia.
  assert (Hbq : b ^ q mod r = 1).
  { unfold b. rewrite <- Z.pow_mul_r by lia. rewrite <- Hm.
    destruct Hrn as [c Hc]. rewrite (Z.div_mod (a ^ (n - 1)) n), Hfermat, Hc by lia.
    replace (c * r * (a ^ (c * r - 1) / (c * r)) + 1) with (1 + c * (a ^ (c * r - 1) / (c * r)) * r) by ring.
    rewrite Z_mod_plus_full. apply Z.mod_small. lia. }
  destruct (Z.BoolSpec_divide q (r - 1)) as [Hd|Hd]; [done|exfalso].
  apply Z.coprime_prime_l, Z.Bezout_coprime in Hd as (u & v & Huv); [|done].
  assert (Hb0 : b mod r <> 0).
  { intros Hz. rewrite <- (Z.mod_pow_l b), Hz, Z.pow_0_l, Z.mod_0_l in Hbq by lia. lia. }
  pose proof (ZmodInv.Z.fermat_nz r b Hr Hb0) as Hf.
  set (s := u mod (r - 1) + (r - 1)). set (t := (s * q - 1) / (r - 1)).
  assert (Hs : s * q = 1 + t * (r - 1)).
  { assert (Hmod : (s * q - 1) mod (r - 1) = 0).
    { apply Z.mod0_divide. exists (- v + q - u / (r - 1) * q).
      unfold s. rewrite Z.mod_eq by lia. lia. }
    unfold t. apply Z.div_exact in Hmod; lia. }
  assert (Hs0 : 0 < s) by (unfold s; pose proof (Z.mod_pos_bound u (r - 1)); lia).
  assert (Ht0 : 0 <= t) by nia.
  assert (Hb1 : b mod r = 1).
  { transitivity (b ^ (s * q) mod r).
    - rewrite Hs, Z.pow_add_r, Z.pow_1_r, (Z.mul_comm t), Z.pow_mul_r by nia.
      rewrite <- Z.mul_mod_idemp_r, <- Z.mod_pow_l, Hf, Z.pow_1_l, Z.mul_mod_idemp_r, Z.mul_1_r by lia. done.
    - rewrite (Z.mul_comm s), Z.pow_mul_r, <- Z.mod_pow_l, Hbq, Z.pow_1_l by lia. apply Z.mod_small. lia. }
  assert (Hdiv : (r | b - 1)).
  { exists (b / r). rewrite (Z.div_mod b r), Hb1 at 1 by lia. ring. }
  pose proof (Z.gcd_greatest _ _ _ Hdiv Hrn) as Hg. rewrite Hgcd in Hg. apply Z.divide_1_r_nonneg in Hg; lia.
Qed.

Definition factor_ok (q : Z) : Prop :=
  Z.prime q /\ (q | n - 1) /\ Z.gcd (a ^ ((n - 1) / q) - 1) n = 1.

(** The product of distinct factors divides [r - 1] as well. *)
Lemma factors_divide r qs : Z.prime r -> (r | n) -> Forall factor_ok qs -> NoDup qs ->
  (foldr Z.mul 1 qs | r - 1).
Proof.
  intros Hr Hrn Hqs Hnd. induction Hqs as [|q qs [Hq [Hdiv Hg]] Hqs IH]; cbn [foldr]; [apply Z.divide_1_l|].
  apply list.NoDup_cons in Hnd as [Hni Hnd]. specialize (IH Hnd).
  pose proof (factor_divides r q Hr Hrn Hq Hdiv Hg) as [c Hc].
  assert (Hcop : Z.coprime q (foldr Z.mul 1 qs)).
  { apply Z.coprime_prime_l; [done|]. clear - Hq Hqs Hni.
    induction Hqs as [|x l [Hx _] Hl IH]; cbn [foldr].
    - intros Hd%Z.divide_1_r_nonneg; pose proof (Z.prime_ge_2 q Hq); lia.
    - rewrite Z.divide_prime_mul by done. apply not_elem_of_cons in Hni as [Hne Hni].
      intros [Hd|Hd]; [by apply Z.divide_prime_prime in Hd|by apply IH]. }
  rewrite Hc in IH |- *. rewrite Z.mul_comm in IH. apply Z.gauss in IH as [e ->].
  - exists e. ring.
  - symmetry in Hcop. exact Hcop.
Qed.

Lemma pocklington qs : Forall factor_ok qs -> NoDup qs ->
  (n <? foldr Z.mul 1 qs * foldr Z.mul 1 qs) && (0 <? foldr Z.mul 1 qs) = true -> Z.prime n.
Proof.
  intros Hqs Hnd [Hb%Z.ltb_lt H0%Z.ltb_lt]%andb_prop.
  destruct (small_prime_divisor n Hn) as [Hp|(r & Hr & Hrn & Hrr)]; [done|].
  pose proof (factors_divide r qs Hr Hrn Hqs Hnd) as Hd. pose proof (Z.prime_ge_2 r Hr).
  apply Z.divide_pos_le in Hd; [nia|lia].
Qed.
End Pocklington.

(** The conditions by computation. *)
Definition fermat_check (n a : Z) : bool := (1 <? n) && (Zpow_mod a (n - 1) n =? 1).
Definition factor_check (n a q : Z) : bool :=
  ((n - 1) mod q =? 0) && (Z.gcd (Zpow_mod a ((n - 1) / q) n - 1) n =? 1).

Lemma factor_check_ok n a q : 1 < n -> Z.prime q -> factor_check n a q = true -> factor_ok n a q.
Proof.
  intros Hn Hq [Hd%Z.eqb_eq Hg%Z.eqb_eq]%andb_prop. split; [done|]. split.
  - apply Z.mod_divide; [|done]. pose proof (Z.prime_ge_2 q Hq). lia.
  - rewrite Zpow_mod_correct in Hg by lia.
    rewrite <- Z.gcd_mod_l, <- Zminus_mod_idemp_l, Z.gcd_mod_l. exact Hg.
Qed.

Lemma certified n a qs : fermat_check n a && forallb (factor_check n a) qs = true ->
  Forall Z.prime qs -> NoDup qs ->
  (n <? foldr Z.mul 1 qs * foldr Z.mul 1 qs) && (0 <? foldr Z.mul 1 qs) = true -> Z.prime n.
Proof.
  intros [[Hn%Z.ltb_lt Hf%Z.eqb_eq]%andb_prop Hc]%andb_prop Hp Hnd Hb.
  rewrite Zpow_mod_correct in Hf by lia.
  apply (pocklington n a Hn Hf qs); [|done|done].
  rewrite forallb_forall in Hc. rewrite List.Forall_forall in Hp |- *. intros q Hq.
  apply factor_check_ok; [done|by apply Hp|by apply Hc].
Qed.

(** ** The certificate *)

Definition prime128 : Z := 255515944373312847190720520512484175977.
Definition prime237 : Z := 205115282021455665897114700593932402728804164701536103180137503955397371.

(** The factors at the bottom of the certificate, by trial division. *)
Lemma small_certified n a qs :
  fermat_check n a && forallb (factor_check n a) qs && forallb (fun q => (1 <? q) && no_divisor 1100 2 q) qs
    && bool_decide (NoDup qs) && ((n <? foldr Z.mul 1 qs * foldr Z.mul 1 qs) && (0 <? foldr Z.mul 1 qs)) = true ->
  Z.prime n.
Proof.
  intros [[[Hc Ht]%andb_prop Hn]%andb_prop Hb]%andb_prop. apply (certified n a qs); [done| | |done].
  - rewrite forallb_forall in Ht. apply List.Forall_forall. intros q Hq. by apply (trial_prime 1100), Ht.
  - by apply bool_decide_eq_true in Hn.
Qed.

Lemma prime128_factors : Forall Z.prime [107590001; 7240687; 96557].
Proof.
  repeat apply List.Forall_cons.
  - apply (small_certified _ 2 [53; 29; 7]). vm_compute. reflexivity.
  - apply (small_certified _ 2 [1206781]). vm_compute. reflexivity.
  - apply (small_certified _ 2 [239; 101]). vm_compute. reflexivity.
  - apply List.Forall_nil.
Qed.

Lemma prime128_prime : Z.prime prime128.
Proof.
  apply (certified _ 2 [107590001; 7240687; 96557]);
    [vm_compute; reflexivity|apply prime128_factors| |reflexivity].
  apply (bool_decide_unpack _). vm_compute. exact I.
Qed.

Lemma prime237_prime : Z.prime prime237.
Proof.
  apply (certified _ 2 [prime128]); [vm_compute; reflexivity| | |reflexivity].
  - apply Forall_singleton, prime128_prime.
  - apply NoDup_singleton.
Qed.

Lemma curveP_prime : Z.prime curveP.
Proof.
  apply (certified _ 2 [prime237]); [vm_compute; reflexivity| | |reflexivity].
  - apply Forall_singleton, prime237_prime.
  - apply NoDup_singleton.
Qed.
