(* ===== verification/Secp256k1.v ===== *)
(** * btcec/btcec.go: points of secp256k1 in Jacobian coordinates

    A point (x, y) is kept as (x1, y1, z1) with x = x1/z1^2 and y = y1/z1^3.  The
    routines of the source write their result through pointers that may alias
    the first operand; each reads its operands before it writes, so they are
    functions here.  They also normalize operands in place, which [addJacobian]
    returns for the second operand, the one that [ScalarMult] uses again. *)
From S2P Require Import Prelude Chainhash Signature Field.
Import ListNotations Field.

Module Secp256k1.

Record jacobian := mkJ { jx : fieldVal; jy : fieldVal; jz : fieldVal }.

Definition infinity : jacobian := mkJ (SetInt 0) (SetInt 0) (SetInt 0).

(** ** Conversions *)

Definition bigAffineToField (x y : Z) : result hash_error (fieldVal * fieldVal) :=
  let* x3 := SetByteSlice (big_Bytes x) in
  let* y3 := SetByteSlice (big_Bytes y) in
  Ok (x3, y3).

Definition fieldJacobianToBigAffine (p : jacobian) : Z * Z :=
  let zInv := Inverse (jz p) in
  let tempZ := SquareVal zInv in
  let x := Mul (jx p) tempZ in
  let tempZ := Mul tempZ zInv in
  let y := Mul (jy p) tempZ in
  let x := Normalize x in
  let y := Normalize y in
  (be_value (PutBytes x), be_value (PutBytes y)).

(** The curve equation on field values. *)
Definition IsOnCurve (x y : Z) : result hash_error bool :=
  let* (fx, fy) := bigAffineToField x y in
  let y2 := Normalize (SquareVal fy) in
  let result := Normalize (AddInt (Mul (SquareVal fx) fx) 7) in
  Ok (Equals y2 result).

(** ** Doubling *)

(** The part that [doubleZ1EqualsOne] and [doubleGeneric] share; [z3] differs. *)
Definition double_xy (x1 y1 z3 : fieldVal) : jacobian :=
  let a := SquareVal x1 in
  let b := SquareVal y1 in
  let c := SquareVal b in
  let b := Square (Add b x1) in
  let d := Negate (Add a c) 2 in
  let d := MulInt (Add d b) 2 in
  let e := MulInt a 3 in
  let f := SquareVal e in
  let x3 := Negate (MulInt d 2) 16 in
  let x3 := Add x3 f in
  let f := Normalize (Add (Negate x3 18) d) in
  let y3 := Negate (MulInt c 8) 8 in
  let y3 := Add y3 (Mul f e) in
  mkJ (Normalize x3) (Normalize y3) (Normalize z3).

Definition doubleZ1EqualsOne (x1 y1 : fieldVal) : jacobian :=
  let z3 := MulInt y1 2 in double_xy x1 y1 z3.

Definition doubleGeneric (x1 y1 z1 : fieldVal) : jacobian :=
  let z3 := MulInt (Mul2 y1 z1) 2 in double_xy x1 y1 z3.

Definition doubleJacobian (p : jacobian) : jacobian :=
  if IsZero (jy p) || IsZero (jz p) then infinity
  else
    let z1 := Normalize (jz p) in
    if Equals z1 fieldOne then doubleZ1EqualsOne (jx p) (jy p)
    else doubleGeneric (jx p) (jy p) z1.

(** ** Addition *)

Definition addZ1AndZ2EqualsOne (x1 y1 z1 x2 y2 : fieldVal) : jacobian :=
  let x1 := Normalize x1 in
  let y1 := Normalize y1 in
  let x2 := Normalize x2 in
  let y2 := Normalize y2 in
  if Equals x1 x2 then
    if Equals y1 y2 then doubleJacobian (mkJ x1 y1 z1) else infinity
  else
    let h := Add (Negate x1 1) x2 in
    let i := MulInt (SquareVal h) 4 in
    let j := Mul2 h i in
    let r := MulInt (Add (Negate y1 1) y2) 2 in
    let v := Mul2 x1 i in
    let negJ := Negate j 1 in
    let neg2V := Negate (MulInt v 2) 2 in
    let x3 := Add (Add (Square r) negJ) neg2V in
    let negX3 := Negate x3 6 in
    let j := Negate (MulInt (Mul j y1) 2) 2 in
    let y3 := Add (Mul (Add v negX3) r) j in
    let z3 := MulInt h 2 in
    mkJ (Normalize x3) (Normalize y3) (Normalize z3).

Definition addZ1EqualsZ2 (x1 y1 z1 x2 y2 : fieldVal) : jacobian :=
  let x1 := Normalize x1 in
  let y1 := Normalize y1 in
  let x2 := Normalize x2 in
  let y2 := Normalize y2 in
  if Equals x1 x2 then
    if Equals y1 y2 then doubleJacobian (mkJ x1 y1 z1) else infinity
  else
    let negX1 := Negate x1 1 in
    let negY1 := Negate y1 1 in
    let a := Add negX1 x2 in
    let b := SquareVal a in
    let c := Add negY1 y2 in
    let d := SquareVal c in
    let e := Mul2 x1 b in
    let negE := Negate e 1 in
    let f := Mul2 x2 b in
    let x3 := Add (Negate (Add2 e f) 3) d in
    let negX3 := Normalize (Negate x3 5) in
    let y3 := Negate (Mul y1 (Add f negE)) 3 in
    let y3 := Add y3 (Mul (Add e negX3) c) in
    let z3 := Mul2 z1 a in
    mkJ (Normalize x3) (Normalize y3) z3.

Definition addZ2EqualsOne (x1 y1 z1 x2 y2 : fieldVal) : jacobian :=
  let x1 := Normalize x1 in
  let y1 := Normalize y1 in
  let z1z1 := SquareVal z1 in
  let u2 := Normalize (Mul x2 z1z1) in
  let s2 := Normalize (Mul (Mul y2 z1z1) z1) in
  if Equals x1 u2 then
    if Equals y1 s2 then doubleJacobian (mkJ x1 y1 z1) else infinity
  else
    let negX1 := Negate x1 1 in
    let h := Add2 u2 negX1 in
    let hh := SquareVal h in
    let i := MulInt hh 4 in
    let j := Mul2 h i in
    let negY1 := Negate y1 1 in
    let r := MulInt (Add s2 negY1) 2 in
    let rr := SquareVal r in
    let v := Mul2 x1 i in
    let x3 := Negate (Add (MulInt v 2) j) 3 in
    let x3 := Add x3 rr in
    let negX3 := Negate x3 5 in
    let y3 := Negate (MulInt (Mul y1 j) 2) 2 in
    let y3 := Add y3 (Mul (Add v negX3) r) in
    let z3 := Square (Add2 z1 h) in
    let z3 := Add z3 (Negate (Add z1z1 hh) 2) in
    mkJ (Normalize x3) (Normalize y3) (Normalize z3).

Definition addGeneric (x1 y1 z1 x2 y2 z2 : fieldVal) : jacobian :=
  let z1z1 := SquareVal z1 in
  let z2z2 := SquareVal z2 in
  let u1 := Normalize (Mul x1 z2z2) in
  let u2 := Normalize (Mul x2 z1z1) in
  let s1 := Normalize (Mul (Mul y1 z2z2) z2) in
  let s2 := Normalize (Mul (Mul y2 z1z1) z1) in
  if Equals u1 u2 then
    if Equals s1 s2 then doubleJacobian (mkJ x1 y1 z1) else infinity
  else
    let negU1 := Negate u1 1 in
    let h := Add2 u2 negU1 in
    let i := Square (MulInt h 2) in
    let j := Mul2 h i in
    let negS1 := Negate s1 1 in
    let r := MulInt (Add s2 negS1) 2 in
    let rr := SquareVal r in
    let v := Mul2 u1 i in
    let x3 := Negate (Add (MulInt v 2) j) 3 in
    let x3 := Add x3 rr in
    let negX3 := Negate x3 5 in
    let y3 := Negate (MulInt (Mul2 s1 j) 2) 2 in
    let y3 := Add y3 (Mul (Add v negX3) r) in
    let z3 := Square (Add2 z1 z2) in
    let z3 := Add z3 (Negate (Add z1z1 z2z2) 2) in
    let z3 := Mul z3 h in
    mkJ (Normalize x3) (Normalize y3) z3.

(** The second operand as the call leaves it, and the sum. *)
Definition addJacobian (p1 p2 : jacobian) : jacobian * jacobian :=
  if IsZero (jx p1) && IsZero (jy p1) || IsZero (jz p1) then (p2, p2)
  else if IsZero (jx p2) && IsZero (jy p2) || IsZero (jz p2) then (p2, p1)
  else
    let z1 := Normalize (jz p1) in
    let z2 := Normalize (jz p2) in
    let isZ1One := Equals z1 fieldOne in
    let isZ2One := Equals z2 fieldOne in
    if isZ1One && isZ2One then
      (mkJ (Normalize (jx p2)) (Normalize (jy p2)) z2,
       addZ1AndZ2EqualsOne (jx p1) (jy p1) z1 (jx p2) (jy p2))
    else if Equals z1 z2 then
      (mkJ (Normalize (jx p2)) (Normalize (jy p2)) z2,
       addZ1EqualsZ2 (jx p1) (jy p1) z1 (jx p2) (jy p2))
    else if isZ2One then
      (mkJ (jx p2) (jy p2) z2, addZ2EqualsOne (jx p1) (jy p1) z1 (jx p2) (jy p2))
    else (mkJ (jx p2) (jy p2) z2, addGeneric (jx p1) (jy p1) z1 (jx p2) (jy p2) z2).

(** ** The methods of elliptic.Curve *)

Definition curve_Add (x1 y1 x2 y2 : Z) : result hash_error (Z * Z) :=
  if (x1 =? 0) && (y1 =? 0) then Ok (x2, y2)
  else if (x2 =? 0) && (y2 =? 0) then Ok (x1, y1)
  else
    let* (fx1, fy1) := bigAffineToField x1 y1 in
    let* (fx2, fy2) := bigAffineToField x2 y2 in
    let fOne := SetInt 1 in
    let (_, p3) := addJacobian (mkJ fx1 fy1 fOne) (mkJ fx2 fy2 fOne) in
    Ok (fieldJacobianToBigAffine p3).

Definition curve_Double (x1 y1 : Z) : result hash_error (Z * Z) :=
  if y1 =? 0 then Ok (0, 0)
  else
    let* (fx1, fy1) := bigAffineToField x1 y1 in
    Ok (fieldJacobianToBigAffine (doubleJacobian (mkJ fx1 fy1 (SetInt 1)))).

(** ** Scalars *)

Definition lambda : Z := 0x5363AD4CC05C30E0A5261C028812645A122E22EA20816678DF02967C1B23BD72.
Definition beta : Z := 0x7AE96A2B657C07106E64479EAC3434E99CF0497512F58995C1396C28719501EE.
(** The curve keeps it as a field value, by [SetHex]. *)
Definition betaField : fieldVal := SetBytes (generate32Bytes beta).
Definition curve_a1 : Z := 0x3086D221A7D46BCDE86C90E49284EB15.
Definition curve_b1 : Z := - 0xE4437ED6010E88286F547FA90ABFE4C3.
Definition curve_a2 : Z := 0x114CA50F7A8E2F3F657C1108D9D44CFD8.
Definition curve_b2 : Z := 0x3086D221A7D46BCDE86C90E49284EB15.
Definition byteSize : Z := 256 / 8.

(** [Div] of a big.Int by a positive number rounds down; [Bytes] drops the sign. *)
Definition splitK (k : list byte) : list byte * list byte * Z * Z :=
  let bigIntK := be_value k in
  let c1 := curve_b2 * bigIntK in
  let c1 := c1 / curveN in
  let c2 := curve_b1 * bigIntK in
  let c2 := c2 / curveN in
  let tmp1 := c1 * curve_a1 in
  let tmp2 := c2 * curve_a2 in
  let k1 := bigIntK - tmp1 in
  let k1 := k1 + tmp2 in
  let tmp1 := c1 * curve_b1 in
  let tmp2 := c2 * curve_b2 in
  let k2 := tmp2 - tmp1 in
  (big_Bytes (Z.abs k1), big_Bytes (Z.abs k2), Z.sgn k1, Z.sgn k2).

Definition moduloReduce (k : list byte) : list byte :=
  if byteSize <? Z.of_nat (length k) then big_Bytes (be_value k mod curveN) else k.

(** The eight iterations over one byte: [above] is the lowest bit of the byte
    before it; [pos] and [neg] are the bytes of the results at this place. *)
Fixpoint naf_bits (n : nat) (j curByte : Z) (above carry : bool) (pos neg : Z) : bool * Z * Z :=
  match n with
  | O => (carry, pos, neg)
  | S n =>
      let curIsOne := Z.land curByte 1 =? 1 in
      let nextIsOne := if j =? 7 then above else Z.land curByte 2 =? 2 in
      let '(carry, pos, neg) :=
        if carry then
          if curIsOne then (carry, pos, neg)
          else if nextIsOne then (carry, pos, u8 (neg + Z.shiftl 1 j))
          else (false, u8 (pos + Z.shiftl 1 j), neg)
        else if curIsOne then
          if nextIsOne then (true, pos, u8 (neg + Z.shiftl 1 j))
          else (carry, u8 (pos + Z.shiftl 1 j), neg)
        else (carry, pos, neg) in
      naf_bits n (j + 1) (Z.shiftr curByte 1) above carry pos neg
  end.

(** From the last byte to the first; [k] is reversed. *)
Fixpoint naf_bytes (k : list byte) (carry : bool) (retPos retNeg : list byte)
    : bool * list byte * list byte :=
  match k with
  | [] => (carry, retPos, retNeg)
  | b :: k' =>
      let above := match k' with [] => false | b' :: _ => Z.land b' 1 =? 1 end in
      let '(carry, pos, neg) := naf_bits 8 0 b above carry 0 0 in
      naf_bytes k' carry (byte_of_Z pos :: retPos) (byte_of_Z neg :: retNeg)
  end.

Definition NAF (k : list byte) : list byte * list byte :=
  let '(carry, retPos, retNeg) := naf_bytes (reverse k) false [] [] in
  if carry then (x01 :: retPos, x00 :: retNeg) else (retPos, retNeg).

(** ** Scalar multiplication *)

(** A point that is added or subtracted: its y coordinate with both signs. *)
Record operand := mkOp { ox : fieldVal; oy : fieldVal; oyNeg : fieldVal; oz : fieldVal }.

Definition add_digit (q : jacobian) (o : operand) (pos neg : bool) : jacobian * operand :=
  if pos then
    let (p, q) := addJacobian q (mkJ (ox o) (oy o) (oz o)) in
    (q, mkOp (jx p) (jy p) (oyNeg o) (jz p))
  else if neg then
    let (p, q) := addJacobian q (mkJ (ox o) (oyNeg o) (oz o)) in
    (q, mkOp (jx p) (oy o) (jy p) (jz p))
  else (q, o).

Definition top_bit (b : Z) : bool := Z.land b 0x80 =? 0x80.

(** The inner loop, from bit 7 to bit 0 of the four current bytes. *)
Fixpoint mult_bits (n : nat) (q : jacobian) (o1 o2 : operand)
    (k1BytePos k1ByteNeg k2BytePos k2ByteNeg : Z) : jacobian * operand * operand :=
  match n with
  | O => (q, o1, o2)
  | S n =>
      let q := doubleJacobian q in
      let (q, o1) := add_digit q o1 (top_bit k1BytePos) (top_bit k1ByteNeg) in
      let (q, o2) := add_digit q o2 (top_bit k2BytePos) (top_bit k2ByteNeg) in
      mult_bits n q o1 o2 (u8 (Z.shiftl k1BytePos 1)) (u8 (Z.shiftl k1ByteNeg 1))
        (u8 (Z.shiftl k2BytePos 1)) (u8 (Z.shiftl k2ByteNeg 1))
  end.

(** The outer loop; the slices have been padded in front to the same length. *)
Fixpoint mult_bytes (q : jacobian) (o1 o2 : operand) (p1 n1 p2 n2 : list byte) : jacobian :=
  match p1, n1, p2, n2 with
  | b1 :: p1, c1 :: n1, b2 :: p2, c2 :: n2 =>
      let '(q, o1, o2) := mult_bits 8 q o1 o2 b1 c1 b2 c2 in
      mult_bytes q o1 o2 p1 n1 p2 n2
  | _, _, _, _ => q
  end.

Definition pad_front (m : nat) (k : list byte) : list byte := replicate (m - length k) x00 ++ k.

Definition ScalarMult (Bx By : Z) (k : list byte) : result hash_error (Z * Z) :=
  let q := infinity in
  let '(k1, k2, signK1, signK2) := splitK (moduloReduce k) in
  let* (p1x, p1y) := bigAffineToField Bx By in
  let p1yNeg := NegateVal p1y 1 in
  let p1z := SetInt 1 in
  let p2x := Mul2 p1x betaField in
  let p2y := p1y in
  let p2yNeg := NegateVal p2y 1 in
  let p2z := SetInt 1 in
  let (p1y, p1yNeg) := if signK1 =? -1 then (p1yNeg, p1y) else (p1y, p1yNeg) in
  let (p2y, p2yNeg) := if signK2 =? -1 then (p2yNeg, p2y) else (p2y, p2yNeg) in
  let (k1PosNAF, k1NegNAF) := NAF k1 in
  let (k2PosNAF, k2NegNAF) := NAF k2 in
  let m := Nat.max (length k1PosNAF) (length k2PosNAF) in
  let q := mult_bytes q (mkOp p1x p1y p1yNeg p1z) (mkOp p2x p2y p2yNeg p2z)
    (pad_front m k1PosNAF) (pad_front m k1NegNAF) (pad_front m k2PosNAF) (pad_front m k2NegNAF) in
  Ok (fieldJacobianToBigAffine q).

(** [bytePoints] is the table of multiples of the generator that
    precompute.go decompresses. *)
Fixpoint base_mult (bytePoints : nat -> byte -> jacobian) (i : nat) (k : list byte) (q : jacobian)
    : jacobian :=
  match k with
  | [] => q
  | b :: k => base_mult bytePoints (S i) k (addJacobian q (bytePoints i b)).2
  end.

Definition ScalarBaseMult (bytePoints : nat -> byte -> jacobian) (k : list byte) : Z * Z :=
  let newK := moduloReduce k in
  let diff := (32 - length newK)%nat in
  fieldJacobianToBigAffine (base_mult bytePoints diff newK infinity).

End Secp256k1.
