(* ===== verification/CurveSpec.v ===== *)
(** * The group law of secp256k1

    The textbook addition of affine points, and the proof that the Jacobian
    routines of btcec.go compute it.  The magnitudes that their comments claim
    are checked on the way: every multiplication gets operands of magnitude at
    most 8 and every normalization at most 63. *)
From S2P Require Import Prelude Chainhash Signature Field FieldSpec Primes Secp256k1.
From Stdlib Require Import Zdivisibility Zpow_facts Setoid Morphisms.
From Stdlib Require Zmod.ZmodInv.
Import ListNotations Field Secp256k1.

#[local] Opaque Mul2 SquareVal Normalize Add2 NegateVal MulInt AddInt Inverse.

(** ** The field *)

Lemma eqP_0 a : a ==p 0 <-> (curveP | a).
Proof.
  split; [intros [H]|intros H; constructor].
  - by apply Z.mod_divide.
  - by apply Z.mod_divide in H.
Qed.

Lemma eqP_sub_0 a b : a - b ==p 0 <-> a ==p b.
Proof.
  split; intros H.
  - rewrite <- (Z.sub_add b a), H. done.
  - rewrite H. by rewrite Z.sub_diag.
Qed.

Lemma eqP_mul_0 a b : a * b ==p 0 <-> a ==p 0 \/ b ==p 0.
Proof. rewrite !eqP_0. apply Z.divide_prime_mul, curveP_prime. Qed.

Lemma eqP_cancel c a b : ~ c ==p 0 -> c * a ==p c * b <-> a ==p b.
Proof.
  intros Hc. split; [|intros ->; done]. rewrite <- (eqP_sub_0 (c * a)), <- (eqP_sub_0 a).
  rewrite <- Z.mul_sub_distr_l, eqP_mul_0. tauto.
Qed.

(** The inverse by Fermat's little theorem, as [Inverse] computes it. *)
Definition finv (a : Z) : Z := Zpow_mod a (curveP - 2) curveP.

Lemma finv_pow a : a ^ (curveP - 2) ==p finv a.
Proof. unfold finv. rewrite Zpow_mod_correct by done. symmetry. apply eqP_modulo. Qed.

Lemma finv_spec a : ~ a ==p 0 -> a * finv a ==p 1.
Proof.
  intros Ha. rewrite <- finv_pow, <- Z.pow_succ_r by done.
  change (Z.succ (curveP - 2)) with (curveP - 1). constructor.
  rewrite ZmodInv.Z.fermat_nz; [done|apply curveP_prime|].
  intros H. apply Ha. constructor. by rewrite H.
Qed.

Lemma finv_0 a : a ==p 0 -> finv a ==p 0.
Proof.
  intros Ha. rewrite <- finv_pow. change (curveP - 2) with (Z.succ (curveP - 3)).
  rewrite Z.pow_succ_r by done. apply eqP_mul_0. by left.
Qed.

#[global] Opaque finv.

Lemma two_nonzero : ~ 2 ==p 0.
Proof. intros [H]. discriminate H. Qed.

(** ** Affine points *)

Inductive point := Inf | Aff (x y : Z).

Definition finite (p : point) : bool := match p with Inf => false | Aff _ _ => true end.

Definition fmod (a : Z) : Z := a mod curveP.

(** The line through two points, or the tangent, meets the curve again in the
    negative of the sum. *)
Definition chord (l x1 y1 x2 : Z) : point :=
  let x3 := fmod (l * l - x1 - x2) in Aff x3 (fmod (l * (x1 - x3) - y1)).

Definition ec_add (p q : point) : point :=
  match p, q with
  | Inf, _ => q
  | _, Inf => p
  | Aff x1 y1, Aff x2 y2 =>
      if fmod x1 =? fmod x2 then
        if fmod (y1 + y2) =? 0 then Inf else chord (3 * x1 * x1 * finv (2 * y1)) x1 y1 x2
      else chord ((y2 - y1) * finv (x2 - x1)) x1 y1 x2
  end.

Definition on_curve (p : point) : Prop :=
  match p with Inf => True | Aff x y => y * y ==p x * x * x + curveB end.

Lemma fmod_eqb a b : (fmod a =? fmod b) = true <-> a ==p b.
Proof. unfold fmod. rewrite Z.eqb_eq. split; [by constructor|by intros []]. Qed.

(** ** What Jacobian coordinates represent *)

(** [repJ j k p]: [j] represents [p], with [y] of magnitude at most [k]. *)
Definition repJ (j : jacobian) (p : point) : Prop :=
  mag (jx j) 1 /\ mag (jy j) 2 /\ mag (jz j) 1 /\
  match p with
  | Inf => value (jz j) = 0
  | Aff x y => ~ value (jz j) ==p 0 /\
      value (jx j) ==p x * (value (jz j) * value (jz j)) /\
      value (jy j) ==p y * (value (jz j) * value (jz j) * value (jz j))
  end.

(** ** Symbolic execution of field programs *)

Lemma rep_negate_le a k m x : rep a k x -> k <= m -> 0 <= m <= 62 -> rep (NegateVal a m) (m + 1) (- x).
Proof. intros Ha Hk Hm. apply rep_negate; [by eapply rep_mono|done]. Qed.

Ltac rep_auto :=
  lazymatch goal with
  | H : rep ?f _ _ |- rep ?f _ _ => exact H
  | |- rep (Add ?a ?b) _ _ => unfold Add; rep_auto
  | |- rep (Add2 _ _) _ _ => eapply rep_add; [rep_auto|rep_auto|vm_compute; discriminate]
  | |- rep (Negate ?a ?m) _ _ => unfold Negate; rep_auto
  | |- rep (NegateVal _ _) _ _ =>
      eapply rep_negate_le; [rep_auto|vm_compute; discriminate|vm_compute; split; discriminate]
  | |- rep (MulInt _ _) _ _ =>
      eapply rep_mulint; [rep_auto|vm_compute; discriminate..]
  | |- rep (AddInt _ _) _ _ =>
      eapply rep_addint; [rep_auto|vm_compute; split; discriminate|vm_compute; split; discriminate]
  | |- rep (Mul ?a ?b) _ _ => unfold Mul; rep_auto
  | |- rep (Mul2 _ _) _ _ => eapply rep_mul; [rep_auto|rep_auto|vm_compute; discriminate..]
  | |- rep (Square _) _ _ => unfold Square; rep_auto
  | |- rep (SquareVal _) _ _ => eapply rep_square; [rep_auto|vm_compute; discriminate]
  | |- rep (Normalize _) _ _ => eapply rep_normalize; [rep_auto|vm_compute; discriminate]
  end.

Lemma let_rep {C} (P : C -> Prop) (k : fieldVal -> C) e m x :
  rep e m x -> (forall f, rep f m x -> P (k f)) -> P (k e).
Proof. auto. Qed.

Lemma let_normalize {C} (P : C -> Prop) (k : fieldVal -> C) e m x :
  rep e m x -> m <= 63 -> (forall f, rep f 1 x -> normalized f -> P (k f)) -> P (k (Normalize e)).
Proof.
  intros He Hm Hk. apply Hk; [by eapply rep_normalize|by eapply rep_normalized].
Qed.

Ltac rep_let :=
  lazymatch goal with
  | |- ?P (let x := Normalize ?e in @?k x) =>
      let f := fresh x in let H := fresh "R" in let N := fresh "N" in
      change (P (k (Normalize e))); eapply (let_normalize P k e); [rep_auto|vm_compute; discriminate|];
      intros f H N; cbv beta
  | |- ?P (let x := ?e in @?k x) =>
      let f := fresh x in let H := fresh "R" in
      change (P (k e)); eapply (let_rep P k e); [rep_auto|]; intros f H; cbv beta
  end.

(** [coords X Y W r]: what the coordinates of a result represent. *)
Definition coords (X Y W : Z) (r : jacobian) : Prop :=
  rep (jx r) 1 X /\ rep (jy r) 1 Y /\ rep (jz r) 1 W.

Lemma coords_eq X Y W W' r : coords X Y W r -> W ==p W' -> coords X Y W' r.
Proof. intros (Hx & Hy & Hz) He. split; [done|]. split; [done|]. by eapply rep_eq. Qed.

(** Close a field program: the polynomials agree. *)
Ltac coords_ring :=
  split; [|split]; cbn [jx jy jz];
  (eapply rep_eq; [eapply rep_mono; [rep_auto|vm_compute; discriminate]|apply (eqP_intro 0); ring]).

Lemma double_xy_spec x1 y1 z3 X Y Z3 :
  rep x1 1 X -> rep y1 2 Y -> rep z3 4 Z3 ->
  let X3 := 9 * X * X * X * X - 8 * X * Y * Y in
  coords X3 (3 * X * X * (4 * X * Y * Y - X3) - 8 * Y * Y * Y * Y) Z3 (double_xy x1 y1 z3).
Proof.
  intros Hx Hy Hz. cbv zeta. cbv beta delta [double_xy].
  repeat rep_let. coords_ring.
Qed.

Lemma eqP_by e c a b : e ==p 0 -> a - b = e * c -> a ==p b.
Proof. intros He Hab. apply eqP_sub_0. rewrite Hab. apply eqP_mul_0. by left. Qed.

Lemma eqP_ring a b : a = b -> a ==p b.
Proof. intros ->. done. Qed.

Lemma repJ_eq j x y x' y' : x ==p x' -> y ==p y' -> repJ j (Aff x y) -> repJ j (Aff x' y').
Proof.
  intros Hx Hy (Mx & My & Mz & Hz & Ex & Ey).
  split; [done|]. split; [done|]. split; [done|]. split; [done|]. split.
  - by rewrite Ex, Hx.
  - by rewrite Ey, Hy.
Qed.

(** The result of a routine represents the third point of a line of slope [l]. *)
Lemma coords_chord l x1 y1 x2 X Y W r : coords X Y W r -> ~ W ==p 0 ->
  X ==p (l * l - x1 - x2) * (W * W) ->
  Y ==p (l * (x1 - (l * l - x1 - x2)) - y1) * (W * W * W) ->
  repJ r (chord l x1 y1 x2).
Proof.
  intros ([Mx Ex] & [My Ey] & [Mz Ez]) HZ HX HY. unfold chord, fmod.
  apply (repJ_eq r (l * l - x1 - x2) (l * (x1 - (l * l - x1 - x2)) - y1)).
  - by rewrite eqP_modulo.
  - by rewrite !eqP_modulo.
  - split; [done|]. split; [by apply mag_mono with 1|]. split; [done|].
    rewrite Ez. split; [done|]. rewrite Ex, Ey. done.
Qed.

Lemma repJ_infinity : repJ infinity Inf.
Proof.
  unfold infinity. split; [|split; [|split]]; cbn [jx jy jz]; try done;
    (apply (mag_mono _ 1); [apply rep_int; by vm_compute|done]).
Qed.

(** The slope [e / d]. *)
Lemma slope_inverse e d i : d * i ==p 1 -> e - d * (e * i) ==p 0.
Proof.
  intros Hi. apply eqP_sub_0. symmetry. apply (eqP_by (d * i - 1) e); [|ring]. by apply eqP_sub_0.
Qed.

Lemma slope_spec e d : ~ d ==p 0 -> e - d * (e * finv d) ==p 0.
Proof. intros Hd. apply slope_inverse, finv_spec, Hd. Qed.

(** ** Doubling *)

Definition ec_double (p : point) : point :=
  match p with
  | Inf => Inf
  | Aff x y => if fmod (y + y) =? 0 then Inf else chord (3 * x * x * finv (2 * y)) x y x
  end.

Lemma double_chord r x y W l : ~ W ==p 0 -> ~ y ==p 0 -> 3 * x * x - 2 * y * l ==p 0 ->
  let X1 := x * (W * W) in let Y1 := y * (W * W * W) in
  let X3 := 9 * X1 * X1 * X1 * X1 - 8 * X1 * Y1 * Y1 in
  coords X3 (3 * X1 * X1 * (4 * X1 * Y1 * Y1 - X3) - 8 * Y1 * Y1 * Y1 * Y1) (2 * Y1 * W) r ->
  repJ r (chord l x y x).
Proof.
  intros HZ Hy Hl. cbv zeta. intros Hc. pose proof two_nonzero. eapply coords_chord; [exact Hc| | |].
  - rewrite !eqP_mul_0. tauto.
  - apply (eqP_by _ (W * W * W * W * W * W * W * W * (3 * x * x + 2 * y * l)) _ _ Hl). ring.
  - apply (eqP_by _ (W * W * W * W * W * W * W * W * W * W * W * W *
      (12 * x * y * y - (3 * x * x) * (3 * x * x) - (3 * x * x) * (2 * y * l)
       - (2 * y * l) * (2 * y * l))) _ _ Hl). ring.
Qed.

Lemma double_zero y : (fmod (y + y) =? 0) = true <-> y ==p 0.
Proof.
  change 0 with (fmod 0) at 1. rewrite fmod_eqb. replace (y + y) with (2 * y) by ring.
  rewrite eqP_mul_0. pose proof two_nonzero. tauto.
Qed.

Lemma double_group r x y W : ~ W ==p 0 -> normalized (jz r) ->
  let X1 := x * (W * W) in let Y1 := y * (W * W * W) in
  let X3 := 9 * X1 * X1 * X1 * X1 - 8 * X1 * Y1 * Y1 in
  coords X3 (3 * X1 * X1 * (4 * X1 * Y1 * Y1 - X3) - 8 * Y1 * Y1 * Y1 * Y1) (2 * Y1 * W) r ->
  repJ r (ec_double (Aff x y)).
Proof.
  intros HZ Hn. cbv zeta. intros Hc. unfold ec_double. pose proof (double_zero y) as Hyy.
  destruct (fmod (y + y) =? 0).
  - destruct Hc as ([Mx _] & [My _] & [Mz Ez]). split; [done|]. split; [by apply mag_mono with 1|].
    split; [done|]. apply (IsZero_spec _ 1 Mz), IsZero_normalized; [done|]. rewrite Ez.
    apply (eqP_by y (2 * (W * W * W * W))); [by apply Hyy|ring].
  - assert (Hy : ~ y ==p 0) by (intros H%Hyy; done).
    eapply double_chord; [exact HZ|exact Hy| |exact Hc].
    apply slope_spec. rewrite eqP_mul_0. pose proof two_nonzero. tauto.
Qed.

Lemma doubleJacobian_spec j p : repJ j p -> repJ (doubleJacobian j) (ec_double p).
Proof.
  intros (Mx & My & Mz & Hp). unfold doubleJacobian.
  destruct p as [|x y].
  { assert (Hz : IsZero (jz j) = true) by (by apply (IsZero_spec _ 1)).
    rewrite Hz, orb_true_r. apply repJ_infinity. }
  destruct Hp as (HZ & Ex & Ey).
  destruct (IsZero (jz j)) eqn:Hz.
  { exfalso. apply HZ. apply (IsZero_spec _ 1 Mz) in Hz. by rewrite Hz. }
  destruct (IsZero (jy j)) eqn:Hy; cbn [orb].
  { apply (IsZero_spec _ 2 My) in Hy. unfold ec_double.
    assert (Hy0 : y ==p 0).
    { rewrite Hy in Ey. symmetry in Ey. rewrite !eqP_mul_0 in Ey. tauto. }
    apply double_zero in Hy0. rewrite Hy0. apply repJ_infinity. }
  set (W := value (jz j)) in *.
  assert (Rz : rep (Normalize (jz j)) 1 W) by (by apply (rep_normalize (jz j) 1)).
  assert (Rx : rep (jx j) 1 (x * (W * W))) by done. assert (Ry : rep (jy j) 2 (y * (W * W * W))) by done.
  clearbody W. destruct (Equals _ _) eqn:He.
  - assert (HW : W ==p 1).
    { apply Equals_spec in He. rewrite He in Rz. destruct Rz as [_ <-]. by apply eqP_ring. }
    unfold doubleZ1EqualsOne. cbv zeta.
    apply (double_group _ x y W HZ); [by eapply rep_normalized; [rep_auto|]|].
    eapply coords_eq; [eapply (double_xy_spec _ _ _ _ _ _ Rx Ry)|].
    { eapply rep_mono; [rep_auto|done]. }
    apply (eqP_by (1 - W) (2 * y * (W * W * W))); [apply eqP_sub_0; by symmetry|ring].
  - unfold doubleGeneric. cbv zeta. apply (double_group _ x y W HZ).
    { by eapply rep_normalized; [rep_auto|]. }
    eapply coords_eq; [eapply (double_xy_spec _ _ _ _ _ _ Rx Ry)|].
    { eapply rep_mono; [rep_auto|done]. }
    apply eqP_ring. ring.
Qed.

(** ** Addition *)

Lemma add_chord r x1 y1 x2 y2 W l c : ~ W ==p 0 -> ~ x2 - x1 ==p 0 -> ~ c ==p 0 ->
  (y2 - y1) - (x2 - x1) * l ==p 0 ->
  let H := (x2 - x1) * (W * W) in let R := (y2 - y1) * (W * W * W) in
  let U1 := x1 * (W * W) in let S1 := y1 * (W * W * W) in
  let X3 := c * c * (R * R - H * H * H - 2 * U1 * H * H) in
  coords X3 (c * R * (c * c * U1 * H * H - X3) - c * c * c * S1 * H * H * H) (c * W * H) r ->
  repJ r (chord l x1 y1 x2).
Proof.
  intros HW Hd Hnc Hl. cbv zeta. intros Hc. eapply coords_chord; [exact Hc| | |].
  - rewrite !eqP_mul_0. tauto.
  - apply (eqP_by _ (c * c * (W * W * W * W * W * W) * ((y2 - y1) + (x2 - x1) * l)) _ _ Hl). ring.
  - apply (eqP_by _ (c * c * c * (W * W * W * W * W * W * W * W * W) *
      ((x2 - x1) * (x2 - x1) * (2 * x1 + x2) - ((y2 - y1) * (y2 - y1)
        + (y2 - y1) * ((x2 - x1) * l) + ((x2 - x1) * l) * ((x2 - x1) * l)))) _ _ Hl). ring.
Qed.

Lemma fmod_eq a b : a ==p b -> fmod a = fmod b.
Proof. by intros []. Qed.

Lemma chord_eq l x1 y1 x2 x2' : x2 ==p x2' -> chord l x1 y1 x2 = chord l x1 y1 x2'.
Proof.
  intros Hx. unfold chord.
  assert (He : fmod (l * l - x1 - x2) = fmod (l * l - x1 - x2')) by (apply fmod_eq; by rewrite Hx).
  by rewrite He.
Qed.

(** Points with the same abscissa are equal or opposite. *)
Lemma same_abscissa x1 y1 x2 y2 : on_curve (Aff x1 y1) -> on_curve (Aff x2 y2) -> x1 ==p x2 ->
  y1 ==p y2 \/ y1 + y2 ==p 0.
Proof.
  cbn [on_curve]. intros H1 H2 Hx.
  assert (Hp : (y1 - y2) * (y1 + y2) ==p 0).
  { replace ((y1 - y2) * (y1 + y2)) with (y1 * y1 - y2 * y2) by ring.
    apply eqP_sub_0. by rewrite H1, H2, Hx. }
  apply eqP_mul_0 in Hp as [Hp|Hp]; [left; by apply eqP_sub_0|by right].
Qed.

(** The case analysis of the addition routines. *)
Lemma add_branches (b1 b2 : bool) dbl sum x1 y1 x2 y2 :
  on_curve (Aff x1 y1) -> on_curve (Aff x2 y2) ->
  (b1 = true <-> x1 ==p x2) -> (b2 = true <-> y1 ==p y2) ->
  repJ dbl (ec_double (Aff x1 y1)) ->
  (~ x2 - x1 ==p 0 -> repJ sum (chord ((y2 - y1) * finv (x2 - x1)) x1 y1 x2)) ->
  repJ (if b1 then if b2 then dbl else infinity else sum) (ec_add (Aff x1 y1) (Aff x2 y2)).
Proof.
  intros Hc1 Hc2 Hb1 Hb2 Hd Hs. unfold ec_add.
  pose proof (fmod_eqb x1 x2) as Hx. destruct (fmod x1 =? fmod x2).
  - assert (Ex : x1 ==p x2) by (by apply Hx). rewrite (proj2 Hb1 Ex). destruct b2.
    + assert (Ey : y1 ==p y2) by (by apply Hb2). unfold ec_double in Hd.
      replace (fmod (y1 + y2)) with (fmod (y1 + y1)) by (apply fmod_eq; by rewrite Ey).
      destruct (fmod (y1 + y1) =? 0); [done|]. by rewrite (chord_eq _ _ _ x2 x1) by done.
    + assert (Ey : y1 + y2 ==p 0).
      { destruct (same_abscissa _ _ _ _ Hc1 Hc2 Ex) as [E%Hb2|E]; done. }
      change 0 with (fmod 0). rewrite (proj2 (fmod_eqb _ _) Ey). apply repJ_infinity.
  - assert (Ex : ~ x1 ==p x2) by (intros E%Hx; done).
    destruct b1; [by exfalso; apply Ex, Hb1|]. apply Hs. rewrite eqP_sub_0. intros E. by symmetry in E.
Qed.

(** Equality of scaled coordinates, as the routines test it. *)
Lemma Equals_scaled a b x y c X Y : normalized a -> normalized b -> rep a 1 X -> rep b 1 Y ->
  X = x * c -> Y = y * c -> ~ c ==p 0 -> Equals a b = true <-> x ==p y.
Proof.
  intros Na Nb [Ma Ea] [Mb Eb] -> -> Hc. rewrite <- (eqP_cancel c x y Hc), !(Z.mul_comm c), <- Ea, <- Eb.
  rewrite Equals_spec. split; [by intros ->|].
  destruct Na as [Ca Pa], Nb as [Cb Pb]. intros [H].
  pose proof (canonical_range a Ca). pose proof (canonical_range b Cb).
  rewrite !Z.mod_small in H by lia. by apply canonical_inj.
Qed.

(** [repJ] with the point first, for symbolic execution. *)
Definition denotes (p : point) (j : jacobian) : Prop := repJ j p.

Lemma repJ_intro j x y W : rep (jx j) 1 (x * (W * W)) -> rep (jy j) 2 (y * (W * W * W)) ->
  rep (jz j) 1 W -> ~ W ==p 0 -> repJ j (Aff x y).
Proof.
  intros [Mx Ex] [My Ey] [Mz Ez] HW. split; [done|]. split; [done|]. split; [done|].
  rewrite Ez. by split; [|split].
Qed.

Section Routines.
Context (x1 y1 x2 y2 W1 : Z) (fx1 fy1 fz1 fx2 fy2 : fieldVal).
Context (Hc1 : on_curve (Aff x1 y1)) (Hc2 : on_curve (Aff x2 y2)) (HW1 : ~ W1 ==p 0).
Context (Rx1 : rep fx1 1 (x1 * (W1 * W1))) (Ry1 : rep fy1 2 (y1 * (W1 * W1 * W1))) (Rz1 : rep fz1 1 W1).

(** Scale factors are products of nonzero numbers. *)
Ltac scale := first [ring | rewrite ?eqP_mul_0; tauto].

(** The formulas for different abscissas, over the common factor [W] and [c]. *)
Ltac sum_formula W c :=
  let Hd := fresh in
  intros Hd; eapply (add_chord _ x1 y1 x2 y2 W _ c);
  [scale|exact Hd|by intros []|by apply slope_spec|].

Lemma addGeneric_spec W2 fz2 :
  ~ W2 ==p 0 -> rep fx2 1 (x2 * (W2 * W2)) -> rep fy2 2 (y2 * (W2 * W2 * W2)) -> rep fz2 1 W2 ->
  repJ (addGeneric fx1 fy1 fz1 fx2 fy2 fz2) (ec_add (Aff x1 y1) (Aff x2 y2)).
Proof.
  intros HW2 Rx2 Ry2 Rz2.
  change (denotes (ec_add (Aff x1 y1) (Aff x2 y2)) (addGeneric fx1 fy1 fz1 fx2 fy2 fz2)).
  cbv beta delta [addGeneric]. do 6 rep_let. apply add_branches; [done|done| | | |].
  - apply (Equals_scaled _ _ _ _ (W1 * W1 * W2 * W2) _ _ N N0 R1 R2); scale.
  - apply (Equals_scaled _ _ _ _ (W1 * W1 * W1 * W2 * W2 * W2) _ _ N1 N2 R3 R4); scale.
  - apply doubleJacobian_spec, (repJ_intro _ x1 y1 W1); done.
  - sum_formula (W1 * W2) 2. repeat rep_let. coords_ring.
Qed.

(** The second point has z = 1. *)
Lemma addZ2EqualsOne_spec : rep fx2 1 x2 -> rep fy2 2 y2 ->
  repJ (addZ2EqualsOne fx1 fy1 fz1 fx2 fy2) (ec_add (Aff x1 y1) (Aff x2 y2)).
Proof.
  intros Rx2 Ry2.
  change (denotes (ec_add (Aff x1 y1) (Aff x2 y2)) (addZ2EqualsOne fx1 fy1 fz1 fx2 fy2)).
  cbv beta delta [addZ2EqualsOne]. do 5 rep_let. apply add_branches; [done|done| | | |].
  - apply (Equals_scaled _ _ _ _ (W1 * W1) _ _ N N1 R R2); scale.
  - apply (Equals_scaled _ _ _ _ (W1 * W1 * W1) _ _ N0 N2 R0 R3); scale.
  - apply doubleJacobian_spec, (repJ_intro _ x1 y1 W1); [done|by apply (rep_mono _ 1)|done|done].
  - sum_formula W1 2. repeat rep_let. coords_ring.
Qed.

(** Both points have the same z. *)
Context (Rx2 : rep fx2 1 (x2 * (W1 * W1))) (Ry2 : rep fy2 2 (y2 * (W1 * W1 * W1))).

Lemma addZ1EqualsZ2_spec :
  repJ (addZ1EqualsZ2 fx1 fy1 fz1 fx2 fy2) (ec_add (Aff x1 y1) (Aff x2 y2)).
Proof.
  change (denotes (ec_add (Aff x1 y1) (Aff x2 y2)) (addZ1EqualsZ2 fx1 fy1 fz1 fx2 fy2)).
  cbv beta delta [addZ1EqualsZ2]. do 4 rep_let. apply add_branches; [done|done| | | |].
  - apply (Equals_scaled _ _ _ _ (W1 * W1) _ _ N N1 R R1); scale.
  - apply (Equals_scaled _ _ _ _ (W1 * W1 * W1) _ _ N0 N2 R0 R2); scale.
  - apply doubleJacobian_spec, (repJ_intro _ x1 y1 W1); [done|by apply (rep_mono _ 1)|done|done].
  - sum_formula W1 1. repeat rep_let. coords_ring.
Qed.

Lemma addZ1AndZ2EqualsOne_spec : W1 ==p 1 ->
  repJ (addZ1AndZ2EqualsOne fx1 fy1 fz1 fx2 fy2) (ec_add (Aff x1 y1) (Aff x2 y2)).
Proof.
  intros H1.
  change (denotes (ec_add (Aff x1 y1) (Aff x2 y2)) (addZ1AndZ2EqualsOne fx1 fy1 fz1 fx2 fy2)).
  cbv beta delta [addZ1AndZ2EqualsOne]. do 4 rep_let. apply add_branches; [done|done| | | |].
  - apply (Equals_scaled _ _ _ _ (W1 * W1) _ _ N N1 R R1); scale.
  - apply (Equals_scaled _ _ _ _ (W1 * W1 * W1) _ _ N0 N2 R0 R2); scale.
  - apply doubleJacobian_spec, (repJ_intro _ x1 y1 W1); [done|by apply (rep_mono _ 1)|done|done].
  - sum_formula W1 2. eapply (coords_eq _ _ (2 * (x2 - x1) * (W1 * W1))); [repeat rep_let; coords_ring|].
    apply (eqP_by (1 - W1) (2 * (x2 - x1) * (W1 * W1))); [|ring]. apply eqP_sub_0. by symmetry.
Qed.
End Routines.

Lemma IsZero_false f k : mag f k -> ~ value f ==p 0 -> IsZero f = false.
Proof.
  intros Hm Hz. destruct (IsZero f) eqn:E; [|done]. exfalso. apply Hz.
  apply (IsZero_spec f k Hm) in E. by rewrite E.
Qed.

(** The origin is not on the curve, so that the test for infinity is right. *)
Lemma not_infinity j x y : repJ j (Aff x y) -> on_curve (Aff x y) ->
  IsZero (jx j) && IsZero (jy j) || IsZero (jz j) = false.
Proof.
  intros (Mx & My & Mz & HZ & Ex & Ey) Hc.
  rewrite (IsZero_false (jz j) 1) by done. rewrite orb_false_r. apply not_true_is_false.
  intros [Hx Hy]%andb_prop. apply (IsZero_spec _ 1 Mx) in Hx. apply (IsZero_spec _ 2 My) in Hy.
  rewrite Hx in Ex. rewrite Hy in Ey. symmetry in Ex, Ey. rewrite !eqP_mul_0 in Ex. rewrite !eqP_mul_0 in Ey.
  assert (x ==p 0) as Hx0 by tauto. assert (y ==p 0) as Hy0 by tauto.
  cbn [on_curve] in Hc. rewrite Hx0, Hy0 in Hc. destruct Hc as [Hc]. discriminate Hc.
Qed.

Lemma infinity_zero j : repJ j Inf -> IsZero (jx j) && IsZero (jy j) || IsZero (jz j) = true.
Proof.
  intros (_ & _ & Mz & Hz). apply (IsZero_spec _ 1 Mz) in Hz. rewrite Hz. apply orb_true_r.
Qed.

(** Normalizing coordinates in place does not change the point. *)
Lemma repJ_normalize j x y : repJ j (Aff x y) ->
  repJ (mkJ (jx j) (jy j) (Normalize (jz j))) (Aff x y) /\
  repJ (mkJ (Normalize (jx j)) (Normalize (jy j)) (Normalize (jz j))) (Aff x y).
Proof.
  intros (Mx & My & Mz & HZ & Ex & Ey). split; apply (repJ_intro _ _ _ (value (jz j)));
    cbn [jx jy jz]; try done.
  - by apply (rep_normalize (jz j) 1).
  - by apply (rep_normalize (jx j) 1).
  - apply (rep_mono _ 1); [|done]. by apply (rep_normalize (jy j) 2).
  - by apply (rep_normalize (jz j) 1).
Qed.

Lemma one_nonzero : ~ 1 ==p 0.
Proof. by intros []. Qed.

Lemma normalized_one f W : rep f 1 W -> normalized f -> Equals f fieldOne = true <-> W ==p 1.
Proof.
  intros Rf Nf.
  assert (N1 : normalized fieldOne) by (split; [vm_compute; repeat split; discriminate|done]).
  assert (R1 : rep fieldOne 1 1) by (by apply rep_int).
  apply (Equals_scaled f fieldOne W 1 1 W 1 Nf N1 Rf R1); [ring|ring|apply one_nonzero].
Qed.

Lemma addJacobian_spec j1 j2 p q : repJ j1 p -> repJ j2 q -> on_curve p -> on_curve q ->
  repJ (addJacobian j1 j2).1 q /\ repJ (addJacobian j1 j2).2 (ec_add p q).
Proof.
  intros H1 H2 Hp Hq. unfold addJacobian.
  destruct p as [|x1 y1]; [by rewrite infinity_zero|]. rewrite (not_infinity j1 x1 y1) by done.
  destruct q as [|x2 y2]; [by rewrite infinity_zero|]. rewrite (not_infinity j2 x2 y2) by done.
  pose proof (repJ_normalize j2 x2 y2 H2) as [H2z H2n].
  destruct H1 as (Mx1 & My1 & Mz1 & HW1 & Ex1 & Ey1), H2 as (Mx2 & My2 & Mz2 & HW2 & Ex2 & Ey2).
  set (W1 := value (jz j1)) in *. set (W2 := value (jz j2)) in *.
  assert (Rz1 : rep (Normalize (jz j1)) 1 W1) by (by apply (rep_normalize _ 1)).
  assert (Rz2 : rep (Normalize (jz j2)) 1 W2) by (by apply (rep_normalize _ 1)).
  assert (N1 : normalized (Normalize (jz j1))) by (by apply (rep_normalized _ 1 W1)).
  assert (N2 : normalized (Normalize (jz j2))) by (by apply (rep_normalized _ 1 W2)).
  pose proof (normalized_one _ _ Rz1 N1) as O1. pose proof (normalized_one _ _ Rz2 N2) as O2.
  assert (E12 : Equals (Normalize (jz j1)) (Normalize (jz j2)) = true <-> W1 ==p W2).
  { apply (Equals_scaled _ _ W1 W2 1 W1 W2 N1 N2 Rz1 Rz2); [ring|ring|apply one_nonzero]. }
  clearbody W1 W2.
  assert (Hsame : W1 ==p W2 -> rep (jx j2) 1 (x2 * (W1 * W1)) /\ rep (jy j2) 2 (y2 * (W1 * W1 * W1))).
  { intros E. split; (split; [done|]); by rewrite E. }
  assert (Rx1 : rep (jx j1) 1 (x1 * (W1 * W1))) by done.
  assert (Ry1 : rep (jy j1) 2 (y1 * (W1 * W1 * W1))) by done.
  destruct (Equals (Normalize (jz j1)) fieldOne) eqn:B1, (Equals (Normalize (jz j2)) fieldOne) eqn:B2;
    cbn [andb].
  - split; [done|]. assert (W1 ==p 1) by (by apply O1).
    assert (Hw : W1 ==p W2) by (transitivity 1; [done|symmetry; by apply O2]).
    destruct (Hsame Hw). by apply (addZ1AndZ2EqualsOne_spec _ _ _ _ W1).
  - destruct (Equals (Normalize (jz j1)) (Normalize (jz j2))) eqn:B3.
    + split; [done|]. destruct (Hsame ltac:(by apply E12)). by apply (addZ1EqualsZ2_spec _ _ _ _ W1).
    + split; [done|]. by apply (addGeneric_spec _ _ _ _ W1) with W2.
  - destruct (Equals (Normalize (jz j1)) (Normalize (jz j2))) eqn:B3.
    + split; [done|]. destruct (Hsame ltac:(by apply E12)). by apply (addZ1EqualsZ2_spec _ _ _ _ W1).
    + split; [done|]. assert (Hw : W2 ==p 1) by (by apply O2).
      apply (addZ2EqualsOne_spec _ _ _ _ W1); try done.
      * split; [done|]. rewrite Ex2, Hw. apply eqP_ring. ring.
      * split; [done|]. rewrite Ey2, Hw. apply eqP_ring. ring.
  - destruct (Equals (Normalize (jz j1)) (Normalize (jz j2))) eqn:B3.
    + split; [done|]. destruct (Hsame ltac:(by apply E12)). by apply (addZ1EqualsZ2_spec _ _ _ _ W1).
    + split; [done|]. by apply (addGeneric_spec _ _ _ _ W1) with W2.
Qed.

(** ** The group law stays on the curve *)

Lemma chord_on_curve l x1 y1 x2 : on_curve (Aff x1 y1) ->
  (let x3 := l * l - x1 - x2 in
   x3 * x3 * x3 + curveB - (l * (x3 - x1) + y1) * (l * (x3 - x1) + y1) ==p 0) ->
  on_curve (chord l x1 y1 x2).
Proof.
  cbv zeta. intros Hc Hf. unfold chord, fmod. cbn [on_curve]. rewrite !eqP_modulo.
  symmetry. apply eqP_sub_0. etransitivity; [|exact Hf]. apply eqP_ring. ring.
Qed.

Lemma ec_add_on_curve p q : on_curve p -> on_curve q -> on_curve (ec_add p q).
Proof.
  destruct p as [|x1 y1], q as [|x2 y2]; try done. intros Hp Hq. unfold ec_add.
  assert (F1 : x1 * x1 * x1 + curveB - y1 * y1 ==p 0) by (apply eqP_sub_0; symmetry; exact Hp).
  assert (F2 : x2 * x2 * x2 + curveB - y2 * y2 ==p 0) by (apply eqP_sub_0; symmetry; exact Hq).
  pose proof (fmod_eqb x1 x2) as Hx. destruct (fmod x1 =? fmod x2).
  - assert (Ex : x1 ==p x2) by (by apply Hx).
    assert (Hz : (fmod (y1 + y2) =? 0) = true <-> y1 + y2 ==p 0) by apply (fmod_eqb (y1 + y2) 0).
    destruct (fmod (y1 + y2) =? 0); [done|]. rewrite (chord_eq _ _ _ x2 x1) by done.
    apply chord_on_curve; [done|]. cbv zeta.
    destruct (same_abscissa _ _ _ _ Hp Hq Ex) as [Ey|Ey]; [|by apply Hz in Ey].
    assert (Hy : ~ 2 * y1 ==p 0).
    { intros H2. assert (Hs : y1 + y2 ==p 0); [|discriminate (proj2 Hz Hs)]. rewrite <- Ey. etransitivity; [|exact H2].
      apply eqP_ring. ring. }
    pose proof (slope_spec (3 * x1 * x1) (2 * y1) Hy) as Hl.
    set (l := 3 * x1 * x1 * finv (2 * y1)) in *. clearbody l.
    assert (Hs : x1 * x1 * x1 + curveB - y1 * y1 + (3 * x1 * x1 - 2 * y1 * l) * (l * l - 3 * x1) ==p 0).
    { rewrite F1, Hl. by apply eqP_ring. }
    etransitivity; [|exact Hs]. apply eqP_ring. ring.
  - assert (Hd : ~ x2 - x1 ==p 0).
    { rewrite eqP_sub_0. intros E. symmetry in E. by apply Hx in E. }
    pose proof (slope_spec (y2 - y1) (x2 - x1) Hd) as Hl.
    set (l := (y2 - y1) * finv (x2 - x1)) in *. clearbody l.
    apply chord_on_curve; [done|]. cbv zeta. set (x3 := l * l - x1 - x2).
    assert (F2' : x2 * x2 * x2 + curveB - (l * (x2 - x1) + y1) * (l * (x2 - x1) + y1) ==p 0).
    { apply (proj1 (eqP_sub_0 _ _)) in Hl, F2. apply eqP_sub_0. rewrite F2.
      assert (E : l * (x2 - x1) + y1 ==p y2).
      { rewrite (Z.mul_comm l), <- Hl. apply eqP_ring. ring. }
      by rewrite E. }
    apply (eqP_cancel (x2 - x1) _ 0 Hd). rewrite Z.mul_0_r.
    assert (Hs : (x3 - x1) * (x2 * x2 * x2 + curveB - (l * (x2 - x1) + y1) * (l * (x2 - x1) + y1))
      - (x3 - x2) * (x1 * x1 * x1 + curveB - y1 * y1) ==p 0).
    { rewrite F1, F2'. apply eqP_ring. ring. }
    etransitivity; [|exact Hs]. apply eqP_ring. unfold x3. ring.
Qed.

(** ** Conversions *)

(** Points as pairs of numbers; (0, 0) stands for infinity. *)
Definition decode (x y : Z) : point := if (x =? 0) && (y =? 0) then Inf else Aff x y.
Definition encode (p : point) : Z * Z :=
  match p with Inf => (0, 0) | Aff x y => (fmod x, fmod y) end.

Lemma normalized_bytes f k x : rep f k x -> k <= 63 -> be_value (PutBytes (Normalize f)) = fmod x.
Proof.
  intros Hf Hk. destruct (rep_normalized f k x Hf Hk) as [Hc _].
  destruct (PutBytes_spec _ Hc) as [_ ->]. by apply (value_normalize f k).
Qed.

Lemma affine_bytes x y zInv X Y i : rep x 1 X -> rep y 2 Y -> rep zInv 1 i ->
  (be_value (PutBytes (Normalize (Mul x (SquareVal zInv)))),
   be_value (PutBytes (Normalize (Mul y (Mul (SquareVal zInv) zInv)))))
  = (fmod (X * (i * i)), fmod (Y * (i * i * i))).
Proof.
  intros Hx Hy Hi. f_equal; (eapply normalized_bytes; [rep_auto|done]).
Qed.

Lemma fieldJacobianToBigAffine_spec j p : repJ j p -> fieldJacobianToBigAffine j = encode p.
Proof.
  intros (Mx & My & Mz & Hp). unfold fieldJacobianToBigAffine. cbv zeta.
  set (W := value (jz j)) in *.
  assert (Ri : rep (Inverse (jz j)) 1 (finv W)).
  { eapply rep_eq; [apply (rep_inverse W (jz j) 1); [by apply rep_value|done]|apply finv_pow]. }
  assert (Rx : rep (jx j) 1 (value (jx j))) by done. assert (Ry : rep (jy j) 2 (value (jy j))) by done.
  rewrite (affine_bytes _ _ _ _ _ _ Rx Ry Ri).
  destruct p as [|x y]; cbn [encode].
  - assert (Hi : finv W ==p 0) by (apply finv_0; by rewrite Hp).
    change (0, 0) with (fmod 0, fmod 0). f_equal; apply fmod_eq; rewrite Hi; apply eqP_ring; ring.
  - destruct Hp as (HW & Ex & Ey). pose proof (finv_spec W HW) as Hi.
    set (i := finv W) in *. clearbody i W.
    f_equal; apply fmod_eq.
    + rewrite Ex. transitivity (x * (W * i) * (W * i)); [apply eqP_ring; ring|].
      rewrite Hi. apply eqP_ring. ring.
    + rewrite Ey. transitivity (y * (W * i) * (W * i) * (W * i)); [apply eqP_ring; ring|].
      rewrite Hi. apply eqP_ring. ring.
Qed.

Lemma bigAffineToField_spec x y : 0 <= x < 2 ^ 256 -> 0 <= y < 2 ^ 256 ->
  exists fx fy, bigAffineToField x y = Ok (fx, fy) /\ canonical fx /\ canonical fy /\
  value fx = x /\ value fy = y.
Proof.
  intros Hx Hy. unfold bigAffineToField.
  assert (Hf : forall v, 0 <= v < 2 ^ 256 -> exists f, SetByteSlice (big_Bytes v) = Ok f /\
    canonical f /\ value f = v).
  { intros v Hv. rewrite SetByteSlice_spec.
    assert (Hl : (length (big_Bytes v) <= 32)%nat) by (apply length_big_Bytes; lia).
    destruct (Nat.leb_spec (length (big_Bytes v)) 32); [|lia]. eexists. split; [done|].
    destruct (SetBytes_spec (replicate (32 - length (big_Bytes v)) x00 ++ big_Bytes v)) as [Hc Hvv].
    { rewrite length_app, length_replicate. lia. }
    rewrite Hvv, be_value_zeros, be_value_big_Bytes by lia. done. }
  destruct (Hf x Hx) as (fx & -> & Cx & Vx). destruct (Hf y Hy) as (fy & -> & Cy & Vy).
  exists fx, fy. done.
Qed.

Lemma affine_repJ fx fy x y : canonical fx -> canonical fy -> value fx = x -> value fy = y ->
  repJ (mkJ fx fy (SetInt 1)) (Aff x y).
Proof.
  intros Cx Cy <- <-. apply (repJ_intro _ _ _ 1); cbn [jx jy jz].
  - split; [by apply canonical_mag|]. apply eqP_ring. ring.
  - split; [apply (mag_mono _ 1); [by apply canonical_mag|done]|]. apply eqP_ring. ring.
  - by apply rep_int.
  - apply one_nonzero.
Qed.

Lemma encode_decode x y : 0 <= x < curveP -> 0 <= y < curveP -> encode (decode x y) = (x, y).
Proof.
  intros Hx Hy. unfold decode. destruct (Z.eqb_spec x 0), (Z.eqb_spec y 0); cbn [andb encode];
    subst; unfold fmod; rewrite ?Z.mod_small by lia; done.
Qed.

Lemma ec_add_Inf_r p : ec_add p Inf = p.
Proof. by destruct p. Qed.

Section Affine.
Context (x1 y1 x2 y2 : Z).
Context (Hx1 : 0 <= x1 < curveP) (Hy1 : 0 <= y1 < curveP).
Context (Hx2 : 0 <= x2 < curveP) (Hy2 : 0 <= y2 < curveP).
Context (Hc1 : on_curve (decode x1 y1)) (Hc2 : on_curve (decode x2 y2)).

Lemma curve_Add_spec : curve_Add x1 y1 x2 y2 = Ok (encode (ec_add (decode x1 y1) (decode x2 y2))).
Proof.
  pose proof (encode_decode x1 y1 Hx1 Hy1) as E1. pose proof (encode_decode x2 y2 Hx2 Hy2) as E2.
  unfold curve_Add, decode in *.
  destruct ((x1 =? 0) && (y1 =? 0)); [cbn [ec_add]; by rewrite E2|].
  destruct ((x2 =? 0) && (y2 =? 0)); [rewrite ec_add_Inf_r; by rewrite E1|].
  destruct (bigAffineToField_spec x1 y1) as (fx1 & fy1 & -> & Cx1 & Cy1 & Vx1 & Vy1);
    [unfold curveP in *; lia..|].
  destruct (bigAffineToField_spec x2 y2) as (fx2 & fy2 & -> & Cx2 & Cy2 & Vx2 & Vy2);
    [unfold curveP in *; lia..|]. cbn [rbind].
  destruct (addJacobian_spec (mkJ fx1 fy1 (SetInt 1)) (mkJ fx2 fy2 (SetInt 1)) (Aff x1 y1) (Aff x2 y2))
    as [_ Hs]; [by apply affine_repJ..|done|done|].
  destruct (addJacobian _ _) as [p2 p3]. f_equal. by apply fieldJacobianToBigAffine_spec.
Qed.

Lemma curve_Double_spec : curve_Double x1 y1 = Ok (encode (ec_add (decode x1 y1) (decode x1 y1))).
Proof.
  assert (Hd : encode (ec_add (decode x1 y1) (decode x1 y1)) = encode (ec_double (decode x1 y1))).
  { unfold decode. destruct ((x1 =? 0) && (y1 =? 0)); [done|]. cbn [ec_add ec_double].
    by rewrite Z.eqb_refl. }
  rewrite Hd. unfold curve_Double, decode in *.
  destruct (Z.eqb_spec y1 0) as [->|Hy].
  { rewrite andb_true_r. destruct (x1 =? 0); [done|]. cbn [ec_double]. done. }
  rewrite andb_false_r in *.
  destruct (bigAffineToField_spec x1 y1) as (fx1 & fy1 & -> & Cx1 & Cy1 & Vx1 & Vy1);
    [unfold curveP in *; lia..|]. cbn [rbind]. f_equal.
  apply fieldJacobianToBigAffine_spec, doubleJacobian_spec, affine_repJ; done.
Qed.
End Affine.

Lemma IsOnCurve_spec x y : 0 <= x < 2 ^ 256 -> 0 <= y < 2 ^ 256 ->
  Secp256k1.IsOnCurve x y = Ok (Signature.IsOnCurve x y).
Proof.
  intros Hx Hy. unfold Secp256k1.IsOnCurve.
  destruct (bigAffineToField_spec x y Hx Hy) as (fx & fy & -> & Cx & Cy & Vx & Vy).
  cbn [rbind]. cbv zeta. f_equal.
  assert (Rx : rep fx 1 x) by (split; [by apply canonical_mag|by rewrite Vx]).
  assert (Ry : rep fy 1 y) by (split; [by apply canonical_mag|by rewrite Vy]).
  eassert (R1 : rep (SquareVal fy) _ _) by rep_auto.
  eassert (R2 : rep (AddInt (Mul (SquareVal fx) fx) 7) _ _) by rep_auto.
  pose proof (Equals_normalized _ _ _ _ _ _ R1 R2 ltac:(done) ltac:(done)) as He.
  apply eq_true_iff_eq. rewrite He. unfold Signature.IsOnCurve, curve_rhs. rewrite Z.eqb_eq.
  split; [by intros []|by constructor].
Qed.

(** ** Scalars: the decomposition and the non-adjacent form *)

Section Scalars.

(** [splitK] writes [k] as [k1 + k2 * lambda] modulo the order. *)
Lemma splitK_spec k k1 k2 s1 s2 : splitK k = (k1, k2, s1, s2) ->
  (be_value k1 * s1 + be_value k2 * s2 * lambda - be_value k) mod curveN = 0.
Proof.
  unfold splitK. cbv zeta.
  set (c1 := curve_b2 * be_value k / curveN). set (c2 := curve_b1 * be_value k / curveN).
  clearbody c1 c2. intros [= <- <- <- <-].
  rewrite !be_value_big_Bytes by apply Z.abs_nonneg. rewrite !Z.abs_sgn.
  apply Z.mod_divide; [done|].
  (* both lattice vectors are multiples of the order *)
  assert (H1 : (curveN | curve_a1 + curve_b1 * lambda)) by (apply Z.mod_divide; done).
  assert (H2 : (curveN | curve_a2 + curve_b2 * lambda)) by (apply Z.mod_divide; done).
  replace (be_value k - c1 * curve_a1 + c2 * curve_a2 + (c2 * curve_b2 - c1 * curve_b1) * lambda - be_value k)
    with (c2 * (curve_a2 + curve_b2 * lambda) - c1 * (curve_a1 + curve_b1 * lambda)) by ring.
  apply Z.divide_sub_r; by apply Z.divide_mul_r.
Qed.

Definition naf_byte_ok (b : byte) (above carry : bool) : bool :=
  let '(carry', pos, neg) := naf_bits 8 0 b above carry 0 0 in
  (pos - neg + 256 * Z.b2z carry' =? b + Z.b2z carry) && (Z.land pos neg =? 0) &&
  (0 <=? pos) && (pos <? 256) && (0 <=? neg) && (neg <? 256).

Lemma naf_bits_ok (b : byte) above carry : naf_byte_ok b above carry = true.
Proof.
  assert (H : forallb (fun b => forallb (fun above => forallb (naf_byte_ok b above) [true; false])
    [true; false]) all_bytes = true) by (vm_compute; reflexivity).
  rewrite forallb_forall in H. specialize (H b (in_all_bytes b)).
  rewrite forallb_forall in H. specialize (H above ltac:(destruct above; cbn; tauto)).
  rewrite forallb_forall in H. apply (H carry). destruct carry; cbn; tauto.
Qed.

(** Bytes of equal length without common bits. *)
Definition disjoint_bytes (pos neg : list byte) : Prop :=
  Forall2 (fun p n : byte => Z.land p n = 0) pos neg.

Lemma naf_bytes_ok k : forall carry pos neg c' pos' neg',
  naf_bytes k carry pos neg = (c', pos', neg') -> disjoint_bytes pos neg ->
  disjoint_bytes pos' neg' /\ length pos' = (length k + length pos)%nat /\
  be_value pos' - be_value neg' + Z.b2z c' * 256 ^ Z.of_nat (length k + length pos)
  = be_value pos - be_value neg +
    256 ^ Z.of_nat (length pos) * (le_value k + Z.b2z carry).
Proof.
  induction k as [|b k IH]; intros carry pos neg c' pos' neg'; cbn [naf_bytes].
  - intros [= <- <- <-] Hd. split; [done|]. split; [done|]. cbn. lia.
  - set (above := match k with [] => false | b' :: _ => Z.land b' 1 =? 1 end). clearbody above.
    pose proof (naf_bits_ok b above carry) as Hb. unfold naf_byte_ok in Hb.
    destruct (naf_bits 8 0 b above carry 0 0) as [[c p] n]. intros Hk Hd.
    rewrite !andb_true_iff in Hb. destruct Hb as [[[[[Hv Hl] Hp0] Hp] Hn0] Hn].
    apply Z.eqb_eq in Hv, Hl. apply Z.leb_le in Hp0, Hn0. apply Z.ltb_lt in Hp, Hn.
    assert (Hpb : Z_of_byte (byte_of_Z p) = p) by (rewrite Z_of_byte_of_Z; apply u8_small; unfold is_u8; lia).
    assert (Hnb : Z_of_byte (byte_of_Z n) = n) by (rewrite Z_of_byte_of_Z; apply u8_small; unfold is_u8; lia).
    assert (Hlen : length pos = length neg) by (by eapply Forall2_length).
    destruct (IH _ _ _ _ _ _ Hk) as (Hd' & Hl' & Hv').
    { constructor; [by rewrite Hpb, Hnb|done]. }
    split; [done|]. cbn [length] in *. split; [lia|].
    rewrite !be_value_cons, Hpb, Hnb, <- Hlen in Hv'.
    replace (length k + S (length pos))%nat with (S (length k) + length pos)%nat in Hv' by lia.
    rewrite Hv'. cbn [le_value]. rewrite Nat2Z.inj_succ, Z.pow_succ_r by lia.
    set (M := 256 ^ Z.of_nat (length pos)). nia.
Qed.

(** The two results are the positive and the negative digits of [k]. *)
Lemma NAF_spec k pos neg : NAF k = (pos, neg) ->
  disjoint_bytes pos neg /\ be_value pos - be_value neg = be_value k.
Proof.
  unfold NAF. destruct (naf_bytes (reverse k) false [] []) as [[c p] n] eqn:E.
  destruct (naf_bytes_ok _ _ _ _ _ _ _ E) as (Hd & Hl & Hv); [constructor|].
  assert (Hlen : length p = length n) by (by eapply Forall2_length).
  rewrite Nat.add_0_r in *. cbn [length] in Hv. change (be_value []) with 0 in Hv.
  change (256 ^ Z.of_nat 0) with 1 in Hv. fold (be_value k) in Hv.
  destruct c; intros [= <- <-].
  - split; [by constructor|]. rewrite !be_value_cons, <- Hlen, Hl.
    change (Z_of_byte x01) with 1. change (Z_of_byte x00) with 0. cbn [Z.b2z] in Hv. lia.
  - split; [done|]. cbn [Z.b2z] in Hv. lia.
Qed.
End Scalars.

(** ** Scalar multiplication *)

Definition ec_neg (p : point) : point := match p with Inf => Inf | Aff x y => Aff x (- y) end.

Lemma ec_neg_on_curve p : on_curve p -> on_curve (ec_neg p).
Proof.
  destruct p as [|x y]; [done|]. cbn [on_curve ec_neg]. intros H. rewrite <- H. apply eqP_ring. ring.
Qed.

(** Add a digit of -1, 0 or 1. *)
Definition ec_digit (q p : point) (d : Z) : point :=
  if d =? 1 then ec_add q p else if d =? -1 then ec_add q (ec_neg p) else q.

(** Double and add over two lists of digits, the most significant first. *)
Definition ec_chain (p1 p2 : point) : list (Z * Z) -> point -> point :=
  fold_left (fun q d => ec_digit (ec_digit (ec_add q q) p1 d.1) p2 d.2).

(** The number that a list of binary digits stands for. *)
Definition horner (ds : list Z) (v : Z) : Z := fold_left (fun v d => 2 * v + d) ds v.

Definition digit (pos neg : bool) : Z := if pos then 1 else if neg then -1 else 0.

Fixpoint byte_digits (n : nat) (pos neg : Z) : list Z :=
  match n with
  | O => []
  | S n => digit (top_bit pos) (top_bit neg)
             :: byte_digits n (u8 (Z.shiftl pos 1)) (u8 (Z.shiftl neg 1))
  end.

Fixpoint digits (pos neg : list byte) : list Z :=
  match pos, neg with
  | p :: pos, n :: neg => byte_digits 8 p n ++ digits pos neg
  | _, _ => []
  end.

(** The digits of a byte are its bits from the top one down. *)
Fixpoint top_bits (n : nat) (b : Z) : list bool :=
  match n with
  | O => []
  | S n => top_bit b :: top_bits n (u8 (Z.shiftl b 1))
  end.

Lemma byte_digits_top_bits n : forall p q,
  byte_digits n p q = zip_with digit (top_bits n p) (top_bits n q).
Proof. induction n as [|n IH]; intros p q; [done|]. cbn. by rewrite IH. Qed.

Lemma top_bits_byte (b : byte) :
  top_bits 8 b = map (Z.testbit b) [7; 6; 5; 4; 3; 2; 1; 0] /\
  fold_left (fun v d => 2 * v + Z.b2z d) (top_bits 8 b) 0 = b.
Proof.
  assert (Hall : forallb (fun b : byte =>
    bool_decide (top_bits 8 b = map (Z.testbit b) [7; 6; 5; 4; 3; 2; 1; 0]) &&
    (fold_left (fun v d => 2 * v + Z.b2z d) (top_bits 8 b) 0 =? b)) all_bytes = true)
    by (vm_compute; reflexivity).
  rewrite forallb_forall in Hall. specialize (Hall b (in_all_bytes b)).
  apply andb_true_iff in Hall as [H1 H2]. apply bool_decide_eq_true in H1. by apply Z.eqb_eq in H2.
Qed.

Lemma digit_disjoint p q : p && q = false -> digit p q = Z.b2z p - Z.b2z q.
Proof. by destruct p, q. Qed.

Lemma byte_digits_value (p n : byte) v : Z.land p n = 0 ->
  horner (byte_digits 8 p n) v = 256 * v + p - n.
Proof.
  intros Hd. rewrite byte_digits_top_bits.
  destruct (top_bits_byte p) as [Ep Hp], (top_bits_byte n) as [En Hn].
  rewrite Ep in Hp |- *. rewrite En in Hn |- *.
  assert (Hb : forall i, digit (Z.testbit p i) (Z.testbit n i) = Z.b2z (Z.testbit p i) - Z.b2z (Z.testbit n i)).
  { intros i. apply digit_disjoint. by rewrite <- Z.land_spec, Hd, Z.bits_0. }
  unfold horner. cbn [map zip_with fold_left] in *. rewrite !Hb.
  rewrite <- Hp at 9. rewrite <- Hn at 9. lia.
Qed.

Lemma digits_value pos neg v : disjoint_bytes pos neg ->
  horner (digits pos neg) v = v * 256 ^ Z.of_nat (length pos) + be_value pos - be_value neg.
Proof.
  intros Hd. revert v. induction Hd as [|p n pos neg Hpn Hd IH]; intros v; cbn [digits].
  - cbn. lia.
  - unfold horner in *. rewrite fold_left_app, IH.
    pose proof (byte_digits_value p n v Hpn) as Hb. unfold horner in Hb. rewrite Hb.
    rewrite !be_value_cons. rewrite <- (Forall2_length Hd). cbn [length].
    rewrite Nat2Z.inj_succ, Z.pow_succ_r by lia. ring.
Qed.

(** An operand: a point with z = 1 and both signs of its y coordinate. *)
Definition rep_op (o : operand) (x y : Z) : Prop :=
  rep (ox o) 1 x /\ rep (oy o) 2 y /\ rep (oyNeg o) 2 (- y) /\ rep (oz o) 1 1.

(** Normalizing an operand in place keeps each coordinate. *)
Lemma addJacobian_operand q p X Y W : rep (jx p) 1 X -> rep (jy p) 2 Y -> rep (jz p) 1 W ->
  let p' := (addJacobian q p).1 in rep (jx p') 1 X /\ rep (jy p') 2 Y /\ rep (jz p') 1 W.
Proof.
  intros Hx Hy Hz. cbv zeta. unfold addJacobian.
  assert (Nx : rep (Normalize (jx p)) 1 X) by (by eapply rep_normalize).
  assert (Ny : rep (Normalize (jy p)) 2 Y) by (apply (rep_mono _ 1); [by eapply rep_normalize|done]).
  assert (Nz : rep (Normalize (jz p)) 1 W) by (by eapply rep_normalize).
  repeat case_match; done.
Qed.

Lemma add_digit_spec q o p x y pos neg : repJ q p -> on_curve p -> rep_op o x y -> on_curve (Aff x y) ->
  let (q', o') := add_digit q o pos neg in
  repJ q' (ec_digit p (Aff x y) (digit pos neg)) /\ rep_op o' x y.
Proof.
  intros Hq Hp (Hx & Hy & Hn & Hz) Hc. unfold add_digit, ec_digit, digit.
  assert (Hneg : on_curve (Aff x (- y))) by (by apply (ec_neg_on_curve (Aff x y))).
  destruct pos; [|destruct neg; [|done]].
  - pose proof (addJacobian_operand q (mkJ (ox o) (oy o) (oz o)) x y 1 Hx Hy Hz) as (Rx & Ry & Rz).
    destruct (addJacobian_spec q (mkJ (ox o) (oy o) (oz o)) p (Aff x y)) as [_ Hs]; [done| |done|done|].
    { apply (repJ_intro _ _ _ 1); [..|apply one_nonzero]; cbn [jx jy jz]; rewrite ?Z.mul_1_r; done. }
    destruct (addJacobian _ _) as [p' q']. done.
  - pose proof (addJacobian_operand q (mkJ (ox o) (oyNeg o) (oz o)) x (- y) 1 Hx Hn Hz) as (Rx & Ry & Rz).
    destruct (addJacobian_spec q (mkJ (ox o) (oyNeg o) (oz o)) p (Aff x (- y))) as [_ Hs]; [done| |done|done|].
    { apply (repJ_intro _ _ _ 1); [..|apply one_nonzero]; cbn [jx jy jz]; rewrite ?Z.mul_1_r; done. }
    destruct (addJacobian _ _) as [p' q']. done.
Qed.

Lemma ec_digit_on_curve q p d : on_curve q -> on_curve p -> on_curve (ec_digit q p d).
Proof.
  intros Hq Hp. unfold ec_digit. repeat case_match; try done; apply ec_add_on_curve; try done.
  by apply ec_neg_on_curve.
Qed.

Lemma ec_double_add p : ec_double p = ec_add p p.
Proof. destruct p as [|x y]; [done|]. cbn [ec_double ec_add]. by rewrite Z.eqb_refl. Qed.

Lemma combine_app {A B} (a c : list A) (b d : list B) : length a = length b ->
  combine (a ++ c) (b ++ d) = combine a b ++ combine c d.
Proof.
  revert b. induction a as [|x a IH]; intros [|y b] H; try discriminate; [done|].
  cbn. f_equal. apply IH. by injection H.
Qed.

Lemma ec_chain_app p1 p2 a b q : ec_chain p1 p2 (a ++ b) q = ec_chain p1 p2 b (ec_chain p1 p2 a q).
Proof. apply fold_left_app. Qed.

Section Chain.
Context (x1 y1 x2 y2 : Z) (Hc1 : on_curve (Aff x1 y1)) (Hc2 : on_curve (Aff x2 y2)).

Lemma mult_bits_spec n : forall q o1 o2 p a b c d,
  repJ q p -> on_curve p -> rep_op o1 x1 y1 -> rep_op o2 x2 y2 ->
  let '(q', o1', o2') := mult_bits n q o1 o2 a b c d in
  let p' := ec_chain (Aff x1 y1) (Aff x2 y2) (combine (byte_digits n a b) (byte_digits n c d)) p in
  repJ q' p' /\ on_curve p' /\ rep_op o1' x1 y1 /\ rep_op o2' x2 y2.
Proof.
  induction n as [|n IH]; intros q o1 o2 p a b c d Hq Hp H1 H2; [done|].
  cbn [mult_bits byte_digits combine]. unfold ec_chain. cbn [fold_left fst snd].
  pose proof (doubleJacobian_spec q p Hq) as Hd. rewrite ec_double_add in Hd.
  assert (Hpd : on_curve (ec_add p p)) by (by apply ec_add_on_curve).
  pose proof (add_digit_spec _ o1 _ x1 y1 (top_bit a) (top_bit b) Hd Hpd H1 Hc1) as Ha.
  destruct (add_digit _ o1 _ _) as [q1 o1']. destruct Ha as [Hq1 H1'].
  assert (Hp1 := ec_digit_on_curve _ _ (digit (top_bit a) (top_bit b)) Hpd Hc1).
  pose proof (add_digit_spec _ o2 _ x2 y2 (top_bit c) (top_bit d) Hq1 Hp1 H2 Hc2) as Ha.
  destruct (add_digit _ o2 _ _) as [q2 o2']. destruct Ha as [Hq2 H2'].
  assert (Hp2 := ec_digit_on_curve _ _ (digit (top_bit c) (top_bit d)) Hp1 Hc2).
  exact (IH q2 o1' o2' _ _ _ _ _ Hq2 Hp2 H1' H2').
Qed.

Lemma length_byte_digits n : forall a b, length (byte_digits n a b) = n.
Proof. induction n; intros; cbn; [done|]. by rewrite IHn. Qed.

Lemma mult_bytes_spec pos1 : forall neg1 pos2 neg2 q o1 o2 p,
  length neg1 = length pos1 -> length pos2 = length pos1 -> length neg2 = length pos1 ->
  repJ q p -> on_curve p -> rep_op o1 x1 y1 -> rep_op o2 x2 y2 ->
  repJ (mult_bytes q o1 o2 pos1 neg1 pos2 neg2)
    (ec_chain (Aff x1 y1) (Aff x2 y2) (combine (digits pos1 neg1) (digits pos2 neg2)) p).
Proof.
  induction pos1 as [|b1 pos1 IH]; intros [|c1 neg1] [|b2 pos2] [|c2 neg2] q o1 o2 p L1 L2 L3 Hq Hp H1 H2;
    try discriminate; [done|].
  cbn [mult_bytes digits]. pose proof (mult_bits_spec 8 q o1 o2 p b1 c1 b2 c2 Hq Hp H1 H2) as Hs.
  destruct (mult_bits 8 q o1 o2 b1 c1 b2 c2) as [[q' o1'] o2'].
  destruct Hs as (Hq' & Hp' & H1' & H2').
  rewrite combine_app by (rewrite !length_byte_digits; done).
  rewrite ec_chain_app.
  injection L1 as L1; injection L2 as L2; injection L3 as L3.
  exact (IH _ _ _ _ _ _ _ L1 L2 L3 Hq' Hp' H1' H2').
Qed.
End Chain.

(** [splitK] returns magnitudes with the signs of the numbers they come from. *)
Definition sign_of (s : Z) : Z := if s =? -1 then -1 else 1.

Lemma sgn_sign_of v : Z.abs v * Z.sgn v = Z.abs v * sign_of (Z.sgn v).
Proof. by destruct v. Qed.

Lemma splitK_signed k k1 k2 s1 s2 : splitK k = (k1, k2, s1, s2) ->
  (be_value k1 * sign_of s1 + be_value k2 * sign_of s2 * lambda - be_value k) mod curveN = 0.
Proof.
  intros Hk. pose proof (splitK_spec k k1 k2 s1 s2 Hk) as Hs. revert Hk Hs. unfold splitK. cbv zeta.
  intros [= <- <- <- <-]. rewrite !be_value_big_Bytes by apply Z.abs_nonneg. by rewrite !sgn_sign_of.
Qed.

Lemma moduloReduce_spec k : (be_value (moduloReduce k) - be_value k) mod curveN = 0.
Proof.
  unfold moduloReduce. case_match; [|by rewrite Z.sub_diag].
  rewrite be_value_big_Bytes by (by apply Z.mod_pos_bound).
  rewrite Zminus_mod_idemp_l, Z.sub_diag. done.
Qed.

Lemma pad_disjoint m pos neg : disjoint_bytes pos neg ->
  disjoint_bytes (pad_front m pos) (pad_front m neg).
Proof.
  intros Hd. unfold pad_front. rewrite (Forall2_length Hd). apply Forall2_app; [|done].
  by apply Forall2_replicate.
Qed.

Lemma length_pad m k : (length k <= m)%nat -> length (pad_front m k) = m.
Proof. intros. unfold pad_front. rewrite length_app, length_replicate. lia. Qed.

Lemma pad_digits m pos neg : disjoint_bytes pos neg ->
  horner (digits (pad_front m pos) (pad_front m neg)) 0 = be_value pos - be_value neg.
Proof.
  intros Hd. rewrite digits_value by (by apply pad_disjoint).
  unfold pad_front. rewrite !be_value_zeros. lia.
Qed.

Lemma betaField_rep : rep betaField 1 beta.
Proof.
  unfold betaField. destruct (SetBytes_spec (generate32Bytes beta)) as [Hc Hv]; [by vm_compute|].
  split; [by apply canonical_mag|]. by rewrite Hv.
Qed.

(** The endomorphism: [beta] is a cube root of one, so scaling x stays on the curve. *)
Lemma endomorphism_on_curve x y : on_curve (Aff x y) -> on_curve (Aff (x * beta) y).
Proof.
  cbn [on_curve]. intros H. rewrite H.
  assert (Hb : beta * beta * beta ==p 1) by (constructor; by vm_compute).
  transitivity (x * x * x * 1 + curveB); [apply eqP_ring; ring|]. rewrite <- Hb. apply eqP_ring. ring.
Qed.

(** Choosing the sign of an operand by exchanging its two y coordinates. *)
Lemma signed_operand fx fy x y s : rep fx 1 x -> rep fy 1 y -> on_curve (Aff x y) ->
  let (py, pn) := if s =? -1 then (NegateVal fy 1, fy) else (fy, NegateVal fy 1) in
  rep_op (mkOp fx py pn (SetInt 1)) x (sign_of s * y) /\ on_curve (Aff x (sign_of s * y)).
Proof.
  intros Hx Hy Hc. pose proof (rep_negate fy 1 y Hy ltac:(lia)) as Hn.
  assert (H1 : rep (SetInt 1) 1 1) by (apply rep_int; by vm_compute).
  assert (Hy2 : rep fy 2 y) by (apply (rep_mono _ 1); [done|lia]).
  unfold sign_of. destruct (s =? -1); unfold rep_op; cbn [ox oy oyNeg oz].
  - replace (-1 * y) with (- y) by ring. rewrite Z.opp_involutive.
    split; [done|by apply (ec_neg_on_curve (Aff x y))].
  - rewrite Z.mul_1_l. done.
Qed.

Lemma length_digits pos : forall neg, length pos = length neg ->
  length (digits pos neg) = (8 * length pos)%nat.
Proof.
  induction pos as [|p pos IH]; intros [|n neg] H; try discriminate; [done|].
  cbn [digits length] in *. rewrite length_app, length_byte_digits, IH by lia. lia.
Qed.

Lemma byte_digits_small n : forall p q, Forall (fun d => d = -1 \/ d = 0 \/ d = 1) (byte_digits n p q).
Proof.
  induction n as [|n IH]; intros p q; constructor; [|apply IH].
  unfold digit. repeat case_match; tauto.
Qed.

Lemma digits_small pos : forall neg, Forall (fun d => d = -1 \/ d = 0 \/ d = 1) (digits pos neg).
Proof.
  induction pos as [|p pos IH]; intros [|n neg]; cbn [digits]; [by constructor..|].
  apply Forall_app. split; [apply byte_digits_small|apply IH].
Qed.

Lemma mod_diff a b n : n <> 0 -> (a - b) mod n = 0 -> a mod n = b mod n.
Proof.
  intros Hn H. apply Z.mod_divide in H as [k Hk]; [|done].
  replace a with (b + k * n) by lia. apply Z_mod_plus_full.
Qed.

Lemma ScalarMult_spec Bx By k : 0 <= Bx < curveP -> 0 <= By < curveP -> on_curve (Aff Bx By) ->
  exists ds1 ds2 s1 s2, length ds1 = length ds2 /\
  Forall (fun d => d = -1 \/ d = 0 \/ d = 1) (ds1 ++ ds2) /\
  (s1 = 1 \/ s1 = -1) /\ (s2 = 1 \/ s2 = -1) /\
  (s1 * horner ds1 0 + s2 * horner ds2 0 * lambda) mod curveN = be_value k mod curveN /\
  ScalarMult Bx By k =
    Ok (encode (ec_chain (Aff Bx (s1 * By)) (Aff (Bx * beta) (s2 * By)) (combine ds1 ds2) Inf)).
Proof.
  intros HBx HBy Hc. unfold ScalarMult. cbv zeta.
  destruct (splitK (moduloReduce k)) as [[[k1 k2] sg1] sg2] eqn:Es. apply splitK_signed in Es.
  destruct (bigAffineToField_spec Bx By) as (fx & fy & -> & Cx & Cy & Vx & Vy);
    [unfold curveP in *; lia..|]. cbn [rbind].
  assert (Rx : rep fx 1 Bx) by (split; [by apply canonical_mag|by rewrite Vx]).
  assert (Ry : rep fy 1 By) by (split; [by apply canonical_mag|by rewrite Vy]).
  assert (Rbx : rep (Mul2 fx betaField) 1 (Bx * beta)) by (eapply rep_mul; [done|apply betaField_rep|lia..]).
  pose proof (signed_operand _ _ _ _ sg1 Rx Ry Hc) as H1.
  pose proof (signed_operand _ _ _ _ sg2 Rbx Ry (endomorphism_on_curve _ _ Hc)) as H2.
  destruct (if sg1 =? -1 then _ else _) as [p1y p1n]. destruct (if sg2 =? -1 then _ else _) as [p2y p2n].
  destruct H1 as [Ho1 Hc1], H2 as [Ho2 Hc2].
  destruct (NAF k1) as [pos1 neg1] eqn:E1, (NAF k2) as [pos2 neg2] eqn:E2.
  apply NAF_spec in E1 as [D1 V1], E2 as [D2 V2].
  set (m := Nat.max _ _).
  pose proof (pad_digits m _ _ D1) as W1. pose proof (pad_digits m _ _ D2) as W2.
  assert (L1 := Forall2_length D1). assert (L2 := Forall2_length D2).
  assert (Hl : forall l, (length l <= m)%nat -> length (pad_front m l) = m) by apply length_pad.
  exists (digits (pad_front m pos1) (pad_front m neg1)), (digits (pad_front m pos2) (pad_front m neg2)),
    (sign_of sg1), (sign_of sg2).
  split; [rewrite !length_digits; rewrite !Hl by lia; lia|].
  split; [apply Forall_app; split; apply digits_small|].
  split; [unfold sign_of; case_match; lia|]. split; [unfold sign_of; case_match; lia|].
  rewrite W1, W2, V1, V2. split.
  - apply mod_diff; [done|]. apply Z.mod_divide in Es; [|done]. pose proof (moduloReduce_spec k) as Hm.
    apply Z.mod_divide in Hm; [|done]. apply Z.mod_divide; [done|].
    destruct Es as [u Eu], Hm as [v Ev]. exists (u + v). lia.
  - do 2 f_equal. apply fieldJacobianToBigAffine_spec.
    apply mult_bytes_spec; try done; rewrite !Hl by lia; done.
Qed.

(** Multiples of the generator: the sum of one table entry per byte. *)
Fixpoint ec_table_sum (T : nat -> byte -> point) (i : nat) (k : list byte) (q : point) : point :=
  match k with
  | [] => q
  | b :: k => ec_table_sum T (S i) k (ec_add q (T i b))
  end.

Lemma base_mult_spec bytePoints T
    (HT : forall i b, repJ (bytePoints i b) (T i b)) (HC : forall i b, on_curve (T i b)) :
  forall k i q p, repJ q p -> on_curve p ->
  repJ (base_mult bytePoints i k q) (ec_table_sum T i k p) /\ on_curve (ec_table_sum T i k p).
Proof.
  induction k as [|b k IH]; intros i q p Hq Hp; [done|]. cbn [base_mult ec_table_sum].
  apply IH; [|by apply ec_add_on_curve].
  destruct (addJacobian_spec q (bytePoints i b) p (T i b)) as [_ Hs]; done.
Qed.

Lemma ScalarBaseMult_spec bytePoints T k
    (HT : forall i b, repJ (bytePoints i b) (T i b)) (HC : forall i b, on_curve (T i b)) :
  let r := moduloReduce k in
  let p := ec_table_sum T (32 - length r) r Inf in
  ScalarBaseMult bytePoints k = encode p /\ on_curve p.
Proof.
  cbv zeta. unfold ScalarBaseMult. cbv zeta.
  destruct (base_mult_spec bytePoints T HT HC (moduloReduce k) (32 - length (moduloReduce k)) infinity Inf)
    as [Hr Hc]; [apply repJ_infinity|done|].
  split; [by apply fieldJacobianToBigAffine_spec|done].
Qed.

Lemma sign_on_curve x y s : s = 1 \/ s = -1 -> on_curve (Aff x y) -> on_curve (Aff x (s * y)).
Proof.
  intros [->| ->] H.
  - by rewrite Z.mul_1_l.
  - replace (-1 * y) with (- y) by ring. by apply (ec_neg_on_curve (Aff x y)).
Qed.

Lemma ec_chain_on_curve p1 p2 ds : forall q, on_curve p1 -> on_curve p2 -> on_curve q ->
  on_curve (ec_chain p1 p2 ds q).
Proof.
  induction ds as [|d ds IH]; intros q H1 H2 Hq; [done|]. cbn. apply IH; [done|done|].
  by apply ec_digit_on_curve; [apply ec_digit_on_curve; [apply ec_add_on_curve|]|].
Qed.

(** The affine encoding of a point passes the curve check unless it is infinity. *)
Lemma IsOnCurve_encode p : on_curve p ->
  Secp256k1.IsOnCurve (encode p).1 (encode p).2 = Ok (finite p).
Proof.
  assert (Hr : forall a, 0 <= fmod a < 2 ^ 256).
  { intros a. unfold fmod. pose proof (Z.mod_pos_bound a curveP ltac:(done)). unfold curveP in *. lia. }
  intros Hp. rewrite IsOnCurve_spec by (destruct p; cbn [encode fst snd]; [done|apply Hr]).
  f_equal. destruct p as [|x y]; cbn [encode fst snd]; [vm_compute; reflexivity|].
  cbn [finite on_curve] in *.
  unfold Signature.IsOnCurve, curve_rhs, fmod. apply Z.eqb_eq.
  assert (He : (y mod curveP) * (y mod curveP) ==p
    (x mod curveP) * (x mod curveP) * (x mod curveP) + curveB) by (by rewrite !eqP_modulo).
  by destruct He.
Qed.

(** The conditions on concrete coordinates, by computation. *)
Lemma on_curve_check x y : Signature.IsOnCurve x y = true -> on_curve (Aff x y).
Proof. intros H. constructor. by apply Z.eqb_eq in H. Qed.

Lemma generator_on_curve : on_curve (Aff curveGx curveGy).
Proof. apply on_curve_check. vm_compute. reflexivity. Qed.

Lemma generator_range : (0 <= curveGx < curveP) /\ (0 <= curveGy < curveP).
Proof. vm_compute. repeat split; discriminate. Qed.

Lemma generator_doubled : finite (ec_add (decode curveGx curveGy) (decode curveGx curveGy)) = true.
Proof.
  change (decode curveGx curveGy) with (Aff curveGx curveGy). cbn [ec_add]. rewrite Z.eqb_refl.
  replace (fmod (curveGy + curveGy) =? 0) with false by (vm_compute; reflexivity). done.
Qed.

(** ** The arithmetic of the curve *)

(** C23: The operations on field elements are exact modulo the prime: with
    operands of the magnitudes that field.go allows, no intermediate word
    overflows and Add, Negate, MulInt, Mul, Square and Inverse compute the sum,
    opposite, multiple, product, square and inverse; Normalize gives the unique
    representation below the prime. *)
Theorem field_operations_exact (a b : fieldVal) (j k ui : Z) : mag a j -> mag b k -> 1 <= j ->
  (j + k <= 63 -> mag (Add2 a b) (j + k) /\ value (Add2 a b) ==p value a + value b) /\
  (j <= 62 -> mag (NegateVal a j) (j + 1) /\ value (NegateVal a j) ==p - value a) /\
  (0 <= ui -> j * ui <= 63 -> mag (MulInt a ui) (j * ui) /\ value (MulInt a ui) ==p value a * ui) /\
  (j <= 8 -> k <= 8 -> mag (Mul2 a b) 1 /\ value (Mul2 a b) ==p value a * value b) /\
  (j <= 8 -> mag (SquareVal a) 1 /\ value (SquareVal a) ==p value a * value a) /\
  (j <= 8 -> mag (Inverse a) 1 /\ (~ value a ==p 0 -> value a * value (Inverse a) ==p 1)) /\
  (j <= 63 -> value (Normalize a) = value a mod curveP) /\
  (j <= 63 -> k <= 63 -> Normalize a = Normalize b <-> value a ==p value b).
Proof.
  intros Ha Hb Hj. pose proof (rep_value _ _ Ha) as Ra. pose proof (rep_value _ _ Hb) as Rb.
  split; [intros; by apply rep_add|]. split; [intros; apply rep_negate; [done|lia]|].
  split; [intros; by apply rep_mulint|]. split; [intros; by eapply rep_mul|].
  split; [intros; by eapply rep_square|].
  split.
  { intros H8. destruct (rep_inverse _ _ _ Ra H8) as [Hm Hv]. split; [done|]. intros Hz.
    rewrite Hv, finv_pow. by apply finv_spec. }
  split; [intros; by eapply value_normalize|].
  intros H1 H2. rewrite <- Equals_spec. by eapply Equals_normalized.
Qed.

Lemma field_operations_exact_witness :
  let f := SetBytes (generate32Bytes curveGx) in
  value f = curveGx /\ value f * value (Inverse f) ==p 1.
Proof.
  set (f := SetBytes (generate32Bytes curveGx)). cbv zeta.
  assert (Hf : mag f 8) by (vm_compute; repeat split; discriminate).
  split; [vm_compute; reflexivity|].
  destruct (field_operations_exact f f 8 8 0 Hf Hf ltac:(lia)) as (_ & _ & _ & _ & _ & Hi & _).
  apply Hi; [lia|]. intros [H]. vm_compute in H. discriminate H.
Defined.

(** C21: Add and Double of the curve never panic on points whose coordinates are
    field elements and that lie on the curve ((0, 0) stands for infinity): they
    return the point of the textbook group law, again in range and on the
    curve, whichever of the special formulas they choose. *)
Theorem curve_group_law (x1 y1 x2 y2 : Z) :
  0 <= x1 < curveP -> 0 <= y1 < curveP -> 0 <= x2 < curveP -> 0 <= y2 < curveP ->
  on_curve (decode x1 y1) -> on_curve (decode x2 y2) ->
  let p := decode x1 y1 in let q := decode x2 y2 in
  curve_Add x1 y1 x2 y2 = Ok (encode (ec_add p q)) /\ on_curve (ec_add p q) /\
  curve_Double x1 y1 = Ok (encode (ec_add p p)) /\ on_curve (ec_add p p) /\
  Secp256k1.IsOnCurve (encode (ec_add p q)).1 (encode (ec_add p q)).2
    = Ok (finite (ec_add p q)).
Proof.
  intros Hx1 Hy1 Hx2 Hy2 H1 H2 p q. unfold p, q.
  assert (Ha : on_curve (ec_add (decode x1 y1) (decode x2 y2))) by (by apply ec_add_on_curve).
  split; [by apply curve_Add_spec|]. split; [done|].
  split; [by apply curve_Double_spec|]. split; [by apply ec_add_on_curve|].
  by apply IsOnCurve_encode.
Qed.

Lemma curve_group_law_witness :
  exists x y, curve_Add curveGx curveGy curveGx curveGy = Ok (x, y) /\ Secp256k1.IsOnCurve x y = Ok true.
Proof.
  destruct (curve_group_law curveGx curveGy curveGx curveGy (proj1 generator_range)
    (proj2 generator_range) (proj1 generator_range) (proj2 generator_range)
    generator_on_curve generator_on_curve) as (Ha & Hc & _ & _ & Ho).
  exists (encode (ec_add (decode curveGx curveGy) (decode curveGx curveGy))).1,
    (encode (ec_add (decode curveGx curveGy) (decode curveGx curveGy))).2.
  exact (conj (eq_trans Ha (f_equal Ok (surjective_pairing _))) (eq_trans Ho (f_equal Ok generator_doubled))).
Defined.

(** C22: ScalarMult never panics on a point of the curve, for scalars of any
    length: it runs double-and-add over signed binary digits of two half-length
    scalars, with the point and its image under the endomorphism, and the
    digits, their signs and lambda recombine to the scalar modulo the order. *)
Theorem scalar_multiplication (Bx By : Z) (k : list byte) :
  0 <= Bx < curveP -> 0 <= By < curveP -> on_curve (Aff Bx By) ->
  exists ds1 ds2 s1 s2, length ds1 = length ds2 /\
  Forall (fun d => d = -1 \/ d = 0 \/ d = 1) (ds1 ++ ds2) /\
  (s1 = 1 \/ s1 = -1) /\ (s2 = 1 \/ s2 = -1) /\
  (s1 * horner ds1 0 + s2 * horner ds2 0 * lambda) mod curveN = be_value k mod curveN /\
  let p1 := Aff Bx (s1 * By) in let p2 := Aff (Bx * beta) (s2 * By) in
  on_curve p1 /\ on_curve p2 /\
  on_curve (ec_chain p1 p2 (combine ds1 ds2) Inf) /\
  ScalarMult Bx By k = Ok (encode (ec_chain p1 p2 (combine ds1 ds2) Inf)).
Proof.
  intros Hx Hy Hc. destruct (ScalarMult_spec Bx By k Hx Hy Hc)
    as (ds1 & ds2 & s1 & s2 & Hl & Hd & H1 & H2 & Hk & Hs).
  exists ds1, ds2, s1, s2. do 5 (split; [done|]). cbv zeta.
  assert (C1 : on_curve (Aff Bx (s1 * By))) by (by apply sign_on_curve).
  assert (C2 : on_curve (Aff (Bx * beta) (s2 * By)))
    by (by apply sign_on_curve, endomorphism_on_curve).
  split; [done|]. split; [done|]. split; [by apply ec_chain_on_curve|done].
Qed.

Lemma scalar_multiplication_witness :
  exists p, on_curve p /\ ScalarMult curveGx curveGy [x02] = Ok (encode p).
Proof.
  destruct (scalar_multiplication curveGx curveGy [x02] (proj1 generator_range) (proj2 generator_range)
    generator_on_curve) as (ds1 & ds2 & s1 & s2 & _ & _ & _ & _ & _ & _ & _ & Hp & Hs).
  exact (ex_intro _ _ (conj Hp Hs)).
Defined.
