(* ===== verification/PubKeySpec.v ===== *)
(** * Public keys read back what they write: btcec/pubkey.go

    Every point of the curve is read back by [ParsePubKey] from each of its
    three serializations.  For the compressed one this is the square root by
    exponentiation: the exponent [(P+1)/4] gives a root of every square because
    the field prime is 3 modulo 4. *)
From S2P Require Import Prelude Chainhash Signature Field FieldSpec Primes Secp256k1 CurveSpec.
From Stdlib Require Import Zdivisibility Zpow_facts Setoid Morphisms.
From Stdlib Require Zmod.ZmodInv.
Import ListNotations Field.

(** A point with coordinates in range. *)
Definition valid_point (k : PubKey) : Prop :=
  0 <= pk_X k < curveP /\ 0 <= pk_Y k < curveP /\ IsOnCurve (pk_X k) (pk_Y k) = true.

Lemma pow_mod_pow b m e : 0 < m -> pow_mod b e m = b ^ Zpos e mod m.
Proof.
  intros Hm. induction e as [e IH|e IH|]; cbn [pow_mod].
  - rewrite IH, <- Z.mul_mod, Pos2Z.inj_xI, Z.pow_add_r by lia. rewrite Z.mul_mod_idemp_l by lia. f_equal.
    rewrite Z.pow_1_r. replace (2 * Zpos e) with (Zpos e + Zpos e) by lia. by rewrite Z.pow_add_r by lia.
  - rewrite IH, <- Z.mul_mod, Pos2Z.inj_xO by lia. f_equal.
    replace (2 * Zpos e) with (Zpos e + Zpos e) by lia. by rewrite Z.pow_add_r by lia.
  - by rewrite Z.pow_1_r.
Qed.

Lemma fermat_p y : y ^ (curveP - 1) * (y * y) ==p y * y.
Proof.
  destruct (Z.eq_dec (y mod curveP) 0) as [Hz|Hz].
  - assert (H : y ==p 0) by (constructor; exact Hz). generalize (y ^ (curveP - 1)). intros e. by rewrite H, !Z.mul_0_r.
  - assert (H : y ^ (curveP - 1) ==p 1); [|by rewrite H, Z.mul_1_l]. constructor.
    rewrite ZmodInv.Z.fermat_nz; [done|apply curveP_prime|done].
Qed.

(** The root of a square is the number or its negation. *)
Lemma square_root y : let w := (y * y) ^ QPlus1Div4 in w ==p y \/ w ==p - y.
Proof.
  intros w. assert (H : (w - y) * (w + y) ==p 0).
  { replace ((w - y) * (w + y)) with (w * w - y * y) by ring. apply eqP_sub_0. assert (Hw : w * w = y ^ (curveP - 1) * (y * y)).
    { unfold w. rewrite <- Z.pow_add_r, <- Z.pow_2_r, <- Z.pow_mul_r, <- Z.pow_add_r by done. done. }
    rewrite Hw. apply fermat_p. }
  apply eqP_mul_0 in H as [H|H]; [left|right]; apply eqP_sub_0; [done|]. by rewrite Z.sub_opp_r.
Qed.

Lemma curveP_odd : Z.odd curveP = true. Proof. reflexivity. Qed.

Lemma eqP_small a b : 0 <= a < curveP -> 0 <= b < curveP -> a ==p b -> a = b.
Proof. intros Ha Hb [H]. by rewrite !Z.mod_small in H. Qed.

Lemma isOdd_negation y : isOdd (curveP - y) = negb (isOdd y).
Proof. unfold isOdd. rewrite !Z.bit0_odd, Z.odd_sub, curveP_odd. by destruct (Z.odd y). Qed.

(** The candidate root before the choice by parity. *)
Lemma root_candidate x y : 0 <= y < curveP -> IsOnCurve x y = true ->
  let w := pow_mod (curve_rhs x) (Z.to_pos QPlus1Div4) curveP in w = y \/ (w = curveP - y /\ 0 < y).
Proof.
  intros Hy Hon w. apply Z.eqb_eq in Hon.
  assert (Hw : w = (y * y) ^ QPlus1Div4 mod curveP).
  { unfold w. rewrite pow_mod_pow, <- Hon by done. rewrite Z2Pos.id by done. by rewrite <- Zpower_mod by done. }
  assert (Hr : 0 <= w < curveP) by (rewrite Hw; apply Z.mod_pos_bound; done).
  assert (He : w ==p (y * y) ^ QPlus1Div4) by (rewrite Hw; apply eqP_modulo). clearbody w. clear Hw.
  pose proof (square_root y) as Hroot. cbv zeta in Hroot. revert He Hroot. generalize ((y * y) ^ QPlus1Div4).
  intros r He [Hs|Hs]; rewrite Hs in He; clear Hs.
  - left. by apply eqP_small.
  - destruct (Z.eq_dec y 0) as [->|Hne]; [left; by apply eqP_small|]. right. split; [|lia].
    apply eqP_small; [done|lia|]. rewrite He. apply (eqP_intro (-1)). lia.
Qed.

(** Taking the root with the given parity undoes the choice of the parity. *)
Lemma decompressPoint_complete x y : 0 <= y < curveP -> IsOnCurve x y = true ->
  decompressPoint x (isOdd y) = Ok y.
Proof.
  intros Hy Hon. pose proof (root_candidate x y Hy Hon) as Hw. cbv zeta in Hw. unfold decompressPoint.
  revert Hw. generalize (pow_mod (curve_rhs x) (Z.to_pos QPlus1Div4) curveP). intros w Hw.
  assert (Hchoice : (if negb (eqb (isOdd y) (isOdd w)) then curveP - w else w) = y).
  { destruct Hw as [->|[-> Hpos]]; [by rewrite eqb_reflx|]. rewrite isOdd_negation.
    destruct (isOdd y); cbn; lia. }
  rewrite Hchoice. unfold IsOnCurve in Hon. rewrite Hon. cbn [negb]. by rewrite eqb_reflx.
Qed.

Lemma padded_coordinate v : 0 <= v < curveP ->
  let b := replicate (32 - length (big_Bytes v)) x00 ++ big_Bytes v in length b = 32%nat /\ be_value b = v.
Proof. intros Hv. apply pad32_value. split; [lia|]. eapply Z.lt_trans; [apply Hv|]. reflexivity. Qed.

Lemma format_bits format y : In format [pubkeyCompressed; pubkeyUncompressed; pubkeyHybrid] ->
  let b := format_with_parity format y in Z.ldiff b 1 = format /\ (Z.land b 1 =? 1) = isOdd y.
Proof.
  intros Hin. unfold format_with_parity. cbn in Hin. destruct (isOdd y);
  decompose [or] Hin; try done; subst; by vm_compute.
Qed.

Lemma point_checks k : valid_point k ->
  (if curveP <=? pk_X k then Err KeyXRange
   else if curveP <=? pk_Y k then Err KeyYRange
   else if negb (IsOnCurve (pk_X k) (pk_Y k)) then Err KeyNotOnCurve else Ok k) = Ok k.
Proof. intros (HX & HY & ->). rewrite !(proj2 (Z.leb_gt _ _)) by lia. done. Qed.

Lemma parse_compressed k : valid_point k -> ParsePubKey (SerializeCompressed k) = Ok k.
Proof.
  intros Hk. pose proof Hk as (HX & HY & Hon). unfold SerializeCompressed, paddedAppend.
  destruct (padded_coordinate _ HX) as [Hl Hv].
  destruct (format_bits pubkeyCompressed (pk_Y k) ltac:(cbn; tauto)) as [Hf Hp].
  revert Hl Hv Hf Hp. generalize (replicate (32 - length (big_Bytes (pk_X k))) x00 ++ big_Bytes (pk_X k)).
  generalize (format_with_parity pubkeyCompressed (pk_Y k)). intros b xb Hl Hv Hf Hp.
  cbn [app]. unfold ParsePubKey. cbn [length]. rewrite Hl, Hf, Hp.
  assert (Hs : slice (E := key_error) (b :: xb) 1 33 = Ok xb).
  { rewrite <- (app_nil_r xb) at 1. apply (slice_at [b] xb []); cbn; lia. }
  cbn [Nat.eqb PubKeyBytesLenUncompressed PubKeyBytesLenCompressed]. rewrite Z.eqb_refl. cbn [negb].
  rewrite Hs. cbn [rbind]. rewrite Hv, decompressPoint_complete by done. cbn [rbind].
  destruct k as [X Y]. by apply (point_checks (mkPubKey X Y)).
Qed.

Lemma parse_full k (b : byte) : valid_point k ->
  (Z.ldiff b 1 = pubkeyUncompressed \/ Z.ldiff b 1 = pubkeyHybrid /\ (Z.land b 1 =? 1) = isOdd (pk_Y k)) ->
  ParsePubKey (paddedAppend 32 (paddedAppend 32 [b] (big_Bytes (pk_X k))) (big_Bytes (pk_Y k))) = Ok k.
Proof.
  intros Hk Hb. pose proof Hk as (HX & HY & Hon). unfold paddedAppend.
  destruct (padded_coordinate _ HX) as [Hlx Hvx]. destruct (padded_coordinate _ HY) as [Hly Hvy].
  revert Hlx Hvx Hly Hvy. generalize (replicate (32 - length (big_Bytes (pk_X k))) x00 ++ big_Bytes (pk_X k)).
  generalize (replicate (32 - length (big_Bytes (pk_Y k))) x00 ++ big_Bytes (pk_Y k)). intros yb xb Hlx Hvx Hly Hvy.
  rewrite <- app_assoc. cbn [app]. unfold ParsePubKey. cbn [length]. rewrite length_app, Hlx, Hly.
  assert (Hsx : slice (E := key_error) (b :: xb ++ yb) 1 33 = Ok xb) by (apply (slice_at [b] xb yb); cbn; lia).
  assert (Hsy : slice (E := key_error) (b :: xb ++ yb) 33 (S (32 + 32)) = Ok yb).
  { rewrite <- (app_nil_r yb) at 1. apply (slice_at (b :: xb) yb []); cbn; lia. }
  cbn [Nat.add Nat.eqb PubKeyBytesLenUncompressed] in *. rewrite Hsx. cbn [rbind]. rewrite Hsy. cbn [rbind]. rewrite Hvx, Hvy.
  destruct k as [X Y]. destruct Hb as [Hf|[Hf Hp]]; rewrite Hf; cbn [negb andb Z.eqb]; cbn in Hp || idtac.
  - change (pubkeyUncompressed =? pubkeyHybrid) with false. rewrite Z.eqb_refl. cbn [negb andb rbind]. by apply (point_checks (mkPubKey X Y)).
  - change (pubkeyHybrid =? pubkeyUncompressed) with false. rewrite Z.eqb_refl. cbn [negb andb pk_X pk_Y] in *.
    rewrite Hp, eqb_reflx. cbn [negb rbind]. by apply (point_checks (mkPubKey X Y)).
Qed.

Lemma parse_uncompressed k : valid_point k -> ParsePubKey (SerializeUncompressed k) = Ok k.
Proof. intros Hk. apply parse_full; [done|by left]. Qed.

Lemma parse_hybrid k : valid_point k -> ParsePubKey (SerializeHybrid k) = Ok k.
Proof. intros Hk. apply parse_full; [done|]. right. apply format_bits. cbn. tauto. Qed.

Lemma decompressPoint_nonneg x ybit y : decompressPoint x ybit = Ok y -> 0 <= y.
Proof.
  unfold decompressPoint. rewrite pow_mod_pow by done.
  generalize (curve_rhs x ^ Zpos (Z.to_pos QPlus1Div4)). intros e.
  pose proof (Z.mod_pos_bound e curveP ltac:(done)) as Hr. revert Hr. generalize (e mod curveP). intros w Hr.
  set (y' := if negb (eqb ybit (isOdd w)) then curveP - w else w).
  assert (0 <= y') by (unfold y'; destruct (negb _); lia). clearbody y'.
  destruct (negb _); [done|]. destruct (negb _); [done|]. by intros [= <-].
Qed.

Lemma parsed_full b s k : length s = 64%nat -> ParsePubKey (b :: s) = Ok k ->
  pk_Y k = be_value (drop 32 s) /\
  (Z.ldiff b 1 = pubkeyUncompressed \/ Z.ldiff b 1 = pubkeyHybrid /\ (Z.land b 1 =? 1) = isOdd (pk_Y k)).
Proof.
  intros Hl. unfold ParsePubKey. cbn [length]. rewrite Hl. cbn [Nat.eqb PubKeyBytesLenUncompressed].
  destruct (negb (Z.ldiff b 1 =? pubkeyUncompressed) && _) eqn:Hf; [done|].
  assert (Hsx : slice (E := key_error) (b :: s) 1 33 = Ok (take 32 s)).
  { rewrite <- (take_drop 32 s) at 1. apply (slice_at [b] (take 32 s) (drop 32 s)); [done|]. cbn [length]. rewrite length_take. lia. }
  assert (Hsy : slice (E := key_error) (b :: s) 33 65 = Ok (drop 32 s)).
  { rewrite <- (take_drop 32 s) at 1. rewrite <- (app_nil_r (drop 32 s)) at 1.
    apply (slice_at (b :: take 32 s) (drop 32 s) []); cbn [length]; rewrite ?length_take, ?length_drop; lia. }
  rewrite Hsx. cbn [rbind]. rewrite Hsy. cbn [rbind]. generalize (be_value (drop 32 s)). intros y.
  destruct ((Z.ldiff b 1 =? pubkeyHybrid) && negb (eqb _ _)) eqn:Hh; [done|]. cbn [rbind pk_X pk_Y].
  destruct (curveP <=? be_value (take 32 s)); [done|]. destruct (curveP <=? y); [done|]. destruct (negb (IsOnCurve _ _)); [done|].
  intros [= <-]. cbn [pk_Y]. split; [done|]. destruct (Z.eqb_spec (Z.ldiff b 1) pubkeyUncompressed); [by left|]. cbn in Hf.
  destruct (Z.eqb_spec (Z.ldiff b 1) pubkeyHybrid); [|done]. right. split; [done|]. cbn in Hh.
  apply negb_false_iff in Hh. by apply eqb_prop.
Qed.

(** The leading byte of the long formats. *)
Lemma full_format (b : byte) y :
  (Z.ldiff b 1 = pubkeyUncompressed \/ Z.ldiff b 1 = pubkeyHybrid /\ (Z.land b 1 =? 1) = isOdd y) ->
  b = byte_of_Z pubkeyUncompressed \/ b = format_with_parity pubkeyHybrid y \/ b = x05.
Proof.
  unfold format_with_parity. intros [H|[H <-]]; destruct b; try discriminate H; auto.
Qed.

Lemma full_parts b xb yb k : length xb = 32%nat -> length yb = 32%nat -> pk_X k = be_value xb -> pk_Y k = be_value yb ->
  b :: xb ++ yb = paddedAppend 32 (paddedAppend 32 [b] (big_Bytes (pk_X k))) (big_Bytes (pk_Y k)).
Proof.
  intros Hlx Hly Hx Hy. unfold paddedAppend. rewrite (padded_eq (pk_X k) xb), (padded_eq (pk_Y k) yb) by done.
  by rewrite <- app_assoc.
Qed.

Lemma parsed_formats s k : ParsePubKey s = Ok k -> valid_point k /\
  (s = SerializeCompressed k \/ s = SerializeUncompressed k \/ s = SerializeHybrid k \/
   s = x05 :: drop 1 (SerializeUncompressed k)).
Proof.
  intros Hp. pose proof Hp as (HX & HY & Hon & Hs)%ParsePubKey_inv.
  destruct Hs as [(_ & b & xb & -> & Hl & Hx & Hf & Hpar)|(_ & b & xb & yb & -> & Hlx & Hly & Hx & Hy)].
  - assert (Hy0 : 0 <= pk_Y k).
    { unfold ParsePubKey in Hp. cbn [length] in Hp. rewrite Hl, Hf in Hp. cbn [Nat.eqb PubKeyBytesLenUncompressed PubKeyBytesLenCompressed negb Z.eqb] in Hp.
      rewrite Z.eqb_refl in Hp. cbn [negb] in Hp. 
      assert (Hsl : slice (E := key_error) (b :: xb) 1 33 = Ok xb).
      { rewrite <- (app_nil_r xb) at 1. apply (slice_at [b] xb []); cbn; lia. }
      rewrite Hsl in Hp. cbn [rbind] in Hp. destruct (decompressPoint _ _) as [y| |] eqn:Hd; [|done|done].
      apply decompressPoint_nonneg in Hd. cbn [rbind] in Hp. repeat (destruct (_ <=? _); [done|]).
      destruct (negb _); [done|]. injection Hp as <-. exact Hd. }
    split; [split; [split; [rewrite Hx; apply be_value_range|done]|]; done|]. left.
    unfold SerializeCompressed, paddedAppend. rewrite (parity_byte b) by done. cbn [app]. f_equal. symmetry. by apply padded_eq.
  - apply parsed_full in Hp as [_ Hfmt]; [|rewrite length_app; lia].
    split; [split; [split; [rewrite Hx; apply be_value_range|done]|split; [split; [rewrite Hy; apply be_value_range|done]|done]]|].
    right. rewrite (full_parts b xb yb k) by done. apply full_format in Hfmt as [->|[->| ->]]; [by left|by right; left|right; right].
    unfold SerializeUncompressed, paddedAppend. by rewrite <- !app_assoc.
Qed.

Lemma hybrid_five k : valid_point k -> ParsePubKey (x05 :: drop 1 (SerializeUncompressed k)) = Ok k.
Proof.
  intros Hk. pose proof (parse_full k x05 Hk ltac:(by left)) as H. unfold SerializeUncompressed, paddedAppend in *.
  rewrite <- !app_assoc in *. exact H.
Qed.

(** C28: public keys are read exactly: the strings that [ParsePubKey] reads as a
    key are the three serializations of that key, plus the uncompressed one with
    the leading byte 5 in place of 4, and what is read is a point of the curve
    with coordinates below the field prime.  In particular a compressed key is
    decompressed to the point it was made from. *)
Theorem ParsePubKey_exact s k :
  ParsePubKey s = Ok k <-> valid_point k /\
    (s = SerializeCompressed k \/ s = SerializeUncompressed k \/ s = SerializeHybrid k \/
     s = x05 :: drop 1 (SerializeUncompressed k)).
Proof.
  split; [apply parsed_formats|]. intros [Hk [->|[->|[->| ->]]]];
    auto using parse_compressed, parse_uncompressed, parse_hybrid, hybrid_five.
Qed.
