(* ===== verification/Compress.v ===== *)
(** * Compact encodings of outputs: blockchain/compress.go

    Variable-length quantities, compressed amounts and compressed scripts, which
    the utxo set and the spend journal are stored with.  A Go function that
    writes into a slice and returns the number of bytes is modelled by the bytes
    it writes; the size functions are shown to be their number, so that a slice
    of that size is never exceeded. *)

From S2P Require Import Prelude Chainhash Wire Hash WireMsg ScriptNum Opcode Script Signature PubKeySpec.

(** ** Variable-length quantities *)

(** The loops divide by 128 in each iteration: ten are enough for a uint64. *)
Definition vlq_fuel : nat := 10.

Fixpoint size_loop (fuel : nat) (n : Z) : Z :=
  match fuel with
  | O => 1
  | S fuel => if 0x7f <? n then 1 + size_loop fuel (Z.shiftr n 7 - 1) else 1
  end.
Definition serializeSizeVLQ (n : Z) : Z := size_loop vlq_fuel n.

(** The bytes in the order in which they are produced, least significant first. *)
Fixpoint put_loop (fuel : nat) (first : bool) (n : Z) : list byte :=
  let highBitMask := if first then 0x00 else 0x80 in
  let b := byte_of_Z (Z.lor (Z.land n 0x7f) highBitMask) in
  match fuel with
  | O => [b]
  | S fuel => if n <=? 0x7f then [b] else b :: put_loop fuel false (Z.shiftr n 7 - 1)
  end.
Definition putVLQ (n : Z) : list byte := reverse (put_loop vlq_fuel true n).

Fixpoint deserialize_loop (n : Z) (size : nat) (serialized : list byte) : Z * nat :=
  match serialized with
  | [] => (n, size)
  | val :: rest =>
      let n := u64 (Z.lor (Z.shiftl n 7) (Z.land val 0x7f)) in
      if negb (Z.land val 0x80 =? 0x80) then (n, S size)
      else deserialize_loop (u64 (n + 1)) (S size) rest
  end.
Definition deserializeVLQ (serialized : list byte) : Z * nat := deserialize_loop 0 0 serialized.

(** ** Scripts *)

Definition cstPayToPubKeyHash : Z := 0.
Definition cstPayToScriptHash : Z := 1.
Definition cstPayToPubKeyComp2 : Z := 2.
Definition cstPayToPubKeyComp3 : Z := 3.
Definition cstPayToPubKeyUncomp4 : Z := 4.
Definition cstPayToPubKeyUncomp5 : Z := 5.
Definition numSpecialScripts : Z := 6.

(** [script[i] == v], after a check of the length *)
Definition byte_is (script : list byte) (i : nat) (v : Z) : bool := Z_of_byte (nth i script x00) =? v.
Definition sub (script : list byte) (lo hi : nat) : list byte := take (hi - lo) (drop lo script).

Definition cs_isPubKeyHash (script : list byte) : option (list byte) :=
  if (length script =? 25)%nat && byte_is script 0 OP_DUP && byte_is script 1 OP_HASH160
     && byte_is script 2 OP_DATA_20 && byte_is script 23 OP_EQUALVERIFY && byte_is script 24 OP_CHECKSIG
  then Some (sub script 3 23) else None.

Definition cs_isScriptHash (script : list byte) : option (list byte) :=
  if (length script =? 23)%nat && byte_is script 0 OP_HASH160 && byte_is script 1 OP_DATA_20
     && byte_is script 22 OP_EQUAL
  then Some (sub script 2 22) else None.

Definition isPubKey (script : list byte) : option (list byte) :=
  if (length script =? 35)%nat && byte_is script 0 OP_DATA_33 && byte_is script 34 OP_CHECKSIG
     && (byte_is script 1 0x02 || byte_is script 1 0x03) && is_ok (ParsePubKey (sub script 1 34))
  then Some (sub script 1 34)
  else if (length script =? 67)%nat && byte_is script 0 OP_DATA_65 && byte_is script 66 OP_CHECKSIG
          && byte_is script 1 0x04 && is_ok (ParsePubKey (sub script 1 66))
  then Some (sub script 1 66)
  else None.

Definition compressedScriptSize (pkScript : list byte) : Z :=
  match cs_isPubKeyHash pkScript with
  | Some _ => 21
  | None =>
      match cs_isScriptHash pkScript with
      | Some _ => 21
      | None =>
          match isPubKey pkScript with
          | Some _ => 33
          | None => serializeSizeVLQ (u64 (zlen pkScript + numSpecialScripts)) + zlen pkScript
          end
      end
  end.

Definition decodeCompressedScriptSize (serialized : list byte) : Z :=
  let '(scriptSize, bytesRead) := deserializeVLQ serialized in
  if (bytesRead =? 0)%nat then 0
  else if (scriptSize =? cstPayToPubKeyHash) || (scriptSize =? cstPayToScriptHash) then 21
  else if (cstPayToPubKeyComp2 <=? scriptSize) && (scriptSize <=? cstPayToPubKeyUncomp5) then 33
  else i64 (u64 (u64 (scriptSize - numSpecialScripts) + Z.of_nat bytesRead)).

Definition put_plain (pkScript : list byte) : list byte :=
  putVLQ (u64 (zlen pkScript + numSpecialScripts)) ++ pkScript.

Definition putCompressedScript (pkScript : list byte) : list byte :=
  match cs_isPubKeyHash pkScript with
  | Some hash => byte_of_Z cstPayToPubKeyHash :: hash
  | None =>
      match cs_isScriptHash pkScript with
      | Some hash => byte_of_Z cstPayToScriptHash :: hash
      | None =>
          match isPubKey pkScript with
          | Some key =>
              let pubKeyFormat := Z_of_byte (nth 0 key x00) in
              if (pubKeyFormat =? 0x02) || (pubKeyFormat =? 0x03)
              then byte_of_Z pubKeyFormat :: sub key 1 33
              else if pubKeyFormat =? 0x04
              then byte_of_Z (Z.lor pubKeyFormat (Z.land (nth 64 key x00) 0x01)) :: sub key 1 33
              else put_plain pkScript
          | None => put_plain pkScript
          end
      end
  end.

(** [copy(dst[lo:], src[from:from+n])] into fixed positions: the pieces of the
    result in order.  [slice] panics when [src] is too short.  [nil] and an empty
    script are the same. *)
Definition decompressScript {E} (compressedPkScript : list byte) : result E (list byte) :=
  if (length compressedPkScript =? 0)%nat then Ok []
  else
    let '(encodedScriptSize, bytesRead) := deserializeVLQ compressedPkScript in
    if encodedScriptSize =? cstPayToPubKeyHash then
      let* hash := slice compressedPkScript bytesRead (bytesRead + 20) in
      Ok (map byte_of_Z [OP_DUP; OP_HASH160; OP_DATA_20] ++ hash
          ++ map byte_of_Z [OP_EQUALVERIFY; OP_CHECKSIG])
    else if encodedScriptSize =? cstPayToScriptHash then
      let* hash := slice compressedPkScript bytesRead (bytesRead + 20) in
      Ok (map byte_of_Z [OP_HASH160; OP_DATA_20] ++ hash ++ [byte_of_Z OP_EQUAL])
    else if (encodedScriptSize =? cstPayToPubKeyComp2) || (encodedScriptSize =? cstPayToPubKeyComp3) then
      let* key := slice compressedPkScript bytesRead (bytesRead + 32) in
      Ok (map byte_of_Z [OP_DATA_33; encodedScriptSize] ++ key ++ [byte_of_Z OP_CHECKSIG])
    else if (encodedScriptSize =? cstPayToPubKeyUncomp4) || (encodedScriptSize =? cstPayToPubKeyUncomp5) then
      let rest := take 32 (drop 1 compressedPkScript) in
      let compressedKey :=
        byte_of_Z (encodedScriptSize - 2) :: rest ++ replicate (32 - length rest) x00 in
      match ParsePubKey compressedKey with
      | Ok key => Ok (byte_of_Z OP_DATA_65 :: SerializeUncompressed key ++ [byte_of_Z OP_CHECKSIG])
      | Err _ => Ok []
      | Panic => Panic
      end
    else
      let scriptSize := i64 (u64 (encodedScriptSize - numSpecialScripts)) in
      if scriptSize <? 0 then Panic
      else slice compressedPkScript bytesRead (bytesRead + Z.to_nat scriptSize).

(** ** Amounts *)

(** The exponent is at most nine. *)
Fixpoint strip_zeros (fuel : nat) (amount exponent : Z) : Z * Z :=
  match fuel with
  | O => (amount, exponent)
  | S fuel => if (amount mod 10 =? 0) && (exponent <? 9)
              then strip_zeros fuel (amount / 10) (exponent + 1) else (amount, exponent)
  end.

Definition compressTxOutAmount (amount : Z) : Z :=
  if amount =? 0 then 0
  else
    let '(amount, exponent) := strip_zeros 10 amount 0 in
    if exponent <? 9 then
      let lastDigit := amount mod 10 in
      let amount := amount / 10 in
      u64 (1 + 10 * (9 * amount + lastDigit - 1) + exponent)
    else u64 (10 + 10 * (amount - 1)).

Fixpoint times_ten (exponent : nat) (n : Z) : Z :=
  match exponent with O => n | S e => times_ten e (u64 (n * 10)) end.

Definition decompressTxOutAmount (amount : Z) : Z :=
  if amount =? 0 then 0
  else
    let amount := amount - 1 in
    let exponent := amount mod 10 in
    let amount := amount / 10 in
    let n := if exponent <? 9 then
               let lastDigit := amount mod 9 + 1 in
               u64 (amount / 9 * 10 + lastDigit)
             else amount + 1 in
    times_ten (Z.to_nat exponent) n.

(** ** Outputs *)

Definition compressedTxOutSize (amount : Z) (pkScript : list byte) : Z :=
  serializeSizeVLQ (compressTxOutAmount amount) + compressedScriptSize pkScript.

Definition putCompressedTxOut (amount : Z) (pkScript : list byte) : list byte :=
  putVLQ (compressTxOutAmount amount) ++ putCompressedScript pkScript.

Inductive deserialize_error := ErrAfterAmount | ErrAfterScriptSize | ErrNoBytes | ErrAfterHeader
  | ErrAfterReserved | ErrAssert.

(** A negative script size passes the check of the length and panics in the
    slice expression. *)
Definition decodeCompressedTxOut (serialized : list byte)
  : result deserialize_error (Z * list byte * nat) :=
  let '(compressedAmount, bytesRead) := deserializeVLQ serialized in
  if (length serialized <=? bytesRead)%nat then Err ErrAfterAmount
  else
    let scriptSize := decodeCompressedScriptSize (drop bytesRead serialized) in
    if zlen (drop bytesRead serialized) <? scriptSize then Err ErrAfterScriptSize
    else if scriptSize <? 0 then Panic
    else
      let amount := decompressTxOutAmount compressedAmount in
      let* compressed := slice serialized bytesRead (bytesRead + Z.to_nat scriptSize) in
      let* script := decompressScript compressed in
      Ok (amount, script, (bytesRead + Z.to_nat scriptSize)%nat).

(** ** Lemmas on variable-length quantities *)

Lemma land_7f n : Z.land n 0x7f = n mod 128.
Proof. exact (Z.land_ones n 7 ltac:(lia)). Qed.

(** Bits that do not overlap add up. *)
Lemma lor_shift n r : 0 <= r < 128 -> Z.lor (Z.shiftl n 7) r = n * 128 + r.
Proof.
  intros Hr. assert (Hd : Z.land (Z.shiftl n 7) r = 0).
  { apply Z.bits_inj'. intros k Hk. rewrite Z.land_spec, Z.bits_0, Z.shiftl_spec by lia.
    destruct (Z.lt_ge_cases k 7); [by rewrite Z.testbit_neg_r by lia|].
    rewrite <- (Z.mod_small r (2 ^ 7)) by (cbn; lia). rewrite Z.mod_pow2_bits_high by lia.
    apply andb_false_r. }
  rewrite <- Z.lxor_lor, <- Z.add_nocarry_lxor by done. by rewrite Z.shiftl_mul_pow2 by lia.
Qed.

Lemma lor_hi n : 0 <= n < 128 -> Z.lor n 0x80 = n + 128.
Proof. intros Hn. rewrite Z.lor_comm. etrans; [exact (lor_shift 1 n Hn)|lia]. Qed.

(** The two bytes a group of seven bits is written as. *)
Definition group (last : bool) (r : Z) : byte := byte_of_Z (if last then r else r + 128).

Lemma group_value last r : 0 <= r < 128 -> Z_of_byte (group last r) = if last then r else r + 128.
Proof. intros Hr. unfold group. rewrite Z_of_byte_of_Z, u8_small; [done|]. destruct last; widths; lia. Qed.

Lemma group_low last r : 0 <= r < 128 -> Z.land (group last r) 0x7f = r.
Proof.
  intros Hr. rewrite land_7f, group_value by done. destruct last; [by rewrite Z.mod_small|].
  replace (r + 128) with (r + 1 * 128) by lia. rewrite Z.mod_add by lia. by rewrite Z.mod_small.
Qed.

Lemma byte_high (b : byte) : (Z.land b 0x80 =? 0x80) = (128 <=? b).
Proof. by destruct b. Qed.

Lemma group_last last r : 0 <= r < 128 -> negb (Z.land (group last r) 0x80 =? 0x80) = last.
Proof.
  intros Hr. rewrite byte_high, group_value by done.
  destruct last; destruct (Z.leb_spec 128 r), (Z.leb_spec 128 (r + 128)); try done; lia.
Qed.

Lemma put_byte first n :
  byte_of_Z (Z.lor (Z.land n 0x7f) (if first : bool then 0x00 else 0x80)) = group first (n mod 128).
Proof.
  pose proof (Z.mod_pos_bound n 128 ltac:(lia)). rewrite land_7f. unfold group.
  destruct first; [by rewrite Z.lor_0_r|]. by rewrite lor_hi.
Qed.

Lemma put_loop_group fuel first n :
  put_loop fuel first n
  = group first (n mod 128)
    :: match fuel with
       | O => []
       | S fuel => if n <=? 0x7f then [] else put_loop fuel false (Z.shiftr n 7 - 1)
       end.
Proof. destruct fuel; cbn [put_loop]; rewrite put_byte; [done|]. by case_if. Qed.

Lemma deserialize_group n size last r rest :
  0 <= n -> 0 <= r < 128 -> n * 128 + r + 1 < 2 ^ 64 ->
  deserialize_loop n size (group last r :: rest)
  = if last then (n * 128 + r, S size) else deserialize_loop (n * 128 + r + 1) (S size) rest.
Proof.
  intros Hn Hr Hb. cbn [deserialize_loop]. rewrite group_low, group_last, lor_shift by done.
  rewrite u64_small by (widths; lia). destruct last; [done|]. rewrite u64_small by (widths; lia). done.
Qed.

(** Numbers a loop of [fuel] more iterations can finish. *)
Definition vlq_bound (fuel : nat) : Z := 128 ^ Z.of_nat (S fuel).

Lemma vlq_bound_S fuel : vlq_bound (S fuel) = 128 * vlq_bound fuel.
Proof. unfold vlq_bound. rewrite (Nat2Z.inj_succ (S fuel)), Z.pow_succ_r; lia. Qed.

Lemma next_group fuel n :
  0x7f < n < vlq_bound (S fuel) -> 0 <= Z.shiftr n 7 - 1 < vlq_bound fuel.
Proof.
  rewrite vlq_bound_S. intros [Hlo Hhi]. rewrite Z.shiftr_div_pow2 by lia. change (2 ^ 7) with 128.
  pose proof (Z.div_le_lower_bound n 128 1 ltac:(lia) ltac:(lia)).
  pose proof (Z.div_lt_upper_bound n 128 (vlq_bound fuel) ltac:(lia) Hhi). lia.
Qed.

Lemma put_size fuel first n :
  0 <= n < vlq_bound fuel -> Z.of_nat (length (put_loop fuel first n)) = size_loop fuel n.
Proof.
  revert first n. induction fuel as [|fuel IH]; intros first n Hn; cbn [put_loop size_loop]; [done|].
  destruct (Z.leb_spec n 0x7f) as [Hs|Hs]; [rewrite (proj2 (Z.ltb_ge _ _)) by lia; done|].
  rewrite (proj2 (Z.ltb_lt _ _)) by lia. cbn [length]. rewrite Nat2Z.inj_succ, IH by (apply next_group; lia). lia.
Qed.

(** Reading the groups of a number that is followed by another group leaves one
    more than the number in the accumulator. *)
Lemma deserialize_groups fuel n rest :
  0 <= n < vlq_bound fuel -> n + 1 < 2 ^ 64 ->
  deserialize_loop 0 0 (reverse (put_loop fuel false n) ++ rest)
  = deserialize_loop (n + 1) (length (put_loop fuel false n)) rest.
Proof.
  revert n rest. induction fuel as [|fuel IH]; intros n rest Hn Hb; rewrite put_loop_group.
  - assert (n < 128) by (unfold vlq_bound in Hn; cbn in Hn; lia).
    rewrite reverse_singleton. cbn [app]. rewrite Z.mod_small, deserialize_group by lia. cbn.
    by rewrite ?Z.add_0_l.
  - pose proof (Z.mod_pos_bound n 128 ltac:(lia)). case_if.
    + rewrite reverse_singleton. cbn [app]. rewrite Z.mod_small, deserialize_group by lia. done.
    + rewrite reverse_cons, <- app_assoc, IH.
      * cbn [app length]. pose proof (Z.div_mod n 128 ltac:(lia)).
        rewrite Z.shiftr_div_pow2 by lia. change (2 ^ 7) with 128.
        pose proof (Z.div_le_lower_bound n 128 1 ltac:(lia) ltac:(lia)).
        rewrite deserialize_group by lia. f_equal. lia.
      * apply next_group. lia.
      * rewrite Z.shiftr_div_pow2 by lia. change (2 ^ 7) with 128.
        pose proof (Z.div_le_upper_bound n 128 n ltac:(lia) ltac:(lia)). lia.
Qed.

Lemma vlq_bound_fuel n : is_u64 n -> 0 <= n < vlq_bound vlq_fuel.
Proof. unfold vlq_bound, vlq_fuel. intros Hn. widths. assert (2 ^ 64 <= 128 ^ Z.of_nat 11) by done. lia. Qed.

Lemma deserialize_put n rest :
  is_u64 n -> deserializeVLQ (putVLQ n ++ rest) = (n, length (putVLQ n)).
Proof.
  intros Hn. unfold deserializeVLQ, putVLQ. pose proof (vlq_bound_fuel n Hn) as Hb.
  unfold vlq_fuel in *. rewrite length_reverse, put_loop_group. widths.
  pose proof (Z.mod_pos_bound n 128 ltac:(lia)). case_if.
  - rewrite reverse_singleton. cbn [app length]. rewrite Z.mod_small by lia.
    cbn [deserialize_loop]. rewrite group_low, group_last, lor_shift by lia.
    rewrite u64_small by (widths; lia). done.
  - rewrite reverse_cons, <- app_assoc, deserialize_groups.
    + cbn [app length]. pose proof (Z.div_mod n 128 ltac:(lia)).
      rewrite Z.shiftr_div_pow2 by lia. change (2 ^ 7) with 128.
      cbn [deserialize_loop]. rewrite group_low, group_last, lor_shift by lia.
      rewrite u64_small by (widths; lia). f_equal. lia.
    + apply next_group. lia.
    + rewrite Z.shiftr_div_pow2 by lia. change (2 ^ 7) with 128.
      pose proof (Z.div_le_upper_bound n 128 n ltac:(lia) ltac:(lia)). cbn. lia.
Qed.

Lemma zlen_putVLQ n : is_u64 n -> zlen (putVLQ n) = serializeSizeVLQ n.
Proof. intros Hn. unfold zlen, putVLQ. rewrite length_reverse. by apply put_size, vlq_bound_fuel. Qed.

Lemma putVLQ_nonempty n : putVLQ n <> [].
Proof.
  unfold putVLQ. rewrite put_loop_group, reverse_cons. by destruct (reverse _).
Qed.

(** The number that a string of groups, least significant first, stands for. *)
Fixpoint vlq_value (l : list byte) : Z :=
  match l with
  | [] => 0
  | b :: l' => match l' with [] => b mod 128 | _ :: _ => (vlq_value l' + 1) * 128 + b mod 128 end
  end.

(** Only the last group of a quantity, the first of [l], has its high bit clear. *)
Definition vlq_string (l : list byte) : Prop :=
  match l with
  | [] => False
  | b :: l' => Z_of_byte b < 128 /\ Forall (fun b => 128 <= Z_of_byte b) l'
  end.

Lemma vlq_value_range l : l <> [] -> 0 <= vlq_value l /\ vlq_value l + 3 <= 2 * 128 ^ Z.of_nat (length l).
Proof.
  induction l as [|b [|c l] IH]; intros Hl; [done| |]; pose proof (Z.mod_pos_bound b 128 ltac:(lia)).
  - cbn. lia.
  - specialize (IH ltac:(done)). change (vlq_value (b :: c :: l)) with ((vlq_value (c :: l) + 1) * 128 + b mod 128).
    change (length (b :: c :: l)) with (S (length (c :: l))). rewrite Nat2Z.inj_succ, Z.pow_succ_r by lia. lia.
Qed.

Lemma group_of_byte (b : byte) : b = group (Z_of_byte b <? 128) (b mod 128).
Proof.
  pose proof (Z_of_byte_range b) as Hb. widths. apply Z_of_byte_inj.
  rewrite group_value by (apply Z.mod_pos_bound; lia).
  destruct (Z.ltb_spec (Z_of_byte b) 128); [rewrite Z.mod_small; lia|].
  pose proof (Z.mod_add (b - 128) 1 128 ltac:(lia)) as Hm.
  replace (b - 128 + 1 * 128) with (Z_of_byte b) in Hm by lia. rewrite Hm, Z.mod_small; lia.
Qed.

Lemma put_value fuel first b l :
  (Z_of_byte b <? 128) = first -> Forall (fun b => 128 <= Z_of_byte b) l -> (length l <= fuel)%nat ->
  put_loop fuel first (vlq_value (b :: l)) = b :: l.
Proof.
  revert first b l. induction fuel as [|fuel IH]; intros first b l Hb Hl Hf; rewrite put_loop_group.
  - destruct l; [|cbn in Hf; lia]. cbn [vlq_value]. rewrite Z.mod_mod by lia.
    subst first. by rewrite <- group_of_byte.
  - pose proof (Z.mod_pos_bound b 128 ltac:(lia)). destruct l as [|c l].
    + cbn [vlq_value]. rewrite Z.mod_mod by lia. rewrite (proj2 (Z.leb_le _ _)) by lia.
      subst first. by rewrite <- group_of_byte.
    + apply Forall_cons_iff in Hl as [Hc Hl].
      pose proof (vlq_value_range (c :: l) ltac:(done)) as [Hv _].
      change (vlq_value (b :: c :: l)) with ((vlq_value (c :: l) + 1) * 128 + b mod 128).
      rewrite (proj2 (Z.leb_gt _ _)) by lia. rewrite Z.shiftr_div_pow2 by lia. change (2 ^ 7) with 128.
      rewrite Z.div_add_l, (Z.div_small (b mod 128)), Z.add_0_r, Z.add_simpl_r by lia.
      rewrite Z.add_comm, Z.mod_add, Z.mod_mod by lia.
      rewrite IH; [|by apply Z.ltb_ge|done|cbn in Hf; lia].
      subst first. by rewrite <- group_of_byte.
Qed.

Lemma putVLQ_onto bs :
  vlq_string (reverse bs) -> (length bs <= 9)%nat -> exists n, is_u64 n /\ putVLQ n = bs.
Proof.
  intros Hs Hl. rewrite <- length_reverse in Hl. exists (vlq_value (reverse bs)).
  destruct (reverse bs) as [|b l] eqn:Hr; [done|]. destruct Hs as [Hb Hs]. split.
  - pose proof (vlq_value_range (b :: l) ltac:(done)).
    assert (128 ^ Z.of_nat (length (b :: l)) <= 128 ^ 9) by (apply Z.pow_le_mono_r; lia).
    assert (2 * 128 ^ 9 = 2 ^ 64) by done. unfold is_u64. lia.
  - unfold putVLQ. rewrite put_value; [|apply Z.ltb_lt; lia|done|unfold vlq_fuel; cbn in Hl; lia].
    rewrite <- Hr. apply reverse_involutive.
Qed.

(** ** Lemmas on amounts *)

Lemma strip_spec fuel a e :
  0 < a -> 0 <= e <= 9 -> 9 <= Z.of_nat fuel + e ->
  let '(a', e') := strip_zeros fuel a e in
  0 < a' /\ e <= e' <= 9 /\ a = a' * 10 ^ (e' - e) /\ (e' < 9 -> a' mod 10 <> 0).
Proof.
  revert a e. induction fuel as [|fuel IH]; intros a e Ha He Hf; cbn [strip_zeros].
  - rewrite Z.sub_diag. split_and!; lia.
  - destruct (_ && _) eqn:Hc.
    + apply andb_true_iff in Hc as [Hm%Z.eqb_eq Hl%Z.ltb_lt].
      pose proof (Z.div_mod a 10 ltac:(lia)).
      specialize (IH (a / 10) (e + 1) ltac:(lia) ltac:(lia) ltac:(lia)).
      destruct (strip_zeros fuel (a / 10) (e + 1)) as [a' e']. destruct IH as (H1 & H2 & H3 & H4).
      split_and!; try lia. replace (e' - e) with (Z.succ (e' - (e + 1))) by lia.
      rewrite Z.pow_succ_r by lia. lia.
    + rewrite Z.sub_diag. split_and!; lia.
Qed.

Lemma times_ten_small e n :
  0 <= n -> n * 10 ^ Z.of_nat e < 2 ^ 64 -> times_ten e n = n * 10 ^ Z.of_nat e.
Proof.
  revert n. induction e as [|e IH]; intros n Hn Hb; cbn [times_ten]; [lia|].
  rewrite Nat2Z.inj_succ, Z.pow_succ_r in * by lia.
  assert (1 <= 10 ^ Z.of_nat e) by (pose proof (Z.pow_pos_nonneg 10 (Z.of_nat e) ltac:(lia) ltac:(lia)); lia).
  rewrite u64_small by (widths; nia). rewrite IH by lia. lia.
Qed.

(** Amounts whose compressed form, up to nine times as large, fits. *)
Definition amount_ok (amount : Z) : Prop := 0 <= amount < 2 ^ 60.

Lemma compress_range amount : is_u64 (compressTxOutAmount amount).
Proof.
  unfold compressTxOutAmount. destruct (amount =? 0); [widths; lia|].
  destruct (strip_zeros 10 amount 0). case_if; apply u64_range.
Qed.

Lemma decompress_compress amount :
  amount_ok amount -> decompressTxOutAmount (compressTxOutAmount amount) = amount.
Proof.
  unfold amount_ok, compressTxOutAmount. intros Ha. destruct (Z.eqb_spec amount 0) as [->|H0]; [done|].
  pose proof (strip_spec 10 amount 0 ltac:(lia) ltac:(lia) ltac:(lia)) as Hs.
  destruct (strip_zeros 10 amount 0) as [a e]. destruct Hs as (Ha' & He & Heq & Hd).
  rewrite Z.sub_0_r in Heq. assert (Hle : a <= amount).
  { pose proof (Z.pow_pos_nonneg 10 e ltac:(lia) ltac:(lia)). nia. }
  pose proof (Z.div_mod a 10 ltac:(lia)). pose proof (Z.mod_pos_bound a 10 ltac:(lia)).
  change (2 ^ 60) with 1152921504606846976 in *.
  assert (Hexp : Z.of_nat (Z.to_nat e) = e) by lia.
  case_if; rewrite u64_small by (widths; lia); unfold decompressTxOutAmount.
  - specialize (Hd ltac:(lia)). rewrite (proj2 (Z.eqb_neq _ _)) by lia. cbv zeta.
    replace (1 + 10 * (9 * (a / 10) + a mod 10 - 1) + e - 1)
      with (e + (9 * (a / 10) + a mod 10 - 1) * 10) by lia.
    rewrite Z.mod_add, Z.div_add, (Z.mod_small e), (Z.div_small e) by lia. rewrite Z.add_0_l.
    rewrite (proj2 (Z.ltb_lt _ _)) by lia.
    replace (9 * (a / 10) + a mod 10 - 1) with (a mod 10 - 1 + a / 10 * 9) by lia.
    rewrite Z.mod_add, Z.div_add, (Z.mod_small (a mod 10 - 1)), (Z.div_small (a mod 10 - 1)) by lia.
    rewrite u64_small by (widths; lia). rewrite times_ten_small; rewrite ?Hexp; [|lia|widths]; rewrite ?Z.add_0_l;
      replace (a / 10 * 10 + (a mod 10 - 1 + 1)) with a by lia; lia.
  - assert (e = 9) as -> by lia. rewrite (proj2 (Z.eqb_neq _ _)) by lia. cbv zeta.
    replace (10 + 10 * (a - 1) - 1) with (9 + (a - 1) * 10) by lia.
    rewrite Z.mod_add, Z.div_add by lia. change (9 mod 10) with 9. change (9 / 10) with 0.
    cbn [Z.ltb Z.compare Pos.compare Pos.compare_cont]. rewrite times_ten_small; [|lia|widths];
      replace (0 + (a - 1) + 1) with a by lia; change (Z.of_nat (Z.to_nat 9)) with 9; lia.
Qed.

(** ** Lemmas on scripts *)

(** A list of known length, byte by byte. *)
Ltac explode s := repeat (destruct s as [|? s]; try discriminate); cbn [nth] in *; subst.

Lemma byte_is_eq script i v : byte_is script i v = true -> nth i script x00 = byte_of_Z v.
Proof. unfold byte_is. intros <-%Z.eqb_eq. by rewrite byte_of_Z_of_byte. Qed.

Ltac fixed_bytes :=
  repeat match goal with
  | H : (_ && _)%bool = true |- _ => apply andb_true_iff in H as [? ?]
  | H : byte_is _ _ _ = true |- _ => apply byte_is_eq in H
  end.

Lemma pkh_form s h :
  cs_isPubKeyHash s = Some h ->
  length h = 20%nat
  /\ s = map byte_of_Z [OP_DUP; OP_HASH160; OP_DATA_20] ++ h ++ map byte_of_Z [OP_EQUALVERIFY; OP_CHECKSIG].
Proof.
  unfold cs_isPubKeyHash. destruct (_ && _) eqn:Hc; [|done]. intros [= <-]. fixed_bytes.
  destruct (Nat.eqb_spec (length s) 25) as [Hl|]; [|done]. by explode s.
Qed.

Lemma sh_form s h :
  cs_isScriptHash s = Some h ->
  length h = 20%nat /\ s = map byte_of_Z [OP_HASH160; OP_DATA_20] ++ h ++ [byte_of_Z OP_EQUAL].
Proof.
  unfold cs_isScriptHash. destruct (_ && _) eqn:Hc; [|done]. intros [= <-]. fixed_bytes.
  destruct (Nat.eqb_spec (length s) 23) as [Hl|]; [|done]. by explode s.
Qed.

(** The two forms of a pay-to-pubkey script. *)
Lemma pubkey_form s key :
  isPubKey s = Some key ->
  is_ok (ParsePubKey key) = true
  /\ ((exists v x, (v = 0x02 \/ v = 0x03) /\ length x = 32%nat /\ key = byte_of_Z v :: x
         /\ s = byte_of_Z OP_DATA_33 :: key ++ [byte_of_Z OP_CHECKSIG])
      \/ (exists x y, length x = 32%nat /\ length y = 32%nat /\ key = byte_of_Z 0x04 :: x ++ y
         /\ s = byte_of_Z OP_DATA_65 :: key ++ [byte_of_Z OP_CHECKSIG])).
Proof.
  unfold isPubKey. destruct (_ && is_ok (ParsePubKey (sub s 1 34))) eqn:Hc.
  - intros [= <-]. fixed_bytes. split; [done|]. left.
    match goal with H : (_ || _)%bool = true |- _ => rename H into Hv end.
    destruct (Nat.eqb_spec (length s) 35) as [Hl|]; [|done].
    exists (nth 1 s x00 : byte), (sub s 2 34).
    assert (nth 1 s x00 = x02 \/ nth 1 s x00 = x03) as Hn.
    { apply orb_true_iff in Hv as [Hv|Hv]; apply byte_is_eq in Hv; [by left|by right]. }
    split; [destruct Hn as [->| ->]; [by left|by right]|]. clear Hv Hn. explode s.
    cbn. by rewrite byte_of_Z_of_byte.
  - clear Hc. destruct (_ && is_ok _) eqn:Hd; [|done]. intros [= <-]. fixed_bytes. split; [done|]. right.
    destruct (Nat.eqb_spec (length s) 67) as [Hl|]; [|done].
    exists (sub s 2 34), (sub s 34 66). by explode s.
Qed.

(** The sizes of scripts are ints. *)
Definition stored_script_ok (script : list byte) : Prop := zlen script + 6 < 2 ^ 31.

Lemma low_bit (b : byte) : Z.land b 0x01 = 0 \/ Z.land b 0x01 = 1.
Proof. destruct b; auto. Qed.

Lemma last_byte_parity (y : list byte) (b : byte) :
  Z.land b 0x01 = if isOdd (be_value (y ++ [b])) then 1 else 0.
Proof.
  rewrite be_value_app, be_value_cons. change (be_value []) with 0. change (2 ^ (8 * zlen [b])) with 256.
  change (256 ^ Z.of_nat (length (@nil byte))) with 1. rewrite Z.mul_1_r, Z.add_0_r.
  unfold isOdd. rewrite Z.bit0_odd. replace (be_value y * 256 + b) with (b + 2 * (be_value y * 128)) by lia.
  rewrite Z.odd_add_mul_2. by destruct b.
Qed.

(** The sign and the first coordinate of an uncompressed key determine it. *)
Lemma recover_key (x y : list byte) k :
  length x = 32%nat -> length y = 32%nat -> ParsePubKey (byte_of_Z 0x04 :: x ++ y) = Ok k ->
  ParsePubKey (byte_of_Z (Z.lor 2 (Z.land (nth 64 (byte_of_Z 0x04 :: x ++ y) x00) 0x01)) :: x) = Ok k.
Proof.
  intros Hx Hy Hp. pose proof (parsed_formats _ _ Hp) as [Hk _].
  apply ParsePubKey_inv in Hp as (_ & _ & _ & [(Hl & _)|(_ & b & xb & yb & Hs & Hxb & Hyb & HX & HY)]).
  { cbn in Hl. rewrite length_app in Hl. lia. }
  injection Hs as _ Hs. apply app_inj_1 in Hs as [-> ->]; [|lia].
  rewrite <- (parse_compressed k Hk). f_equal. unfold SerializeCompressed, paddedAppend.
  rewrite (padded_eq (pk_X k) xb) by done. cbn [app]. f_equal. unfold format_with_parity, pubkeyCompressed. rewrite HY.
  destruct yb as [|b0 yb _] using rev_ind; [done|]. rewrite length_app in Hyb. cbn [length] in Hyb.
  change (byte_of_Z 4 :: xb ++ yb ++ [b0]) with ((byte_of_Z 4 :: xb) ++ yb ++ [b0]).
  rewrite app_assoc, app_nth2 by (rewrite length_app; cbn [length]; lia).
  replace (64 - length ((byte_of_Z 4 :: xb) ++ yb))%nat with 0%nat by (rewrite length_app; cbn [length]; lia).
  cbn [nth]. rewrite (last_byte_parity yb b0). by destruct (isOdd _).
Qed.

Lemma deserialize_small v rest :
  0 <= v < 128 -> deserializeVLQ (byte_of_Z v :: rest) = (v, 1%nat).
Proof.
  intros Hv. change (byte_of_Z v :: rest) with (group true v :: rest).
  unfold deserializeVLQ. rewrite deserialize_group by lia. by rewrite Z.mul_0_l, Z.add_0_l.
Qed.

Lemma slice_tail {E} a b : slice (E := E) (a ++ b) (length a) (length a + length b) = Ok b.
Proof. rewrite <- (app_nil_r b) at 1. apply slice_at; lia. Qed.

Lemma slice_after {E} b x n : length x = n -> slice (E := E) (b :: x) 1 (1 + n) = Ok x.
Proof. intros <-. apply (slice_tail [b]). Qed.

(** What each kind of script is compressed to. *)
Variant compressed_as (script : list byte) : list byte -> Prop :=
  | As_pkh h : length h = 20%nat ->
      script = map byte_of_Z [OP_DUP; OP_HASH160; OP_DATA_20] ++ h ++ map byte_of_Z [OP_EQUALVERIFY; OP_CHECKSIG] ->
      compressed_as script (byte_of_Z 0 :: h)
  | As_sh h : length h = 20%nat ->
      script = map byte_of_Z [OP_HASH160; OP_DATA_20] ++ h ++ [byte_of_Z OP_EQUAL] ->
      compressed_as script (byte_of_Z 1 :: h)
  | As_compressed v x : (v = 0x02 \/ v = 0x03) -> length x = 32%nat ->
      script = byte_of_Z OP_DATA_33 :: byte_of_Z v :: x ++ [byte_of_Z OP_CHECKSIG] ->
      compressed_as script (byte_of_Z v :: x)
  | As_uncompressed key v x y k : (v = 4 \/ v = 5) -> length x = 32%nat -> length y = 32%nat ->
      key = byte_of_Z 0x04 :: x ++ y -> ParsePubKey key = Ok k ->
      ParsePubKey (byte_of_Z (v - 2) :: x) = Ok k ->
      script = byte_of_Z OP_DATA_65 :: key ++ [byte_of_Z OP_CHECKSIG] ->
      compressed_as script (byte_of_Z v :: x)
  | As_plain : compressed_as script (put_plain script).

Lemma compressed_nonempty script c : compressed_as script c -> c <> [].
Proof.
  destruct 1; try done. unfold put_plain. set (n := u64 _). pose proof (putVLQ_nonempty n).
  by destruct (putVLQ n).
Qed.

Lemma put_as script :
  compressed_as script (putCompressedScript script)
  /\ (zlen script + 6 < 2 ^ 31 -> compressedScriptSize script = zlen (putCompressedScript script)).
Proof.
  unfold putCompressedScript, compressedScriptSize.
  assert (Hplain : zlen script + 6 < 2 ^ 31 ->
    serializeSizeVLQ (u64 (zlen script + numSpecialScripts)) + zlen script = zlen (put_plain script)).
  { intros _. unfold put_plain, zlen at 3. rewrite length_app, Nat2Z.inj_add.
    fold (zlen (putVLQ (u64 (zlen script + numSpecialScripts)))).
    rewrite zlen_putVLQ by apply u64_range. done. }
  destruct (cs_isPubKeyHash script) as [h|] eqn:Hp.
  { apply pkh_form in Hp as [Hl ->]. split; [by constructor|]. intros _. unfold zlen. cbn [length]. by rewrite Hl. }
  destruct (cs_isScriptHash script) as [h|] eqn:Hs.
  { apply sh_form in Hs as [Hl ->]. split; [by constructor|]. intros _. unfold zlen. cbn [length]. by rewrite Hl. }
  destruct (isPubKey script) as [key|] eqn:Hk; [|split; [constructor|exact Hplain]].
  pose proof Hk as Hk'. apply pubkey_form in Hk' as [Hok [(v & x & Hv & Hx & -> & ->)|(x & y & Hx & Hy & -> & ->)]].
  - cbn [nth]. assert (Hsub : sub (byte_of_Z v :: x) 1 33 = x) by (unfold sub; cbn [drop]; by rewrite drop_0, take_ge by lia).
    rewrite Hsub. destruct Hv as [-> | ->];
      [change (Z_of_byte (byte_of_Z 2)) with 2|change (Z_of_byte (byte_of_Z 3)) with 3];
      cbn [Z.eqb Pos.eqb orb]; (split; [by apply As_compressed; auto|]); intros _; unfold zlen; cbn [length]; by rewrite Hx.
  - change (nth 0 (byte_of_Z 4 :: x ++ y) x00) with (byte_of_Z 4).
    assert (Hsub : sub (byte_of_Z 4 :: x ++ y) 1 33 = x)
      by (unfold sub; cbn [drop]; by rewrite drop_0, take_app_le, take_ge by lia).
    rewrite Hsub. change (Z_of_byte (byte_of_Z 4)) with 4. cbn [Z.eqb Pos.eqb orb].
    destruct (ParsePubKey (byte_of_Z 4 :: x ++ y)) as [k| |] eqn:Hparse; try done.
    split; [|intros _; unfold zlen; cbn [length]; by rewrite Hx].
    eapply (As_uncompressed _ (byte_of_Z 4 :: x ++ y) _ x y k); try done.
    + destruct (low_bit (nth 64 (byte_of_Z 4 :: x ++ y) x00)) as [-> | ->]; auto.
    + rewrite <- (recover_key x y k Hx Hy Hparse).
      destruct (low_bit (nth 64 (byte_of_Z 4 :: x ++ y) x00)) as [-> | ->]; done.
Qed.

Lemma decode_size_special v x rest :
  (v = 0 \/ v = 1) /\ length x = 20%nat \/ 2 <= v <= 5 /\ length x = 32%nat ->
  decodeCompressedScriptSize ((byte_of_Z v :: x) ++ rest) = zlen (byte_of_Z v :: x).
Proof.
  intros Hv. unfold decodeCompressedScriptSize. cbn [app]. rewrite deserialize_small by lia.
  unfold zlen. cbn [length Nat.eqb].
  unfold cstPayToPubKeyHash, cstPayToScriptHash, cstPayToPubKeyComp2, cstPayToPubKeyUncomp5.
  destruct Hv as [[[-> | ->] ->]|[Hv ->]]; try done. rewrite !(proj2 (Z.eqb_neq v _)) by lia.
  by rewrite !(proj2 (Z.leb_le _ _)) by lia.
Qed.

Lemma plain_size script rest :
  zlen script + 6 < 2 ^ 31 ->
  decodeCompressedScriptSize (put_plain script ++ rest) = zlen (put_plain script).
Proof.
  intros Hs. unfold decodeCompressedScriptSize, put_plain. rewrite <- app_assoc, deserialize_put by apply u64_range.
  pose proof (putVLQ_nonempty (u64 (zlen script + numSpecialScripts))) as Hne.
  rewrite (u64_small (zlen script + numSpecialScripts)) in * by (unfold numSpecialScripts, zlen in *; widths; lia).
  set (n := zlen script + numSpecialScripts) in *.
  assert (Hn : is_u64 n) by (unfold n, numSpecialScripts, zlen in *; widths; lia).
  pose proof (zlen_putVLQ n Hn) as Hz. unfold zlen in Hz.
  rewrite (proj2 (Nat.eqb_neq _ _)) by (by destruct (putVLQ n)).
  assert (6 <= n) by (unfold n, numSpecialScripts, zlen; lia).
  unfold cstPayToPubKeyHash, cstPayToScriptHash, cstPayToPubKeyComp2, cstPayToPubKeyUncomp5.
  rewrite !(proj2 (Z.eqb_neq n _)) by lia. cbn [orb].
  rewrite (proj2 (Z.leb_gt n 5)), andb_false_r by lia.
  assert (Z.of_nat (length (putVLQ n)) <= 11).
  { unfold putVLQ. rewrite length_reverse. clear. unfold vlq_fuel. generalize true as f. revert n.
    assert (Hall : forall fuel n f, (length (put_loop fuel f n) <= S fuel)%nat).
    { induction fuel as [|fuel IH]; intros n f; rewrite put_loop_group; cbn [length]; [lia|].
      case_if; cbn [length]; [lia|]. specialize (IH (Z.shiftr n 7 - 1) false). lia. }
    intros n f. specialize (Hall 10%nat n f). lia. }
  unfold zlen. rewrite length_app, Nat2Z.inj_add. fold (zlen script).
  replace (n - numSpecialScripts) with (zlen script) by (unfold n; lia).
  assert (Hu : is_u64 (zlen script) /\ is_u64 (zlen script + Z.of_nat (length (putVLQ n)))
             /\ is_i64 (zlen script + Z.of_nat (length (putVLQ n)))).
  { clear - Hs H0. unfold zlen in *. widths. lia. }
  destruct Hu as (Hu1 & Hu2 & Hu3). rewrite (u64_small _ Hu1), (u64_small _ Hu2), (i64_small _ Hu3). lia.
Qed.

Lemma plain_decompress {E} script :
  zlen script + 6 < 2 ^ 31 -> decompressScript (E := E) (put_plain script) = Ok script.
Proof.
  intros Hs. unfold decompressScript, put_plain.
  rewrite (u64_small (zlen script + numSpecialScripts)) by (unfold numSpecialScripts, zlen in *; widths; lia).
  set (n := zlen script + numSpecialScripts).
  assert (Hn : is_u64 n) by (unfold n, numSpecialScripts, zlen in *; widths; lia).
  pose proof (putVLQ_nonempty n) as Hne.
  rewrite (proj2 (Nat.eqb_neq _ _)) by (rewrite length_app; destruct (putVLQ n); [done|cbn; lia]).
  rewrite deserialize_put by done. assert (6 <= n) by (unfold n, numSpecialScripts, zlen; lia).
  unfold cstPayToPubKeyHash, cstPayToScriptHash, cstPayToPubKeyComp2, cstPayToPubKeyComp3,
    cstPayToPubKeyUncomp4, cstPayToPubKeyUncomp5.
  rewrite !(proj2 (Z.eqb_neq n _)) by lia. cbn [orb].
  replace (n - numSpecialScripts) with (zlen script) by (unfold n; lia).
  rewrite u64_small, i64_small by (unfold zlen in *; widths; lia).
  rewrite (proj2 (Z.ltb_ge _ _)) by (unfold zlen; lia).
  unfold zlen. rewrite Nat2Z.id. apply slice_tail.
Qed.

Lemma script_roundtrip {E} script c rest :
  compressed_as script c -> stored_script_ok script ->
  decodeCompressedScriptSize (c ++ rest) = zlen c /\ decompressScript (E := E) c = Ok script.
Proof.
  intros Hc Hs. destruct Hc as [h Hl ->|h Hl ->|v x Hv Hx ->|key v x y k Hv Hx Hy Hkey Hp Hk Hscript|].
  - split; [apply decode_size_special; auto|]. unfold decompressScript. cbn [length Nat.eqb].
    rewrite deserialize_small by lia. cbn [Z.eqb cstPayToPubKeyHash].
    by rewrite slice_after.
  - split; [apply decode_size_special; auto|]. unfold decompressScript. cbn [length Nat.eqb].
    rewrite deserialize_small by lia. cbn [Z.eqb Pos.eqb cstPayToPubKeyHash cstPayToScriptHash].
    by rewrite slice_after.
  - split; [apply decode_size_special; lia|]. unfold decompressScript. cbn [length Nat.eqb].
    rewrite deserialize_small by lia. rewrite (slice_after (E := E) (byte_of_Z v) x 32 Hx). by destruct Hv as [-> | ->].
  - split; [apply decode_size_special; lia|]. unfold decompressScript. cbn [length Nat.eqb].
    rewrite deserialize_small by lia. cbn [drop].
    assert (Hd : SerializeUncompressed k = key).
    { apply ParsePubKey_inv in Hp as (_ & _ & _ & [(Hl & _)|(_ & b & xb & yb & Hs' & Hxb & Hyb & HX & HY)]).
      - subst key. cbn in Hl. rewrite length_app in Hl. lia.
      - subst key. injection Hs' as Hb Hs'. apply app_inj_1 in Hs' as [-> ->]; [|lia].
        unfold SerializeUncompressed, paddedAppend. rewrite (padded_eq _ xb), (padded_eq _ yb) by done.
        by rewrite <- app_assoc. }
    rewrite drop_0, take_ge, Hx, Nat.sub_diag by lia. cbn [replicate]. rewrite app_nil_r, Hk, Hd.
    subst script. destruct Hv as [-> | ->]; done.
  - split; [by apply plain_size|by apply plain_decompress].
Qed.

(** ** Properties *)

(** the comment of compress.go about variable-length quantities: every
    uint64 has an encoding of [serializeSizeVLQ] bytes that decodes to it,
    whatever follows, and every terminated string of at most nine bytes is the
    encoding of exactly one number.  So there are no redundant encodings. *)
Theorem VLQ_bijective :
  (forall n rest, is_u64 n ->
     deserializeVLQ (putVLQ n ++ rest) = (n, length (putVLQ n)) /\ zlen (putVLQ n) = serializeSizeVLQ n)
  /\ (forall bs, vlq_string (reverse bs) -> (length bs <= 9)%nat ->
        exists n, is_u64 n /\ putVLQ n = bs /\ deserializeVLQ bs = (n, length bs)).
Proof.
  split; [intros n rest Hn; split; [by apply deserialize_put|by apply zlen_putVLQ]|].
  intros bs Hs Hl. destruct (putVLQ_onto bs Hs Hl) as (n & Hn & <-). exists n. split; [done|]. split; [done|].
  rewrite <- (app_nil_r (putVLQ n)) at 1. by apply deserialize_put.
Qed.

Lemma txout_roundtrip amount script rest :
  amount_ok amount -> stored_script_ok script ->
  zlen (putCompressedTxOut amount script) = compressedTxOutSize amount script
  /\ decodeCompressedTxOut (putCompressedTxOut amount script ++ rest)
     = Ok (amount, script, length (putCompressedTxOut amount script)).
Proof.
  intros Ha Hs. destruct (put_as script) as [Has Hsize].
  destruct (script_roundtrip (E := deserialize_error) script _ rest Has Hs) as [Hdec Hdecomp].
  unfold putCompressedTxOut, compressedTxOutSize. set (c := putCompressedScript script) in *.
  pose proof (compress_range amount) as Hr. split.
  - unfold zlen. rewrite length_app, Nat2Z.inj_add. fold (zlen c).
    fold (zlen (putVLQ (compressTxOutAmount amount))). rewrite zlen_putVLQ by done. by rewrite Hsize by apply Hs.
  - unfold decodeCompressedTxOut. rewrite <- app_assoc, deserialize_put by done.
    pose proof (compressed_nonempty script c Has) as Hc.
    assert (0 < length c)%nat by (destruct c; [done|cbn; lia]).
    rewrite (proj2 (Nat.leb_gt _ _)) by (rewrite !length_app; lia).
    rewrite drop_app_length, Hdec. unfold zlen. rewrite (proj2 (Z.ltb_ge _ _)) by (rewrite length_app; lia).
    rewrite (proj2 (Z.ltb_ge _ 0)) by lia. rewrite Nat2Z.id, slice_at by lia. cbn [rbind]. rewrite Hdecomp. cbn [rbind].
    by rewrite decompress_compress, length_app.
Qed.

#[global] Arguments putVLQ : simpl never.
#[global] Arguments deserializeVLQ : simpl never.
#[global] Arguments serializeSizeVLQ : simpl never.
#[global] Arguments putCompressedTxOut : simpl never.
#[global] Arguments decodeCompressedTxOut : simpl never.
