(* ===== verification/Engine.v ===== *)
(** * The script engine: txscript/engine.go, txscript/sigcache.go and the opcode
    handlers of txscript/opcode.go

    [Engine] is the Go struct; a handler is a function on it that can fail.
    Most handlers only touch the data stack and are written on [Stack.stack].
    The hash functions RIPEMD-160 and SHA-1 are the class [ScriptHashes]. *)

From S2P Require Import Prelude Chainhash Wire Hash WireMsg ScriptNum Stack Opcode Script.
From S2P Require Import ScriptBuilder Signature.

Class ScriptHashes := {
  Ripemd160 : list byte -> list byte;
  Sha1 : list byte -> list byte;
  Ripemd160_length : forall b, length (Ripemd160 b) = 20%nat;
  Sha1_length : forall b, length (Sha1 b) = 20%nat
}.

(** An instance for concrete checks: the first 20 bytes, padded with zeros. *)
Definition prefix20 (b : list byte) : list byte := take 20 (b ++ replicate 20 x00).
Lemma length_prefix20 b : length (prefix20 b) = 20%nat.
Proof. unfold prefix20. rewrite length_take, length_app, length_replicate. lia. Qed.
Definition prefix_script_hashes : ScriptHashes :=
  {| Ripemd160 := prefix20; Sha1 := prefix20;
     Ripemd160_length := length_prefix20; Sha1_length := length_prefix20 |}.

(** ** Flags *)

Definition ScriptBip16 : Z := 2 ^ 0.
Definition ScriptStrictMultiSig : Z := 2 ^ 1.
Definition ScriptDiscourageUpgradableNops : Z := 2 ^ 2.
Definition ScriptVerifyCheckLockTimeVerify : Z := 2 ^ 3.
Definition ScriptVerifyCheckSequenceVerify : Z := 2 ^ 4.
Definition ScriptVerifyCleanStack : Z := 2 ^ 5.
Definition ScriptVerifyDERSignatures : Z := 2 ^ 6.
Definition ScriptVerifyLowS : Z := 2 ^ 7.
Definition ScriptVerifyMinimalData : Z := 2 ^ 8.
Definition ScriptVerifyNullFail : Z := 2 ^ 9.
Definition ScriptVerifySigPushOnly : Z := 2 ^ 10.
Definition ScriptVerifyStrictEncoding : Z := 2 ^ 11.
Definition ScriptVerifyWitness : Z := 2 ^ 12.
Definition ScriptVerifyDiscourageUpgradeableWitnessProgram : Z := 2 ^ 13.
Definition ScriptVerifyMinimalIf : Z := 2 ^ 14.
Definition ScriptVerifyWitnessPubKeyType : Z := 2 ^ 15.

Definition MaxStackSize : Z := 1000.
Definition OpCondFalse : Z := 0.
Definition OpCondTrue : Z := 1.
Definition OpCondSkip : Z := 2.
Definition MaxTxInSequenceNum : Z := 0xffffffff.
Definition SequenceLockTimeDisabled : Z := Z.shiftl 1 31.
Definition SequenceLockTimeIsSeconds : Z := Z.shiftl 1 22.
Definition SequenceLockTimeMask : Z := 0xffff.

Section Engine.
Context `{HashFunctions} `{ScriptHashes} `{Curve} `{MapOrder}.

(** ** The signature cache *)

Record SigCache := mkSigCache {
  validSigs : gmap Hash (Signature * PubKey);
  maxEntries : Z
}.

Definition NewSigCache (n : Z) : SigCache := mkSigCache ∅ n.

Definition Exists (sigHash : Hash) (sig : Signature) (pubKey : PubKey) (c : SigCache) : bool :=
  match validSigs c !! sigHash with
  | Some (sig', key') =>
      ((pk_X key' =? pk_X pubKey) && (pk_Y key' =? pk_Y pubKey))
      && ((sig_R sig' =? sig_R sig) && (sig_S sig' =? sig_S sig))
  | None => false
  end.

(** The entry that is evicted is the first one of the iteration. *)
Definition Add (sigHash : Hash) (sig : Signature) (pubKey : PubKey) (c : SigCache) : SigCache :=
  if maxEntries c <=? 0 then c
  else
    let sigs := if maxEntries c <? Z.of_nat (size (validSigs c)) + 1
                then match range (validSigs c) with
                     | (k, _) :: _ => delete k (validSigs c)
                     | [] => validSigs c
                     end
                else validSigs c in
    mkSigCache (<[sigHash := (sig, pubKey)]> sigs) (maxEntries c).

(** The lookup in the cache with the verification on a miss; without a cache
    every signature is verified. *)
Definition verify_cached (cache : option SigCache) (hash : list byte) (sig : Signature)
    (pubKey : PubKey) : result script_error (bool * option SigCache) :=
  match cache with
  | Some c =>
      if Exists hash sig pubKey c then Ok (true, cache)
      else
        let* ok := Verify sig hash (Some pubKey) in
        if ok : bool then Ok (true, Some (Add hash sig pubKey c)) else Ok (false, cache)
  | None => let* ok := Verify sig hash (Some pubKey) in Ok (ok, None)
  end.

(** ** The state *)

(** [condStack] has its top first. *)
Record Engine := mkEngine {
  scripts : list (list parsedOpcode);
  scriptIdx : nat;
  scriptOff : nat;
  lastCodeSep : nat;
  dstack : stack;
  astack : stack;
  vm_tx : MsgTx;
  txIdx : nat;
  condStack : list Z;
  numOps : Z;
  flags : Z;
  sigCache : option SigCache;
  hashCache : option TxSigHashes;
  bip16 : bool;
  savedFirstStack : list (list byte);
  witnessVersion : Z;
  witnessProgram : option (list byte);
  inputAmount : Z
}.

Definition with_dstack (s : stack) (vm : Engine) : Engine :=
  mkEngine (scripts vm) (scriptIdx vm) (scriptOff vm) (lastCodeSep vm) s (astack vm) (vm_tx vm)
    (txIdx vm) (condStack vm) (numOps vm) (flags vm) (sigCache vm) (hashCache vm) (bip16 vm)
    (savedFirstStack vm) (witnessVersion vm) (witnessProgram vm) (inputAmount vm).
Definition with_astack (s : stack) (vm : Engine) : Engine :=
  mkEngine (scripts vm) (scriptIdx vm) (scriptOff vm) (lastCodeSep vm) (dstack vm) s (vm_tx vm)
    (txIdx vm) (condStack vm) (numOps vm) (flags vm) (sigCache vm) (hashCache vm) (bip16 vm)
    (savedFirstStack vm) (witnessVersion vm) (witnessProgram vm) (inputAmount vm).
Definition with_cond (c : list Z) (vm : Engine) : Engine :=
  mkEngine (scripts vm) (scriptIdx vm) (scriptOff vm) (lastCodeSep vm) (dstack vm) (astack vm)
    (vm_tx vm) (txIdx vm) c (numOps vm) (flags vm) (sigCache vm) (hashCache vm) (bip16 vm)
    (savedFirstStack vm) (witnessVersion vm) (witnessProgram vm) (inputAmount vm).
Definition with_numOps (n : Z) (vm : Engine) : Engine :=
  mkEngine (scripts vm) (scriptIdx vm) (scriptOff vm) (lastCodeSep vm) (dstack vm) (astack vm)
    (vm_tx vm) (txIdx vm) (condStack vm) n (flags vm) (sigCache vm) (hashCache vm) (bip16 vm)
    (savedFirstStack vm) (witnessVersion vm) (witnessProgram vm) (inputAmount vm).
Definition with_cache (c : option SigCache) (vm : Engine) : Engine :=
  mkEngine (scripts vm) (scriptIdx vm) (scriptOff vm) (lastCodeSep vm) (dstack vm) (astack vm)
    (vm_tx vm) (txIdx vm) (condStack vm) (numOps vm) (flags vm) c (hashCache vm) (bip16 vm)
    (savedFirstStack vm) (witnessVersion vm) (witnessProgram vm) (inputAmount vm).
Definition with_codeSep (n : nat) (vm : Engine) : Engine :=
  mkEngine (scripts vm) (scriptIdx vm) (scriptOff vm) n (dstack vm) (astack vm)
    (vm_tx vm) (txIdx vm) (condStack vm) (numOps vm) (flags vm) (sigCache vm) (hashCache vm)
    (bip16 vm) (savedFirstStack vm) (witnessVersion vm) (witnessProgram vm) (inputAmount vm).
(** The program counter. *)
Definition with_pc (idx off : nat) (vm : Engine) : Engine :=
  mkEngine (scripts vm) idx off (lastCodeSep vm) (dstack vm) (astack vm)
    (vm_tx vm) (txIdx vm) (condStack vm) (numOps vm) (flags vm) (sigCache vm) (hashCache vm)
    (bip16 vm) (savedFirstStack vm) (witnessVersion vm) (witnessProgram vm) (inputAmount vm).
Definition with_saved (s : list (list byte)) (vm : Engine) : Engine :=
  mkEngine (scripts vm) (scriptIdx vm) (scriptOff vm) (lastCodeSep vm) (dstack vm) (astack vm)
    (vm_tx vm) (txIdx vm) (condStack vm) (numOps vm) (flags vm) (sigCache vm) (hashCache vm)
    (bip16 vm) s (witnessVersion vm) (witnessProgram vm) (inputAmount vm).
Definition with_program (p : option (list byte)) (vm : Engine) : Engine :=
  mkEngine (scripts vm) (scriptIdx vm) (scriptOff vm) (lastCodeSep vm) (dstack vm) (astack vm)
    (vm_tx vm) (txIdx vm) (condStack vm) (numOps vm) (flags vm) (sigCache vm) (hashCache vm)
    (bip16 vm) (savedFirstStack vm) (witnessVersion vm) p (inputAmount vm).
Definition add_script (s : list parsedOpcode) (vm : Engine) : Engine :=
  mkEngine (scripts vm ++ [s]) (scriptIdx vm) (scriptOff vm) (lastCodeSep vm) (dstack vm) (astack vm)
    (vm_tx vm) (txIdx vm) (condStack vm) (numOps vm) (flags vm) (sigCache vm) (hashCache vm)
    (bip16 vm) (savedFirstStack vm) (witnessVersion vm) (witnessProgram vm) (inputAmount vm).

Definition hasFlag (vm : Engine) (flag : Z) : bool := Z.land (flags vm) flag =? flag.

Definition isBranchExecuting (vm : Engine) : bool :=
  match condStack vm with [] => true | c :: _ => c =? OpCondTrue end.

Definition isWitnessVersionActive (version : Z) (vm : Engine) : bool :=
  bool_decide (is_Some (witnessProgram vm)) && (u64 (witnessVersion vm) =? version).

(** [vm.scripts[vm.scriptIdx][vm.lastCodeSep:]] *)
Definition subScript (vm : Engine) : result script_error (list parsedOpcode) :=
  match scripts vm !! scriptIdx vm with
  | Some s => if (lastCodeSep vm <=? length s)%nat then Ok (drop (lastCodeSep vm) s) else Panic
  | None => Panic
  end.

(** [vm.tx.TxIn[vm.txIdx]] *)
Definition cur_txin (vm : Engine) : result script_error TxIn :=
  match tx_TxIn (vm_tx vm) !! txIdx vm with Some t => Ok t | None => Panic end.

(** [getStack] copies the items bottom up. *)
Definition getStack (s : stack) : list (list byte) := stk s.

(** [setStack] drops everything (an error of [DropN] is ignored) and pushes the
    items in order. *)
Definition clear_stack (s : stack) : stack :=
  match DropN (Depth s) s with Ok s' => s' | _ => s end.
Definition setStack (items : list (list byte)) (s : stack) : stack :=
  fold_left (fun s d => PushByteArray d s) items (clear_stack s).

(** ** Encoding checks *)

Definition checkHashTypeEncoding (vm : Engine) (hashType : Z) : result script_error unit :=
  if negb (hasFlag vm ScriptVerifyStrictEncoding) then Ok tt
  else
    let sigHashType := Z.ldiff hashType SigHashAnyOneCanPay in
    if (sigHashType <? SigHashAll) || (SigHashSingle <? sigHashType)
    then Err ErrInvalidSigHashType else Ok tt.

Definition checkPubKeyEncoding (vm : Engine) (pubKey : list byte) : result script_error unit :=
  if hasFlag vm ScriptVerifyWitnessPubKeyType && isWitnessVersionActive 0 vm
     && negb (IsCompressedPubKey pubKey)
  then Err ErrWitnessPubKeyType
  else if negb (hasFlag vm ScriptVerifyStrictEncoding) then Ok tt
  else if (length pubKey =? 33)%nat && ((data0 pubKey =? 0x02) || (data0 pubKey =? 0x03)) then Ok tt
  else if (length pubKey =? 65)%nat && (data0 pubKey =? 0x04) then Ok tt
  else Err ErrPubKeyType.

Definition maxSigLen : Z := 72.

(** The integer of [len] bytes at [off]: its marker, then its length and sign.
    [R] and [S] are checked alike, with their own errors. *)
Definition check_integer (sig : list byte) (markerOff off len : nat)
    (badMarker zeroLen negative padding : script_error) : result script_error unit :=
  let* marker := at_ sig markerOff in
  if negb (Z_of_byte marker =? 0x02) then Err badMarker
  else if (len =? 0)%nat then Err zeroLen
  else
    let* first := at_ sig off in
    if negb (Z.land first 0x80 =? 0) then Err negative
    else
      let* padded :=
        if (1 <? len)%nat && (Z_of_byte first =? 0x00) then
          let* second := at_ sig (off + 1) in Ok (Z.land second 0x80 =? 0)
        else Ok false in
      if padded : bool then Err padding else Ok tt.

Definition checkSignatureEncoding (vm : Engine) (sig : list byte) : result script_error unit :=
  if negb (hasFlag vm ScriptVerifyDERSignatures) && negb (hasFlag vm ScriptVerifyLowS)
     && negb (hasFlag vm ScriptVerifyStrictEncoding)
  then Ok tt
  else
    let sigLen := length sig in
    if Z.of_nat sigLen <? minSigLen then Err ErrSigTooShort
    else if maxSigLen <? Z.of_nat sigLen then Err ErrSigTooLong
    else
      let* seq := at_ sig 0 in
      if negb (Z_of_byte seq =? 0x30) then Err ErrSigInvalidSeqID
      else
        let* dataLen := at_ sig 1 in
        if negb (Z_of_byte dataLen =? Z.of_nat sigLen - 2) then Err ErrSigInvalidDataLen
        else
          let* rLenByte := at_ sig 3 in
          let rLen := Z.to_nat rLenByte in
          let sTypeOffset := (4 + rLen)%nat in
          let sLenOffset := (sTypeOffset + 1)%nat in
          if (sigLen <=? sTypeOffset)%nat then Err ErrSigMissingSTypeID
          else if (sigLen <=? sLenOffset)%nat then Err ErrSigMissingSLen
          else
            let sOffset := (sLenOffset + 1)%nat in
            let* sLenByte := at_ sig sLenOffset in
            let sLen := Z.to_nat sLenByte in
            if negb (sOffset + sLen =? sigLen)%nat then Err ErrSigInvalidSLen
            else
              let* _ := check_integer sig 2 4 rLen
                          ErrSigInvalidRIntID ErrSigZeroRLen ErrSigNegativeR ErrSigTooMuchRPadding in
              let* _ := check_integer sig sTypeOffset sOffset sLen
                          ErrSigInvalidSIntID ErrSigZeroSLen ErrSigNegativeS ErrSigTooMuchSPadding in
              if hasFlag vm ScriptVerifyLowS then
                let* s := slice sig sOffset (sOffset + sLen) in
                if halfOrder <? be_value s then Err ErrSigHighS else Ok tt
              else Ok tt.

(** ** Handlers *)

Definition on_dstack (f : stack -> result script_error stack) (vm : Engine)
  : result script_error Engine :=
  let* s := f (dstack vm) in Ok (with_dstack s vm).

Definition push (d : list byte) (s : stack) : result script_error stack := Ok (PushByteArray d s).
Definition push_bool_int (b : bool) (s : stack) : result script_error stack :=
  PushInt (if b then 1 else 0) s.

(** Handlers that replace one or two numbers on the stack. *)
Definition num1 (f : Z -> Z) (s : stack) : result script_error stack :=
  let* (m, s) := PopInt s in PushInt (f m) s.
Definition num2 (f : Z -> Z -> Z) (s : stack) : result script_error stack :=
  let* (v0, s) := PopInt s in
  let* (v1, s) := PopInt s in
  PushInt (f v0 v1) s.
Definition cmp2 (f : Z -> Z -> bool) (s : stack) : result script_error stack :=
  num2 (fun v0 v1 => if f v0 v1 then 1 else 0) s.

Definition abstractVerify (c : script_error) (s : stack) : result script_error stack :=
  let* (verified, s) := PopBool s in if verified : bool then Ok s else Err c.

Definition opcodeFalse (s : stack) := push [] s.
Definition opcodePushData (op : parsedOpcode) (s : stack) := push (data op) s.
Definition opcode1Negate (s : stack) := PushInt (-1) s.
Definition opcodeN (op : parsedOpcode) (s : stack) := PushInt (u8 (pop_value op - (OP_1 - 1))) s.

Definition opcodeNop (op : parsedOpcode) (vm : Engine) : result script_error Engine :=
  if elem_of_Z (pop_value op)
       [OP_NOP1; OP_NOP4; OP_NOP5; OP_NOP6; OP_NOP7; OP_NOP8; OP_NOP9; OP_NOP10]
     && hasFlag vm ScriptDiscourageUpgradableNops
  then Err ErrDiscourageUpgradableNOPs else Ok vm.

Definition popIfBool (vm : Engine) : result script_error (bool * stack) :=
  if negb (isWitnessVersionActive 0 vm) || negb (hasFlag vm ScriptVerifyMinimalIf)
  then PopBool (dstack vm)
  else
    let* (so, s) := PopByteArray (dstack vm) in
    if 1 <? zlen so then Err ErrMinimalIf
    else if (zlen so =? 1) && negb (data0 so =? 0x01) then Err ErrMinimalIf
    else Ok (asBool so, s).

Definition push_cond (c : Z) (vm : Engine) : Engine := with_cond (c :: condStack vm) vm.

(** [opcodeIf] takes the branch when the boolean is [sense], [opcodeNotIf] when
    it is not. *)
Definition open_branch (sense : bool) (vm : Engine) : result script_error Engine :=
  if isBranchExecuting vm then
    let* (ok, s) := popIfBool vm in
    Ok (push_cond (if eqb ok sense then OpCondTrue else OpCondFalse) (with_dstack s vm))
  else Ok (push_cond OpCondSkip vm).
Definition opcodeIf (vm : Engine) := open_branch true vm.
Definition opcodeNotIf (vm : Engine) := open_branch false vm.

Definition opcodeElse (vm : Engine) : result script_error Engine :=
  match condStack vm with
  | [] => Err ErrUnbalancedConditional
  | c :: cs =>
      Ok (with_cond ((if c =? OpCondTrue then OpCondFalse
                      else if c =? OpCondFalse then OpCondTrue else c) :: cs) vm)
  end.

Definition opcodeEndif (vm : Engine) : result script_error Engine :=
  match condStack vm with
  | [] => Err ErrUnbalancedConditional
  | _ :: cs => Ok (with_cond cs vm)
  end.

Definition opcodeVerify (s : stack) := abstractVerify ErrVerify s.

Definition verifyLockTime (txLockTime threshold lockTime : Z) : result script_error unit :=
  if negb (((txLockTime <? threshold) && (lockTime <? threshold))
           || ((threshold <=? txLockTime) && (threshold <=? lockTime)))
  then Err ErrUnsatisfiedLockTime
  else if txLockTime <? lockTime then Err ErrUnsatisfiedLockTime else Ok tt.

(** The operand of the two lock-time opcodes: a number of up to five bytes that
    stays on the stack. *)
Definition peek_locktime (s : stack) : result script_error Z :=
  let* so := PeekByteArray 0 s in
  let* n := makeScriptNum so (verifyMinimalData s) 5 in
  if n <? 0 then Err ErrNegativeLockTime else Ok n.

Definition as_nop (vm : Engine) : result script_error Engine :=
  if hasFlag vm ScriptDiscourageUpgradableNops then Err ErrDiscourageUpgradableNOPs else Ok vm.

Definition opcodeCheckLockTimeVerify (vm : Engine) : result script_error Engine :=
  if negb (hasFlag vm ScriptVerifyCheckLockTimeVerify) then as_nop vm
  else
    let* lockTime := peek_locktime (dstack vm) in
    let* _ := verifyLockTime (tx_LockTime (vm_tx vm)) LockTimeThreshold lockTime in
    let* txin := cur_txin vm in
    if ti_Sequence txin =? MaxTxInSequenceNum then Err ErrUnsatisfiedLockTime else Ok vm.

Definition opcodeCheckSequenceVerify (vm : Engine) : result script_error Engine :=
  if negb (hasFlag vm ScriptVerifyCheckSequenceVerify) then as_nop vm
  else
    let* sequence := peek_locktime (dstack vm) in
    if negb (Z.land sequence SequenceLockTimeDisabled =? 0) then Ok vm
    else if tx_Version (vm_tx vm) <? 2 then Err ErrUnsatisfiedLockTime
    else
      let* txin := cur_txin vm in
      let txSequence := ti_Sequence txin in
      if negb (Z.land txSequence SequenceLockTimeDisabled =? 0) then Err ErrUnsatisfiedLockTime
      else
        let lockTimeMask := Z.lor SequenceLockTimeIsSeconds SequenceLockTimeMask in
        let* _ := verifyLockTime (Z.land txSequence lockTimeMask) SequenceLockTimeIsSeconds
                    (Z.land sequence lockTimeMask) in
        Ok vm.

Definition opcodeToAltStack (vm : Engine) : result script_error Engine :=
  let* (so, s) := PopByteArray (dstack vm) in
  Ok (with_astack (PushByteArray so (astack vm)) (with_dstack s vm)).

Definition opcodeFromAltStack (vm : Engine) : result script_error Engine :=
  let* (so, s) := PopByteArray (astack vm) in
  Ok (with_dstack (PushByteArray so (dstack vm)) (with_astack s vm)).

Definition opcodeIfDup (s : stack) : result script_error stack :=
  let* so := PeekByteArray 0 s in if asBool so then push so s else Ok s.

Definition opcodeDepth (s : stack) : result script_error stack := PushInt (Depth s) s.

Definition opcodePick (s : stack) : result script_error stack :=
  let* (val, s) := PopInt s in PickN (Int32 val) s.
Definition opcodeRoll (s : stack) : result script_error stack :=
  let* (val, s) := PopInt s in RollN (Int32 val) s.

Definition opcodeSize (s : stack) : result script_error stack :=
  let* so := PeekByteArray 0 s in PushInt (zlen so) s.

Definition opcodeEqual (s : stack) : result script_error stack :=
  let* (a, s) := PopByteArray s in
  let* (b, s) := PopByteArray s in
  Ok (PushBool (bool_decide (a = b)) s).

Definition opcodeEqualVerify (s : stack) : result script_error stack :=
  let* s := opcodeEqual s in abstractVerify ErrEqualVerify s.

Definition opcode1Add := num1 (fun m => i64 (m + 1)).
Definition opcode1Sub := num1 (fun m => i64 (m - 1)).
Definition opcodeNegate := num1 (fun m => i64 (- m)).
Definition opcodeAbs := num1 (fun m => if m <? 0 then i64 (- m) else m).
Definition opcodeNot := num1 (fun m => if m =? 0 then 1 else 0).
Definition opcode0NotEqual := num1 (fun m => if negb (m =? 0) then 1 else m).
Definition opcodeAdd := num2 (fun v0 v1 => i64 (v0 + v1)).
Definition opcodeSub := num2 (fun v0 v1 => i64 (v1 - v0)).
Definition opcodeBoolAnd := cmp2 (fun v0 v1 => negb (v0 =? 0) && negb (v1 =? 0)).
Definition opcodeBoolOr := cmp2 (fun v0 v1 => negb (v0 =? 0) || negb (v1 =? 0)).
Definition opcodeNumEqual := cmp2 (fun v0 v1 => v0 =? v1).
Definition opcodeNumEqualVerify (s : stack) : result script_error stack :=
  let* s := opcodeNumEqual s in abstractVerify ErrNumEqualVerify s.
Definition opcodeNumNotEqual := cmp2 (fun v0 v1 => negb (v0 =? v1)).
Definition opcodeLessThan := cmp2 (fun v0 v1 => v1 <? v0).
Definition opcodeGreaterThan := cmp2 (fun v0 v1 => v0 <? v1).
Definition opcodeLessThanOrEqual := cmp2 (fun v0 v1 => v1 <=? v0).
Definition opcodeGreaterThanOrEqual := cmp2 (fun v0 v1 => v0 <=? v1).
Definition opcodeMin := num2 (fun v0 v1 => if v1 <? v0 then v1 else v0).
Definition opcodeMax := num2 (fun v0 v1 => if v0 <? v1 then v1 else v0).
Definition opcodeWithin (s : stack) : result script_error stack :=
  let* (maxVal, s) := PopInt s in
  let* (minVal, s) := PopInt s in
  let* (x, s) := PopInt s in
  push_bool_int ((minVal <=? x) && (x <? maxVal)) s.

(** Handlers that replace the top by its hash. *)
Definition hash_top (f : list byte -> list byte) (s : stack) : result script_error stack :=
  let* (buf, s) := PopByteArray s in push (f buf) s.
Definition opcodeRipemd160 := hash_top Ripemd160.
Definition opcodeSha1 := hash_top Sha1.
Definition opcodeSha256 := hash_top Sum256.
Definition opcodeHash160 := hash_top (fun buf => Ripemd160 (Sum256 buf)).
Definition opcodeHash256 := hash_top DoubleHashB.

Definition opcodeCodeSeparator (vm : Engine) : result script_error Engine :=
  Ok (with_codeSep (scriptOff vm) vm).

(** *** Signature checks *)

Definition sig_hash (vm : Engine) (script : list parsedOpcode) (hashType : Z)
  : result script_error (list byte) :=
  if isWitnessVersionActive 0 vm then
    let sigHashes := default (NewTxSigHashes (vm_tx vm)) (hashCache vm) in
    match calcWitnessSignatureHash script sigHashes hashType (vm_tx vm) (txIdx vm) (inputAmount vm) with
    | Some hash => Ok hash
    | None => Err OtherError
    end
  else calcSignatureHash script hashType (vm_tx vm) (txIdx vm).

Definition parse_signature (vm : Engine) (sigBytes : list byte) : result sig_error Signature :=
  if hasFlag vm ScriptVerifyStrictEncoding || hasFlag vm ScriptVerifyDERSignatures
  then ParseDERSignature sigBytes else ParseSignature sigBytes.

Definition opcodeCheckSig (vm : Engine) : result script_error Engine :=
  let* (pkBytes, s) := PopByteArray (dstack vm) in
  let* (fullSigBytes, s) := PopByteArray s in
  if zlen fullSigBytes <? 1 then Ok (with_dstack (PushBool false s) vm)
  else
    let hashType := Z_of_byte (from_end 0 fullSigBytes) in
    let sigBytes := take (length fullSigBytes - 1) fullSigBytes in
    let* _ := checkHashTypeEncoding vm hashType in
    let* _ := checkSignatureEncoding vm sigBytes in
    let* _ := checkPubKeyEncoding vm pkBytes in
    let* sub := subScript vm in
    let sub := if isWitnessVersionActive 0 vm then sub else removeOpcodeByData sub fullSigBytes in
    let* hash := sig_hash vm sub hashType in
    match ParsePubKey pkBytes with
    | Panic => Panic
    | Err _ => Ok (with_dstack (PushBool false s) vm)
    | Ok pubKey =>
        match parse_signature vm sigBytes with
        | Panic => Panic
        | Err _ => Ok (with_dstack (PushBool false s) vm)
        | Ok signature =>
            let* (valid, cache) := verify_cached (sigCache vm) hash signature pubKey in
            if negb valid && hasFlag vm ScriptVerifyNullFail && (0 <? zlen sigBytes)
            then Err ErrNullFail
            else Ok (with_cache cache (with_dstack (PushBool valid s) vm))
        end
    end.

(** A verifying variant runs the check and then [abstractVerify]. *)
Definition then_verify (c : script_error) (r : result script_error Engine)
  : result script_error Engine :=
  let* vm := r in on_dstack (abstractVerify c) vm.

Definition opcodeCheckSigVerify (vm : Engine) : result script_error Engine :=
  then_verify ErrCheckSigVerify (opcodeCheckSig vm).

Fixpoint pop_n (n : nat) (s : stack) : result script_error (list (list byte) * stack) :=
  match n with
  | O => Ok ([], s)
  | S n =>
      let* (so, s) := PopByteArray s in
      let* (rest, s) := pop_n n s in
      Ok (so :: rest, s)
  end.

(** The matching of signatures with keys.  The remaining keys and signatures
    are the suffixes from [pubKeyIdx] and [signatureIdx] on; [parsed] is the
    state of the current signature: not parsed yet, unparsable, or parsed. *)
Fixpoint multisig_loop (vm : Engine) (script : list parsedOpcode) (pubKeys signatures : list (list byte))
    (parsed : option (option Signature)) (cache : option SigCache)
  : result script_error (bool * option SigCache) :=
  match signatures with
  | [] => Ok (true, cache)
  | rawSig :: sigs =>
      match pubKeys with
      | [] => Ok (false, cache)
      | pubKey :: keys =>
          if (length pubKeys <? length signatures)%nat then Ok (false, cache)
          else if (length rawSig =? 0)%nat then multisig_loop vm script keys signatures parsed cache
          else
            let hashType := Z_of_byte (from_end 0 rawSig) in
            let signature := take (length rawSig - 1) rawSig in
            let* parsedSig :=
              match parsed with
              | Some p => Ok p
              | None =>
                  let* _ := checkHashTypeEncoding vm hashType in
                  let* _ := checkSignatureEncoding vm signature in
                  match parse_signature vm signature with
                  | Ok sig => Ok (Some sig)
                  | Err _ => Ok None
                  | Panic => Panic
                  end
              end in
            match parsedSig with
            | None => multisig_loop vm script keys signatures (Some None) cache
            | Some sig =>
                let* _ := checkPubKeyEncoding vm pubKey in
                match ParsePubKey pubKey with
                | Panic => Panic
                | Err _ => multisig_loop vm script keys signatures (Some (Some sig)) cache
                | Ok key =>
                    let* hash := sig_hash vm script hashType in
                    let* (valid, cache) := verify_cached cache hash sig key in
                    if valid : bool then multisig_loop vm script keys sigs None cache
                    else multisig_loop vm script keys signatures (Some (Some sig)) cache
                end
            end
      end
  end.

(** After an error the engine is not used again, and the model drops it with the
    signatures it has cached so far; the source keeps those, which are valid. *)
Definition opcodeCheckMultiSig (vm : Engine) : result script_error Engine :=
  let* (numKeys, s) := PopInt (dstack vm) in
  let numPubKeys := Int32 numKeys in
  if numPubKeys <? 0 then Err ErrInvalidPubKeyCount
  else if MaxPubKeysPerMultiSig <? numPubKeys then Err ErrInvalidPubKeyCount
  else
    let vm := with_numOps (numOps vm + numPubKeys) vm in
    if MaxOpsPerScript <? numOps vm then Err ErrTooManyOperations
    else
      let* (pubKeys, s) := pop_n (Z.to_nat numPubKeys) s in
      let* (numSigs, s) := PopInt s in
      let numSignatures := Int32 numSigs in
      if numSignatures <? 0 then Err ErrInvalidSignatureCount
      else if numPubKeys <? numSignatures then Err ErrInvalidSignatureCount
      else
        let* (signatures, s) := pop_n (Z.to_nat numSignatures) s in
        let* (dummy, s) := PopByteArray s in
        if hasFlag vm ScriptStrictMultiSig && negb (length dummy =? 0)%nat then Err ErrSigNullDummy
        else
          let* script := subScript vm in
          let script := if isWitnessVersionActive 0 vm then script
                        else fold_left removeOpcodeByData signatures script in
          let* (success, cache) := multisig_loop vm script pubKeys signatures None (sigCache vm) in
          if negb success && hasFlag vm ScriptVerifyNullFail
             && existsb (fun sig => 0 <? zlen sig) signatures
          then Err ErrNullFail
          else Ok (with_cache cache (with_dstack (PushBool success s) vm)).

Definition opcodeCheckMultiSigVerify (vm : Engine) : result script_error Engine :=
  then_verify ErrCheckMultiSigVerify (opcodeCheckMultiSig vm).

(** [op.opcode.opfunc(op, vm)] *)
Definition call_opfunc (op : parsedOpcode) (vm : Engine) : result script_error Engine :=
  match opfunc (pop_opcode op) with
  | H_opcodeFalse => on_dstack opcodeFalse vm
  | H_opcodePushData => on_dstack (opcodePushData op) vm
  | H_opcode1Negate => on_dstack opcode1Negate vm
  | H_opcodeReserved => Err ErrReservedOpcode
  | H_opcodeN => on_dstack (opcodeN op) vm
  | H_opcodeNop => opcodeNop op vm
  | H_opcodeIf => opcodeIf vm
  | H_opcodeNotIf => opcodeNotIf vm
  | H_opcodeElse => opcodeElse vm
  | H_opcodeEndif => opcodeEndif vm
  | H_opcodeVerify => on_dstack opcodeVerify vm
  | H_opcodeReturn => Err ErrEarlyReturn
  | H_opcodeCheckLockTimeVerify => opcodeCheckLockTimeVerify vm
  | H_opcodeCheckSequenceVerify => opcodeCheckSequenceVerify vm
  | H_opcodeToAltStack => opcodeToAltStack vm
  | H_opcodeFromAltStack => opcodeFromAltStack vm
  | H_opcode2Drop => on_dstack (DropN 2) vm
  | H_opcode2Dup => on_dstack (DupN 2) vm
  | H_opcode3Dup => on_dstack (DupN 3) vm
  | H_opcode2Over => on_dstack (OverN 2) vm
  | H_opcode2Rot => on_dstack (RotN 2) vm
  | H_opcode2Swap => on_dstack (SwapN 2) vm
  | H_opcodeIfDup => on_dstack opcodeIfDup vm
  | H_opcodeDepth => on_dstack opcodeDepth vm
  | H_opcodeDrop => on_dstack (DropN 1) vm
  | H_opcodeDup => on_dstack (DupN 1) vm
  | H_opcodeNip => on_dstack (NipN 1) vm
  | H_opcodeOver => on_dstack (OverN 1) vm
  | H_opcodePick => on_dstack opcodePick vm
  | H_opcodeRoll => on_dstack opcodeRoll vm
  | H_opcodeRot => on_dstack (RotN 1) vm
  | H_opcodeSwap => on_dstack (SwapN 1) vm
  | H_opcodeTuck => on_dstack Tuck vm
  | H_opcodeDisabled => Err ErrDisabledOpcode
  | H_opcodeSize => on_dstack opcodeSize vm
  | H_opcodeEqual => on_dstack opcodeEqual vm
  | H_opcodeEqualVerify => on_dstack opcodeEqualVerify vm
  | H_opcode1Add => on_dstack opcode1Add vm
  | H_opcode1Sub => on_dstack opcode1Sub vm
  | H_opcodeNegate => on_dstack opcodeNegate vm
  | H_opcodeAbs => on_dstack opcodeAbs vm
  | H_opcodeNot => on_dstack opcodeNot vm
  | H_opcode0NotEqual => on_dstack opcode0NotEqual vm
  | H_opcodeAdd => on_dstack opcodeAdd vm
  | H_opcodeSub => on_dstack opcodeSub vm
  | H_opcodeBoolAnd => on_dstack opcodeBoolAnd vm
  | H_opcodeBoolOr => on_dstack opcodeBoolOr vm
  | H_opcodeNumEqual => on_dstack opcodeNumEqual vm
  | H_opcodeNumEqualVerify => on_dstack opcodeNumEqualVerify vm
  | H_opcodeNumNotEqual => on_dstack opcodeNumNotEqual vm
  | H_opcodeLessThan => on_dstack opcodeLessThan vm
  | H_opcodeGreaterThan => on_dstack opcodeGreaterThan vm
  | H_opcodeLessThanOrEqual => on_dstack opcodeLessThanOrEqual vm
  | H_opcodeGreaterThanOrEqual => on_dstack opcodeGreaterThanOrEqual vm
  | H_opcodeMin => on_dstack opcodeMin vm
  | H_opcodeMax => on_dstack opcodeMax vm
  | H_opcodeWithin => on_dstack opcodeWithin vm
  | H_opcodeRipemd160 => on_dstack opcodeRipemd160 vm
  | H_opcodeSha1 => on_dstack opcodeSha1 vm
  | H_opcodeSha256 => on_dstack opcodeSha256 vm
  | H_opcodeHash160 => on_dstack opcodeHash160 vm
  | H_opcodeHash256 => on_dstack opcodeHash256 vm
  | H_opcodeCodeSeparator => opcodeCodeSeparator vm
  | H_opcodeCheckSig => opcodeCheckSig vm
  | H_opcodeCheckSigVerify => opcodeCheckSigVerify vm
  | H_opcodeCheckMultiSig => opcodeCheckMultiSig vm
  | H_opcodeCheckMultiSigVerify => opcodeCheckMultiSigVerify vm
  | H_opcodeInvalid => Err ErrReservedOpcode
  end.

(** ** Execution *)

(** The limits on operations and on element sizes, which also hold in branches
    that are not executed. *)
Definition count_op (pop : parsedOpcode) (vm : Engine) : result script_error Engine :=
  if OP_16 <? pop_value pop then
    let vm := with_numOps (numOps vm + 1) vm in
    if MaxOpsPerScript <? numOps vm then Err ErrTooManyOperations else Ok vm
  else if MaxScriptElementSize <? zlen (data pop) then Err ErrElementTooBig
  else Ok vm.

Definition executeOpcode (pop : parsedOpcode) (vm : Engine) : result script_error Engine :=
  if isDisabled pop then Err ErrDisabledOpcode
  else if alwaysIllegal pop then Err ErrReservedOpcode
  else
    let* vm := count_op pop vm in
    if negb (isBranchExecuting vm) && negb (isConditional pop) then Ok vm
    else
      let* _ :=
        if verifyMinimalData (dstack vm) && isBranchExecuting vm
           && (0 <=? pop_value pop) && (pop_value pop <=? OP_PUSHDATA4)
        then checkMinimalDataPush pop else Ok tt in
      call_opfunc pop vm.

Definition validPC (vm : Engine) : result script_error unit :=
  match scripts vm !! scriptIdx vm with
  | None => Err ErrInvalidProgramCounter
  | Some s => if (length s <=? scriptOff vm)%nat then Err ErrInvalidProgramCounter else Ok tt
  end.

Definition parse_or_err (script : list byte) : result script_error (list parsedOpcode) :=
  match parseScript script with
  | (pops, None) => Ok pops
  | (_, Some e) => Err e
  end.

Definition verifyWitnessProgram (witness : list (list byte)) (vm : Engine)
  : result script_error Engine :=
  let program := default [] (witnessProgram vm) in
  let* vm :=
    if isWitnessVersionActive 0 vm then
      if zlen program =? payToWitnessPubKeyHashDataSize then
        if negb (zlen witness =? 2) then Err ErrWitnessProgramMismatch
        else
          let* pkScript := payToPubKeyHashScript program in
          let* pops := parse_or_err pkScript in
          Ok (with_dstack (setStack witness (dstack vm)) (add_script pops vm))
      else if zlen program =? payToWitnessScriptHashDataSize then
        match list.last witness with
        | None => Err ErrWitnessProgramEmpty
        | Some witnessScript =>
            if MaxScriptSize <? zlen witnessScript then Err ErrScriptTooBig
            else if negb (bool_decide (Sum256 witnessScript = program)) then Err ErrWitnessProgramMismatch
            else
              let* pops := parse_or_err witnessScript in
              Ok (with_dstack (setStack (take (length witness - 1) witness) (dstack vm))
                    (add_script pops vm))
        end
      else Err ErrWitnessProgramWrongLength
    else if hasFlag vm ScriptVerifyDiscourageUpgradeableWitnessProgram
    then Err ErrDiscourageUpgradableWitnessProgram
    else Ok (with_program None vm) in
  if isWitnessVersionActive 0 vm
     && existsb (fun e => MaxScriptElementSize <? zlen e) (getStack (dstack vm))
  then Err ErrElementTooBig
  else Ok vm.

(** The remaining stack is part of the result: [Step] goes on with it. *)
Definition CheckErrorCondition (finalScript : bool) (vm : Engine) : result script_error Engine :=
  if (scriptIdx vm <? length (scripts vm))%nat then Err ErrScriptUnfinished
  else if finalScript && isWitnessVersionActive 0 vm && negb (Depth (dstack vm) =? 1) then Err ErrEvalFalse
  else if finalScript && hasFlag vm ScriptVerifyCleanStack && negb (Depth (dstack vm) =? 1)
       then Err ErrCleanStack
  else if Depth (dstack vm) <? 1 then Err ErrEmptyStack
  else
    let* (v, s) := PopBool (dstack vm) in
    if v : bool then Ok (with_dstack s vm) else Err ErrEvalFalse.

(** What happens after the last opcode of a script: the redeem script of a
    pay-to-script-hash output and the witness program become the next script. *)
Definition next_script (vm : Engine) : result script_error Engine :=
  let idx := scriptIdx vm in
  if (idx =? 0)%nat && bip16 vm then
    Ok (with_saved (getStack (dstack vm)) (with_pc (S idx) 0 vm))
  else if (idx =? 1)%nat && bip16 vm then
    let* vm := CheckErrorCondition false (with_pc (S idx) 0 vm) in
    match list.last (savedFirstStack vm) with
    | None => Panic
    | Some script =>
        let* pops := parse_or_err script in
        let saved := take (length (savedFirstStack vm) - 1) (savedFirstStack vm) in
        Ok (with_dstack (setStack saved (dstack vm)) (add_script pops vm))
    end
  else if bool_decide (is_Some (witnessProgram vm))
          && ((idx =? 1)%nat || ((idx =? 2)%nat && bip16 vm)) then
    let vm := with_pc (S idx) 0 vm in
    let* txin := cur_txin vm in
    verifyWitnessProgram (ti_Witness txin) vm
  else Ok (with_pc (S idx) 0 vm).

(** An empty script is skipped (one, not several). *)
Definition skip_empty (vm : Engine) : Engine :=
  match scripts vm !! scriptIdx vm with
  | Some s => if (length s <=? scriptOff vm)%nat then with_pc (S (scriptIdx vm)) (scriptOff vm) vm else vm
  | None => vm
  end.

(** The result is whether the last script has ended. *)
Definition Step (vm : Engine) : result script_error (bool * Engine) :=
  let* _ := validPC vm in
  match scripts vm !! scriptIdx vm with
  | None => Panic
  | Some script =>
      match script !! scriptOff vm with
      | None => Panic
      | Some opcode =>
          let* vm := executeOpcode opcode (with_pc (scriptIdx vm) (S (scriptOff vm)) vm) in
          let combinedStackSize := i32 (Depth (dstack vm) + Depth (astack vm)) in
          if MaxStackSize <? combinedStackSize then Err ErrStackOverflow
          else if (scriptOff vm <? length script)%nat then Ok (false, vm)
          else if negb (length (condStack vm) =? 0)%nat then Err ErrUnbalancedConditional
          else
            let vm := with_numOps 0 (with_astack (clear_stack (astack vm))
                        (with_pc (scriptIdx vm) 0 vm)) in
            let* vm := next_script vm in
            let vm := with_codeSep 0 (skip_empty vm) in
            Ok ((length (scripts vm) <=? scriptIdx vm)%nat, vm)
      end
  end.

(** [for !done { done, err = vm.Step() ... }], at most [n] iterations: the
    outcome is a state that has not finished, or the end of the loop. *)
Inductive run_state :=
  | Running (vm : Engine)
  | Stopped (r : result script_error Engine).

Definition step_run (s : run_state) : run_state :=
  match s with
  | Running vm =>
      match Step vm with
      | Ok (true, vm) => Stopped (Ok vm)
      | Ok (false, vm) => Running vm
      | Err e => Stopped (Err e)
      | Panic => Stopped Panic
      end
  | Stopped r => s
  end.

Fixpoint run (n : positive) (s : run_state) : run_state :=
  match s with
  | Stopped _ => s
  | Running _ =>
      match n with
      | xH => step_run s
      | xO n => run n (run n s)
      | xI n => run n (run n (step_run s))
      end
  end.

(** Enough for every script a consensus limit lets through. *)
Definition execute_fuel : positive := 65536.

(** [None]: the fuel was not enough. *)
Definition Execute (vm : Engine) : option (result script_error unit) :=
  match run execute_fuel (Running vm) with
  | Running _ => None
  | Stopped r => Some (let* vm := r in let* _ := CheckErrorCondition true vm in Ok tt)
  end.

(** ** Construction *)

Definition empty_stack (minimal : bool) : stack := mkStack [] minimal.

Definition parse_limited (script : list byte) : result script_error (list parsedOpcode) :=
  if MaxScriptSize <? zlen script then Err ErrScriptTooBig else parse_or_err script.

(** The witness program of an input, if it spends one. *)
Definition find_witness (isBip16 : bool) (scriptSig scriptPubKey : list byte)
    (sigPops pkPops : list parsedOpcode) (witness : list (list byte))
  : result script_error (option (list byte)) :=
  if isWitnessProgram pkPops then
    if negb (length scriptSig =? 0)%nat then Err ErrWitnessMalleated else Ok (Some scriptPubKey)
  else if negb (length witness =? 0)%nat && isBip16 then
    match sigPops with
    | [pop] => if canonicalPush pop && IsWitnessProgram (data pop) then Ok (Some (data pop))
               else Err ErrWitnessMalleatedP2SH
    | _ => Err ErrWitnessMalleatedP2SH
    end
  else Ok None.

(** [witnessVersion] and [witnessProgram]. *)
Definition witness_info (has : Z -> bool) (isBip16 : bool) (scriptSig scriptPubKey : list byte)
    (sigPops pkPops : list parsedOpcode) (witness : list (list byte))
  : result script_error (Z * option (list byte)) :=
  if negb (has ScriptVerifyWitness) then Ok (0, None)
  else if negb (has ScriptBip16) then Err ErrInvalidFlags
  else
    let* witProgram := find_witness isBip16 scriptSig scriptPubKey sigPops pkPops witness in
    match witProgram with
    | Some p =>
        match ExtractWitnessProgramInfo p with
        | Some (version, program) => Ok (version, Some program)
        | None => Err OtherError
        end
    | None =>
        if negb (length witness =? 0)%nat then Err ErrWitnessUnexpected else Ok (0, None)
    end.

Definition NewEngine (scriptPubKey : list byte) (tx : MsgTx) (idx : Z) (fl : Z)
    (sc : option SigCache) (hc : option TxSigHashes) (amount : Z) : result script_error Engine :=
  let has flag := Z.land fl flag =? flag in
  if (idx <? 0) || (zlen (tx_TxIn tx) <=? idx) then Err ErrInvalidIndex
  else match tx_TxIn tx !! Z.to_nat idx with
  | None => Panic
  | Some txin =>
      let scriptSig := ti_SignatureScript txin in
      if (length scriptSig =? 0)%nat && (length scriptPubKey =? 0)%nat then Err ErrEvalFalse
      else if has ScriptVerifyCleanStack && (negb (has ScriptBip16) && negb (has ScriptVerifyWitness))
           then Err ErrInvalidFlags
      else if has ScriptVerifySigPushOnly && negb (IsPushOnlyScript scriptSig) then Err ErrNotPushOnly
      else
        let* sigPops := parse_limited scriptSig in
        let* pkPops := parse_limited scriptPubKey in
        let start := if (length scriptSig =? 0)%nat then 1%nat else 0%nat in
        let p2sh := has ScriptBip16 && isScriptHash pkPops in
        if p2sh && negb (isPushOnly sigPops) then Err ErrNotPushOnly
        else
          let minimal := has ScriptVerifyMinimalData in
          let* (version, program) :=
            witness_info has p2sh scriptSig scriptPubKey sigPops pkPops (ti_Witness txin) in
          Ok (mkEngine [sigPops; pkPops] start 0 0 (empty_stack minimal) (empty_stack minimal)
                tx (Z.to_nat idx) [] 0 fl sc hc p2sh [] version program amount)
  end.

End Engine.
