(* ===== verification/EngineSafety.v ===== *)
(** * Safety and termination of the script engine

    Every operation of the engine keeps the stacks within their limits and
    never panics, and every script runs to an end.  The reasoning is a small
    program logic: [safe r Q] says that [r] is no panic and that its value, if
    it has one, satisfies [Q]. *)

From S2P Require Import Prelude Chainhash Wire Hash WireMsg ScriptNum Stack Opcode Script.
From S2P Require Import ScriptBuilder Signature Engine.

(** ** The logic *)

Definition safe {E A} (r : result E A) (Q : A -> Prop) : Prop :=
  match r with Ok a => Q a | Err _ => True | Panic => False end.

Lemma safe_bind {E A B} (c : result E A) (k : A -> result E B) P Q :
  safe c P -> (forall a, P a -> safe (k a) Q) -> safe (rbind c k) Q.
Proof. destruct c; cbn; auto. Qed.

Lemma safe_mono {E A} (r : result E A) (P Q : A -> Prop) :
  safe r P -> (forall a, P a -> Q a) -> safe r Q.
Proof. destruct r; cbn; auto. Qed.

Lemma safe_no_panic {E A} (r : result E A) : r <> Panic -> safe r (fun _ => True).
Proof. destruct r; cbn; auto. Qed.

Create HintDb safe.

(** ** Stacks *)

Definition elem_small (e : list byte) : Prop := zlen e <= MaxScriptElementSize.

(** Heights are bounded far below what an int32 counter holds. *)
Definition height_limit : nat := Z.to_nat 1000000.
Lemma height_limit_Z : Z.of_nat height_limit = 1000000.
Proof. unfold height_limit. lia. Qed.
#[global] Opaque height_limit.

(** A stack of at most [n] elements, each within the size limit. *)
Record sok (n : nat) (s : stack) : Prop := {
  sok_height : (length (stk s) <= n)%nat;
  sok_elems : Forall elem_small (stk s)
}.

Lemma sok_weaken n m s : sok n s -> (n <= m)%nat -> sok m s.
Proof. intros [Hl He] Hle. split; [lia|done]. Qed.

Lemma depth_ok n s : sok n s -> (n <= height_limit)%nat ->
  i32 (Z.of_nat (length (stk s))) = Z.of_nat (length (stk s)).
Proof. intros [Hl _] Hn. apply depth_small. pose proof height_limit_Z. unfold stack_small. lia. Qed.

Lemma nipN_safe idx n s :
  sok n s -> (n <= height_limit)%nat ->
  safe (nipN idx s) (fun p => elem_small p.1 /\ exists m, n = S m /\ sok m p.2).
Proof.
  intros Hs Hn. unfold nipN. rewrite (depth_ok n s Hs Hn). destruct Hs as [Hl He].
  destruct (_ || _) eqn:Hr; [done|]. apply orb_false_iff in Hr as [Hr1 Hr2]. bool_to_Z.
  set (sz := Z.of_nat (length (stk s))) in *.
  destruct (lookup_lt_is_Some_2 (stk s) (Z.to_nat (sz - idx - 1))) as [so Hso]; [lia|].
  rewrite Hso. cbn [safe fst snd]. split; [by eapply Forall_lookup_1|].
  exists (n - 1)%nat. split; [lia|]. split; cbn [stk set_stk].
  - repeat case_if; rewrite ?length_app, ?length_take, ?length_drop; lia.
  - repeat case_if; rewrite ?Forall_app; repeat split; auto using Forall_take, Forall_drop.
Qed.

Lemma Pop_safe n s :
  sok n s -> (n <= height_limit)%nat ->
  safe (PopByteArray s) (fun p => elem_small p.1 /\ exists m, n = S m /\ sok m p.2).
Proof. apply nipN_safe. Qed.

Lemma Peek_safe idx n s :
  sok n s -> (n <= height_limit)%nat -> safe (PeekByteArray idx s) elem_small.
Proof.
  intros Hs Hn. unfold PeekByteArray. rewrite (depth_ok n s Hs Hn). destruct Hs as [Hl He].
  destruct (_ || _) eqn:Hr; [done|]. apply orb_false_iff in Hr as [Hr1 Hr2]. bool_to_Z.
  destruct (lookup_lt_is_Some_2 (stk s) (Z.to_nat (Z.of_nat (length (stk s)) - idx - 1))) as [so Hso];
    [lia|]. rewrite Hso. cbn. by eapply Forall_lookup_1.
Qed.

Lemma push_safe n s e : sok n s -> elem_small e -> sok (S n) (PushByteArray e s).
Proof.
  intros [Hl He] Hs. split; cbn; [rewrite length_app; cbn; lia|].
  rewrite Forall_app. by repeat constructor.
Qed.

Lemma length_encode_loop fuel n : (length (encode_loop fuel n) <= fuel)%nat.
Proof. revert n. induction fuel; intros n; cbn; [done|]. case_if; cbn; [|lia]. specialize (IHfuel (Z.shiftr n 8)). lia. Qed.

Lemma Bytes_safe n : Z.abs n < 2 ^ 63 -> safe (Bytes n) elem_small.
Proof.
  intros Hn. destruct (Bytes_spec n Hn) as (w & Hw & _). rewrite Hw. cbn.
  revert Hw. unfold Bytes, elem_small, MaxScriptElementSize, zlen.
  cbv zeta. pose proof (length_encode_loop 8 (if n <? 0 then i64 (- n) else n)) as Hl.
  revert Hl. generalize (encode_loop 8 (if n <? 0 then i64 (- n) else n)) as r. intros r Hl.
  destruct (n =? 0); [intros [= <-]; cbn; lia|]. destruct (length r =? 0)%nat; [done|].
  destruct (negb _), (n <? 0); intros [= <-]; rewrite ?length_app; unfold set_last; rewrite ?length_insert; cbn; lia.
Qed.

Lemma PushInt_safe v n s : sok n s -> Z.abs v < 2 ^ 63 -> safe (PushInt v s) (sok (S n)).
Proof.
  intros Hs Hv. unfold PushInt. eapply safe_bind; [by apply Bytes_safe|].
  intros b Hb. by apply push_safe.
Qed.

Lemma makeScriptNum_safe v min k :
  (0 < k <= 7)%nat -> safe (makeScriptNum v min k) (fun n => Z.abs n < 2 ^ (8 * Z.of_nat k - 1)).
Proof.
  intros Hk. destruct (decide (length v <= k)%nat) as [Hl|Hl].
  2: { unfold makeScriptNum. by rewrite (proj2 (Nat.ltb_lt _ _)) by lia. }
  assert (Hv : safe (makeScriptNum v false k) (fun n => Z.abs n < 2 ^ (8 * Z.of_nat k - 1))).
  { rewrite makeScriptNum_value by lia. cbn. destruct v as [|b v]; [cbn; apply Z.pow_pos_nonneg; lia|].
    eapply Z.lt_le_trans; [by apply signed_value_range|]. apply Z.pow_le_mono_r; lia. }
  destruct min; [|done]. revert Hv. unfold makeScriptNum. case_if; [done|].
  unfold checkMinimalDataEncoding. by repeat case_if.
Qed.

Lemma PopInt_safe n s :
  sok n s -> (n <= height_limit)%nat ->
  safe (PopInt s) (fun p => Z.abs p.1 < 2 ^ 31 /\ exists m, n = S m /\ sok m p.2).
Proof.
  intros Hs Hn. unfold PopInt. eapply safe_bind; [by apply (Pop_safe n)|].
  intros [so s'] [_ Hm]. eapply safe_bind; [apply makeScriptNum_safe; unfold defaultScriptNumLen; lia|].
  intros v Hv. split; [exact Hv|exact Hm].
Qed.

Lemma PopBool_safe n s :
  sok n s -> (n <= height_limit)%nat ->
  safe (PopBool s) (fun p => exists m, n = S m /\ sok m p.2).
Proof.
  intros Hs Hn. unfold PopBool. eapply safe_bind; [by apply (Pop_safe n)|].
  intros [so s'] [_ Hm]. exact Hm.
Qed.

Lemma PushBool_safe n s b : sok n s -> sok (S n) (PushBool b s).
Proof. intros Hs. apply push_safe; [done|]. by destruct b. Qed.

(** A function that adds at most three elements to a stack. *)
Definition stack_safe (f : stack -> result script_error stack) : Prop :=
  forall n s, sok n s -> (n + 3 <= height_limit)%nat -> safe (f s) (sok (n + 3)).

Lemma sok_safe_weaken n m (r : result script_error stack) :
  safe r (sok n) -> (n <= m)%nat -> safe r (sok m).
Proof. intros Hr Hle. eapply safe_mono; [exact Hr|]. intros s Hs. by eapply sok_weaken. Qed.

(** Take the first value of a sequence off a stack. *)
Ltac pop_with lem :=
  eapply safe_bind; [eapply lem; [eassumption|lia]|];
  let v := fresh "v" in let s := fresh "s" in let Hv := fresh "Hv" in let m := fresh "m" in
  intros [v s] [Hv (m & -> & ?)]; cbn [fst snd] in *.
Ltac pop_elem := pop_with Pop_safe.
Ltac pop_int := pop_with PopInt_safe.
Ltac push_int :=
  eapply sok_safe_weaken; [eapply PushInt_safe; [eassumption|]|lia].
Ltac push_elem :=
  cbn [safe]; eapply sok_weaken; [eapply push_safe; [eassumption|]|lia].

Lemma i64_31 z : Z.abs z <= 2 ^ 40 -> Z.abs (i64 z) < 2 ^ 63.
Proof. intros Hz. rewrite i64_small; widths; lia. Qed.

Lemma num1_safe f :
  (forall m, Z.abs m < 2 ^ 31 -> Z.abs (f m) < 2 ^ 63) -> stack_safe (num1 f).
Proof. intros Hf n s Hs Hn. unfold num1. pop_int. push_int. auto. Qed.

Lemma num2_safe f :
  (forall a b, Z.abs a < 2 ^ 31 -> Z.abs b < 2 ^ 31 -> Z.abs (f a b) < 2 ^ 63) ->
  stack_safe (num2 f).
Proof. intros Hf n s Hs Hn. unfold num2. pop_int. pop_int. push_int. auto. Qed.

Lemma cmp2_safe f : stack_safe (cmp2 f).
Proof. apply num2_safe. intros a b _ _. by destruct (f a b). Qed.

Lemma hash_top_safe f : (forall b, elem_small (f b)) -> stack_safe (hash_top f).
Proof. intros Hf n s Hs Hn. unfold hash_top, push. pop_elem. push_elem. apply Hf. Qed.

Lemma abstractVerify_safe c n s :
  sok n s -> (n <= height_limit)%nat -> safe (abstractVerify c s) (sok n).
Proof.
  intros Hs Hn. unfold abstractVerify. eapply safe_bind; [eapply PopBool_safe; eassumption|].
  intros [v s'] (m & -> & Hm). destruct v; [|done]. eapply sok_weaken; [exact Hm|lia].
Qed.

Lemma verify_after f c : stack_safe f -> stack_safe (fun s => let* s := f s in abstractVerify c s).
Proof.
  intros Hf n s Hs Hn. eapply safe_bind; [by apply Hf|]. intros s' Hs'. by apply abstractVerify_safe.
Qed.

Lemma roll_step_safe entry n s :
  sok n s -> (n <= height_limit)%nat -> safe (roll_step entry s) (sok n).
Proof. intros Hs Hn. unfold roll_step. pop_with (nipN_safe entry). cbn [safe]. by apply push_safe. Qed.

Lemma pick_step_safe entry n s :
  sok n s -> (n <= height_limit)%nat -> safe (pick_step entry s) (sok (S n)).
Proof.
  intros Hs Hn. unfold pick_step. eapply safe_bind; [by eapply Peek_safe|].
  intros so Hso. by apply push_safe.
Qed.

Lemma repeat_safe k f (d : nat) n s :
  (forall n s, sok n s -> (n <= height_limit)%nat -> safe (f s) (sok (n + d))) ->
  sok n s -> (n + k * d <= height_limit)%nat -> safe (repeat_n k f s) (sok (n + k * d)).
Proof.
  intros Hf. revert n s. induction k as [|k IH]; intros n s Hs Hn; cbn [repeat_n].
  - cbn. eapply sok_weaken; [exact Hs|lia].
  - eapply safe_bind; [apply (Hf n); [done|lia]|]. intros s' Hs'.
    eapply sok_safe_weaken; [apply IH; [exact Hs'|lia]|lia].
Qed.

Lemma RotN_safe k : stack_safe (RotN k).
Proof.
  intros n s Hs Hn. unfold RotN. case_if; [done|].
  eapply sok_safe_weaken; [eapply (repeat_safe _ _ 0 n); [|exact Hs|lia]|lia].
  intros m s' Hs' Hm. rewrite Nat.add_0_r. by apply roll_step_safe.
Qed.

Lemma SwapN_safe k : stack_safe (SwapN k).
Proof.
  intros n s Hs Hn. unfold SwapN. case_if; [done|].
  eapply sok_safe_weaken; [eapply (repeat_safe _ _ 0 n); [|exact Hs|lia]|lia].
  intros m s' Hs' Hm. rewrite Nat.add_0_r. by apply roll_step_safe.
Qed.

Lemma OverN_safe k : k <= 3 -> stack_safe (OverN k).
Proof.
  intros Hk n s Hs Hn. unfold OverN. case_if; [done|].
  eapply sok_safe_weaken; [eapply (repeat_safe _ _ 1 n); [|exact Hs|lia]|lia].
  intros m s' Hs' Hm. rewrite Nat.add_1_r. by apply pick_step_safe.
Qed.

Lemma DupN_safe k : k <= 3 -> stack_safe (DupN k).
Proof.
  intros Hk n s Hs Hn. unfold DupN. case_if; [done|].
  eapply sok_safe_weaken; [eapply (repeat_safe _ _ 1 n); [|exact Hs|lia]|lia].
  intros m s' Hs' Hm. rewrite Nat.add_1_r. by apply (pick_step_safe (k - 1)).
Qed.

Lemma DropN_safe k n s :
  sok n s -> (n <= height_limit)%nat -> safe (DropN k s) (sok n).
Proof.
  intros Hs Hn. unfold DropN. case_if; [done|].
  eapply sok_safe_weaken; [eapply (repeat_safe _ _ 0 n); [|exact Hs|lia]|lia].
  intros m s' Hs' Hm. rewrite Nat.add_0_r. pop_elem. cbn [safe]. eapply sok_weaken; [eassumption|lia].
Qed.

(** ** The state of the engine *)

Section Safety.
Context `{HashFunctions} `{ScriptHashes} `{Curve} `{MapOrder}.

(** The fields that opcodes do not change. *)
Definition core (vm : Engine) :=
  (scripts vm, scriptIdx vm, scriptOff vm, vm_tx vm, txIdx vm, flags vm, bip16 vm,
   savedFirstStack vm, witnessVersion vm, witnessProgram vm).

(** What an opcode needs and keeps; [n] bounds the height of both stacks. *)
Record vok (n : nat) (vm : Engine) : Prop := {
  vok_d : sok n (dstack vm);
  vok_a : sok n (astack vm);
  vok_ops : numOps vm <= MaxOpsPerScript;
  vok_sep : (lastCodeSep vm <= scriptOff vm)%nat;
  vok_script : exists s, scripts vm !! scriptIdx vm = Some s /\ (scriptOff vm <= length s)%nat;
  vok_tx : (txIdx vm < length (tx_TxIn (vm_tx vm)))%nat
}.

Definition opcode_safe (n : nat) (vm : Engine) (r : result script_error Engine) : Prop :=
  safe r (fun vm' => vok (n + 3) vm' /\ core vm' = core vm).

Lemma vok_weaken n m vm : vok n vm -> (n <= m)%nat -> vok m vm.
Proof. intros [] Hle. split; eauto using sok_weaken. Qed.

(** Only the stacks change. *)
Lemma with_stacks n m vm s a :
  vok n vm -> sok m s -> sok m a -> vok m (with_astack a (with_dstack s vm)).
Proof. intros [] ? ?. by split. Qed.

Lemma with_dstack_ok n m vm s : vok n vm -> sok m s -> (n <= m)%nat -> vok m (with_dstack s vm).
Proof. intros [] ? ?. split; cbn; eauto using sok_weaken. Qed.

Lemma on_dstack_safe n vm f :
  vok n vm -> (n + 3 <= height_limit)%nat -> stack_safe f -> opcode_safe n vm (on_dstack f vm).
Proof.
  intros Hv Hn Hf. unfold opcode_safe, on_dstack. eapply safe_bind; [apply Hf; [apply Hv|done]|].
  intros s Hs. split; [|done]. eapply with_dstack_ok; [exact Hv|exact Hs|lia].
Qed.

Lemma opcode_unchanged n vm : vok n vm -> opcode_safe n vm (Ok vm).
Proof. intros Hv. split; [|done]. eapply vok_weaken; [exact Hv|lia]. Qed.

Lemma cur_txin_safe n vm : vok n vm -> safe (cur_txin vm) (fun _ => True).
Proof.
  intros Hv. unfold cur_txin. destruct (lookup_lt_is_Some_2 _ _ (vok_tx n vm Hv)) as [t ->]. done.
Qed.

Lemma subScript_safe n vm : vok n vm -> safe (subScript vm) (fun _ => True).
Proof.
  intros Hv. unfold subScript. destruct (vok_script n vm Hv) as (s & -> & Hs).
  pose proof (vok_sep n vm Hv). by rewrite (proj2 (Nat.leb_le _ _)) by lia.
Qed.

(** *** Encoding checks and signature hashes *)

Lemma checkHashType_safe vm t : safe (checkHashTypeEncoding vm t) (fun _ => True).
Proof. unfold checkHashTypeEncoding. by repeat case_if. Qed.

Lemma checkPubKey_safe vm k : safe (checkPubKeyEncoding vm k) (fun _ => True).
Proof. unfold checkPubKeyEncoding. by repeat case_if. Qed.

Lemma at_safe {E} s i : (i < length s)%nat -> safe (at_ (E := E) s i) (fun _ => True).
Proof. intros Hi. unfold at_. by destruct (lookup_lt_is_Some_2 s i Hi) as [b ->]. Qed.

Lemma check_integer_safe sig markerOff off len e1 e2 e3 e4 :
  (markerOff < length sig)%nat -> (off + len <= length sig)%nat ->
  safe (check_integer sig markerOff off len e1 e2 e3 e4) (fun _ => True).
Proof.
  intros Hm Hl. unfold check_integer. eapply safe_bind; [by apply at_safe|]. intros marker _.
  case_if; [done|]. destruct (Nat.eqb_spec len 0); [done|].
  eapply safe_bind; [apply at_safe; lia|]. intros first _. case_if; [done|].
  eapply (safe_bind _ _ (fun _ => True)).
  - destruct (_ && _) eqn:Hc; [|done]. apply andb_true_iff in Hc as [Hc _].
    apply Nat.ltb_lt in Hc. eapply safe_bind; [apply at_safe; lia|]. by intros second _.
  - intros padded _. by destruct padded.
Qed.

Lemma checkSignature_safe vm sig : safe (checkSignatureEncoding vm sig) (fun _ => True).
Proof.
  unfold checkSignatureEncoding. case_if; [done|]. cbv zeta.
  unfold minSigLen. case_if; [done|]. case_if; [done|].
  eapply safe_bind; [apply at_safe; lia|]. intros b0 _. case_if; [done|].
  eapply safe_bind; [apply at_safe; lia|]. intros b1 _. case_if; [done|].
  eapply safe_bind; [apply at_safe; lia|]. intros b3 _.
  destruct (Nat.leb_spec (length sig) (4 + Z.to_nat b3)); [done|].
  destruct (Nat.leb_spec (length sig) (4 + Z.to_nat b3 + 1)); [done|].
  eapply safe_bind; [apply at_safe; lia|]. intros bs _.
  destruct (Nat.eqb_spec (4 + Z.to_nat b3 + 1 + 1 + Z.to_nat bs) (length sig)); [|done]. cbn [negb].
  eapply safe_bind; [apply check_integer_safe; lia|]. intros _ _.
  eapply safe_bind; [apply check_integer_safe; lia|]. intros _ _.
  case_if; [|done].
  destruct (slice_ok (E := script_error) sig (4 + Z.to_nat b3 + 1 + 1)
              (4 + Z.to_nat b3 + 1 + 1 + Z.to_nat bs)) as (x & -> & _); [lia|].
  cbn [rbind]. by case_if.
Qed.

Lemma calcSignatureHash_safe script t tx idx :
  (idx < length (tx_TxIn tx))%nat -> safe (calcSignatureHash script t tx idx) (fun _ => True).
Proof.
  intros Hi. unfold calcSignatureHash. case_if; [done|].
  set (txins := imap _ (tx_TxIn tx)). set (zeroed := imap _ txins).
  assert (Hl : length txins = length (tx_TxIn tx) /\ length zeroed = length (tx_TxIn tx)).
  { split; unfold zeroed, txins; by rewrite ?length_imap. }
  destruct Hl as [Hl1 Hl2].
  match goal with |- safe (let '(_, _) := ?p in _) _ =>
    assert (Hp : length p.1 = length (tx_TxIn tx)); [by repeat case_if|destruct p as [ins outs]] end.
  cbn [fst] in Hp. eapply (safe_bind _ _ (fun _ => True)); [|by intros].
  case_if; [|done]. by destruct (lookup_lt_is_Some_2 ins idx) as [x ->]; [lia|].
Qed.

Lemma sig_hash_safe n vm script t : vok n vm -> safe (sig_hash vm script t) (fun _ => True).
Proof.
  intros Hv. unfold sig_hash. case_if; [by destruct (calcWitnessSignatureHash _ _ _ _ _ _)|].
  apply calcSignatureHash_safe, Hv.
Qed.

Lemma verify_cached_safe c h s k : safe (verify_cached c h s k) (fun _ => True).
Proof. unfold verify_cached. destruct c as [c|]; [|done]. case_if; [done|]. cbn [Verify rbind]. by case_if. Qed.

Lemma parse_signature_safe vm b : parse_signature vm b <> Panic.
Proof. unfold parse_signature. case_if; apply parseSig_safe. Qed.

Lemma with_result_ok n vm vm' s b c :
  vok n vm -> sok n s -> (n + 3 <= height_limit)%nat -> core vm' = core vm ->
  dstack vm' = dstack vm -> astack vm' = astack vm -> lastCodeSep vm' = lastCodeSep vm ->
  numOps vm' <= MaxOpsPerScript ->
  vok (n + 3) (with_cache c (with_dstack (PushBool b s) vm'))
  /\ core (with_cache c (with_dstack (PushBool b s) vm')) = core vm.
Proof.
  intros [] Hs Hn Hc Hd Ha Hl Ho. split; [|done].
  assert (Hc' : scripts vm' = scripts vm /\ scriptIdx vm' = scriptIdx vm /\ scriptOff vm' = scriptOff vm
          /\ vm_tx vm' = vm_tx vm /\ txIdx vm' = txIdx vm) by (unfold core in Hc; split_and!; congruence).
  destruct Hc' as (E1 & E2 & E3 & E4 & E5). split; cbn; rewrite ?E1, ?E2, ?E3, ?E4, ?E5, ?Ha, ?Hl; auto.
  - eapply sok_weaken; [by apply PushBool_safe|lia].
  - eapply sok_weaken; [eassumption|lia].
Qed.

Lemma push_result n vm s b :
  vok n vm -> sok n s -> (n + 3 <= height_limit)%nat ->
  opcode_safe n vm (Ok (with_dstack (PushBool b s) vm)).
Proof.
  intros Hv Hs Hn. split; [|done]. eapply with_dstack_ok; [exact Hv| |lia].
  eapply sok_weaken; [by apply PushBool_safe|lia].
Qed.

Lemma opcodeCheckSig_safe n vm :
  vok n vm -> (n + 3 <= height_limit)%nat -> opcode_safe n vm (opcodeCheckSig vm).
Proof.
  intros Hv Hn. unfold opcode_safe, opcodeCheckSig.
  pose proof (vok_d n vm Hv) as Hd. eapply safe_bind; [apply (Pop_safe n); [done|lia]|].
  intros [pk s1] [_ (m1 & Hm1 & Hs1)]. cbn [fst snd] in *.
  eapply safe_bind; [apply (Pop_safe m1); [done|lia]|].
  intros [sig s2] [_ (m2 & Hm2 & Hs2)]. cbn [fst snd] in *.
  assert (Hs : sok n s2) by (eapply sok_weaken; [exact Hs2|lia]).
  case_if; [by apply push_result|]. cbv zeta.
  eapply safe_bind; [apply checkHashType_safe|]. intros _ _.
  eapply safe_bind; [apply checkSignature_safe|]. intros _ _.
  eapply safe_bind; [apply checkPubKey_safe|]. intros _ _.
  eapply safe_bind; [by eapply subScript_safe|]. intros sub _.
  eapply safe_bind; [by eapply sig_hash_safe|]. intros h _.
  pose proof (ParsePubKey_no_panic pk). destruct (ParsePubKey pk) as [key| |]; [|by apply push_result|done].
  match goal with |- context [parse_signature vm ?b] => pose proof (parse_signature_safe vm b);
    destruct (parse_signature vm b) as [sg| |] end; [|by apply push_result|done].
  eapply safe_bind; [apply verify_cached_safe|]. intros [valid cache] _. case_if; [done|].
  cbn [safe]. apply (with_result_ok n vm vm); auto. apply Hv.
Qed.

Lemma then_verify_safe n vm c r :
  (n + 3 <= height_limit)%nat -> opcode_safe n vm r -> opcode_safe n vm (then_verify c r).
Proof.
  intros Hn Hr. unfold opcode_safe, then_verify, on_dstack. eapply safe_bind; [exact Hr|].
  intros vm' [Hv Hc]. eapply safe_bind; [apply (abstractVerify_safe c (n + 3)); [apply Hv|done]|].
  intros s Hs. split; [by eapply with_dstack_ok|]. exact Hc.
Qed.

Lemma pop_n_safe k n s :
  sok n s -> (n <= height_limit)%nat -> safe (pop_n k s) (fun p => sok n p.2).
Proof.
  revert n s. induction k as [|k IH]; intros n s Hs Hn; cbn [pop_n]; [done|].
  pop_elem. eapply safe_bind; [apply IH; [eassumption|lia]|]. intros [l s1] Hs1.
  cbn in *. eapply sok_weaken; [exact Hs1|lia].
Qed.

Lemma multisig_loop_safe n vm script keys sigs parsed cache :
  vok n vm -> safe (multisig_loop vm script keys sigs parsed cache) (fun _ => True).
Proof.
  intros Hv. revert sigs parsed cache.
  induction keys as [|key keys IH]; intros [|sig sigs] parsed cache; cbn [multisig_loop]; try done.
  case_if; [done|]. case_if; [apply IH|]. cbv zeta.
  eapply (safe_bind _ _ (fun _ => True)).
  { destruct parsed; [done|]. eapply safe_bind; [apply checkHashType_safe|]. intros _ _.
    eapply safe_bind; [apply checkSignature_safe|]. intros _ _.
    match goal with |- context [parse_signature vm ?b] => pose proof (parse_signature_safe vm b);
      by destruct (parse_signature vm b) end. }
  intros [sg|] _; [|apply IH]. eapply safe_bind; [apply checkPubKey_safe|]. intros _ _.
  pose proof (ParsePubKey_no_panic key). destruct (ParsePubKey key) as [k| |]; [|apply IH|done].
  eapply safe_bind; [by eapply sig_hash_safe|]. intros h _.
  eapply safe_bind; [apply verify_cached_safe|]. intros [[] cache'] _; apply IH.
Qed.

Lemma opcodeCheckMultiSig_safe n vm :
  vok n vm -> (n + 3 <= height_limit)%nat -> opcode_safe n vm (opcodeCheckMultiSig vm).
Proof.
  intros Hv Hn. unfold opcode_safe, opcodeCheckMultiSig. pose proof (vok_d n vm Hv) as Hd.
  eapply safe_bind; [apply (PopInt_safe n); [done|lia]|].
  intros [nk s1] [_ (m1 & Hm1 & Hs1)]. cbn [fst snd] in *. case_if; [done|]. case_if; [done|].
  cbv zeta. set (vm1 := with_numOps _ vm). case_if; [done|].
  eapply safe_bind; [apply (pop_n_safe _ m1); [done|lia]|]. intros [keys s2] Hs2. cbn [snd] in Hs2.
  eapply safe_bind; [apply (PopInt_safe m1); [done|lia]|].
  intros [ns s3] [_ (m2 & Hm2 & Hs3)]. cbn [fst snd] in *. case_if; [done|]. case_if; [done|].
  eapply safe_bind; [apply (pop_n_safe _ m2); [done|lia]|]. intros [sigs s4] Hs4. cbn [snd] in Hs4.
  eapply safe_bind; [apply (Pop_safe m2); [done|lia]|].
  intros [dummy s5] [_ (m3 & Hm3 & Hs5)]. cbn [fst snd] in *. case_if; [done|].
  assert (Hv1 : vok n vm1) by (destruct Hv; split; cbn in *; auto; lia).
  eapply safe_bind; [by eapply subScript_safe|]. intros sub _.
  eapply safe_bind; [by eapply multisig_loop_safe|]. intros [ok cache] _. case_if; [done|].
  cbn [safe]. apply (with_result_ok n vm vm1); auto.
  eapply sok_weaken; [exact Hs5|lia].
Qed.

(** *** The other handlers *)

Lemma small_hash b : length b = 32%nat \/ length b = 20%nat -> elem_small b.
Proof. unfold elem_small, MaxScriptElementSize, zlen. lia. Qed.

Lemma open_branch_safe sense n vm :
  vok n vm -> (n + 3 <= height_limit)%nat -> opcode_safe n vm (open_branch sense vm).
Proof.
  intros Hv Hn. unfold opcode_safe, open_branch. case_if.
  - eapply (safe_bind _ _ (fun p => sok n p.2)).
    + pose proof (vok_d n vm Hv) as Hd. unfold popIfBool. case_if.
      * eapply safe_mono; [apply (PopBool_safe n); [done|lia]|].
        intros [b s] (m & -> & Hs). eapply sok_weaken; [exact Hs|lia].
      * eapply safe_bind; [apply (Pop_safe n); [done|lia]|].
        intros [so s] [_ (m & -> & Hs)]. cbn [snd] in Hs. repeat case_if; try done.
        cbn. eapply sok_weaken; [exact Hs|lia].
    + intros [ok s] Hs. cbn in Hs. split; [|done]. destruct Hv. split; cbn; eauto using sok_weaken with lia.
  - split; [|done]. destruct Hv. split; cbn; auto; eapply sok_weaken; eauto; lia.
Qed.

Lemma peek_locktime_safe n vm :
  vok n vm -> (n + 3 <= height_limit)%nat -> safe (peek_locktime (dstack vm)) (fun _ => True).
Proof.
  intros Hv Hn. unfold peek_locktime. eapply safe_bind; [eapply (Peek_safe _ n); [apply Hv|lia]|].
  intros so _. eapply safe_bind; [apply makeScriptNum_safe; lia|]. intros v _. by case_if.
Qed.

Lemma verifyLockTime_safe a b c : safe (verifyLockTime a b c) (fun _ => True).
Proof. unfold verifyLockTime. by repeat case_if. Qed.

Lemma locktime_safe n vm :
  vok n vm -> (n + 3 <= height_limit)%nat ->
  opcode_safe n vm (opcodeCheckLockTimeVerify vm) /\ opcode_safe n vm (opcodeCheckSequenceVerify vm).
Proof.
  intros Hv Hn. pose proof (opcode_unchanged n vm Hv) as Hsame.
  unfold opcode_safe, opcodeCheckLockTimeVerify, opcodeCheckSequenceVerify, as_nop.
  split; case_if; try by case_if.
  - eapply safe_bind; [by eapply peek_locktime_safe|]. intros t _.
    eapply safe_bind; [apply verifyLockTime_safe|]. intros _ _.
    eapply safe_bind; [by eapply cur_txin_safe|]. intros txin _. by case_if.
  - eapply safe_bind; [by eapply peek_locktime_safe|]. intros t _. case_if; [done|]. case_if; [done|].
    eapply safe_bind; [by eapply cur_txin_safe|]. intros txin _. case_if; [done|].
    eapply safe_bind; [apply verifyLockTime_safe|]. by intros _ _.
Qed.

Lemma altstack_safe n vm :
  vok n vm -> (n + 3 <= height_limit)%nat ->
  opcode_safe n vm (opcodeToAltStack vm) /\ opcode_safe n vm (opcodeFromAltStack vm).
Proof.
  intros Hv Hn. unfold opcode_safe, opcodeToAltStack, opcodeFromAltStack.
  pose proof (vok_d n vm Hv) as Hd. pose proof (vok_a n vm Hv) as Ha.
  split; (eapply safe_bind; [apply (Pop_safe n); [done|lia]|]);
    intros [so s] [Hso (m & Hm & Hs)]; cbn [fst snd] in *; (split; [|done]); destruct Hv; split; cbn; auto;
    (eapply sok_weaken; [first [exact Hs|by apply push_safe]|lia]).
Qed.

Lemma opcodeTuck_safe : stack_safe Tuck.
Proof.
  intros n s Hs Hn. unfold Tuck. pop_elem. pop_elem. cbn [safe].
  eapply sok_weaken; [apply push_safe; [apply push_safe; [apply push_safe|]|]; eassumption|lia].
Qed.

Lemma opcodeIfDup_safe : stack_safe opcodeIfDup.
Proof.
  intros n s Hs Hn. unfold opcodeIfDup, push. eapply safe_bind; [eapply (Peek_safe _ n); [done|lia]|].
  intros so Hso. case_if; [by push_elem|]. cbn [safe]. eapply sok_weaken; [exact Hs|lia].
Qed.

Lemma opcodeDepth_safe : stack_safe opcodeDepth.
Proof.
  intros n s Hs Hn. unfold opcodeDepth. push_int. unfold Depth.
  rewrite (depth_ok n s Hs) by lia. destruct Hs as [Hl _]. pose proof height_limit_Z. lia.
Qed.

Lemma opcodeSize_safe : stack_safe opcodeSize.
Proof.
  intros n s Hs Hn. unfold opcodeSize. eapply safe_bind; [eapply (Peek_safe _ n); [done|lia]|].
  intros so Hso. push_int. unfold elem_small, MaxScriptElementSize in Hso. unfold zlen in *. lia.
Qed.

Lemma opcodePick_safe : stack_safe opcodePick.
Proof.
  intros n s Hs Hn. unfold opcodePick, PickN. pop_int.
  eapply sok_safe_weaken; [apply pick_step_safe; [eassumption|lia]|lia].
Qed.

Lemma opcodeRoll_safe : stack_safe opcodeRoll.
Proof.
  intros n s Hs Hn. unfold opcodeRoll, RollN. pop_int.
  eapply sok_safe_weaken; [apply roll_step_safe; [eassumption|lia]|lia].
Qed.

Lemma opcodeEqual_safe : stack_safe opcodeEqual.
Proof.
  intros n s Hs Hn. unfold opcodeEqual. pop_elem. pop_elem. cbn [safe].
  eapply sok_weaken; [apply PushBool_safe; eassumption|lia].
Qed.

Lemma opcodeWithin_safe : stack_safe opcodeWithin.
Proof. intros n s Hs Hn. unfold opcodeWithin, push_bool_int. do 3 pop_int. push_int. by case_if. Qed.

Lemma NipN_safe k : stack_safe (NipN k).
Proof.
  intros n s Hs Hn. unfold NipN. pop_with (nipN_safe k). cbn. eapply sok_weaken; [eassumption|lia].
Qed.

Lemma drop_stack_safe k : stack_safe (DropN k).
Proof. intros n s Hs Hn. eapply sok_safe_weaken; [apply (DropN_safe k n); [done|lia]|lia]. Qed.

Lemma push_int_safe v : Z.abs v < 2 ^ 63 -> stack_safe (PushInt v).
Proof. intros Hv n s Hs Hn. by push_int. Qed.

Lemma push_safe' e : elem_small e -> stack_safe (push e).
Proof. intros He n s Hs Hn. unfold push. by push_elem. Qed.

Lemma opcodeVerify_safe : stack_safe opcodeVerify.
Proof. intros n s Hs Hn. eapply sok_safe_weaken; [apply (abstractVerify_safe _ n); [done|lia]|lia]. Qed.

Lemma stack_safe_false : stack_safe (fun s => push [] s).
Proof. by apply push_safe'. Qed.
Lemma stack_safe_data op : elem_small (data op) -> stack_safe (fun s => push (data op) s).
Proof. apply push_safe'. Qed.
Lemma stack_safe_negate : stack_safe (fun s => PushInt (-1) s).
Proof. by apply push_int_safe. Qed.
Lemma stack_safe_n op : stack_safe (fun s => PushInt (u8 (pop_value op - (OP_1 - 1))) s).
Proof. apply push_int_safe. pose proof (u8_range (pop_value op - (OP_1 - 1))). widths. lia. Qed.
Lemma stack_safe_numeq : stack_safe opcodeNumEqualVerify.
Proof. apply (verify_after opcodeNumEqual), cmp2_safe. Qed.
Lemma stack_safe_equalverify : stack_safe opcodeEqualVerify.
Proof. apply (verify_after opcodeEqual), opcodeEqual_safe. Qed.

Lemma nop_safe op n vm : vok n vm -> opcode_safe n vm (opcodeNop op vm).
Proof. intros Hv. unfold opcodeNop. case_if; [done|]. by apply opcode_unchanged. Qed.

Lemma cond_safe n vm c : vok n vm -> opcode_safe n vm (Ok (with_cond c vm)).
Proof. intros Hv. split; [|done]. destruct Hv. split; cbn; auto; eapply sok_weaken; eauto; lia. Qed.

Lemma else_safe n vm : vok n vm -> opcode_safe n vm (opcodeElse vm).
Proof. intros Hv. unfold opcodeElse. destruct (condStack vm); [done|]. by apply cond_safe. Qed.

Lemma endif_safe n vm : vok n vm -> opcode_safe n vm (opcodeEndif vm).
Proof. intros Hv. unfold opcodeEndif. destruct (condStack vm); [done|]. by apply cond_safe. Qed.

Lemma codesep_safe n vm : vok n vm -> opcode_safe n vm (opcodeCodeSeparator vm).
Proof. intros Hv. split; [|done]. destruct Hv. split; cbn; auto; eapply sok_weaken; eauto; lia. Qed.

#[local] Hint Resolve stack_safe_false stack_safe_data stack_safe_negate stack_safe_n stack_safe_numeq
  stack_safe_equalverify opcodeTuck_safe opcodeIfDup_safe opcodeDepth_safe opcodeSize_safe
  opcodePick_safe opcodeRoll_safe opcodeEqual_safe opcodeWithin_safe opcodeVerify_safe
  then_verify_safe opcodeCheckSig_safe opcodeCheckMultiSig_safe nop_safe else_safe endif_safe
  codesep_safe open_branch_safe : safe.

(** One case for each shape of handler. *)
Ltac solve_num := intros; repeat case_if; try apply i64_31; lia.
Ltac solve_stack :=
  unfold opcodeFalse, opcodePushData, opcode1Negate, opcodeN,
    opcode1Add, opcode1Sub, opcodeNegate, opcodeAbs, opcodeNot, opcode0NotEqual, opcodeAdd, opcodeSub,
    opcodeBoolAnd, opcodeBoolOr, opcodeNumEqual, opcodeNumNotEqual, opcodeLessThan, opcodeGreaterThan,
    opcodeLessThanOrEqual, opcodeGreaterThanOrEqual, opcodeMin, opcodeMax,
    opcodeRipemd160, opcodeSha1, opcodeSha256, opcodeHash160, opcodeHash256,
    opcodeIf, opcodeNotIf, opcodeCheckSigVerify, opcodeCheckMultiSigVerify;
  match goal with
  | |- stack_safe (num1 _) => apply num1_safe; solve_num
  | |- stack_safe (num2 _) => apply num2_safe; solve_num
  | |- stack_safe (cmp2 _) => apply cmp2_safe
  | |- stack_safe (hash_top _) => apply hash_top_safe; intros; apply small_hash; unfold DoubleHashB;
      rewrite ?Ripemd160_length, ?Sha1_length, ?Sum256_length; auto
  | |- stack_safe (DupN _) => apply DupN_safe; lia
  | |- stack_safe (OverN _) => apply OverN_safe; lia
  | |- stack_safe (DropN _) => apply drop_stack_safe
  | |- stack_safe (RotN _) => apply RotN_safe
  | |- stack_safe (SwapN _) => apply SwapN_safe
  | |- stack_safe (NipN _) => apply NipN_safe
  | |- stack_safe _ => auto with safe
  | _ => auto with safe
  end.

Lemma call_opfunc_safe op n vm :
  vok n vm -> (n + 3 <= height_limit)%nat ->
  (opfunc (pop_opcode op) = H_opcodePushData -> elem_small (data op)) ->
  opcode_safe n vm (call_opfunc op vm).
Proof.
  intros Hv Hn Hpush. pose proof (opcode_unchanged n vm Hv) as Hsame.
  pose proof (locktime_safe n vm Hv Hn) as [? ?]. pose proof (altstack_safe n vm Hv Hn) as [? ?].
  unfold call_opfunc. destruct (opfunc (pop_opcode op)) eqn:Hop;
    lazymatch goal with
    | |- opcode_safe _ _ (Err _) => exact I
    | |- opcode_safe _ _ (on_dstack _ _) => apply on_dstack_safe; [exact Hv|exact Hn|]; solve_stack
    | _ => solve_stack
    end.
Qed.

(** ** One opcode *)

(** Only push opcodes, which are not counted as operations, push their data. *)
Definition push_below_16 (instr : byte) : bool :=
  match opfunc (opcodeArray instr) with
  | H_opcodePushData => value (opcodeArray instr) <=? OP_16
  | _ => true
  end.

Lemma push_value instr :
  opfunc (opcodeArray instr) = H_opcodePushData -> value (opcodeArray instr) <= OP_16.
Proof.
  assert (Hall : forallb push_below_16 all_bytes = true) by (vm_compute; reflexivity).
  rewrite forallb_forall in Hall. specialize (Hall instr (in_all_bytes instr)).
  unfold push_below_16 in Hall. intros Hop. rewrite Hop in Hall. by apply Z.leb_le.
Qed.

Lemma count_op_safe pop n vm :
  vok n vm ->
  safe (count_op pop vm) (fun vm' => vok n vm' /\ core vm' = core vm /\ condStack vm' = condStack vm
    /\ dstack vm' = dstack vm /\ (pop_value pop <= OP_16 -> elem_small (data pop))).
Proof.
  intros Hv. unfold count_op. case_if.
  - cbv zeta. case_if; [done|]. cbn in *. split_and!; auto; [|lia]. destruct Hv. by split.
  - case_if; [done|]. cbn. split_and!; auto.
Qed.

Lemma checkMinimalDataPush_safe pop : safe (checkMinimalDataPush pop) (fun _ => True).
Proof. unfold checkMinimalDataPush. by repeat case_if. Qed.

Lemma executeOpcode_safe pop n vm :
  vok n vm -> (n + 3 <= height_limit)%nat -> from_table pop ->
  opcode_safe n vm (executeOpcode pop vm).
Proof.
  intros Hv Hn [instr Ht]. unfold opcode_safe, executeOpcode. do 2 (case_if; [done|]).
  eapply safe_bind; [by apply (count_op_safe pop n)|]. intros vm1 (Hv1 & Hc1 & _ & _ & Hd).
  case_if; [split; [eapply vok_weaken; [exact Hv1|lia]|exact Hc1]|].
  eapply (safe_bind _ _ (fun _ => True)); [case_if; [apply checkMinimalDataPush_safe|done]|].
  intros _ _. eapply safe_mono; [apply (call_opfunc_safe pop n vm1 Hv1 Hn)|].
  - intros Hp. apply Hd. unfold pop_value. rewrite Ht in *. by apply push_value.
  - intros vm' [Hv' Hc']. split; [done|congruence].
Qed.

(** ** Clearing and loading stacks *)

Lemma clear_stack_nil n s : sok n s -> (n <= height_limit)%nat -> stk (clear_stack s) = [].
Proof.
  intros Hs Hn. pose proof (depth_ok n s Hs Hn) as Hd. unfold clear_stack, DropN, Depth. rewrite Hd.
  destruct s as [l m]. cbn [stk] in *. destruct l as [|e l]; [done|].
  cbn [length]. case_if; [lia|].
  replace (Z.to_nat _) with (length (e :: l)) by (cbn; lia).
  pose proof (drop_repeat m [] (e :: l)) as Hr. cbn [app] in Hr. rewrite Hr; [done|].
  destruct Hs as [Hl _]. pose proof height_limit_Z. cbn in *. lia.
Qed.

Lemma push_all_stk items s : stk (fold_left (fun s d => PushByteArray d s) items s) = stk s ++ items.
Proof.
  revert s. induction items as [|d items IH]; intros s; cbn; [by rewrite app_nil_r|].
  rewrite IH. cbn. by rewrite <- (assoc_L (++)).
Qed.

Lemma setStack_stk n s items : sok n s -> (n <= height_limit)%nat -> stk (setStack items s) = items.
Proof. intros Hs Hn. unfold setStack. rewrite push_all_stk. by rewrite (clear_stack_nil n). Qed.

Lemma setStack_ok n k s items :
  sok n s -> (n <= height_limit)%nat -> (length items <= k)%nat -> Forall elem_small items ->
  sok k (setStack items s).
Proof. intros Hs Hn Hl He. split; by rewrite (setStack_stk n). Qed.

(** ** Parsed scripts *)

Definition script_ok (pops : list parsedOpcode) : Prop :=
  Forall from_table pops /\ zlen pops <= MaxScriptSize.

Lemma bytes_nonempty pop b : bytes pop = Ok b -> b <> [].
Proof. unfold bytes. repeat case_if; intros [= <-]; done. Qed.

Lemma unparse_length pops script :
  unparseScript pops = Ok script -> (length pops <= length script)%nat.
Proof.
  revert script. induction pops as [|pop pops IH]; intros script; cbn [unparseScript]; [cbn; lia|].
  destruct (bytes pop) as [b| |] eqn:Hb; try done. cbn [rbind].
  destruct (unparseScript pops) as [rest| |]; try done. cbn [rbind]. intros [= <-].
  pose proof (bytes_nonempty pop b Hb). specialize (IH rest eq_refl).
  rewrite length_app. destruct b; [done|]. cbn. lia.
Qed.

Lemma parse_or_err_ok script n :
  zlen script <= n ->
  safe (parse_or_err script) (fun pops => Forall from_table pops /\ zlen pops <= n).
Proof.
  intros Hl. unfold parse_or_err. destruct (parseScript script) as [pops [e|]] eqn:Hp; [done|].
  apply parseScript_loop in Hp. cbn. split; [by eapply parse_loop_from_table|].
  apply parse_loop_sound, unparse_length in Hp. unfold zlen in *. lia.
Qed.

Lemma payToPubKeyHash_limit h :
  safe (payToPubKeyHashScript h) (fun s => zlen s <= MaxScriptSize).
Proof.
  unfold payToPubKeyHashScript, AddOp at 1. generalize (AddOp OP_EQUALVERIFY
    (AddData h (AddOp OP_HASH160 (AddOp OP_DUP NewScriptBuilder)))) as b. intros b.
  destruct (sb_failed b) eqn:Hf; [unfold build_script; by rewrite Hf|].
  destruct (MaxScriptSize <? zlen (sb_script b) + 1) eqn:Hl; [done|]. bool_to_Z.
  unfold build_script, sb_append. cbn [sb_failed sb_script]. rewrite Hf. cbn [safe].
  unfold zlen in *. rewrite length_app. cbn [length]. lia.
Qed.

(** ** The invariant between two steps *)

Definition max_height : nat := Z.to_nat maxWitnessItemsPerInput.

Lemma max_height_Z : Z.of_nat max_height = 500000.
Proof. unfold max_height, maxWitnessItemsPerInput. lia. Qed.
#[global] Opaque max_height.
Lemma max_height_limit : (max_height + 3 <= height_limit)%nat.
Proof. pose proof max_height_Z. pose proof height_limit_Z. lia. Qed.

(** The script of a pay-to-witness-script-hash program has just been loaded: no
    opcode of it has run, and the stack holds the other items of the witness of
    the input. *)
Definition witness_loaded (vm : Engine) : Prop :=
  scriptOff vm = 0%nat /\ stk (astack vm) = [] /\ is_Some (witnessProgram vm)
  /\ exists txin script pops,
       tx_TxIn (vm_tx vm) !! txIdx vm = Some txin
       /\ ti_Witness txin = getStack (dstack vm) ++ [script]
       /\ default [] (witnessProgram vm) = Sum256 script
       /\ parse_or_err script = Ok pops /\ list.last (scripts vm) = Some pops.

(** Everything but the code separator. *)
Record engine_ok0 (vm : Engine) : Prop := {
  eo_d : sok max_height (dstack vm);
  eo_a : sok max_height (astack vm);
  (** the limit on the stacks, which only a witness that was just loaded can
      exceed *)
  eo_height : (Z.of_nat (length (stk (dstack vm)) + length (stk (astack vm))) <= MaxStackSize
               \/ witness_loaded vm);
  eo_ops : numOps vm <= MaxOpsPerScript;
  eo_off : (scriptOff vm <= length (default [] (scripts vm !! scriptIdx vm)))%nat;
  eo_cond : scriptOff vm = 0%nat -> condStack vm = [];
  eo_tx : exists txin, tx_TxIn (vm_tx vm) !! txIdx vm = Some txin
                       /\ (length (ti_Witness txin) <= max_height)%nat;
  eo_scripts : Forall script_ok (scripts vm);
  eo_saved : Forall elem_small (savedFirstStack vm);
  eo_saved_height : Z.of_nat (length (savedFirstStack vm)) <= MaxStackSize;
  eo_p2sh : bip16 vm = true -> exists pk, scripts vm !! 1%nat = Some pk /\ isScriptHash pk = true;
  eo_first : bip16 vm = true -> scriptIdx vm = 1%nat -> savedFirstStack vm = [] ->
             scriptOff vm = 0%nat /\ stk (dstack vm) = []
}.

Definition engine_ok (vm : Engine) : Prop :=
  engine_ok0 vm /\ (lastCodeSep vm <= scriptOff vm)%nat.

(** An upper bound on the number of steps left: the opcodes of the scripts that
    are known, and the size limits of those that can still be added. *)
Definition pending (vm : Engine) : Z :=
  (if bip16 vm && (scriptIdx vm <=? 1)%nat then MaxScriptElementSize else 0)
  + (if bool_decide (is_Some (witnessProgram vm))
        && (scriptIdx vm <=? if bip16 vm then 2 else 1)%nat
     then MaxScriptSize else 0).

Definition measure (vm : Engine) : Z :=
  sumZ zlen (drop (scriptIdx vm) (scripts vm)) - Z.of_nat (scriptOff vm) + pending vm.

(** *** The first opcode of a pay-to-script-hash script needs an element *)

Lemma hash160_handler pop :
  from_table pop -> pop_value pop = OP_HASH160 -> opfunc (pop_opcode pop) = H_opcodeHash160.
Proof.
  intros [instr Ht] Hv. unfold pop_value in Hv. rewrite Ht in *. rewrite opcode_value in Hv.
  replace instr with xa9; [reflexivity|]. rewrite <- (byte_of_Z_of_byte instr), Hv. reflexivity.
Qed.

Lemma hash160_empty pop vm :
  from_table pop -> pop_value pop = OP_HASH160 -> stk (dstack vm) = [] ->
  condStack vm = [] -> safe (executeOpcode pop vm) (fun _ => False) \/ executeOpcode pop vm = Panic.
Proof.
  intros Ht Hv Hd Hc. unfold executeOpcode. do 2 (case_if; [by left|]).
  unfold count_op. rewrite Hv. cbv zeta.
  replace (OP_16 <? OP_HASH160) with true by reflexivity. case_if; [by left|]. cbn [rbind].
  set (vm1 := with_numOps _ vm). replace (isBranchExecuting vm1) with true
    by (unfold isBranchExecuting, vm1; cbn; by rewrite Hc).
  replace (OP_HASH160 <=? OP_PUSHDATA4) with false by reflexivity. rewrite andb_false_r. cbn.
  unfold call_opfunc. rewrite (hash160_handler pop Ht Hv). left.
  unfold on_dstack, opcodeHash160, hash_top, PopByteArray, nipN. cbn. by rewrite Hd.
Qed.

(** *** Sums over the remaining scripts *)

Lemma sum_drop (ss : list (list parsedOpcode)) i s :
  ss !! i = Some s -> sumZ zlen (drop i ss) = zlen s + sumZ zlen (drop (S i) ss).
Proof. intros Hs. by rewrite (drop_S _ _ _ Hs). Qed.

Lemma sum_drop_app (ss : list (list parsedOpcode)) i s :
  (i <= length ss)%nat -> sumZ zlen (drop i (ss ++ [s])) = sumZ zlen (drop i ss) + zlen s.
Proof. intros Hi. rewrite drop_app_le by lia. rewrite sumZ_app. cbn. lia. Qed.

Lemma sum_nonneg (ss : list (list parsedOpcode)) : 0 <= sumZ zlen ss.
Proof. unfold sumZ. induction ss as [|s ss IH]; cbn [foldr]; [done|]. unfold zlen at 1. lia. Qed.

(** *** Between two scripts *)

(** The state after the last opcode of a script: its stacks are within the
    limit and a pay-to-script-hash script has left its redeem script. *)
Record script_done (vm : Engine) : Prop := {
  sd_ok : engine_ok0 vm;
  sd_off : scriptOff vm = 0%nat;
  sd_height : Z.of_nat (length (stk (dstack vm))) <= MaxStackSize;
  sd_alt : stk (astack vm) = [];
  sd_idx : (scriptIdx vm < length (scripts vm))%nat;
  sd_first : bip16 vm = true -> scriptIdx vm = 1%nat -> savedFirstStack vm <> []
}.

(** What holds when the next script is in place. *)
Definition script_next (vm vm' : Engine) : Prop :=
  engine_ok0 vm' /\ scriptOff vm' = 0%nat /\ (1 <= scriptIdx vm')%nat
  /\ measure vm' <= sumZ zlen (drop (S (scriptIdx vm)) (scripts vm)) + pending vm.

Lemma budget_next (b : bool) (i k : nat) x :
  0 <= x -> (if b && (S i <=? k)%nat then x else 0) <= (if b && (i <=? k)%nat then x else 0).
Proof.
  intros Hx. destruct b; cbn [andb]; [|done].
  destruct (Nat.leb_spec (S i) k), (Nat.leb_spec i k); lia.
Qed.

Lemma pending_next vm : pending (with_pc (S (scriptIdx vm)) 0 vm) <= pending vm.
Proof. unfold pending. cbn [bip16 scriptIdx witnessProgram with_pc]. apply Z.add_le_mono; by apply budget_next. Qed.

(** Going on with the next script without loading anything. *)
Lemma advance_ok vm saved :
  script_done vm -> Forall elem_small saved -> Z.of_nat (length saved) <= MaxStackSize ->
  (bip16 vm = true -> scriptIdx vm = 0%nat -> saved = [] -> stk (dstack vm) = []) ->
  script_next vm (with_saved saved (with_pc (S (scriptIdx vm)) 0 vm)).
Proof.
  intros [[] Hoff Hh Ha Hi Hf] Hsv Hsl Hst. split; [|split; [done|split; [cbn; lia|]]].
  - split; cbn; auto using Nat.le_0_l. left. rewrite Ha. cbn. lia.
  - unfold measure. change (pending (with_saved _ ?v)) with (pending v).
    cbn [scriptIdx scripts scriptOff with_saved with_pc]. pose proof (pending_next vm). lia.
Qed.

(** Loading a further script with its stack. *)
Lemma load_ok vm pops items budget :
  script_done vm -> (1 <= scriptIdx vm)%nat ->
  Forall from_table pops -> zlen pops <= budget -> budget <= MaxScriptSize ->
  Forall elem_small items -> (length items <= max_height)%nat ->
  Z.of_nat (length items) <= MaxStackSize
    \/ witness_loaded (with_dstack (setStack items (dstack vm))
                        (add_script pops (with_pc (S (scriptIdx vm)) 0 vm))) ->
  pending (with_pc (S (scriptIdx vm)) 0 vm) + budget <= pending vm ->
  script_next vm (with_dstack (setStack items (dstack vm))
                    (add_script pops (with_pc (S (scriptIdx vm)) 0 vm))).
Proof.
  intros [[] Hoff Hh Ha Hi Hf] H1i Ht Hp Hb Hit Hlen Hwl Hpend. pose proof max_height_limit.
  split; [|split; [done|split; [cbn; lia|]]].
  - split; cbn; auto using Nat.le_0_l.
    + exact (setStack_ok max_height max_height (dstack vm) items eo_d0 ltac:(lia) Hlen Hit).
    + destruct Hwl as [Hl|Hl]; [left|by right].
      rewrite Ha, (setStack_stk max_height) by (try exact eo_d0; lia). cbn [length]. lia.
    + apply Forall_app. split; [done|]. constructor; [|done]. split; [done|lia].
    + intros Hbip. destruct (eo_p2sh0 Hbip) as (pk & Hpk & Hsh). exists pk.
      split; [by apply lookup_app_l_Some|done].
    + intros Hbip Hidx Hs. lia.
  - unfold measure. change (pending (with_dstack _ (add_script _ ?v))) with (pending v).
    cbn [scriptIdx scripts scriptOff with_dstack add_script with_pc].
    rewrite sum_drop_app by lia. lia.
Qed.

Lemma with_dstack_done vm s :
  script_done vm -> sok max_height s -> Z.of_nat (length (stk s)) <= MaxStackSize ->
  script_done (with_dstack s vm).
Proof.
  intros [[] Hoff Hh Ha Hi Hf] Hs Hl. split; cbn; auto. split; cbn; auto.
  { left. rewrite Ha. cbn. lia. }
  intros Hb Hidx Hsv. destruct (Hf Hb Hidx Hsv).
Qed.

Lemma CheckErrorCondition_safe n final vm :
  sok n (dstack vm) -> (n <= height_limit)%nat ->
  safe (CheckErrorCondition final vm)
    (fun vm' => exists s m, vm' = with_dstack s vm /\ n = S m /\ sok m s).
Proof.
  intros Hs Hn. unfold CheckErrorCondition. repeat (case_if; [done|]).
  eapply safe_bind; [by apply (PopBool_safe n)|]. intros [v s] (m & Hm & Hs').
  destruct v; [|done]. cbn. eauto.
Qed.

Lemma list_last_some {A} (l : list A) : l <> [] -> exists x, list.last l = Some x /\ In x l.
Proof.
  intros Hl. destruct l as [|x l] using rev_ind; [done|]. exists x. rewrite last_snoc.
  split; [done|]. apply in_or_app. right. by left.
Qed.

Lemma existsb_small items :
  existsb (fun e => MaxScriptElementSize <? zlen e) items = false -> Forall elem_small items.
Proof.
  intros He. apply List.Forall_forall. intros e Hin. unfold elem_small.
  destruct (MaxScriptElementSize <? zlen e) eqn:Hl; bool_to_Z; [|lia].
  assert (existsb (fun e => MaxScriptElementSize <? zlen e) items = true); [|congruence].
  apply existsb_exists. exists e. split; [done|]. lia.
Qed.

(** A budget that is spent by going on. *)
Lemma witness_budget vm :
  is_Some (witnessProgram vm) ->
  scriptIdx vm = (if bip16 vm then 2 else 1)%nat ->
  pending (with_pc (S (scriptIdx vm)) 0 vm) + MaxScriptSize <= pending vm.
Proof.
  intros Hw Hi. unfold pending. cbn [bip16 scriptIdx witnessProgram with_pc]. rewrite Hi.
  rewrite bool_decide_true by done. destruct (bip16 vm); cbn; lia.
Qed.

Lemma redeem_budget vm :
  bip16 vm = true -> scriptIdx vm = 1%nat ->
  pending (with_pc (S (scriptIdx vm)) 0 vm) + MaxScriptElementSize <= pending vm.
Proof.
  intros Hb Hi. unfold pending. cbn [bip16 scriptIdx witnessProgram with_pc]. rewrite Hi, Hb. cbn.
  destruct (bool_decide _); cbn; lia.
Qed.

(** Loading the stack of a witness program, with the check of its elements. *)
Lemma witness_load vm pops items :
  script_done vm -> (1 <= scriptIdx vm)%nat -> Forall from_table pops -> zlen pops <= MaxScriptSize ->
  (length items <= max_height)%nat -> isWitnessVersionActive 0 vm = true ->
  pending (with_pc (S (scriptIdx vm)) 0 vm) + MaxScriptSize <= pending vm ->
  let vm' := with_dstack (setStack items (dstack vm))
               (add_script pops (with_pc (S (scriptIdx vm)) 0 vm)) in
  Z.of_nat (length items) <= MaxStackSize \/ witness_loaded vm' ->
  safe (if isWitnessVersionActive 0 vm'
           && existsb (fun e => MaxScriptElementSize <? zlen e) (getStack (dstack vm'))
        then Err ErrElementTooBig else Ok vm') (script_next vm).
Proof.
  intros Hd Hi Ht Hp Hl Ha Hb vm' Hwl. pose proof max_height_limit as Hmax.
  change (isWitnessVersionActive 0 vm') with (isWitnessVersionActive 0 vm). rewrite Ha. cbn [andb].
  unfold vm' at 1, getStack. cbn [dstack with_dstack].
  rewrite (setStack_stk max_height) by (try lia; apply (sd_ok vm Hd)).
  destruct (existsb _ items) eqn:He; [done|]. cbn [safe].
  apply (load_ok vm pops items MaxScriptSize); auto; [lia|by apply existsb_small].
Qed.

(** The last item of the witness is the script, the others are its stack. *)
Lemma load_witness vm txin script pops :
  script_done vm -> is_Some (witnessProgram vm) ->
  tx_TxIn (vm_tx vm) !! txIdx vm = Some txin -> list.last (ti_Witness txin) = Some script ->
  Sum256 script = default [] (witnessProgram vm) -> parse_or_err script = Ok pops ->
  witness_loaded (with_dstack (setStack (take (length (ti_Witness txin) - 1) (ti_Witness txin)) (dstack vm))
                    (add_script pops (with_pc (S (scriptIdx vm)) 0 vm))).
Proof.
  intros Hd Hw Htx Hlast Hsum Hp. pose proof max_height_limit as Hmax.
  split; [done|]. split; [apply Hd|]. split; [done|]. exists txin, script, pops.
  cbn [vm_tx txIdx with_dstack add_script with_pc dstack witnessProgram scripts].
  split; [done|]. split; [|split; [done|split; [done|apply last_snoc]]].
  unfold getStack. rewrite (setStack_stk max_height _ _ (eo_d vm (sd_ok vm Hd)) ltac:(lia)).
  destruct (ti_Witness txin) as [|x w] using rev_ind; [done|].
  rewrite last_snoc in Hlast. injection Hlast as ->. rewrite length_app. cbn [length].
  by rewrite Nat.add_sub, take_app_length.
Qed.

Lemma verifyWitness_safe vm txin :
  script_done vm -> is_Some (witnessProgram vm) ->
  scriptIdx vm = (if bip16 vm then 2 else 1)%nat ->
  tx_TxIn (vm_tx vm) !! txIdx vm = Some txin -> (length (ti_Witness txin) <= max_height)%nat ->
  safe (verifyWitnessProgram (ti_Witness txin) (with_pc (S (scriptIdx vm)) 0 vm)) (script_next vm).
Proof.
  intros Hd Hw Hi Htx Hl. pose proof (witness_budget vm Hw Hi) as Hb.
  assert (H1i : (1 <= scriptIdx vm)%nat) by (rewrite Hi; destruct (bip16 vm); lia).
  unfold verifyWitnessProgram.
  change (isWitnessVersionActive 0 (with_pc _ _ vm)) with (isWitnessVersionActive 0 vm).
  change (witnessProgram (with_pc _ _ vm)) with (witnessProgram vm). cbv zeta.
  destruct (isWitnessVersionActive 0 vm) eqn:Ha.
  - case_if; [|case_if; [|done]].
    + destruct (Z.eqb_spec (zlen (ti_Witness txin)) 2) as [Htwo|]; [cbn [negb]|done].
      pose proof (payToPubKeyHash_limit (default [] (witnessProgram vm))) as Hpk.
      destruct (payToPubKeyHashScript _) as [pk| |]; try done. cbn [rbind safe] in *.
      pose proof (parse_or_err_ok pk MaxScriptSize Hpk) as Hparse.
      destruct (parse_or_err pk) as [pops| |]; try done. cbn [rbind]. destruct Hparse.
      apply (witness_load vm pops (ti_Witness txin)); auto. left. unfold zlen in Htwo. by rewrite Htwo.
    + destruct (list.last (ti_Witness txin)) as [script|] eqn:Hlast; [|done]. case_if; [done|].
      destruct (bool_decide _) eqn:Hsum; [cbn [negb]|done]. apply bool_decide_eq_true in Hsum.
      pose proof (parse_or_err_ok script MaxScriptSize ltac:(lia)) as Hparse.
      destruct (parse_or_err script) as [pops| |] eqn:Hpops; try done. cbn [rbind]. destruct Hparse.
      apply (witness_load vm pops); auto; [rewrite length_take; lia|right]. by eapply load_witness.
  - case_if; [done|]. cbn [rbind]. destruct (isWitnessVersionActive 0 (with_program _ _)) eqn:Hn; [done|].
    cbn [andb safe]. destruct (advance_ok vm (savedFirstStack vm)) as (Hok & Hoff & Hidx & Hm);
      auto; try apply Hd.
    { intros _ Hidx. lia. }
    split; [|split; [done|split; [done|]]].
    + destruct Hok. split; try done. left. cbn. destruct Hd as [_ _ Hh Halt _ _]. rewrite Halt. cbn. lia.
    + etrans; [|exact Hm]. unfold measure, pending. cbn.
      assert (0 <= MaxScriptSize) by done. repeat case_if; lia.
Qed.

Lemma next_script_safe vm : script_done vm -> safe (next_script vm) (script_next vm).
Proof.
  intros Hd. pose proof max_height_limit as Hmax. pose proof Hd as [Hok Hoff Hh Ha Hi Hf].
  unfold next_script. destruct ((scriptIdx vm =? 0)%nat && bip16 vm) eqn:Hc0.
  { cbn [safe]. apply (advance_ok vm (stk (dstack vm))); auto; apply Hok. }
  destruct ((scriptIdx vm =? 1)%nat && bip16 vm) eqn:Hc1.
  - apply andb_true_iff in Hc1 as [Hidx%Nat.eqb_eq Hb].
    assert (Hs : sok (length (stk (dstack vm))) (dstack vm)) by (split; [done|apply Hok]).
    pose proof (sok_height _ _ (eo_d vm Hok)) as Hmh.
    eapply safe_bind; [apply (CheckErrorCondition_safe (length (stk (dstack vm)))); [exact Hs|lia]|].
    intros vm1 (s & m & -> & Hm & Hsm). cbn [savedFirstStack with_dstack with_pc].
    destruct (list_last_some (savedFirstStack vm) (Hf Hb Hidx)) as (script & -> & Hin).
    assert (Hsmall : elem_small script).
    { pose proof (eo_saved vm Hok) as Hall. rewrite List.Forall_forall in Hall. auto. }
    eapply safe_bind; [apply (parse_or_err_ok script MaxScriptElementSize), Hsmall|].
    intros pops [Ht Hp]. cbn [safe]. pose proof (sok_height _ _ Hsm) as Hms.
    assert (Hd' : script_done (with_dstack s vm)).
    { apply with_dstack_done; auto; [|lia]. eapply sok_weaken; [exact Hsm|lia]. }
    refine (load_ok (with_dstack s vm) pops _ MaxScriptElementSize Hd' _ Ht Hp _ _ _ _ _); cbn.
    + lia.
    + done.
    + apply Forall_take, Hok.
    + rewrite length_take. pose proof (eo_saved_height vm Hok). pose proof max_height_Z.
      unfold MaxStackSize in *. lia.
    + left. rewrite length_take. pose proof (eo_saved_height vm Hok). lia.
    + by apply (redeem_budget vm).
  - destruct (bool_decide _ && _) eqn:Hc2.
    + apply andb_true_iff in Hc2 as [Hw%bool_decide_eq_true Hidx].
      destruct (eo_tx vm Hok) as (txin & Htx & Hlen).
      unfold cur_txin. cbn [vm_tx txIdx with_pc]. rewrite Htx. cbn [rbind].
      apply (verifyWitness_safe vm txin); auto.
      destruct (bip16 vm), (Nat.eqb_spec (scriptIdx vm) 1), (Nat.eqb_spec (scriptIdx vm) 2);
        cbn in *; congruence.
    + cbn [safe]. apply (advance_ok vm (savedFirstStack vm)); auto; try apply Hok.
      intros Hb Hidx. rewrite Hb, Hidx in Hc0. done.
Qed.

(** Skipping an empty script. *)
Lemma skip_empty_ok vm vm' :
  script_next vm vm' ->
  engine_ok (with_codeSep 0 (skip_empty vm'))
  /\ measure (with_codeSep 0 (skip_empty vm'))
     <= sumZ zlen (drop (S (scriptIdx vm)) (scripts vm)) + pending vm.
Proof.
  intros (Hok & Hoff & Hidx & Hm). unfold skip_empty.
  destruct (scripts vm' !! scriptIdx vm') as [sc|] eqn:Hs.
  2: { split; [|exact Hm]. split; [|cbn; lia]. destruct Hok. by split. }
  destruct (Nat.leb_spec (length sc) (scriptOff vm')) as [Hle|_].
  2: { split; [|exact Hm]. split; [|cbn; lia]. destruct Hok. by split. }
  rewrite Hoff in *. split.
  - split; [|cbn; lia]. destruct Hok. split; cbn; auto using Nat.le_0_l.
    + destruct eo_height0 as [Hh|Hl]; [by left|right]. unfold witness_loaded in *. cbn. by rewrite Hoff in Hl.
    + intros _ [= Hz]. lia.
  - etrans; [|exact Hm]. unfold measure.
    change (pending (with_codeSep _ ?v)) with (pending v). pose proof (pending_next vm').
    cbn [scriptIdx scripts scriptOff with_codeSep with_pc]. rewrite Hoff.
    rewrite (sum_drop _ _ sc Hs). unfold zlen at 2. lia.
Qed.

(** ** One step *)

(** A successful opcode of a pay-to-script-hash script shows that the first
    script left something on the stack. *)
Lemma redeem_script_there vm script op vm' :
  engine_ok vm -> scripts vm !! scriptIdx vm = Some script -> script !! scriptOff vm = Some op ->
  executeOpcode op (with_pc (scriptIdx vm) (S (scriptOff vm)) vm) = Ok vm' ->
  bip16 vm = true -> scriptIdx vm = 1%nat -> savedFirstStack vm <> [].
Proof.
  intros [Hok _] Hs Hop Hex Hb Hi Hsv. destruct (eo_first vm Hok Hb Hi Hsv) as [Hoff Hd].
  destruct (eo_p2sh vm Hok Hb) as (pk & Hpk & Hsh). rewrite Hi, Hpk in Hs. injection Hs as <-.
  rewrite Hoff in *. destruct pk as [|a pk]; [done|]. injection Hop as ->.
  assert (Hv : pop_value op = OP_HASH160).
  { destruct pk as [|b [|c []]]; try done. cbn in Hsh. bool_to_Z. tauto. }
  assert (Ht : from_table op).
  { pose proof (eo_scripts vm Hok) as Hall. eapply Forall_lookup_1 in Hall as [Hall _]; [|exact Hpk].
    by apply Forall_cons_iff in Hall as [? _]. }
  destruct (hash160_empty op (with_pc (scriptIdx vm) 1 vm) Ht Hv Hd) as [He|He].
  - cbn. by apply (eo_cond vm Hok).
  - by rewrite Hex in He.
  - by rewrite Hex in He.
Qed.

Lemma core_fields vm vm' :
  core vm' = core vm ->
  scripts vm' = scripts vm /\ scriptIdx vm' = scriptIdx vm /\ scriptOff vm' = scriptOff vm
  /\ vm_tx vm' = vm_tx vm /\ txIdx vm' = txIdx vm /\ bip16 vm' = bip16 vm
  /\ savedFirstStack vm' = savedFirstStack vm /\ witnessProgram vm' = witnessProgram vm.
Proof. unfold core. intros Hc. split_and!; congruence. Qed.

(** The state after an opcode: the limit has been checked. *)
Lemma after_opcode vm vm1 script :
  engine_ok vm -> scripts vm !! scriptIdx vm = Some script -> (scriptOff vm < length script)%nat ->
  vok (max_height + 3) vm1 -> core vm1 = core (with_pc (scriptIdx vm) (S (scriptOff vm)) vm) ->
  Z.of_nat (length (stk (dstack vm1)) + length (stk (astack vm1))) <= MaxStackSize ->
  (bip16 vm = true -> scriptIdx vm = 1%nat -> savedFirstStack vm <> []) ->
  engine_ok vm1 /\ measure vm1 = measure vm - 1.
Proof.
  intros [[] Hsep] Hs Hlt [[_ Hd] [_ Ha]] Hcore Hh Hsv. pose proof max_height_Z as Hmz.
  unfold MaxStackSize in Hh.
  apply core_fields in Hcore as (E1 & E2 & E3 & E4 & E5 & E6 & E7 & E8). cbn in E1, E2, E3, E4, E5, E6, E7, E8.
  split; [split; [|assumption]|].
  - split; rewrite ?E1, ?E2, ?E3, ?E4, ?E5, ?E6, ?E7; auto.
    + split; [lia|done].
    + split; [lia|done].
    + rewrite Hs. cbn. lia.
    + lia.
    + intros Hb Hi Hnil. by destruct (Hsv Hb Hi).
  - unfold measure, pending. rewrite E1, E2, E3, E6, E8. lia.
Qed.

(** The end of a script: the alternate stack is dropped, and the operations and
    the program counter start over. *)
Lemma end_of_script vm :
  engine_ok vm -> (scriptIdx vm < length (scripts vm))%nat ->
  Z.of_nat (length (stk (dstack vm)) + length (stk (astack vm))) <= MaxStackSize ->
  condStack vm = [] -> (bip16 vm = true -> scriptIdx vm = 1%nat -> savedFirstStack vm <> []) ->
  script_done (with_numOps 0 (with_astack (clear_stack (astack vm)) (with_pc (scriptIdx vm) 0 vm))).
Proof.
  intros [[] Hsep] Hi Hh Hc Hsv. pose proof max_height_limit.
  assert (Hcl : stk (clear_stack (astack vm)) = []) by (apply (clear_stack_nil max_height); [done|lia]).
  split; cbn; auto; [|lia]. split; cbn; auto using Nat.le_0_l.
  - split; rewrite Hcl; [apply Nat.le_0_l|constructor].
  - left. rewrite Hcl. cbn [length]. lia.
  - unfold MaxOpsPerScript. lia.
  - intros Hb Hi1 Hnil. by destruct (Hsv Hb Hi1).
Qed.

Lemma engine_vok vm script :
  engine_ok vm -> scripts vm !! scriptIdx vm = Some script -> (scriptOff vm < length script)%nat ->
  vok max_height (with_pc (scriptIdx vm) (S (scriptOff vm)) vm).
Proof.
  intros [[? ? ? ? ? ? (txin & Htx & _)] Hsep] Hs Hlt. split; cbn; auto.
  - exists script. split; [done|lia].
  - by apply lookup_lt_Some in Htx.
Qed.

Lemma Step_safe vm :
  engine_ok vm -> safe (Step vm) (fun p => engine_ok p.2 /\ measure p.2 < measure vm).
Proof.
  intros Hok. pose proof Hok as [Hok0 Hsep]. pose proof max_height_limit as Hmax.
  unfold Step, validPC. destruct (scripts vm !! scriptIdx vm) as [script|] eqn:Hs; [|done].
  destruct (Nat.leb_spec (length script) (scriptOff vm)) as [|Hlt]; [done|]. cbn [rbind].
  destruct (lookup_lt_is_Some_2 script (scriptOff vm) Hlt) as [op Hop]. rewrite Hop.
  assert (Ht : from_table op).
  { pose proof (eo_scripts vm Hok0) as Hall. eapply Forall_lookup_1 in Hall as [Hall _]; [|exact Hs].
    by eapply Forall_lookup_1. }
  set (vm0 := with_pc _ _ vm).
  assert (Hv0 : vok max_height vm0) by (by apply (engine_vok vm script)).
  pose proof (executeOpcode_safe op max_height vm0 Hv0 Hmax Ht) as Hex. unfold opcode_safe in Hex.
  pose proof (redeem_script_there vm script op) as Hred.
  destruct (executeOpcode op vm0) as [vm1| |] eqn:Hrun; try done. cbn [rbind safe] in *.
  destruct Hex as [Hv1 Hc1]. specialize (Hred vm1 Hok Hs Hop Hrun).
  pose proof (depth_ok _ _ (vok_d _ _ Hv1) Hmax) as Hdd.
  pose proof (depth_ok _ _ (vok_a _ _ Hv1) Hmax) as Hda. unfold Depth. rewrite Hdd, Hda.
  pose proof (sok_height _ _ (vok_d _ _ Hv1)). pose proof (sok_height _ _ (vok_a _ _ Hv1)).
  pose proof max_height_Z. rewrite i32_small by (widths; lia).
  destruct (Z.ltb_spec MaxStackSize (Z.of_nat (length (stk (dstack vm1))) + Z.of_nat (length (stk (astack vm1)))))
    as [|Hh]; [exact I|].
  destruct (after_opcode vm vm1 script Hok Hs Hlt Hv1 Hc1 ltac:(lia) Hred) as [Hok1 Hm1].
  apply core_fields in Hc1 as (E1 & E2 & E3 & E4 & E5 & E6 & E7 & E8).
  cbn in E1, E2, E3, E4, E5, E6, E7, E8. rewrite E3.
  destruct (Nat.ltb_spec (S (scriptOff vm)) (length script)) as [|Hend]; [split; [done|cbn; lia]|].
  destruct (length (condStack vm1) =? 0)%nat eqn:Hcond; [|done]. cbn [negb].
  assert (Hcn : condStack vm1 = []) by (by destruct (condStack vm1)).
  pose proof (end_of_script vm1 Hok1) as Hdone. rewrite E1, E2, E6, E7 in Hdone.
  specialize (Hdone ltac:(by eapply lookup_lt_Some) ltac:(lia) Hcn Hred). rewrite E2.
  set (vm2 := with_numOps 0 _) in *.
  eapply safe_bind; [apply (next_script_safe vm2 Hdone)|]. intros vm3 Hn3.
  destruct (skip_empty_ok vm2 vm3 Hn3) as [Hok3 Hm3]. split; [exact Hok3|]. cbn [snd].
  assert (Hp : pending vm2 = pending vm) by (unfold pending; cbn; by rewrite E6, E8).
  assert (Hsum : sumZ zlen (drop (S (scriptIdx vm2)) (scripts vm2)) = sumZ zlen (drop (S (scriptIdx vm)) (scripts vm)))
    by (cbn; by rewrite E1).
  unfold measure at 2. rewrite (sum_drop _ _ script Hs). unfold zlen at 1. lia.
Qed.

(** ** A run of the engine *)

Definition ready (k : Z) (s : run_state) : Prop :=
  match s with
  | Running vm => engine_ok vm /\ measure vm <= k
  | Stopped r => safe r engine_ok
  end.

Lemma measure_nonneg vm : engine_ok vm -> 0 <= measure vm.
Proof.
  intros [[] _]. unfold measure, pending. set (a := if _ && _ then _ else _).
  set (b := if _ && _ then _ else _).
  assert (0 <= a) by (subst a; by case_if). assert (0 <= b) by (subst b; by case_if).
  destruct (scripts vm !! scriptIdx vm) as [s|] eqn:Hs; cbn in eo_off0.
  - rewrite (sum_drop _ _ s Hs). pose proof (sum_nonneg (drop (S (scriptIdx vm)) (scripts vm))).
    unfold zlen at 1. lia.
  - pose proof (sum_nonneg (drop (scriptIdx vm) (scripts vm))). lia.
Qed.

Lemma step_run_ready k s : ready k s -> ready (k - 1) (step_run s).
Proof.
  destruct s as [vm|r]; cbn [ready step_run]; [|done]. intros [Hok Hm].
  pose proof (Step_safe vm Hok) as Hs. destruct (Step vm) as [[[] vm']| |]; cbn in *; try done.
  - tauto.
  - destruct Hs. split; [done|lia].
Qed.

(** The loop of [n] iterations takes [n] off the bound. *)
Lemma run_ready n k s : ready k s -> ready (k - Z.pos n) (run n s).
Proof.
  revert k s. induction n as [n IH|n IH|]; intros k s Hr; destruct s as [vm|r]; cbn [run]; try done.
  - apply step_run_ready in Hr. apply (IH _ _), (IH _ _) in Hr.
    by replace (k - Z.pos n~1) with (k - 1 - Z.pos n - Z.pos n) by lia.
  - apply (IH _ _), (IH _ _) in Hr. by replace (k - Z.pos n~0) with (k - Z.pos n - Z.pos n) by lia.
  - by apply step_run_ready in Hr.
Qed.

Lemma parse_limited_ok script : safe (parse_limited script) (fun pops => script_ok pops).
Proof.
  unfold parse_limited. case_if; [done|].
  eapply safe_mono; [apply (parse_or_err_ok script MaxScriptSize); lia|]. intros pops [Ht Hl]. by split.
Qed.

Lemma witness_info_safe has p2sh ss pk sigPops pkPops w :
  safe (witness_info has p2sh ss pk sigPops pkPops w) (fun _ => True).
Proof.
  unfold witness_info. do 2 (case_if; [done|]).
  assert (Hf : safe (find_witness p2sh ss pk sigPops pkPops w) (fun _ => True)).
  { unfold find_witness. repeat case_if; try done. by destruct sigPops as [|? []]; repeat case_if. }
  eapply safe_bind; [exact Hf|]. intros [p|] _; [|by case_if].
  by destruct (ExtractWitnessProgramInfo p) as [[]|].
Qed.

(** The scripts of an input, and the two that can be added to them. *)
Definition execution_bound : Z := 3 * MaxScriptSize + MaxScriptElementSize.

(** The inputs of a transaction that has been read from the wire have at most
    [maxWitnessItemsPerInput] witness items. *)
Definition witness_bounded (tx : MsgTx) : Prop :=
  Forall (fun txin => zlen (ti_Witness txin) <= maxWitnessItemsPerInput) (tx_TxIn tx).

Lemma new_engine_ok sigPops pkPops start m tx idx fl sc hc p2sh version program amount txin :
  script_ok sigPops -> script_ok pkPops -> (start <= 1)%nat ->
  tx_TxIn tx !! idx = Some txin -> zlen (ti_Witness txin) <= maxWitnessItemsPerInput ->
  (p2sh = true -> isScriptHash pkPops = true) ->
  let vm := mkEngine [sigPops; pkPops] start 0 0 (empty_stack m) (empty_stack m)
              tx idx [] 0 fl sc hc p2sh [] version program amount in
  engine_ok vm /\ measure vm <= execution_bound.
Proof.
  intros Hs Hp Hst Htx Hw Hsh vm.
  assert (Hempty : sok max_height (empty_stack m)) by (split; [apply Nat.le_0_l|constructor]).
  split.
  - split; [|apply Nat.le_0_l]. constructor.
    + exact Hempty.
    + exact Hempty.
    + by left.
    + done.
    + apply Nat.le_0_l.
    + done.
    + exists txin. split; [exact Htx|]. pose proof max_height_Z.
      unfold zlen, maxWitnessItemsPerInput in Hw. lia.
    + constructor; [exact Hs|]. constructor; [exact Hp|constructor].
    + constructor.
    + done.
    + intros Hb. exists pkPops. split; [reflexivity|exact (Hsh Hb)].
    + intros _ _ _. split; reflexivity.
  - destruct Hs as [_ Hs], Hp as [_ Hp]. unfold measure, pending, execution_bound. cbn [vm scripts scriptIdx scriptOff].
    assert (sumZ zlen (drop start [sigPops; pkPops]) <= 2 * MaxScriptSize).
    { destruct start as [|[|]]; [| |lia]; cbn; unfold zlen in *; lia. }
    assert (0 <= MaxScriptSize /\ 0 <= MaxScriptElementSize) as [] by done.
    repeat case_if; lia.
Qed.

Lemma NewEngine_safe pk tx idx fl sc hc amount :
  witness_bounded tx ->
  safe (NewEngine pk tx idx fl sc hc amount) (fun vm => engine_ok vm /\ measure vm <= execution_bound).
Proof.
  intros Hw. unfold NewEngine. destruct (_ || _) eqn:Hr; [done|].
  apply orb_false_iff in Hr as [Hr1 Hr2]. bool_to_Z.
  destruct (lookup_lt_is_Some_2 (tx_TxIn tx) (Z.to_nat idx)) as [txin Htx]; [unfold zlen in *; lia|].
  rewrite Htx. do 3 (case_if; [done|]).
  eapply safe_bind; [apply parse_limited_ok|]. intros sigPops Hs.
  eapply safe_bind; [apply parse_limited_ok|]. intros pkPops Hp.
  destruct (_ && negb (isPushOnly sigPops)); [done|].
  eapply safe_bind; [apply witness_info_safe|]. intros [version program] _. cbn [safe].
  eapply new_engine_ok; [done|done| |done| |].
  - case_if; lia.
  - by eapply Forall_lookup_1 in Hw.
  - by intros [_ ?]%andb_true_iff.
Qed.

(** One iteration of the loop. *)
Definition steps_to (vm vm' : Engine) : Prop := exists fin, Step vm = Ok (fin, vm').

Lemma steps_ok n vm vm' :
  engine_ok vm -> nsteps steps_to n vm vm' ->
  engine_ok vm' /\ measure vm' + Z.of_nat n <= measure vm.
Proof.
  intros Hok Hs. induction Hs as [vm|n vm vm1 vm2 [fin Hst] _ IH]; [split; [done|lia]|].
  pose proof (Step_safe vm Hok) as Hstep. rewrite Hst in Hstep. destruct Hstep as [Hok1 Hm1].
  cbn [snd] in *. destruct (IH Hok1). split; [done|lia].
Qed.

(** ** Properties *)

Lemma Execute_finishes pk tx idx fl sc hc amount :
  witness_bounded tx ->
  match NewEngine pk tx idx fl sc hc amount with
  | Ok vm => exists r, Execute vm = Some r /\ r <> Panic
  | Err _ => True
  | Panic => False
  end.
Proof.
  intros Hw. pose proof (NewEngine_safe pk tx idx fl sc hc amount Hw) as Hn.
  destruct (NewEngine _ _ _ _ _ _ _) as [vm| |]; try done.
  pose proof (run_ready execute_fuel _ (Running vm) Hn) as Hr. unfold Execute.
  destruct (run execute_fuel (Running vm)) as [vm'|r]; cbn [ready] in Hr.
  { destruct Hr as [Hok Hm]. apply measure_nonneg in Hok.
    unfold execution_bound, execute_fuel, MaxScriptSize, MaxScriptElementSize in Hm. lia. }
  eexists. split; [reflexivity|]. destruct r as [vm'| |]; try done. cbn [rbind].
  destruct Hr as [[] _]. pose proof max_height_limit.
  pose proof (CheckErrorCondition_safe max_height true vm' eo_d0 ltac:(lia)) as Hc.
  by destruct (CheckErrorCondition true vm').
Qed.

(** C14: the script engine decides every input: whatever the scripts, the flags,
    the caches and the transaction are (with no more witness items per input
    than the wire format allows), neither building an engine nor running it
    panics, and the loop of [Execute] ends within its fuel with success or a
    script error. *)
Theorem Execute_total pk tx idx fl sc hc amount :
  witness_bounded tx ->
  match NewEngine pk tx idx fl sc hc amount with
  | Ok vm => exists r, Execute vm = Some r /\ r <> Panic
  | Err _ => True
  | Panic => False
  end.
Proof. apply Execute_finishes. Qed.

(** C17: the limits of the engine hold at every state it goes through, the last
    one included: it takes at most [3 * 10000 + 520] steps; no element on either
    stack is larger than 520 bytes and at most 201 operations have been counted;
    and the two stacks together hold at most 1000 elements, except where the
    script of a pay-to-witness-script-hash program has just been loaded: no
    opcode of it has run, the alternate stack is empty, and the data stack is
    the witness of the input without its last item, the script, whose hash is
    the program. *)
Theorem engine_limits pk tx idx fl sc hc amount vm n vm' :
  witness_bounded tx -> NewEngine pk tx idx fl sc hc amount = Ok vm -> nsteps steps_to n vm vm' ->
  Z.of_nat n <= execution_bound
  /\ Forall elem_small (stk (dstack vm') ++ stk (astack vm'))
  /\ numOps vm' <= MaxOpsPerScript
  /\ (Z.of_nat (length (stk (dstack vm')) + length (stk (astack vm'))) <= MaxStackSize
      \/ scriptOff vm' = 0%nat /\ stk (astack vm') = []
         /\ exists txin script program pops,
              tx_TxIn (vm_tx vm') !! txIdx vm' = Some txin
              /\ ti_Witness txin = getStack (dstack vm') ++ [script]
              /\ witnessProgram vm' = Some program /\ program = Sum256 script
              /\ parse_or_err script = Ok pops /\ list.last (scripts vm') = Some pops).
Proof.
  intros Hw Hn Hs. pose proof (NewEngine_safe pk tx idx fl sc hc amount Hw) as Hok. rewrite Hn in Hok.
  destruct Hok as [Hok Hm]. destruct (steps_ok n vm vm' Hok Hs) as [Hok' Hm'].
  pose proof (measure_nonneg vm' Hok'). destruct Hok' as [[] _]. split; [lia|].
  split; [apply Forall_app; split; [apply eo_d0|apply eo_a0]|]. split; [done|].
  destruct eo_height0 as [Hh|(Ho & Ha & [program Hp] & txin & script & pops & Hl)]; [by left|right].
  rewrite Hp in Hl. destruct Hl as (Htx & Hw' & Hsum & Hparse).
  split; [done|]. split; [done|]. by exists txin, script, program, pops.
Qed.

End Safety.

Section Witnesses.
#[local] Existing Instance prefix_hash_functions | 0.
#[local] Existing Instance prefix_script_hashes.
#[local] Existing Instance accepting_curve.
#[local] Existing Instance list_order.

(** OP_DUP OP_HASH160 OP_EQUAL on a pushed string. *)
Definition sample_tx : MsgTx :=
  mkMsgTx 1 [mkTxIn (mkOutPoint (replicate 32 x07) 0) [x01; x2a] [] 0] [] 0.
Definition sample_pkScript : list byte := [x76; xa9; x87; x63; x67; x51; x68].

Lemma sample_bounded : witness_bounded sample_tx.
Proof. repeat constructor; discriminate. Qed.

Lemma Execute_total_witness :
  witness_bounded sample_tx
  /\ exists vm r, NewEngine sample_pkScript sample_tx 0 0 None None 0 = Ok vm
                  /\ Execute vm = Some r /\ r <> Panic.
Proof.
  split; [exact sample_bounded|].
  pose proof (Execute_total sample_pkScript sample_tx 0 0 None None 0 sample_bounded) as Ht.
  destruct (NewEngine sample_pkScript sample_tx 0 0 None None 0) as [vm|e|] eqn:Hn.
  - destruct Ht as (r & Hr). exists vm, r. split; [reflexivity|exact Hr].
  - vm_compute in Hn. discriminate.
  - contradiction.
Defined.

(** The outcome: the string is not the hash of its hash, so the other branch is
    taken and the script succeeds. *)
Example sample_executes :
  match NewEngine sample_pkScript sample_tx 0 0 None None 0 with
  | Ok vm => Execute vm = Some (Ok tt)
  | _ => False
  end.
Proof. vm_compute. reflexivity. Qed.

Lemma sample_steps :
  match NewEngine sample_pkScript sample_tx 0 0 None None 0 with
  | Ok vm => match Step vm with Ok _ => true | _ => false end
  | _ => false
  end = true.
Proof. vm_compute. reflexivity. Qed.

Lemma engine_limits_witness :
  exists vm n vm', witness_bounded sample_tx
    /\ NewEngine sample_pkScript sample_tx 0 0 None None 0 = Ok vm /\ nsteps steps_to n vm vm'
    /\ Z.of_nat n <= execution_bound.
Proof.
  pose proof sample_steps as Hex.
  destruct (NewEngine sample_pkScript sample_tx 0 0 None None 0) as [vm|e|] eqn:Hn; try discriminate Hex.
  destruct (Step vm) as [[d vm']|e|] eqn:Hs; try discriminate Hex.
  assert (H1 : nsteps steps_to 1 vm vm').
  { eapply nsteps_l; [exists d; exact Hs|constructor]. }
  exists vm, 1%nat, vm'. split; [exact sample_bounded|]. split; [reflexivity|]. split; [exact H1|].
  exact (proj1 (engine_limits sample_pkScript sample_tx 0 0 None None 0 vm 1 vm'
                  sample_bounded Hn H1)).
Defined.

End Witnesses.
