(* ===== verification/EngineCache.v ===== *)
(** * The signature cache is transparent

    A cache whose entries are signatures that verify changes neither the
    verdict of the engine nor its steps: an engine with the cache simulates the
    engine without it. *)

From S2P Require Import Prelude Chainhash Wire Hash WireMsg ScriptNum Stack Opcode Script.
From S2P Require Import ScriptBuilder Signature Engine EngineSafety.

Section Cache.
Context `{HashFunctions} `{ScriptHashes} `{Curve} `{MapOrder}.

(** Every entry is a valid signature of its key. *)
Definition cache_sound (c : option SigCache) : Prop :=
  match c with
  | Some c => forall h sig key, validSigs c !! h = Some (sig, key) ->
                ecdsa_Verify key h (sig_R sig) (sig_S sig) = true
  | None => True
  end.

(** The engine without its cache. *)
Definition erase (vm : Engine) : Engine := with_cache None vm.

Lemma NewSigCache_sound n : cache_sound (Some (NewSigCache n)).
Proof. intros h sig key Hl. cbn in Hl. by rewrite lookup_empty in Hl. Qed.

Lemma Exists_sound c h sig key :
  cache_sound (Some c) -> Exists h sig key c = true ->
  ecdsa_Verify key h (sig_R sig) (sig_S sig) = true.
Proof.
  intros Hc. unfold Exists. destruct (validSigs c !! h) as [[[R' S'] [X' Y']]|] eqn:Hl; [|done].
  apply Hc in Hl. destruct sig as [R S], key as [X Y]. cbn in *.
  rewrite !andb_true_iff, !Z.eqb_eq. intros [[-> ->] [-> ->]]. done.
Qed.

Lemma Add_sound c h sig key :
  cache_sound (Some c) -> ecdsa_Verify key h (sig_R sig) (sig_S sig) = true ->
  cache_sound (Some (Add h sig key c)).
Proof.
  intros Hc Hv. unfold Add. case_if; [done|]. intros h' sig' key'. cbn [validSigs].
  rewrite lookup_insert_Some. intros [[<- [= <- <-]]|[_ Hl]]; [done|].
  revert Hl. case_if; [|by apply Hc].
  destruct (range (validSigs c)) as [|[k v] ?]; [by apply Hc|].
  rewrite lookup_delete_Some. intros [_ Hl]. by apply Hc.
Qed.

(** The verdict on a signature does not depend on the cache. *)
Lemma verify_cached_sound c h sig key :
  cache_sound c ->
  exists c', cache_sound c'
    /\ verify_cached c h sig key = Ok (ecdsa_Verify key h (sig_R sig) (sig_S sig), c')
    /\ verify_cached None h sig key = Ok (ecdsa_Verify key h (sig_R sig) (sig_S sig), None).
Proof.
  intros Hc. unfold verify_cached, Verify. cbn [rbind].
  destruct c as [c|]; [|by exists None].
  destruct (Exists h sig key c) eqn:He.
  - rewrite (Exists_sound c h sig key Hc He). by exists (Some c).
  - destruct (ecdsa_Verify _ _ _ _) eqn:Hv; [|by exists (Some c)].
    exists (Some (Add h sig key c)). split; [by apply Add_sound|done].
Qed.

(** ** Simulation *)

(** [r'] is the outcome without the cache of what gives [r] with it. *)
Definition sim (r r' : result script_error Engine) : Prop :=
  match r with
  | Ok vm => r' = Ok (erase vm) /\ cache_sound (sigCache vm)
  | Err e => r' = Err e
  | Panic => r' = Panic
  end.

Definition transparent (f : Engine -> result script_error Engine) : Prop :=
  forall vm, cache_sound (sigCache vm) -> sim (f vm) (f (erase vm)).

Lemma sim_ok vm vm' : cache_sound (sigCache vm) -> vm' = erase vm -> sim (Ok vm) (Ok vm').
Proof. intros Hc ->. by split. Qed.

Lemma sim_bind r r' k : sim r r' -> transparent k -> sim (rbind r k) (rbind r' k).
Proof.
  intros Hr Hk. destruct r as [vm|e|]; cbn in Hr; [|by subst..]. destruct Hr as [-> Hc].
  by apply Hk.
Qed.

(** A computation on both sides that the cache plays no part in. *)
Lemma sim_same {A} (c : result script_error A) k k' :
  (forall a, sim (k a) (k' a)) -> sim (rbind c k) (rbind c k').
Proof. intros Hk. by destruct c; cbn [rbind]. Qed.

Lemma sim_opaque {E A} (c : result E A) k k' e e' :
  (forall a, sim (k a) (k' a)) -> (forall a, sim (e a) (e' a)) ->
  sim (match c with Ok a => k a | Err x => e x | Panic => Panic end)
      (match c with Ok a => k' a | Err x => e' x | Panic => Panic end).
Proof. intros Hk He. by destruct c. Qed.

Ltac sim_step :=
  match goal with
  | |- sim (Ok _) (Ok _) => apply sim_ok; [assumption|reflexivity]
  | |- sim (Err _) (Err _) => reflexivity
  | |- sim Panic Panic => reflexivity
  | |- sim (rbind ?c _) (rbind ?c _) => apply sim_same; intros
  | |- sim (match ?x with _ => _ end) (match ?x with _ => _ end) => destruct x
  end.

(** Reads of the erased state become reads of the state. *)
Ltac unerase vm :=
  change (dstack (erase vm)) with (dstack vm) in *;
  change (astack (erase vm)) with (astack vm) in *;
  change (condStack (erase vm)) with (condStack vm) in *;
  change (numOps (erase vm)) with (numOps vm) in *;
  change (vm_tx (erase vm)) with (vm_tx vm) in *;
  change (scripts (erase vm)) with (scripts vm) in *;
  change (scriptIdx (erase vm)) with (scriptIdx vm) in *;
  change (scriptOff (erase vm)) with (scriptOff vm) in *;
  change (bip16 (erase vm)) with (bip16 vm) in *;
  change (savedFirstStack (erase vm)) with (savedFirstStack vm) in *;
  change (witnessProgram (erase vm)) with (witnessProgram vm) in *;
  change (cur_txin (erase vm)) with (cur_txin vm) in *;
  change (subScript (erase vm)) with (subScript vm) in *;
  change (popIfBool (erase vm)) with (popIfBool vm) in *;
  change (isBranchExecuting (erase vm)) with (isBranchExecuting vm) in *;
  change (hasFlag (erase vm)) with (hasFlag vm) in *;
  change (sig_hash (erase vm)) with (sig_hash vm) in *;
  change (parse_signature (erase vm)) with (parse_signature vm) in *;
  change (checkHashTypeEncoding (erase vm)) with (checkHashTypeEncoding vm) in *;
  change (checkSignatureEncoding (erase vm)) with (checkSignatureEncoding vm) in *;
  change (checkPubKeyEncoding (erase vm)) with (checkPubKeyEncoding vm) in *;
  repeat match goal with
  | |- context [isWitnessVersionActive ?v (erase vm)] =>
      change (isWitnessVersionActive v (erase vm)) with (isWitnessVersionActive v vm)
  end.
Ltac solve_sim :=
  let vm := fresh "vm" in let Hc := fresh "Hc" in
  intros vm Hc; repeat autounfold with sim; unerase vm; cbv zeta; repeat sim_step.

Create HintDb sim.
#[local] Hint Unfold on_dstack opcodeNop opcodeElse opcodeEndif open_branch opcodeIf opcodeNotIf as_nop
  opcodeCheckLockTimeVerify opcodeCheckSequenceVerify opcodeToAltStack opcodeFromAltStack
  opcodeCodeSeparator : sim.

Lemma on_dstack_transparent f : transparent (on_dstack f).
Proof. solve_sim. Qed.

(** *** Signature checks *)

Lemma CheckSig_transparent : transparent opcodeCheckSig.
Proof.
  intros vm Hc. unfold opcodeCheckSig. unerase vm.
  do 2 (apply sim_same; intros []). sim_step; [sim_step|]. cbv zeta. do 5 (apply sim_same; intros ?).
  destruct (ParsePubKey _) as [key|?|]; [|repeat sim_step..].
  destruct (parse_signature _ _) as [sig|?|]; [|repeat sim_step..].
  destruct (verify_cached_sound (sigCache vm) a3 sig key Hc) as (c' & Hs & -> & Hn).
  change (sigCache (erase vm)) with (@None SigCache). rewrite Hn. cbn [rbind].
  sim_step; [sim_step|]. by apply sim_ok.
Qed.

Lemma multisig_transparent vm script keys sigs parsed c :
  cache_sound c ->
  match multisig_loop vm script keys sigs parsed c with
  | Ok (b, c') => multisig_loop (erase vm) script keys sigs parsed None = Ok (b, None) /\ cache_sound c'
  | Err e => multisig_loop (erase vm) script keys sigs parsed None = Err e
  | Panic => multisig_loop (erase vm) script keys sigs parsed None = Panic
  end.
Proof.
  revert sigs parsed c. induction keys as [|key keys IH]; intros [|sig sigs] parsed c Hc;
    cbn [multisig_loop]; try done.
  case_if; [done|]. case_if; [by apply IH|]. cbv zeta. unerase vm.
  set (p := match parsed with Some _ => _ | None => _ end).
  destruct p as [[psig|]| |]; cbn [rbind]; try done; [|by apply IH].
  destruct (checkPubKeyEncoding vm key) as [[]| |]; cbn [rbind]; try done.
  destruct (ParsePubKey key) as [pkey|?|]; try done; [|by apply IH].
  destruct (sig_hash _ _ _) as [h| |]; cbn [rbind]; try done.
  destruct (verify_cached_sound c h psig pkey Hc) as (c' & Hs & -> & ->). cbn [rbind].
  destruct (ecdsa_Verify _ _ _ _); by apply IH.
Qed.

Lemma CheckMultiSig_transparent : transparent opcodeCheckMultiSig.
Proof.
  intros vm Hc. unfold opcodeCheckMultiSig. unerase vm. cbv zeta.
  apply sim_same; intros []. do 2 (sim_step; [sim_step|]).
  set (vm1 := with_numOps (numOps vm + _) vm).
  change (with_numOps _ (erase vm)) with (erase vm1). unerase vm1.
  sim_step; [sim_step|]. apply sim_same; intros []. apply sim_same; intros [].
  do 2 (sim_step; [sim_step|]). do 2 (apply sim_same; intros []).
  sim_step; [sim_step|]. apply sim_same; intros script.
  set (script' := if isWitnessVersionActive 0 vm1 then _ else _).
  pose proof (multisig_transparent vm1 script' l l0 None (sigCache vm) Hc) as Hm.
  change (sigCache (erase vm1)) with (@None SigCache). change (sigCache vm1) with (sigCache vm).
  destruct (multisig_loop vm1 script' l l0 None (sigCache vm)) as [[ok c']|e|];
    [destruct Hm as [-> Hc']|rewrite Hm..]; cbn [rbind]; try done.
  sim_step; [sim_step|]. by apply sim_ok.
Qed.

Lemma then_verify_transparent c f : transparent f -> transparent (fun vm => then_verify c (f vm)).
Proof. intros Hf vm Hc. apply sim_bind; [by apply Hf|apply on_dstack_transparent]. Qed.

#[local] Hint Resolve on_dstack_transparent CheckSig_transparent CheckMultiSig_transparent
  then_verify_transparent : sim.

Lemma opfunc_transparent op : transparent (call_opfunc op).
Proof.
  intros vm Hc. unfold call_opfunc.
  destruct (opfunc (pop_opcode op)); try reflexivity;
    try (apply on_dstack_transparent; exact Hc);
    try (apply CheckSig_transparent; exact Hc); try (apply CheckMultiSig_transparent; exact Hc);
    try (apply then_verify_transparent; [auto with sim|exact Hc]).
  all: revert vm Hc; match goal with |- forall vm, _ -> sim (?f vm) _ => idtac end.
  all: solve_sim.
Qed.

Lemma count_transparent op : transparent (count_op op).
Proof. intros vm Hc. unfold count_op. cbn [numOps with_numOps]. unerase vm. repeat sim_step. Qed.

Lemma executeOpcode_transparent op : transparent (executeOpcode op).
Proof.
  intros vm Hc. unfold executeOpcode. do 2 (sim_step; [sim_step|]).
  apply sim_bind; [by apply count_transparent|]. clear vm Hc. intros vm Hc. unerase vm.
  sim_step; [sim_step|]. apply sim_same. intros _. by apply opfunc_transparent.
Qed.

Lemma CheckError_transparent final : transparent (CheckErrorCondition final).
Proof. intros vm Hc. unfold CheckErrorCondition. unerase vm. repeat sim_step. Qed.

(** *** The steps of a run *)

Lemma witness_transparent witness : transparent (verifyWitnessProgram witness).
Proof.
  intros vm Hc. unfold verifyWitnessProgram. unerase vm. cbv zeta. apply sim_bind.
  - repeat sim_step.
  - clear vm Hc. intros vm Hc. unerase vm. repeat sim_step.
Qed.

Lemma next_script_transparent : transparent next_script.
Proof.
  intros vm Hc. unfold next_script. unerase vm. cbv zeta. sim_step; [repeat sim_step|]. sim_step.
  - apply sim_bind.
    { by apply (CheckError_transparent false (with_pc (S (scriptIdx vm)) 0 vm)). }
    clear vm Hc. intros vm Hc. unerase vm. repeat sim_step.
  - sim_step; [|sim_step].
    change (cur_txin (with_pc _ _ (erase vm))) with (cur_txin (with_pc (S (scriptIdx vm)) 0 vm)).
    apply sim_same. intros txin.
    by apply (witness_transparent _ (with_pc (S (scriptIdx vm)) 0 vm)).
Qed.

Lemma erase_skip vm : skip_empty (erase vm) = erase (skip_empty vm).
Proof.
  unfold skip_empty. unerase vm. destruct (scripts vm !! scriptIdx vm); [|done]. by case_if.
Qed.
Lemma cache_skip vm : sigCache (skip_empty vm) = sigCache vm.
Proof. unfold skip_empty. destruct (scripts vm !! scriptIdx vm); [|done]. by case_if. Qed.

Definition sim_step_result (r r' : result script_error (bool * Engine)) : Prop :=
  match r with
  | Ok (b, vm) => r' = Ok (b, erase vm) /\ cache_sound (sigCache vm)
  | Err e => r' = Err e
  | Panic => r' = Panic
  end.

Lemma sim_bind_step r r' k :
  sim r r' -> (forall vm, cache_sound (sigCache vm) -> sim_step_result (k vm) (k (erase vm))) ->
  sim_step_result (rbind r k) (rbind r' k).
Proof.
  intros Hr Hk. destruct r as [vm|e|]; cbn in Hr; [|by subst..]. destruct Hr as [-> Hc]. by apply Hk.
Qed.

Lemma Step_transparent vm :
  cache_sound (sigCache vm) -> sim_step_result (Step vm) (Step (erase vm)).
Proof.
  intros Hc. unfold Step. change (validPC (erase vm)) with (validPC vm). unerase vm.
  destruct (validPC vm) as [[]| |]; cbn [rbind]; try done.
  destruct (scripts vm !! scriptIdx vm) as [script|]; [|done].
  destruct (script !! scriptOff vm) as [op|]; [|done]. apply sim_bind_step.
  { by apply (executeOpcode_transparent op (with_pc (scriptIdx vm) (S (scriptOff vm)) vm)). }
  clear vm Hc. intros vm Hc. unerase vm. do 3 (case_if; [done|]). apply sim_bind_step.
  { by apply (next_script_transparent
                (with_numOps 0 (with_astack (clear_stack (astack vm)) (with_pc (scriptIdx vm) 0 vm)))). }
  intros vm' Hc'. rewrite erase_skip. split; [done|]. cbn. by rewrite cache_skip.
Qed.

Definition sim_run (s s' : run_state) : Prop :=
  match s with
  | Running vm => s' = Running (erase vm) /\ cache_sound (sigCache vm)
  | Stopped r => exists r', s' = Stopped r' /\ sim r r'
  end.

Lemma step_run_transparent s s' : sim_run s s' -> sim_run (step_run s) (step_run s').
Proof.
  destruct s as [vm|r]; cbn [sim_run step_run].
  - intros [-> Hc]. cbn [step_run]. pose proof (Step_transparent vm Hc) as Hs.
    destruct (Step vm) as [[[] vm']|e|]; cbn in Hs; [destruct Hs as [-> Hc']..|rewrite Hs|rewrite Hs];
      cbn; eauto.
  - intros (r' & -> & Hr). cbn. by exists r'.
Qed.

Lemma run_transparent n s s' : sim_run s s' -> sim_run (run n s) (run n s').
Proof.
  revert s s'. induction n as [n IH|n IH|]; intros [vm|r] s' Hs.
  2,4,6: destruct Hs as (r' & -> & Hr); cbn; by exists r'.
  - pose proof (step_run_transparent _ _ Hs) as Hs1. destruct Hs as [-> _]. cbn [run]. auto.
  - pose proof (IH _ _ Hs) as Hs1. destruct Hs as [-> _]. cbn [run]. auto.
  - pose proof (step_run_transparent _ _ Hs) as Hs1. destruct Hs as [-> _]. exact Hs1.
Qed.

Lemma Execute_transparent vm : cache_sound (sigCache vm) -> Execute vm = Execute (erase vm).
Proof.
  intros Hc. unfold Execute.
  pose proof (run_transparent execute_fuel (Running vm) (Running (erase vm)) (conj eq_refl Hc)) as Hr.
  destruct (run execute_fuel (Running vm)) as [vm1|r]; cbn [sim_run] in Hr.
  { by destruct Hr as [-> _]. }
  destruct Hr as (r' & -> & Hr). destruct r as [vm1|e|]; cbn in Hr; [|by subst..].
  destruct Hr as [-> Hc1]. cbn [rbind]. pose proof (CheckError_transparent true vm1 Hc1) as He.
  destruct (CheckErrorCondition true vm1); cbn in He; [by destruct He as [-> _]|by rewrite He..].
Qed.

Lemma steps_cache vm vm' :
  rtc steps_to vm vm' -> cache_sound (sigCache vm) -> cache_sound (sigCache vm').
Proof.
  induction 1 as [|vm vm1 vm' [fin Hst] _ IH]; intros Hc; [done|]. apply IH.
  pose proof (Step_transparent vm Hc) as Ht. rewrite Hst in Ht. apply Ht.
Qed.

(** The verdict on an input: the result of building an engine and running it. *)
Definition verdict (pk : list byte) (tx : MsgTx) (idx fl : Z) (sc : option SigCache)
    (hc : option TxSigHashes) (amount : Z) : option (result script_error unit) :=
  match NewEngine pk tx idx fl sc hc amount with
  | Ok vm => Execute vm
  | Err e => Some (Err e)
  | Panic => Some Panic
  end.

Lemma NewEngine_transparent pk tx idx fl sc hc amount :
  cache_sound sc ->
  sim (NewEngine pk tx idx fl sc hc amount) (NewEngine pk tx idx fl None hc amount).
Proof.
  intros Hc. unfold NewEngine. cbv zeta. repeat sim_step; try done.
Qed.

(** ** Properties *)

(** C16: the signature cache never changes a verdict: with a cache that holds
    only signatures that verify, the engine accepts and rejects exactly the
    inputs it accepts and rejects without a cache, with the same errors; and the
    cache at every state the engine goes through holds only signatures that
    verify. *)
Theorem sig_cache_transparent pk tx idx fl sc hc amount :
  cache_sound sc ->
  verdict pk tx idx fl sc hc amount = verdict pk tx idx fl None hc amount
  /\ (forall vm vm', NewEngine pk tx idx fl sc hc amount = Ok vm -> rtc steps_to vm vm' ->
        cache_sound (sigCache vm')).
Proof.
  intros Hc. unfold verdict. pose proof (NewEngine_transparent pk tx idx fl sc hc amount Hc) as Hn.
  destruct (NewEngine pk tx idx fl sc hc amount) as [vm|e|]; cbn in Hn; [|by rewrite Hn..].
  destruct Hn as [-> Hs]. split; [by apply Execute_transparent|].
  intros vm0 vm' [= <-] Hsteps. by apply (steps_cache vm).
Qed.

End Cache.

Section Witnesses.
#[local] Existing Instance prefix_hash_functions | 0.
#[local] Existing Instance prefix_script_hashes.
#[local] Existing Instance accepting_curve.
#[local] Existing Instance list_order.

(** A script that checks a signature, and a cache that holds the signature the
    input comes with, for the hash of the transaction that is signed. *)
Definition signed_pkScript : list byte := [x21] ++ SerializeCompressed sample_pubkey ++ [xac].
Definition signed_tx : MsgTx :=
  mkMsgTx 1 [mkTxIn (mkOutPoint (replicate 32 x07) 0)
               [x09; x30; x06; x02; x01; x01; x02; x01; x01; x01] [] 0] [mkTxOut 5 []] 0.
Definition signed_hash : list byte :=
  match calcSignatureHash (fst (parseScript signed_pkScript)) 1 signed_tx 0 with Ok h => h | _ => [] end.
Definition sample_cache : SigCache := Add signed_hash (mkSignature 1 1) sample_pubkey (NewSigCache 1).

Lemma sample_cache_sound : cache_sound (Some sample_cache).
Proof. apply Add_sound; [apply NewSigCache_sound|reflexivity]. Qed.

Lemma signed_verdict : Exists signed_hash (mkSignature 1 1) sample_pubkey sample_cache = true
  /\ verdict signed_pkScript signed_tx 0 0 (Some sample_cache) None 0 = Some (Ok tt).
Proof. split; vm_compute; reflexivity. Qed.

Lemma sig_cache_transparent_witness :
  cache_sound (Some sample_cache) /\ Exists signed_hash (mkSignature 1 1) sample_pubkey sample_cache = true
  /\ verdict signed_pkScript signed_tx 0 0 None None 0 = Some (Ok tt).
Proof.
  split; [exact sample_cache_sound|]. split; [exact (proj1 signed_verdict)|].
  rewrite <- (proj1 (sig_cache_transparent signed_pkScript signed_tx 0 0 (Some sample_cache) None 0 sample_cache_sound)).
  exact (proj2 signed_verdict).
Defined.

End Witnesses.
