(* ===== verification/PubKeyHash.v ===== *)
(** * Pushes and pay-to-pubkey-hash outputs

    What [AddData] of the script builder pushes when the engine runs it, and
    what it takes to spend a pay-to-pubkey-hash output. *)

From S2P Require Import Prelude Chainhash Wire Hash WireMsg ScriptNum Stack Opcode Script.
From S2P Require Import ScriptBuilder Signature Engine EngineSafety EngineCache.

(** ** Pushes *)

(** The forms of a canonical push: the data, the parsed opcode and its bytes. *)
Inductive push_form : list byte -> parsedOpcode -> list byte -> Prop :=
  | Push_empty : push_form [] (mkParsed (mkOpcode OP_0 1 H_opcodeFalse) []) [byte_of_Z OP_0]
  | Push_small (b : byte) : 1 <= Z_of_byte b <= 16 ->
      push_form [b] (mkParsed (mkOpcode (OP_1 - 1 + b) 1 H_opcodeN) []) [byte_of_Z (OP_1 - 1 + b)]
  | Push_negate :
      push_form [x81] (mkParsed (mkOpcode OP_1NEGATE 1 H_opcode1Negate) []) [byte_of_Z OP_1NEGATE]
  | Push_direct d : 1 <= zlen d <= 75 ->
      (zlen d = 1 -> 16 < data0 d /\ data0 d <> 0x81) ->
      push_form d (mkParsed (mkOpcode (zlen d) (zlen d + 1) H_opcodePushData) d)
        (byte_of_Z (zlen d) :: d)
  | Push_data1 d : 75 < zlen d <= 255 ->
      push_form d (mkParsed (mkOpcode OP_PUSHDATA1 (-1) H_opcodePushData) d)
        (byte_of_Z OP_PUSHDATA1 :: byte_of_Z (zlen d) :: d)
  | Push_data2 d : 255 < zlen d <= MaxScriptElementSize ->
      push_form d (mkParsed (mkOpcode OP_PUSHDATA2 (-2) H_opcodePushData) d)
        (byte_of_Z OP_PUSHDATA2 :: le_bytes 2 (zlen d) ++ d).

Lemma zlen_one (d : list byte) : zlen d = 1 -> exists b, d = [b].
Proof. destruct d as [|b []]; unfold zlen; cbn; try lia. by exists b. Qed.

Lemma byte_81 (b : byte) : Z_of_byte b = 0x81 -> b = x81.
Proof. intros Hb. rewrite <- (byte_of_Z_of_byte b), Hb. reflexivity. Qed.
Lemma byte_00 (b : byte) : Z_of_byte b = 0 -> b = x00.
Proof. intros Hb. rewrite <- (byte_of_Z_of_byte b), Hb. reflexivity. Qed.

Lemma data_push_form d :
  d <> [x00] -> zlen d <= MaxScriptElementSize -> exists pop, push_form d pop (data_push d).
Proof.
  intros H0d Hl. unfold MaxScriptElementSize in Hl. unfold data_push.
  destruct (decide (zlen d = 1)) as [H1d|H1d].
  - destruct (zlen_one d H1d) as [b ->]. unfold data0. cbn [nth].
    change (zlen [b] =? 0) with false. change (zlen [b] =? 1) with true.
    change (zlen [b] <? OP_PUSHDATA1) with true. cbn [andb orb].
    pose proof (Z_of_byte_range b) as Hr. unfold is_u8 in Hr. destruct (Z.eqb_spec (Z_of_byte b) 0) as [Hb|Hb].
    { by rewrite (byte_00 b Hb) in H0d. }
    destruct (Z.leb_spec (Z_of_byte b) 16); [eexists; apply Push_small; lia|].
    destruct (Z.eqb_spec (Z_of_byte b) 129) as [Hn|Hn].
    { rewrite (byte_81 b Hn). eexists. constructor. }
    eexists. apply (Push_direct [b]); [unfold zlen; cbn; lia|]. unfold data0. cbn. lia.
  - rewrite (proj2 (Z.eqb_neq _ _) H1d). cbn [andb]. rewrite orb_false_r.
    destruct (Z.eqb_spec (zlen d) 0) as [He|He].
    { destruct d; [eexists; constructor|unfold zlen in He; cbn in He; lia]. }
    assert (0 <= zlen d) by (unfold zlen; lia).
    destruct (Z.ltb_spec (zlen d) OP_PUSHDATA1); [|destruct (Z.leb_spec (zlen d) 255)];
      [| |rewrite (proj2 (Z.leb_le (zlen d) 65535)) by lia]; unfold OP_PUSHDATA1 in *.
    + replace (OP_DATA_1 - 1 + zlen d) with (zlen d) by (unfold OP_DATA_1; lia).
      eexists. apply Push_direct; [lia|]. intros. lia.
    + eexists. apply Push_data1. lia.
    + eexists. apply Push_data2. unfold MaxScriptElementSize. lia.
Qed.

(** Entries of the opcode table. *)
Definition same_entry (o o' : opcode) : bool :=
  (value o =? value o') && (op_length o =? op_length o')
  && match opfunc o, opfunc o' with
     | H_opcodePushData, H_opcodePushData | H_opcodeN, H_opcodeN => true
     | _, _ => false
     end.
Lemma same_entry_eq o o' : same_entry o o' = true -> o = o'.
Proof.
  destruct o as [v l h], o' as [v' l' h']. unfold same_entry. cbn.
  rewrite !andb_true_iff, !Z.eqb_eq. intros [[-> ->] Hh]. by destruct h, h'.
Qed.

Lemma table_entries lo n (f : Z -> opcode) :
  forallb (fun k => same_entry (opcodeArray (byte_of_Z (Z.of_nat k))) (f (Z.of_nat k))) (seq lo n) = true ->
  forall v, Z.of_nat lo <= v < Z.of_nat (lo + n) -> opcodeArray (byte_of_Z v) = f v.
Proof.
  intros Hall v Hv. rewrite forallb_forall in Hall. specialize (Hall (Z.to_nat v)).
  rewrite Z2Nat.id in Hall by lia. apply same_entry_eq, Hall, in_seq. lia.
Qed.

Lemma push_from_table d pop bs : push_form d pop bs -> from_table pop.
Proof.
  destruct 1 as [|b Hb| |d Hd _|d Hd|d Hd].
  - by exists x00.
  - exists (byte_of_Z (OP_1 - 1 + b)). symmetry. cbn [pop_opcode].
    apply (table_entries 81 16 (fun v => mkOpcode v 1 H_opcodeN)); [reflexivity|].
    unfold OP_1. lia.
  - by exists x4f.
  - exists (byte_of_Z (zlen d)). symmetry. cbn [pop_opcode].
    apply (table_entries 1 75 (fun v => mkOpcode v (v + 1) H_opcodePushData)); [reflexivity|lia].
  - by exists x4c.
  - by exists x4d.
Qed.

Lemma push_bytes d pop bs : push_form d pop bs -> bytes pop = Ok bs.
Proof.
  destruct 1 as [|b Hb| |d Hd _|d Hd|d Hd]; unfold bytes, pop_value; cbn [pop_opcode data value op_length];
    try reflexivity.
  - rewrite (proj2 (Z.eqb_neq (zlen d + 1) 1)) by lia.
    rewrite (proj2 (Z.ltb_ge (zlen d + 1) 0)) by lia. cbn [app].
    replace (zlen (byte_of_Z (zlen d) :: d)) with (zlen d + 1) by (unfold zlen; cbn; lia).
    by rewrite Z.eqb_refl.
  - cbn -[le_value le_bytes Z.add]. change (Z.to_nat (- (-1))) with 1%nat.
    rewrite le_value_bytes, Z.mod_small by (cbn; lia).
    replace (zlen (_ :: _)) with (zlen d + 2)
      by (unfold zlen; cbn [length]; rewrite length_app, length_le_bytes; lia).
    by rewrite Z.eqb_refl.
  - cbn -[le_value le_bytes Z.add]. change (Z.to_nat (- (-2))) with 2%nat.
    unfold MaxScriptElementSize in Hd. rewrite le_value_bytes, Z.mod_small by (cbn; lia).
    replace (zlen (_ :: _)) with (zlen d + 3)
      by (unfold zlen; cbn [length]; rewrite length_app, length_le_bytes; lia).
    by rewrite Z.eqb_refl.
Qed.

Lemma push_size d pop bs : push_form d pop bs -> zlen bs = canonicalDataSize d.
Proof.
  unfold canonicalDataSize, OP_PUSHDATA1.
  destruct 1 as [|b Hb| |d Hd Hs|d Hd|d Hd]; try reflexivity.
  - unfold zlen, data0. cbn. by rewrite (proj2 (Z.leb_le (Z_of_byte b) 16)) by lia.
  - rewrite (proj2 (Z.eqb_neq (zlen d) 0)) by lia.
    destruct (Z.eqb_spec (zlen d) 1) as [He|He]; cbn [andb].
    + destruct (Hs He). rewrite (proj2 (Z.leb_gt _ _)) by lia. rewrite (proj2 (Z.eqb_neq (data0 d) _)) by done.
      rewrite (proj2 (Z.ltb_lt _ _)) by lia. unfold zlen. cbn. lia.
    + rewrite (proj2 (Z.ltb_lt _ _)) by lia. unfold zlen. cbn. lia.
  - rewrite !(proj2 (Z.eqb_neq (zlen d) _)) by lia. cbn [andb].
    rewrite (proj2 (Z.ltb_ge _ _)), (proj2 (Z.leb_le _ _)) by lia. unfold zlen. cbn. lia.
  - unfold MaxScriptElementSize in Hd. rewrite !(proj2 (Z.eqb_neq (zlen d) _)) by lia. cbn [andb].
    rewrite (proj2 (Z.ltb_ge _ _)), (proj2 (Z.leb_gt _ _)), (proj2 (Z.leb_le _ _)) by lia.
    unfold zlen. cbn [length]. rewrite length_app, length_le_bytes. lia.
Qed.

Lemma push_minimal d pop bs :
  push_form d pop bs -> pop_value pop <= OP_PUSHDATA4 -> checkMinimalDataPush pop = Ok tt.
Proof.
  unfold checkMinimalDataPush, pop_value.
  destruct 1 as [|b Hb| |d Hd Hs|d Hd|d Hd]; cbn [pop_opcode value data]; intros Hv; try reflexivity.
  - unfold OP_1, OP_PUSHDATA4 in Hv. lia.
  - by unfold OP_1NEGATE, OP_PUSHDATA4 in Hv.
  - rewrite (proj2 (Z.eqb_neq (zlen d) 0)) by lia. cbn [andb].
    destruct (Z.eqb_spec (zlen d) 1) as [He|He]; cbn [andb];
      [destruct (Hs He); rewrite (proj2 (Z.leb_gt (data0 d) _)), (proj2 (Z.eqb_neq (data0 d) _)), andb_false_r by lia|];
      by rewrite (proj2 (Z.leb_le _ _)), Z.eqb_refl by lia.
  - rewrite !(proj2 (Z.eqb_neq (zlen d) _)) by lia. cbn [andb].
    by rewrite (proj2 (Z.leb_gt _ _)), (proj2 (Z.leb_le _ _)) by lia.
  - unfold MaxScriptElementSize in Hd. rewrite !(proj2 (Z.eqb_neq (zlen d) _)) by lia. cbn [andb].
    rewrite (proj2 (Z.leb_gt (zlen d) 75)), (proj2 (Z.leb_gt (zlen d) 255)) by lia.
    by rewrite (proj2 (Z.leb_le (zlen d) 65535)) by lia.
Qed.

Lemma push_number (b : byte) : 1 <= Z_of_byte b <= 16 -> Bytes (u8 (OP_1 - 1 + b - (OP_1 - 1))) = Ok [b].
Proof.
  intros Hb. replace (OP_1 - 1 + b - (OP_1 - 1)) with (Z_of_byte b) by lia.
  revert Hb. destruct b; intros Hb; first [reflexivity|exfalso; cbn in Hb; lia].
Qed.

Section Pushes.
Context `{HashFunctions} `{ScriptHashes} `{Curve} `{MapOrder}.

Lemma push_call d pop bs vm :
  push_form d pop bs -> call_opfunc pop vm = Ok (with_dstack (PushByteArray d (dstack vm)) vm).
Proof.
  destruct 1 as [|b Hb| |d Hd _|d Hd|d Hd]; try reflexivity.
  unfold call_opfunc. cbn [opfunc pop_opcode].
  unfold on_dstack, opcodeN, PushInt, pop_value. cbn [pop_opcode value]. by rewrite push_number.
Qed.

Lemma push_not_op d pop bs :
  push_form d pop bs -> pop_value pop <= OP_16 /\ zlen (data pop) <= MaxScriptElementSize.
Proof.
  unfold pop_value. intros Hp.
  destruct Hp; cbn [pop_opcode value data]; unfold OP_1, OP_16, MaxScriptElementSize in *;
    split; try done; lia.
Qed.

(** None of the listed opcodes is a push. *)
Lemma not_listed v l : v <= OP_16 -> forallb (fun x => OP_16 <? x) l = true -> elem_of_Z v l = false.
Proof.
  intros Hv Hl. unfold elem_of_Z. apply not_true_is_false. intros (x & Hx & ->%Z.eqb_eq)%existsb_exists.
  rewrite forallb_forall in Hl. specialize (Hl x Hx). lia.
Qed.

Lemma push_execute d pop bs vm :
  push_form d pop bs -> isBranchExecuting vm = true ->
  executeOpcode pop vm = Ok (with_dstack (PushByteArray d (dstack vm)) vm).
Proof.
  intros Hp Hb. destruct (push_not_op d pop bs Hp) as [Hv Hl]. unfold executeOpcode, isDisabled, alwaysIllegal.
  rewrite !(not_listed (pop_value pop)) by done. unfold count_op.
  rewrite (proj2 (Z.ltb_ge _ _) Hv), (proj2 (Z.ltb_ge _ _) Hl). cbn [rbind]. rewrite Hb. cbn [negb andb].
  destruct (_ && (pop_value pop <=? OP_PUSHDATA4)) eqn:Hm.
  - apply andb_true_iff in Hm as [_ Hm%Z.leb_le]. rewrite (push_minimal d pop bs Hp Hm). by apply (push_call d pop bs).
  - by apply (push_call d pop bs).
Qed.

(** Parsing the bytes of opcodes of the table gives them back. *)
Lemma parse_pops pops script :
  Forall from_table pops -> unparseScript pops = Ok script -> parseScript script = (pops, None).
Proof.
  intros Hall Hu. unfold parseScript, parseScriptTemplate.
  by rewrite (parse_loop_complete _ _ _ Hall Hu).
Qed.

(** [AddData] pushes what it is given: for data of at most 520 bytes other
    than the single byte 0, the bytes it writes are as long as
    [canonicalDataSize] says and parse to one opcode, which an engine with any
    flags (minimal pushes included) executes by pushing exactly the data. *)
Theorem AddData_pushes d :
  d <> [x00] -> zlen d <= MaxScriptElementSize ->
  zlen (data_push d) = canonicalDataSize d
  /\ exists pop, parseScript (data_push d) = ([pop], None)
       /\ forall vm, isBranchExecuting vm = true ->
            executeOpcode pop vm = Ok (with_dstack (PushByteArray d (dstack vm)) vm).
Proof.
  intros H0d Hl. destruct (data_push_form d H0d Hl) as [pop Hp]. split; [by eapply push_size|].
  exists pop. split; [|intros vm; by apply (push_execute d pop (data_push d))].
  apply parse_pops; [constructor; [by eapply push_from_table|constructor]|].
  cbn. rewrite (push_bytes d pop _ Hp). cbn. by rewrite app_nil_r.
Qed.

(** The exception: the byte 0 is pushed as the empty string. *)
Example AddData_zero_byte : data_push [x00] = data_push [].
Proof. reflexivity. Qed.

End Pushes.

(** ** Runs that succeed *)

Section Runs.
Context `{HashFunctions} `{ScriptHashes} `{Curve} `{MapOrder}.

(** The loop of [Execute] ends without an error. *)
Inductive accepts : Engine -> Engine -> Prop :=
  | accepts_last vm vm' : Step vm = Ok (true, vm') -> accepts vm vm'
  | accepts_step vm vm1 vm' : Step vm = Ok (false, vm1) -> accepts vm1 vm' -> accepts vm vm'.

Lemma iter_stopped k r : Nat.iter k step_run (Stopped r) = Stopped r.
Proof. induction k as [|k IH]; [done|]. by rewrite Nat.iter_succ, IH. Qed.

Lemma run_iter n s : run n s = Nat.iter (Pos.to_nat n) step_run s.
Proof.
  revert s. induction n as [n IH|n IH|]; intros [vm|r]; cbn [run]; rewrite ?iter_stopped; try done; rewrite !IH.
  - replace (Pos.to_nat n~1) with (Pos.to_nat n + (Pos.to_nat n + 1))%nat by lia. by rewrite !Nat.iter_add.
  - replace (Pos.to_nat n~0) with (Pos.to_nat n + Pos.to_nat n)%nat by lia. by rewrite Nat.iter_add.
Qed.

Lemma run_accepts n vm vm' : run n (Running vm) = Stopped (Ok vm') -> accepts vm vm'.
Proof.
  rewrite run_iter. generalize (Pos.to_nat n) as k. intros k. revert vm.
  induction k as [|k IH]; intros vm; [done|]. rewrite Nat.iter_succ_r. cbn [step_run].
  destruct (Step vm) as [[[] vm1]|e|] eqn:Hs; rewrite ?iter_stopped; intros Hr; try done.
  - injection Hr as <-. by constructor.
  - eapply accepts_step; [exact Hs|auto].
Qed.

(** An opcode that counts as an operation, in a branch that is executed. *)
Lemma executeOpcode_op op vm vm' :
  OP_16 < pop_value op -> condStack vm = [] -> executeOpcode op vm = Ok vm' ->
  call_opfunc op (with_numOps (numOps vm + 1) vm) = Ok vm'.
Proof.
  intros Hv Hc. unfold executeOpcode, count_op. do 2 (case_if; [done|]).
  rewrite (proj2 (Z.ltb_lt _ _) Hv). cbv zeta. case_if; [done|]. cbn [rbind].
  set (vm1 := with_numOps _ vm).
  replace (isBranchExecuting vm1) with true by (unfold isBranchExecuting, vm1; cbn; by rewrite Hc).
  replace (pop_value op <=? OP_PUSHDATA4) with false
    by (symmetry; apply Z.leb_gt; unfold OP_PUSHDATA4, OP_16 in *; lia).
  by rewrite andb_false_r.
Qed.

(** Opcodes leave the frame of the engine alone. *)
Lemma execute_core vm script op vm1 :
  engine_ok vm -> scripts vm !! scriptIdx vm = Some script -> script !! scriptOff vm = Some op ->
  executeOpcode op (with_pc (scriptIdx vm) (S (scriptOff vm)) vm) = Ok vm1 ->
  core vm1 = core (with_pc (scriptIdx vm) (S (scriptOff vm)) vm).
Proof.
  intros [Hok Hsep] Hs Hop Hex. set (vm0 := with_pc _ _ vm) in *.
  pose proof (lookup_lt_Some _ _ _ Hop) as Hlt.
  assert (Ht : from_table op).
  { pose proof (eo_scripts vm Hok) as Hall. eapply Forall_lookup_1 in Hall as [Hall _]; [|exact Hs].
    by eapply Forall_lookup_1. }
  assert (Hv : vok max_height vm0) by (by apply (engine_vok vm script)).
  pose proof (executeOpcode_safe op max_height vm0 Hv max_height_limit Ht) as Hsafe.
  unfold opcode_safe in Hsafe. rewrite Hex in Hsafe. apply Hsafe.
Qed.

(** A step inside a script, and the last step of a script. *)
Lemma Step_inv vm fin vm' script op :
  engine_ok vm -> scripts vm !! scriptIdx vm = Some script -> script !! scriptOff vm = Some op ->
  Step vm = Ok (fin, vm') ->
  exists vm1, executeOpcode op (with_pc (scriptIdx vm) (S (scriptOff vm)) vm) = Ok vm1
    /\ core vm1 = core (with_pc (scriptIdx vm) (S (scriptOff vm)) vm)
    /\ if (S (scriptOff vm) <? length script)%nat then fin = false /\ vm' = vm1
       else exists vm2, next_script (with_numOps 0 (with_astack (clear_stack (astack vm1))
                          (with_pc (scriptIdx vm1) 0 vm1))) = Ok vm2
            /\ vm' = with_codeSep 0 (skip_empty vm2)
            /\ fin = (length (scripts vm') <=? scriptIdx vm')%nat.
Proof.
  intros Hok Hs Hop. unfold Step, validPC. rewrite Hs.
  pose proof (lookup_lt_Some _ _ _ Hop) as Hlt. rewrite (proj2 (Nat.leb_gt _ _) Hlt). cbn [rbind].
  rewrite Hop. destruct (executeOpcode _ _) as [vm1|e|] eqn:Hex; try done. cbn [rbind].
  pose proof (execute_core vm script op vm1 Hok Hs Hop Hex) as Hcore.
  pose proof (core_fields _ _ Hcore) as (_ & _ & Hoff & _). cbn in Hoff.
  case_if; [done|]. rewrite Hoff. intros Hstep. exists vm1. split; [done|]. split; [done|].
  destruct (S (scriptOff vm) <? length script)%nat; [by injection Hstep as <- <-|].
  revert Hstep. case_if; [done|]. destruct (next_script _) as [vm2|e|]; try done. cbn [rbind].
  intros [= <- <-]. by exists vm2.
Qed.

End Runs.

(** ** Pay-to-pubkey-hash *)

Definition op_dup : parsedOpcode := mkParsed (mkOpcode OP_DUP 1 H_opcodeDup) [].
Definition op_hash160 : parsedOpcode := mkParsed (mkOpcode OP_HASH160 1 H_opcodeHash160) [].
Definition op_equalverify : parsedOpcode := mkParsed (mkOpcode OP_EQUALVERIFY 1 H_opcodeEqualVerify) [].
Definition op_checksig : parsedOpcode := mkParsed (mkOpcode OP_CHECKSIG 1 H_opcodeCheckSig) [].
Definition op_push20 (h : list byte) : parsedOpcode :=
  mkParsed (mkOpcode OP_DATA_20 21 H_opcodePushData) h.

Definition p2pkh_ops (h : list byte) : list parsedOpcode :=
  [op_dup; op_hash160; op_push20 h; op_equalverify; op_checksig].

Lemma push20_form h : length h = 20%nat -> push_form h (op_push20 h) (x14 :: h).
Proof.
  intros Hl. assert (Hz : zlen h = 20) by (unfold zlen; lia).
  pose proof (Push_direct h ltac:(lia) ltac:(lia)) as Hp. by rewrite Hz in Hp.
Qed.

Lemma p2pkh_script h pkScript :
  length h = 20%nat -> payToPubKeyHashScript h = Ok pkScript ->
  pkScript = x76 :: xa9 :: (x14 :: h) ++ [x88; xac].
Proof.
  intros Hl. assert (Hz : zlen h = 20) by (unfold zlen; lia).
  assert (Hd : data_push h = x14 :: h) by (unfold data_push; by rewrite Hz).
  assert (Hc : canonicalDataSize h = 21) by (unfold canonicalDataSize; by rewrite Hz).
  unfold payToPubKeyHashScript, AddData. change (AddOp OP_HASH160 (AddOp OP_DUP NewScriptBuilder))
    with (mkBuilder [x76; xa9] false).
  cbn [sb_failed sb_script]. rewrite Hc. change (MaxScriptSize <? zlen [x76; xa9] + 21) with false.
  rewrite Hz. change (MaxScriptElementSize <? 20) with false. cbv iota.
  unfold addData, sb_append. cbn [sb_failed sb_script]. rewrite Hd. cbn [app].
  unfold AddOp at 2. cbn [sb_failed sb_script].
  replace (MaxScriptSize <? _) with false
    by (symmetry; apply Z.ltb_ge; unfold zlen, MaxScriptSize in *; cbn [length]; lia).
  unfold AddOp, sb_append. cbn [sb_failed sb_script].
  replace (MaxScriptSize <? _) with false
    by (symmetry; apply Z.ltb_ge; unfold zlen, MaxScriptSize in *; rewrite length_app; cbn [length]; lia).
  unfold build_script. cbn [sb_failed sb_script]. intros [= <-]. by rewrite <- app_assoc.
Qed.

Lemma p2pkh_parse h pkScript :
  length h = 20%nat -> payToPubKeyHashScript h = Ok pkScript ->
  parseScript pkScript = (p2pkh_ops h, None).
Proof.
  intros Hl Hp. rewrite (p2pkh_script h pkScript Hl Hp). apply parse_pops.
  - pose proof (push_from_table _ _ _ (push20_form h Hl)).
    repeat (apply Forall_cons_iff; split); [by exists x76|by exists xa9|done|by exists x88|by exists xac|constructor].
  - cbn [unparseScript p2pkh_ops]. rewrite (push_bytes _ _ _ (push20_form h Hl)). reflexivity.
Qed.

(** *** What the opcodes do to the stack *)

Lemma dup_inv s s' :
  stack_small s -> DupN 1 s = Ok s' ->
  exists l x, stk s = l ++ [x] /\ stk s' = l ++ [x; x].
Proof.
  unfold stack_small. destruct s as [l m]. cbn [stk]. intros Hs.
  destruct l as [|x l _] using rev_ind; [done|]. unfold DupN. cbn [Z.ltb Z.compare].
  change (Z.to_nat 1) with 1%nat. cbn [repeat_n]. change (1 - 1) with (Z.of_nat (length (@nil (list byte)))).
  rewrite Peek_at by done. cbn. intros [= <-]. exists l, x. split; [done|]. cbn. by rewrite <- app_assoc.
Qed.

Lemma hash_inv f s s' :
  stack_small s -> hash_top f s = Ok s' ->
  exists l x, stk s = l ++ [x] /\ stk s' = l ++ [f x].
Proof.
  intros Hs. unfold hash_top. destruct (PopByteArray s) as [[x s1]|e|] eqn:Hp; try done. cbn.
  apply Pop_inv in Hp as [Hp _]; [|done]. intros [= <-]. by exists (stk s1), x.
Qed.

Lemma equalverify_inv s s' :
  stack_small s -> opcodeEqualVerify s = Ok s' -> exists x, stk s = stk s' ++ [x; x].
Proof.
  intros Hs. unfold opcodeEqualVerify, opcodeEqual, abstractVerify.
  destruct (PopByteArray s) as [[a s1]|e|] eqn:Hp; try done. cbn [rbind].
  apply Pop_inv in Hp as [Hp _]; [|done].
  assert (Hs1 : stack_small s1) by (unfold stack_small in *; rewrite Hp, length_app in Hs; lia).
  destruct (PopByteArray s1) as [[b s2]|e|] eqn:Hp1; try done. cbn [rbind].
  apply Pop_inv in Hp1 as [Hp1 _]; [|done].
  assert (Hs2 : Z.of_nat (length (stk s2 ++ [fromBool (bool_decide (a = b))])) < 2 ^ 31).
  { unfold stack_small in *. rewrite Hp, Hp1, !length_app in Hs. rewrite length_app. cbn in *. lia. }
  unfold PopBool, PushBool, PushByteArray, set_stk. rewrite Pop_snoc by done. cbn [rbind].
  destruct (decide (a = b)) as [->|Hab].
  - rewrite bool_decide_true by done. cbn. intros [= <-]. exists b. rewrite Hp, Hp1. cbn. by rewrite <- app_assoc.
  - by rewrite bool_decide_false.
Qed.

Lemma PopBool_top s b :
  stack_small s -> forall v s', PopBool (PushBool b s) = Ok (v, s') ->
  Z.of_nat (length (stk s)) + 1 < 2 ^ 31 -> v = b.
Proof.
  intros Hs v s' Hp Hl. revert Hp. unfold PopBool, PushBool, PushByteArray, set_stk.
  rewrite Pop_snoc by (rewrite length_app; cbn; lia). cbn. intros [= <- _]. by destruct b.
Qed.

Section Spend.
Context `{HashFunctions} `{ScriptHashes} `{Curve} `{MapOrder}.
Variables (h : list byte) (sigPops : list parsedOpcode) (tx : MsgTx) (i : nat) (fl : Z).
Hypothesis Hh : length h = 20%nat.

(** The states of an engine that runs a signature script and then the
    pay-to-pubkey-hash script of [h]. *)
Record spending (vm : Engine) : Prop := {
  sp_ok : engine_ok vm;
  sp_cache : cache_sound (sigCache vm);
  sp_scripts : scripts vm = [sigPops; p2pkh_ops h];
  sp_bip16 : bip16 vm = false;
  sp_program : witnessProgram vm = None;
  sp_tx : vm_tx vm = tx;
  sp_idx : txIdx vm = i;
  sp_flags : flags vm = fl
}.

(** At the opcode [k] of the public key script. *)
Definition at_pk (k : nat) (vm : Engine) : Prop :=
  spending vm /\ scriptIdx vm = 1%nat /\ scriptOff vm = k /\ lastCodeSep vm = 0%nat /\ condStack vm = [].

(** [sig] is a signature, with its hash type, by [pk] of the input that spends
    an output with the script [ops]. *)
Definition signed_by (ops : list parsedOpcode) (fullSig pk : list byte) : Prop :=
  exists key sig hash,
    ParsePubKey pk = Ok key
    /\ (ParseDERSignature (take (length fullSig - 1) fullSig) = Ok sig
        \/ ParseSignature (take (length fullSig - 1) fullSig) = Ok sig)
    /\ calcSignatureHash (removeOpcodeByData ops fullSig) (Z_of_byte (from_end 0 fullSig)) tx i = Ok hash
    /\ ecdsa_Verify key hash (sig_R sig) (sig_S sig) = true.

Lemma step_frame vm vm' fin :
  spending vm -> Step vm = Ok (fin, vm') ->
  engine_ok vm' /\ cache_sound (sigCache vm').
Proof.
  intros Hsp Hst. pose proof (Step_safe vm (sp_ok vm Hsp)) as Hs. rewrite Hst in Hs.
  pose proof (Step_transparent vm (sp_cache vm Hsp)) as Ht. rewrite Hst in Ht.
  split; [apply Hs|apply Ht].
Qed.

Lemma core_spending vm vm1 :
  spending vm -> engine_ok vm1 -> cache_sound (sigCache vm1) ->
  core vm1 = core (with_pc (scriptIdx vm) (S (scriptOff vm)) vm) -> spending vm1.
Proof.
  intros [] Hok Hc Hcore. unfold core in Hcore. cbn in Hcore. split; try done; congruence.
Qed.

(** The engine goes on to the next script when the first one has ended. *)
Lemma next_plain vm vm2 :
  bip16 vm = false -> witnessProgram vm = None -> next_script vm = Ok vm2 ->
  vm2 = with_pc (S (scriptIdx vm)) 0 vm.
Proof.
  intros Hb Hp. unfold next_script. rewrite Hb, Hp, !andb_false_r. by intros [= <-].
Qed.

Lemma first_script_step vm vm' fin :
  spending vm -> scriptIdx vm = 0%nat -> Step vm = Ok (fin, vm') ->
  spending vm' /\ fin = false /\ (scriptIdx vm' = 0%nat \/ at_pk 0 vm').
Proof.
  intros Hsp Hi Hst. destruct (step_frame vm vm' fin Hsp Hst) as [Hok Hc].
  assert (Hs : scripts vm !! scriptIdx vm = Some sigPops) by (by rewrite Hi, (sp_scripts vm Hsp)).
  destruct (sigPops !! scriptOff vm) as [op|] eqn:Hop.
  2: { revert Hst. unfold Step, validPC. rewrite Hs. apply lookup_ge_None in Hop.
       by rewrite (proj2 (Nat.leb_le _ _) Hop). }
  destruct (Step_inv vm fin vm' sigPops op (sp_ok vm Hsp) Hs Hop Hst) as (vm1 & Hex & Hcore & Hend).
  pose proof (core_fields _ _ Hcore) as (E1 & E2 & E3 & E4 & E5 & E6 & E7 & E8).
  cbn in E1, E2, E3, E4, E5, E6, E7, E8. destruct (S (scriptOff vm) <? length sigPops)%nat.
  - destruct Hend as [-> ->]. split; [by eapply core_spending|]. split; [done|left; congruence].
  - destruct Hend as (vm2 & Hn & -> & ->). apply next_plain in Hn as ->; cbn;
      [|by rewrite E6, (sp_bip16 vm Hsp)|by rewrite E8, (sp_program vm Hsp)].
    revert Hok Hc. unfold skip_empty. cbn [scripts scriptIdx scriptOff with_pc with_numOps with_astack].
    rewrite E1, E2, Hi, (sp_scripts vm Hsp). cbn. rewrite E1, (sp_scripts vm Hsp).
    intros Hok Hc. assert (Hf : flags vm1 = fl).
    { unfold core in Hcore. cbn in Hcore. destruct Hsp. congruence. }
    assert (Hs' : spending (with_codeSep 0 (with_pc 1 0 (with_numOps 0 (with_astack (clear_stack (astack vm1))
              (with_pc 0 0 vm1)))))).
    { destruct Hsp. split; cbn; try done; congruence. }
    split; [exact Hs'|]. split; [done|]. right. split_and!; try done. by apply (eo_cond _ (proj1 (sp_ok _ Hs'))).
Qed.

Lemma reach_pk vm vm' :
  accepts vm vm' -> spending vm -> scriptIdx vm = 0%nat \/ at_pk 0 vm ->
  exists vm1, at_pk 0 vm1 /\ accepts vm1 vm'.
Proof.
  induction 1 as [vm vm' Hst|vm vm1 vm' Hst Hacc IH]; intros Hsp [Hi|Hpk];
    try (eexists; split; [exact Hpk|econstructor; eassumption]).
  - by destruct (first_script_step _ _ _ Hsp Hi Hst) as (_ & ? & _).
  - destruct (first_script_step _ _ _ Hsp Hi Hst) as (Hsp1 & _ & Hnext). auto.
Qed.

(** One opcode of the public key script, not the last. *)
Lemma pk_step k op vm vm' :
  at_pk k vm -> p2pkh_ops h !! k = Some op -> (k < 4)%nat -> accepts vm vm' ->
  exists vm1, executeOpcode op (with_pc 1 (S k) vm) = Ok vm1 /\ accepts vm1 vm'
    /\ (condStack vm1 = [] -> lastCodeSep vm1 = 0%nat -> at_pk (S k) vm1).
Proof.
  intros (Hsp & Hi & Hoff & Hsep & Hcond) Hop Hk Hacc.
  assert (Hs : scripts vm !! scriptIdx vm = Some (p2pkh_ops h)) by (by rewrite Hi, (sp_scripts vm Hsp)).
  rewrite <- Hoff in Hop. assert (exists fin vm1, Step vm = Ok (fin, vm1)
      /\ (fin = false -> accepts vm1 vm')) as (fin & vm1 & Hst & Hrest).
  { destruct Hacc as [vm vm' Hst|vm vm1 vm' Hst Hacc]; eauto. exists true, vm'. done. }
  destruct (step_frame vm vm1 fin Hsp Hst) as [Hok1 Hc1].
  destruct (Step_inv vm fin vm1 _ op (sp_ok vm Hsp) Hs Hop Hst) as (vm2 & Hex & Hcore & Hend).
  replace (S (scriptOff vm) <? length (p2pkh_ops h))%nat with true in Hend
    by (symmetry; apply Nat.ltb_lt; cbn; lia).
  destruct Hend as [-> ->]. rewrite Hi, Hoff in Hex. exists vm2. split; [done|]. split; [auto|].
  intros Hcd Hsp2. pose proof (core_fields _ _ Hcore) as (_ & E2 & E3 & _). cbn in E2, E3.
  split; [by eapply core_spending|]. split_and!; congruence.
Qed.

Lemma small_dstack vm : engine_ok vm -> stack_small (dstack vm).
Proof.
  intros [Hok _]. pose proof (sok_height _ _ (eo_d vm Hok)). pose proof max_height_Z.
  unfold stack_small. lia.
Qed.

(** A step that only changes the data stack. *)
Lemma pk_dstack_step k op f vm vm' :
  at_pk k vm -> p2pkh_ops h !! k = Some op -> (k < 4)%nat -> OP_16 < pop_value op ->
  (forall vm, call_opfunc op vm = on_dstack f vm) -> accepts vm vm' ->
  exists vm1, f (dstack vm) = Ok (dstack vm1) /\ at_pk (S k) vm1 /\ accepts vm1 vm'.
Proof.
  intros Hat Hop Hk Hv Hcall Hacc. pose proof Hat as (_ & _ & _ & Hsep & Hcond).
  destruct (pk_step k op vm vm' Hat Hop Hk Hacc) as (vm1 & Hex & Hacc1 & Hnext).
  apply executeOpcode_op in Hex; [|done|done]. rewrite Hcall in Hex.
  unfold on_dstack in Hex. cbn [dstack with_pc with_numOps] in Hex.
  destruct (f (dstack vm)) as [s'|e|]; try done. injection Hex as <-.
  exists (with_dstack s' (with_numOps (numOps vm + 1) (with_pc 1 (S k) vm))). auto.
Qed.

Lemma pk_push_step vm vm' :
  at_pk 2 vm -> accepts vm vm' ->
  exists vm1, dstack vm1 = PushByteArray h (dstack vm) /\ at_pk 3 vm1 /\ accepts vm1 vm'.
Proof.
  intros Hat Hacc. pose proof Hat as (_ & _ & _ & Hsep & Hcond).
  destruct (pk_step 2 (op_push20 h) vm vm' Hat eq_refl ltac:(lia) Hacc) as (vm1 & Hex & Hacc1 & Hnext).
  rewrite (push_execute h _ _ _ (push20_form h Hh)) in Hex
    by (unfold isBranchExecuting; cbn; by rewrite Hcond).
  injection Hex as <-. exists (with_dstack (PushByteArray h (dstack vm)) (with_pc 1 3 vm)). auto.
Qed.

(** The last opcode: its result is the final stack. *)
Lemma pk_last_step vm vm' :
  at_pk 4 vm -> accepts vm vm' ->
  exists vm1, opcodeCheckSig (with_numOps (numOps vm + 1) (with_pc 1 5 vm)) = Ok vm1
    /\ dstack vm' = dstack vm1.
Proof.
  intros (Hsp & Hi & Hoff & Hsep & Hcond) Hacc.
  assert (Hs : scripts vm !! scriptIdx vm = Some (p2pkh_ops h)) by (by rewrite Hi, (sp_scripts vm Hsp)).
  assert (Hop : p2pkh_ops h !! scriptOff vm = Some op_checksig) by (by rewrite Hoff).
  assert (exists fin vm1, Step vm = Ok (fin, vm1) /\ (fin = true -> vm' = vm1))
    as (fin & vm1 & Hst & Hfin).
  { destruct Hacc as [vm vm' Hst|vm vm1 vm' Hst Hacc]; eauto. exists false, vm1. done. }
  destruct (Step_inv vm fin vm1 _ _ (sp_ok vm Hsp) Hs Hop Hst) as (vm2 & Hex & Hcore & Hend).
  rewrite Hi, Hoff in *. cbn [length p2pkh_ops Nat.ltb Nat.leb] in Hend.
  pose proof (core_fields _ _ Hcore) as (E1 & E2 & E3 & E4 & E5 & E6 & E7 & E8).
  cbn in E1, E2, E3, E4, E5, E6, E7, E8.
  destruct Hend as (vm3 & Hn & Hvm1 & Hfin1). apply next_plain in Hn as ->; cbn;
    [|by rewrite E6, (sp_bip16 vm Hsp)|by rewrite E8, (sp_program vm Hsp)].
  unfold skip_empty in Hvm1. cbn [scripts scriptIdx scriptOff with_pc with_numOps with_astack] in Hvm1.
  rewrite E1, E2, (sp_scripts vm Hsp) in Hvm1. cbn [lookup list_lookup] in Hvm1. subst vm1.
  cbn in Hfin1. rewrite E1, (sp_scripts vm Hsp) in Hfin1. rewrite (Hfin Hfin1).
  apply executeOpcode_op in Hex; [|done|done]. by exists vm2.
Qed.

(** A signature check that leaves [true] has verified a signature. *)
Lemma CheckSig_true vm vm1 s :
  stack_small (dstack vm) -> cache_sound (sigCache vm) -> witnessProgram vm = None ->
  opcodeCheckSig vm = Ok vm1 -> PopBool (dstack vm1) = Ok (true, s) ->
  vm_tx vm = tx -> txIdx vm = i ->
  exists l fullSig pk ops, stk (dstack vm) = l ++ [fullSig; pk]
    /\ subScript vm = Ok ops /\ signed_by ops fullSig pk.
Proof.
  intros Hs Hc Hw Hcs Hpop Htx Hidx. revert Hcs. unfold opcodeCheckSig.
  destruct (PopByteArray (dstack vm)) as [[pk s1]|e|] eqn:Hp1; try done. cbn [rbind].
  apply Pop_inv in Hp1 as [Hp1 _]; [|done].
  assert (Hs1 : stack_small s1) by (unfold stack_small in *; rewrite Hp1, length_app in Hs; lia).
  destruct (PopByteArray s1) as [[fs s2]|e|] eqn:Hp2; try done. cbn [rbind].
  apply Pop_inv in Hp2 as [Hp2 _]; [|done].
  assert (Hfalse : forall b, vm1 = with_dstack (PushBool b s2) vm
      \/ (exists c, vm1 = with_cache c (with_dstack (PushBool b s2) vm)) -> b = true).
  { intros b Hvm1. symmetry. unfold stack_small in *. rewrite Hp1, Hp2, !length_app in Hs. cbn in Hs.
    apply (PopBool_top s2 b) with (s' := s); [unfold stack_small; lia| |lia].
    destruct Hvm1 as [->|[c ->]]; exact Hpop. }
  case_if; [intros [= <-]; by specialize (Hfalse false (or_introl eq_refl))|]. cbv zeta.
  assert (Hact : isWitnessVersionActive 0 vm = false) by (unfold isWitnessVersionActive; by rewrite Hw).
  destruct (checkHashTypeEncoding _ _) as [[]| |]; try done. cbn [rbind].
  destruct (checkSignatureEncoding _ _) as [[]| |]; try done. cbn [rbind].
  destruct (checkPubKeyEncoding _ _) as [[]| |]; try done. cbn [rbind].
  destruct (subScript vm) as [ops| |]; try done. cbn [rbind]. unfold sig_hash. rewrite Hact, Htx, Hidx.
  destruct (calcSignatureHash _ _ _ _) as [hash| |] eqn:Hhash; try done. cbn [rbind].
  destruct (ParsePubKey pk) as [key|e|] eqn:Hkey;
    [|intros [= <-]; by specialize (Hfalse false (or_introl eq_refl))|done].
  destruct (parse_signature vm _) as [sig|e|] eqn:Hsig;
    [|intros [= <-]; by specialize (Hfalse false (or_introl eq_refl))|done].
  destruct (verify_cached_sound (sigCache vm) hash sig key Hc) as (c' & _ & -> & _). cbn [rbind].
  case_if; [done|]. intros [= <-]. specialize (Hfalse _ (or_intror (ex_intro _ c' eq_refl))).
  exists (stk s2), fs, pk, ops. split; [rewrite Hp1, Hp2; by rewrite <- app_assoc|]. split; [done|].
  exists key, sig, hash. split_and!; try done.
  revert Hsig. unfold parse_signature. case_if; auto.
Qed.

(** The public key script, from its first opcode to the final check. *)
Lemma pk_script_accepts vm vm' s :
  at_pk 0 vm -> accepts vm vm' -> PopBool (dstack vm') = Ok (true, s) ->
  exists fullSig pk, Ripemd160 (Sum256 pk) = h /\ signed_by (p2pkh_ops h) fullSig pk.
Proof.
  intros Hat Hacc Hpop.
  destruct (pk_dstack_step 0 op_dup (DupN 1) vm vm' Hat eq_refl ltac:(lia) eq_refl ltac:(done) Hacc)
    as (vm1 & Hdup & Hat1 & Hacc1).
  destruct (pk_dstack_step 1 op_hash160 opcodeHash160 vm1 vm' Hat1 eq_refl ltac:(lia) eq_refl ltac:(done) Hacc1)
    as (vm2 & Hhash & Hat2 & Hacc2).
  destruct (pk_push_step vm2 vm' Hat2 Hacc2) as (vm3 & Hpush & Hat3 & Hacc3).
  destruct (pk_dstack_step 3 op_equalverify opcodeEqualVerify vm3 vm' Hat3 eq_refl ltac:(lia) eq_refl
    ltac:(done) Hacc3) as (vm4 & Heq & Hat4 & Hacc4).
  destruct (pk_last_step vm4 vm' Hat4 Hacc4) as (vm5 & Hcs & Hd). rewrite Hd in Hpop.
  pose proof Hat4 as (Hsp & Hi & Hoff & Hsep & _).
  apply dup_inv in Hdup as (l0 & x0 & Hd0 & Hd1); [|apply small_dstack, Hat].
  apply hash_inv in Hhash as (l1 & x1 & Hd1' & Hd2); [|apply small_dstack, Hat1].
  apply equalverify_inv in Heq as (x3 & Hd3); [|apply small_dstack, Hat3].
  rewrite Hpush in Hd3. cbn in Hd3. rewrite Hd2 in Hd3.
  assert (Hx : l1 = stk (dstack vm4) /\ Ripemd160 (Sum256 x1) = x3 /\ h = x3).
  { change (stk (dstack vm4) ++ [x3; x3]) with (stk (dstack vm4) ++ [x3] ++ [x3]) in Hd3.
    rewrite app_assoc in Hd3. apply app_inj_tail in Hd3 as [Hd3 ->]. by apply app_inj_tail in Hd3 as [-> ->]. }
  destruct Hx as (Hl1 & Hx1 & Hx3). rewrite Hd1 in Hd1'.
  change (l0 ++ [x0; x0]) with (l0 ++ [x0] ++ [x0]) in Hd1'. rewrite app_assoc in Hd1'.
  apply app_inj_tail in Hd1' as [Hl <-].
  set (vmc := with_numOps (numOps vm4 + 1) (with_pc 1 5 vm4)) in *.
  destruct (CheckSig_true vmc vm5 s (small_dstack vm4 (sp_ok vm4 Hsp)) (sp_cache vm4 Hsp)
    (sp_program vm4 Hsp) Hcs Hpop (sp_tx vm4 Hsp) (sp_idx vm4 Hsp))
    as (l & fullSig & pk & ops & Hstk & Hsub & Hsigned).
  cbn in Hstk. rewrite <- Hl1, <- Hl in Hstk.
  change (l ++ [fullSig; pk]) with (l ++ [fullSig] ++ [pk]) in Hstk. rewrite app_assoc in Hstk.
  apply app_inj_tail in Hstk as [_ <-].
  unfold subScript in Hsub. cbn in Hsub. rewrite (sp_scripts vm4 Hsp), Hsep in Hsub. injection Hsub as <-.
  exists fullSig, x0. split; [congruence|done].
Qed.

End Spend.

(** ** Properties *)

Section SpendProperty.
Context `{HashFunctions} `{ScriptHashes} `{Curve} `{MapOrder}.

(** What [NewEngine] makes of a pay-to-pubkey-hash output. *)
Lemma NewEngine_spending h pkScript tx idx fl sc hc amount vm :
  length h = 20%nat -> payToPubKeyHashScript h = Ok pkScript -> witness_bounded tx -> cache_sound sc ->
  NewEngine pkScript tx idx fl sc hc amount = Ok vm ->
  exists sigPops, spending h sigPops tx (Z.to_nat idx) fl vm
    /\ (scriptIdx vm = 0%nat \/ at_pk h sigPops tx (Z.to_nat idx) fl 0 vm).
Proof.
  intros Hh Hpk Hw Hc Hn. pose proof (NewEngine_safe pkScript tx idx fl sc hc amount Hw) as Hok.
  rewrite Hn in Hok. destruct Hok as [Hok _]. revert Hn. unfold NewEngine. case_if; [done|].
  destruct (tx_TxIn tx !! Z.to_nat idx) as [txin|]; [|done]. do 3 (case_if; [done|]). cbv zeta.
  destruct (parse_limited (ti_SignatureScript txin)) as [sigPops| |]; try done. cbn [rbind].
  unfold parse_limited at 1, parse_or_err. rewrite (p2pkh_parse h pkScript Hh Hpk).
  case_if; [done|]. cbn [rbind]. change (isScriptHash (p2pkh_ops h)) with false. rewrite andb_false_r.
  cbn [andb]. unfold witness_info, find_witness. change (isWitnessProgram (p2pkh_ops h)) with false.
  rewrite andb_false_r. cbv iota.
  set (start := if (length (ti_SignatureScript txin) =? 0)%nat then 1%nat else 0%nat).
  set (info := if negb _ then Ok _ else _).
  assert (Hinfo : forall v p, info = Ok (v, p) -> p = None).
  { subst info. intros v p. repeat (case_if; [try done; by intros [= _ <-]|]). cbn [rbind].
    by intros [= _ <-]. }
  destruct info as [[version program]| |]; try done. cbn [rbind]. intros [= <-].
  rewrite (Hinfo version program eq_refl) in *.
  assert (Hsp : spending h sigPops tx (Z.to_nat idx) fl
    (mkEngine [sigPops; p2pkh_ops h] start 0 0 (empty_stack (Z.land fl ScriptVerifyMinimalData =? ScriptVerifyMinimalData))
       (empty_stack (Z.land fl ScriptVerifyMinimalData =? ScriptVerifyMinimalData)) tx (Z.to_nat idx) [] 0 fl sc hc false [] version None amount))
    by by split.
  exists sigPops. split; [exact Hsp|]. subst start. case_if; [right|by left]. by split_and!.
Qed.

(** C15: a pay-to-pubkey-hash output can only be spent by the holder of a key:
    whatever the signature script, the flags, the caches and the amount are, if
    the engine accepts an input that spends the pay-to-pubkey-hash script of
    [h], then there are a public key with the hash [h] and a signature of this
    input of the transaction that verifies under the key. *)
Theorem p2pkh_spend_is_signed h pkScript tx idx fl sc hc amount :
  length h = 20%nat -> payToPubKeyHashScript h = Ok pkScript -> witness_bounded tx -> cache_sound sc ->
  verdict pkScript tx idx fl sc hc amount = Some (Ok tt) ->
  exists ops fullSig pk, parseScript pkScript = (ops, None)
    /\ Ripemd160 (Sum256 pk) = h /\ signed_by tx (Z.to_nat idx) ops fullSig pk.
Proof.
  intros Hh Hpk Hw Hc. unfold verdict.
  destruct (NewEngine pkScript tx idx fl sc hc amount) as [vm| |] eqn:Hn; try done.
  destruct (NewEngine_spending h pkScript tx idx fl sc hc amount vm Hh Hpk Hw Hc Hn) as (sigPops & Hsp & Hi).
  unfold Execute. destruct (run execute_fuel (Running vm)) as [vm'|r] eqn:Hrun; [done|].
  destruct r as [vm'| |]; try done. cbn [rbind]. unfold CheckErrorCondition.
  repeat (case_if; [done|]). destruct (PopBool (dstack vm')) as [[[] s]| |] eqn:Hpop; try done. intros _.
  apply run_accepts in Hrun. destruct (reach_pk h sigPops tx (Z.to_nat idx) fl vm vm' Hrun Hsp Hi) as (vm1 & Hat & Hacc).
  destruct (pk_script_accepts h sigPops tx (Z.to_nat idx) fl Hh vm1 vm' s Hat Hacc Hpop) as (fullSig & pk & Hpkh & Hsig).
  exists (p2pkh_ops h), fullSig, pk. split; [by apply p2pkh_parse|done].
Qed.

End SpendProperty.

Section Witnesses.
#[local] Existing Instance prefix_hash_functions | 0.
#[local] Existing Instance prefix_script_hashes.
#[local] Existing Instance accepting_curve.
#[local] Existing Instance list_order.

(** A spend of a pay-to-pubkey-hash output by the generator point's key. *)
Definition spender_key : list byte := SerializeCompressed (mkPubKey curveGx curveGy).
Definition spender_hash : list byte := Ripemd160 (Sum256 spender_key).
Definition spender_sig : list byte := Serialize (mkSignature 200 5) ++ [x01].
Definition spend_script : list byte := [x76; xa9; x14] ++ spender_hash ++ [x88; xac].
Definition spend_tx : MsgTx :=
  mkMsgTx 1 [mkTxIn (mkOutPoint (replicate 32 x07) 0) (data_push spender_sig ++ data_push spender_key) [] 0]
    [mkTxOut 1 []] 0.

Lemma spend_pays : payToPubKeyHashScript spender_hash = Ok spend_script.
Proof. vm_compute. reflexivity. Qed.
Lemma spend_bounded : witness_bounded spend_tx.
Proof. repeat constructor; discriminate. Qed.
Lemma spend_accepted :
  verdict spend_script spend_tx 0 ScriptBip16 (Some (NewSigCache 4)) None 1 = Some (Ok tt).
Proof. vm_compute. reflexivity. Qed.

Lemma p2pkh_spend_is_signed_witness :
  exists ops fullSig pk, parseScript spend_script = (ops, None)
    /\ Ripemd160 (Sum256 pk) = spender_hash /\ signed_by spend_tx 0 ops fullSig pk.
Proof.
  exact (p2pkh_spend_is_signed spender_hash spend_script spend_tx 0 ScriptBip16 (Some (NewSigCache 4)) None 1
           (length_prefix20 _) spend_pays spend_bounded (NewSigCache_sound 4) spend_accepted).
Defined.

Lemma AddData_pushes_witness :
  exists pop, parseScript (data_push (replicate 200 x2a)) = ([pop], None).
Proof.
  destruct (AddData_pushes (replicate 200 x2a)) as [_ (pop & Hp & _)];
    [discriminate|vm_compute; discriminate|]. exists pop. exact Hp.
Defined.

End Witnesses.
