(* ===== verification/Standard.v ===== *)
(** * Standard scripts: txscript/standard.go

    The classes of public key scripts, the functions that make scripts of each
    class, and what can be read off a script of a known class.  Scripts that pay
    to addresses are in [Address]. *)

From S2P Require Import Prelude Chainhash Wire Hash WireMsg ScriptNum Stack Opcode Script.
From S2P Require Import ScriptBuilder Signature Engine EngineSafety EngineCache PubKeyHash.

Definition MaxDataCarrierSize : Z := 80.

Definition StandardVerifyFlags : Z :=
  fold_left Z.lor
    [ScriptVerifyDERSignatures; ScriptVerifyStrictEncoding; ScriptVerifyMinimalData; ScriptStrictMultiSig;
     ScriptDiscourageUpgradableNops; ScriptVerifyCleanStack; ScriptVerifyNullFail; ScriptVerifyCheckLockTimeVerify;
     ScriptVerifyCheckSequenceVerify; ScriptVerifyLowS; ScriptStrictMultiSig; ScriptVerifyWitness;
     ScriptVerifyDiscourageUpgradeableWitnessProgram; ScriptVerifyMinimalIf; ScriptVerifyWitnessPubKeyType]
    ScriptBip16.

Inductive ScriptClass :=
  | NonStandardTy | PubKeyTy | PubKeyHashTy | WitnessV0PubKeyHashTy | ScriptHashTy
  | WitnessV0ScriptHashTy | MultiSigTy | NullDataTy.
#[export] Instance ScriptClass_eq : EqDecision ScriptClass.
Proof. solve_decision. Defined.

(** ** Classification *)

Definition key_length (d : list byte) : bool := (zlen d =? 33) || (zlen d =? 65).

Definition isPubkey (pops : list parsedOpcode) : bool :=
  match pops with
  | [a; b] => key_length (data a) && (pop_value b =? OP_CHECKSIG)
  | _ => false
  end.

Definition isPubkeyHash (pops : list parsedOpcode) : bool :=
  match pops with
  | [a; b; c; d; e] =>
      (pop_value a =? OP_DUP) && (pop_value b =? OP_HASH160) && (pop_value c =? OP_DATA_20)
      && (pop_value d =? OP_EQUALVERIFY) && (pop_value e =? OP_CHECKSIG)
  | _ => false
  end.

(** [pops[i]] where the length has been checked. *)
Definition nth_pop (pops : list parsedOpcode) (i : nat) : parsedOpcode :=
  nth i pops (mkParsed (opcodeArray x00) []).

Definition isMultiSig (pops : list parsedOpcode) : bool :=
  let l := length pops in
  if (l <? 4)%nat then false
  else if negb (isSmallInt (pop_opcode (nth_pop pops 0))) then false
  else if negb (isSmallInt (pop_opcode (nth_pop pops (l - 2)))) then false
  else if negb (pop_value (nth_pop pops (l - 1)) =? OP_CHECKMULTISIG) then false
  else if negb (Z.of_nat l - 2 - 1 =? asSmallInt (pop_opcode (nth_pop pops (l - 2)))) then false
  else forallb (fun pop => key_length (data pop)) (take (l - 3) (drop 1 pops)).

Definition isNullData (pops : list parsedOpcode) : bool :=
  match pops with
  | [a] => pop_value a =? OP_RETURN
  | [a; b] =>
      (pop_value a =? OP_RETURN) && (isSmallInt (pop_opcode b) || (pop_value b <=? OP_PUSHDATA4))
      && (zlen (data b) <=? MaxDataCarrierSize)
  | _ => false
  end.

Definition typeOfScript (pops : list parsedOpcode) : ScriptClass :=
  if isPubkey pops then PubKeyTy
  else if isPubkeyHash pops then PubKeyHashTy
  else if isWitnessPubKeyHash pops then WitnessV0PubKeyHashTy
  else if isScriptHash pops then ScriptHashTy
  else if isWitnessScriptHash pops then WitnessV0ScriptHashTy
  else if isMultiSig pops then MultiSigTy
  else if isNullData pops then NullDataTy
  else NonStandardTy.

Definition GetScriptClass (script : list byte) : ScriptClass :=
  match parseScript script with
  | (pops, None) => typeOfScript pops
  | _ => NonStandardTy
  end.

Definition expectedInputs (pops : list parsedOpcode) (class : ScriptClass) : result script_error Z :=
  match class with
  | PubKeyTy => Ok 1
  | PubKeyHashTy | WitnessV0PubKeyHashTy => Ok 2
  | ScriptHashTy | WitnessV0ScriptHashTy => Ok 1
  | MultiSigTy => match pops with [] => Panic | pop :: _ => Ok (asSmallInt (pop_opcode pop) + 1) end
  | NullDataTy | NonStandardTy => Ok (-1)
  end.

(** ** Script pairs *)

Record ScriptInfo := mkScriptInfo { PkScriptClass : ScriptClass; NumInputs : Z; ExpectedInputs : Z; SigOps : Z }.

Definition parse_checked (script : list byte) : result script_error (list parsedOpcode) :=
  match parseScript script with (pops, None) => Ok pops | (_, Some e) => Err e end.

(** The inputs of the inner script come on top of those of the outer one. *)
Definition add_expected (expected : Z) (pops : list parsedOpcode) : result script_error Z :=
  let* shInputs := expectedInputs pops (typeOfScript pops) in
  Ok (if shInputs =? -1 then -1 else expected + shInputs).

(** [sigScript[1:]], [sigPops[len(sigPops)-1]] and [witness[len(witness)-1]]
    panic when there is nothing to take; a case of the switch is tried only when
    those before it do not apply. *)
Definition CalcScriptInfo (sigScript pkScript : list byte) (witness : list (list byte)) (bip16 segwit : bool)
  : result script_error ScriptInfo :=
  let* sigPops := parse_checked sigScript in
  let* pkPops := parse_checked pkScript in
  let class := typeOfScript pkPops in
  if negb (isPushOnly sigPops) then Err ErrNotPushOnly
  else
    let* expected := expectedInputs pkPops class in
    let otherwise := Ok (mkScriptInfo class (zlen sigPops) expected (getSigOpCount pkPops true)) in
    match class with
    | ScriptHashTy =>
        if bip16 && negb segwit then
          match list.last sigPops with
          | None => Panic
          | Some pop =>
              let* shPops := parse_checked (data pop) in
              let* expected := add_expected expected shPops in
              Ok (mkScriptInfo class (zlen sigPops) expected (getSigOpCount shPops true))
          end
        else
          match sigScript with
          | [] => Panic
          | _ :: program =>
              if IsWitnessProgram program && bip16 && segwit then
                let* expected := add_expected expected (parseScript program).1 in
                let* sigOps := GetWitnessSigOpCount sigScript pkScript witness in
                Ok (mkScriptInfo class (zlen witness + zlen sigPops) expected sigOps)
              else otherwise
          end
    | WitnessV0PubKeyHashTy =>
        if segwit then
          let* sigOps := GetWitnessSigOpCount sigScript pkScript witness in
          Ok (mkScriptInfo class (zlen witness) expected sigOps)
        else otherwise
    | WitnessV0ScriptHashTy =>
        if segwit then
          match list.last witness with
          | None => Panic
          | Some witnessScript =>
              let* expected := add_expected expected (parseScript witnessScript).1 in
              let* sigOps := GetWitnessSigOpCount sigScript pkScript witness in
              Ok (mkScriptInfo class (zlen witness) expected sigOps)
          end
        else otherwise
    | _ => otherwise
    end.

(** The number of keys and of signatures. *)
Definition CalcMultiSigStats (script : list byte) : result script_error (Z * Z) :=
  let* pops := parse_checked script in
  if (length pops <? 4)%nat then Err ErrNotMultisigScript
  else
    let numSigs := asSmallInt (pop_opcode (nth_pop pops 0)) in
    let numPubKeys := asSmallInt (pop_opcode (nth_pop pops (length pops - 2))) in
    Ok (numPubKeys, numSigs).

(** ** Making scripts *)

Definition payToWitnessPubKeyHashScript (pubKeyHash : list byte) : result script_error (list byte) :=
  build_script (AddData pubKeyHash (AddOp OP_0 NewScriptBuilder)).

Definition payToScriptHashScript (scriptHash : list byte) : result script_error (list byte) :=
  build_script (AddOp OP_EQUAL (AddData scriptHash (AddOp OP_HASH160 NewScriptBuilder))).

Definition payToWitnessScriptHashScript (scriptHash : list byte) : result script_error (list byte) :=
  build_script (AddData scriptHash (AddOp OP_0 NewScriptBuilder)).

Definition payToPubKeyScript (serializedPubKey : list byte) : result script_error (list byte) :=
  build_script (AddOp OP_CHECKSIG (AddData serializedPubKey NewScriptBuilder)).

Definition NullDataScript (d : list byte) : result script_error (list byte) :=
  if MaxDataCarrierSize <? zlen d then Err ErrTooMuchNullData
  else build_script (AddData d (AddOp OP_RETURN NewScriptBuilder)).

(** [MultiSigScript] on the serialized keys. *)
Definition multi_sig_script (pubkeys : list (list byte)) (nrequired : Z) : result script_error (list byte) :=
  if zlen pubkeys <? nrequired then Err ErrTooManyRequiredSigs
  else
    let* builder := AddInt64 nrequired NewScriptBuilder in
    let builder := fold_left (fun b key => AddData key b) pubkeys builder in
    let* builder := AddInt64 (zlen pubkeys) builder in
    build_script (AddOp OP_CHECKMULTISIG builder).

(** ** Reading scripts *)

(** [pop.data != nil]: the opcodes of length one have no data; a push of no
    bytes has an empty slice. *)
Definition has_data (pop : parsedOpcode) : bool := negb (op_length (pop_opcode pop) =? 1).

(** [nil] is [None]. *)
Definition PushedData (script : list byte) : result script_error (list (option (list byte))) :=
  let* pops := parse_checked script in
  Ok (omap (fun pop => if has_data pop then Some (Some (data pop))
                       else if pop_value pop =? OP_0 then Some None else None) pops).

Record AtomicSwapDataPushes := mkAtomicSwap {
  RecipientHash160 : list byte; RefundHash160 : list byte; SecretHash : list byte;
  SecretSize : Z; LockTime : Z
}.

(** A number of at most five bytes, or a small integer opcode. *)
Definition swap_number (pop : parsedOpcode) : option Z :=
  if has_data pop then
    match makeScriptNum (data pop) true 5 with Ok n => Some n | _ => None end
  else if isSmallInt (pop_opcode pop) then Some (asSmallInt (pop_opcode pop))
  else None.

Definition atomic_swap_values : list (option Z) :=
  [Some OP_IF; Some OP_SIZE; None; Some OP_EQUALVERIFY; Some OP_SHA256; Some OP_DATA_32; Some OP_EQUALVERIFY;
   Some OP_DUP; Some OP_HASH160; Some OP_DATA_20; Some OP_ELSE; None; Some OP_CHECKLOCKTIMEVERIFY; Some OP_DROP;
   Some OP_DUP; Some OP_HASH160; Some OP_DATA_20; Some OP_ENDIF; Some OP_EQUALVERIFY; Some OP_CHECKSIG].

(** [None] for a script that is no atomic swap; positions without a fixed opcode
    must be canonical pushes. *)
Definition ExtractAtomicSwapDataPushes (pkScript : list byte) : result script_error (option AtomicSwapDataPushes) :=
  let* pops := parse_checked pkScript in
  if negb (length pops =? 20)%nat then Ok None
  else if negb (forallb (fun p => match p.2 with
                                  | Some v => pop_value p.1 =? v
                                  | None => canonicalPush p.1
                                  end) (combine pops atomic_swap_values)) then Ok None
  else
    match swap_number (nth_pop pops 2), swap_number (nth_pop pops 11) with
    | Some secretSize, Some lockTime =>
        Ok (Some (mkAtomicSwap (data (nth_pop pops 9)) (data (nth_pop pops 16)) (data (nth_pop pops 5))
                    secretSize lockTime))
    | _, _ => Ok None
    end.

(** ** Lemmas: opcodes and the builder *)

Definition plain (b : byte) : parsedOpcode := mkParsed (opcodeArray b) [].

Lemma plain_from_table b : from_table (plain b).
Proof. by exists b. Qed.

Lemma plain_bytes b : op_length (opcodeArray b) = 1 -> bytes (plain b) = Ok [b].
Proof.
  intros Hl. unfold bytes, pop_value, plain. cbn [pop_opcode data]. rewrite Hl, opcode_value. cbn.
  by rewrite byte_of_Z_of_byte.
Qed.

(** A parsed opcode with a given value is the entry of the table, and its bytes
    fix its data. *)
Lemma pop_entry pop (b : byte) : from_table pop -> pop_value pop = Z_of_byte b -> pop_opcode pop = opcodeArray b.
Proof.
  intros [i Hi] Hv. unfold pop_value in Hv. rewrite Hi, opcode_value in Hv. rewrite Hi. f_equal.
  rewrite <- (byte_of_Z_of_byte i), <- (byte_of_Z_of_byte b). by rewrite Hv.
Qed.

Lemma pop_plain pop (b : byte) bs :
  from_table pop -> pop_value pop = Z_of_byte b -> op_length (opcodeArray b) = 1 -> bytes pop = Ok bs ->
  bs = [b].
Proof.
  intros Ht Hv Hl Hb. pose proof (pop_entry pop b Ht Hv) as He. unfold bytes in Hb. rewrite He, Hl, Hv in Hb. cbn in Hb.
  destruct (negb _) in Hb; [done|]. injection Hb as <-. by rewrite byte_of_Z_of_byte.
Qed.

Lemma pop_push pop (b : byte) n bs :
  from_table pop -> pop_value pop = Z_of_byte b -> op_length (opcodeArray b) = n + 1 -> 0 < n -> bytes pop = Ok bs ->
  zlen (data pop) = n /\ bs = b :: data pop.
Proof.
  intros Ht Hv Hl Hn Hb. pose proof (pop_entry pop b Ht Hv) as He. unfold bytes in Hb. rewrite He, Hl, Hv in Hb.
  rewrite (proj2 (Z.eqb_neq _ _)) in Hb by lia. rewrite (proj2 (Z.ltb_ge _ _)) in Hb by lia.
  destruct (negb _) eqn:Hz in Hb; [done|]. injection Hb as <-. rewrite byte_of_Z_of_byte. split; [|done].
  apply negb_false_iff, Z.eqb_eq in Hz. unfold zlen in *. rewrite length_app in Hz. cbn in Hz. lia.
Qed.

Lemma unparse_cons pop pops bs script :
  bytes pop = Ok bs -> unparseScript pops = Ok script -> unparseScript (pop :: pops) = Ok (bs ++ script).
Proof. intros Hb Hu. cbn [unparseScript]. by rewrite Hb, Hu. Qed.

Lemma parse_checked_inv script pops :
  parseScript script = (pops, None) -> Forall from_table pops /\ unparseScript pops = Ok script.
Proof. intros Hp%parseScript_loop. split; eauto using parse_loop_from_table, parse_loop_sound. Qed.

Lemma AddOp_ok op s :
  zlen s < MaxScriptSize -> AddOp op (mkBuilder s false) = mkBuilder (s ++ [byte_of_Z op]) false.
Proof. intros Hl. unfold AddOp. cbn [sb_failed sb_script]. by rewrite (proj2 (Z.ltb_ge _ _)) by lia. Qed.

Lemma AddData_ok d s :
  zlen d <= MaxScriptElementSize -> zlen s + canonicalDataSize d <= MaxScriptSize ->
  AddData d (mkBuilder s false) = mkBuilder (s ++ data_push d) false.
Proof. intros Hd Hl. unfold AddData. cbn [sb_failed sb_script]. by rewrite !(proj2 (Z.ltb_ge _ _)) by lia. Qed.

(** Data of 2 to 75 bytes is pushed by the opcode of its length. *)
Lemma short_push d : 2 <= zlen d <= 75 -> data_push d = byte_of_Z (zlen d) :: d /\ canonicalDataSize d = 1 + zlen d.
Proof.
  intros Hd. unfold data_push, canonicalDataSize. rewrite !(proj2 (Z.eqb_neq _ _)) by lia. cbn [andb orb].
  unfold OP_PUSHDATA1. rewrite (proj2 (Z.ltb_lt _ _)) by lia. by split.
Qed.

Definition push_of (d : list byte) : parsedOpcode := mkParsed (opcodeArray (byte_of_Z (zlen d))) d.

Lemma table_push n : 1 <= n <= 75 -> op_length (opcodeArray (byte_of_Z n)) = n + 1.
Proof.
  intros Hn. assert (Ha : forallb (fun k => op_length (opcodeArray (byte_of_Z (Z.of_nat k))) =? Z.of_nat k + 1) (seq 1 75) = true)
    by (vm_compute; reflexivity).
  rewrite forallb_forall in Ha. specialize (Ha (Z.to_nat n)). rewrite Z2Nat.id in Ha by lia.
  apply Z.eqb_eq, Ha, in_seq. lia.
Qed.

Lemma push_of_bytes d : 1 <= zlen d <= 75 -> bytes (push_of d) = Ok (byte_of_Z (zlen d) :: d).
Proof.
  intros Hd. unfold bytes, pop_value, push_of. cbn [pop_opcode data]. rewrite table_push, opcode_value by lia.
  rewrite (proj2 (Z.eqb_neq _ _)) by lia. rewrite (proj2 (Z.ltb_ge _ _)) by lia. rewrite byte_of_Z_of_byte. cbn [app].
  rewrite (proj2 (Z.eqb_eq _ _)); [done|]. unfold zlen in *. cbn. lia.
Qed.

(** ** The scripts of each class *)

(** The opcodes a script with one payload consists of: bytes before and after
    the push. *)
Definition around (pre post : list byte) (d : list byte) : list parsedOpcode :=
  map plain pre ++ push_of d :: map plain post.

Lemma plain_list_bytes bs : Forall (fun b => op_length (opcodeArray b) = 1) bs -> unparseScript (map plain bs) = Ok bs.
Proof.
  induction 1 as [|b bs Hb _ IH]; [done|]. cbn [map]. change (b :: bs) with ([b] ++ bs).
  apply unparse_cons; [by apply plain_bytes|done].
Qed.

Lemma unparse_app xs ys a b : unparseScript xs = Ok a -> unparseScript ys = Ok b -> unparseScript (xs ++ ys) = Ok (a ++ b).
Proof.
  revert a. induction xs as [|x xs IH]; intros a Ha Hb; cbn in Ha.
  { injection Ha as <-. done. }
  apply rbind_Ok in Ha as (bx & Hx & Ha). apply rbind_Ok in Ha as (as' & Hxs & Ha). injection Ha as <-.
  cbn [app]. rewrite <- app_assoc. apply unparse_cons; [done|]. by apply IH.
Qed.

Lemma around_parse pre post d :
  Forall (fun b => op_length (opcodeArray b) = 1) (pre ++ post) -> 1 <= zlen d <= 75 ->
  parseScript (pre ++ (byte_of_Z (zlen d) :: d) ++ post) = (around pre post d, None).
Proof.
  intros Hp Hd. apply Forall_app in Hp as [Hpre Hpost]. apply parse_pops.
  - unfold around. apply Forall_app. split; [|apply Forall_cons_iff; split; [by exists (byte_of_Z (zlen d))|]];
      apply List.Forall_forall; intros pop Hin; apply in_map_iff in Hin as (b & <- & _); apply plain_from_table.
  - unfold around. apply unparse_app; [by apply plain_list_bytes|]. apply unparse_cons; [by apply push_of_bytes|].
    by apply plain_list_bytes.
Qed.

(** A builder with less than the maximal size. *)
Ltac short_script := unfold zlen, MaxScriptSize, MaxScriptElementSize in *; rewrite ?length_app; cbn [length]; lia.
Ltac build_short d :=
  let Hpush := fresh "Hpush" in let Hsize := fresh "Hsize" in
  destruct (short_push d ltac:(lia)) as [Hpush Hsize]; change NewScriptBuilder with (mkBuilder [] false);
  repeat first [rewrite AddOp_ok by (rewrite ?Hpush; short_script) | rewrite AddData_ok by (rewrite ?Hsize; short_script)];
  rewrite ?Hpush; unfold build_script; cbn [sb_failed sb_script]; rewrite <- ?app_assoc, ?app_nil_r.

Lemma p2pkh_bytes h : zlen h = 20 -> payToPubKeyHashScript h = Ok ([x76; xa9] ++ (byte_of_Z (zlen h) :: h) ++ [x88; xac]).
Proof. intros Hh. unfold payToPubKeyHashScript. by build_short h. Qed.

Lemma p2sh_bytes h : zlen h = 20 -> payToScriptHashScript h = Ok ([xa9] ++ (byte_of_Z (zlen h) :: h) ++ [x87]).
Proof. intros Hh. unfold payToScriptHashScript. by build_short h. Qed.

Lemma p2wpkh_bytes h : 2 <= zlen h <= 75 -> payToWitnessPubKeyHashScript h = Ok ([x00] ++ (byte_of_Z (zlen h) :: h) ++ []).
Proof. intros Hh. unfold payToWitnessPubKeyHashScript. by build_short h. Qed.

Lemma p2pk_bytes k : 2 <= zlen k <= 75 -> payToPubKeyScript k = Ok ([] ++ (byte_of_Z (zlen k) :: k) ++ [xac]).
Proof. intros Hk. unfold payToPubKeyScript. by build_short k. Qed.

Lemma unparse_cons_inv pop pops script :
  unparseScript (pop :: pops) = Ok script ->
  exists bs rest, bytes pop = Ok bs /\ unparseScript pops = Ok rest /\ script = bs ++ rest.
Proof.
  cbn [unparseScript]. intros Hu. apply rbind_Ok in Hu as (bs & Hb & Hu). apply rbind_Ok in Hu as (rest & Hr & Hu).
  injection Hu as <-. by exists bs, rest.
Qed.

(** The first opcode of a script, by its value. *)
Lemma read_plain (b : byte) pop pops script :
  Forall from_table (pop :: pops) -> unparseScript (pop :: pops) = Ok script -> pop_value pop = Z_of_byte b ->
  op_length (opcodeArray b) = 1 ->
  exists rest, script = b :: rest /\ Forall from_table pops /\ unparseScript pops = Ok rest.
Proof.
  intros Ht Hu Hv Hl. apply Forall_cons_iff in Ht as [Hp Ht]. apply unparse_cons_inv in Hu as (bs & rest & Hb & Hu & ->).
  exists rest. by rewrite (pop_plain pop b bs Hp Hv Hl Hb).
Qed.

Lemma read_push n pop pops script :
  Forall from_table (pop :: pops) -> unparseScript (pop :: pops) = Ok script -> pop_value pop = n -> 1 <= n <= 75 ->
  exists rest, zlen (data pop) = n /\ script = (byte_of_Z (zlen (data pop)) :: data pop) ++ rest
    /\ Forall from_table pops /\ unparseScript pops = Ok rest.
Proof.
  intros Ht Hu Hv Hn. apply Forall_cons_iff in Ht as [Hp Ht]. apply unparse_cons_inv in Hu as (bs & rest & Hb & Hu & ->).
  assert (Hbyte : Z_of_byte (byte_of_Z n) = n) by (rewrite Z_of_byte_of_Z, u8_small; [done|widths; lia]).
  destruct (pop_push pop (byte_of_Z n) n bs Hp) as [Hz ->]; try done; [by rewrite Hbyte|by apply table_push|lia|].
  exists rest. by rewrite Hz.
Qed.

Lemma read_nil script : unparseScript [] = Ok script -> script = [].
Proof. by intros [= <-]. Qed.

(** Split a boolean test of a class into the values of the opcodes. *)
Ltac class_values H :=
  repeat (apply andb_true_iff in H; let H' := fresh "Hv" in destruct H as [H H']; apply Z.eqb_eq in H');
  try apply Z.eqb_eq in H.

Lemma typeOfScript_test pops class :
  typeOfScript pops = class ->
  match class with
  | PubKeyHashTy => isPubkeyHash pops = true
  | WitnessV0PubKeyHashTy => isWitnessPubKeyHash pops = true
  | ScriptHashTy => isScriptHash pops = true
  | WitnessV0ScriptHashTy => isWitnessScriptHash pops = true
  | _ => True
  end.
Proof.
  unfold typeOfScript. intros <-.
  repeat match goal with |- context [if ?b then _ else _] => destruct b eqn:?; [done|] end. done.
Qed.

Lemma GetScriptClass_inv script class :
  GetScriptClass script = class -> class <> NonStandardTy ->
  exists pops, Forall from_table pops /\ unparseScript pops = Ok script /\ typeOfScript pops = class.
Proof.
  unfold GetScriptClass. destruct (parseScript script) as [pops [e|]] eqn:Hp; [by intros <-|]. intros Hc _.
  exists pops. destruct (parse_checked_inv script pops Hp). done.
Qed.

Lemma class_of_around pre post d script class :
  script = pre ++ (byte_of_Z (zlen d) :: d) ++ post ->
  Forall (fun b => op_length (opcodeArray b) = 1) (pre ++ post) -> 1 <= zlen d <= 75 ->
  typeOfScript (around pre post d) = class -> GetScriptClass script = class.
Proof. intros -> Hp Hd Hc. unfold GetScriptClass. by rewrite around_parse. Qed.

Lemma push_of_value d : 1 <= zlen d <= 75 -> pop_value (push_of d) = zlen d.
Proof.
  intros Hd. unfold pop_value, push_of. cbn [pop_opcode]. rewrite opcode_value, Z_of_byte_of_Z. apply u8_small. widths. lia.
Qed.

Ltac classify h :=
  unfold typeOfScript, around; cbn [map app]; cbn [isPubkey isPubkeyHash isWitnessPubKeyHash isScriptHash isWitnessScriptHash];
  rewrite ?push_of_value by lia; cbn [data push_of plain];
  repeat match goal with H : zlen h = _ |- _ => rewrite H end; reflexivity.

Lemma p2pkh_class script :
  GetScriptClass script = PubKeyHashTy <-> exists h, zlen h = 20 /\ payToPubKeyHashScript h = Ok script.
Proof.
  split.
  - intros Hc. apply GetScriptClass_inv in Hc as (pops & Ht & Hu & Hc); [|done]. apply typeOfScript_test in Hc.
    destruct pops as [|a [|b [|c [|d [|e []]]]]]; try done. cbn [isPubkeyHash] in Hc. class_values Hc.
    apply (read_plain x76) in Hu as (r1 & -> & Ht1 & Hu); [|done..]. apply (read_plain xa9) in Hu as (r2 & -> & Ht2 & Hu); [|done..].
    apply (read_push 20) in Hu as (r3 & Hz & -> & Ht3 & Hu); [|done..]. apply (read_plain x88) in Hu as (r4 & -> & Ht4 & Hu); [|done..].
    apply (read_plain xac) in Hu as (r5 & -> & Ht5 & Hu); [|done..]. apply read_nil in Hu as ->.
    exists (data c). split; [done|]. by apply p2pkh_bytes.
  - intros (h & Hh & Hs). rewrite p2pkh_bytes in Hs by done. injection Hs as <-.
    apply (class_of_around [x76; xa9] [x88; xac] h); [done|repeat constructor|lia|classify h].
Qed.

Lemma p2sh_class script :
  GetScriptClass script = ScriptHashTy <-> exists h, zlen h = 20 /\ payToScriptHashScript h = Ok script.
Proof.
  split.
  - intros Hc. apply GetScriptClass_inv in Hc as (pops & Ht & Hu & Hc); [|done]. apply typeOfScript_test in Hc.
    destruct pops as [|a [|b [|c []]]]; try done. cbn [isScriptHash] in Hc. class_values Hc.
    apply (read_plain xa9) in Hu as (r1 & -> & Ht1 & Hu); [|done..]. apply (read_push 20) in Hu as (r2 & Hz & -> & Ht2 & Hu); [|done..].
    apply (read_plain x87) in Hu as (r3 & -> & Ht3 & Hu); [|done..]. apply read_nil in Hu as ->.
    exists (data b). split; [done|]. by apply p2sh_bytes.
  - intros (h & Hh & Hs). rewrite p2sh_bytes in Hs by done. injection Hs as <-.
    apply (class_of_around [xa9] [x87] h); [done|repeat constructor|lia|classify h].
Qed.

Lemma p2wpkh_class script :
  GetScriptClass script = WitnessV0PubKeyHashTy <-> exists h, zlen h = 20 /\ payToWitnessPubKeyHashScript h = Ok script.
Proof.
  split.
  - intros Hc. apply GetScriptClass_inv in Hc as (pops & Ht & Hu & Hc); [|done]. apply typeOfScript_test in Hc.
    destruct pops as [|a [|b []]]; try done. cbn [isWitnessPubKeyHash] in Hc. class_values Hc.
    apply (read_plain x00) in Hu as (r1 & -> & Ht1 & Hu); [|done..]. apply (read_push 20) in Hu as (r2 & Hz & -> & Ht2 & Hu); [|done..].
    apply read_nil in Hu as ->. exists (data b). split; [done|]. apply p2wpkh_bytes. lia.
  - intros (h & Hh & Hs). rewrite p2wpkh_bytes in Hs by lia. injection Hs as <-.
    apply (class_of_around [x00] [] h); [done|repeat constructor|lia|classify h].
Qed.

Lemma p2wsh_class script :
  GetScriptClass script = WitnessV0ScriptHashTy <-> exists h, zlen h = 32 /\ payToWitnessScriptHashScript h = Ok script.
Proof.
  change payToWitnessScriptHashScript with payToWitnessPubKeyHashScript. split.
  - intros Hc. apply GetScriptClass_inv in Hc as (pops & Ht & Hu & Hc); [|done]. apply typeOfScript_test in Hc.
    destruct pops as [|a [|b []]]; try done. cbn [isWitnessScriptHash] in Hc. class_values Hc.
    apply (read_plain x00) in Hu as (r1 & -> & Ht1 & Hu); [|done..]. apply (read_push 32) in Hu as (r2 & Hz & -> & Ht2 & Hu); [|done..].
    apply read_nil in Hu as ->. exists (data b). split; [done|]. apply p2wpkh_bytes. lia.
  - intros (h & Hh & Hs). rewrite p2wpkh_bytes in Hs by lia. injection Hs as <-.
    apply (class_of_around [x00] [] h); [done|repeat constructor|lia|classify h].
Qed.

Lemma p2pk_class k script : key_length k = true -> payToPubKeyScript k = Ok script -> GetScriptClass script = PubKeyTy.
Proof.
  intros Hk Hs. assert (Hz : zlen k = 33 \/ zlen k = 65).
  { unfold key_length in Hk. apply orb_true_iff in Hk as [Hk|Hk]; apply Z.eqb_eq in Hk; auto. }
  rewrite p2pk_bytes in Hs by lia. injection Hs as <-.
  apply (class_of_around [] [xac] k); [done|repeat constructor|lia|].
  unfold typeOfScript, around. cbn [map app isPubkey data push_of]. by rewrite Hk.
Qed.

(** [NullDataScript] accepts up to 80 bytes and makes a data script, with one
    exception: the byte 0x81 is pushed by [OP_1NEGATE], which the classification
    does not count as a push of data, so the result is nonstandard. *)
Theorem NullDataScript_class d :
  zlen d <= MaxDataCarrierSize ->
  exists script, NullDataScript d = Ok script
    /\ GetScriptClass script = if bool_decide (d = [x81]) then NonStandardTy else NullDataTy.
Proof.
  intros Hd. unfold MaxDataCarrierSize in Hd. unfold NullDataScript. rewrite (proj2 (Z.ltb_ge _ _)) by done.
  change (AddOp OP_RETURN NewScriptBuilder) with (mkBuilder [x6a] false).
  destruct (decide (d = [x00])) as [->|H0]; [eexists; split; [reflexivity|vm_compute; reflexivity]|].
  destruct (data_push_form d H0) as [pop Hp]; [unfold MaxScriptElementSize; lia|].
  pose proof (push_size _ _ _ Hp) as Hz. pose proof (push_from_table _ _ _ Hp) as Ht. pose proof (push_bytes _ _ _ Hp) as Hb.
  assert (Hc : canonicalDataSize d <= 100).
  { unfold canonicalDataSize. repeat match goal with |- context [if ?b then _ else _] => destruct b end; lia. }
  rewrite AddData_ok by short_script. unfold build_script. cbn [sb_failed sb_script]. eexists. split; [reflexivity|].
  unfold GetScriptClass. rewrite (parse_pops [plain x6a; pop]); cycle 1.
  { apply Forall_cons_iff. split; [apply plain_from_table|]. apply Forall_cons_iff. split; [done|constructor]. }
  { apply (unparse_cons (plain x6a) [pop] [x6a]); [by apply plain_bytes|].
    rewrite <- (app_nil_r (data_push d)). by apply unparse_cons. }
  unfold typeOfScript. cbn [isPubkey isPubkeyHash isWitnessPubKeyHash isScriptHash isWitnessScriptHash plain data].
  change (key_length []) with false. cbn [andb]. unfold isMultiSig. cbn [length Nat.ltb Nat.leb isNullData].
  change (pop_value (plain x6a) =? OP_0) with false. change (pop_value (plain x6a) =? OP_RETURN) with true. cbn [andb].
  inversion Hp; subst; cbn [data pop_value value pop_opcode]; unfold isSmallInt; cbn [value].
  - by rewrite bool_decide_false.
  - rewrite bool_decide_false by (intros [= ->]; match goal with Hr : 1 <= _ <= 16 |- _ => change (1 <= 129 <= 16) in Hr; lia end). change (zlen [] <=? MaxDataCarrierSize) with true.
    unfold OP_1, OP_16, OP_0 in *. rewrite (proj2 (Z.leb_le _ _)) by lia. rewrite (proj2 (Z.leb_le _ _)) by lia.
    by rewrite orb_true_r.
  - by rewrite bool_decide_true.
  - rewrite bool_decide_false by (intros ->; match goal with Hn : zlen _ = 1 -> _ |- _ => by destruct (Hn eq_refl) as [_ []] end).
    unfold MaxDataCarrierSize. rewrite (proj2 (Z.leb_le (zlen d) 80)) by lia.
    unfold OP_PUSHDATA4. rewrite (proj2 (Z.leb_le (zlen d) 78)) by lia. by rewrite orb_true_r.
  - rewrite bool_decide_false by (intros ->; match goal with Hn : 75 < _ <= _ |- _ => change (75 < 1 <= 255) in Hn; lia end).
    unfold MaxDataCarrierSize. by rewrite (proj2 (Z.leb_le (zlen d) 80)) by lia.
  - unfold MaxDataCarrierSize in *. lia.
Qed.

(** ** Multi-signature scripts *)

(** The opcode of a small integer. *)
Definition small_op (n : Z) : byte := if n =? 0 then x00 else byte_of_Z (0x50 + n).

Lemma small_op_table n :
  0 <= n <= 16 -> op_length (opcodeArray (small_op n)) = 1 /\ isSmallInt (opcodeArray (small_op n)) = true
                  /\ asSmallInt (opcodeArray (small_op n)) = n.
Proof.
  intros Hn. assert (Ha : forallb (fun k => let o := opcodeArray (small_op (Z.of_nat k)) in
      (op_length o =? 1) && isSmallInt o && (asSmallInt o =? Z.of_nat k)) (seq 0 17) = true) by (vm_compute; reflexivity).
  rewrite forallb_forall in Ha. specialize (Ha (Z.to_nat n)). rewrite Z2Nat.id in Ha by lia.
  destruct (andb_prop _ _ (Ha ltac:(apply in_seq; lia))) as [Hab Hc]. apply andb_prop in Hab as [Hab Hb].
  apply Z.eqb_eq in Hab, Hc. done.
Qed.

Lemma AddInt64_small n s :
  0 <= n <= 16 -> zlen s < MaxScriptSize -> AddInt64 n (mkBuilder s false) = Ok (mkBuilder (s ++ [small_op n]) false).
Proof.
  intros Hn Hs. unfold AddInt64, small_op. cbn [sb_failed sb_script]. rewrite (proj2 (Z.ltb_ge _ _)) by lia.
  destruct (Z.eqb_spec n 0) as [->|Hz]; [done|]. rewrite (proj2 (Z.eqb_neq _ _)) by lia.
  rewrite !(proj2 (Z.leb_le _ _)) by lia. done.
Qed.

Definition key_pushes (keys : list (list byte)) : list byte := concat (map (fun k => byte_of_Z (zlen k) :: k) keys).

Lemma key_pushes_size keys : Forall (fun k => key_length k = true) keys -> zlen (key_pushes keys) <= 66 * zlen keys.
Proof.
  unfold key_pushes, zlen. induction 1 as [|k keys Hk _ IH]; [done|]. cbn [map concat]. rewrite length_app. cbn [length].
  unfold key_length, zlen in Hk. apply orb_true_iff in Hk as [Hk|Hk]; apply Z.eqb_eq in Hk; lia.
Qed.

Lemma add_keys keys s :
  Forall (fun k => key_length k = true) keys -> zlen s + 66 * zlen keys <= MaxScriptSize ->
  fold_left (fun b k => AddData k b) keys (mkBuilder s false) = mkBuilder (s ++ key_pushes keys) false.
Proof.
  intros Hk. revert s. induction Hk as [|k keys Hk Hks IH]; intros s Hs; cbn [fold_left].
  { unfold key_pushes. cbn. by rewrite app_nil_r. }
  assert (Hz : zlen k = 33 \/ zlen k = 65).
  { unfold key_length in Hk. apply orb_true_iff in Hk as [Hk|Hk]; apply Z.eqb_eq in Hk; auto. }
  unfold zlen in Hs |- *. cbn [length] in Hs.
  destruct (short_push k ltac:(lia)) as [Hp Hc]. rewrite AddData_ok; [|unfold MaxScriptElementSize; lia|rewrite Hc; unfold zlen in *; lia].
  rewrite IH; [|unfold zlen in *; rewrite length_app, Hp; cbn [length]; lia].
  rewrite <- app_assoc, Hp. done.
Qed.

Definition multi_sig_pops (keys : list (list byte)) (n : Z) : list parsedOpcode :=
  plain (small_op n) :: map push_of keys ++ [plain (small_op (zlen keys)); plain xae].

Lemma keys_parse keys :
  Forall (fun k => key_length k = true) keys ->
  Forall from_table (map push_of keys) /\ unparseScript (map push_of keys) = Ok (key_pushes keys).
Proof.
  induction 1 as [|k keys Hk _ [IHt IHu]]; [done|]. cbn [map]. split.
  - apply Forall_cons_iff. split; [by exists (byte_of_Z (zlen k))|done].
  - unfold key_pushes. cbn [map concat]. apply unparse_cons; [|done]. apply push_of_bytes.
    unfold key_length in Hk. apply orb_true_iff in Hk as [Hk|Hk]; apply Z.eqb_eq in Hk; lia.
Qed.

Lemma multi_sig_parse keys n script :
  0 <= n <= zlen keys -> zlen keys <= 16 -> Forall (fun k => key_length k = true) keys ->
  multi_sig_script keys n = Ok script -> parseScript script = (multi_sig_pops keys n, None).
Proof.
  intros Hn Hl Hk. unfold multi_sig_script. rewrite (proj2 (Z.ltb_ge _ _)) by lia.
  change NewScriptBuilder with (mkBuilder [] false). pose proof (key_pushes_size keys Hk) as Hsz.
  rewrite AddInt64_small by (unfold zlen, MaxScriptSize in *; cbn; lia). cbn [rbind app].
  rewrite add_keys; [|done|unfold zlen, MaxScriptSize in *; cbn [length]; lia].
  rewrite AddInt64_small by (unfold zlen, MaxScriptSize in *; rewrite ?length_app; cbn [length]; lia). cbn [rbind].
  rewrite AddOp_ok by (unfold zlen, MaxScriptSize in *; rewrite !length_app; cbn [length]; lia).
  unfold build_script. cbn [sb_failed sb_script]. intros [= <-].
  destruct (small_op_table n ltac:(lia)) as [Hn1 _]. destruct (small_op_table (zlen keys) ltac:(lia)) as [Hm1 _].
  destruct (keys_parse keys Hk) as [Ht Hu]. apply parse_pops.
  - apply Forall_cons_iff. split; [apply plain_from_table|]. apply Forall_app. split; [done|].
    repeat (apply Forall_cons_iff; split); auto using plain_from_table.
  - unfold multi_sig_pops. rewrite <- !app_assoc.
    apply (unparse_cons _ _ [small_op n]); [by apply plain_bytes|]. apply unparse_app; [done|]. apply (plain_list_bytes [small_op (zlen keys); xae]). by repeat constructor.
Qed.

Lemma multi_sig_class keys n :
  0 <= n <= zlen keys -> 1 <= zlen keys <= 16 -> Forall (fun k => key_length k = true) keys ->
  isMultiSig (multi_sig_pops keys n) = true.
Proof.
  intros Hn Hl Hk. unfold isMultiSig. assert (Hlen : length (multi_sig_pops keys n) = (length keys + 3)%nat).
  { unfold multi_sig_pops. cbn [length]. rewrite length_app, length_map. cbn. lia. }
  rewrite Hlen. unfold zlen in Hl. rewrite (proj2 (Nat.ltb_ge _ _)) by lia.
  replace (length keys + 3 - 2)%nat with (S (length keys)) by lia.
  replace (length keys + 3 - 1)%nat with (S (S (length keys))) by lia.
  assert (Ha : nth_pop (multi_sig_pops keys n) 0 = plain (small_op n)) by done.
  assert (Hb : nth_pop (multi_sig_pops keys n) (S (length keys)) = plain (small_op (zlen keys))).
  { unfold nth_pop, multi_sig_pops. cbn [nth]. rewrite app_nth2 by (rewrite length_map; lia).
    rewrite length_map, Nat.sub_diag. done. }
  assert (Hc : nth_pop (multi_sig_pops keys n) (S (S (length keys))) = plain xae).
  { unfold nth_pop, multi_sig_pops. cbn [nth]. rewrite app_nth2 by (rewrite length_map; lia).
    rewrite length_map. by replace (S (length keys) - length keys)%nat with 1%nat by lia. }
  rewrite Ha, Hb, Hc. cbn [plain pop_opcode]. unfold zlen in *.
  destruct (small_op_table n ltac:(lia)) as (_ & -> & _). destruct (small_op_table (Z.of_nat (length keys)) ltac:(lia)) as (_ & -> & ->).
  change (pop_value (plain xae) =? OP_CHECKMULTISIG) with true. cbn [negb].
  rewrite (proj2 (Z.eqb_eq _ _)) by lia. cbn [negb]. unfold multi_sig_pops. rewrite skipn_cons, drop_0.
  replace (length keys + 3 - 3)%nat with (length (map push_of keys)) by (rewrite length_map; lia).
  rewrite take_app_length. apply forallb_forall. intros pop Hin.
  apply in_map_iff in Hin as (k & <- & Hin). cbn [push_of data]. by apply (proj1 (List.Forall_forall _ _) Hk).
Qed.

Lemma multi_sig_type keys n :
  0 <= n <= zlen keys -> 1 <= zlen keys <= 16 -> Forall (fun k => key_length k = true) keys ->
  typeOfScript (multi_sig_pops keys n) = MultiSigTy.
Proof.
  intros Hn Hl Hk. pose proof (multi_sig_class keys n Hn Hl Hk) as Hm. unfold typeOfScript. rewrite Hm.
  destruct keys as [|k1 [|k2 [|k3 keys]]]; [unfold zlen in Hl; cbn in Hl; lia|..]; unfold multi_sig_pops; cbn [map app].
  - cbn [isPubkey isPubkeyHash isWitnessPubKeyHash isScriptHash isWitnessScriptHash]. done.
  - cbn [isPubkey isPubkeyHash isWitnessPubKeyHash isScriptHash isWitnessScriptHash].
    change (pop_value (plain xae) =? OP_CHECKSIG) with false. by rewrite andb_false_r.
  - destruct (map push_of keys) as [|x [|y l]]; done.
Qed.

(** ** Properties *)

(** C25: the classes of scripts are exact: a script is classified as
    pay-to-pubkey-hash, pay-to-script-hash or one of the two version 0 witness
    programs exactly when it is the script the corresponding function makes for
    a hash of the right length; a pay-to-pubkey script made from a key is
    classified as such; and a multi-signature script made from 1 to 16 keys is
    classified as one, from which [CalcMultiSigStats] reads back the number of
    keys and of required signatures. *)
Theorem standard_scripts_exact script :
  (GetScriptClass script = PubKeyHashTy <-> exists h, zlen h = 20 /\ payToPubKeyHashScript h = Ok script)
  /\ (GetScriptClass script = ScriptHashTy <-> exists h, zlen h = 20 /\ payToScriptHashScript h = Ok script)
  /\ (GetScriptClass script = WitnessV0PubKeyHashTy <->
        exists h, zlen h = 20 /\ payToWitnessPubKeyHashScript h = Ok script)
  /\ (GetScriptClass script = WitnessV0ScriptHashTy <->
        exists h, zlen h = 32 /\ payToWitnessScriptHashScript h = Ok script)
  /\ (forall key, key_length key = true -> payToPubKeyScript key = Ok script -> GetScriptClass script = PubKeyTy)
  /\ (forall keys n, 0 <= n <= zlen keys -> 1 <= zlen keys <= 16 -> Forall (fun k => key_length k = true) keys ->
        multi_sig_script keys n = Ok script ->
        GetScriptClass script = MultiSigTy /\ CalcMultiSigStats script = Ok (zlen keys, n)).
Proof.
  split; [apply p2pkh_class|]. split; [apply p2sh_class|]. split; [apply p2wpkh_class|]. split; [apply p2wsh_class|].
  split; [intros key; apply p2pk_class|]. intros keys n Hn Hl Hk Hs.
  assert (Hp : parseScript script = (multi_sig_pops keys n, None)) by (apply multi_sig_parse; [done|lia|done|done]).
  unfold GetScriptClass, CalcMultiSigStats, parse_checked. rewrite Hp. split; [by apply multi_sig_type|]. cbn [rbind].
  assert (Hlen : length (multi_sig_pops keys n) = (length keys + 3)%nat).
  { unfold multi_sig_pops. cbn [length]. rewrite length_app, length_map. cbn. lia. }
  unfold zlen in *. rewrite Hlen, (proj2 (Nat.ltb_ge _ _)) by lia.
  replace (length keys + 3 - 2)%nat with (S (length keys)) by lia.
  unfold nth_pop, multi_sig_pops. cbn [nth]. rewrite app_nth2 by (rewrite length_map; lia).
  rewrite length_map, Nat.sub_diag. cbn [nth plain pop_opcode].
  destruct (small_op_table n ltac:(lia)) as (_ & _ & ->).
  destruct (small_op_table (Z.of_nat (length keys)) ltac:(lia)) as (_ & _ & H'). unfold zlen. by rewrite H'.
Qed.
