(* ===== verification/Validate.v ===== *)
(** * Validation rules: blockchain/validate.go, blockchain/weight.go

    The context-free checks of transactions, blocks and candidates, the
    contextual checks of block headers and blocks, and the block subsidy.
    [rule_error] has the error codes of blockchain/error.go these functions
    return, and [KeyError] for the errors of the key parser that
    [checkBlockHeaderContext] passes on. *)

From S2P Require Import Prelude Float64 Chainhash Vote Wire Hash WireMsg ScriptNum Opcode Script.
From S2P Require Import Merkle BlockIndex Signature Compress.

Inductive rule_error :=
  | ErrDuplicateBlock | ErrInvalidTime | ErrTimeTooOld | ErrUnexpectedDifficulty
  | ErrBadMerkleRoot | ErrNoTransactions | ErrNoTxInputs | ErrNoTxOutputs | ErrTxTooBig
  | ErrBlockTooBig | ErrBadTxOutValue | ErrDuplicateTxInputs | ErrBadTxInput
  | ErrUnfinalizedTx | ErrDuplicateTx | ErrTooManySigOps | ErrFirstTxNotCoinbase
  | ErrMultipleCoinbases | ErrBadCoinbaseScriptLen | ErrMissingCoinbaseHeight
  | ErrBadCoinbaseHeight | ErrPreviousBlockUnknown | ErrInvalidAncestorBlock
  | ErrMissingTxOut | ErrOverwriteTx | ErrImmatureSpend | ErrSpendTooHigh | ErrBadFees
  | ErrBadCoinbaseValue | ErrScriptMalformed | ErrScriptValidation | ErrPrevBlockNotBest
  | KeyError (e : key_error) | BackendError
  | AssertError | ErrCorruption | ErrNotInMainChain | StorageError (e : deserialize_error).

(** ** Constants *)

Definition MinCoinbaseScriptLen : Z := 2.
Definition MaxCoinbaseScriptLen : Z := 100.
Definition SatoshiPerBitcoin : Z := 10 ^ 8.
Definition MaxSatoshi : Z := 21 * 10 ^ 6 * SatoshiPerBitcoin.
Definition baseSubsidy : Z := 50 * SatoshiPerBitcoin.
Definition MaxBlockBaseSize : Z := 1000000.
Definition MaxBlockSigOpsCost : Z := 80000.
Definition WitnessScaleFactor : Z := 4.
Definition MaxUint32 : Z := 2 ^ 32 - 1.

(** ** Transactions *)

Definition isNullOutpoint (outpoint : OutPoint) : bool :=
  (op_Index outpoint =? MaxUint32) && bool_decide (op_Hash outpoint = zero_hash).

Definition IsCoinBaseTx (msgTx : MsgTx) : bool :=
  match tx_TxIn msgTx with
  | [i] => let prevOut := ti_PreviousOutPoint i in
           if negb (op_Index prevOut =? MaxUint32) || negb (bool_decide (op_Hash prevOut = zero_hash))
           then false else true
  | _ => false
  end.

Definition IsFinalizedTransaction (msgTx : MsgTx) (blockHeight blockTime : Z) : bool :=
  let lockTime := tx_LockTime msgTx in
  if lockTime =? 0 then true
  else
    let blockTimeOrHeight := if lockTime <? LockTimeThreshold then blockHeight else blockTime in
    if lockTime <? blockTimeOrHeight then true
    else forallb (fun txIn => ti_Sequence txIn =? MaxUint32) (tx_TxIn msgTx).

Record SequenceLock := mkSequenceLock { Seconds : Z; sl_BlockHeight : Z }.

Definition SequenceLockActive (sequenceLock : SequenceLock) (blockHeight medianTimePast : Z) : bool :=
  if (medianTimePast <=? Seconds sequenceLock) || (blockHeight <=? sl_BlockHeight sequenceLock)
  then false else true.

(** Go's division truncates; the shift count is converted to an unsigned
    number, so a negative quotient shifts everything out. *)
Definition CalcBlockSubsidy (height SubsidyReductionInterval : Z) : Z :=
  if SubsidyReductionInterval =? 0 then baseSubsidy
  else Z.shiftr baseSubsidy (u64 (Z.quot height SubsidyReductionInterval)).

(** The loop over the outputs, with the running int64 total. *)
Fixpoint check_outputs (totalSatoshi : Z) (outs : list TxOut) : result rule_error unit :=
  match outs with
  | [] => Ok tt
  | txOut :: outs =>
      let satoshi := to_Value txOut in
      if satoshi <? 0 then Err ErrBadTxOutValue
      else if MaxSatoshi <? satoshi then Err ErrBadTxOutValue
      else
        let totalSatoshi := i64 (totalSatoshi + satoshi) in
        if totalSatoshi <? 0 then Err ErrBadTxOutValue
        else if MaxSatoshi <? totalSatoshi then Err ErrBadTxOutValue
        else check_outputs totalSatoshi outs
  end.

(** A loop that records elements in a map and fails on one it has seen. *)
Fixpoint check_distinct {A} `{EqDecision A} (seen : list A) (e : rule_error) (l : list A)
  : result rule_error unit :=
  match l with
  | [] => Ok tt
  | a :: l => if bool_decide (a ∈ seen) then Err e else check_distinct (a :: seen) e l
  end.

Definition CheckTransactionSanity (msgTx : MsgTx) : result rule_error unit :=
  if zlen (tx_TxIn msgTx) =? 0 then Err ErrNoTxInputs
  else if zlen (tx_TxOut msgTx) =? 0 then Err ErrNoTxOutputs
  else if MaxBlockBaseSize <? MsgTx_SerializeSizeStripped msgTx then Err ErrTxTooBig
  else
    let* _ := check_outputs 0 (tx_TxOut msgTx) in
    let* _ := check_distinct [] ErrDuplicateTxInputs (map ti_PreviousOutPoint (tx_TxIn msgTx)) in
    if IsCoinBaseTx msgTx then
      match tx_TxIn msgTx with
      | i :: _ =>
          let slen := zlen (ti_SignatureScript i) in
          if (slen <? MinCoinbaseScriptLen) || (MaxCoinbaseScriptLen <? slen)
          then Err ErrBadCoinbaseScriptLen else Ok tt
      | [] => Panic
      end
    else if existsb (fun txIn => isNullOutpoint (ti_PreviousOutPoint txIn)) (tx_TxIn msgTx)
         then Err ErrBadTxInput else Ok tt.

Definition CountSigOps (msgTx : MsgTx) : Z :=
  sumZ (fun txIn => GetSigOpCount (ti_SignatureScript txIn)) (tx_TxIn msgTx)
  + sumZ (fun txOut => GetSigOpCount (to_PkScript txOut)) (tx_TxOut msgTx).

(** ** Blocks and candidates, without context *)

Fixpoint check_all (check : MsgTx -> result rule_error unit) (txs : list MsgTx)
  : result rule_error unit :=
  match txs with
  | [] => Ok tt
  | tx :: txs => let* _ := check tx in check_all check txs
  end.

Fixpoint check_sigops (totalSigOps : Z) (txs : list MsgTx) : result rule_error unit :=
  match txs with
  | [] => Ok tt
  | tx :: txs =>
      let lastSigOps := totalSigOps in
      let totalSigOps := i64 (totalSigOps + CountSigOps tx * WitnessScaleFactor) in
      if (totalSigOps <? lastSigOps) || (MaxBlockSigOpsCost <? totalSigOps)
      then Err ErrTooManySigOps else check_sigops totalSigOps txs
  end.

Section Checks.
Context `{HashFunctions} `{Curve} `{Platform}.

(** The part [checkBlockSanity] and [checkCandidateSanity] share after the
    header check: the same statements on the transactions of either message. *)
Definition check_body_sanity (header : BlockHeader) (transactions : list MsgTx) (serializedSize : Z)
  : result rule_error unit :=
  let numTx := zlen transactions in
  if numTx =? 0 then Err ErrNoTransactions
  else if MaxBlockBaseSize <? numTx then Err ErrBlockTooBig
  else if MaxBlockBaseSize <? serializedSize then Err ErrBlockTooBig
  else match transactions with
  | [] => Panic
  | first :: others =>
      if negb (IsCoinBaseTx first) then Err ErrFirstTxNotCoinbase
      else if existsb IsCoinBaseTx others then Err ErrMultipleCoinbases
      else
        let* _ := check_all CheckTransactionSanity transactions in
        let* calculatedMerkleRoot :=
          match merkle_root_of (BuildMerkleTreeStore transactions false) with
          | Some root => Ok root | None => Panic
          end in
        if negb (bool_decide (bh_MerkleRoot header = calculatedMerkleRoot)) then Err ErrBadMerkleRoot
        else
          let* _ := check_distinct [] ErrDuplicateTx (map TxHash transactions) in
          check_sigops 0 transactions
  end.

(** The weight of a candidate: its place in the lottery of the round. *)
Definition candidate_weight (c : MsgCandidate) : Z := sig_weight (bh_Signature (mc_Header c)).

(** [GetMinWeightBlock] of blockchain/process.go over the candidates of the
    current pool in the order the map is iterated. *)
Definition GetMinWeightBlock (pool : list MsgCandidate) : option MsgCandidate * Z :=
  fold_left (fun acc v =>
    let weight := candidate_weight v in
    if weight <? acc.2 then (Some v, weight) else acc) pool (None, 2 ^ 256).

(** [pool] is the current candidate pool [GetMinWeightBlock] reads.  The test
    that the timestamp has whole seconds always holds, since the model's
    timestamps, like those of the wire format, are seconds. *)
Definition checkBlockHeaderSanity (pool : list MsgCandidate) (header : BlockHeader) (seed : Hash)
    (pi : Z) : result rule_error bool :=
  let* pubKey := match ParsePubKey (bh_PublicKey header) with
                 | Ok k => Ok (Some k) | Err _ => Err ErrInvalidTime | Panic => Panic end in
  let signBytes := bh_Signature header in
  let* sig := GetSignature signBytes in
  let* b := Verify sig seed pubKey in
  if negb b then Err ErrInvalidTime
  else
    let weight := sig_weight signBytes in
    if pi <=? weight then Err ErrInvalidTime
    else
      let w := (GetMinWeightBlock pool).2 in
      Ok (weight <? w).

Definition checkBlockSanity (pool : list MsgCandidate) (block : MsgBlock) (seed : Hash) (pi : Z)
  : result rule_error unit :=
  let* _ := checkBlockHeaderSanity pool (mb_Header block) seed pi in
  check_body_sanity (mb_Header block) (mb_Transactions block) (MsgBlock_SerializeSizeStripped block).

Definition MsgCandidate_SerializeSizeStripped (msg : MsgCandidate) : Z :=
  blockHeaderLen + VarIntSerializeSize (zlen (mc_Transactions msg))
  + sumZ MsgTx_SerializeSizeStripped (mc_Transactions msg).

Definition checkCandidateSanity (pool : list MsgCandidate) (msg : MsgCandidate) (seed : Hash) (pi : Z)
  : result rule_error bool :=
  let* vb := checkBlockHeaderSanity pool (mc_Header msg) seed pi in
  let* _ := check_body_sanity (mc_Header msg) (mc_Transactions msg)
              (MsgCandidate_SerializeSizeStripped msg) in
  Ok vb.

(** ** Contextual checks *)

(** [binary.LittleEndian.Uint64] of the height bytes copied into 8 bytes. *)
Definition ExtractCoinbaseHeight (coinbaseTx : MsgTx) : result rule_error Z :=
  match tx_TxIn coinbaseTx with
  | [] => Panic
  | i :: _ =>
      match ti_SignatureScript i with
      | [] => Err ErrMissingCoinbaseHeight
      | b0 :: rest =>
          let op := Z_of_byte b0 in
          if op =? OP_0 then Ok 0
          else if (OP_1 <=? op) && (op <=? OP_16) then Ok (i32 (op - (OP_1 - 1)))
          else if zlen rest <? op then Err ErrMissingCoinbaseHeight
          else Ok (i32 (le_value (take 8 (take (Z.to_nat op) rest))))
      end
  end.

Definition checkSerializedHeight (coinbaseTx : MsgTx) (wantHeight : Z) : result rule_error unit :=
  let* serializedHeight := ExtractCoinbaseHeight coinbaseTx in
  if negb (serializedHeight =? wantHeight) then Err ErrBadCoinbaseHeight else Ok tt.

(** The votes and scales [checkBlockHeaderContext] collects: those of the
    previous node, then nine times the walk [blockNode.Ancestor(1)]. *)
Fixpoint collect_ancestors (n : nat) (node : option blockNode) : list blockNode :=
  match n, node with
  | S n, Some b => b :: collect_ancestors n (Ancestor b 1)
  | _, _ => []
  end.

Definition context_nodes (prevNode : blockNode) : list blockNode :=
  prevNode :: collect_ancestors 9 (Ancestor prevNode 1).

Definition checkBlockHeaderContext (header : BlockHeader) (prevNode : blockNode)
  : result rule_error unit :=
  let seed := DoubleHashB (nd_signature (node_data prevNode)) in
  let signB := bh_Signature header in
  let* signature := GetSignature signB in
  let* pubKey := match ParsePubKey (bh_PublicKey header) with
                 | Ok k => Ok (Some k) | Err e => Err (KeyError e) | Panic => Panic end in
  let* ok := Verify signature seed pubKey in
  if negb ok then Err ErrUnexpectedDifficulty
  else
    let weight := sig_weight signB in
    let nodes := context_nodes prevNode in
    let scale := EstimateScale (map Votes nodes) (map scale nodes) in
    let* Pi := BlockVerge scale in
    if Pi <=? weight then Err ErrUnexpectedDifficulty
    else
      let medianTime := CalcPastMedianTime prevNode in
      if negb (medianTime <? bh_Timestamp header) then Err ErrTimeTooOld else Ok tt.

Definition checkBlockContext (block : MsgBlock) (prevNode : blockNode) : result rule_error unit :=
  let* _ := checkBlockHeaderContext (mb_Header block) prevNode in
  let blockTime := CalcPastMedianTime prevNode in
  let blockHeight := i32 (height prevNode + 1) in
  let* _ := check_all (fun tx =>
    if negb (IsFinalizedTransaction tx blockHeight blockTime) then Err ErrUnfinalizedTx else Ok tt)
    (mb_Transactions block) in
  match mb_Transactions block with
  | [] => Panic
  | coinbaseTx :: _ => checkSerializedHeight coinbaseTx blockHeight
  end.

End Checks.

(** ** Lemmas *)

Lemma MaxSatoshi_val : MaxSatoshi = 2100000000000000. Proof. reflexivity. Qed.

Lemma check_outputs_iff t outs :
  0 <= t <= MaxSatoshi ->
  check_outputs t outs = Ok tt <->
  Forall (fun o => 0 <= to_Value o <= MaxSatoshi) outs /\ t + sumZ to_Value outs <= MaxSatoshi.
Proof.
  pose proof MaxSatoshi_val as Hm.
  revert t. induction outs as [|o outs IH]; intros t Ht; cbn -[MaxSatoshi sumZ i64].
  - cbn. split; [split; [constructor|lia]|easy].
  - change (sumZ to_Value (o :: outs)) with (to_Value o + sumZ to_Value outs).
    rewrite Forall_cons_iff. case_if; [split; [easy|]; intros [[? _] _]; lia|].
    case_if; [split; [easy|]; intros [[? _] _]; lia|].
    rewrite i64_small by (widths; lia).
    assert (Hnn : Forall (fun o => 0 <= to_Value o <= MaxSatoshi) outs -> 0 <= sumZ to_Value outs).
    { clear. induction 1 as [|x l Hx _ IHl]; cbn; [lia|]. unfold sumZ in IHl. lia. }
    case_if; [lia|]. case_if.
    + split; [easy|]. intros [[_ Hall] Hsum]. specialize (Hnn Hall). lia.
    + rewrite IH by lia. split; intros [Hall Hsum].
      * split; [split; [lia|easy]|lia].
      * split; [apply Hall|lia].
Qed.

Lemma check_distinct_iff {A} `{EqDecision A} seen e (l : list A) :
  check_distinct seen e l = Ok tt <-> NoDup l /\ (forall a, a ∈ l -> a ∉ seen).
Proof.
  revert seen. induction l as [|a l IH]; intros seen; cbn.
  - split; [|easy]. intros _. split; [constructor|]. intros a Ha. now apply list.not_elem_of_nil in Ha.
  - rewrite list.NoDup_cons. case_bool_decide as Ha.
    + split; [easy|]. intros [_ Hno]. destruct (Hno a); [left|easy].
    + rewrite IH. split.
      * intros [Hnd Hno]. split.
        -- split; [|easy]. intros Hin. apply (Hno a Hin). left.
        -- intros x Hx. apply list.elem_of_cons in Hx as [->|Hx]; [easy|].
           intros Hs. apply (Hno x Hx). now right.
      * intros [[Hnin Hnd] Hno]. split; [easy|]. intros x Hx Hs.
        apply list.elem_of_cons in Hs as [->|Hs]; [easy|]. apply (Hno x); [now right|easy].
Qed.

Lemma IsCoinBaseTx_inv tx :
  IsCoinBaseTx tx = true ->
  exists i, tx_TxIn tx = [i] /\ isNullOutpoint (ti_PreviousOutPoint i) = true.
Proof.
  unfold IsCoinBaseTx, isNullOutpoint. destruct (tx_TxIn tx) as [|i [|]]; try discriminate.
  intros Hc. exists i. split; [easy|]. destruct (_ =? _), (bool_decide _); easy.
Qed.

(** What [CheckTransactionSanity] is to guarantee. *)
Record tx_sane (tx : MsgTx) : Prop := {
  sane_inputs : tx_TxIn tx <> [];
  sane_outputs : tx_TxOut tx <> [];
  sane_size : MsgTx_SerializeSizeStripped tx <= MaxBlockBaseSize;
  sane_values : Forall (fun o => 0 <= to_Value o <= MaxSatoshi) (tx_TxOut tx);
  sane_total : sumZ to_Value (tx_TxOut tx) <= MaxSatoshi;
  sane_distinct : NoDup (map ti_PreviousOutPoint (tx_TxIn tx));
  sane_script :
    if IsCoinBaseTx tx
    then Forall (fun i => MinCoinbaseScriptLen <= zlen (ti_SignatureScript i) <= MaxCoinbaseScriptLen)
                (tx_TxIn tx)
    else Forall (fun i => isNullOutpoint (ti_PreviousOutPoint i) = false) (tx_TxIn tx)
}.

Lemma existsb_false_Forall {A} (f : A -> bool) l :
  existsb f l = false <-> Forall (fun x => f x = false) l.
Proof.
  induction l as [|x l IH]; cbn; [split; [constructor|easy]|].
  rewrite orb_false_iff, IH, Forall_cons_iff. easy.
Qed.

Lemma zlen_zero {A} (l : list A) : (zlen l =? 0) = true <-> l = [].
Proof. unfold zlen. destruct l; cbn; split; intros; try easy; lia. Qed.

Lemma rbind_tt {E B} (c : result E unit) (k : result E B) b :
  (let* _ := c in k) = Ok b <-> c = Ok tt /\ k = Ok b.
Proof. destruct c as [[]| |]; cbn; split; easy. Qed.

Lemma coinbase_script_check (tx : MsgTx) :
  (if IsCoinBaseTx tx then
      match tx_TxIn tx with
      | i :: _ =>
          let slen := zlen (ti_SignatureScript i) in
          if (slen <? MinCoinbaseScriptLen) || (MaxCoinbaseScriptLen <? slen)
          then Err ErrBadCoinbaseScriptLen else Ok tt
      | [] => Panic
      end
    else if existsb (fun txIn => isNullOutpoint (ti_PreviousOutPoint txIn)) (tx_TxIn tx)
         then Err ErrBadTxInput else Ok tt) = Ok tt <->
  if IsCoinBaseTx tx
  then Forall (fun i => MinCoinbaseScriptLen <= zlen (ti_SignatureScript i) <= MaxCoinbaseScriptLen)
              (tx_TxIn tx)
  else Forall (fun i => isNullOutpoint (ti_PreviousOutPoint i) = false) (tx_TxIn tx).
Proof.
  destruct (IsCoinBaseTx tx) eqn:Hcb.
  - destruct (IsCoinBaseTx_inv tx Hcb) as (i & -> & _). rewrite list.Forall_singleton. cbv zeta.
    case_if; [split; [easy|]; lia|]. split; [lia|easy].
  - rewrite <- existsb_false_Forall. case_if; split; congruence.
Qed.

Lemma CheckTransactionSanity_iff tx : CheckTransactionSanity tx = Ok tt <-> tx_sane tx.
Proof.
  unfold CheckTransactionSanity.
  destruct (zlen (tx_TxIn tx) =? 0) eqn:Hi.
  { apply zlen_zero in Hi. split; [easy|]. intros []. easy. }
  destruct (zlen (tx_TxOut tx) =? 0) eqn:Ho.
  { apply zlen_zero in Ho. split; [easy|]. intros []. easy. }
  case_if; [split; [easy|]; intros []; lia|].
  rewrite !rbind_tt, check_outputs_iff, check_distinct_iff, coinbase_script_check
    by (rewrite MaxSatoshi_val; lia).
  split.
  - intros ((Hv & Ht) & (Hd & _) & Hs). constructor; try easy.
    + intros Hn. now rewrite Hn in Hi.
    + intros Hn. now rewrite Hn in Ho.
  - intros []. split; [split; [easy|lia]|]. split; [split; [easy|]|easy].
    intros a _. apply list.not_elem_of_nil.
Qed.

(** *** The minimum weight of the pool *)

Section Weights.
Context `{HashFunctions}.

Lemma min_fold pool acc w :
  let r := fold_left (fun acc v =>
    let weight := candidate_weight v in
    if weight <? acc.2 then (Some v, weight) else acc) pool (acc, w) in
  r.2 <= w /\ Forall (fun c => r.2 <= candidate_weight c) pool
  /\ (r = (acc, w) \/ exists c, In c pool /\ r = (Some c, candidate_weight c)).
Proof.
  revert acc w. induction pool as [|c pool IH]; intros acc w; cbn; [auto using Z.le_refl|].
  destruct (candidate_weight c <? w) eqn:Hlt; bool_to_Z; cbn in IH.
  - destruct (IH (Some c) (candidate_weight c)) as (H1 & H2 & H3). split; [lia|].
    split; [constructor; easy|]. right. destruct H3 as [->|(c' & Hin & ->)]; eauto.
  - destruct (IH acc w) as (H1 & H2 & H3). split; [lia|]. split; [constructor; [lia|easy]|].
    destruct H3 as [->|(c' & Hin & ->)]; eauto.
Qed.

Lemma candidate_weight_range c : 0 <= candidate_weight c < 2 ^ 256.
Proof. apply sig_weight_range. Qed.

(** A weight passes the test of [checkBlockHeaderSanity] exactly when it is
    below all those of the pool. *)
Lemma min_weight_lt pool w :
  w < 2 ^ 256 ->
  (w <? (GetMinWeightBlock pool).2) = true <-> Forall (fun c => w < candidate_weight c) pool.
Proof.
  intros Hw. pose proof (min_fold pool None (2 ^ 256)) as Hm.
  change (fold_left _ pool _) with (GetMinWeightBlock pool) in Hm. cbv zeta in Hm.
  destruct Hm as (H1 & H2 & H3). rewrite Z.ltb_lt. split.
  - intros Hlt. eapply List.Forall_impl; [|exact H2]. intros c Hc. cbv beta in Hc. lia.
  - intros Hall. destruct H3 as [->|(c & Hin & ->)]; [easy|]. cbn.
    rewrite List.Forall_forall in Hall. now apply Hall.
Qed.

End Weights.

(** *** The subsidy *)

Definition supply (interval : Z) (n : nat) : Z :=
  sumZ (fun h => CalcBlockSubsidy (Z.of_nat h) interval) (seq 0 n).

Lemma supply_succ interval n :
  supply interval (S n) = supply interval n + CalcBlockSubsidy (Z.of_nat n) interval.
Proof. unfold supply. rewrite seq_S, sumZ_app. cbn. lia. Qed.

Lemma subsidy_eq interval n :
  0 < interval -> Z.of_nat n < 2 ^ 64 ->
  CalcBlockSubsidy (Z.of_nat n) interval = baseSubsidy / 2 ^ (Z.of_nat n / interval).
Proof.
  intros Hi Hn. unfold CalcBlockSubsidy. case_if; [lia|].
  rewrite Z.quot_div_nonneg by lia.
  assert (0 <= Z.of_nat n / interval <= Z.of_nat n) by (split; [apply Z.div_pos; lia|];
    apply Z.div_le_upper_bound; nia).
  rewrite u64_small by (widths; lia). now rewrite Z.shiftr_div_pow2 by lia.
Qed.

Lemma supply_bound interval n :
  0 < interval -> Z.of_nat n < 2 ^ 64 ->
  let k := Z.of_nat n / interval in
  supply interval n <= 2 * interval * baseSubsidy - 2 * interval * (baseSubsidy / 2 ^ k)
                       + (Z.of_nat n - k * interval) * (baseSubsidy / 2 ^ k).
Proof.
  intros Hi. induction n as [|n IH]; intros Hn; cbv zeta.
  - rewrite Z.div_0_l by lia. cbn -[baseSubsidy]. rewrite Z.div_1_r. lia.
  - rewrite supply_succ, subsidy_eq by lia. specialize (IH ltac:(lia)). cbv zeta in IH.
    set (k := Z.of_nat n / interval) in *. set (b := baseSubsidy) in *.
    pose proof (Z.div_mod (Z.of_nat n) interval ltac:(lia)) as Hdm. fold k in Hdm.
    pose proof (Z.mod_pos_bound (Z.of_nat n) interval Hi) as Hmod.
    assert (0 <= k) by (apply Z.div_pos; lia).
    assert (Hb : 0 <= b / 2 ^ k) by (apply Z.div_pos; [unfold b, baseSubsidy, SatoshiPerBitcoin; lia|lia]).
    destruct (Z.eq_dec (Z.of_nat n mod interval) (interval - 1)) as [Hlast|Hin].
    + assert (Hk : Z.of_nat (S n) / interval = k + 1).
      { symmetry. apply Z.div_unique with 0; lia. }
      rewrite Hk. assert (Hhalf : 2 * (b / 2 ^ (k + 1)) <= b / 2 ^ k).
      { rewrite Z.pow_add_r, <- Z.div_div by lia. change (2 ^ 1) with 2.
        apply Z.mul_div_le. lia. }
      replace (Z.of_nat (S n) - (k + 1) * interval) with 0 by lia.
      assert (Hn' : Z.of_nat n - k * interval = interval - 1) by lia. rewrite Hn' in IH. nia.
    + assert (Hk : Z.of_nat (S n) / interval = k).
      { symmetry. apply Z.div_unique with (Z.of_nat n mod interval + 1); lia. }
      rewrite Hk. replace (Z.of_nat (S n)) with (Z.of_nat n + 1) by lia. nia.
Qed.

(** *** The nodes of the contextual check *)

Lemma collect_ancestors_fixed n b :
  Ancestor b 1 = Some b -> collect_ancestors n (Some b) = replicate n b.
Proof. intros Hb. induction n as [|n IH]; [easy|]. cbn -[Ancestor]. now rewrite Hb, IH. Qed.

(** *** Signature operations are bounded by the size *)

Lemma sigop_loop_bound prev pops : sigop_loop false prev pops <= 20 * zlen pops.
Proof.
  unfold zlen. revert prev. induction pops as [|pop pops IH]; intros prev; cbn -[Z.add Z.mul]; [lia|].
  specialize (IH (Some pop)). unfold MaxPubKeysPerMultiSig. cbn [andb].
  destruct (_ || _); [lia|]. destruct (_ || _); [|lia]. destruct prev; lia.
Qed.

Lemma parse_loop_length fuel script pops err :
  parse_loop opcodeArray fuel script = Some (pops, err) -> (length pops <= length script)%nat.
Proof.
  revert script pops. induction fuel as [|fuel IH]; intros [|instr rest] pops Hp; cbn in Hp;
    try discriminate; try (injection Hp as <- <-; cbn; lia).
  destruct (parse_one opcodeArray instr rest) as [[pop rest']|e|] eqn:Hone; try discriminate.
  - destruct (parse_loop opcodeArray fuel rest') as [[ps e]|] eqn:Hloop; [|discriminate].
    injection Hp as <- ->. apply IH in Hloop.
    destruct (parse_one_sound _ _ _ _ Hone) as (b & _ & Heq & Hb).
    rewrite Heq, length_app. destruct b; [easy|]. cbn. lia.
  - injection Hp as <- <-. cbn. lia.
Qed.

Lemma GetSigOpCount_bound script : 0 <= GetSigOpCount script <= 20 * zlen script.
Proof.
  unfold GetSigOpCount, getSigOpCount, parseScript, parseScriptTemplate.
  destruct (parse_loop_total (length script) script (le_n _)) as [[pops err] Hp].
  rewrite Hp. cbn. apply parse_loop_length in Hp.
  pose proof (sigop_loop_bound None pops). pose proof (sigop_loop_le None pops).
  unfold zlen in *. lia.
Qed.

Lemma VarIntSerializeSize_pos v : 0 <= VarIntSerializeSize v.
Proof. unfold VarIntSerializeSize. repeat case_if; lia. Qed.

Lemma sumZ_le {A} (f g : A -> Z) l : (forall a, f a <= g a) -> sumZ f l <= sumZ g l.
Proof. intros Hfg. unfold sumZ. induction l as [|a l IH]; cbn; [lia|]. specialize (Hfg a). lia. Qed.

Lemma sumZ_scale {A} k (f : A -> Z) l : sumZ (fun a => k * f a) l = k * sumZ f l.
Proof. unfold sumZ. induction l as [|a l IH]; cbn [foldr]; lia. Qed.

Lemma sumZ_nonneg {A} (f : A -> Z) l : (forall a, 0 <= f a) -> 0 <= sumZ f l.
Proof. intros Hf. unfold sumZ. induction l as [|a l IH]; cbn; [lia|]. specialize (Hf a). lia. Qed.

Lemma CountSigOps_bound tx : 0 <= CountSigOps tx <= 20 * MsgTx_SerializeSizeStripped tx.
Proof.
  unfold CountSigOps, MsgTx_SerializeSizeStripped, baseSize.
  pose proof (VarIntSerializeSize_pos (zlen (tx_TxIn tx))).
  pose proof (VarIntSerializeSize_pos (zlen (tx_TxOut tx))).
  pose proof (sumZ_nonneg (fun i => GetSigOpCount (ti_SignatureScript i)) (tx_TxIn tx)
                (fun i => proj1 (GetSigOpCount_bound _))).
  pose proof (sumZ_nonneg (fun o => GetSigOpCount (to_PkScript o)) (tx_TxOut tx)
                (fun i => proj1 (GetSigOpCount_bound _))).
  pose proof (sumZ_le (fun i => GetSigOpCount (ti_SignatureScript i))
                (fun i => 20 * TxIn_SerializeSize i) (tx_TxIn tx)) as Hin.
  pose proof (sumZ_le (fun o => GetSigOpCount (to_PkScript o))
                (fun o => 20 * TxOut_SerializeSize o) (tx_TxOut tx)) as Hout.
  rewrite (sumZ_scale 20) in Hin. rewrite (sumZ_scale 20) in Hout. split; [lia|].
  enough (sumZ (fun i => GetSigOpCount (ti_SignatureScript i)) (tx_TxIn tx)
          <= 20 * sumZ TxIn_SerializeSize (tx_TxIn tx)
          /\ sumZ (fun o => GetSigOpCount (to_PkScript o)) (tx_TxOut tx)
          <= 20 * sumZ TxOut_SerializeSize (tx_TxOut tx)) by lia.
  split; [apply Hin|apply Hout]; intros a.
  - unfold TxIn_SerializeSize. pose proof (GetSigOpCount_bound (ti_SignatureScript a)).
    pose proof (VarIntSerializeSize_pos (zlen (ti_SignatureScript a))). lia.
  - unfold TxOut_SerializeSize. pose proof (GetSigOpCount_bound (to_PkScript a)).
    pose proof (VarIntSerializeSize_pos (zlen (to_PkScript a))). lia.
Qed.

Lemma check_all_iff check txs :
  check_all check txs = Ok tt <-> Forall (fun tx => check tx = Ok tt) txs.
Proof.
  induction txs as [|tx txs IH]; cbn; [easy|]. now rewrite rbind_tt, Forall_cons_iff, IH.
Qed.

Lemma check_sigops_bound t txs :
  0 <= t <= MaxBlockSigOpsCost -> Forall tx_sane txs -> check_sigops t txs = Ok tt ->
  t + WitnessScaleFactor * sumZ CountSigOps txs <= MaxBlockSigOpsCost.
Proof.
  intros Ht Hall. revert t Ht. induction Hall as [|tx txs Htx _ IH]; intros t Ht Hc.
  - cbn. lia.
  - cbn -[i64 MaxBlockSigOpsCost] in Hc. pose proof (CountSigOps_bound tx).
    pose proof (sane_size _ Htx). unfold MaxBlockBaseSize, MaxBlockSigOpsCost, WitnessScaleFactor in *.
    rewrite i64_small in Hc by (widths; lia).
    destruct (_ || _) eqn:Hif in Hc; [discriminate|]. bool_to_Z.
    specialize (IH (t + CountSigOps tx * 4) ltac:(lia) Hc). unfold sumZ in *. cbn [foldr]. lia.
Qed.

Lemma check_body_inv `{HashFunctions} header txs size :
  check_body_sanity header txs size = Ok tt ->
  exists first others, txs = first :: others /\ IsCoinBaseTx first = true
    /\ Forall (fun tx => IsCoinBaseTx tx = false) others
    /\ Forall tx_sane txs
    /\ Some (bh_MerkleRoot header) = ref_root (length txs) (map TxHash txs)
    /\ NoDup (map TxHash txs)
    /\ WitnessScaleFactor * sumZ CountSigOps txs <= MaxBlockSigOpsCost
    /\ zlen txs <= MaxBlockBaseSize /\ size <= MaxBlockBaseSize.
Proof.
  unfold check_body_sanity. destruct (zlen txs =? 0); [discriminate|].
  destruct (Z.ltb_spec MaxBlockBaseSize (zlen txs)) as [|Hcount]; [discriminate|].
  destruct (Z.ltb_spec MaxBlockBaseSize size) as [|Hsize]; [discriminate|].
  destruct txs as [|first others]; [discriminate|].
  destruct (IsCoinBaseTx first) eqn:Hcb; [cbn [negb]|discriminate].
  case_if; [discriminate|]. intros Hc. apply rbind_tt in Hc as [Hall Hc].
  apply check_all_iff in Hall.
  assert (Hsane : Forall tx_sane (first :: others)).
  { eapply List.Forall_impl; [|exact Hall]. intros tx. apply CheckTransactionSanity_iff. }
  pose proof (merkle_root_leaves (first :: others) (leaf false) ltac:(discriminate)) as Hroot.
  cbv zeta in Hroot. change (merkle_loop _ _ _ _)
    with (BuildMerkleTreeStore (first :: others) false) in Hroot.
  rewrite Hroot in Hc.
  destruct (ref_root _ _) as [root|] eqn:Hr in Hc; cbn [rbind] in Hc; [|discriminate].
  destruct (bool_decide _) eqn:Hd in Hc; [cbn [negb] in Hc|discriminate].
  apply bool_decide_eq_true in Hd. apply rbind_tt in Hc as [Hdist Hs].
  exists first, others. repeat (split; [easy|]). split; [now apply existsb_false_Forall|].
  split; [easy|]. split; [|split; [|split; [|easy]]].
  - rewrite Hd, <- Hr. f_equal. apply list_eq. intros i.
    now rewrite list_lookup_imap, list_lookup_fmap.
  - now apply check_distinct_iff in Hdist.
  - pose proof (check_sigops_bound 0 (first :: others) ltac:(unfold MaxBlockSigOpsCost; lia) Hsane Hs).
    lia.
Qed.

Lemma GetSignature_ok {E} s : hash64_ok s -> exists sig, GetSignature (E := E) s = Ok sig.
Proof.
  intros Hs. unfold hash64_ok, Hash64Size in Hs. unfold GetSignature.
  destruct (slice_ok (E := E) s 0 32) as (r & -> & _); [lia|]. cbn [rbind].
  destruct (slice_ok (E := E) s 32 64) as (t & -> & _); [lia|]. cbn [rbind]. eauto.
Qed.

Lemma header_sanity_ok `{HashFunctions} `{Curve} pool header seed pi :
  hash64_ok (bh_Signature header) ->
  exists sig, GetSignature (E := rule_error) (bh_Signature header) = Ok sig /\
  match checkBlockHeaderSanity pool header seed pi with
  | Ok vb => exists key, ParsePubKey (bh_PublicKey header) = Ok key
      /\ ecdsa_Verify key seed (sig_R sig) (sig_S sig) = true
      /\ sig_weight (bh_Signature header) < pi
      /\ (vb = true <-> Forall (fun c => sig_weight (bh_Signature header) < candidate_weight c) pool)
  | Err e => e = ErrInvalidTime
      /\ forall key, ParsePubKey (bh_PublicKey header) = Ok key ->
         ecdsa_Verify key seed (sig_R sig) (sig_S sig) = false
         \/ pi <= sig_weight (bh_Signature header)
  | Panic => False
  end.
Proof.
  intros Hs. destruct (GetSignature_ok (E := rule_error) _ Hs) as [sig Hsig].
  exists sig. split; [easy|]. unfold checkBlockHeaderSanity.
  pose proof (ParsePubKey_no_panic (bh_PublicKey header)) as Hnp.
  destruct (ParsePubKey _) as [key|e|]; [|cbn; split; [easy|discriminate]|easy].
  cbn [rbind]. rewrite Hsig. cbn [rbind Verify].
  destruct (ecdsa_Verify _ _ _ _) eqn:Hv; cbn [negb].
  - case_if.
    + split; [easy|]. intros k [= <-]. now right.
    + exists key. repeat (split; [easy|]). apply min_weight_lt, sig_weight_range.
  - split; [easy|]. intros k [= <-]. now left.
Qed.

(** ** Properties *)

(** C37: a transaction passes [CheckTransactionSanity] exactly when it has
    inputs and outputs, fits the size limit, every output value and their exact
    sum lie between 0 and the maximum (the int64 accumulator cannot be made to
    overflow), no output is spent twice, and the coinbase rules hold. *)
Theorem CheckTransactionSanity_spec tx : CheckTransactionSanity tx = Ok tt <-> tx_sane tx.
Proof. apply CheckTransactionSanity_iff. Qed.

(** C38: a candidate that [checkCandidateSanity] accepts starts with its only
    coinbase, consists of sane, pairwise different transactions whose merkle
    root is the one of its header, stays within the limit on the cost of
    signature operations (computed without overflow), and has at most as many
    transactions, and a stripped size of at most as many bytes, as the limit
    on the base size of a block. *)
Theorem checkCandidateSanity_accepts `{HashFunctions} `{Curve} pool msg seed pi vb :
  checkCandidateSanity pool msg seed pi = Ok vb ->
  exists first others, mc_Transactions msg = first :: others /\ IsCoinBaseTx first = true
    /\ Forall (fun tx => IsCoinBaseTx tx = false) others
    /\ Forall tx_sane (mc_Transactions msg)
    /\ Some (bh_MerkleRoot (mc_Header msg))
       = ref_root (length (mc_Transactions msg)) (map TxHash (mc_Transactions msg))
    /\ NoDup (map TxHash (mc_Transactions msg))
    /\ WitnessScaleFactor * sumZ CountSigOps (mc_Transactions msg) <= MaxBlockSigOpsCost
    /\ zlen (mc_Transactions msg) <= MaxBlockBaseSize
    /\ MsgCandidate_SerializeSizeStripped msg <= MaxBlockBaseSize.
Proof.
  unfold checkCandidateSanity. destruct (checkBlockHeaderSanity _ _ _ _) as [b| |]; try discriminate.
  cbn [rbind]. intros Hc. apply rbind_tt in Hc as [Hc _]. now apply check_body_inv in Hc.
Qed.

(** the header check of a round never crashes on a header of the right
    shape and accepts it exactly when the public key parses, the signature of
    the seed verifies and the weight is below the threshold; the node then
    votes exactly when the weight is below that of every candidate it has. *)
Theorem checkBlockHeaderSanity_spec `{HashFunctions} `{Curve} pool header seed pi :
  hash64_ok (bh_Signature header) ->
  exists sig, GetSignature (E := rule_error) (bh_Signature header) = Ok sig /\
  match checkBlockHeaderSanity pool header seed pi with
  | Ok vb => exists key, ParsePubKey (bh_PublicKey header) = Ok key
      /\ ecdsa_Verify key seed (sig_R sig) (sig_S sig) = true
      /\ sig_weight (bh_Signature header) < pi
      /\ (vb = true <-> Forall (fun c => sig_weight (bh_Signature header) < candidate_weight c) pool)
  | Err e => e = ErrInvalidTime
      /\ forall key, ParsePubKey (bh_PublicKey header) = Ok key ->
         ecdsa_Verify key seed (sig_R sig) (sig_S sig) = false
         \/ pi <= sig_weight (bh_Signature header)
  | Panic => False
  end.
Proof. apply header_sanity_ok. Qed.

Lemma supply_total n :
  Z.of_nat n < 2 ^ 31 -> supply 210000 n <= MaxSatoshi.
Proof.
  intros Hn. pose proof (supply_bound 210000 n ltac:(lia) ltac:(lia)) as Hb. cbv zeta in Hb.
  set (k := Z.of_nat n / 210000) in *. set (r := baseSubsidy / 2 ^ k) in *.
  pose proof (Z.div_mod (Z.of_nat n) 210000 ltac:(lia)) as Hdm.
  pose proof (Z.mod_pos_bound (Z.of_nat n) 210000 ltac:(lia)) as Hm. fold k in Hdm.
  assert (0 <= r) by (apply Z.div_pos; [easy|]; apply Z.pow_pos_nonneg; [lia|apply Z.div_pos; lia]).
  replace MaxSatoshi with (2 * 210000 * baseSubsidy) by reflexivity. nia.
Qed.

(** the money supply: however many blocks are mined (heights are int32),
    the subsidies of the main network add up to at most [MaxSatoshi]. *)
Theorem subsidy_total_bounded n :
  Z.of_nat n < 2 ^ 31 -> supply 210000 n <= MaxSatoshi.
Proof. apply supply_total. Qed.

(** the contextual header check does not look at the recent blocks: beyond
    the previous block, the nine votes and scales it averages are all those of
    the block at height 1. *)
Theorem context_nodes_height_one prevNode :
  chain_ok prevNode -> 1 <= height prevNode ->
  exists b, Ancestor prevNode 1 = Some b /\ height b = 1
            /\ context_nodes prevNode = prevNode :: replicate 9 b.
Proof.
  intros Hok Hh. unfold context_nodes, Ancestor at 1 2. case_if; [lia|].
  rewrite ancestor_walk_chain by (try easy; lia).
  destruct (chain_of prevNode !! Z.to_nat (height prevNode - 1)) as [b|] eqn:Hb.
  - pose proof (chain_of_height _ _ _ Hok Hb) as Hb1.
    assert (height b = 1) as Hb' by lia. exists b. repeat split; try easy.
    f_equal. apply collect_ancestors_fixed. unfold Ancestor. case_if; [lia|].
    destruct b; cbn; unfold height in Hb'; cbn in Hb'; now rewrite Hb'.
  - apply lookup_ge_None_1 in Hb. pose proof (length_chain_of prevNode Hok). lia.
Qed.

Lemma subsidy_total_bounded_witness : supply 210000 3 <= MaxSatoshi.
Proof. apply (subsidy_total_bounded 3). reflexivity. Defined.

Lemma context_nodes_height_one_witness :
  chain_ok sample_child /\ 1 <= height sample_child /\
  exists b, Ancestor sample_child 1 = Some b /\ height b = 1
            /\ context_nodes sample_child = sample_child :: replicate 9 b.
Proof.
  split; [exact sample_child_ok|]. split; [discriminate|].
  apply (context_nodes_height_one sample_child); [exact sample_child_ok|discriminate].
Defined.

Definition sample_coinbase : MsgTx :=
  mkMsgTx 1 [mkTxIn (mkOutPoint zero_hash MaxUint32) [x01; x02] [] 0] [mkTxOut 5 []] 0.

Definition sample_candidate : MsgCandidate :=
  mkMsgCandidate
    (mkBlockHeader 1 zero_hash (@TxHash prefix_hash_functions sample_coinbase) 1000
       (replicate 64 x00) (SerializeCompressed sample_pubkey) 1 0)
    [sample_coinbase] 1.

Lemma checkCandidateSanity_accepts_witness :
  @checkCandidateSanity prefix_hash_functions accepting_curve [] sample_candidate zero_hash 1 = Ok true
  /\ exists first others, mc_Transactions sample_candidate = first :: others
     /\ IsCoinBaseTx first = true.
Proof.
  assert (Hc : @checkCandidateSanity prefix_hash_functions accepting_curve [] sample_candidate
                 zero_hash 1 = Ok true) by (vm_compute; reflexivity).
  split; [exact Hc|].
  destruct (@checkCandidateSanity_accepts prefix_hash_functions accepting_curve _ _ _ _ _ Hc)
    as (first & others & Ht & Hcb & _).
  exists first, others. split; [exact Ht|exact Hcb].
Defined.

Lemma checkBlockHeaderSanity_spec_witness :
  hash64_ok (bh_Signature (mc_Header sample_candidate)) /\
  exists sig, GetSignature (E := rule_error) (bh_Signature (mc_Header sample_candidate)) = Ok sig.
Proof.
  split; [reflexivity|].
  destruct (@checkBlockHeaderSanity_spec prefix_hash_functions accepting_curve [sample_candidate]
              (mc_Header sample_candidate) zero_hash 1 eq_refl) as (sig & Hsig & _).
  exists sig. exact Hsig.
Defined.
