(* ===== verification/Utxo.v ===== *)
(** * The view of unspent outputs: blockchain/utxoviewpoint.go

    A [UtxoViewpoint] is a map from outpoints to entries that is filled from
    the database on demand, modified by connecting and disconnecting blocks, and
    written back.  An entry of the map can be nil (the output was looked up and
    is not there) and an entry carries flags: coinbase, spent, modified.  The
    entries are pointers in Go, each reachable from one slot of one view only, so
    that the map of their values is the whole state; a view is local to the
    operation that builds it, and is dropped when an operation on it fails.

    The file also has the abstract ledger a view implements: a finite map from
    outpoints to coins, where spending deletes and outputs insert. *)

From S2P Require Import Prelude Chainhash Wire Hash WireMsg Opcode Script Validate.

#[export] Program Instance OutPoint_countable : Countable OutPoint :=
  inj_countable' (fun o => (op_Hash o, op_Index o)) (fun p => mkOutPoint p.1 p.2) _.
Next Obligation. by intros []. Qed.

(** Outpoints as they come off the wire: a hash and a uint32. *)
Definition outpoint_ok (o : OutPoint) : Prop := hash_ok (op_Hash o) /\ is_u32 (op_Index o).

(** ** Entries *)

Definition tfCoinBase : Z := 1.
Definition tfSpent : Z := 2.
Definition tfModified : Z := 4.

Record UtxoEntry := mkUtxoEntry {
  ue_amount : Z; ue_pkScript : list byte; ue_blockHeight : Z; ue_packedFlags : Z
}.

Definition has_flag (flags flag : Z) : bool := Z.land flags flag =? flag.
Definition isModified (entry : UtxoEntry) : bool := has_flag (ue_packedFlags entry) tfModified.
Definition IsCoinBase (entry : UtxoEntry) : bool := has_flag (ue_packedFlags entry) tfCoinBase.
Definition IsSpent (entry : UtxoEntry) : bool := has_flag (ue_packedFlags entry) tfSpent.

Definition with_flags (flags : Z) (entry : UtxoEntry) : UtxoEntry :=
  mkUtxoEntry (ue_amount entry) (ue_pkScript entry) (ue_blockHeight entry) flags.

Definition Spend (entry : UtxoEntry) : UtxoEntry :=
  if IsSpent entry then entry
  else with_flags (Z.lor (ue_packedFlags entry) (Z.lor tfSpent tfModified)) entry.

Definition Clone (entry : option UtxoEntry) : option UtxoEntry :=
  match entry with
  | None => None
  | Some entry => Some (mkUtxoEntry (ue_amount entry) (ue_pkScript entry) (ue_blockHeight entry) (ue_packedFlags entry))
  end.

(** The flags a fresh output gets. *)
Definition fresh_flags (isCoinBase : bool) : Z :=
  if isCoinBase then Z.lor tfModified tfCoinBase else tfModified.

(** ** Views *)

Record UtxoViewpoint := mkUtxoViewpoint {
  entries : gmap OutPoint (option UtxoEntry);
  bestHash : Hash
}.

Definition NewUtxoViewpoint : UtxoViewpoint := mkUtxoViewpoint ∅ zero_hash.

Definition SetBestHash (h : Hash) (view : UtxoViewpoint) : UtxoViewpoint :=
  mkUtxoViewpoint (entries view) h.

Definition set_entry (outpoint : OutPoint) (entry : option UtxoEntry) (view : UtxoViewpoint) : UtxoViewpoint :=
  mkUtxoViewpoint (<[outpoint := entry]> (entries view)) (bestHash view).

Definition LookupEntry (view : UtxoViewpoint) (outpoint : OutPoint) : option UtxoEntry :=
  match entries view !! outpoint with Some e => e | None => None end.

Definition RemoveEntry (outpoint : OutPoint) (view : UtxoViewpoint) : UtxoViewpoint :=
  mkUtxoViewpoint (delete outpoint (entries view)) (bestHash view).

(** All fields of an existing entry are overwritten. *)
Definition addTxOut (outpoint : OutPoint) (txOut : TxOut) (isCoinBase : bool) (blockHeight : Z)
  (view : UtxoViewpoint) : UtxoViewpoint :=
  if IsUnspendable (to_PkScript txOut) then view
  else set_entry outpoint
         (Some (mkUtxoEntry (to_Value txOut) (to_PkScript txOut) blockHeight (fresh_flags isCoinBase))) view.

Record SpentTxOut := mkSpentTxOut {
  st_Amount : Z; st_PkScript : list byte; st_Height : Z; st_IsCoinBase : bool
}.

Definition spent_details (entry : UtxoEntry) : SpentTxOut :=
  mkSpentTxOut (ue_amount entry) (ue_pkScript entry) (ue_blockHeight entry) (IsCoinBase entry).

(** The loop over the inputs of [connectTransaction]; [stxos] is the list the
    pointer argument refers to, or nothing for a nil pointer. *)
Fixpoint spend_inputs (ins : list TxIn) (stxos : option (list SpentTxOut)) (view : UtxoViewpoint)
  : result rule_error (UtxoViewpoint * option (list SpentTxOut)) :=
  match ins with
  | [] => Ok (view, stxos)
  | txIn :: ins =>
      match LookupEntry view (ti_PreviousOutPoint txIn) with
      | None => Err AssertError
      | Some entry =>
          let stxos := match stxos with Some l => Some (l ++ [spent_details entry]) | None => None end in
          spend_inputs ins stxos (set_entry (ti_PreviousOutPoint txIn) (Some (Spend entry)) view)
      end
  end.

(** The unspent outputs the database holds: [dbFetchUtxoEntry] (nil when there
    is none) and [dbFetchUtxoEntryByHash] (some output of the transaction). *)
Class UtxoSource (D : Type) := {
  dbFetchUtxoEntry : D -> OutPoint -> result rule_error (option UtxoEntry);
  dbFetchUtxoEntryByHash : D -> Hash -> result rule_error (option UtxoEntry)
}.

(** The order in which Go iterates over a set of outpoints or the entries of a
    view. *)
Class OutPointOrder := {
  range_set : gset OutPoint -> list OutPoint;
  range_set_perm : forall s, range_set s ≡ₚ elements s;
  range_entries : forall {A}, gmap OutPoint A -> list (OutPoint * A);
  range_entries_perm : forall {A} (m : gmap OutPoint A), range_entries m ≡ₚ map_to_list m
}.
Definition elements_order : OutPointOrder :=
  {| range_set s := elements s; range_set_perm s := Permutation_refl _;
     range_entries A m := map_to_list m; range_entries_perm A m := Permutation_refl _ |}.

Definition MaxBlockWeight : Z := 4000000.
Definition MinTxOutputWeight : Z := WitnessScaleFactor * MinTxOutPayload.
Definition MaxOutputsPerBlock : Z := MaxBlockWeight / MinTxOutputWeight.

Section View.
Context `{HashFunctions} {D : Type} `{UtxoSource D} `{OutPointOrder}.

(** The outpoints of the outputs of a transaction, from index [i]. *)
Definition created_outpoint (tx : MsgTx) (i : nat) : OutPoint := mkOutPoint (TxHash tx) (u32 (Z.of_nat i)).

Definition AddTxOut (tx : MsgTx) (txOutIdx blockHeight : Z) (view : UtxoViewpoint) : UtxoViewpoint :=
  if u32 (zlen (tx_TxOut tx)) <=? txOutIdx then view
  else match tx_TxOut tx !! Z.to_nat txOutIdx with
       | None => view
       | Some txOut => addTxOut (mkOutPoint (TxHash tx) txOutIdx) txOut (IsCoinBaseTx tx) blockHeight view
       end.

Fixpoint add_outs (tx : MsgTx) (i : nat) (outs : list TxOut) (isCoinBase : bool) (blockHeight : Z)
  (view : UtxoViewpoint) : UtxoViewpoint :=
  match outs with
  | [] => view
  | txOut :: outs =>
      add_outs tx (S i) outs isCoinBase blockHeight
        (addTxOut (created_outpoint tx i) txOut isCoinBase blockHeight view)
  end.

Definition AddTxOuts (tx : MsgTx) (blockHeight : Z) (view : UtxoViewpoint) : UtxoViewpoint :=
  add_outs tx 0 (tx_TxOut tx) (IsCoinBaseTx tx) blockHeight view.

Definition connectTransaction (tx : MsgTx) (blockHeight : Z) (stxos : option (list SpentTxOut))
  (view : UtxoViewpoint) : result rule_error (UtxoViewpoint * option (list SpentTxOut)) :=
  if IsCoinBaseTx tx then Ok (AddTxOuts tx blockHeight view, stxos)
  else
    let* (view, stxos) := spend_inputs (tx_TxIn tx) stxos view in
    Ok (AddTxOuts tx blockHeight view, stxos).

Fixpoint connect_all (txs : list MsgTx) (blockHeight : Z) (stxos : option (list SpentTxOut))
  (view : UtxoViewpoint) : result rule_error (UtxoViewpoint * option (list SpentTxOut)) :=
  match txs with
  | [] => Ok (view, stxos)
  | tx :: txs =>
      let* (view, stxos) := connectTransaction tx blockHeight stxos view in
      connect_all txs blockHeight stxos view
  end.

(** [block] is the message of the [drcutil.Block] and [blockHeight] its height. *)
Definition connectTransactions (block : MsgBlock) (blockHeight : Z) (stxos : option (list SpentTxOut))
  (view : UtxoViewpoint) : result rule_error (UtxoViewpoint * option (list SpentTxOut)) :=
  let* (view, stxos) := connect_all (mb_Transactions block) blockHeight stxos view in
  Ok (SetBestHash (BlockHash (mb_Header block)) view, stxos).

(** ** Disconnecting *)

(** The first entry of the view among the possible outputs of a transaction. *)
Fixpoint find_output (n : nat) (idx : Z) (h : Hash) (view : UtxoViewpoint) : option UtxoEntry :=
  match n with
  | O => None
  | S n =>
      match LookupEntry view (mkOutPoint h idx) with
      | Some entry => Some entry
      | None => find_output n (u32 (idx + 1)) h view
      end
  end.

Definition fetchEntryByHash (db : D) (h : Hash) (view : UtxoViewpoint) : result rule_error (option UtxoEntry) :=
  match find_output (Z.to_nat MaxOutputsPerBlock) 0 h view with
  | Some entry => Ok (Some entry)
  | None => dbFetchUtxoEntryByHash db h
  end.

(** [transactions[1:]] panics on a block without transactions. *)
Definition countSpentOutputs (block : MsgBlock) : result rule_error Z :=
  match mb_Transactions block with
  | [] => Panic
  | _ :: txs => Ok (sumZ (fun tx => zlen (tx_TxIn tx)) txs)
  end.

(** The outputs a transaction created are marked spent, whether or not the view
    has them. *)
Fixpoint unmake_outs (tx : MsgTx) (i : nat) (outs : list TxOut) (packedFlags blockHeight : Z)
  (view : UtxoViewpoint) : UtxoViewpoint :=
  match outs with
  | [] => view
  | txOut :: outs =>
      let view :=
        if IsUnspendable (to_PkScript txOut) then view
        else
          let prevOut := created_outpoint tx i in
          let entry := match LookupEntry view prevOut with
                       | Some entry => entry
                       | None => mkUtxoEntry (to_Value txOut) (to_PkScript txOut) blockHeight packedFlags
                       end in
          set_entry prevOut (Some (Spend entry)) view in
      unmake_outs tx (S i) outs packedFlags blockHeight view
  end.

Definition restored_entry (stxo : SpentTxOut) : UtxoEntry :=
  mkUtxoEntry (st_Amount stxo) (st_PkScript stxo) (st_Height stxo) (fresh_flags (st_IsCoinBase stxo)).

(** One input: the entry is created empty when the view does not have it, and
    the search for the height and coinbase flag a legacy journal lacks sees it. *)
Definition restore_input (db : D) (txHash : Hash) (originOut : OutPoint) (stxo : SpentTxOut)
  (view : UtxoViewpoint) : result rule_error (UtxoViewpoint * SpentTxOut) :=
  let entry := match LookupEntry view originOut with
               | Some entry => entry
               | None => mkUtxoEntry 0 [] 0 0
               end in
  let view := set_entry originOut (Some entry) view in
  let* stxo :=
    (if st_Height stxo =? 0 then
       let* utxo := fetchEntryByHash db txHash view in
       match utxo with
       | None => Err AssertError
       | Some utxo => Ok (mkSpentTxOut (st_Amount stxo) (st_PkScript stxo) (ue_blockHeight utxo) (IsCoinBase utxo))
       end
     else Ok stxo) in
  Ok (set_entry originOut (Some (restored_entry stxo)) view, stxo).

(** The inputs and the journal are both walked from their ends: [rev_ins] and
    [rev_stxos] are the reversed lists.  The journal entries that are used come
    back (the code updates them in place); running out of them panics. *)
Fixpoint restore_inputs (db : D) (txHash : Hash) (rev_ins : list TxIn) (rev_stxos : list SpentTxOut)
  (view : UtxoViewpoint) : result rule_error (UtxoViewpoint * list SpentTxOut * list SpentTxOut) :=
  match rev_ins with
  | [] => Ok (view, [], rev_stxos)
  | txIn :: rev_ins =>
      match rev_stxos with
      | [] => Panic
      | stxo :: rev_stxos =>
          let* (view, stxo) := restore_input db txHash (ti_PreviousOutPoint txIn) stxo view in
          let* (view, used, rest) := restore_inputs db txHash rev_ins rev_stxos view in
          Ok (view, stxo :: used, rest)
      end
  end.

(** [rev_txs] is the list of the transactions from the last to the first, each
    with its index in the block. *)
Fixpoint disconnect_all (db : D) (rev_txs : list (nat * MsgTx)) (blockHeight : Z)
  (rev_stxos : list SpentTxOut) (view : UtxoViewpoint)
  : result rule_error (UtxoViewpoint * list SpentTxOut * list SpentTxOut) :=
  match rev_txs with
  | [] => Ok (view, [], rev_stxos)
  | (txIdx, tx) :: rev_txs =>
      let isCoinBase := (txIdx =? 0)%nat in
      let packedFlags := if isCoinBase then tfCoinBase else 0 in
      let view := unmake_outs tx 0 (tx_TxOut tx) packedFlags blockHeight view in
      let* (view, used, rev_stxos) :=
        (if isCoinBase then Ok (view, [], rev_stxos)
         else restore_inputs db (TxHash tx) (reverse (tx_TxIn tx)) rev_stxos view) in
      let* (view, used', rest) := disconnect_all db rev_txs blockHeight rev_stxos view in
      Ok (view, used ++ used', rest)
  end.

(** The view afterwards and the journal entries with the fields that were
    looked up. *)
Definition disconnectTransactions (db : D) (block : MsgBlock) (blockHeight : Z) (stxos : list SpentTxOut)
  (view : UtxoViewpoint) : result rule_error (UtxoViewpoint * list SpentTxOut) :=
  let* n := countSpentOutputs block in
  if negb (zlen stxos =? n) then Err AssertError
  else
    let* (view, used, rest) :=
      disconnect_all db (reverse (imap pair (mb_Transactions block))) blockHeight (reverse stxos) view in
    Ok (SetBestHash (bh_PrevBlock (mb_Header block)) view, reverse (used ++ rest)).

(** ** Loading and committing *)

(** Entries that are nil, or modified and spent, are dropped; the modified flag
    of the others is flipped. *)
Definition commit_entry (entry : option UtxoEntry) : option (option UtxoEntry) :=
  match entry with
  | None => None
  | Some entry =>
      if isModified entry && IsSpent entry then None
      else Some (Some (with_flags (Z.lxor (ue_packedFlags entry) tfModified) entry))
  end.

Definition commit (view : UtxoViewpoint) : UtxoViewpoint :=
  mkUtxoViewpoint (omap commit_entry (entries view)) (bestHash view).

Fixpoint load_all (db : D) (outpoints : list OutPoint) (view : UtxoViewpoint) : result rule_error UtxoViewpoint :=
  match outpoints with
  | [] => Ok view
  | outpoint :: outpoints =>
      let* entry := dbFetchUtxoEntry db outpoint in
      load_all db outpoints (set_entry outpoint entry view)
  end.

Definition fetchUtxosMain (db : D) (outpoints : gset OutPoint) (view : UtxoViewpoint)
  : result rule_error UtxoViewpoint :=
  if (size outpoints =? 0)%nat then Ok view else load_all db (range_set outpoints) view.

Definition in_view (view : UtxoViewpoint) (outpoint : OutPoint) : bool :=
  bool_decide (is_Some (entries view !! outpoint)).

Definition fetchUtxos (db : D) (outpoints : gset OutPoint) (view : UtxoViewpoint)
  : result rule_error UtxoViewpoint :=
  if (size outpoints =? 0)%nat then Ok view
  else fetchUtxosMain db (filter (fun o => in_view view o = false) outpoints) view.

(** [txInFlight]: the last transaction of the block with a hash. *)
Definition tx_in_flight (txs : list MsgTx) : gmap Hash nat :=
  foldl (fun m p => <[TxHash p.2 := p.1]> m) ∅ (imap pair txs).

(** The loop over the inputs of one transaction: [i] is the position of the
    transaction after the coinbase. *)
Fixpoint need_inputs (txs : list MsgTx) (txInFlight : gmap Hash nat) (i : nat) (blockHeight : Z)
  (ins : list TxIn) (st : UtxoViewpoint * gset OutPoint) : result rule_error (UtxoViewpoint * gset OutPoint) :=
  match ins with
  | [] => Ok st
  | txIn :: ins =>
      let '(view, neededSet) := st in
      let prev := ti_PreviousOutPoint txIn in
      let rest := need_inputs txs txInFlight i blockHeight ins in
      let otherwise :=
        if in_view view prev then rest (view, neededSet) else rest (view, {[prev]} ∪ neededSet) in
      match txInFlight !! op_Hash prev with
      | Some inFlightIndex =>
          if (inFlightIndex <=? i)%nat then
            match txs !! inFlightIndex with
            | Some originTx => rest (AddTxOuts originTx blockHeight view, neededSet)
            | None => Panic
            end
          else otherwise
      | None => otherwise
      end
  end.

Fixpoint need_all (txs : list MsgTx) (txInFlight : gmap Hash nat) (i : nat) (blockHeight : Z)
  (tail : list MsgTx) (st : UtxoViewpoint * gset OutPoint) : result rule_error (UtxoViewpoint * gset OutPoint) :=
  match tail with
  | [] => Ok st
  | tx :: tail =>
      let* st := need_inputs txs txInFlight i blockHeight (tx_TxIn tx) st in
      need_all txs txInFlight (S i) blockHeight tail st
  end.

Definition fetchInputUtxos (db : D) (block : MsgBlock) (blockHeight : Z) (view : UtxoViewpoint)
  : result rule_error UtxoViewpoint :=
  let txs := mb_Transactions block in
  match txs with
  | [] => Panic
  | _ :: tail =>
      let* (view, neededSet) := need_all txs (tx_in_flight txs) 0 blockHeight tail (view, ∅) in
      fetchUtxosMain db neededSet view
  end.

Definition output_set (tx : MsgTx) : gset OutPoint :=
  list_to_set (map (created_outpoint tx) (seq 0 (length (tx_TxOut tx)))).

Definition FetchUtxoView (db : D) (tx : MsgTx) : result rule_error UtxoViewpoint :=
  let neededSet := output_set tx ∪
    (if IsCoinBaseTx tx then ∅ else list_to_set (map ti_PreviousOutPoint (tx_TxIn tx))) in
  fetchUtxosMain db neededSet NewUtxoViewpoint.

Definition FetchUtxoEntry (db : D) (outpoint : OutPoint) : result rule_error (option UtxoEntry) :=
  dbFetchUtxoEntry db outpoint.

End View.

(** ** The ledger a view implements *)

Record coin := mkCoin { c_amount : Z; c_script : list byte; c_height : Z; c_coinbase : bool }.
Abbreviation ledger := (gmap OutPoint coin) (only parsing).

Definition live_coin (e : UtxoEntry) : coin :=
  mkCoin (ue_amount e) (ue_pkScript e) (ue_blockHeight e) (IsCoinBase e).
Definition entry_coin (e : option UtxoEntry) : option coin :=
  match e with
  | Some e => if IsSpent e then None else Some (live_coin e)
  | None => None
  end.
Definition journal_entry (c : coin) : SpentTxOut :=
  mkSpentTxOut (c_amount c) (c_script c) (c_height c) (c_coinbase c).

Definition add_coins (cs : list (OutPoint * coin)) (l : ledger) : ledger :=
  foldl (fun l p => <[p.1 := p.2]> l) l cs.
Definition remove_coins (os : list OutPoint) (l : ledger) : ledger :=
  foldl (fun l o => delete o l) l os.

Fixpoint spend_coins (os : list OutPoint) (l : ledger) : option (list coin * ledger) :=
  match os with
  | [] => Some ([], l)
  | o :: os =>
      match l !! o with
      | None => None
      | Some c =>
          match spend_coins os (delete o l) with
          | Some (cs, l) => Some (c :: cs, l)
          | None => None
          end
      end
  end.

Section Ledger.
Context `{HashFunctions}.

(** The coins of the spendable outputs of a transaction, from index [i]. *)
Fixpoint coin_outs (tx : MsgTx) (i : nat) (outs : list TxOut) (cb : bool) (h : Z) : list (OutPoint * coin) :=
  match outs with
  | [] => []
  | o :: outs =>
      (if IsUnspendable (to_PkScript o) then []
       else [(created_outpoint tx i, mkCoin (to_Value o) (to_PkScript o) h cb)])
      ++ coin_outs tx (S i) outs cb h
  end.
Definition tx_coins (tx : MsgTx) (h : Z) : list (OutPoint * coin) :=
  coin_outs tx 0 (tx_TxOut tx) (IsCoinBaseTx tx) h.
Definition tx_inputs (tx : MsgTx) : list OutPoint := map ti_PreviousOutPoint (tx_TxIn tx).

(** A transaction takes the coins of its inputs and puts those of its outputs. *)
Definition ledger_tx (tx : MsgTx) (h : Z) (l : ledger) : option (list coin * ledger) :=
  if IsCoinBaseTx tx then Some ([], add_coins (tx_coins tx h) l)
  else match spend_coins (tx_inputs tx) l with
       | Some (cs, l) => Some (cs, add_coins (tx_coins tx h) l)
       | None => None
       end.

Fixpoint ledger_txs (txs : list MsgTx) (h : Z) (l : ledger) : option (list coin * ledger) :=
  match txs with
  | [] => Some ([], l)
  | tx :: txs =>
      match ledger_tx tx h l with
      | Some (cs, l) =>
          match ledger_txs txs h l with
          | Some (cs', l) => Some (cs ++ cs', l)
          | None => None
          end
      | None => None
      end
  end.

End Ledger.

(** ** Flags *)

Lemma has_flag_bit f k : 0 <= k -> has_flag f (2 ^ k) = Z.testbit f k.
Proof.
  intros Hk. unfold has_flag.
  assert (E : Z.land f (2 ^ k) = if Z.testbit f k then 2 ^ k else 0).
  { apply Z.bits_inj'. intros n Hn. rewrite Z.land_spec, Z.pow2_bits_eqb by lia.
    destruct (Z.testbit f k) eqn:Hb; rewrite ?Z.pow2_bits_eqb, ?Z.bits_0 by lia;
      destruct (Z.eqb_spec k n) as [<-|]; rewrite ?Hb, ?andb_true_r, ?andb_false_r; done. }
  rewrite E. assert (0 < 2 ^ k) by (apply Z.pow_pos_nonneg; lia).
  destruct (Z.testbit f k); [apply Z.eqb_refl|apply Z.eqb_neq; lia].
Qed.

Lemma coinbase_bit f : has_flag f tfCoinBase = Z.testbit f 0.
Proof. exact (has_flag_bit f 0 ltac:(lia)). Qed.
Lemma spent_bit f : has_flag f tfSpent = Z.testbit f 1.
Proof. exact (has_flag_bit f 1 ltac:(lia)). Qed.
Lemma modified_bit f : has_flag f tfModified = Z.testbit f 2.
Proof. exact (has_flag_bit f 2 ltac:(lia)). Qed.
Create Rewrite HintDb flag.
#[export] Hint Rewrite coinbase_bit spent_bit modified_bit Z.lor_spec Z.lxor_spec : flag.

(** Reduce flag tests to bits. *)
Ltac flags :=
  unfold isModified, IsSpent, IsCoinBase in *; cbn [ue_packedFlags with_flags] in *;
  autorewrite with flag in *; cbn [Z.testbit Pos.testbit tfCoinBase tfSpent tfModified orb] in *.

Lemma fresh_entry_flags a s h cb :
  let e := mkUtxoEntry a s h (fresh_flags cb) in
  IsSpent e = false /\ IsCoinBase e = cb /\ isModified e = true.
Proof. by destruct cb. Qed.

Lemma Spend_spent e : IsSpent (Spend e) = true.
Proof.
  unfold Spend. destruct (IsSpent e) eqn:Hs; [done|]. flags. by rewrite orb_true_r.
Qed.

Lemma Spend_modified e : IsSpent e = false -> isModified (Spend e) = true.
Proof. intros Hs. unfold Spend. rewrite Hs. flags. by rewrite orb_true_r. Qed.

Lemma fresh_coin a s h cb :
  entry_coin (Some (mkUtxoEntry a s h (fresh_flags cb))) = Some (mkCoin a s h cb).
Proof. by destruct cb. Qed.

Lemma Spend_coin e : entry_coin (Some (Spend e)) = None.
Proof. unfold entry_coin. by rewrite Spend_spent. Qed.

Lemma restored_coin c : entry_coin (Some (restored_entry (journal_entry c))) = Some c.
Proof. destruct c as [a s h []]; reflexivity. Qed.

(** ** The simulation: connecting *)

Lemma add_coins_app a b l : add_coins (a ++ b) l = add_coins b (add_coins a l).
Proof. apply foldl_app. Qed.

Lemma lookup_set_entry o e view o' :
  entries (set_entry o e view) !! o' = if decide (o = o') then Some e else entries view !! o'.
Proof. cbn. destruct (decide (o = o')) as [<-|Hne]; [apply lookup_insert_eq|by apply lookup_insert_ne]. Qed.

Section Simulation.
Context `{HashFunctions} {D : Type} `{UtxoSource D} `{OutPointOrder}.

(** The coin the database has for an outpoint, and the coin a view over the
    database has for it: a view answers for the outpoints it has an entry for. *)
Definition fetch_coin (db : D) (o : OutPoint) : option coin :=
  match dbFetchUtxoEntry db o with Ok e => entry_coin e | _ => None end.
Definition view_coin (db : D) (view : UtxoViewpoint) (o : OutPoint) : option coin :=
  match entries view !! o with Some e => entry_coin e | None => fetch_coin db o end.

(** The view has the ledger's coins, but for the outpoints in [P]. *)
Definition agrees (P : OutPoint -> Prop) (db : D) (view : UtxoViewpoint) (l : ledger) : Prop :=
  forall o, outpoint_ok o -> ~ P o -> view_coin db view o = l !! o.
Definition implements (db : D) (view : UtxoViewpoint) (l : ledger) : Prop :=
  forall o, outpoint_ok o -> view_coin db view o = l !! o.

Lemma implements_agrees db view l : implements db view l <-> agrees (fun _ => False) db view l.
Proof. unfold implements, agrees. intuition. Qed.

Lemma view_coin_set db o e view o' :
  view_coin db (set_entry o e view) o' = if decide (o = o') then entry_coin e else view_coin db view o'.
Proof. unfold view_coin. rewrite lookup_set_entry. by destruct (decide _). Qed.

Lemma agrees_insert P db view l o e c :
  entry_coin (Some e) = Some c -> agrees P db view l ->
  agrees (fun o' => P o' /\ o' <> o) db (set_entry o (Some e) view) (<[o := c]> l).
Proof.
  intros Hc Ha o' Hok Hn. rewrite view_coin_set. destruct (decide (o = o')) as [<-|Hne].
  - by rewrite lookup_insert_eq.
  - rewrite lookup_insert_ne by done. apply Ha; [done|]. intros Hp. by apply Hn.
Qed.

Lemma agrees_delete P db view l o e :
  entry_coin (Some e) = None -> agrees P db view l -> agrees P db (set_entry o (Some e) view) (delete o l).
Proof.
  intros Hc Ha o' Hok Hn. rewrite view_coin_set. destruct (decide (o = o')) as [<-|Hne].
  - by rewrite lookup_delete_eq.
  - rewrite lookup_delete_ne by done. by apply Ha.
Qed.

Lemma agrees_weaken (P Q : OutPoint -> Prop) db view l :
  (forall o, P o -> Q o) -> agrees P db view l -> agrees Q db view l.
Proof. intros Hpq Ha o Hok Hn. apply Ha; [done|]. intros Hp. by apply Hn, Hpq. Qed.

Lemma add_outs_agrees P db tx i outs cb h view l :
  agrees P db view l ->
  agrees (fun o => P o /\ o ∉ (coin_outs tx i outs cb h).*1) db
    (add_outs tx i outs cb h view) (add_coins (coin_outs tx i outs cb h) l).
Proof.
  revert P i view l. induction outs as [|out outs IH]; intros P i view l Ha; cbn [add_outs coin_outs].
  { intros o Hok Hn. apply Ha; [done|]. intros Hp. apply Hn. split; [done|]. apply not_elem_of_nil. }
  rewrite add_coins_app. unfold addTxOut. destruct (IsUnspendable _); [by apply IH|].
  eapply agrees_weaken; [|apply IH, agrees_insert; [apply fresh_coin|exact Ha]].
  intros o ((Hp & Hne) & Hn). split; [done|]. cbn. by rewrite not_elem_of_cons.
Qed.

Lemma AddTxOuts_agrees P db tx h view l :
  agrees P db view l ->
  agrees (fun o => P o /\ o ∉ (tx_coins tx h).*1) db (AddTxOuts tx h view) (add_coins (tx_coins tx h) l).
Proof. apply add_outs_agrees. Qed.

(** The inputs of a transaction are there and unspent in the view. *)
Definition available (view : UtxoViewpoint) (o : OutPoint) : Prop :=
  exists e, LookupEntry view o = Some e /\ IsSpent e = false.

Lemma lookup_entry_some view o e : LookupEntry view o = Some e <-> entries view !! o = Some (Some e).
Proof.
  unfold LookupEntry. split.
  - destruct (entries view !! o) as [[x|]|]; congruence.
  - by intros ->.
Qed.

Lemma available_coin db view o :
  available view o -> exists e, LookupEntry view o = Some e /\ view_coin db view o = Some (live_coin e).
Proof.
  intros (e & He & Hs). exists e. split; [done|]. apply lookup_entry_some in He.
  unfold view_coin, entry_coin. by rewrite He, Hs.
Qed.

Definition journalled (stxos : option (list SpentTxOut)) (cs : list coin) : option (list SpentTxOut) :=
  match stxos with Some l => Some (l ++ map journal_entry cs) | None => None end.

Lemma journalled_cons stxos c cs :
  journalled (match stxos with Some l => Some (l ++ [journal_entry c]) | None => None end) cs
  = journalled stxos (c :: cs).
Proof. destruct stxos; cbn; [|done]. by rewrite <- app_assoc. Qed.

Lemma journalled_app stxos a b : journalled (journalled stxos a) b = journalled stxos (a ++ b).
Proof. destruct stxos; cbn; [|done]. by rewrite map_app, app_assoc. Qed.

(** Spending inputs that are available is spending the coins. *)
Lemma spend_inputs_agrees P db ins stxos view l :
  agrees P db view l ->
  (forall o, o ∈ map ti_PreviousOutPoint ins -> outpoint_ok o /\ available view o /\ ~ P o) ->
  NoDup (map ti_PreviousOutPoint ins) ->
  exists cs l' view', spend_coins (map ti_PreviousOutPoint ins) l = Some (cs, l')
    /\ spend_inputs ins stxos view = Ok (view', journalled stxos cs)
    /\ agrees P db view' l' /\ bestHash view' = bestHash view.
Proof.
  revert stxos view l. induction ins as [|txIn ins IH]; intros stxos view l Ha Hav Hnd.
  { exists [], l, view. split; [done|]. split; [|done]. destruct stxos; cbn; [by rewrite app_nil_r|done]. }
  cbn [map] in *. apply list.NoDup_cons in Hnd as [Hnin Hnd].
  set (o := ti_PreviousOutPoint txIn) in *.
  destruct (Hav o) as (Hok & Hav1 & Hp); [left|].
  destruct (available_coin db view o Hav1) as (e & He & Hc).
  rewrite Ha in Hc by done. cbn [spend_coins spend_inputs]. rewrite Hc. fold o. rewrite He.
  change (spent_details e) with (journal_entry (live_coin e)).
  edestruct (IH (match stxos with Some l => Some (l ++ [journal_entry (live_coin e)]) | None => None end)
    (set_entry o (Some (Spend e)) view) (delete o l)) as (cs & l' & view' & Hs & Hv & Ha' & Hb).
  - by apply agrees_delete; [apply Spend_coin|].
  - intros o' Ho'. destruct (Hav o') as (Hok' & (e' & He' & Hs') & Hp'); [by right|].
    split; [done|]. split; [|done].
    exists e'. split; [|done]. apply lookup_entry_some. rewrite lookup_set_entry.
    destruct (decide (o = o')) as [->|]; [done|]. by apply lookup_entry_some.
  - done.
  - exists (live_coin e :: cs), l', view'. rewrite Hs. split; [done|]. rewrite Hv, journalled_cons. done.
Qed.

Lemma add_outs_bestHash tx i outs cb h view : bestHash (add_outs tx i outs cb h view) = bestHash view.
Proof.
  revert i view. induction outs as [|out outs IH]; intros i view; cbn [add_outs]; [done|].
  rewrite IH. unfold addTxOut. by destruct (IsUnspendable _).
Qed.

(** One transaction: the view's outpoints outside [P] follow the ledger, and the
    journal gets the coins. *)
Lemma connectTransaction_agrees P db tx h stxos view l :
  agrees P db view l ->
  (IsCoinBaseTx tx = false ->
     NoDup (tx_inputs tx) /\ forall o, o ∈ tx_inputs tx -> outpoint_ok o /\ available view o /\ ~ P o) ->
  exists cs l' view', ledger_tx tx h l = Some (cs, l')
    /\ connectTransaction tx h stxos view = Ok (view', journalled stxos cs)
    /\ agrees (fun o => P o /\ o ∉ (tx_coins tx h).*1) db view' l' /\ bestHash view' = bestHash view.
Proof.
  intros Ha Hin. unfold ledger_tx, connectTransaction. destruct (IsCoinBaseTx tx).
  - exists [], (add_coins (tx_coins tx h) l), (AddTxOuts tx h view). split; [done|].
    split; [destruct stxos; cbn; [by rewrite app_nil_r|done]|].
    split; [by apply AddTxOuts_agrees|apply add_outs_bestHash].
  - destruct (Hin eq_refl) as [Hnd Hav].
    destruct (spend_inputs_agrees P db (tx_TxIn tx) stxos view l Ha Hav Hnd) as (cs & l' & view' & Hs & Hv & Ha' & Hb).
    exists cs, (add_coins (tx_coins tx h) l'), (AddTxOuts tx h view').
    unfold tx_inputs. rewrite Hs, Hv. split; [done|]. split; [done|].
    split; [by apply AddTxOuts_agrees|]. unfold AddTxOuts. by rewrite add_outs_bestHash.
Qed.

(** ** The simulation: loading the inputs of a block *)

Lemma load_all_spec db os view view' :
  load_all db os view = Ok view' ->
  (forall o, o ∉ os -> entries view' !! o = entries view !! o)
  /\ (forall o, o ∈ os -> exists e, dbFetchUtxoEntry db o = Ok e /\ entries view' !! o = Some e)
  /\ bestHash view' = bestHash view.
Proof.
  revert view. induction os as [|o os IH]; intros view Hl; cbn [load_all] in Hl.
  { go_inv. split; [done|]. split; [|done]. intros o Ho. by apply not_elem_of_nil in Ho. }
  go_inv. destruct (IH _ Hl) as (Hout & Hin & Hb). split; [|split].
  - intros o' Ho'. apply not_elem_of_cons in Ho' as [Hne Hn]. rewrite Hout, lookup_set_entry by done.
    by destruct (decide _).
  - intros o' Ho'. destruct (decide (o' ∈ os)) as [Hos|Hos]; [by apply Hin|].
    apply elem_of_cons in Ho' as [->|]; [|done]. exists a. split; [done|].
    rewrite Hout, lookup_set_entry by done. by destruct (decide _).
  - by rewrite Hb.
Qed.

Lemma fetchUtxosMain_spec db os view view' :
  fetchUtxosMain db os view = Ok view' ->
  (forall o, o ∉ os -> entries view' !! o = entries view !! o)
  /\ (forall o, o ∈ os -> exists e, dbFetchUtxoEntry db o = Ok e /\ entries view' !! o = Some e)
  /\ bestHash view' = bestHash view.
Proof.
  unfold fetchUtxosMain. destruct (Nat.eqb_spec (size os) 0) as [Hz|_].
  - intros Hl. go_inv. apply size_empty_inv in Hz. split; [done|]. split; [set_solver|done].
  - intros Hl. apply load_all_spec in Hl as (Hout & Hin & Hb). repeat split; try done.
    + intros o Ho. apply Hout. by rewrite range_set_perm, elem_of_elements.
    + intros o Ho. apply Hin. by rewrite range_set_perm, elem_of_elements.
Qed.

(** The outpoints the transactions create. *)
Definition created (txs : list MsgTx) (h : Z) : list OutPoint :=
  concat (map (fun tx => (tx_coins tx h).*1) txs).

Lemma coin_outs_hash tx i outs cb h o : o ∈ (coin_outs tx i outs cb h).*1 -> op_Hash o = TxHash tx.
Proof.
  revert i. induction outs as [|out outs IH]; intros i; cbn [coin_outs]; [by intros Ho%not_elem_of_nil|].
  rewrite fmap_app, elem_of_app. intros [Ho|Ho]; [|by eapply IH].
  destruct (IsUnspendable _); cbn in Ho; [by apply not_elem_of_nil in Ho|].
  apply list_elem_of_singleton in Ho as ->. done.
Qed.

Lemma created_in txs h o :
  o ∈ created txs h <-> exists j tx, txs !! j = Some tx /\ o ∈ (tx_coins tx h).*1.
Proof.
  unfold created. rewrite list_elem_of_In, in_concat. split.
  - intros (os & Hos & Ho). apply in_map_iff in Hos as (tx & <- & Htx).
    apply list_elem_of_In, list_elem_of_lookup in Htx as [j Hj]. exists j, tx. by rewrite list_elem_of_In.
  - intros (j & tx & Hj & Ho). exists ((tx_coins tx h).*1). split; [|by apply list_elem_of_In].
    apply in_map_iff. exists tx. split; [done|]. apply list_elem_of_In. by eapply list_elem_of_lookup_2.
Qed.

Lemma created_hash txs h o :
  o ∈ created txs h -> exists j tx, txs !! j = Some tx /\ op_Hash o = TxHash tx.
Proof.
  intros (j & tx & Hj & Ho)%created_in. exists j, tx. split; [done|]. by eapply coin_outs_hash.
Qed.

Lemma tx_in_flight_sound txs hh j :
  tx_in_flight txs !! hh = Some j -> exists tx, txs !! j = Some tx /\ TxHash tx = hh.
Proof.
  unfold tx_in_flight.
  assert (Hgen : forall ps (m : gmap Hash nat), foldl (fun m p => <[TxHash p.2 := p.1]> m) m ps !! hh = Some j ->
    m !! hh = Some j \/ exists tx, (j, tx) ∈ ps /\ TxHash tx = hh).
  { induction ps as [|[k tx] ps IH]; intros m Hm; cbn in Hm; [by left|].
    apply IH in Hm as [Hm|(tx' & Hin & Hh)].
    - destruct (decide (TxHash tx = hh)) as [Heq|Hne].
      + rewrite Heq, lookup_insert_eq in Hm. injection Hm as ->. right. exists tx. split; [left|done].
      + rewrite lookup_insert_ne in Hm by done. by left.
    - right. exists tx'. split; [by right|done]. }
  intros Hm. destruct (Hgen _ _ Hm) as [Hm'|(tx & Hin & Hh)]; [by rewrite lookup_empty in Hm'|].
  exists tx. split; [|done]. apply list_elem_of_lookup in Hin as [k Hk].
  rewrite list_lookup_imap in Hk. destruct (txs !! k) eqn:Htx; cbn in Hk; [|done]. by injection Hk as -> ->.
Qed.

Lemma add_outs_entries tx i outs cb h view o :
  o ∉ (coin_outs tx i outs cb h).*1 -> entries (add_outs tx i outs cb h view) !! o = entries view !! o.
Proof.
  revert i view. induction outs as [|out outs IH]; intros i view Hn; cbn [add_outs coin_outs] in *; [done|].
  rewrite fmap_app, not_elem_of_app in Hn. destruct Hn as [Hn1 Hn2]. rewrite IH by done.
  unfold addTxOut. destruct (IsUnspendable _); [done|]. rewrite lookup_set_entry.
  destruct (decide _) as [Heq|]; [|done]. cbn in Hn1. apply not_elem_of_cons in Hn1 as [? _]. congruence.
Qed.

Lemma add_outs_is_Some tx i outs cb h view o :
  is_Some (entries view !! o) -> is_Some (entries (add_outs tx i outs cb h view) !! o).
Proof.
  revert i view. induction outs as [|out outs IH]; intros i view Ho; cbn [add_outs]; [done|]. apply IH.
  unfold addTxOut. destruct (IsUnspendable _); [done|]. rewrite lookup_set_entry. by destruct (decide _).
Qed.

Lemma distinct_index txs j k a b :
  NoDup (map TxHash txs) -> txs !! j = Some a -> txs !! k = Some b -> TxHash a = TxHash b -> j = k.
Proof.
  intros Hnd Ha Hb Heq. eapply (NoDup_lookup (TxHash <$> txs)); [done| |];
    rewrite list_lookup_fmap; [by rewrite Ha|]. rewrite Hb. cbn. by rewrite Heq.
Qed.

(** What the collecting loops do to the view [view0] they start from, after the
    transactions up to position [i]: only outputs of those were added, and only
    what [view0] does not have is requested. *)
Record collected (txs : list MsgTx) (h : Z) (view0 : UtxoViewpoint) (i : nat)
  (st : UtxoViewpoint * gset OutPoint) : Prop := {
  col_view : forall o, entries st.1 !! o = entries view0 !! o \/ o ∈ created (take (S i) txs) h;
  col_keep : forall o, is_Some (entries view0 !! o) -> is_Some (entries st.1 !! o);
  col_need : forall o, o ∈ st.2 -> entries view0 !! o = None;
  col_best : bestHash st.1 = bestHash view0
}.

Lemma collected_step txs h view0 i st : collected txs h view0 i st -> collected txs h view0 (S i) st.
Proof.
  intros [H1' H2' H3' H4']. split; try done. intros o. destruct (H1' o) as [|Ho]; [by left|right].
  apply created_in in Ho as (j & tx & Hj & Ho). apply lookup_take_Some in Hj as [Hj ?].
  apply created_in. exists j, tx. split; [|done]. apply lookup_take_Some. split; [done|lia].
Qed.

(** In a block of distinct transactions, with a view that has no entry for an
    output of the block, an input that refers to this or a later transaction
    is requested from the database. *)
Lemma need_inputs_spec txs h view0 i ins st st' :
  NoDup (map TxHash txs) -> (forall o, o ∈ created txs h -> entries view0 !! o = None) ->
  collected txs h view0 i st ->
  need_inputs txs (tx_in_flight txs) i h ins st = Ok st' ->
  collected txs h view0 i st' /\ st.2 ⊆ st'.2
  /\ forall o, o ∈ map ti_PreviousOutPoint ins -> o ∈ created (drop (S i) txs) h -> o ∈ st'.2.
Proof.
  intros Hnd Hfresh. revert st. induction ins as [|txIn ins IH]; intros [view needed] Hc Hn; cbn [need_inputs] in Hn.
  { injection Hn as <-. repeat split; try apply Hc; [done|]. intros o Ho. by apply not_elem_of_nil in Ho. }
  set (prev := ti_PreviousOutPoint txIn) in *.
  (* the branch that may request the input *)
  assert (Hother : (if in_view view prev then need_inputs txs (tx_in_flight txs) i h ins (view, needed)
      else need_inputs txs (tx_in_flight txs) i h ins (view, {[prev]} ∪ needed)) = Ok st' ->
    collected txs h view0 i st' /\ needed ⊆ st'.2
    /\ forall o, o ∈ prev :: map ti_PreviousOutPoint ins -> o ∈ created (drop (S i) txs) h -> o ∈ st'.2).
  { unfold in_view. case_bool_decide as Hv; intros Hn'.
    - destruct (IH _ Hc Hn') as (Hc' & Hsub & Hin). repeat split; try apply Hc'; [done|].
      intros o Ho Hcr. apply elem_of_cons in Ho as [->|]; [exfalso|by apply Hin].
      destruct (col_view _ _ _ _ _ Hc prev) as [Heq|Hearly]; cbn [fst] in *.
      + rewrite Heq, Hfresh in Hv; [by apply is_Some_None in Hv|].
        apply created_in in Hcr as (j & tx & Hj & Ho). rewrite lookup_drop in Hj. apply created_in. eauto.
      + apply created_hash in Hearly as (j & tx & Hj & Ho). apply lookup_take_Some in Hj as [Hj ?].
        apply created_hash in Hcr as (k & tx' & Hk & Ho'). rewrite lookup_drop in Hk.
        assert (j = S i + k)%nat; [|lia]. apply (distinct_index txs j _ tx tx'); congruence.
    - edestruct (IH (view, {[prev]} ∪ needed)) as (Hc' & Hsub & Hin); [|done|].
      + split; try apply Hc. cbn [snd]. intros o Ho. apply elem_of_union in Ho as [Ho|Ho].
        * apply elem_of_singleton in Ho as ->. apply eq_None_not_Some. intros Hs. apply Hv.
          by apply (col_keep _ _ _ _ _ Hc).
        * by apply (col_need _ _ _ _ _ Hc).
      + cbn [snd] in *. assert (Hp : {[prev]} ⊆ st'.2 /\ needed ⊆ st'.2) by (split; etrans; [|exact Hsub| |exact Hsub];
          [apply union_subseteq_l|apply union_subseteq_r]).
        repeat split; try apply Hc'; [apply Hp|].
        intros o Ho Hcr. apply elem_of_cons in Ho as [->|]; [by apply (proj1 Hp), elem_of_singleton|by apply Hin]. }
  cbn [map]. fold prev. destruct (tx_in_flight txs !! op_Hash prev) as [j|] eqn:Hj; [|by apply Hother].
  destruct (Nat.leb_spec j i) as [Hle|_]; [|by apply Hother].
  destruct (txs !! j) as [originTx|] eqn:Htx; [|done].
  edestruct (IH (AddTxOuts originTx h view, needed)) as (Hc' & Hsub & Hin); [|done|].
  - split; cbn [fst snd].
    + intros o. destruct (decide (o ∈ (tx_coins originTx h).*1)) as [Ho|Ho].
      * right. apply created_in. exists j, originTx. split; [|done]. apply lookup_take_Some. split; [done|lia].
      * unfold AddTxOuts. rewrite add_outs_entries by done. apply (col_view _ _ _ _ _ Hc).
    + intros o Ho. apply add_outs_is_Some. by apply (col_keep _ _ _ _ _ Hc).
    + apply (col_need _ _ _ _ _ Hc).
    + unfold AddTxOuts. rewrite add_outs_bestHash. apply (col_best _ _ _ _ _ Hc).
  - repeat split; try apply Hc'; [done|]. intros o Ho Hcr. apply elem_of_cons in Ho as [->|]; [exfalso|by apply Hin].
    apply tx_in_flight_sound in Hj as (tx & Hj & Hh). apply created_hash in Hcr as (k & tx' & Hk & Ho').
    rewrite lookup_drop in Hk. assert (j = S i + k)%nat; [|lia]. apply (distinct_index txs j _ tx tx'); congruence.
Qed.

Lemma need_all_spec txs h view0 i st st' :
  NoDup (map TxHash txs) -> (forall o, o ∈ created txs h -> entries view0 !! o = None) ->
  collected txs h view0 i st ->
  need_all txs (tx_in_flight txs) i h (drop (S i) txs) st = Ok st' ->
  collected txs h view0 (length txs) st' /\ st.2 ⊆ st'.2
  /\ forall k tx o, (S i <= k)%nat -> txs !! k = Some tx -> o ∈ tx_inputs tx ->
       o ∈ created (drop k txs) h -> o ∈ st'.2.
Proof.
  intros Hnd Hfresh. remember (drop (S i) txs) as tail eqn:Htail. revert i st Htail.
  induction tail as [|tx tail IH]; intros i st Htail Hc Hn; cbn [need_all] in Hn.
  - injection Hn as <-. symmetry in Htail. apply drop_nil_inv in Htail. split; [|split; [done|]].
    + split; try apply Hc. intros o. destruct (col_view _ _ _ _ _ Hc o) as [|Ho]; [by left|right].
      rewrite take_ge in Ho by done. by rewrite take_ge by lia.
    + intros k tx o Hk Htx. apply lookup_lt_Some in Htx. lia.
  - apply rbind_Ok in Hn as (st1 & Ha & Hn). symmetry in Htail. pose proof (drop_S txs tx (S i)) as Hd.
    assert (Hi : txs !! S i = Some tx).
    { rewrite <- (Nat.add_0_r (S i)), <- lookup_drop. by rewrite Htail. }
    rewrite Hd in Htail by done. injection Htail as Htail.
    destruct (need_inputs_spec txs h view0 i (tx_TxIn tx) st st1 Hnd Hfresh Hc Ha) as (Hc' & Hsub & Hin).
    destruct (IH (S i) _ (eq_sym Htail) (collected_step _ _ _ _ _ Hc') Hn) as (Hc'' & Hsub' & Hin').
    split; [done|]. split; [by etrans|]. intros k tx' o Hk Htx' Ho Hcr.
    destruct (decide (k = S i)) as [->|]; [|by eapply (Hin' k tx'); [lia|..]].
    assert (tx' = tx) as -> by congruence. by apply Hsub', Hin.
Qed.

(** After [fetchInputUtxos] the view has the coins of the ledger, but for
    outputs of the block that were added ahead of time; no transaction can spend
    one of those before it is created. *)
Lemma fetchInputUtxos_spec db block h view0 view l :
  let txs := mb_Transactions block in
  NoDup (map TxHash txs) -> (forall o, o ∈ created txs h -> entries view0 !! o = None) ->
  implements db view0 l -> fetchInputUtxos db block h view0 = Ok view ->
  exists needed : gset OutPoint,
    agrees (fun o => o ∈ created txs h /\ o ∉ needed) db view l
    /\ bestHash view = bestHash view0
    /\ forall k tx o, (1 <= k)%nat -> txs !! k = Some tx -> o ∈ tx_inputs tx ->
         o ∈ created (drop k txs) h -> o ∈ needed.
Proof.
  intros txs Hnd Hfresh Himp Hf. unfold fetchInputUtxos in Hf. fold txs in Hf.
  destruct txs as [|cb tail] eqn:Htxs; [done|]. apply rbind_Ok in Hf as ([view1 needed] & Hall & Hf).
  change tail with (drop 1 (cb :: tail)) in Hall.
  destruct (need_all_spec (cb :: tail) h view0 0 (view0, ∅) (view1, needed) Hnd Hfresh) as (Hc & _ & Hin); [|done|].
  { split; cbn; auto. intros o Ho. by apply elem_of_empty in Ho. }
  apply fetchUtxosMain_spec in Hf as (Hout & Hload & Hb). exists needed. split; [|split; [|done]].
  - intros o Hok Ho. rewrite <- Himp by done. unfold view_coin. destruct (decide (o ∈ needed)) as [Hnd'|Hnn].
    + destruct (Hload o Hnd') as (e & He & ->). rewrite (col_need _ _ _ _ _ Hc) by done.
      unfold fetch_coin. by rewrite He.
    + rewrite Hout by done. destruct (col_view _ _ _ _ _ Hc o) as [Heq|Hcr]; [cbn in Heq; by rewrite Heq|].
      rewrite take_ge in Hcr by (cbn; lia). exfalso. by apply Ho.
  - pose proof (col_best _ _ _ _ _ Hc) as E. cbn in E. by rewrite Hb, E.
Qed.

(** ** The simulation: disconnecting *)

Lemma unmake_outs_implements db tx i outs f h view l cb h' :
  implements db view l ->
  implements db (unmake_outs tx i outs f h view) (remove_coins (coin_outs tx i outs cb h').*1 l).
Proof.
  revert i view l. induction outs as [|out outs IH]; intros i view l Ha; cbn [unmake_outs coin_outs]; [done|].
  destruct (IsUnspendable _); [by apply IH|]. cbn [app fmap list_fmap fst remove_coins foldl]. apply IH.
  apply implements_agrees, agrees_delete; [apply Spend_coin|]. by apply implements_agrees.
Qed.

Lemma restore_inputs_implements db hh ins cs rest view l :
  length ins = length cs -> Forall (fun c => c_height c <> 0) cs -> implements db view l ->
  exists view', restore_inputs db hh ins (map journal_entry cs ++ rest) view
                = Ok (view', map journal_entry cs, rest)
    /\ implements db view' (add_coins (zip (map ti_PreviousOutPoint ins) cs) l).
Proof.
  revert cs view l. induction ins as [|txIn ins IH]; intros [|c cs] view l Hlen Hh Ha; try done.
  { by exists view. }
  injection Hlen as Hlen. apply Forall_cons_iff in Hh as [Hc Hh]. cbn [restore_inputs map app].
  unfold restore_input. set (o := ti_PreviousOutPoint txIn).
  set (e0 := match LookupEntry view o with Some entry => entry | None => _ end).
  change (st_Height (journal_entry c)) with (c_height c). rewrite (proj2 (Z.eqb_neq _ _) Hc). cbn [rbind].
  edestruct (IH cs (set_entry o (Some (restored_entry (journal_entry c))) (set_entry o (Some e0) view))
    (<[o := c]> l)) as (view' & Hr & Ha'); [done|done| |].
  - intros o' Hok. rewrite !view_coin_set. destruct (decide (o = o')) as [<-|Hne].
    + by rewrite restored_coin, lookup_insert_eq.
    + rewrite lookup_insert_ne by done. by apply Ha.
  - exists view'. rewrite Hr. by split.
Qed.

Lemma spend_coins_length os l cs l' : spend_coins os l = Some (cs, l') -> length os = length cs.
Proof.
  revert l cs. induction os as [|o os IH]; intros l cs Hs; cbn in Hs; [by injection Hs as <- _|].
  destruct (l !! o); [|done]. destruct (spend_coins os _) as [[? ?]|] eqn:Hr; [|done].
  injection Hs as <- <-. cbn. f_equal. by eapply IH.
Qed.

Lemma spend_coins_coins os l cs l' (Q : coin -> Prop) :
  spend_coins os l = Some (cs, l') -> map_Forall (fun _ => Q) l -> Forall Q cs /\ map_Forall (fun _ => Q) l'.
Proof.
  revert l cs. induction os as [|o os IH]; intros l cs Hs Hl; cbn in Hs.
  { injection Hs as <- <-. by split. }
  destruct (l !! o) as [c|] eqn:Ho; [|done]. destruct (spend_coins os _) as [[cs' ?]|] eqn:Hr; [|done].
  injection Hs as <- <-. destruct (IH _ _ Hr) as [Hcs Hl']; [by apply map_Forall_delete|].
  split; [|done]. constructor; [by apply (Hl o)|done].
Qed.

Lemma spend_coins_subset os l cs l' : spend_coins os l = Some (cs, l') -> l' ⊆ l.
Proof.
  revert l cs. induction os as [|o os IH]; intros l cs Hs; cbn in Hs; [by injection Hs as <- <-|].
  destruct (l !! o); [|done]. destruct (spend_coins os _) as [[? ?]|] eqn:Hr; [|done]. injection Hs as <- <-.
  etrans; [by eapply IH|]. apply delete_subseteq.
Qed.

(** Putting the coins back, last one first, undoes spending them. *)
Lemma unspend_coins os l cs l' :
  spend_coins os l = Some (cs, l') -> add_coins (zip (reverse os) (reverse cs)) l' = l.
Proof.
  revert l cs. induction os as [|o os IH]; intros l cs Hs; cbn in Hs.
  { by injection Hs as <- <-. }
  destruct (l !! o) as [c|] eqn:Ho; [|done]. destruct (spend_coins os _) as [[cs' ?]|] eqn:Hr; [|done].
  injection Hs as <- <-. rewrite !reverse_cons, zip_with_app
    by (rewrite !length_reverse; by eapply spend_coins_length).
  rewrite add_coins_app, (IH _ _ Hr). cbn. by rewrite insert_delete_eq, insert_id.
Qed.

Lemma remove_coins_comm os o l : delete o (remove_coins os l) = remove_coins os (delete o l).
Proof. revert l. induction os as [|x os IH]; intros l; [done|].
  change (delete o (remove_coins os (delete x l)) = remove_coins os (delete x (delete o l))).
  by rewrite IH, delete_delete.
Qed.

Lemma remove_add_coins cs l : (forall o, o ∈ cs.*1 -> l !! o = None) -> remove_coins cs.*1 (add_coins cs l) = l.
Proof.
  revert l. induction cs as [|[o c] cs IH] using rev_ind; intros l Hn; [done|].
  rewrite add_coins_app, fmap_app. unfold remove_coins. rewrite foldl_app. cbn [foldl fmap list_fmap fst].
  change (delete o (remove_coins cs.*1 (<[o := c]> (add_coins cs l))) = l).
  rewrite remove_coins_comm, delete_insert_eq.
  rewrite <- remove_coins_comm, IH.
  - apply delete_id, Hn. rewrite fmap_app. apply elem_of_app. right. by left.
  - intros o' Ho'. apply Hn. rewrite fmap_app. apply elem_of_app. by left.
Qed.

(** No transaction overwrites a coin. *)
Fixpoint no_overwrite (txs : list MsgTx) (h : Z) (l : ledger) : Prop :=
  match txs with
  | [] => True
  | tx :: txs =>
      (forall o, o ∈ (tx_coins tx h).*1 -> l !! o = None)
      /\ forall cs l', ledger_tx tx h l = Some (cs, l') -> no_overwrite txs h l'
  end.

Lemma ledger_txs_app a b h l :
  ledger_txs (a ++ b) h l
  = match ledger_txs a h l with
    | Some (cs, l) => match ledger_txs b h l with Some (cs', l) => Some (cs ++ cs', l) | None => None end
    | None => None
    end.
Proof.
  revert l. induction a as [|tx a IH]; intros l; cbn [app ledger_txs].
  { by destruct (ledger_txs b h l) as [[? ?]|]. }
  destruct (ledger_tx tx h l) as [[cs l1]|]; [|done]. rewrite IH.
  destruct (ledger_txs a h l1) as [[cs1 l2]|]; [|done].
  destruct (ledger_txs b h l2) as [[cs2 l3]|]; [|done]. by rewrite app_assoc.
Qed.

Lemma no_overwrite_app a b h l :
  no_overwrite (a ++ b) h l ->
  no_overwrite a h l /\ forall cs l', ledger_txs a h l = Some (cs, l') -> no_overwrite b h l'.
Proof.
  revert l. induction a as [|tx a IH]; intros l; cbn [app no_overwrite ledger_txs].
  { intros Hb. split; [done|]. by intros cs l' [= <- <-]. }
  intros [Ho Ht]. split.
  - split; [done|]. intros cs l' Hl. by apply (IH l'), (Ht cs).
  - intros cs l' Hl. destruct (ledger_tx tx h l) as [[cs1 l1]|] eqn:H1'; [|done].
    destruct (ledger_txs a h l1) as [[cs2 l2]|] eqn:H2'; [|done]. injection Hl as <- <-.
    specialize (Ht _ _ eq_refl). by eapply (IH l1 Ht).
Qed.

Lemma coin_outs_coins tx i outs cb h (Q : coin -> Prop) :
  (forall o, o ∈ outs -> Q (mkCoin (to_Value o) (to_PkScript o) h cb)) ->
  Forall (fun p => Q p.2) (coin_outs tx i outs cb h).
Proof.
  revert i. induction outs as [|o outs IH]; intros i Hq; cbn [coin_outs]; [constructor|].
  apply Forall_app. split; [|apply IH; intros o' Ho'; apply Hq; by right].
  destruct (IsUnspendable _); constructor; [|constructor]. apply Hq. by left.
Qed.

Lemma add_coins_coins cs l (Q : coin -> Prop) :
  Forall (fun p => Q p.2) cs -> map_Forall (fun _ => Q) l -> map_Forall (fun _ => Q) (add_coins cs l).
Proof.
  revert l. induction cs as [|[o c] cs IH]; intros l Hc Hl; [done|].
  apply Forall_cons_iff in Hc as [Hc Hcs]. apply (IH (<[o := c]> l)); [done|]. by apply map_Forall_insert_2.
Qed.

(** A property of coins that outputs of this block have is kept by the block. *)
Lemma ledger_tx_coins tx h l cs l' (Q : coin -> Prop) :
  (forall o, o ∈ tx_TxOut tx -> Q (mkCoin (to_Value o) (to_PkScript o) h (IsCoinBaseTx tx))) ->
  ledger_tx tx h l = Some (cs, l') -> map_Forall (fun _ => Q) l -> Forall Q cs /\ map_Forall (fun _ => Q) l'.
Proof.
  intros Hq Hl HQ. unfold ledger_tx in Hl. pose proof (coin_outs_coins tx 0 _ _ h Q Hq) as Hnew.
  destruct (IsCoinBaseTx tx) eqn:Hcb.
  - injection Hl as <- <-. split; [constructor|]. apply add_coins_coins; [|done]. unfold tx_coins. by rewrite Hcb.
  - destruct (spend_coins _ l) as [[cs' l1]|] eqn:Hs; [|done]. injection Hl as <- <-.
    destruct (spend_coins_coins _ _ _ _ Q Hs HQ) as [? ?]. split; [done|].
    apply add_coins_coins; [|done]. unfold tx_coins. by rewrite Hcb.
Qed.

Lemma ledger_txs_heights txs h l cs l' :
  h <> 0 -> ledger_txs txs h l = Some (cs, l') -> map_Forall (fun _ c => c_height c <> 0) l ->
  map_Forall (fun _ c => c_height c <> 0) l'.
Proof.
  intros Hh. revert l cs. induction txs as [|tx txs IH]; intros l cs Hl HQ; cbn in Hl; [by injection Hl as <- <-|].
  destruct (ledger_tx tx h l) as [[cs1 l1]|] eqn:H1'; [|done].
  destruct (ledger_txs txs h l1) as [[cs2 l2]|] eqn:H2'; [|done]. injection Hl as <- <-.
  eapply IH; [done|]. by eapply (ledger_tx_coins tx h l cs1 l1 (fun c => c_height c <> 0)).
Qed.

(** One transaction undone. *)
Lemma undo_tx db tx h view l cs l' rest :
  ledger_tx tx h l = Some (cs, l') -> (forall o, o ∈ (tx_coins tx h).*1 -> l !! o = None) ->
  Forall (fun c => c_height c <> 0) cs -> implements db view l' ->
  let view1 := unmake_outs tx 0 (tx_TxOut tx) (if IsCoinBaseTx tx then tfCoinBase else 0) h view in
  exists view', (if IsCoinBaseTx tx then Ok (view1, [], map journal_entry (reverse cs) ++ rest)
    else restore_inputs db (TxHash tx) (reverse (tx_TxIn tx)) (map journal_entry (reverse cs) ++ rest) view1)
      = Ok (view', map journal_entry (reverse cs), rest)
    /\ implements db view' l.
Proof.
  intros Hl Hno Hh Himp view1. unfold ledger_tx in Hl.
  pose proof (unmake_outs_implements db tx 0 (tx_TxOut tx) (if IsCoinBaseTx tx then tfCoinBase else 0) h view
    l' (IsCoinBaseTx tx) h Himp) as Hun. fold view1 in Hun. fold (tx_coins tx h) in Hun.
  destruct (IsCoinBaseTx tx) eqn:Hcb.
  - injection Hl as <- <-. exists view1. split; [done|]. by rewrite remove_add_coins in Hun.
  - destruct (spend_coins (tx_inputs tx) l) as [[cs' l1]|] eqn:Hs; [|done]. injection Hl as <- <-.
    rewrite remove_add_coins in Hun.
    2:{ intros o Ho. apply eq_None_not_Some. intros [c Hc].
        apply (lookup_weaken _ _ _ _) with (2 := spend_coins_subset _ _ _ _ Hs) in Hc. by rewrite Hno in Hc. }
    destruct (restore_inputs_implements db (TxHash tx) (reverse (tx_TxIn tx)) (reverse cs') rest view1 l1)
      as (view' & Hr & Hv); [| |done|].
    + rewrite !length_reverse. apply spend_coins_length in Hs. unfold tx_inputs in Hs. by rewrite length_map in Hs.
    + by apply Forall_reverse.
    + exists view'. split; [done|]. rewrite <- (unspend_coins _ _ _ _ Hs). unfold tx_inputs.
      change (map ti_PreviousOutPoint (tx_TxIn tx)) with (ti_PreviousOutPoint <$> tx_TxIn tx).
      rewrite <- fmap_reverse. exact Hv.
Qed.

(** A block whose journal is given back is undone. *)
Lemma undo_txs db txs h l cs l' rest view :
  ledger_txs txs h l = Some (cs, l') -> no_overwrite txs h l -> h <> 0 ->
  map_Forall (fun _ c => c_height c <> 0) l ->
  (forall k tx, txs !! k = Some tx -> IsCoinBaseTx tx = (k =? 0)%nat) -> implements db view l' ->
  exists view', disconnect_all db (reverse (imap pair txs)) h (map journal_entry (reverse cs) ++ rest) view
      = Ok (view', map journal_entry (reverse cs), rest) /\ implements db view' l.
Proof.
  revert cs l' rest view. induction txs as [|tx txs IH] using rev_ind; intros cs l' rest view Hl Hno Hh Hl0 Hcb Himp.
  { cbn in Hl. injection Hl as <- <-. by exists view. }
  rewrite ledger_txs_app in Hl. destruct (ledger_txs txs h l) as [[cs1 l1]|] eqn:H1'; [|done].
  apply no_overwrite_app in Hno as [Hno Hlast]. destruct (Hlast _ _ H1') as [Hnew _].
  cbn [ledger_txs] in Hl. destruct (ledger_tx tx h l1) as [[cs2 l2]|] eqn:H2'; [|done].
  injection Hl as <- <-. rewrite app_nil_r.
  rewrite imap_app, reverse_app, reverse_app. cbn [imap reverse rev_append app].
  rewrite map_app, <- app_assoc. cbn [disconnect_all compose]. rewrite Nat.add_0_r.
  assert (Hcb' : IsCoinBaseTx tx = (length txs =? 0)%nat).
  { apply (Hcb (length txs)). rewrite lookup_app_r, Nat.sub_diag by lia. done. }
  rewrite <- Hcb'.
  destruct (undo_tx db tx h view l1 cs2 l2 (map journal_entry (reverse cs1) ++ rest)) as (view1 & Hv1 & Hi1); try done.
  { eapply (ledger_tx_coins tx h l1 cs2 l2 (fun c => c_height c <> 0)); [done|done|].
    by eapply ledger_txs_heights. }
  rewrite Hv1. cbn [rbind].
  destruct (IH cs1 l1 rest view1) as (view2 & Hv2 & Hi2); try done.
  { intros k tx' Hk. apply Hcb. by apply lookup_app_l_Some. }
  rewrite Hv2. cbn [rbind]. by exists view2.
Qed.

Lemma ledger_tx_count tx h l cs l' :
  ledger_tx tx h l = Some (cs, l') -> length cs = if IsCoinBaseTx tx then O else length (tx_TxIn tx).
Proof.
  unfold ledger_tx. destruct (IsCoinBaseTx tx); [by intros [= <- _]|].
  destruct (spend_coins _ l) as [[cs' l1]|] eqn:Hs; [|done]. intros [= <- _].
  apply spend_coins_length in Hs. unfold tx_inputs in Hs. by rewrite length_map in Hs.
Qed.

Lemma ledger_txs_count txs h l cs l' :
  ledger_txs txs h l = Some (cs, l') -> (forall tx, tx ∈ txs -> IsCoinBaseTx tx = false) ->
  zlen cs = sumZ (fun tx => zlen (tx_TxIn tx)) txs.
Proof.
  revert l cs. induction txs as [|tx txs IH]; intros l cs Hl Hcb; cbn in Hl; [by injection Hl as <- _|].
  destruct (ledger_tx tx h l) as [[cs1 l1]|] eqn:H1'; [|done].
  destruct (ledger_txs txs h l1) as [[cs2 l2]|] eqn:H2'; [|done]. injection Hl as <- <-.
  apply ledger_tx_count in H1'. rewrite Hcb in H1' by left.
  change (sumZ _ (tx :: txs)) with (zlen (tx_TxIn tx) + sumZ (fun tx => zlen (tx_TxIn tx)) txs).
  rewrite <- (IH l1 cs2); [|done|intros tx' Htx'; apply Hcb; by right].
  unfold zlen. rewrite length_app. lia.
Qed.

(** The first transaction of the block, and no other, is a coinbase. *)
Definition coinbase_first (txs : list MsgTx) : Prop :=
  txs <> [] /\ forall k tx, txs !! k = Some tx -> IsCoinBaseTx tx = (k =? 0)%nat.

Lemma disconnect_undoes db block h l cs l' view :
  let txs := mb_Transactions block in
  ledger_txs txs h l = Some (cs, l') -> no_overwrite txs h l -> h <> 0 ->
  map_Forall (fun _ c => c_height c <> 0) l -> coinbase_first txs -> implements db view l' ->
  exists view', disconnectTransactions db block h (map journal_entry cs) view
      = Ok (view', map journal_entry cs)
    /\ implements db view' l /\ bestHash view' = bh_PrevBlock (mb_Header block).
Proof.
  intros txs Hl Hno Hh Hl0 [Hne Hcb] Himp. unfold disconnectTransactions, countSpentOutputs. fold txs.
  destruct (undo_txs db txs h l cs l' [] view) as (view' & Hd & Hi); try done.
  destruct txs as [|cb tail] eqn:Htxs; [done|]. cbn [rbind].
  assert (Hcount : zlen (map journal_entry cs) = sumZ (fun tx => zlen (tx_TxIn tx)) tail).
  { cbn [ledger_txs] in Hl. destruct (ledger_tx cb h l) as [[cs1 l1]|] eqn:H1'; [|done].
    destruct (ledger_txs tail h l1) as [[cs2 l2]|] eqn:H2'; [|done]. injection Hl as <- <-.
    apply ledger_tx_count in H1'. rewrite (Hcb O cb eq_refl) in H1'.
    rewrite <- (ledger_txs_count _ _ _ _ _ H2').
    - unfold zlen. rewrite length_map, length_app. cbn [Nat.eqb] in H1'. lia.
    - intros tx Htx. apply list_elem_of_lookup in Htx as [k Hk]. by rewrite (Hcb (S k) tx). }
  rewrite Hcount, Z.eqb_refl. cbn [negb].
  rewrite app_nil_r in Hd. change (map journal_entry (reverse cs)) with (journal_entry <$> reverse cs) in Hd.
  rewrite fmap_reverse in Hd. change (journal_entry <$> cs) with (map journal_entry cs) in Hd.
  rewrite Hd. cbn [rbind]. rewrite app_nil_r, reverse_involutive.
  exists (SetBestHash (bh_PrevBlock (mb_Header block)) view'). by split.
Qed.

(** ** What an entry that is not flagged as modified stands for

    Only modified entries are written to the database: the others, and the nil
    ones, have to agree with it. *)
Definition unchanged (e : option UtxoEntry) : Prop :=
  match e with Some e => isModified e = false | None => True end.
Definition view_ok (db : D) (view : UtxoViewpoint) : Prop :=
  forall o e, entries view !! o = Some e -> unchanged e -> entry_coin e = fetch_coin db o.

Lemma view_ok_modified db view o e :
  view_ok db view -> isModified e = true -> view_ok db (set_entry o (Some e) view).
Proof.
  intros Hv Hm o' e'. rewrite lookup_set_entry. destruct (decide (o = o')) as [<-|]; [|by apply Hv].
  intros [= <-] Hu. cbn in Hu. congruence.
Qed.

Lemma view_ok_Spend db view o e :
  view_ok db view -> LookupEntry view o = Some e -> view_ok db (set_entry o (Some (Spend e)) view).
Proof.
  intros Hv He. destruct (IsSpent e) eqn:Hs; [|by apply view_ok_modified; [|apply Spend_modified]].
  unfold Spend. rewrite Hs. intros o' e'. rewrite lookup_set_entry.
  destruct (decide (o = o')) as [<-|]; [|by apply Hv]. intros [= <-]. apply Hv. by apply lookup_entry_some.
Qed.

(** A property of entries that spending keeps, that the outputs of the
    transactions have, and that holds of what the database returns, holds of
    all entries of a view through the operations that connect blocks. *)
Section Keep.
Context (Q : OutPoint -> option UtxoEntry -> Prop) (h : Z) (db : D).
Hypothesis Q_Spend : forall o e, Q o (Some e) -> Q o (Some (Spend e)).
Hypothesis Q_load : forall o e, outpoint_ok o -> dbFetchUtxoEntry db o = Ok e -> Q o e.

Definition keeps (view : UtxoViewpoint) : Prop := forall o e, entries view !! o = Some e -> Q o e.
Definition outs_keep (bh : Z) (tx : MsgTx) : Prop := forall i out, tx_TxOut tx !! i = Some out ->
  Q (created_outpoint tx i) (Some (mkUtxoEntry (to_Value out) (to_PkScript out) bh (fresh_flags (IsCoinBaseTx tx)))).

Lemma keeps_set view o e : keeps view -> Q o e -> keeps (set_entry o e view).
Proof.
  intros Hv He o' e'. rewrite lookup_set_entry. destruct (decide (o = o')) as [<-|]; [by intros [= <-]|by apply Hv].
Qed.

Lemma keeps_lookup view o e : keeps view -> LookupEntry view o = Some e -> Q o (Some e).
Proof. intros Hv He. apply Hv. by apply lookup_entry_some. Qed.

Lemma AddTxOuts_keeps bh tx view : outs_keep bh tx -> keeps view -> keeps (AddTxOuts tx bh view).
Proof.
  intros Ho. unfold AddTxOuts. unfold outs_keep in Ho.
  assert (Hgen : forall outs i view, (forall j out, outs !! j = Some out ->
      Q (created_outpoint tx (i + j)) (Some (mkUtxoEntry (to_Value out) (to_PkScript out) bh (fresh_flags (IsCoinBaseTx tx))))) ->
    keeps view -> keeps (add_outs tx i outs (IsCoinBaseTx tx) bh view)).
  { clear. induction outs as [|out outs IH]; intros i view Ho Hv; cbn [add_outs]; [done|]. apply IH.
    - intros j out' Hj. replace (S i + j)%nat with (i + S j)%nat by lia. by apply Ho.
    - unfold addTxOut. destruct (IsUnspendable _); [done|]. apply keeps_set; [done|].
      replace i with (i + 0)%nat by lia. by apply Ho. }
  intros Hv. by apply Hgen.
Qed.

Lemma spend_inputs_keeps ins stxos view view' stxos' :
  keeps view -> spend_inputs ins stxos view = Ok (view', stxos') -> keeps view'.
Proof.
  revert stxos view. induction ins as [|i ins IH]; intros stxos view Hv Hs; cbn [spend_inputs] in Hs; [go_inv; done|].
  destruct (LookupEntry view (ti_PreviousOutPoint i)) as [e|] eqn:He; [|done].
  eapply IH; [|exact Hs]. apply keeps_set; [done|]. by eapply Q_Spend, keeps_lookup.
Qed.

Lemma connectTransaction_keeps tx stxos view view' stxos' :
  outs_keep h tx -> keeps view -> connectTransaction tx h stxos view = Ok (view', stxos') -> keeps view'.
Proof.
  intros Ho Hv. unfold connectTransaction. destruct (IsCoinBaseTx tx) eqn:Hcb; intros Hc.
  - injection Hc as <- <-. by apply AddTxOuts_keeps.
  - apply rbind_Ok in Hc as ([view1 s1] & Hs & Hc). injection Hc as <- <-.
    apply AddTxOuts_keeps; [done|]. by eapply spend_inputs_keeps.
Qed.

Lemma load_all_keeps os view view' :
  Forall outpoint_ok os -> keeps view -> load_all db os view = Ok view' -> keeps view'.
Proof.
  revert view. induction os as [|o os IH]; intros view Hos Hv Hl; cbn [load_all] in Hl; [go_inv; done|].
  apply Forall_cons_iff in Hos as [Ho Hos]. apply rbind_Ok in Hl as (e & He & Hl).
  eapply IH; [done| |exact Hl]. apply keeps_set; [done|]. by apply Q_load.
Qed.

Lemma fetchUtxosMain_keeps os view view' :
  set_Forall outpoint_ok os -> keeps view -> fetchUtxosMain db os view = Ok view' -> keeps view'.
Proof.
  intros Hos Hv. unfold fetchUtxosMain. destruct (_ =? _)%nat; [by intros [= <-]|]. apply load_all_keeps; [|done].
  rewrite range_set_perm. by apply set_Forall_elements.
Qed.

Lemma fetchUtxos_keeps os view view' :
  set_Forall outpoint_ok os -> keeps view -> fetchUtxos db os view = Ok view' -> keeps view'.
Proof.
  intros Hos Hv. unfold fetchUtxos. destruct (_ =? _)%nat; [by intros [= <-]|]. apply fetchUtxosMain_keeps; [|done].
  intros o Ho. apply Hos. by apply elem_of_filter in Ho as [_ Ho].
Qed.

Definition collect_keeps (st : UtxoViewpoint * gset OutPoint) : Prop :=
  keeps st.1 /\ set_Forall outpoint_ok st.2.

Lemma need_inputs_keeps txs m i bh ins st st' :
  Forall (outs_keep bh) txs -> Forall outpoint_ok (map ti_PreviousOutPoint ins) -> collect_keeps st ->
  need_inputs txs m i bh ins st = Ok st' -> collect_keeps st'.
Proof.
  intros Ho. revert st. induction ins as [|txIn ins IH]; intros [view needed] Hos [Hv Hn0] Hn; cbn [need_inputs] in Hn.
  { by injection Hn as <-. }
  cbn [map] in Hos. apply Forall_cons_iff in Hos as [Ho1 Hos].
  assert (Hother : collect_keeps (view, needed) /\ collect_keeps (view, {[ti_PreviousOutPoint txIn]} ∪ needed)).
  { split; (split; [done|]); [done|]. apply set_Forall_union; [by apply set_Forall_singleton|done]. }
  destruct (m !! _) as [j|]; [destruct (j <=? i)%nat|]; [destruct (txs !! j) as [tx|] eqn:Htx; [|done]|..].
  - eapply IH; [done| |exact Hn]. split; [|done]. apply AddTxOuts_keeps; [|done]. by eapply Forall_lookup_1.
  - destruct (in_view _ _); (eapply IH; [done| |exact Hn]; apply Hother).
  - destruct (in_view _ _); (eapply IH; [done| |exact Hn]; apply Hother).
Qed.

Lemma need_all_keeps txs m i bh tail st st' :
  Forall (outs_keep bh) txs -> Forall (fun tx => Forall outpoint_ok (tx_inputs tx)) tail -> collect_keeps st ->
  need_all txs m i bh tail st = Ok st' -> collect_keeps st'.
Proof.
  intros Ho. revert i st. induction tail as [|tx tail IH]; intros i st Hos Hv Hn; cbn [need_all] in Hn; [by injection Hn as <-|].
  apply Forall_cons_iff in Hos as [Ho1 Hos]. apply rbind_Ok in Hn as (st1 & H1' & Hn).
  eapply IH; [done| |exact Hn]. by eapply need_inputs_keeps.
Qed.

Lemma fetchInputUtxos_keeps block bh view view' :
  Forall (outs_keep bh) (mb_Transactions block) ->
  Forall (fun tx => Forall outpoint_ok (tx_inputs tx)) (mb_Transactions block) -> keeps view ->
  fetchInputUtxos db block bh view = Ok view' -> keeps view'.
Proof.
  intros Ho Hos Hv. unfold fetchInputUtxos. destruct (mb_Transactions block) as [|cb tail]; [done|].
  apply Forall_cons_iff in Hos as [_ Hos].
  intros Hf. apply rbind_Ok in Hf as ([view1 needed] & H1' & Hf).
  eapply need_all_keeps in H1' as [Hv1 Hn1]; [|done|done|split; [done|apply set_Forall_empty]].
  by eapply fetchUtxosMain_keeps; [..|exact Hf].
Qed.

End Keep.

(** The entries that are not modified agree with the database. *)
Definition agrees_if_unchanged (db : D) (o : OutPoint) (e : option UtxoEntry) : Prop :=
  unchanged e -> entry_coin e = fetch_coin db o.

Lemma unchanged_Spend db o e : agrees_if_unchanged db o (Some e) -> agrees_if_unchanged db o (Some (Spend e)).
Proof.
  unfold agrees_if_unchanged. intros He Hu. destruct (IsSpent e) eqn:Hs.
  - unfold Spend in *. rewrite Hs in *. by apply He.
  - cbn in Hu. rewrite Spend_modified in Hu by done. done.
Qed.

Lemma unchanged_load db o e : outpoint_ok o -> dbFetchUtxoEntry db o = Ok e -> agrees_if_unchanged db o e.
Proof. intros _ He _. unfold fetch_coin. by rewrite He. Qed.

Lemma unchanged_outs db bh tx : outs_keep (agrees_if_unchanged db) bh tx.
Proof. intros i out _ Hu. cbn in Hu. by rewrite (proj2 (proj2 (fresh_entry_flags _ _ _ _))) in Hu. Qed.

Lemma unmake_outs_ok db tx i outs (cb : bool) h view :
  view_ok db view -> view_ok db (unmake_outs tx i outs (if cb then tfCoinBase else 0) h view).
Proof.
  revert i view. induction outs as [|o outs IH]; intros i view Hv; cbn [unmake_outs]; [done|]. apply IH.
  destruct (IsUnspendable _); [done|]. destruct (LookupEntry _ _) as [e|] eqn:He; [by apply view_ok_Spend|].
  apply view_ok_modified; [done|]. by destruct cb.
Qed.

Lemma restore_input_ok db hh o stxo view view' stxo' :
  view_ok db view -> restore_input db hh o stxo view = Ok (view', stxo') -> view_ok db view'.
Proof.
  intros Hv. unfold restore_input. set (e0 := match LookupEntry view o with Some e => e | None => _ end).
  intros Hr. apply rbind_Ok in Hr as (st & _ & Hr). injection Hr as <- <-. unfold set_entry. cbn [entries bestHash].
  rewrite insert_insert_eq. apply view_ok_modified; [done|]. by apply fresh_entry_flags.
Qed.

Lemma restore_inputs_ok db hh ins stxos view view' used rest :
  view_ok db view -> restore_inputs db hh ins stxos view = Ok (view', used, rest) -> view_ok db view'.
Proof.
  revert stxos view used. induction ins as [|i ins IH]; intros stxos view used Hv Hr; cbn [restore_inputs] in Hr.
  { by injection Hr as <- <- <-. }
  destruct stxos as [|stxo stxos]; [done|]. apply rbind_Ok in Hr as ([view1 st1] & H1' & Hr).
  apply rbind_Ok in Hr as ([[view2 used2] rest2] & H2' & Hr). injection Hr as <- <- <-.
  eapply IH; [|exact H2']. by eapply restore_input_ok.
Qed.

Lemma disconnect_all_ok db txs h stxos view view' used rest :
  view_ok db view -> disconnect_all db txs h stxos view = Ok (view', used, rest) -> view_ok db view'.
Proof.
  revert stxos view used. induction txs as [|[k tx] txs IH]; intros stxos view used Hv Hd; cbn [disconnect_all] in Hd.
  { by injection Hd as <- <- <-. }
  apply rbind_Ok in Hd as ([[view1 used1] rest1] & H1' & Hd).
  apply rbind_Ok in Hd as ([[view2 used2] rest2] & H2' & Hd). injection Hd as <- <- <-.
  eapply IH; [|exact H2']. destruct (k =? 0)%nat.
  - injection H1' as <- <- <-. by apply (unmake_outs_ok db tx 0 _ true).
  - eapply restore_inputs_ok; [|exact H1']. by apply (unmake_outs_ok db tx 0 _ false).
Qed.

Lemma created_outpoint_ok tx i : outpoint_ok (created_outpoint tx i).
Proof. split; [apply Sum256_length|apply u32_range]. Qed.

Lemma view_ok_new db h : view_ok db (SetBestHash h NewUtxoViewpoint).
Proof. intros o e. cbn. by rewrite lookup_empty. Qed.

End Simulation.
