(* ===== verification/ScriptVal.v ===== *)
(** * Validation of the scripts of a block: blockchain/scriptval.go

    [checkBlockScripts] makes an item of each input that refers to an output
    and has a pool of goroutines validate them.  [validateHandler] is the work on
    one item; the pool is a step relation over the items that are waiting, the
    items goroutines are working on, and the number of results received. *)

From S2P Require Import Prelude Chainhash Wire Hash WireMsg Stack Opcode Script Signature Engine EngineSafety EngineCache.
From S2P Require Import Validate Utxo.

Record txValidateItem := mkItem {
  vi_txInIndex : Z; vi_txIn : TxIn; vi_tx : MsgTx; vi_sigHashes : option TxSigHashes
}.

Section ScriptVal.
Context `{HashFunctions} `{ScriptHashes} `{Curve} `{MapOrder}.

(** The work on one item; the engine has fuel enough ([validateHandler_total]). *)
Definition validateHandler (utxoView : UtxoViewpoint) (flags : Z) (sigCache : option SigCache)
  (txVI : txValidateItem) : result rule_error unit :=
  match LookupEntry utxoView (ti_PreviousOutPoint (vi_txIn txVI)) with
  | None => Err ErrMissingTxOut
  | Some utxo =>
      match NewEngine (ue_pkScript utxo) (vi_tx txVI) (vi_txInIndex txVI) flags sigCache (vi_sigHashes txVI)
              (ue_amount utxo) with
      | Panic => Panic
      | Err _ => Err ErrScriptMalformed
      | Ok vm =>
          match Execute vm with
          | Some (Ok _) => Ok tt
          | Some (Err _) => Err ErrScriptValidation
          | _ => Panic
          end
      end
  end.

(** The items of one transaction: inputs with the index of a coinbase are
    skipped. *)
Definition tx_items (scriptFlags : Z) (tx : MsgTx) : list txValidateItem :=
  let segwitActive := Z.land scriptFlags ScriptVerifyWitness =? ScriptVerifyWitness in
  let cachedHashes := if segwitActive && HasWitness tx then Some (NewTxSigHashes tx) else None in
  omap (fun p => if op_Index (ti_PreviousOutPoint p.2) =? MaxUint32 then None
                 else Some (mkItem (Z.of_nat p.1) p.2 tx cachedHashes))
       (imap pair (tx_TxIn tx)).

Definition block_items (scriptFlags : Z) (txs : list MsgTx) : list txValidateItem :=
  concat (map (tx_items scriptFlags) txs).

(** ** The pool

    [Validate] starts [numCPU * 3] goroutines, at most one per item. *)
Inductive pool_state :=
  | Pool (todo working : list txValidateItem) (idle processedItems : nat)
  | Returned (r : result rule_error unit).

(** The state when all goroutines are started. *)
Definition start_pool (numCPU : nat) (items : list txValidateItem) : pool_state :=
  let maxGoRoutines := if (numCPU * 3 =? 0)%nat then 1%nat else (numCPU * 3)%nat in
  let maxGoRoutines := if (length items <? maxGoRoutines)%nat then length items else maxGoRoutines in
  match items with
  | [] => Returned (Ok tt)
  | _ => Pool items [] maxGoRoutines 0
  end.

(** [check] is the work on one item.  The main loop sends an item to an idle
    goroutine or receives a result, whichever is ready; on an error it returns,
    and it returns nil when it has received a result for each item. *)
Inductive pool_step (check : txValidateItem -> result rule_error unit) (numInputs : nat)
  : pool_state -> pool_state -> Prop :=
  | step_send item todo working idle n :
      (n < numInputs)%nat ->
      pool_step check numInputs (Pool (item :: todo) working (S idle) n) (Pool todo (item :: working) idle n)
  | step_result a item b todo idle n :
      (n < numInputs)%nat -> check item = Ok tt ->
      pool_step check numInputs (Pool todo (a ++ item :: b) idle n) (Pool todo (a ++ b) (S idle) (S n))
  | step_error a item b todo idle n r :
      (n < numInputs)%nat -> check item = r -> r <> Ok tt ->
      pool_step check numInputs (Pool todo (a ++ item :: b) idle n) (Returned r)
  | step_return todo working idle n :
      (numInputs <= n)%nat ->
      pool_step check numInputs (Pool todo working idle n) (Returned (Ok tt)).

(** A sequential reading of the same checks: the first error is returned, where
    the goroutines return the error of any item that is invalid.  That both
    succeed for the same items is [validate_any_schedule]. *)
Fixpoint validate_in_order (check : txValidateItem -> result rule_error unit) (items : list txValidateItem)
  : result rule_error unit :=
  match items with
  | [] => Ok tt
  | item :: items => let* _ := check item in validate_in_order check items
  end.

Definition checkBlockScripts (txs : list MsgTx) (utxoView : UtxoViewpoint) (scriptFlags : Z)
  (sigCache : option SigCache) : result rule_error unit :=
  validate_in_order (validateHandler utxoView scriptFlags sigCache) (block_items scriptFlags txs).

Definition ValidateTransactionScripts (tx : MsgTx) (utxoView : UtxoViewpoint) (flags : Z)
  (sigCache : option SigCache) : result rule_error unit :=
  validate_in_order (validateHandler utxoView flags sigCache) (tx_items flags tx).

(** ** Lemmas *)

Lemma validateHandler_total view flags sc item :
  witness_bounded (vi_tx item) -> validateHandler view flags sc item <> Panic.
Proof.
  intros Hw. unfold validateHandler. destruct (LookupEntry _ _) as [utxo|]; [|done].
  pose proof (Execute_finishes (ue_pkScript utxo) (vi_tx item) (vi_txInIndex item) flags sc (vi_sigHashes item)
    (ue_amount utxo) Hw) as Ht.
  destruct (NewEngine _ _ _ _ _ _ _) as [vm|e|]; [|done|done]. destruct Ht as (r & -> & Hr). by destruct r.
Qed.

(** The cache the goroutines share does not change what they find. *)
Lemma validateHandler_cache view flags sc item :
  cache_sound sc -> validateHandler view flags sc item = validateHandler view flags None item.
Proof.
  intros Hc. unfold validateHandler. destruct (LookupEntry _ _) as [utxo|]; [|done].
  pose proof (NewEngine_transparent (ue_pkScript utxo) (vi_tx item) (vi_txInIndex item) flags sc (vi_sigHashes item)
    (ue_amount utxo) Hc) as Hn.
  destruct (NewEngine _ _ _ _ sc _ _) as [vm|e|]; cbn in Hn; [|by rewrite Hn..].
  destruct Hn as [-> Hs]. by rewrite (Execute_transparent vm Hs).
Qed.

Lemma validate_in_order_Ok check items :
  validate_in_order check items = Ok tt <-> Forall (fun i => check i = Ok tt) items.
Proof.
  induction items as [|i items IH]; cbn [validate_in_order]; [by split|].
  rewrite rbind_Ok, Forall_cons_iff, <- IH. split; [intros ([] & ? & ?); done|intros [? ?]; by exists tt].
Qed.

Lemma validate_in_order_safe check items :
  Forall (fun i => check i <> Panic) items -> safe (validate_in_order check items) (fun _ => True).
Proof.
  induction 1 as [|i items Hi _ IH]; [done|]. cbn [validate_in_order].
  eapply safe_bind; [by apply safe_no_panic|]. done.
Qed.

(** The items belong to transactions of the block. *)
Lemma block_items_tx flags txs item : item ∈ block_items flags txs -> exists tx, tx ∈ txs /\ vi_tx item = tx.
Proof.
  unfold block_items. rewrite list_elem_of_In. intros Hi. apply in_concat in Hi as (l & Hl & Hi).
  apply in_map_iff in Hl as (tx & <- & Htx). exists tx. split; [by apply list_elem_of_In|].
  apply list_elem_of_In, list_elem_of_omap in Hi as ((i & ti) & _ & Hi). cbn in Hi.
  destruct (_ =? _); [done|]. by injection Hi as <-.
Qed.

Section Pool.
Context (check : txValidateItem -> result rule_error unit) (items : list txValidateItem).

(** Every item is waiting, being worked on, or has been found valid. *)
Definition pool_ok (s : pool_state) : Prop :=
  match s with
  | Pool todo working idle n =>
      (0 < length working + idle)%nat
      /\ exists valid, todo ++ working ++ valid ≡ₚ items /\ length valid = n
           /\ Forall (fun i => check i = Ok tt) valid
  | Returned (Ok _) => Forall (fun i => check i = Ok tt) items
  | Returned r => exists i, i ∈ items /\ check i = r
  end.

Lemma start_pool_ok numCPU : pool_ok (start_pool numCPU items).
Proof.
  unfold start_pool. destruct items as [|i l] eqn:Hi; cbn [pool_ok]; rewrite ?Hi; [constructor|]. split.
  - destruct (_ =? 0)%nat eqn:Hz; destruct (_ <? _)%nat; cbn; try lia. apply Nat.eqb_neq in Hz. lia.
  - exists []. by rewrite app_nil_r.
Qed.

Lemma pool_step_ok s s' : pool_step check (length items) s s' -> pool_ok s -> pool_ok s'.
Proof.
  destruct 1 as [item todo working idle n Hn|a item b todo idle n Hn Hc|a item b todo idle n r Hn Hc Hr
                |todo working idle n Hn]; cbn [pool_ok]; intros (Hw & valid & Hp & Hlen & Hv).
  - split; [cbn in *; lia|]. exists valid. split; [|done]. rewrite <- Hp. cbn. symmetry. apply Permutation_middle.
  - split; [rewrite length_app in *; cbn in *; lia|]. exists (item :: valid). split; [|split; [cbn; lia|by constructor]].
    rewrite <- Hp. rewrite <- !app_assoc. cbn. rewrite <- (Permutation_middle b valid item). done.
  - destruct r as [[]|e|]; [done|..]; exists item; (split; [|done]); rewrite <- Hp;
      rewrite !elem_of_app, elem_of_cons; auto.
  - apply Permutation_length in Hp as Hl. rewrite !length_app in Hl.
    destruct todo; [|cbn in Hl; lia]. destruct working; [|cbn in Hl; lia]. cbn in Hp. by rewrite <- Hp.
Qed.

(** The number of steps that are left, at most. *)
Definition pool_measure (s : pool_state) : nat :=
  match s with
  | Pool todo working _ _ => S (2 * length todo + length working)
  | Returned _ => 0
  end.

Lemma pool_step_decreases s s' : pool_step check (length items) s s' -> (pool_measure s' < pool_measure s)%nat.
Proof. destruct 1; cbn; rewrite ?length_app; cbn; lia. Qed.

(** The pool does not get stuck: a send, a result or the return is possible. *)
Lemma pool_progress s : pool_ok s -> (exists r, s = Returned r) \/ exists s', pool_step check (length items) s s'.
Proof.
  destruct s as [todo working idle n|r]; [|by left; exists r]. intros (Hw & valid & Hp & Hlen & Hv). right.
  destruct (Nat.lt_ge_cases n (length items)) as [Hn|Hn]; [|by eexists; apply step_return].
  destruct working as [|item working].
  - destruct idle as [|idle]; [cbn in Hw; lia|]. destruct todo as [|item todo].
    + apply Permutation_length in Hp. cbn in Hp. lia.
    + eexists. by apply step_send.
  - destruct (check item) as [[]|e|] eqn:Hc.
    + eexists. by apply (step_result check _ [] item working).
    + eexists. by apply (step_error check _ [] item working _ _ _ (Err e)).
    + eexists. by apply (step_error check _ [] item working _ _ _ Panic).
Qed.

End Pool.

(** ** Properties *)

(** C20: script validation, under every schedule of the goroutines: from the
    start of the pool a run has at most twice the number of items plus one
    steps, it can continue until [Validate] returns, and what it returns is nil
    exactly when every item validates, and otherwise the error of an item that
    does not. *)
Theorem validate_any_schedule check items numCPU s n :
  nsteps (pool_step check (length items)) n (start_pool numCPU items) s ->
  (n <= 2 * length items + 1)%nat
  /\ ((exists r, s = Returned r) \/ exists s', pool_step check (length items) s s')
  /\ forall r, s = Returned r ->
       (r = Ok tt <-> validate_in_order check items = Ok tt)
       /\ (r <> Ok tt -> exists i, i ∈ items /\ check i = r).
Proof.
  intros Hs.
  assert (Hinv : pool_ok check items s /\ (n + pool_measure s <= pool_measure (start_pool numCPU items))%nat).
  { revert Hs. generalize (start_pool_ok check items numCPU). generalize (start_pool numCPU items) as s0.
    intros s0 Hok Hs. induction Hs as [|n s0 s1 s2 Hstep _ IH]; [split; [done|lia]|].
    destruct IH as [Hok2 Hm]; [by eapply pool_step_ok|]. split; [done|]. apply pool_step_decreases in Hstep. lia. }
  destruct Hinv as [Hok Hm]. split; [|split; [by apply pool_progress|]].
  - unfold start_pool in Hm. destruct items as [|i l]; cbn in *; lia.
  - intros r ->. cbn in Hok. rewrite validate_in_order_Ok. destruct r as [[]|e|].
    + split; [done|]. by intros [].
    + split; [split; [done|]|done]. intros Hall. destruct Hok as (i & Hi & Hc).
      rewrite List.Forall_forall in Hall. rewrite list_elem_of_In in Hi. rewrite Hall in Hc by done. done.
    + split; [split; [done|]|done]. intros Hall. destruct Hok as (i & Hi & Hc).
      rewrite List.Forall_forall in Hall. rewrite list_elem_of_In in Hi. rewrite Hall in Hc by done. done.
Qed.

End ScriptVal.

(** Two items, the second of which is refused: both are sent, and the error of
    the second is received first. *)
Definition sample_item (i : Z) : txValidateItem :=
  mkItem i (mkTxIn (mkOutPoint zero_hash 0) [] [] 0) (mkMsgTx 1 [] [] 0) None.
Definition sample_check (i : txValidateItem) : result rule_error unit :=
  if vi_txInIndex i =? 0 then Ok tt else Err ErrScriptValidation.

Lemma validate_any_schedule_witness :
  let items := [sample_item 0; sample_item 1] in
  nsteps (pool_step sample_check 2) 3 (start_pool 1 items) (Returned (Err ErrScriptValidation))
  /\ exists i, i ∈ items /\ sample_check i = Err ErrScriptValidation.
Proof.
  assert (Hrun : nsteps (pool_step sample_check 2) 3 (start_pool 1 [sample_item 0; sample_item 1])
    (Returned (Err ErrScriptValidation))).
  { eapply nsteps_l; [apply step_send; lia|]. eapply nsteps_l; [apply step_send; lia|].
    eapply nsteps_l; [|apply nsteps_O].
    apply (step_error sample_check 2 [] (sample_item 1) [sample_item 0]); [lia|reflexivity|discriminate]. }
  split; [exact Hrun|].
  destruct (validate_any_schedule sample_check [sample_item 0; sample_item 1] 1 _ 3 Hrun) as (_ & _ & Hr).
  apply (proj2 (Hr _ eq_refl)). discriminate.
Defined.
