(* ===== verification/ConnectBlock.v ===== *)
(** * Connecting a block to a view: blockchain/validate.go, blockchain/weight.go
    and the sequence locks of blockchain/chain.go

    [checkConnectBlock] loads the outputs a block spends, counts signature
    operations, checks the inputs of each transaction and connects it to the view,
    limits what the coinbase may claim, and validates the scripts.  The file shows
    that a block it accepts is a step of the abstract ledger, that the step can
    be undone with the journal, and what it does to the total supply. *)

From Stdlib Require Import String.
From S2P Require Import Prelude Float64 Chainhash Vote Wire Hash WireMsg ScriptNum Stack Opcode Script Merkle BlockIndex.
From S2P Require Import Signature Engine EngineSafety EngineCache Compress Validate Utxo ScriptVal.

(** The chain parameters the checks use. *)
Record Params := mkParams {
  GenesisHash : Hash;
  BIP0034Height : Z; BIP0065Height : Z; BIP0066Height : Z;
  CoinbaseMaturity : Z;                (** uint16 *)
  SubsidyReductionInterval : Z
}.

Definition Bip16Activation : Z := 1333238400.

(** ** Signature operations *)

Fixpoint p2sh_sigops (view : UtxoViewpoint) (totalSigOps : Z) (ins : list TxIn) : result rule_error Z :=
  match ins with
  | [] => Ok totalSigOps
  | txIn :: ins =>
      match LookupEntry view (ti_PreviousOutPoint txIn) with
      | None => Err ErrMissingTxOut
      | Some utxo =>
          if IsSpent utxo then Err ErrMissingTxOut
          else
            let pkScript := ue_pkScript utxo in
            if negb (IsPayToScriptHash pkScript) then p2sh_sigops view totalSigOps ins
            else
              let numSigOps := GetPreciseSigOpCount (ti_SignatureScript txIn) pkScript true in
              let lastSigOps := totalSigOps in
              let totalSigOps := i64 (totalSigOps + numSigOps) in
              if totalSigOps <? lastSigOps then Err ErrTooManySigOps else p2sh_sigops view totalSigOps ins
      end
  end.

Definition CountP2SHSigOps (tx : MsgTx) (isCoinBaseTx : bool) (view : UtxoViewpoint) : result rule_error Z :=
  if isCoinBaseTx then Ok 0 else p2sh_sigops view 0 (tx_TxIn tx).

Fixpoint witness_sigops (view : UtxoViewpoint) (numSigOps : Z) (ins : list TxIn) : result rule_error Z :=
  match ins with
  | [] => Ok numSigOps
  | txIn :: ins =>
      match LookupEntry view (ti_PreviousOutPoint txIn) with
      | None => Err ErrMissingTxOut
      | Some utxo =>
          if IsSpent utxo then Err ErrMissingTxOut
          else match GetWitnessSigOpCount (ti_SignatureScript txIn) (ue_pkScript utxo) (ti_Witness txIn) with
               | Ok n => witness_sigops view (i64 (numSigOps + n)) ins
               | _ => Panic
               end
      end
  end.

(** An error of [CountP2SHSigOps] is not passed on: the cost is then 0. *)
Definition GetSigOpCost (tx : MsgTx) (isCoinBaseTx : bool) (view : UtxoViewpoint) (bip16 segWit : bool)
  : result rule_error Z :=
  let numSigOps := i64 (CountSigOps tx * WitnessScaleFactor) in
  let rest numSigOps :=
    if segWit && negb isCoinBaseTx then witness_sigops view numSigOps (tx_TxIn tx) else Ok numSigOps in
  if bip16 then
    match CountP2SHSigOps tx isCoinBaseTx view with
    | Ok numP2SHSigOps => rest (i64 (numSigOps + numP2SHSigOps * WitnessScaleFactor))
    | Err _ => Ok 0
    | Panic => Panic
    end
  else rest numSigOps.

(** The loop of [checkConnectBlock]; [i] is the position of the transaction. *)
Fixpoint block_sigops (view : UtxoViewpoint) (enforceBIP0016 : bool) (totalSigOpCost : Z) (i : nat)
  (txs : list MsgTx) : result rule_error unit :=
  match txs with
  | [] => Ok tt
  | tx :: txs =>
      let* sigOpCost := GetSigOpCost tx (i =? 0)%nat view enforceBIP0016 false in
      let lastSigOpCost := totalSigOpCost in
      let totalSigOpCost := i64 (totalSigOpCost + sigOpCost) in
      if (totalSigOpCost <? lastSigOpCost) || (MaxBlockSigOpsCost <? totalSigOpCost)
      then Err ErrTooManySigOps
      else block_sigops view enforceBIP0016 totalSigOpCost (S i) txs
  end.

(** ** Inputs *)

(** The loop over the inputs: the running total. *)
Fixpoint check_inputs (txHeight maturity : Z) (view : UtxoViewpoint) (totalSatoshiIn : Z) (ins : list TxIn)
  : result rule_error Z :=
  match ins with
  | [] => Ok totalSatoshiIn
  | txIn :: ins =>
      match LookupEntry view (ti_PreviousOutPoint txIn) with
      | None => Err ErrMissingTxOut
      | Some utxo =>
          if IsSpent utxo then Err ErrMissingTxOut
          else if IsCoinBase utxo && (i32 (txHeight - ue_blockHeight utxo) <? i32 maturity)
               then Err ErrImmatureSpend
          else
            let originTxSatoshi := ue_amount utxo in
            if originTxSatoshi <? 0 then Err ErrBadTxOutValue
            else if MaxSatoshi <? originTxSatoshi then Err ErrBadTxOutValue
            else
              let lastSatoshiIn := totalSatoshiIn in
              let totalSatoshiIn := i64 (totalSatoshiIn + originTxSatoshi) in
              if (totalSatoshiIn <? lastSatoshiIn) || (MaxSatoshi <? totalSatoshiIn)
              then Err ErrBadTxOutValue
              else check_inputs txHeight maturity view totalSatoshiIn ins
      end
  end.

Definition total_out (outs : list TxOut) : Z :=
  fold_left (fun total txOut => i64 (total + to_Value txOut)) outs 0.

Definition CheckTransactionInputs (tx : MsgTx) (txHeight : Z) (view : UtxoViewpoint) (params : Params)
  : result rule_error Z :=
  if IsCoinBaseTx tx then Ok 0
  else
    let* totalSatoshiIn := check_inputs txHeight (CoinbaseMaturity params) view 0 (tx_TxIn tx) in
    let totalSatoshiOut := total_out (tx_TxOut tx) in
    if totalSatoshiIn <? totalSatoshiOut then Err ErrSpendTooHigh
    else Ok (i64 (totalSatoshiIn - totalSatoshiOut)).

(** ** Sequence locks *)

Definition SequenceLockTimeGranularity : Z := 9.

(** The loop over the inputs; the ancestor lookup returns nil, and the median
    time of nil panics, when the height is above the node's. *)
Fixpoint input_locks (node : blockNode) (view : UtxoViewpoint) (nextHeight : Z) (lock : SequenceLock)
  (ins : list TxIn) : result rule_error SequenceLock :=
  match ins with
  | [] => Ok lock
  | txIn :: ins =>
      match LookupEntry view (ti_PreviousOutPoint txIn) with
      | None => Err ErrMissingTxOut
      | Some utxo =>
          let inputHeight := if ue_blockHeight utxo =? 0x7fffffff then nextHeight else ue_blockHeight utxo in
          let sequenceNum := ti_Sequence txIn in
          let relativeLock := Z.land sequenceNum SequenceLockTimeMask in
          if Z.land sequenceNum SequenceLockTimeDisabled =? SequenceLockTimeDisabled
          then input_locks node view nextHeight lock ins
          else if Z.land sequenceNum SequenceLockTimeIsSeconds =? SequenceLockTimeIsSeconds then
            let prevInputHeight := i32 (inputHeight - 1) in
            let prevInputHeight := if prevInputHeight <? 0 then 0 else prevInputHeight in
            match Ancestor node prevInputHeight with
            | None => Panic
            | Some blockNode =>
                let medianTime := CalcPastMedianTime blockNode in
                let timeLockSeconds := Z.shiftl relativeLock SequenceLockTimeGranularity - 1 in
                let timeLock := i64 (medianTime + timeLockSeconds) in
                let lock := if Seconds lock <? timeLock then mkSequenceLock timeLock (sl_BlockHeight lock) else lock in
                input_locks node view nextHeight lock ins
            end
          else
            let blockHeight := i32 (inputHeight + i32 (relativeLock - 1)) in
            let lock := if sl_BlockHeight lock <? blockHeight then mkSequenceLock (Seconds lock) blockHeight else lock in
            input_locks node view nextHeight lock ins
      end
  end.

(** The deployment check is commented out in the source, so that only
    transactions of the memory pool have active locks. *)
Definition calcSequenceLock (node : blockNode) (tx : MsgTx) (view : UtxoViewpoint) (mempool : bool)
  : result rule_error SequenceLock :=
  let sequenceLock := mkSequenceLock (-1) (-1) in
  let csvSoftforkActive := mempool in
  let sequenceLockActive := (2 <=? tx_Version tx) && csvSoftforkActive in
  if negb sequenceLockActive || IsCoinBaseTx tx then Ok sequenceLock
  else input_locks node view (i32 (height node + 1)) sequenceLock (tx_TxIn tx).

Definition LockTimeToSequence (isSeconds : bool) (locktime : Z) : Z :=
  if negb isSeconds then locktime
  else Z.lor SequenceLockTimeIsSeconds (Z.shiftr locktime SequenceLockTimeGranularity).

Fixpoint check_locks (node : blockNode) (view : UtxoViewpoint) (medianTime : Z) (txs : list MsgTx)
  : result rule_error unit :=
  match txs with
  | [] => Ok tt
  | tx :: txs =>
      let* sequenceLock := calcSequenceLock node tx view false in
      if negb (SequenceLockActive sequenceLock (height node) medianTime) then Err ErrUnfinalizedTx
      else check_locks node view medianTime txs
  end.

(** ** Duplicate transactions *)

(** [newHashFromStr] on the literals of the source; it cannot fail on them. *)
Definition hash_literal (s : string) : list byte :=
  match NewHashFromStr (list_byte_of_string s) with Ok h => h | _ => [] end.
Definition block91842Hash : Hash :=
  hash_literal "00000000000a4d0a398161ffc163c503763b1f4360639393e0e4c8e300e0caec".
Definition block91880Hash : Hash :=
  hash_literal "00000000000743f190a18c5577a3c2d2a1f610ae9601ac046a38084ccb7cd721".

Definition isBIP0030Node (node : blockNode) : bool :=
  if (height node =? 91842) && bool_decide (hash node = block91842Hash) then true
  else if (height node =? 91880) && bool_decide (hash node = block91880Hash) then true
  else false.

Section Connect.
Context `{HashFunctions} `{ScriptHashes} `{Curve} `{MapOrder}.
Context {D : Type} `{UtxoSource D} `{OutPointOrder}.

Definition block_outputs (txs : list MsgTx) : gset OutPoint := ⋃ (map output_set txs).

Definition unspent_entry (view : UtxoViewpoint) (o : OutPoint) : bool :=
  match LookupEntry view o with Some utxo => negb (IsSpent utxo) | None => false end.

Definition checkBIP0030 (db : D) (txs : list MsgTx) (view : UtxoViewpoint) : result rule_error UtxoViewpoint :=
  let fetchSet := block_outputs txs in
  let* view := fetchUtxos db fetchSet view in
  if existsb (unspent_entry view) (range_set fetchSet) then Err ErrOverwriteTx else Ok view.

(** ** The block *)

(** The loop that checks and connects each transaction, with the total of the
    fees. *)
Fixpoint connect_checked (params : Params) (h : Z) (txs : list MsgTx) (totalFees : Z)
  (stxos : option (list SpentTxOut)) (view : UtxoViewpoint)
  : result rule_error (Z * UtxoViewpoint * option (list SpentTxOut)) :=
  match txs with
  | [] => Ok (totalFees, view, stxos)
  | tx :: txs =>
      let* txFee := CheckTransactionInputs tx h view params in
      let lastTotalFees := totalFees in
      let totalFees := i64 (totalFees + txFee) in
      if totalFees <? lastTotalFees then Err ErrBadFees
      else
        let* (view, stxos) := connectTransaction tx h stxos view in
        connect_checked params h txs totalFees stxos view
  end.

(** The flags the scripts are run with. *)
Definition script_flags (params : Params) (node : blockNode) (version : Z) : Z :=
  let scriptFlags := if Bip16Activation <=? timestamp node then ScriptBip16 else 0 in
  let scriptFlags := if (3 <=? version) && (BIP0066Height params <=? height node)
                     then Z.lor scriptFlags ScriptVerifyDERSignatures else scriptFlags in
  let scriptFlags := if (4 <=? version) && (BIP0065Height params <=? height node)
                     then Z.lor scriptFlags ScriptVerifyCheckLockTimeVerify else scriptFlags in
  Z.lor scriptFlags ScriptVerifyCheckSequenceVerify.

(** [blockHeight] is the height of the [drcutil.Block], which the caller sets; a
    node without a parent panics at the median time. *)
Definition checkConnectBlock (params : Params) (db : D) (node : blockNode) (block : MsgBlock) (blockHeight : Z)
  (sigCache : option SigCache) (view : UtxoViewpoint) (stxos : option (list SpentTxOut))
  : result rule_error (UtxoViewpoint * option (list SpentTxOut)) :=
  let txs := mb_Transactions block in
  if bool_decide (hash node = GenesisHash params) then Err ErrMissingTxOut
  else if negb (bool_decide (bestHash view = bh_PrevBlock (mb_Header block))) then Err AssertError
  else
    let* view :=
      (if negb (isBIP0030Node node) && (height node <? BIP0034Height params)
       then checkBIP0030 db txs view else Ok view) in
    let* view := fetchInputUtxos db block blockHeight view in
    let enforceBIP0016 := Bip16Activation <=? timestamp node in
    let* _ := block_sigops view enforceBIP0016 0 0 txs in
    let* (totalFees, view, stxos) := connect_checked params (height node) txs 0 stxos view in
    match txs with
    | [] => Panic
    | coinbase :: _ =>
        let totalSatoshiOut := total_out (tx_TxOut coinbase) in
        let expectedSatoshiOut :=
          i64 (CalcBlockSubsidy (height node) (SubsidyReductionInterval params) + totalFees) in
        if expectedSatoshiOut <? totalSatoshiOut then Err ErrBadCoinbaseValue
        else
          match parent node with
          | None => Panic
          | Some par =>
              let medianTime := CalcPastMedianTime par in
              let* _ := check_locks node view medianTime txs in
              let* _ := checkBlockScripts txs view
                          (script_flags params node (bh_Version (mb_Header block))) sigCache in
              Ok (SetBestHash (hash node) view, stxos)
          end
    end.

(** ** The supply of a ledger *)

Definition total (l : gmap OutPoint coin) : Z := map_fold (fun _ c acc => c_amount c + acc) 0 l.

Definition nonneg (c : coin) : Prop := 0 <= c_amount c.

Lemma total_insert o c l : l !! o = None -> total (<[o := c]> l) = c_amount c + total l.
Proof. intros Ho. unfold total. rewrite map_fold_insert_L; [done| |done]. intros. lia. Qed.

Lemma total_delete o c l : l !! o = Some c -> total l = c_amount c + total (delete o l).
Proof.
  intros Ho. rewrite <- (insert_id l o c Ho) at 1. rewrite <- insert_delete_eq.
  apply total_insert, lookup_delete_eq.
Qed.

Lemma total_insert_le o c l :
  map_Forall (fun _ => nonneg) l -> total (<[o := c]> l) <= c_amount c + total l.
Proof.
  intros Hl. destruct (l !! o) as [c0|] eqn:Ho.
  - rewrite <- insert_delete_eq, total_insert by apply lookup_delete_eq.
    pose proof (Hl o c0 Ho) as Hn. unfold nonneg in Hn. rewrite (total_delete o c0 l Ho). lia.
  - rewrite total_insert by done. lia.
Qed.

Lemma spend_coins_total os l cs l' :
  spend_coins os l = Some (cs, l') -> total l = sumZ c_amount cs + total l'.
Proof.
  revert l cs. induction os as [|o os IH]; intros l cs Hs; cbn [spend_coins] in Hs.
  { injection Hs as <- <-. cbn. lia. }
  destruct (l !! o) as [c|] eqn:Ho; [|done]. destruct (spend_coins os _) as [[cs' l1]|] eqn:Hr; [|done].
  injection Hs as <- <-. rewrite (total_delete o c l Ho), (IH _ _ Hr).
  change (sumZ c_amount (c :: cs')) with (c_amount c + sumZ c_amount cs'). lia.
Qed.

Lemma add_coins_total cs l :
  Forall (fun p => nonneg p.2) cs -> map_Forall (fun _ => nonneg) l ->
  total (add_coins cs l) <= total l + sumZ (fun p => c_amount p.2) cs.
Proof.
  revert l. induction cs as [|[o c] cs IH]; intros l Hc Hl; [cbn; lia|].
  apply Forall_cons_iff in Hc as [Hc Hcs]. change (add_coins ((o, c) :: cs) l) with (add_coins cs (<[o := c]> l)).
  change (sumZ _ ((o, c) :: cs)) with (c_amount c + sumZ (fun p : OutPoint * coin => c_amount p.2) cs).
  specialize (IH (<[o := c]> l) Hcs). pose proof (total_insert_le o c l Hl).
  enough (map_Forall (fun _ => nonneg) (<[o := c]> l)) by (specialize (IH ltac:(done)); lia).
  by apply map_Forall_insert_2.
Qed.

Lemma coin_outs_total tx i outs cb h :
  Forall (fun o => 0 <= to_Value o <= MaxSatoshi) outs ->
  sumZ (fun p => c_amount p.2) (coin_outs tx i outs cb h) <= sumZ to_Value outs.
Proof.
  revert i. induction outs as [|o outs IH]; intros i Hv; cbn [coin_outs]; [cbn; lia|].
  apply Forall_cons_iff in Hv as [Ho Hv]. specialize (IH (S i) Hv). rewrite sumZ_app.
  change (sumZ to_Value (o :: outs)) with (to_Value o + sumZ to_Value outs).
  destruct (IsUnspendable _); cbn [sumZ foldr snd c_amount]; unfold sumZ in *; cbn; lia.
Qed.

Lemma tx_coins_nonneg tx h : tx_sane tx -> Forall (fun p => nonneg p.2) (tx_coins tx h).
Proof.
  intros Hs. apply coin_outs_coins. intros o Ho. unfold nonneg. cbn.
  pose proof (sane_values tx Hs) as Hv. rewrite List.Forall_forall in Hv. apply list_elem_of_In, Hv in Ho. lia.
Qed.

(** The int64 total of the outputs of a sane transaction is exact. *)
Lemma total_out_sane tx : tx_sane tx -> total_out (tx_TxOut tx) = sumZ to_Value (tx_TxOut tx).
Proof.
  intros Hs. unfold total_out. pose proof (sane_values tx Hs) as Hv. pose proof (sane_total tx Hs) as Ht.
  assert (Hgen : forall outs t, 0 <= t -> Forall (fun o => 0 <= to_Value o <= MaxSatoshi) outs ->
    t + sumZ to_Value outs <= MaxSatoshi ->
    fold_left (fun total txOut => i64 (total + to_Value txOut)) outs t = t + sumZ to_Value outs).
  { induction outs as [|o outs IH]; intros t H0' Hall Hle; [cbn; lia|].
    apply Forall_cons_iff in Hall as [Ho Hall].
    change (sumZ to_Value (o :: outs)) with (to_Value o + sumZ to_Value outs) in *.
    assert (0 <= sumZ to_Value outs).
    { clear - Hall. induction Hall as [|x l Hx _ IHl]; cbn; [lia|]. unfold sumZ in IHl. lia. }
    cbn [fold_left]. rewrite MaxSatoshi_val in *. rewrite i64_small by (widths; lia). rewrite IH; [lia|lia|done|lia]. }
  rewrite Hgen; [lia|lia|done|lia].
Qed.

(** ** What the input check guarantees *)

(** The entry of an input is there, unspent, mature and in range. *)
Definition good_input (h maturity : Z) (view : UtxoViewpoint) (txIn : TxIn) (e : UtxoEntry) : Prop :=
  LookupEntry view (ti_PreviousOutPoint txIn) = Some e /\ IsSpent e = false
  /\ (IsCoinBase e = true -> i32 maturity <= i32 (h - ue_blockHeight e))
  /\ 0 <= ue_amount e <= MaxSatoshi.

Lemma check_inputs_spec h maturity view t ins T :
  0 <= t <= MaxSatoshi -> check_inputs h maturity view t ins = Ok T ->
  exists es, Forall2 (good_input h maturity view) ins es /\ T = t + sumZ ue_amount es /\ t <= T <= MaxSatoshi.
Proof.
  pose proof MaxSatoshi_val as Hm. revert t. induction ins as [|i ins IH]; intros t Ht Hc; cbn [check_inputs] in Hc.
  { injection Hc as <-. exists []. split; [constructor|]. cbn. lia. }
  destruct (LookupEntry view (ti_PreviousOutPoint i)) as [e|] eqn:He; [|done].
  destruct (IsSpent e) eqn:Hs; [done|].
  destruct (IsCoinBase e && (i32 (h - ue_blockHeight e) <? i32 maturity)) eqn:Hcb; [done|].
  destruct (ue_amount e <? 0) eqn:H0'; [done|]. destruct (MaxSatoshi <? ue_amount e) eqn:H1'; [done|].
  rewrite i64_small in Hc by (widths; lia).
  destruct (_ || _) eqn:Ho in Hc; [done|].
  destruct (IH (t + ue_amount e)) as (es & Hes & -> & Hr); [lia|done|]. exists (e :: es).
  change (sumZ ue_amount (e :: es)) with (ue_amount e + sumZ ue_amount es).
  split; [|split; lia]. constructor; [|done]. split; [done|]. split; [done|]. split; [|lia].
  intros Hc'. rewrite Hc' in Hcb. cbn in Hcb. lia.
Qed.

Lemma CheckTransactionInputs_spec tx h view params fee :
  tx_sane tx -> CheckTransactionInputs tx h view params = Ok fee ->
  if IsCoinBaseTx tx then fee = 0
  else exists es, Forall2 (good_input h (CoinbaseMaturity params) view) (tx_TxIn tx) es
    /\ fee = sumZ ue_amount es - sumZ to_Value (tx_TxOut tx) /\ 0 <= fee <= MaxSatoshi.
Proof.
  intros Hs. unfold CheckTransactionInputs. destruct (IsCoinBaseTx tx); [by intros [= <-]|].
  intros Hc. apply rbind_Ok in Hc as (T & HT & Hc).
  apply check_inputs_spec in HT as (es & Hes & -> & Hr); [|rewrite MaxSatoshi_val; lia].
  rewrite total_out_sane in Hc by done. exists es. split; [done|].
  destruct (_ <? _) eqn:Hlt in Hc; [done|].
  assert (0 <= sumZ to_Value (tx_TxOut tx)).
  { pose proof (sane_values tx Hs) as Hv. clear - Hv. induction Hv as [|x l Hx _ IHl]; cbn; [lia|]. unfold sumZ in IHl. lia. }
  rewrite MaxSatoshi_val in *. rewrite i64_small in Hc by (widths; lia). injection Hc as <-. lia.
Qed.

Lemma good_inputs_coins h maturity db view P l ins es cs l' :
  Forall2 (good_input h maturity view) ins es -> agrees P db view l ->
  (forall o, o ∈ map ti_PreviousOutPoint ins -> outpoint_ok o /\ ~ P o) -> NoDup (map ti_PreviousOutPoint ins) ->
  spend_coins (map ti_PreviousOutPoint ins) l = Some (cs, l') -> cs = map live_coin es.
Proof.
  intros Hes Ha Hp Hnd.
  assert (Hl : Forall2 (fun i e => l !! ti_PreviousOutPoint i = Some (live_coin e)) ins es).
  { clear Hnd. induction Hes as [|i e ins es (He & Hs & _) _ IH]; constructor.
    - rewrite <- Ha by (apply Hp; left). apply lookup_entry_some in He. unfold view_coin, entry_coin. by rewrite He, Hs.
    - apply IH. intros o Ho. apply Hp. by right. }
  clear Hes Ha Hp. revert l es cs Hl Hnd. induction ins as [|i ins IH]; intros l es cs Hl Hnd Hsp;
    inversion Hl as [|? e ? es' He Hl']; subst; cbn [map spend_coins] in *.
  { by injection Hsp as <- <-. }
  rewrite He in Hsp. apply list.NoDup_cons in Hnd as [Hnin Hnd].
  destruct (spend_coins _ (delete _ l)) as [[cs' l1]|] eqn:Hr; [|done]. injection Hsp as <- <-. f_equal.
  apply (IH (delete (ti_PreviousOutPoint i) l)); [|done|done].
  clear - Hl' Hnin. induction Hl' as [|i' e' ins es Hi _ IHl]; constructor; cbn [map] in Hnin;
    rewrite not_elem_of_cons in Hnin; destruct Hnin as [Hne Hnin]; [by rewrite lookup_delete_ne|by apply IHl].
Qed.

Lemma sumZ_map {A B} (f : B -> Z) (g : A -> B) l : sumZ f (map g l) = sumZ (fun a => f (g a)) l.
Proof. induction l as [|a l IH]; [done|]. cbn. unfold sumZ in IH. by rewrite IH. Qed.

(** One transaction: it is a step of the ledger, and the supply grows by what a
    coinbase pays, and shrinks by the fee of another transaction. *)
Lemma connect_tx_spec params h tx fee stxos P db view l view1 stxos1 :
  tx_sane tx -> agrees P db view l ->
  (IsCoinBaseTx tx = false -> forall o, o ∈ tx_inputs tx -> outpoint_ok o /\ ~ P o) ->
  map_Forall (fun _ => nonneg) l -> CheckTransactionInputs tx h view params = Ok fee ->
  connectTransaction tx h stxos view = Ok (view1, stxos1) ->
  exists cs l1, ledger_tx tx h l = Some (cs, l1) /\ stxos1 = journalled stxos cs
    /\ agrees (fun o => P o /\ o ∉ (tx_coins tx h).*1) db view1 l1 /\ bestHash view1 = bestHash view
    /\ map_Forall (fun _ => nonneg) l1 /\ 0 <= fee <= MaxSatoshi
    /\ total l1 + fee <= total l + (if IsCoinBaseTx tx then sumZ to_Value (tx_TxOut tx) else 0).
Proof.
  intros Hs Ha Hp Hl Hc Hct. apply CheckTransactionInputs_spec in Hc; [|done].
  destruct (connectTransaction_agrees P db tx h stxos view l Ha) as (cs & l1 & view' & Hlt & Hct' & Ha' & Hb).
  { intros Hcb. rewrite Hcb in Hc. destruct Hc as (es & Hes & _). split; [apply (sane_distinct tx Hs)|].
    intros o Ho. destruct (Hp Hcb o Ho) as [Hok Hnp]. split; [done|]. split; [|done]. apply list_elem_of_In, in_map_iff in Ho as (i & <- & Hi).
    apply list_elem_of_In, list_elem_of_lookup in Hi as [k Hk].
    destruct (Forall2_lookup_l _ _ _ _ _ Hes Hk) as (e & _ & He & Hsp & _). by exists e. }
  rewrite Hct in Hct'. injection Hct' as -> ->. exists cs, l1. do 4 (split; [done|]).
  assert (Hl1 : map_Forall (fun _ => nonneg) l1).
  { eapply (ledger_tx_coins tx h l cs l1 nonneg); [|done|done]. intros o Ho. unfold nonneg. cbn.
    pose proof (sane_values tx Hs) as Hv. rewrite List.Forall_forall in Hv. apply list_elem_of_In, Hv in Ho. lia. }
  split; [done|]. pose proof (coin_outs_total tx 0 (tx_TxOut tx) (IsCoinBaseTx tx) h (sane_values tx Hs)) as Hout.
  fold (tx_coins tx h) in Hout. pose proof (tx_coins_nonneg tx h Hs) as Hn.
  unfold ledger_tx in Hlt. destruct (IsCoinBaseTx tx) eqn:Hcb.
  - subst fee. injection Hlt as <- <-. pose proof (add_coins_total _ _ Hn Hl). rewrite MaxSatoshi_val. lia.
  - destruct (spend_coins (tx_inputs tx) l) as [[cs' l0]|] eqn:Hsp; [|done]. injection Hlt as <- <-.
    destruct Hc as (es & Hes & Hfee & Hr).
    pose proof (good_inputs_coins _ _ db view P l _ _ _ _ Hes Ha (Hp eq_refl) (sane_distinct tx Hs) Hsp) as ->.
    pose proof (spend_coins_total _ _ _ _ Hsp) as Ht. rewrite sumZ_map in Ht. cbn [live_coin c_amount] in Ht.
    destruct (spend_coins_coins _ _ _ _ nonneg Hsp Hl) as [_ Hl0].
    pose proof (add_coins_total _ _ Hn Hl0). split; [done|].
    change (fun a : UtxoEntry => ue_amount a) with ue_amount in Ht. lia.
Qed.

Definition coinbase_out (txs : list MsgTx) : Z :=
  sumZ (fun tx => if IsCoinBaseTx tx then sumZ to_Value (tx_TxOut tx) else 0) txs.

Lemma connect_checked_spec params h txs f F stxos stxos' (needed : gset OutPoint) db view view' l :
  Forall tx_sane txs -> Forall (fun tx => Forall outpoint_ok (tx_inputs tx)) txs ->
  0 <= f < 2 ^ 63 -> map_Forall (fun _ => nonneg) l ->
  agrees (fun o => o ∈ created txs h /\ o ∉ needed) db view l ->
  (forall k tx o, txs !! k = Some tx -> IsCoinBaseTx tx = false -> o ∈ tx_inputs tx ->
     o ∈ created (drop k txs) h -> o ∈ needed) ->
  connect_checked params h txs f stxos view = Ok (F, view', stxos') ->
  exists cs l', ledger_txs txs h l = Some (cs, l') /\ implements db view' l'
    /\ stxos' = journalled stxos cs /\ bestHash view' = bestHash view
    /\ map_Forall (fun _ => nonneg) l' /\ 0 <= F < 2 ^ 63
    /\ total l' + F <= total l + f + coinbase_out txs.
Proof.
  revert f stxos view l. induction txs as [|tx txs IH]; intros f stxos view l Hs Hos Hf Hl Ha Hneed Hc; cbn [connect_checked] in Hc.
  { injection Hc as <- <- <-. exists [], l. split; [done|]. split.
    - intros o Hok. apply Ha; [done|]. intros [Ho _]. by apply not_elem_of_nil in Ho.
    - split; [destruct stxos; cbn; [by rewrite app_nil_r|done]|]. repeat split; try done; try lia. cbn. lia. }
  apply Forall_cons_iff in Hs as [Hs Hss], Hos as [Ho1 Hos].
  apply rbind_Ok in Hc as (fee & Hfee & Hc). destruct (_ <? f) eqn:Hov in Hc; [done|].
  apply rbind_Ok in Hc as ([view1 stxos1] & Hct & Hc).
  destruct (connect_tx_spec params h tx fee stxos _ db view l view1 stxos1 Hs Ha) as
    (cs & l1 & Hlt & -> & Ha1 & Hb & Hl1 & Hfr & Htot); try done.
  { intros Hcb o Ho. split; [rewrite List.Forall_forall in Ho1; by apply Ho1, list_elem_of_In|].
    intros [Hcr Hnn]. apply Hnn. by apply (Hneed O tx). }
  assert (Hexact : i64 (f + fee) = f + fee) by (rewrite MaxSatoshi_val in Hfr; width_lia).
  rewrite Hexact in Hc. edestruct (IH (f + fee)) as (cs' & l' & Hlt' & Hi & -> & Hb' & Hl' & HF & Htot'); try done.
  - clear - Hexact Hfr Hf. rewrite MaxSatoshi_val in Hfr. pose proof (i64_range (f + fee)). rewrite Hexact in H. widths. lia.
  - eapply agrees_weaken; [|exact Ha1]. intros o [[Hcr Hnn] Hnt]. split; [|done].
    apply created_in in Hcr as (k & tx' & Hk & Ho). destruct k as [|k]; [injection Hk as <-; done|].
    apply created_in. by exists k, tx'.
  - intros k tx' o Hk. apply (Hneed (S k)). done.
  - exists (cs ++ cs'), l'. cbn [ledger_txs]. rewrite Hlt, Hlt'. split; [done|]. split; [done|].
    split; [apply journalled_app|]. split; [congruence|]. split; [done|]. split; [done|].
    change (coinbase_out (tx :: txs)) with ((if IsCoinBaseTx tx then sumZ to_Value (tx_TxOut tx) else 0) + coinbase_out txs).
    lia.
Qed.

(** ** The whole check *)

(** What [checkBlockSanity] established of the transactions. *)
Record block_sane (txs : list MsgTx) : Prop := {
  bs_first : coinbase_first txs;
  bs_txs : Forall tx_sane txs;
  bs_inputs : Forall (fun tx => Forall outpoint_ok (tx_inputs tx)) txs;
  bs_distinct : NoDup (map TxHash txs)
}.

Lemma check_body_sane header txs size :
  Forall (fun tx => Forall outpoint_ok (tx_inputs tx)) txs -> check_body_sanity header txs size = Ok tt -> block_sane txs.
Proof.
  intros Hos Hc. apply check_body_inv in Hc as (first & others & -> & Hcb & Hno & Hs & _ & Hnd & _). split; [|done|done|done].
  split; [done|]. intros [|k] tx Hk; [by injection Hk as <-|]. cbn in Hk. rewrite List.Forall_forall in Hno.
  apply Hno, list_elem_of_In. by eapply list_elem_of_lookup_2.
Qed.

Lemma coin_outs_keys tx i outs cb h h' : (coin_outs tx i outs cb h).*1 = (coin_outs tx i outs cb h').*1.
Proof.
  revert i. induction outs as [|o outs IH]; intros i; cbn [coin_outs]; [done|]. rewrite !fmap_app, (IH (S i)). f_equal.
  by destruct (IsUnspendable _).
Qed.

Lemma created_height txs h h' : created txs h = created txs h'.
Proof.
  unfold created. f_equal. apply map_ext. intros tx. apply coin_outs_keys.
Qed.

Lemma CalcBlockSubsidy_nonneg h interval : 0 <= CalcBlockSubsidy h interval.
Proof.
  unfold CalcBlockSubsidy. case_if; [done|]. apply Z.shiftr_nonneg. done.
Qed.

Lemma coinbase_out_first txs :
  coinbase_first txs -> Forall tx_sane txs ->
  coinbase_out txs = match txs with [] => 0 | cb :: _ => total_out (tx_TxOut cb) end.
Proof.
  intros [_ Hcb] Hs. destruct txs as [|cb txs]; [done|]. apply Forall_cons_iff in Hs as [Hs _].
  change (coinbase_out (cb :: txs)) with ((if IsCoinBaseTx cb then sumZ to_Value (tx_TxOut cb) else 0) + coinbase_out txs).
  rewrite (Hcb O cb eq_refl), total_out_sane by done. cbn [Nat.eqb].
  enough (coinbase_out txs = 0) by lia.
  assert (Hno : forall tx, tx ∈ txs -> IsCoinBaseTx tx = false).
  { intros tx Htx. apply list_elem_of_lookup in Htx as [k Hk]. by rewrite (Hcb (S k) tx). }
  clear - Hno. induction txs as [|tx txs IH]; [done|].
  change (coinbase_out (tx :: txs)) with ((if IsCoinBaseTx tx then sumZ to_Value (tx_TxOut tx) else 0) + coinbase_out txs).
  rewrite (Hno tx) by left. rewrite IH; [done|]. intros tx' Htx'. apply Hno. by right.
Qed.

(** A view that holds nothing about the outputs of the block, as a new one. *)
Definition view_before (txs : list MsgTx) (view : UtxoViewpoint) : Prop :=
  forall o, o ∈ created txs 0 -> entries view !! o = None.

Lemma checkConnectBlock_spec params db node block bh sc view stxos view' stxos' l :
  let txs := mb_Transactions block in
  block_sane txs -> implements db view l -> map_Forall (fun _ => nonneg) l -> view_before txs view ->
  BIP0034Height params <= height node ->
  checkConnectBlock params db node block bh sc view stxos = Ok (view', stxos') ->
  exists cs l', ledger_txs txs (height node) l = Some (cs, l') /\ implements db view' l'
    /\ stxos' = journalled stxos cs /\ bestHash view' = hash node
    /\ map_Forall (fun _ => nonneg) l'
    /\ total l' <= total l + CalcBlockSubsidy (height node) (SubsidyReductionInterval params)
    /\ checkBlockScripts txs view' (script_flags params node (bh_Version (mb_Header block))) sc = Ok tt.
Proof.
  intros txs [Hcb Hs Hos Hnd] Himp Hl Hbefore Hbip Hc. unfold checkConnectBlock in Hc. fold txs in Hc.
  case_bool_decide; [done|]. case_bool_decide as Hbest; cbn [negb] in Hc; [|done].
  rewrite (proj2 (Z.ltb_ge _ _) Hbip), andb_false_r in Hc. cbn [rbind] in Hc.
  apply rbind_Ok in Hc as (view1 & Hf & Hc). apply rbind_Ok in Hc as ([] & _ & Hc).
  apply rbind_Ok in Hc as ([[F view2] stxos2] & Hcc & Hc).
  destruct (fetchInputUtxos_spec db block bh view view1 l Hnd) as (needed & Ha & Hb1 & Hneed); [|done|done|].
  { intros o Ho. apply Hbefore. by rewrite (created_height _ 0 bh). }
  fold txs in Ha, Hneed.
  destruct (connect_checked_spec params (height node) txs 0 F stxos stxos2 needed db view1 view2 l Hs)
    as (cs & l' & Hlt & Hi & -> & Hb2 & Hl' & HF & Htot); [done|lia|done| | |done|].
  { rewrite (created_height txs (height node) bh). done. }
  { intros k tx o Hk Hcbk Ho Hcr. apply (Hneed k tx); [|done|done|].
    - pose proof (proj2 Hcb k tx Hk) as Hz. rewrite Hcbk in Hz. symmetry in Hz. apply Nat.eqb_neq in Hz. lia.
    - by rewrite (created_height _ bh (height node)). }
  rewrite (coinbase_out_first txs Hcb Hs) in Htot.
  destruct txs as [|cb tail] eqn:Htxs; [done|].
  destruct (_ <? _) eqn:Hexp in Hc; [done|]. destruct (parent node) as [par|]; [|done].
  apply rbind_Ok in Hc as ([] & _ & Hc). apply rbind_Ok in Hc as ([] & Hscripts & Hc).
  injection Hc as <- <-. exists cs, l'. split; [done|]. split; [done|]. split; [done|]. split; [done|]. split; [done|].
  split; [|done]. pose proof (CalcBlockSubsidy_nonneg (height node) (SubsidyReductionInterval params)) as Hsub.
  set (sub := CalcBlockSubsidy _ _) in *. clear - Hexp Htot HF Hsub. width_lia.
Qed.

(** ** Properties of entries that connecting keeps *)

Section Keep.
Context (Q : OutPoint -> option UtxoEntry -> Prop) (db : D).
Hypothesis Q_Spend : forall o e, Q o (Some e) -> Q o (Some (Spend e)).
Hypothesis Q_load : forall o e, outpoint_ok o -> dbFetchUtxoEntry db o = Ok e -> Q o e.

Lemma connect_checked_keeps params h txs f stxos view F view' stxos' :
  Forall (outs_keep Q h) txs -> keeps Q view ->
  connect_checked params h txs f stxos view = Ok (F, view', stxos') -> keeps Q view'.
Proof.
  revert f stxos view. induction txs as [|tx txs IH]; intros f stxos view Ho Hv Hc; cbn [connect_checked] in Hc.
  { by injection Hc as <- <- <-. }
  apply Forall_cons_iff in Ho as [Ho1 Ho]. apply rbind_Ok in Hc as (fee & _ & Hc). destruct (_ <? f) in Hc; [done|].
  apply rbind_Ok in Hc as ([view1 s1] & H1' & Hc). eapply IH; [done| |exact Hc].
  by eapply (connectTransaction_keeps Q h).
Qed.

Lemma block_outputs_ok txs : set_Forall outpoint_ok (block_outputs txs).
Proof.
  intros o Ho. unfold block_outputs in Ho. apply elem_of_union_list in Ho as (X & HX & Ho).
  apply list_elem_of_In, in_map_iff in HX as (tx & <- & _). unfold output_set in Ho.
  apply elem_of_list_to_set, list_elem_of_In, in_map_iff in Ho as (i & <- & _). apply created_outpoint_ok.
Qed.

Lemma checkBIP0030_keeps txs view view' : keeps Q view -> checkBIP0030 db txs view = Ok view' -> keeps Q view'.
Proof.
  intros Hv Hc. unfold checkBIP0030 in Hc. apply rbind_Ok in Hc as (view1 & H1' & Hc).
  destruct (existsb _ _); [done|]. injection Hc as <-. eapply fetchUtxos_keeps; [done| |done|exact H1'].
  apply block_outputs_ok.
Qed.

Lemma checkConnectBlock_keeps params node block bh sc view stxos view' stxos' :
  let txs := mb_Transactions block in
  Forall (outs_keep Q bh) txs -> Forall (outs_keep Q (height node)) txs ->
  Forall (fun tx => Forall outpoint_ok (tx_inputs tx)) txs -> keeps Q view ->
  checkConnectBlock params db node block bh sc view stxos = Ok (view', stxos') -> keeps Q view'.
Proof.
  intros txs Hb Hh Hos Hv Hc. unfold checkConnectBlock in Hc. fold txs in Hc.
  case_bool_decide; [done|]. case_bool_decide; cbn [negb] in Hc; [|done].
  apply rbind_Ok in Hc as (view1 & H1' & Hc). apply rbind_Ok in Hc as (view2 & H2' & Hc).
  apply rbind_Ok in Hc as ([] & _ & Hc). apply rbind_Ok in Hc as ([[F view3] s3] & H3' & Hc).
  assert (Hv1 : keeps Q view1).
  { destruct (_ && _) in H1'; [by eapply checkBIP0030_keeps|by injection H1' as <-]. }
  assert (Hv2 : keeps Q view2) by (by apply (fetchInputUtxos_keeps Q db Q_load block bh view1)).
  assert (Hv3 : keeps Q view3) by (by eapply connect_checked_keeps).
  destruct txs; [done|]. destruct (_ <? _) in Hc; [done|]. destruct (parent node); [|done].
  apply rbind_Ok in Hc as ([] & _ & Hc). apply rbind_Ok in Hc as ([] & _ & Hc). by injection Hc as <- <-.
Qed.

End Keep.

(** [CheckTransactionInputs] accepts exactly the transactions whose inputs are
    good and worth what the outputs are. *)
Lemma check_inputs_complete h maturity view t ins es :
  Forall2 (good_input h maturity view) ins es -> 0 <= t -> t + sumZ ue_amount es <= MaxSatoshi ->
  check_inputs h maturity view t ins = Ok (t + sumZ ue_amount es).
Proof.
  pose proof MaxSatoshi_val as Hm. intros Hes. revert t.
  induction Hes as [|i e ins es (He & Hs & Hmat & Hamt) Hes IH]; intros t Ht Hle; [cbn; f_equal; lia|].
  change (sumZ ue_amount (e :: es)) with (ue_amount e + sumZ ue_amount es) in *.
  assert (0 <= sumZ ue_amount es).
  { clear - Hes. induction Hes as [|? ? ? ? (_ & _ & _ & Ha) _ IH]; cbn; [lia|]. unfold sumZ in IH. lia. }
  cbn [check_inputs]. rewrite He, Hs. rewrite (proj2 (andb_false_iff _ _)).
  2:{ destruct (IsCoinBase e); [right; specialize (Hmat eq_refl); lia|by left]. }
  rewrite !(proj2 (Z.ltb_ge _ _)) by lia. rewrite i64_small by (widths; lia).
  rewrite (proj2 (orb_false_iff _ _)) by lia. rewrite IH by lia. f_equal. lia.
Qed.

(** ** No panic *)

Section NoPanic.
Context (params : Params) (db : D).
Hypothesis readable : forall o, outpoint_ok o -> safe (dbFetchUtxoEntry db o) (fun _ => True).

Lemma load_all_safe os view : Forall outpoint_ok os -> safe (load_all db os view) (fun _ => True).
Proof.
  revert view. induction os as [|o os IH]; intros view Hos; [done|]. apply Forall_cons_iff in Hos as [Ho Hos].
  cbn [load_all]. eapply safe_bind; [by apply readable|]. intros e _. by apply IH.
Qed.

Lemma fetchUtxosMain_safe os view : set_Forall outpoint_ok os -> safe (fetchUtxosMain db os view) (fun _ => True).
Proof.
  intros Hos. unfold fetchUtxosMain. destruct (_ =? _)%nat; [done|]. apply load_all_safe.
  rewrite range_set_perm. by apply set_Forall_elements.
Qed.

Lemma need_inputs_safe txs i bh ins st :
  Forall outpoint_ok (map ti_PreviousOutPoint ins) -> set_Forall outpoint_ok st.2 ->
  safe (need_inputs txs (tx_in_flight txs) i bh ins st) (fun st => set_Forall outpoint_ok st.2).
Proof.
  revert st. induction ins as [|txIn ins IH]; intros [view needed] Hos Hn; [done|].
  cbn [map] in Hos. apply Forall_cons_iff in Hos as [Ho Hos]. cbn [need_inputs].
  destruct (tx_in_flight txs !! _) as [j|] eqn:Hj; [destruct (j <=? i)%nat|].
  - apply tx_in_flight_sound in Hj as (tx & -> & _). by apply IH.
  - destruct (in_view _ _); apply IH; cbn; try done. apply set_Forall_union; [by apply set_Forall_singleton|done].
  - destruct (in_view _ _); apply IH; cbn; try done. apply set_Forall_union; [by apply set_Forall_singleton|done].
Qed.

Lemma need_all_safe txs i bh tail st :
  Forall (fun tx => Forall outpoint_ok (tx_inputs tx)) tail -> set_Forall outpoint_ok st.2 ->
  safe (need_all txs (tx_in_flight txs) i bh tail st) (fun st => set_Forall outpoint_ok st.2).
Proof.
  revert i st. induction tail as [|tx tail IH]; intros i st Hos Hn; [done|]. apply Forall_cons_iff in Hos as [Ho Hos].
  cbn [need_all]. eapply safe_bind; [by apply need_inputs_safe|]. intros st' Hn'. by apply IH.
Qed.

Lemma fetchInputUtxos_safe block bh view :
  mb_Transactions block <> [] -> Forall (fun tx => Forall outpoint_ok (tx_inputs tx)) (mb_Transactions block) ->
  safe (fetchInputUtxos db block bh view) (fun _ => True).
Proof.
  unfold fetchInputUtxos. destruct (mb_Transactions block) as [|cb tail]; [done|]. intros _ Hos.
  apply Forall_cons_iff in Hos as [_ Hos]. eapply safe_bind; [apply need_all_safe; [done|apply set_Forall_empty]|].
  intros [view' needed] Hn. by apply fetchUtxosMain_safe.
Qed.

Lemma checkBIP0030_safe txs view : safe (checkBIP0030 db txs view) (fun _ => True).
Proof.
  unfold checkBIP0030, fetchUtxos. eapply (safe_bind _ _ (fun _ => True)); [|intros v _; by destruct (existsb _ _)].
  destruct (_ =? _)%nat; [done|]. apply fetchUtxosMain_safe. intros o Ho. apply elem_of_filter in Ho as [_ Ho].
  by apply block_outputs_ok in Ho.
Qed.

Lemma p2sh_sigops_safe view n ins : safe (p2sh_sigops view n ins) (fun _ => True).
Proof.
  revert n. induction ins as [|i ins IH]; intros n; cbn [p2sh_sigops]; [done|]. destruct (LookupEntry _ _); [|done].
  destruct (IsSpent _); [done|]. destruct (negb _); [apply IH|]. destruct (_ <? _); [done|apply IH].
Qed.

Lemma block_sigops_safe view b n i txs : safe (block_sigops view b n i txs) (fun _ => True).
Proof.
  revert n i. induction txs as [|tx txs IH]; intros n i; cbn [block_sigops]; [done|].
  eapply (safe_bind _ _ (fun _ => True)).
  - unfold GetSigOpCost. cbn [andb]. destruct b; [|done]. unfold CountP2SHSigOps. destruct (i =? 0)%nat; [done|].
    pose proof (p2sh_sigops_safe view 0 (tx_TxIn tx)) as Hp. by destruct (p2sh_sigops _ _ _).
  - intros c _. destruct (_ || _); [done|apply IH].
Qed.

Lemma check_inputs_safe h m view n ins : safe (check_inputs h m view n ins) (fun _ => True).
Proof.
  revert n. induction ins as [|i ins IH]; intros n; cbn [check_inputs]; [done|]. destruct (LookupEntry _ _); [|done].
  destruct (IsSpent _); [done|]. destruct (_ && _); [done|]. do 3 (destruct (_ <? _); [done|]). destruct (_ || _); [done|apply IH].
Qed.

Lemma spend_inputs_safe ins stxos view : safe (spend_inputs ins stxos view) (fun _ => True).
Proof.
  revert stxos view. induction ins as [|i ins IH]; intros stxos view; cbn [spend_inputs]; [done|].
  destruct (LookupEntry _ _); [apply IH|done].
Qed.

Lemma connect_checked_safe h txs fees stxos view : safe (connect_checked params h txs fees stxos view) (fun _ => True).
Proof.
  revert fees stxos view. induction txs as [|tx txs IH]; intros fees stxos view; cbn [connect_checked]; [done|].
  eapply (safe_bind _ _ (fun _ => True)); [|intros fee _; destruct (_ <? _); [done|]].
  - unfold CheckTransactionInputs. destruct (IsCoinBaseTx tx); [done|].
    eapply safe_bind; [apply check_inputs_safe|]. intros a _. by destruct (_ <? _).
  - eapply (safe_bind _ _ (fun _ => True)); [|intros [v s] _; apply IH].
    unfold connectTransaction. destruct (IsCoinBaseTx tx); [done|].
    eapply safe_bind; [apply spend_inputs_safe|]. by intros [v s] _.
Qed.

Lemma check_locks_safe node view mt txs : safe (check_locks node view mt txs) (fun _ => True).
Proof.
  induction txs as [|tx txs IH]; cbn [check_locks]; [done|]. unfold calcSequenceLock. rewrite andb_false_r.
  cbn [negb orb rbind]. by destruct (negb _).
Qed.

Lemma checkBlockScripts_safe txs view flags sc :
  Forall witness_bounded txs -> safe (checkBlockScripts txs view flags sc) (fun _ => True).
Proof.
  intros Hw. apply validate_in_order_safe. apply List.Forall_forall. intros item Hi. apply validateHandler_total.
  apply list_elem_of_In, block_items_tx in Hi as [tx [Htx ->]]. rewrite List.Forall_forall in Hw. by apply Hw, list_elem_of_In.
Qed.

(** Checking a block never panics: the node has a parent, the block a
    transaction, and the witnesses are as the wire format allows. *)
Lemma checkConnectBlock_safe node block bh sc view stxos :
  is_Some (parent node) -> mb_Transactions block <> [] ->
  Forall (fun tx => Forall outpoint_ok (tx_inputs tx)) (mb_Transactions block) ->
  Forall witness_bounded (mb_Transactions block) ->
  safe (checkConnectBlock params db node block bh sc view stxos) (fun _ => True).
Proof.
  intros [par Hpar] Hne Hos Hw. unfold checkConnectBlock. case_bool_decide; [done|]. destruct (negb _); [done|].
  eapply (safe_bind _ _ (fun _ => True)); [destruct (_ && _); [apply checkBIP0030_safe|done]|]. intros v1 _.
  eapply safe_bind; [by apply fetchInputUtxos_safe|]. intros v2 _.
  eapply safe_bind; [apply block_sigops_safe|]. intros _ _.
  eapply safe_bind; [apply connect_checked_safe|]. intros [[fees v3] st] _.
  destruct (mb_Transactions block) as [|cb tail] eqn:Htxs; [done|]. rewrite <- Htxs in Hw |- *. destruct (_ <? _); [done|].
  rewrite Hpar. eapply safe_bind; [apply check_locks_safe|]. intros _ _.
  eapply safe_bind; [by apply checkBlockScripts_safe|]. done.
Qed.

End NoPanic.

(** ** Properties *)

(** C19: a transaction that has passed the sanity check is accepted with a fee
    exactly when it is a coinbase and the fee is 0, or every input refers to an
    entry of the view that is unspent, mature if it is a coinbase, and in range,
    the inputs together do not exceed the money supply, and they are worth the
    outputs plus the fee, computed without overflow. *)
Theorem CheckTransactionInputs_accepts tx h view params fee :
  tx_sane tx ->
  CheckTransactionInputs tx h view params = Ok fee
  <-> if IsCoinBaseTx tx then fee = 0
      else exists es, Forall2 (good_input h (CoinbaseMaturity params) view) (tx_TxIn tx) es
        /\ sumZ ue_amount es <= MaxSatoshi
        /\ sumZ ue_amount es = sumZ to_Value (tx_TxOut tx) + fee /\ 0 <= fee.
Proof.
  intros Hs. unfold CheckTransactionInputs. destruct (IsCoinBaseTx tx) eqn:Hcb.
  { split; [by intros [= <-]|by intros ->]. }
  rewrite total_out_sane by done. pose proof MaxSatoshi_val as Hm.
  assert (H0' : 0 <= sumZ to_Value (tx_TxOut tx)).
  { pose proof (sane_values tx Hs) as Hv. clear - Hv. induction Hv as [|x l Hx _ IHl]; cbn; [lia|]. unfold sumZ in IHl. lia. }
  split.
  - intros Hc. apply rbind_Ok in Hc as (T & HT & Hc). apply check_inputs_spec in HT as (es & Hes & -> & Hr); [|lia].
    destruct (_ <? _) eqn:Hlt in Hc; [done|]. exists es. rewrite i64_small in Hc by (widths; lia).
    injection Hc as <-. split; [done|]. lia.
  - intros (es & Hes & Hle & Heq & Hfee). rewrite (check_inputs_complete _ _ _ 0 _ es) by (try done; lia).
    cbn [rbind]. rewrite (proj2 (Z.ltb_ge _ _)) by lia. rewrite i64_small by (widths; lia). f_equal. lia.
Qed.

(** C9: a block that has passed the sanity checks, from the height of BIP 34 on,
    and that [checkConnectBlock] accepts on an empty view with the hash of its
    parent, is a step of the ledger the database holds: each transaction in turn
    takes the coins of its inputs, which are there, and puts the coins of its
    outputs; the view ends up with the resulting ledger, the journal with the
    coins that were taken, in order, and the view's hash is that of the block. *)
Theorem accepted_block_refines_ledger params db node block bh sc stxos view' stxos' l :
  block_sane (mb_Transactions block) -> implements db NewUtxoViewpoint l -> map_Forall (fun _ => nonneg) l ->
  BIP0034Height params <= height node ->
  checkConnectBlock params db node block bh sc (SetBestHash (bh_PrevBlock (mb_Header block)) NewUtxoViewpoint) stxos
  = Ok (view', stxos') ->
  exists cs l', ledger_txs (mb_Transactions block) (height node) l = Some (cs, l')
    /\ implements db view' l' /\ stxos' = journalled stxos cs /\ bestHash view' = hash node.
Proof.
  intros Hs Himp Hl Hbip Hc. eapply checkConnectBlock_spec in Hc as (cs & l' & ? & ? & ? & ? & _); try done.
  by exists cs, l'.
Qed.

(** the supply: a block that is accepted increases the sum of all coins by
    at most the subsidy of its height, whatever fees it pays and however its
    amounts are chosen, and leaves no coin with a negative amount. *)
Theorem accepted_block_supply params db node block bh sc stxos view' stxos' l :
  block_sane (mb_Transactions block) -> implements db NewUtxoViewpoint l -> map_Forall (fun _ => nonneg) l ->
  BIP0034Height params <= height node ->
  checkConnectBlock params db node block bh sc (SetBestHash (bh_PrevBlock (mb_Header block)) NewUtxoViewpoint) stxos
  = Ok (view', stxos') ->
  exists l', implements db view' l' /\ map_Forall (fun _ => nonneg) l'
    /\ total l' <= total l + CalcBlockSubsidy (height node) (SubsidyReductionInterval params).
Proof.
  intros Hs Himp Hl Hbip Hc. eapply checkConnectBlock_spec in Hc as (cs & l' & ? & ? & ? & ? & ? & ? & _); try done.
  by exists l'.
Qed.

(** C18: disconnecting undoes connecting, under conditions: the journal that
    [checkConnectBlock] filled for an accepted block lets
    [disconnectTransactions] bring the view back to the ledger before the block
    and to the hash of its parent, if the block has passed the sanity checks, was
    checked on an empty view from the height of BIP 34 on, is not at height 0,
    does not recreate a coin that is still there, and no coin of the ledger
    comes from height 0, whose journal entries have a meaning of their own. *)
Theorem disconnect_restores_ledger params db node block bh sc view' stxos' l :
  let txs := mb_Transactions block in
  block_sane txs -> implements db NewUtxoViewpoint l -> map_Forall (fun _ => nonneg) l ->
  BIP0034Height params <= height node -> height node <> 0 -> map_Forall (fun _ c => c_height c <> 0) l ->
  no_overwrite txs (height node) l ->
  checkConnectBlock params db node block bh sc (SetBestHash (bh_PrevBlock (mb_Header block)) NewUtxoViewpoint) (Some [])
  = Ok (view', Some stxos') ->
  exists view'', disconnectTransactions db block (height node) stxos' view' = Ok (view'', stxos')
    /\ implements db view'' l /\ bestHash view'' = bh_PrevBlock (mb_Header block).
Proof.
  intros txs Hs Himp Hl Hbip Hh Hl0 Hno Hc.
  eapply checkConnectBlock_spec in Hc as (cs & l' & Hlt & Hi & Hj & _); try done.
  cbn in Hj. injection Hj as ->. by eapply disconnect_undoes; [..|apply (bs_first _ Hs)|].
Qed.

(** relative lock times (BIP 68) are not enforced on blocks: outside the
    memory pool [calcSequenceLock] returns the lock that is always met, whatever
    the inputs' sequence numbers ask for, so that the check of
    [checkConnectBlock] passes for every list of transactions. *)
Theorem block_locks_not_enforced node view medianTime txs :
  0 <= height node -> 0 <= medianTime ->
  (forall tx, calcSequenceLock node tx view false = Ok (mkSequenceLock (-1) (-1)))
  /\ check_locks node view medianTime txs = Ok tt.
Proof.
  intros Hh Hm. assert (Hall : forall tx, calcSequenceLock node tx view false = Ok (mkSequenceLock (-1) (-1))).
  { intros tx. unfold calcSequenceLock. by rewrite andb_false_r. }
  split; [done|]. induction txs as [|tx txs IH]; cbn [check_locks]; [done|]. rewrite Hall. cbn [rbind].
  unfold SequenceLockActive. cbn [Seconds sl_BlockHeight].
  by rewrite (proj2 (orb_false_iff _ _)) by lia.
Qed.

End Connect.

(** ** Witnesses *)

Section Witnesses.
#[local] Existing Instance prefix_hash_functions | 0.
#[local] Existing Instance prefix_script_hashes.
#[local] Existing Instance accepting_curve.
#[local] Existing Instance list_order.
#[local] Existing Instance elements_order.

(** A database that holds entries, and one with a single coin. *)
Abbreviation entry_db := (gmap OutPoint UtxoEntry) (only parsing).
#[local] Instance entry_source : UtxoSource entry_db :=
  {| dbFetchUtxoEntry db o := Ok (db !! o); dbFetchUtxoEntryByHash _ _ := Ok None |}.

Definition sample_coin_out : OutPoint := mkOutPoint (replicate 32 x07) 0.
Definition sample_db : entry_db := {[sample_coin_out := mkUtxoEntry 1000 [x51] 1 0]}.
Definition sample_ledger : gmap OutPoint coin := {[sample_coin_out := mkCoin 1000 [x51] 1 false]}.

(** A block at height 2: the coinbase takes the fee of 100, and a transaction
    spends the coin into two outputs. *)
Definition sample_cb : MsgTx :=
  mkMsgTx 1 [mkTxIn (mkOutPoint zero_hash MaxUint32) [x52; x00] [] 0] [mkTxOut 100 [x51]] 0.
Definition sample_spend : MsgTx :=
  mkMsgTx 2 [mkTxIn sample_coin_out [x51] [] 7] [mkTxOut 500 [x51]; mkTxOut 400 [x51]] 0.
Definition sample_connect_block : MsgBlock :=
  mkMsgBlock (mkBlockHeader 1 (hash sample_child) zero_hash 1600000000 [] [] 0 0) [sample_cb; sample_spend].
Definition sample_connect_node : blockNode :=
  newBlockNode (mb_Header sample_connect_block) (Some sample_child) 1.
Definition sample_params : Params := mkParams zero_hash 0 0 0 100 210000.

Lemma sample_implements : implements sample_db NewUtxoViewpoint sample_ledger.
Proof.
  intros o _. unfold view_coin, fetch_coin. cbn [entries NewUtxoViewpoint]. rewrite lookup_empty. cbn [dbFetchUtxoEntry entry_source].
  unfold sample_db, sample_ledger. destruct (decide (sample_coin_out = o)) as [<-|Hne].
  - by rewrite !lookup_singleton_eq.
  - by rewrite !lookup_singleton_ne.
Qed.

Lemma sample_nonneg : map_Forall (fun _ => nonneg) sample_ledger.
Proof. apply map_Forall_singleton. unfold nonneg. cbn. lia. Qed.

Lemma sample_sane : block_sane (mb_Transactions sample_connect_block).
Proof.
  split.
  - split; [done|]. intros [|[|k]] tx Hk; [by injection Hk as <-|by injection Hk as <-|done].
  - apply list.Forall_cons; split; [|apply list.Forall_cons; split; [|by apply list.Forall_nil]];
      apply CheckTransactionSanity_iff; vm_compute; reflexivity.
  - apply (bool_decide_unpack _). vm_compute. exact I.
  - apply (bool_decide_unpack _). vm_compute. exact I.
Qed.

(** The block is accepted, with the coin in the journal. *)
Definition result_view (r : result rule_error (UtxoViewpoint * option (list SpentTxOut))) : UtxoViewpoint :=
  match r with Ok (view, _) => view | _ => NewUtxoViewpoint end.
Definition sample_journal : list SpentTxOut := [mkSpentTxOut 1000 [x51] 1 false].

Lemma result_view_ok r j :
  match r with Ok (_, Some s) => s = j | _ => False end -> r = Ok (result_view r, Some j).
Proof. destruct r as [[view [s|]]|e|]; cbn; try done. by intros ->. Qed.

Definition sample_view : UtxoViewpoint := result_view
  (checkConnectBlock sample_params sample_db sample_connect_node sample_connect_block 2 None
     (SetBestHash (bh_PrevBlock (mb_Header sample_connect_block)) NewUtxoViewpoint) (Some [])).

Lemma sample_accepted :
  checkConnectBlock sample_params sample_db sample_connect_node sample_connect_block 2 None
    (SetBestHash (bh_PrevBlock (mb_Header sample_connect_block)) NewUtxoViewpoint) (Some [])
  = Ok (sample_view, Some sample_journal).
Proof. unfold sample_view. apply result_view_ok. vm_compute. reflexivity. Qed.

Lemma sample_bip : BIP0034Height sample_params <= height sample_connect_node.
Proof. vm_compute. discriminate. Qed.

(** No output of the block is a coin of the ledger. *)
Lemma sample_no_overwrite : no_overwrite (mb_Transactions sample_connect_block) (height sample_connect_node) sample_ledger.
Proof.
  split.
  - apply list.Forall_forall. apply (bool_decide_unpack _). vm_compute. exact I.
  - intros cs l' Hl. injection Hl as <- <-. split; [|done].
    apply list.Forall_forall. apply (bool_decide_unpack _). vm_compute. exact I.
Qed.

Lemma accepted_block_refines_ledger_witness :
  exists cs l', ledger_txs [sample_cb; sample_spend] (height sample_connect_node) sample_ledger = Some (cs, l')
    /\ implements sample_db sample_view l'.
Proof.
  destruct (accepted_block_refines_ledger sample_params sample_db sample_connect_node sample_connect_block 2 None
    (Some []) sample_view (Some sample_journal) sample_ledger sample_sane sample_implements sample_nonneg sample_bip
    sample_accepted) as (cs & l' & Hl & Hi & _).
  exists cs, l'. split; [exact Hl|exact Hi].
Defined.

Lemma accepted_block_supply_witness :
  exists l', implements sample_db sample_view l'
    /\ total l' <= total sample_ledger + CalcBlockSubsidy (height sample_connect_node) 210000.
Proof.
  destruct (accepted_block_supply sample_params sample_db sample_connect_node sample_connect_block 2 None
    (Some []) sample_view (Some sample_journal) sample_ledger sample_sane sample_implements sample_nonneg sample_bip
    sample_accepted) as (l' & Hi & _ & Ht).
  exists l'. split; [exact Hi|exact Ht].
Defined.

Lemma disconnect_restores_ledger_witness :
  exists view'', disconnectTransactions sample_db sample_connect_block (height sample_connect_node) sample_journal
      sample_view = Ok (view'', sample_journal)
    /\ implements sample_db view'' sample_ledger.
Proof.
  destruct (disconnect_restores_ledger sample_params sample_db sample_connect_node sample_connect_block 2 None
    sample_view sample_journal sample_ledger sample_sane sample_implements sample_nonneg sample_bip)
    as (view'' & Hd & Hi & _).
  - vm_compute. discriminate.
  - apply map_Forall_singleton. discriminate.
  - exact sample_no_overwrite.
  - exact sample_accepted.
  - exists view''. split; [exact Hd|exact Hi].
Defined.

(** The spending transaction pays a fee of 100. *)
Lemma CheckTransactionInputs_accepts_witness :
  exists es, Forall2 (good_input 2 100 (set_entry sample_coin_out (Some (mkUtxoEntry 1000 [x51] 1 0)) NewUtxoViewpoint))
               (tx_TxIn sample_spend) es
    /\ sumZ ue_amount es = sumZ to_Value (tx_TxOut sample_spend) + 100.
Proof.
  destruct (proj1 (CheckTransactionInputs_accepts sample_spend 2
    (set_entry sample_coin_out (Some (mkUtxoEntry 1000 [x51] 1 0)) NewUtxoViewpoint) sample_params 100
    (proj1 (CheckTransactionSanity_iff sample_spend) ltac:(vm_compute; reflexivity)))
    ltac:(vm_compute; reflexivity)) as (es & Hes & _ & Hsum & _).
  exists es. split; [exact Hes|exact Hsum].
Defined.

Lemma block_locks_not_enforced_witness :
  check_locks sample_connect_node NewUtxoViewpoint 0 [sample_spend] = Ok tt.
Proof. apply block_locks_not_enforced; vm_compute; discriminate. Defined.

End Witnesses.
