(* ===== verification/ChainIO.v ===== *)
(** * The chain's data in the database: blockchain/chainio.go

    The buckets of the metadata are finite maps from keys to values, both byte
    strings; a database transaction that fails to write is not modelled.  The
    file has the serialization of the spend journal, the utxo set, the block
    index, the height index and the best-chain state, and shows that what is
    written is what is read back; the utxo bucket is an instance of the interface
    the views read ([UtxoSource]), and writing a view makes the database agree with
    it. *)

From S2P Require Import Prelude Chainhash Wire Hash WireMsg Opcode Script Signature Compress BlockIndex.
From S2P Require Import Validate Utxo.

Abbreviation Bucket := (gmap (list byte) (list byte)) (only parsing).

Record ChainDB := mkChainDB {
  utxoSet : Bucket;                  (** utxosetv2 *)
  spendJournal : Bucket;             (** spendjournal *)
  hashIndex : Bucket;                (** hashidx *)
  heightIndex : Bucket;              (** heightidx *)
  blockIndexRows : Bucket;           (** blockheaderidx *)
  chainState : option (list byte);   (** chainstate *)
  blockData : Bucket                 (** the serialized blocks, by hash *)
}.

Definition empty_db : ChainDB := mkChainDB ∅ ∅ ∅ ∅ ∅ None ∅.

Definition set_utxoSet (b : Bucket) (db : ChainDB) : ChainDB :=
  mkChainDB b (spendJournal db) (hashIndex db) (heightIndex db) (blockIndexRows db) (chainState db) (blockData db).
Definition set_spendJournal (b : Bucket) (db : ChainDB) : ChainDB :=
  mkChainDB (utxoSet db) b (hashIndex db) (heightIndex db) (blockIndexRows db) (chainState db) (blockData db).
Definition set_heights (hi he : Bucket) (db : ChainDB) : ChainDB :=
  mkChainDB (utxoSet db) (spendJournal db) hi he (blockIndexRows db) (chainState db) (blockData db).
Definition set_rows (b : Bucket) (db : ChainDB) : ChainDB :=
  mkChainDB (utxoSet db) (spendJournal db) (hashIndex db) (heightIndex db) b (chainState db) (blockData db).
Definition set_state (s : list byte) (db : ChainDB) : ChainDB :=
  mkChainDB (utxoSet db) (spendJournal db) (hashIndex db) (heightIndex db) (blockIndexRows db) (Some s) (blockData db).
Definition set_blocks (b : Bucket) (db : ChainDB) : ChainDB :=
  mkChainDB (utxoSet db) (spendJournal db) (hashIndex db) (heightIndex db) (blockIndexRows db) (chainState db) b.

(** ** The spend journal *)

Definition header_code (h : Z) (isCoinBase : bool) : Z :=
  let headerCode := u64 (Z.shiftl (u64 h) 1) in
  if isCoinBase then Z.lor headerCode 0x01 else headerCode.

Definition spentTxOutHeaderCode (stxo : SpentTxOut) : Z := header_code (st_Height stxo) (st_IsCoinBase stxo).

Definition spentTxOutSerializeSize (stxo : SpentTxOut) : Z :=
  let size := serializeSizeVLQ (spentTxOutHeaderCode stxo) in
  let size := if 0 <? st_Height stxo then size + serializeSizeVLQ 0 else size in
  size + compressedTxOutSize (u64 (st_Amount stxo)) (st_PkScript stxo).

(** The bytes written to the target. *)
Definition putSpentTxOut (stxo : SpentTxOut) : list byte :=
  putVLQ (spentTxOutHeaderCode stxo)
  ++ (if 0 <? st_Height stxo then putVLQ 0 else [])
  ++ putCompressedTxOut (u64 (st_Amount stxo)) (st_PkScript stxo).

Definition decodeSpentTxOut (serialized : list byte) : result deserialize_error (SpentTxOut * nat) :=
  if (length serialized =? 0)%nat then Err ErrNoBytes
  else
    let '(code, offset) := deserializeVLQ serialized in
    if (length serialized <=? offset)%nat then Err ErrAfterHeader
    else
      let isCoinBase := negb (Z.land code 0x01 =? 0) in
      let h := i32 (Z.shiftr code 1) in
      let* offset :=
        (if 0 <? h then
           let '(_, bytesRead) := deserializeVLQ (drop offset serialized) in
           let offset := (offset + bytesRead)%nat in
           if (length serialized <=? offset)%nat then Err ErrAfterReserved else Ok offset
         else Ok offset) in
      let* (amount, pkScript, bytesRead) := decodeCompressedTxOut (drop offset serialized) in
      Ok (mkSpentTxOut (i64 amount) pkScript h isCoinBase, (offset + bytesRead)%nat).

(** The loops over the inputs, from the last: each input takes one entry. *)
Fixpoint decode_stxos (rev_ins : list TxIn) (serialized : list byte)
  : result deserialize_error (list SpentTxOut) :=
  match rev_ins with
  | [] => Ok []
  | _ :: rev_ins =>
      let* (stxo, n) := decodeSpentTxOut serialized in
      let* stxos := decode_stxos rev_ins (drop n serialized) in
      Ok (stxo :: stxos)
  end.

Definition deserializeSpendJournalEntry (serialized : list byte) (txns : list MsgTx)
  : result deserialize_error (list SpentTxOut) :=
  let numStxos := sumZ (fun tx => zlen (tx_TxIn tx)) txns in
  if (length serialized =? 0)%nat then (if negb (numStxos =? 0) then Err ErrAssert else Ok [])
  else
    let* stxos := decode_stxos (reverse (concat (map tx_TxIn txns))) serialized in
    Ok (reverse stxos).

Definition serializeSpendJournalEntry (stxos : list SpentTxOut) : list byte :=
  concat (map putSpentTxOut (reverse stxos)).

(** A decoding error is reported as corruption; the assertion is not one. *)
Definition storage_error (e : deserialize_error) : rule_error :=
  match e with ErrAssert => AssertError | _ => ErrCorruption end.
Definition from_storage {A} (r : result deserialize_error A) : result rule_error A :=
  match r with Ok a => Ok a | Err e => Err (storage_error e) | Panic => Panic end.

Definition dbFetchSpendJournalEntry (block_hash : Hash) (block : MsgBlock) (db : ChainDB)
  : result rule_error (list SpentTxOut) :=
  match mb_Transactions block with
  | [] => Panic
  | _ :: blockTxns =>
      from_storage (deserializeSpendJournalEntry (default [] (spendJournal db !! block_hash)) blockTxns)
  end.

Definition dbPutSpendJournalEntry (blockHash : Hash) (stxos : list SpentTxOut) (db : ChainDB) : ChainDB :=
  set_spendJournal (<[blockHash := serializeSpendJournalEntry stxos]> (spendJournal db)) db.

Definition dbRemoveSpendJournalEntry (blockHash : Hash) (db : ChainDB) : ChainDB :=
  set_spendJournal (delete blockHash (spendJournal db)) db.

(** ** The utxo set *)

Definition outpointKey (outpoint : OutPoint) : list byte := op_Hash outpoint ++ putVLQ (op_Index outpoint).

Definition utxoEntryHeaderCode (entry : UtxoEntry) : result rule_error Z :=
  if IsSpent entry then Err AssertError else Ok (header_code (ue_blockHeight entry) (IsCoinBase entry)).

(** Nil for a spent entry. *)
Definition serializeUtxoEntry (entry : UtxoEntry) : result rule_error (option (list byte)) :=
  if IsSpent entry then Ok None
  else
    let* headerCode := utxoEntryHeaderCode entry in
    Ok (Some (putVLQ headerCode ++ putCompressedTxOut (u64 (ue_amount entry)) (ue_pkScript entry))).

Definition deserializeUtxoEntry (serialized : list byte) : result deserialize_error UtxoEntry :=
  let '(code, offset) := deserializeVLQ serialized in
  if (length serialized <=? offset)%nat then Err ErrAfterHeader
  else
    let isCoinBase := negb (Z.land code 0x01 =? 0) in
    let blockHeight := i32 (Z.shiftr code 1) in
    let* (amount, pkScript, _) := decodeCompressedTxOut (drop offset serialized) in
    Ok (mkUtxoEntry (i64 amount) pkScript blockHeight (if isCoinBase then tfCoinBase else 0)).

(** [bytes.Compare] as an order, and [Cursor.Seek]: the first pair of the bucket
    whose key is not less. *)
Fixpoint bytes_leb (a b : list byte) : bool :=
  match a, b with
  | [], _ => true
  | _ :: _, [] => false
  | x :: a, y :: b => if x <? y then true else if y <? x then false else bytes_leb a b
  end.

Definition smaller (p : list byte * list byte) (best : option (list byte * list byte))
  : option (list byte * list byte) :=
  match best with
  | None => Some p
  | Some q => if bytes_leb p.1 q.1 then Some p else Some q
  end.

Definition Seek (key : list byte) (b : Bucket) : option (list byte * list byte) :=
  foldr smaller None (List.filter (fun p => bytes_leb key p.1) (map_to_list b)).

Definition db_fetch_by_hash (db : ChainDB) (h : Hash) : result rule_error (option UtxoEntry) :=
  match Seek (outpointKey (mkOutPoint h 0)) (utxoSet db) with
  | None => Ok None
  | Some (cursorKey, value) =>
      if (length cursorKey <? HashSize)%nat then Ok None
      else if negb (bool_decide (h = take HashSize cursorKey)) then Ok None
      else match deserializeUtxoEntry value with
           | Ok entry => Ok (Some entry)
           | Err e => Err (StorageError e)
           | Panic => Panic
           end
  end.

Definition db_fetch_utxo (db : ChainDB) (outpoint : OutPoint) : result rule_error (option UtxoEntry) :=
  match utxoSet db !! outpointKey outpoint with
  | None => Ok None
  | Some serializedUtxo =>
      if (length serializedUtxo =? 0)%nat then Err AssertError
      else let* entry := from_storage (deserializeUtxoEntry serializedUtxo) in Ok (Some entry)
  end.

#[export] Instance ChainDB_source : UtxoSource ChainDB :=
  {| dbFetchUtxoEntry := db_fetch_utxo; dbFetchUtxoEntryByHash := db_fetch_by_hash |}.

(** One entry of the loop of [dbPutUtxoView]. *)
Definition put_entry (outpoint : OutPoint) (entry : option UtxoEntry) (b : Bucket) : result rule_error Bucket :=
  match entry with
  | None => Ok b
  | Some entry =>
      if negb (isModified entry) then Ok b
      else if IsSpent entry then Ok (delete (outpointKey outpoint) b)
      else
        let* serialized := serializeUtxoEntry entry in
        Ok (<[outpointKey outpoint := default [] serialized]> b)
  end.

Fixpoint put_entries (l : list (OutPoint * option UtxoEntry)) (b : Bucket) : result rule_error Bucket :=
  match l with
  | [] => Ok b
  | (outpoint, entry) :: l => let* b := put_entry outpoint entry b in put_entries l b
  end.

Definition dbPutUtxoView `{OutPointOrder} (view : UtxoViewpoint) (db : ChainDB) : result rule_error ChainDB :=
  let* b := put_entries (range_entries (entries view)) (utxoSet db) in Ok (set_utxoSet b db).

(** ** Heights of the main chain *)

Definition serializedHeight (h : Z) : list byte := PutUint32 (u32 h).

Definition dbPutBlockIndex (h : Hash) (hgt : Z) (db : ChainDB) : ChainDB :=
  set_heights (<[h := serializedHeight hgt]> (hashIndex db)) (<[serializedHeight hgt := h]> (heightIndex db)) db.

Definition dbRemoveBlockIndex (h : Hash) (hgt : Z) (db : ChainDB) : ChainDB :=
  set_heights (delete h (hashIndex db)) (delete (serializedHeight hgt) (heightIndex db)) db.

(** [byteOrder.Uint32] reads four bytes and panics on fewer. *)
Definition dbFetchHeightByHash (h : Hash) (db : ChainDB) : result rule_error Z :=
  match hashIndex db !! h with
  | None => Err ErrNotInMainChain
  | Some bs => if (length bs <? 4)%nat then Panic else Ok (i32 (le_value (take 4 bs)))
  end.

(** [copy(hash[:], hashBytes)] into a zeroed array. *)
Definition copy_into (size : nat) (bs : list byte) : list byte := take size (bs ++ replicate size x00).

Definition dbFetchHashByHeight (hgt : Z) (db : ChainDB) : result rule_error Hash :=
  match heightIndex db !! serializedHeight hgt with
  | None => Err ErrNotInMainChain
  | Some bs => Ok (copy_into HashSize bs)
  end.

(** ** The best-chain state *)

Record bestChainState := mkBestChainState {
  bcs_hash : Hash; bcs_height : Z; bcs_totalTxns : Z; bcs_scale : Z; bcs_reserved : Z; bcs_votes : Z;
  bcs_signature : Hash64; bcs_pubKey : Hash33
}.

(** The fields go into a zeroed buffer at increasing offsets; the copy of the
    public key is limited to [HashSize] bytes. *)
Definition serializeBestChainState (state : bestChainState) : list byte :=
  copy_into HashSize (bcs_hash state)
  ++ PutUint32 (bcs_height state) ++ PutUint64 (bcs_totalTxns state)
  ++ PutUint16 (bcs_scale state) ++ PutUint16 (bcs_reserved state) ++ PutUint16 (bcs_votes state)
  ++ copy_into Hash64Size (bcs_signature state)
  ++ copy_into HashSize (bcs_pubKey state) ++ replicate (Hash33Size - HashSize) x00.

Definition deserializeBestChainState (serializedData : list byte) : result rule_error bestChainState :=
  if (length serializedData <? HashSize + Hash64Size + Hash33Size + 18)%nat then Err ErrCorruption
  else
    let at_ lo n := take n (drop lo serializedData) in
    Ok (mkBestChainState (at_ 0 HashSize)%nat
          (le_value (at_ 32 4)%nat) (le_value (at_ 36 8)%nat)
          (le_value (at_ 44 2)%nat) (le_value (at_ 46 2)%nat) (le_value (at_ 48 2)%nat)
          (at_ 50%nat Hash64Size) (at_ 114%nat Hash33Size)).

(** [BestState], without the fields that are only reported. *)
Record BestState := mkBestState {
  bs_Hash : Hash; bs_Height : Z; bs_BlockSize : Z; bs_BlockWeight : Z; bs_NumTxns : Z; bs_TotalTxns : Z;
  bs_MedianTime : Z; bs_PubKey : Hash33; bs_Signature : Hash64; bs_Scale : Z; bs_Reserved : Z; bs_Votes : Z
}.

Definition newBestState (node : blockNode) (blockSize blockWeight numTxns totalTxns : Z) (signature : Hash64)
  (pubKey : Hash33) (scale reserved medianTime votes : Z) : BestState :=
  mkBestState (hash node) (height node) blockSize blockWeight numTxns totalTxns medianTime pubKey signature
    scale reserved votes.

Definition dbPutBestState (snapshot : BestState) (db : ChainDB) : ChainDB :=
  set_state (serializeBestChainState
    (mkBestChainState (bs_Hash snapshot) (u32 (bs_Height snapshot)) (bs_TotalTxns snapshot) (bs_Scale snapshot)
       (bs_Reserved snapshot) (bs_Votes snapshot) (bs_Signature snapshot) (bs_PubKey snapshot))) db.

(** ** The block index *)

Definition deserializeBlockRow (blockRow : list byte) : result wire_error (BlockHeader * Z * Z) :=
  let* (res, _) :=
    (let! header := readBlockHeader in
     let! statusByte := Uint8 in
     let! v := Uint16 in
     ret (header, statusByte, v)) blockRow in
  Ok res.

Definition blockIndexKey (blockHash : Hash) (blockHeight : Z) : list byte :=
  reverse (le_bytes 4 blockHeight) ++ copy_into HashSize blockHash.

Definition block_row (node : blockNode) (st : Z) : list byte :=
  writeBlockHeader (Header node) ++ PutUint8 st ++ PutUint16 (Votes node).

Definition dbStoreBlockNode (node : blockNode) (st : Z) (db : ChainDB) : ChainDB :=
  set_rows (<[blockIndexKey (hash node) (u32 (height node)) := block_row node st]> (blockIndexRows db)) db.

(** [flushToDB] of blockindex.go: every dirty node is stored. *)
Definition flush_rows (bi : blockIndex) (db : ChainDB) : ChainDB :=
  foldr (fun h db => match index bi !! h with
                     | Some node => dbStoreBlockNode node (NodeStatus bi node) db
                     | None => db
                     end) db (elements (dirty bi)).
Definition flushToDB (bi : blockIndex) (db : ChainDB) : blockIndex * ChainDB :=
  (mkBlockIndex (index bi) (status bi) ∅, flush_rows bi db).

(** [dbStoreBlock]: a block that is there is not stored again. *)
Definition dbStoreBlock `{HashFunctions} (block : MsgBlock) (db : ChainDB) : ChainDB :=
  let h := BlockHash (mb_Header block) in
  if bool_decide (is_Some (blockData db !! h)) then db
  else set_blocks (<[h := MsgBlock_BtcEncode WitnessEncoding block]> (blockData db)) db.

Definition dbFetchHeaderByHash (h : Hash) (db : ChainDB) : result rule_error BlockHeader :=
  match blockData db !! h with
  | None => Err BackendError
  | Some headerBytes =>
      match readBlockHeader headerBytes with
      | Ok (header, _) => Ok header
      | Err _ => Err BackendError
      | Panic => Panic
      end
  end.

Definition dbFetchHeaderByHeight (hgt : Z) (db : ChainDB) : result rule_error BlockHeader :=
  let* h := dbFetchHashByHeight hgt db in dbFetchHeaderByHash h db.

(** The block and the height it is given. *)
Definition dbFetchBlockByNode (node : blockNode) (db : ChainDB) : result rule_error (MsgBlock * Z) :=
  match blockData db !! hash node with
  | None => Err BackendError
  | Some blockBytes =>
      match MsgBlock_BtcDecode WitnessEncoding blockBytes with
      | Ok (block, _) => Ok (block, height node)
      | Err _ => Err BackendError
      | Panic => Panic
      end
  end.

(** ** Lemmas: what is written can be read *)

Lemma lor_double n : Z.lor (2 * n) 1 = 2 * n + 1.
Proof.
  apply Z.bits_inj'. intros k Hk. rewrite Z.lor_spec.
  destruct (Z.eq_dec k 0) as [->|Hne]; [by rewrite Z.testbit_odd_0, Z.testbit_even_0|].
  replace k with (Z.succ (Z.pred k)) by lia.
  rewrite Z.testbit_odd_succ, Z.testbit_even_succ by lia.
  assert (E : Z.testbit 1 (Z.succ (Z.pred k)) = Z.testbit 0 (Z.pred k)) by (apply (Z.testbit_odd_succ 0); lia).
  by rewrite E, Z.bits_0, orb_false_r.
Qed.

Lemma land_1 z : Z.land z 0x01 = z mod 2.
Proof. exact (Z.land_ones z 1 ltac:(lia)). Qed.

Lemma header_code_inv h cb :
  is_i32 h ->
  is_u64 (header_code h cb) /\ negb (Z.land (header_code h cb) 0x01 =? 0) = cb
  /\ i32 (Z.shiftr (header_code h cb) 1) = h.
Proof.
  intros Hh. set (y := u64 h mod 2 ^ 63).
  assert (Hc : header_code h cb = 2 * y + (if cb then 1 else 0)).
  { unfold header_code. rewrite Z.shiftl_mul_pow2 by lia.
    assert (E : u64 (u64 h * 2 ^ 1) = 2 * y) by (unfold y; width_lia). rewrite E.
    destruct cb; [apply lor_double|lia]. }
  assert (Hy : 0 <= y < 2 ^ 63) by (apply Z.mod_pos_bound; done).
  rewrite Hc, land_1, Z.shiftr_div_pow2 by lia.
  repeat split; [destruct cb; widths; lia|destruct cb; widths; lia| |].
  - destruct cb; [|rewrite Z.add_0_r, Z.mul_comm, Z.mod_mul by lia; done].
    rewrite Z.add_comm, Z.mul_comm, Z.mod_add by lia. done.
  - replace ((2 * y + (if cb then 1 else 0)) / 2 ^ 1) with y by (destruct cb; width_lia).
    unfold y. width_lia.
Qed.

(** A spent output that can be journalled. *)
Record stxo_ok (s : SpentTxOut) : Prop := {
  so_height : is_i32 (st_Height s);
  so_amount : amount_ok (st_Amount s);
  so_script : stored_script_ok (st_PkScript s)
}.

Lemma amount_u64 a : amount_ok a -> u64 a = a /\ i64 a = a.
Proof. unfold amount_ok. intros Ha. change (2 ^ 60) with 1152921504606846976 in Ha. width_lia. Qed.

Lemma putCompressedTxOut_nonempty a s : (0 < length (putCompressedTxOut a s))%nat.
Proof.
  unfold putCompressedTxOut. rewrite length_app. pose proof (putVLQ_nonempty (compressTxOutAmount a)).
  destruct (putVLQ _); [done|cbn; lia].
Qed.

Lemma decode_put_stxo s rest :
  stxo_ok s ->
  decodeSpentTxOut (putSpentTxOut s ++ rest) = Ok (s, length (putSpentTxOut s))
  /\ zlen (putSpentTxOut s) = spentTxOutSerializeSize s.
Proof.
  intros [Hh Ha Hs]. destruct (header_code_inv (st_Height s) (st_IsCoinBase s) Hh) as (Hc & Hcb & Hht).
  destruct (amount_u64 _ Ha) as [Hu Hi]. unfold decodeSpentTxOut, putSpentTxOut, spentTxOutSerializeSize.
  unfold spentTxOutHeaderCode. rewrite Hu. set (c := header_code _ _) in *.
  set (r := if 0 <? st_Height s then putVLQ 0 else []).
  set (t := putCompressedTxOut (st_Amount s) (st_PkScript s)).
  destruct (txout_roundtrip (st_Amount s) (st_PkScript s) rest Ha Hs) as [Hz Hd]. fold t in Hz, Hd.
  pose proof (putVLQ_nonempty c) as Hne. pose proof (putCompressedTxOut_nonempty (st_Amount s) (st_PkScript s)) as Ht.
  fold t in Ht. assert (0 < length (putVLQ c))%nat by (destruct (putVLQ c); [done|cbn; lia]). split.
  - rewrite (proj2 (Nat.eqb_neq _ _)) by (rewrite !length_app; lia).
    rewrite <- !app_assoc, deserialize_put by done.
    rewrite (proj2 (Nat.leb_gt _ _)) by (rewrite !length_app; lia). rewrite Hcb, Hht.
    assert (Hr : (if 0 <? st_Height s then
        let '(_, bytesRead) := deserializeVLQ (drop (length (putVLQ c)) (putVLQ c ++ r ++ t ++ rest)) in
        if (length (putVLQ c ++ r ++ t ++ rest) <=? length (putVLQ c) + bytesRead)%nat
        then Err ErrAfterReserved else Ok (length (putVLQ c) + bytesRead)%nat
        else Ok (length (putVLQ c))) = Ok (E := deserialize_error) (length (putVLQ c ++ r))).
    { rewrite drop_app_length. unfold r. destruct (0 <? st_Height s); [|by rewrite app_nil_r].
      rewrite deserialize_put by (widths; lia). rewrite (proj2 (Nat.leb_gt _ _)) by (rewrite !length_app; lia).
      by rewrite length_app. }
    rewrite Hr. cbn [rbind]. rewrite (app_assoc (putVLQ c)), drop_app_length, Hd. cbn [rbind].
    rewrite Hi, !length_app, Nat.add_assoc. by destruct s.
  - unfold zlen in *. rewrite !length_app, !Nat2Z.inj_add, Hz.
    pose proof (zlen_putVLQ c Hc) as Hzc. unfold zlen in Hzc. rewrite Hzc. unfold r.
    destruct (0 <? st_Height s); [|cbn [length]; lia].
    change (length (putVLQ 0)) with 1%nat. change (serializeSizeVLQ 0) with 1. lia.
Qed.

Lemma decode_stxos_put ins stxos rest :
  length ins = length stxos -> Forall stxo_ok stxos ->
  decode_stxos ins (concat (map putSpentTxOut stxos) ++ rest) = Ok stxos.
Proof.
  revert stxos. induction ins as [|i ins IH]; intros [|s stxos] Hlen Hok; try done.
  injection Hlen as Hlen. apply Forall_cons_iff in Hok as [Hs Hok]. cbn [decode_stxos map concat].
  rewrite <- app_assoc. rewrite (proj1 (decode_put_stxo s _ Hs)). cbn [rbind].
  rewrite drop_app_length, IH by done. done.
Qed.

Lemma count_inputs txns : sumZ (fun tx => zlen (tx_TxIn tx)) txns = zlen (concat (map tx_TxIn txns)).
Proof.
  induction txns as [|tx txns IH]; [done|].
  change (zlen (tx_TxIn tx) + sumZ (fun tx => zlen (tx_TxIn tx)) txns = zlen (tx_TxIn tx ++ concat (map tx_TxIn txns))).
  rewrite IH. unfold zlen. rewrite length_app. lia.
Qed.

Lemma putSpentTxOut_nonempty s : (0 < length (putSpentTxOut s))%nat.
Proof.
  unfold putSpentTxOut. rewrite length_app. pose proof (putVLQ_nonempty (spentTxOutHeaderCode s)).
  destruct (putVLQ _); [done|cbn; lia].
Qed.

Lemma journal_roundtrip stxos txns :
  Forall stxo_ok stxos -> zlen stxos = sumZ (fun tx => zlen (tx_TxIn tx)) txns ->
  deserializeSpendJournalEntry (serializeSpendJournalEntry stxos) txns = Ok stxos.
Proof.
  intros Hok Hlen. rewrite count_inputs in Hlen. unfold deserializeSpendJournalEntry, serializeSpendJournalEntry.
  rewrite count_inputs. destruct stxos as [|s stxos].
  - rewrite <- Hlen. done.
  - rewrite (proj2 (Nat.eqb_neq _ _)).
    2:{ rewrite reverse_cons, map_app, concat_app, length_app. cbn [map concat]. rewrite app_nil_r.
        pose proof (putSpentTxOut_nonempty s). lia. }
    rewrite <- (app_nil_r (concat (map putSpentTxOut _))), decode_stxos_put; [|rewrite !length_reverse; unfold zlen in Hlen; lia|].
    + cbn [rbind]. by rewrite reverse_involutive.
    + by apply Forall_reverse.
Qed.

(** ** The utxo set: writing a view *)

Lemma outpointKey_inj a b : outpoint_ok a -> outpoint_ok b -> outpointKey a = outpointKey b -> a = b.
Proof.
  intros [Ha Hia] [Hb Hib]. unfold outpointKey. intros Hk. unfold hash_ok in *.
  apply app_inj_1 in Hk as [Hh Hv]; [|congruence]. destruct a as [ha ia], b as [hb ib].
  cbn [op_Hash op_Index] in *. f_equal; [done|].
  assert (Hu : is_u64 ia /\ is_u64 ib) by (widths; lia). destruct Hu as [Hua Hub].
  pose proof (deserialize_put ia [] Hua) as H1. pose proof (deserialize_put ib [] Hub) as H2.
  rewrite Hv in H1. rewrite H1 in H2. congruence.
Qed.

(** An entry whose output can be stored. *)
Definition storable (e : UtxoEntry) : Prop :=
  is_i32 (ue_blockHeight e) /\ amount_ok (ue_amount e) /\ stored_script_ok (ue_pkScript e).

Lemma deserialize_serialize_utxo e :
  IsSpent e = false -> storable e ->
  exists bs e', serializeUtxoEntry e = Ok (Some bs) /\ bs <> [] /\ deserializeUtxoEntry bs = Ok e'
    /\ entry_coin (Some e') = entry_coin (Some e)
    /\ zlen bs = serializeSizeVLQ (header_code (ue_blockHeight e) (IsCoinBase e))
                 + compressedTxOutSize (u64 (ue_amount e)) (ue_pkScript e).
Proof.
  intros Hsp (Hh & Ha & Hs). destruct (header_code_inv (ue_blockHeight e) (IsCoinBase e) Hh) as (Hc & Hcb & Hht).
  destruct (amount_u64 _ Ha) as [Hu Hi]. unfold serializeUtxoEntry, utxoEntryHeaderCode. rewrite Hsp. cbn [rbind].
  rewrite Hu. set (c := header_code _ _) in *. set (t := putCompressedTxOut _ _).
  destruct (txout_roundtrip (ue_amount e) (ue_pkScript e) [] Ha Hs) as [Hz Hd]. fold t in Hz, Hd.
  pose proof (putVLQ_nonempty c) as Hne. pose proof (putCompressedTxOut_nonempty (ue_amount e) (ue_pkScript e)) as Ht.
  fold t in Ht. eexists _, _. split; [done|]. split; [by destruct (putVLQ c)|]. split; [|split].
  - unfold deserializeUtxoEntry. rewrite deserialize_put by done.
    rewrite (proj2 (Nat.leb_gt _ _)) by (rewrite length_app; lia). rewrite Hcb, Hht, drop_app_length.
    rewrite app_nil_r in Hd. rewrite Hd. cbn [rbind]. done.
  - unfold entry_coin, live_coin. rewrite Hsp. cbn [ue_amount ue_pkScript ue_blockHeight]. rewrite Hi.
    assert (Hf : forall b, IsSpent (mkUtxoEntry (ue_amount e) (ue_pkScript e) (ue_blockHeight e)
        (if b : bool then tfCoinBase else 0)) = false
      /\ IsCoinBase (mkUtxoEntry (ue_amount e) (ue_pkScript e) (ue_blockHeight e)
        (if b : bool then tfCoinBase else 0)) = b) by by intros [].
    destruct (Hf (IsCoinBase e)) as [-> ->]. done.
  - unfold zlen in *. rewrite length_app, Nat2Z.inj_add, Hz.
    pose proof (zlen_putVLQ c Hc) as Hzc. unfold zlen in Hzc. by rewrite Hzc.
Qed.

Definition coin_at (b : Bucket) (o : OutPoint) : option coin := fetch_coin (set_utxoSet b empty_db) o.

Lemma coin_at_fetch db o : coin_at (utxoSet db) o = fetch_coin db o.
Proof. done. Qed.

Lemma coin_at_other b b' o : b' !! outpointKey o = b !! outpointKey o -> coin_at b' o = coin_at b o.
Proof. unfold coin_at, fetch_coin. cbn. unfold db_fetch_utxo. cbn. by intros ->. Qed.

Definition is_unchanged (e : option UtxoEntry) : bool :=
  match e with Some e => negb (isModified e) | None => true end.

Definition writable (e : option UtxoEntry) : Prop :=
  match e with Some e => isModified e = true -> IsSpent e = false -> storable e | None => True end.

Lemma put_entry_spec o e b :
  writable e ->
  exists b', put_entry o e b = Ok b' /\ (forall k, k <> outpointKey o -> b' !! k = b !! k)
    /\ coin_at b' o = if is_unchanged e then coin_at b o else entry_coin e.
Proof.
  intros Hw. destruct e as [e|]; [|by exists b]. cbn [put_entry is_unchanged].
  destruct (isModified e) eqn:Hm; cbn [negb]; [|by exists b]. destruct (IsSpent e) eqn:Hs.
  - exists (delete (outpointKey o) b). split; [done|]. split; [intros k Hk; by rewrite lookup_delete_ne|].
    unfold coin_at, fetch_coin. cbn. unfold db_fetch_utxo. cbn. by rewrite lookup_delete_eq, Hs.
  - destruct (deserialize_serialize_utxo e Hs (Hw Hm Hs)) as (bs & e' & Hser & Hne & Hdes & Hc & _).
    rewrite Hser. cbn [rbind default]. exists (<[outpointKey o := bs]> b). split; [done|].
    split; [intros k Hk; by rewrite lookup_insert_ne|].
    unfold coin_at, fetch_coin. cbn [dbFetchUtxoEntry ChainDB_source]. unfold db_fetch_utxo. cbn [utxoSet set_utxoSet].
    rewrite lookup_insert_eq, (proj2 (Nat.eqb_neq _ _)) by (by destruct bs). rewrite Hdes. done.
Qed.

Lemma put_entries_spec l b :
  NoDup l.*1 -> Forall (fun p => outpoint_ok p.1 /\ writable p.2) l ->
  exists b', put_entries l b = Ok b' /\ forall o, outpoint_ok o ->
    coin_at b' o = match (list_to_map l : gmap OutPoint (option UtxoEntry)) !! o with
                   | Some e => if is_unchanged e then coin_at b o else entry_coin e
                   | None => coin_at b o
                   end.
Proof.
  revert b. induction l as [|[o e] l IH]; intros b Hnd Hok; [by exists b|].
  cbn [fmap list_fmap fst] in Hnd. apply list.NoDup_cons in Hnd as [Hnin Hnd].
  apply Forall_cons_iff in Hok as [[Ho Hw] Hok]. cbn [fst snd] in *.
  destruct (put_entry_spec o e b Hw) as (b1 & H1 & Hother & Hat).
  destruct (IH b1 Hnd Hok) as (b' & H2 & Hb'). exists b'. cbn [put_entries]. rewrite H1. split; [done|].
  intros o' Ho'. rewrite Hb' by done. cbn [list_to_map foldr].
  destruct (decide (o' = o)) as [->|Hne].
  - rewrite (not_elem_of_list_to_map_1 (M := gmap OutPoint)) by done. by rewrite lookup_insert_eq, Hat.
  - rewrite lookup_insert_ne by done. assert (Hc : coin_at b1 o' = coin_at b o').
    { apply coin_at_other, Hother. intros Hk. apply Hne. by apply outpointKey_inj. }
    by rewrite Hc.
Qed.

Lemma put_view `{OutPointOrder} view db :
  (forall o e, entries view !! o = Some e -> outpoint_ok o /\ writable e) -> view_ok db view ->
  exists db', dbPutUtxoView view db = Ok db' /\ forall o, outpoint_ok o -> fetch_coin db' o = view_coin db view o.
Proof.
  intros Hok Hv. unfold dbPutUtxoView. set (l := range_entries (entries view)).
  assert (Hnd : NoDup l.*1) by (unfold l; rewrite range_entries_perm; apply NoDup_fst_map_to_list).
  destruct (put_entries_spec l (utxoSet db) Hnd) as (b' & Hput & Hb').
  { apply List.Forall_forall. intros [o e] Hin. cbn. apply Hok. apply list_elem_of_In in Hin. unfold l in Hin.
    rewrite range_entries_perm in Hin. by apply elem_of_map_to_list in Hin. }
  rewrite Hput. cbn [rbind]. eexists. split; [done|]. intros o Ho.
  rewrite <- (coin_at_fetch (set_utxoSet b' db)). cbn [utxoSet set_utxoSet]. rewrite Hb' by done.
  assert (Hl : (list_to_map l : gmap OutPoint (option UtxoEntry)) = entries view).
  { rewrite (list_to_map_proper l (map_to_list (entries view)) Hnd) by (unfold l; apply range_entries_perm).
    apply list_to_map_to_list. }
  rewrite Hl. unfold view_coin. destruct (entries view !! o) as [e|] eqn:He; [|done].
  destruct (is_unchanged e) eqn:Hu; [|done]. rewrite (Hv o e He); [done|].
  destruct e as [e|]; cbn in *; [by apply negb_true_iff|done].
Qed.

(** Every row of the utxo set can be read. *)
Definition readable_set (b : Bucket) : Prop := forall o, outpoint_ok o ->
  exists e, db_fetch_utxo (set_utxoSet b empty_db) o = Ok e.

Lemma put_entry_readable o e b b' :
  outpoint_ok o -> writable e -> readable_set b -> put_entry o e b = Ok b' -> readable_set b'.
Proof.
  intros Ho Hw Hr. destruct e as [e|]; cbn [put_entry]; [|by intros [= <-]].
  destruct (isModified e) eqn:Hm; cbn [negb]; [|by intros [= <-]]. destruct (IsSpent e) eqn:Hs.
  - intros [= <-] o' Ho'. unfold db_fetch_utxo. cbn [utxoSet set_utxoSet].
    destruct (decide (outpointKey o = outpointKey o')) as [->|Hne]; [rewrite lookup_delete_eq; by eexists|].
    rewrite lookup_delete_ne by done. by apply Hr.
  - destruct (deserialize_serialize_utxo e Hs (Hw Hm Hs)) as (bs & e' & Hser & Hne & Hdes & _).
    rewrite Hser. cbn [rbind default]. intros [= <-] o' Ho'. unfold db_fetch_utxo. cbn [utxoSet set_utxoSet].
    destruct (decide (outpointKey o = outpointKey o')) as [->|Hk]; [|rewrite lookup_insert_ne by done; by apply Hr].
    rewrite lookup_insert_eq, (proj2 (Nat.eqb_neq _ _)) by (by destruct bs). rewrite Hdes. by eexists.
Qed.

Lemma put_view_readable `{OutPointOrder} view db db' :
  (forall o e, entries view !! o = Some e -> outpoint_ok o /\ writable e) -> readable_set (utxoSet db) ->
  dbPutUtxoView view db = Ok db' -> readable_set (utxoSet db').
Proof.
  intros Hok Hr Hp. unfold dbPutUtxoView in Hp. apply rbind_Ok in Hp as (b & Hp & [= <-]). cbn [utxoSet set_utxoSet].
  assert (Hl : Forall (fun p => outpoint_ok p.1 /\ writable p.2) (range_entries (entries view))).
  { apply List.Forall_forall. intros [o e] Hin. apply Hok. apply list_elem_of_In in Hin.
    rewrite range_entries_perm in Hin. by apply elem_of_map_to_list in Hin. }
  revert Hp Hr. generalize (utxoSet db). induction Hl as [|[o e] l [Ho Hw] _ IH]; intros b0 Hp Hr; cbn [put_entries] in Hp.
  { by injection Hp as <-. }
  apply rbind_Ok in Hp as (b1 & H1 & Hp). eapply IH; [exact Hp|]. by eapply put_entry_readable.
Qed.

Lemma toggle_coin e :
  entry_coin (Some (with_flags (Z.lxor (ue_packedFlags e) tfModified) e)) = entry_coin (Some e)
  /\ isModified (with_flags (Z.lxor (ue_packedFlags e) tfModified) e) = negb (isModified e).
Proof.
  unfold entry_coin, live_coin. cbn [ue_amount ue_pkScript ue_blockHeight with_flags].
  split; flags; rewrite ?xorb_false_r, ?xorb_true_r; done.
Qed.

Lemma lookup_commit view o : entries (commit view) !! o = entries view !! o ≫= commit_entry.
Proof. apply lookup_omap. Qed.

(** The view that is kept after it was written. *)
Lemma commit_view db db' view :
  (forall o, is_Some (entries view !! o) -> outpoint_ok o) ->
  (forall o, outpoint_ok o -> fetch_coin db' o = view_coin db view o) ->
  (forall o, outpoint_ok o -> view_coin db' (commit view) o = view_coin db view o)
  /\ view_ok db' (commit view).
Proof.
  intros Hk Hf. split.
  - intros o Ho. specialize (Hf o Ho). unfold view_coin in *. rewrite lookup_commit.
    destruct (entries view !! o) as [[e|]|]; cbn [mbind option_bind commit_entry]; try done.
    destruct (isModified e && IsSpent e); cbn; [done|]. apply toggle_coin.
  - intros o e. rewrite lookup_commit. destruct (entries view !! o) as [[e0|]|] eqn:He; cbn; try done.
    destruct (isModified e0 && IsSpent e0) eqn:Hms; [done|]. intros [= <-] Hu.
    destruct (toggle_coin e0) as [-> Ht]. cbn [unchanged] in Hu. rewrite Hf by (apply Hk; by rewrite He).
    unfold view_coin. by rewrite He.
Qed.

(** ** Other records *)

Lemma copy_into_id n bs : length bs = n -> copy_into n bs = bs.
Proof. intros <-. unfold copy_into. by rewrite take_app_length. Qed.

Lemma length_copy_into n bs : length (copy_into n bs) = n.
Proof. unfold copy_into. rewrite length_take, length_app, length_replicate. lia. Qed.

Lemma height_roundtrip h hgt db :
  hash_ok h -> is_i32 hgt ->
  dbFetchHeightByHash h (dbPutBlockIndex h hgt db) = Ok hgt
  /\ dbFetchHashByHeight hgt (dbPutBlockIndex h hgt db) = Ok h
  /\ dbFetchHeightByHash h (dbRemoveBlockIndex h hgt db) = Err ErrNotInMainChain
  /\ dbFetchHashByHeight hgt (dbRemoveBlockIndex h hgt db) = Err ErrNotInMainChain.
Proof.
  intros Hh Hg. unfold dbFetchHeightByHash, dbFetchHashByHeight, dbPutBlockIndex, dbRemoveBlockIndex.
  cbn [hashIndex heightIndex set_heights]. rewrite !lookup_insert_eq, !lookup_delete_eq.
  repeat split; [|by rewrite copy_into_id]. unfold serializedHeight, PutUint32. rewrite length_le_bytes.
  change (4 <? 4)%nat with false. cbn [andb]. rewrite take_ge by (by rewrite length_le_bytes). rewrite le_value_bytes.
  change (2 ^ (8 * Z.of_nat 4)) with (2 ^ 32). f_equal.
  rewrite (Z.mod_small (u32 hgt)) by apply u32_range. by apply i32_u32.
Qed.

(** What [deserializeBestChainState] expects of the state's fields. *)
Record best_state_ok (s : bestChainState) : Prop := {
  bo_hash : hash_ok (bcs_hash s); bo_height : is_u32 (bcs_height s); bo_txns : is_u64 (bcs_totalTxns s);
  bo_scale : is_u16 (bcs_scale s); bo_reserved : is_u16 (bcs_reserved s); bo_votes : is_u16 (bcs_votes s);
  bo_sig : hash64_ok (bcs_signature s); bo_key : hash33_ok (bcs_pubKey s)
}.

(** Skip one more field. *)
Lemma drop_more {A} (l a r : list A) lo n : drop lo l = a ++ r -> length a = n -> drop (lo + n) l = r.
Proof. intros Hd <-. by rewrite <- drop_drop, Hd, drop_app_length. Qed.

Lemma le_value_small n z : 0 <= z < 2 ^ (8 * Z.of_nat n) -> le_value (le_bytes n z) = z.
Proof. intros Hz. rewrite le_value_bytes. by apply Z.mod_small. Qed.

Lemma best_state_roundtrip s :
  best_state_ok s ->
  deserializeBestChainState (serializeBestChainState s)
  = Ok (mkBestChainState (bcs_hash s) (bcs_height s) (bcs_totalTxns s) (bcs_scale s) (bcs_reserved s)
          (bcs_votes s) (bcs_signature s) (take HashSize (bcs_pubKey s) ++ [x00])).
Proof.
  intros [H1 H2 H3 H4 H5 H6 H7 H8]. unfold hash_ok, hash33_ok, hash64_ok in *.
  unfold serializeBestChainState. rewrite (copy_into_id _ _ H1), (copy_into_id _ _ H7).
  unfold deserializeBestChainState, PutUint32, PutUint64, PutUint16.
  assert (Hk : copy_into HashSize (bcs_pubKey s) = take HashSize (bcs_pubKey s)).
  { unfold copy_into. apply take_app_le. rewrite H8. unfold HashSize, Hash33Size. lia. }
  rewrite Hk. change (replicate (Hash33Size - HashSize) x00) with [x00].
  set (k := take HashSize (bcs_pubKey s)).
  assert (Hkl : length k = 32%nat) by (unfold k; rewrite length_take, H8; done).
  rewrite (proj2 (Nat.ltb_ge _ _)).
  2:{ rewrite !length_app, !length_le_bytes, H1, H7, Hkl. cbn. lia. }
  set (b4 := le_bytes 4 _). set (b8 := le_bytes 8 _). set (s2 := le_bytes 2 (bcs_scale s)).
  set (r2 := le_bytes 2 (bcs_reserved s)). set (v2 := le_bytes 2 (bcs_votes s)).
  set (full := bcs_hash s ++ _).
  assert (D0 : drop 0 full = full) by apply drop_0.
  assert (D1 : drop 32 full = _) by exact (drop_more _ _ _ 0 _ D0 H1).
  assert (D2 : drop 36 full = _) by exact (drop_more _ _ _ 32 _ D1 (length_le_bytes 4 _)).
  assert (D3 : drop 44 full = _) by exact (drop_more _ _ _ 36 _ D2 (length_le_bytes 8 _)).
  assert (D4 : drop 46 full = _) by exact (drop_more _ _ _ 44 _ D3 (length_le_bytes 2 _)).
  assert (D5 : drop 48 full = _) by exact (drop_more _ _ _ 46 _ D4 (length_le_bytes 2 _)).
  assert (D6 : drop 50 full = _) by exact (drop_more _ _ _ 48 _ D5 (length_le_bytes 2 _)).
  assert (D7 : drop 114 full = _) by exact (drop_more _ _ _ 50 _ D6 H7).
  cbv zeta. rewrite D0, D1, D2, D3, D4, D5, D6, D7. unfold full.
  rewrite !take_app_le, !take_ge
    by (rewrite ?length_app, ?length_le_bytes, ?H1, ?H7, ?Hkl; unfold HashSize, Hash64Size, Hash33Size; cbn; lia).
  unfold b4, b8, s2, r2, v2. rewrite !le_value_small by done. done.
Qed.

Lemma block_row_roundtrip node st :
  header_ok (Header node) -> is_u8 st -> is_u16 (Votes node) ->
  deserializeBlockRow (block_row node st) = Ok (Header node, st, Votes node).
Proof.
  intros Hh Hst Hv. unfold deserializeBlockRow, block_row, bind.
  rewrite readBlockHeader_write by done. cbn [rbind]. rewrite Uint8_Put by done. cbn [rbind].
  rewrite <- (app_nil_r (PutUint16 _)), Uint16_Put by done. done.
Qed.

(** [migrateBlockIndex] of upgrade.go writes rows without votes. *)
Lemma migrated_row_unreadable header st :
  header_ok header -> is_u8 st -> exists e, deserializeBlockRow (writeBlockHeader header ++ PutUint8 st) = Err e.
Proof.
  intros Hh Hst. unfold deserializeBlockRow, bind. rewrite readBlockHeader_write by done. cbn [rbind].
  rewrite <- (app_nil_r (PutUint8 st)), Uint8_Put by done. cbn [rbind]. by eexists.
Qed.

(** ** Properties *)

(** C30: the database follows the view: writing a view whose unmodified entries
    agree with the database succeeds, in whatever order the entries are visited,
    and makes the utxo set in the database the one the view describes; and the
    view that [commit] keeps describes the same set over the new database and
    can be written again. *)
Theorem utxo_view_flush `{OutPointOrder} view db :
  (forall o e, entries view !! o = Some e -> outpoint_ok o /\ writable e) -> view_ok db view ->
  exists db', dbPutUtxoView view db = Ok db'
    /\ (forall o, outpoint_ok o -> fetch_coin db' o = view_coin db view o
                                   /\ view_coin db' (commit view) o = view_coin db view o)
    /\ view_ok db' (commit view).
Proof.
  intros Hok Hv. destruct (put_view view db Hok Hv) as (db' & Hput & Hf). exists db'. split; [done|].
  destruct (commit_view db db' view) as [Hc Hcv]; [|done|].
  - intros o [e He]. by eapply Hok.
  - split; [|done]. intros o Ho. split; [by apply Hf|by apply Hc].
Qed.

(** the spend journal: what [dbPutSpendJournalEntry] stores for a block is
    what [dbFetchSpendJournalEntry] reads for it, provided there is one entry
    per input of the transactions after the coinbase and the entries are in
    range; and each entry takes exactly the space that was reserved for it. *)
Theorem spend_journal_roundtrip blockHash block stxos db :
  mb_Transactions block <> [] -> Forall stxo_ok stxos ->
  zlen stxos = sumZ (fun tx => zlen (tx_TxIn tx)) (tail (mb_Transactions block)) ->
  dbFetchSpendJournalEntry blockHash block (dbPutSpendJournalEntry blockHash stxos db) = Ok stxos
  /\ zlen (serializeSpendJournalEntry stxos) = sumZ spentTxOutSerializeSize stxos.
Proof.
  intros Hne Hok Hlen. split.
  - unfold dbFetchSpendJournalEntry, dbPutSpendJournalEntry. cbn [spendJournal set_spendJournal].
    destruct (mb_Transactions block) as [|cb txs]; [done|]. rewrite lookup_insert_eq. cbn [from_option id].
    by rewrite journal_roundtrip.
  - clear Hlen Hne. unfold serializeSpendJournalEntry.
    assert (Hgen : forall l, Forall stxo_ok l -> zlen (concat (map putSpentTxOut l)) = sumZ spentTxOutSerializeSize l).
    { induction l as [|s l IH]; intros Hl; [done|]. apply Forall_cons_iff in Hl as [Hs Hl].
      change (sumZ spentTxOutSerializeSize (s :: l)) with (spentTxOutSerializeSize s + sumZ spentTxOutSerializeSize l).
      rewrite <- IH, <- (proj2 (decode_put_stxo s [] Hs)) by done. unfold zlen. cbn [map concat]. rewrite length_app. lia. }
    rewrite Hgen by (by apply Forall_reverse).
    assert (Hsum : forall l, sumZ spentTxOutSerializeSize (reverse l) = sumZ spentTxOutSerializeSize l).
    { induction l as [|s l IH]; [done|]. rewrite reverse_cons, sumZ_app, IH. cbn. unfold sumZ. lia. }
    apply Hsum.
Qed.

(** the stored best state loses the last byte of the public key: reading it
    back gives every field but the key, whose 33rd byte is zero, because
    [serializeBestChainState] copies only [HashSize] bytes of it. *)
Theorem best_state_truncates_key s :
  best_state_ok s ->
  deserializeBestChainState (serializeBestChainState s)
  = Ok (mkBestChainState (bcs_hash s) (bcs_height s) (bcs_totalTxns s) (bcs_scale s) (bcs_reserved s)
          (bcs_votes s) (bcs_signature s) (take HashSize (bcs_pubKey s) ++ [x00])).
Proof. apply best_state_roundtrip. Qed.

(** the block index: the row of a node reads back as its header, its status
    and its votes, and the index of heights maps the hash and the height of a
    block of the main chain to each other until it is removed; rows that the
    migration of upgrade.go writes, which have no votes, cannot be read. *)
Theorem block_index_roundtrip node st db header :
  header_ok (Header node) -> is_u8 st -> is_u16 (Votes node) -> hash_ok (hash node) -> is_i32 (height node) ->
  header_ok header ->
  deserializeBlockRow (block_row node st) = Ok (Header node, st, Votes node)
  /\ dbFetchHeightByHash (hash node) (dbPutBlockIndex (hash node) (height node) db) = Ok (height node)
  /\ dbFetchHashByHeight (height node) (dbPutBlockIndex (hash node) (height node) db) = Ok (hash node)
  /\ dbFetchHeightByHash (hash node) (dbRemoveBlockIndex (hash node) (height node) db) = Err ErrNotInMainChain
  /\ exists e, deserializeBlockRow (writeBlockHeader header ++ PutUint8 st) = Err e.
Proof.
  intros Hh Hst Hv Hhash Hhgt Hmig. destruct (height_roundtrip (hash node) (height node) db Hhash Hhgt) as (H1 & H2 & H3 & _).
  split; [by apply block_row_roundtrip|]. split; [done|]. split; [done|]. split; [done|].
  by apply migrated_row_unreadable.
Qed.

(** ** Witnesses *)

Section Witnesses.
#[local] Existing Instance prefix_hash_functions | 0.
#[local] Existing Instance elements_order.

Definition sample_stored_out : OutPoint := mkOutPoint (replicate 32 x07) 3.
Definition sample_stored_view : UtxoViewpoint :=
  set_entry sample_stored_out (Some (mkUtxoEntry 1000 [x51] 7 (fresh_flags true))) NewUtxoViewpoint.

Lemma sample_script_ok : stored_script_ok [x51].
Proof. reflexivity. Qed.

Lemma sample_view_entries o e :
  entries sample_stored_view !! o = Some e ->
  o = sample_stored_out /\ e = Some (mkUtxoEntry 1000 [x51] 7 (fresh_flags true)).
Proof.
  unfold sample_stored_view. rewrite lookup_set_entry. cbn [entries NewUtxoViewpoint].
  destruct (decide (sample_stored_out = o)) as [<-|_]; [by intros [= <-]|by rewrite lookup_empty].
Qed.

Lemma utxo_view_flush_witness :
  exists db', dbPutUtxoView sample_stored_view empty_db = Ok db'
    /\ fetch_coin db' sample_stored_out = Some (mkCoin 1000 [x51] 7 true).
Proof.
  destruct (utxo_view_flush sample_stored_view empty_db) as (db' & Hput & Hf & _).
  - intros o e He. apply sample_view_entries in He as [-> ->]. split.
    + split; [reflexivity|vm_compute; split; congruence].
    + intros _ _. split; [vm_compute; split; congruence|]. split; [vm_compute; split; congruence|exact sample_script_ok].
  - intros o e He Hu. apply sample_view_entries in He as [-> ->]. vm_compute in Hu. discriminate.
  - exists db'. split; [exact Hput|]. destruct (Hf sample_stored_out) as [-> _].
    + split; [reflexivity|vm_compute; split; congruence].
    + vm_compute. reflexivity.
Defined.

Definition sample_spent : SpentTxOut := mkSpentTxOut 1000 [x51] 7 true.

Lemma spend_journal_roundtrip_witness :
  dbFetchSpendJournalEntry zero_hash
    (mkMsgBlock sample_header [wire_tx; mkMsgTx 1 [mkTxIn sample_stored_out [] [] 0] [] 0])
    (dbPutSpendJournalEntry zero_hash [sample_spent] empty_db) = Ok [sample_spent].
Proof.
  apply spend_journal_roundtrip; [discriminate| |reflexivity].
  constructor; [|constructor]. split; [vm_compute; split; congruence|vm_compute; split; congruence|exact sample_script_ok].
Defined.

Definition sample_best_state : bestChainState :=
  mkBestChainState zero_hash 5 9 1 0 3 (replicate 64 x02) (replicate 33 x03).

Lemma best_state_truncates_key_witness :
  match deserializeBestChainState (serializeBestChainState sample_best_state) with
  | Ok s => bcs_pubKey s = replicate 32 x03 ++ [x00]
  | _ => False
  end.
Proof.
  rewrite (best_state_truncates_key sample_best_state); [reflexivity|].
  constructor; vm_compute; try reflexivity; split; congruence.
Defined.

Definition sample_index_node : blockNode :=
  newBlockNode (mkBlockHeader 1 zero_hash zero_hash 7 (replicate 64 x02) (replicate 33 x03) 1 0) None 4.

Lemma sample_index_header : header_ok (Header sample_index_node).
Proof. constructor; vm_compute; try reflexivity; split; congruence. Qed.

Lemma block_index_roundtrip_witness :
  deserializeBlockRow (block_row sample_index_node 3) = Ok (Header sample_index_node, 3, 4).
Proof.
  apply (block_index_roundtrip sample_index_node 3 empty_db (Header sample_index_node) sample_index_header).
  - vm_compute. split; congruence.
  - vm_compute. split; congruence.
  - reflexivity.
  - vm_compute. split; congruence.
  - exact sample_index_header.
Defined.

End Witnesses.
