(* ===== verification/ChainView.v ===== *)
(** * The view of the best chain: blockchain/chainview.go

    A [chainView] is a slice with the node of the chain at each height.  Nodes
    are pointers of the block index, which has one node per block: comparing
    pointers is comparing nodes. *)

From S2P Require Import Prelude Chainhash Wire Hash WireMsg BlockIndex.

#[export] Instance nodeData_eq_dec : EqDecision nodeData.
Proof. solve_decision. Defined.
#[export] Instance blockNode_eq_dec : EqDecision blockNode.
Proof. solve_decision. Defined.

(** ** [fastLog2Floor] *)

Definition log2FloorMasks : list Z := [0xffff0000; 0xff00; 0xf0; 0xc; 0x2].

Fixpoint log2_loop (masks : list Z) (rv exponent n : Z) : Z :=
  match masks with
  | [] => rv
  | mask :: masks =>
      let '(rv, n) := if negb (Z.land n mask =? 0) then (u8 (rv + exponent), Z.shiftr n exponent) else (rv, n) in
      log2_loop masks rv (Z.shiftr exponent 1) n
  end.

Definition fastLog2Floor (n : Z) : Z := log2_loop log2FloorMasks 0 16 n.

(** ** The view *)

(** An element that was not filled in is nil. *)
Record chainView := mkChainView { cv_nodes : list (option blockNode) }.

Definition genesis (c : chainView) : option blockNode := mjoin (head (cv_nodes c)).
Definition tip (c : chainView) : option blockNode := mjoin (list.last (cv_nodes c)).

(** The loop of [setTip]: an index out of range panics. *)
Fixpoint fill_nodes {E} (node : blockNode) (nodes : list (option blockNode)) : result E (list (option blockNode)) :=
  let i := Z.to_nat (height node) in
  if (height node <? 0) then Panic
  else match nodes !! i with
       | None => Panic
       | Some n =>
           if decide (n = Some node) then Ok nodes
           else
             let nodes := <[i := Some node]> nodes in
             match node with
             | ChildNode _ p => fill_nodes p nodes
             | RootNode _ => Ok nodes
             end
       end.

(** The slice gets the length [height + 1]; new elements are nil, and making it
    shorter keeps the others.  A negative length panics. *)
Definition setTip {E} (node : option blockNode) (c : chainView) : result E chainView :=
  match node with
  | None => Ok (mkChainView [])
  | Some node =>
      let needed := i32 (height node + 1) in
      if needed <? 0 then Panic
      else
        let* nodes := fill_nodes node (resize (Z.to_nat needed) None (cv_nodes c)) in
        Ok (mkChainView nodes)
  end.

Definition newChainView {E} (node : option blockNode) : result E chainView := setTip node (mkChainView []).

Definition view_height (c : chainView) : Z := i32 (zlen (cv_nodes c) - 1).

Definition nodeByHeight (c : chainView) (h : Z) : option blockNode :=
  if (h <? 0) || (i32 (zlen (cv_nodes c)) <=? h) then None else mjoin (cv_nodes c !! Z.to_nat h).

Definition Equals (c other : chainView) : bool :=
  (length (cv_nodes c) =? length (cv_nodes other))%nat && bool_decide (tip c = tip other).

Definition contains (c : chainView) (node : blockNode) : bool :=
  bool_decide (nodeByHeight c (height node) = Some node).

Definition next (c : chainView) (node : option blockNode) : option blockNode :=
  match node with
  | None => None
  | Some node => if negb (contains c node) then None else nodeByHeight c (i32 (height node + 1))
  end.

(** The walk to the first node of the view. *)
Fixpoint fork_walk (c : chainView) (node : blockNode) : option blockNode :=
  if contains c node then Some node
  else match node with ChildNode _ p => fork_walk c p | RootNode _ => None end.

Definition findFork (c : chainView) (node : option blockNode) : option blockNode :=
  match node with
  | None => None
  | Some node =>
      let chainHeight := view_height c in
      match (if chainHeight <? height node then Ancestor node chainHeight else Some node) with
      | None => None
      | Some node => fork_walk c node
      end
  end.

(** The loop of [blockLocator]; each round goes to a lower height, so that the
    height of the node bounds the rounds. *)
Fixpoint locator_loop (fuel : nat) (c : chainView) (node : option blockNode) (step : Z) (locator : list Hash)
  : list Hash :=
  match fuel, node with
  | S fuel, Some node =>
      let locator := locator ++ [hash node] in
      if height node =? 0 then locator
      else
        let h := i32 (height node - step) in
        let h := if h <? 0 then 0 else h in
        let node := if contains c node then mjoin (cv_nodes c !! Z.to_nat h) else Ancestor node h in
        let step := if (10 <? length locator)%nat then i32 (step * 2) else step in
        locator_loop fuel c node step locator
  | _, _ => locator
  end.

Definition blockLocator (c : chainView) (node : option blockNode) : list Hash :=
  match (match node with None => tip c | Some _ => node end) with
  | None => []
  | Some node => locator_loop (S (Z.to_nat (height node))) c (Some node) 1 []
  end.

(** ** Chains as slices *)

(** The slice of the chain that ends in a node. *)
Definition slice_of (node : blockNode) : list (option blockNode) := Some <$> reverse (chain_of node).
Definition view_of (c : chainView) (tip : option blockNode) : Prop :=
  match tip with
  | None => cv_nodes c = []
  | Some node => chain_ok node /\ height node < 2 ^ 31 - 1 /\ cv_nodes c = slice_of node
  end.

Lemma slice_of_child d p : slice_of (ChildNode d p) = slice_of p ++ [Some (ChildNode d p)].
Proof. unfold slice_of. cbn [chain_of]. by rewrite reverse_cons, fmap_app. Qed.

Lemma length_slice_of node : chain_ok node -> Z.of_nat (length (slice_of node)) = height node + 1.
Proof. intros Hok. unfold slice_of. rewrite length_fmap, length_reverse. by apply length_chain_of. Qed.

Lemma slice_of_last node : exists l, slice_of node = l ++ [Some node].
Proof. destruct node as [d|d p]; [by exists []|]. exists (slice_of p). apply slice_of_child. Qed.

(** Every node of a slice ends the slice of its own chain. *)
Definition closed (nodes : list (option blockNode)) : Prop :=
  forall i n, nodes !! i = Some (Some n) -> take (S i) nodes = slice_of n.

Lemma slice_of_closed node : closed (slice_of node).
Proof.
  induction node as [d|d p IH]; intros i n Hi.
  - destruct i; [|by destruct i]. cbn in Hi. by injection Hi as <-.
  - rewrite slice_of_child in Hi. rewrite slice_of_child. apply lookup_app_Some in Hi as [Hi|[Hle Hi]].
    + rewrite take_app_le; [by apply IH|]. apply lookup_lt_Some in Hi. lia.
    + destruct (i - length (slice_of p))%nat eqn:Hk; [|by destruct n0]. cbn in Hi. injection Hi as <-.
      rewrite take_ge; [by rewrite slice_of_child|]. rewrite length_app. cbn. lia.
Qed.

Lemma closed_take nodes k : closed nodes -> closed (take k nodes).
Proof.
  intros Hc i n Hi. apply lookup_take_Some in Hi as [Hi Hlt]. rewrite take_take, Nat.min_l by lia. by apply Hc.
Qed.

Lemma closed_resize nodes k : closed nodes -> closed (resize k None nodes).
Proof.
  intros Hc i n Hi. rewrite resize_spec in *. apply lookup_app_Some in Hi as [Hi|[_ Hi]].
  - rewrite take_app_le by (apply lookup_lt_Some in Hi; lia). by apply closed_take.
  - by apply lookup_replicate in Hi as [? _].
Qed.

Lemma fill_nodes_eq {E} node nodes :
  0 <= height node < Z.of_nat (length nodes) ->
  let i := Z.to_nat (height node) in
  fill_nodes (E := E) node nodes
  = if decide (nodes !! i = Some (Some node)) then Ok nodes
    else match node with
         | ChildNode _ p => fill_nodes p (<[i := Some node]> nodes)
         | RootNode _ => Ok (<[i := Some node]> nodes)
         end.
Proof.
  intros Hh i. destruct (lookup_lt_is_Some_2 nodes i) as [n Hn]; [unfold i; lia|].
  destruct node as [d|d p]; cbn [fill_nodes]; fold i; rewrite (proj2 (Z.ltb_ge _ _)), Hn by lia;
    (destruct (decide (n = _)) as [->|Hne]; [by rewrite decide_True|rewrite decide_False by congruence; done]).
Qed.

Lemma closed_at nodes i node : closed (take (S i) nodes) -> nodes !! i = Some (Some node) -> take (S i) nodes = slice_of node.
Proof.
  intros Hc Hn. assert (Hn' : take (S i) nodes !! i = Some (Some node)) by (apply lookup_take_Some; split; [done|lia]).
  specialize (Hc i _ Hn'). by rewrite take_take, Nat.min_id in Hc.
Qed.

(** [fill_nodes] stops at the first node that is in place: the part below it
    already is its chain. *)
Lemma fill_nodes_spec {E} node nodes :
  chain_ok node -> height node < Z.of_nat (length nodes) ->
  closed (take (S (Z.to_nat (height node))) nodes) ->
  exists res, fill_nodes (E := E) node nodes = Ok res
    /\ take (S (Z.to_nat (height node))) res = slice_of node
    /\ drop (S (Z.to_nat (height node))) res = drop (S (Z.to_nat (height node))) nodes.
Proof.
  revert nodes. induction node as [d|d p IH]; intros nodes Hok Hlen Hc;
    rewrite fill_nodes_eq by (split; [by apply chain_ok_height|done]);
    pose proof (chain_ok_height _ Hok) as Hh; case_decide as Hn;
    try (exists nodes; split; [done|]; split; [by apply closed_at in Hn|done]).
  - set (i := Z.to_nat (height (RootNode d))) in *. exists (<[i := Some (RootNode d)]> nodes). split; [done|].
    assert (Hi : i = 0%nat) by (unfold i, height; cbn in *; lia).
    rewrite Hi in *. destruct nodes as [|x nodes]; [cbn in Hlen; lia|]. done.
  - set (i := Z.to_nat (height (ChildNode d p))) in *. destruct Hok as [Hd Hp]. assert (Hi : i = S (Z.to_nat (height p))).
    { unfold i. pose proof (chain_ok_height p Hp). unfold height in *. cbn [node_data]. lia. }
    set (nodes1 := <[i := Some (ChildNode d p)]> nodes).
    destruct (IH nodes1) as (res & Hf & Ht & Hdr); [done| | |].
    { unfold nodes1. rewrite length_insert. unfold height in *. cbn [node_data] in *. lia. }
    { unfold nodes1. rewrite take_insert_ge by lia. rewrite <- Hi.
      replace (take i nodes) with (take i (take (S i) nodes)) by (rewrite take_take; f_equal; lia).
      by apply closed_take. }
    exists res. split; [done|]. rewrite <- Hi in Ht, Hdr.
    assert (Hr : drop i res = Some (ChildNode d p) :: drop (S i) nodes).
    { rewrite Hdr. unfold nodes1. rewrite (drop_S _ (Some (ChildNode d p)) i) by (apply list_lookup_insert_eq; lia).
      by rewrite drop_insert_lt by lia. }
    assert (Hres : res = slice_of p ++ Some (ChildNode d p) :: drop (S i) nodes).
    { rewrite <- (take_drop i res), Ht, Hr. done. }
    pose proof (length_slice_of p Hp) as Hl. pose proof (chain_ok_height p Hp).
    assert (Hl' : length (slice_of p) = i) by lia. rewrite Hres, slice_of_child. split.
    + rewrite (cons_middle _ (slice_of p)), app_assoc. apply take_app_length'. rewrite length_app. cbn. lia.
    + rewrite (cons_middle _ (slice_of p)), app_assoc. apply drop_app_length'. rewrite length_app. cbn. lia.
Qed.

Lemma setTip_view {E} c old node :
  view_of c old -> chain_ok node -> height node < 2 ^ 31 - 1 ->
  setTip (E := E) (Some node) c = Ok (mkChainView (slice_of node)).
Proof.
  intros Hc Hok Hh. pose proof (chain_ok_height node Hok) as H0. unfold setTip.
  rewrite i32_small by (widths; lia). rewrite (proj2 (Z.ltb_ge _ _)) by lia.
  assert (Hcl : closed (cv_nodes c)).
  { destruct old as [o|]; [destruct Hc as (_ & _ & ->); apply slice_of_closed|]. rewrite Hc. by intros i n. }
  destruct (fill_nodes_spec (E := E) node (resize (Z.to_nat (height node + 1)) None (cv_nodes c)) Hok)
    as (res & -> & Ht & Hd).
  - rewrite length_resize. lia.
  - apply closed_take, closed_resize, Hcl.
  - cbn [rbind]. do 2 f_equal. rewrite <- (take_drop (S (Z.to_nat (height node))) res), Ht, Hd.
    rewrite drop_ge by (rewrite length_resize; lia). apply app_nil_r.
Qed.

(** ** Lookups in a view *)

Lemma nth_slice node i :
  chain_ok node -> 0 <= i <= height node -> slice_of node !! Z.to_nat i = Some (Ancestor node i).
Proof.
  intros Hok Hi. unfold slice_of, Ancestor. rewrite (proj2 (orb_false_iff _ _)) by lia.
  rewrite ancestor_walk_chain by done. pose proof (length_chain_of node Hok) as Hl.
  rewrite list_lookup_fmap, reverse_lookup by lia.
  replace (length (chain_of node) - S (Z.to_nat i))%nat with (Z.to_nat (height node - i)) by lia.
  destruct (lookup_lt_is_Some_2 (chain_of node) (Z.to_nat (height node - i))) as [x ->]; [lia|done].
Qed.

Lemma nodeByHeight_view c t h : view_of c (Some t) -> nodeByHeight c h = Ancestor t h.
Proof.
  intros (Hok & Hh & Hc). unfold nodeByHeight. rewrite Hc. unfold zlen. pose proof (length_slice_of t Hok) as Hl.
  pose proof (chain_ok_height t Hok). rewrite Hl, i32_small by (widths; lia).
  destruct (Z.lt_ge_cases h 0); [unfold Ancestor; by rewrite !(proj2 (Z.ltb_lt h 0))|].
  destruct (Z.le_gt_cases h (height t)).
  - rewrite (proj2 (orb_false_iff _ _)) by lia. by rewrite nth_slice.
  - unfold Ancestor. by rewrite !(proj2 (orb_true_iff _ _)) by lia.
Qed.

Lemma Ancestor_mem t n : chain_ok t -> Ancestor t (height n) = Some n <-> n ∈ chain_of t.
Proof.
  intros Hok. rewrite list_elem_of_lookup. unfold Ancestor. split.
  - case_if; [done|]. rewrite ancestor_walk_chain by (try done; lia). eauto.
  - intros [k Hk]. pose proof (chain_of_height t k n Hok Hk) as Hn. pose proof (lookup_lt_Some _ _ _ Hk).
    pose proof (length_chain_of t Hok). rewrite (proj2 (orb_false_iff _ _)) by lia.
    rewrite ancestor_walk_chain by (try done; lia). by replace (Z.to_nat (height t - height n)) with k by lia.
Qed.

Lemma contains_view c t n : view_of c (Some t) -> contains c n = true <-> n ∈ chain_of t.
Proof.
  intros Hc. unfold contains. rewrite (nodeByHeight_view c t) by done. rewrite bool_decide_eq_true.
  apply Ancestor_mem, Hc.
Qed.

Lemma fork_walk_find c node : fork_walk c node = List.find (contains c) (chain_of node).
Proof. induction node as [d|d p IH]; cbn [fork_walk chain_of List.find]; destruct (contains _ _); done. Qed.

Lemma find_first {A} (f : A -> bool) l x :
  List.find f l = Some x ->
  exists k, l !! k = Some x /\ f x = true /\ forall j y, l !! j = Some y -> f y = true -> (k <= j)%nat.
Proof.
  induction l as [|a l IH]; cbn; [done|]. destruct (f a) eqn:Ha.
  - intros [= <-]. exists O. repeat split; [done|]. intros. lia.
  - intros Hf. destruct (IH Hf) as (k & Hk & Hx & Hmin). exists (S k). split; [done|]. split; [done|].
    intros [|j] y Hj Hy; [cbn in Hj; congruence|]. specialize (Hmin j y Hj Hy). lia.
Qed.

Lemma chain_of_drop node k n : chain_of node !! k = Some n -> chain_of n = drop k (chain_of node).
Proof.
  revert k. induction node as [d|d p IH]; intros [|k] Hk.
  - cbn in Hk. by injection Hk as <-.
  - by destruct k.
  - injection Hk as <-. done.
  - cbn in Hk. by apply IH.
Qed.

Lemma chain_ok_mem node k n : chain_ok node -> chain_of node !! k = Some n -> chain_ok n.
Proof.
  revert k. induction node as [d|d p IH]; intros [|k] Hok Hk.
  - cbn in Hk. by injection Hk as <-.
  - by destruct k.
  - by injection Hk as <-.
  - cbn in Hk. by apply (IH k); [apply Hok|].
Qed.

(** The last block that the chain of the view and the chain of a node share. *)
Definition last_common (t node f : blockNode) : Prop :=
  f ∈ chain_of t /\ f ∈ chain_of node
  /\ forall g, g ∈ chain_of t -> g ∈ chain_of node -> height g <= height f.

Lemma findFork_Some c t node f :
  view_of c (Some t) -> chain_ok node -> findFork c (Some node) = Some f -> last_common t node f.
Proof.
  intros Hc Hok. unfold findFork. assert (Hvh : view_height c = height t).
  { destruct Hc as (Hokt & Hh & Hs). unfold view_height, zlen. rewrite Hs, (length_slice_of t Hokt).
    pose proof (chain_ok_height t Hokt). rewrite i32_small by (widths; lia). lia. }
  rewrite Hvh. set (start := if height t <? height node then Ancestor node (height t) else Some node). intros Hf.
  assert (Hstart : exists k n, start = Some n /\ chain_of node !! k = Some n
    /\ (forall g, g ∈ chain_of t -> g ∈ chain_of node -> g ∈ chain_of n)).
  { unfold start in *. destruct (height t <? height node) eqn:Hlt.
    - unfold Ancestor in *. destruct (_ || _) eqn:Hr in Hf; [done|]. rewrite Hr.
      rewrite ancestor_walk_chain in Hf |- * by (try done; lia).
      destruct (chain_of node !! Z.to_nat (height node - height t)) as [n|] eqn:Hn; [|done].
      exists (Z.to_nat (height node - height t)), n. split; [done|]. split; [done|].
      intros g Hg Hgn. apply list_elem_of_lookup in Hg as [j Hj], Hgn as [i Hi].
      pose proof (chain_of_height t j g (proj1 Hc) Hj). pose proof (chain_of_height node i g Hok Hi).
      rewrite (chain_of_drop node _ n Hn). apply list_elem_of_lookup.
      exists (i - Z.to_nat (height node - height t))%nat. rewrite lookup_drop. rewrite <- Hi. f_equal. lia.
    - exists O, node. split; [done|]. split; [by destruct node|]. done. }
  destruct Hstart as (k & n & Hs & Hk & Hsub). rewrite Hs, fork_walk_find in Hf.
  pose proof (chain_ok_mem node k n Hok Hk) as Hokn.
  apply find_first in Hf as (j & Hj & Hcf & Hmin). apply (contains_view c t) in Hcf; [|done].
  split; [done|]. split.
  - rewrite (chain_of_drop node k n Hk), lookup_drop in Hj. by eapply list_elem_of_lookup_2.
  - intros g Hg Hgn. specialize (Hsub g Hg Hgn). apply list_elem_of_lookup in Hsub as [i Hi].
    specialize (Hmin i g Hi (proj2 (contains_view c t g Hc) Hg)).
    rewrite (chain_of_height n i g Hokn Hi), (chain_of_height n j f Hokn Hj). lia.
Qed.

(** ** The logarithm *)

Lemma land_mask n k :
  0 < k -> 0 <= n < 2 ^ (2 * k) -> Z.land n (Z.shiftl (Z.ones k) k) = Z.shiftl (Z.shiftr n k) k.
Proof.
  intros Hk Hn. apply Z.bits_inj'. intros i Hi. rewrite Z.land_spec, !Z.shiftl_spec by lia.
  destruct (Z.lt_ge_cases i k); [by rewrite !(Z.testbit_neg_r _ (i - k)), andb_false_r by lia|].
  rewrite Z.shiftr_spec by lia. replace (i - k + k) with i by lia.
  destruct (Z.lt_ge_cases i (2 * k)).
  - rewrite Z.ones_spec_low by lia. apply andb_true_r.
  - rewrite <- (Z.mod_small n (2 ^ (2 * k))) by lia. by rewrite Z.mod_pow2_bits_high by lia.
Qed.

Lemma log2_step masks k rv n :
  0 < k -> 0 < n < 2 ^ (2 * k) -> 0 <= rv <= 255 - k ->
  exists rv' n', log2_loop (Z.shiftl (Z.ones k) k :: masks) rv k n = log2_loop masks rv' (Z.shiftr k 1) n'
    /\ 0 < n' < 2 ^ k /\ rv' + Z.log2 n' = rv + Z.log2 n /\ rv <= rv' <= rv + k.
Proof.
  intros Hk Hn Hrv. cbn [log2_loop]. rewrite land_mask by lia. rewrite Z.shiftl_mul_pow2, Z.shiftr_div_pow2 by lia.
  assert (H2 : 0 < 2 ^ k) by (apply Z.pow_pos_nonneg; lia).
  assert (Hd : 0 <= n / 2 ^ k < 2 ^ k).
  { split; [apply Z.div_pos; lia|]. apply Z.div_lt_upper_bound; [lia|]. rewrite <- Z.pow_add_r by lia.
    replace (k + k) with (2 * k) by lia. lia. }
  destruct (n / 2 ^ k * 2 ^ k =? 0) eqn:Hz; cbn [negb].
  - assert (n / 2 ^ k = 0) as Hq by nia. apply Z.div_small_iff in Hq; [|lia]. exists rv, n. split; [done|]. lia.
  - assert (Hpos : 0 < n / 2 ^ k) by nia. exists (rv + k), (n / 2 ^ k).
    rewrite u8_small by (widths; lia). split; [done|]. split; [lia|]. split; [|lia].
    rewrite <- Z.shiftr_div_pow2, Z.log2_shiftr by lia.
    assert (k <= Z.log2 n).
    { apply Z.log2_le_pow2; [lia|]. destruct (Z.lt_ge_cases n (2 ^ k)); [|done]. rewrite Z.div_small in Hpos by lia. lia. }
    lia.
Qed.

Lemma fastLog2Floor_log2 n : 0 < n < 2 ^ 32 -> fastLog2Floor n = Z.log2 n.
Proof.
  intros Hn. unfold fastLog2Floor, log2FloorMasks.
  destruct (log2_step [0xff00; 0xf0; 0xc; 0x2] 16 0 n) as (r1 & n1 & E1 & B1 & L1 & R1); [lia|done|lia|].
  destruct (log2_step [0xf0; 0xc; 0x2] 8 r1 n1) as (r2 & n2 & E2 & B2 & L2 & R2); [lia|done|lia|].
  destruct (log2_step [0xc; 0x2] 4 r2 n2) as (r3 & n3 & E3 & B3 & L3 & R3); [lia|done|lia|].
  destruct (log2_step [0x2] 2 r3 n3) as (r4 & n4 & E4 & B4 & L4 & R4); [lia|done|lia|].
  destruct (log2_step [] 1 r4 n4) as (r5 & n5 & E5 & B5 & L5 & R5); [lia|done|lia|].
  change (log2_loop [0xffff0000; 0xff00; 0xf0; 0xc; 0x2] 0 16 n)
    with (log2_loop (Z.shiftl (Z.ones 16) 16 :: [0xff00; 0xf0; 0xc; 0x2]) 0 16 n). rewrite E1. change (Z.shiftr 16 1) with 8.
  change [0xff00; 0xf0; 0xc; 0x2] with (Z.shiftl (Z.ones 8) 8 :: [0xf0; 0xc; 0x2]). rewrite E2. change (Z.shiftr 8 1) with 4.
  change [0xf0; 0xc; 0x2] with (Z.shiftl (Z.ones 4) 4 :: [0xc; 0x2]). rewrite E3. change (Z.shiftr 4 1) with 2.
  change [0xc; 0x2] with (Z.shiftl (Z.ones 2) 2 :: [0x2]). rewrite E4. change (Z.shiftr 2 1) with 1.
  change [0x2] with (Z.shiftl (Z.ones 1) 1 :: []). rewrite E5. cbn [log2_loop].
  assert (n5 = 1) as -> by (change (2 ^ 1) with 2 in B5; lia). cbn in L5. lia.
Qed.

(** ** Properties *)

(** the view of the best chain: whatever chain it showed before, setting
    the tip gives the view of exactly the chain of the new tip (the walk down
    the parents may stop at the first node that is in place), in which a height
    is mapped to the ancestor at that height, a node is contained when it is on
    the chain, and the fork point found for a node is the last block the two
    chains share. *)
Theorem best_chain_view {E} c old node :
  view_of c old -> chain_ok node -> height node < 2 ^ 31 - 1 ->
  exists c', setTip (E := E) (Some node) c = Ok c' /\ view_of c' (Some node)
    /\ (forall h, nodeByHeight c' h = Ancestor node h)
    /\ (forall n, contains c' n = true <-> n ∈ chain_of node)
    /\ forall n f, chain_ok n -> findFork c' (Some n) = Some f -> last_common node n f.
Proof.
  intros Hc Hok Hh. exists (mkChainView (slice_of node)). split; [by eapply setTip_view|].
  assert (Hv : view_of (mkChainView (slice_of node)) (Some node)) by done. split; [done|].
  split; [intros h; by apply nodeByHeight_view|]. split; [intros n; by apply contains_view|].
  intros n f Hn Hf. by eapply findFork_Some.
Qed.

(** [fastLog2Floor], a binary search over bit masks, is the logarithm to
    base two rounded down, for every positive uint32. *)
Theorem fastLog2Floor_correct n : 0 < n < 2 ^ 32 -> fastLog2Floor n = Z.log2 n.
Proof. apply fastLog2Floor_log2. Qed.

Lemma fastLog2Floor_correct_witness : fastLog2Floor 1000 = Z.log2 1000.
Proof. apply fastLog2Floor_correct. lia. Defined.

Section Witnesses.
#[local] Existing Instance prefix_hash_functions | 0.

Lemma best_chain_view_witness :
  exists c', setTip (E := unit) (Some sample_child) (mkChainView []) = Ok c'
    /\ nodeByHeight c' 0 = Some sample_root.
Proof.
  destruct (best_chain_view (E := unit) (mkChainView []) None sample_child eq_refl sample_child_ok
    ltac:(vm_compute; reflexivity)) as (c' & Hs & _ & Hh & _).
  exists c'. split; [exact Hs|]. rewrite Hh. vm_compute. reflexivity.
Defined.

End Witnesses.
