(* ===== verification/ChainQuery.v ===== *)
(** * Queries on the best chain: blockchain/chain.go

    What the chain answers to the network and to the other components: headers
    and heights by hash, ranges of hashes, and the blocks a peer lacks, found
    with its locator.  The queries read the block index and the view of the best
    chain; a nil dereference is a panic. *)
From S2P Require Import Prelude Chainhash Wire Hash WireMsg WireNet BlockIndex ChainView.
Import ListNotations.
Open Scope Z_scope.
Open Scope list_scope.

Inductive query_error :=
  | UnknownBlock | NotInMainChain | NotValidated | BadStart | BadEnd | TooManyResults.

Section Queries.
Context (bi : blockIndex) (c : chainView).

Definition HeaderByHash (h : Hash) : result query_error BlockHeader :=
  match LookupNode bi h with None => Err UnknownBlock | Some node => Ok (Header node) end.

Definition MainChainHasBlock (h : Hash) : bool :=
  match LookupNode bi h with None => false | Some node => contains c node end.

Definition BlockLocatorFromHash (h : Hash) : list Hash := blockLocator c (LookupNode bi h).
Definition LatestBlockLocator : list Hash := blockLocator c None.

Definition BlockHeightByHash (h : Hash) : result query_error Z :=
  match LookupNode bi h with
  | None => Err NotInMainChain
  | Some node => if contains c node then Ok (height node) else Err NotInMainChain
  end.

Definition BlockHashByHeight (blockHeight : Z) : result query_error Hash :=
  match nodeByHeight c blockHeight with None => Err NotInMainChain | Some node => Ok (hash node) end.

(** The hashes at the [n] heights from [i] on. *)
Fixpoint hashes_from (n : nat) (i : Z) : result query_error (list Hash) :=
  match n with
  | O => Ok []
  | S n =>
      match nodeByHeight c i with
      | None => Panic
      | Some node => let* l := hashes_from n (i + 1) in Ok (hash node :: l)
      end
  end.

Definition HeightRange (startHeight endHeight : Z) : result query_error (list Hash) :=
  if startHeight <? 0 then Err BadStart
  else if endHeight <? startHeight then Err BadEnd
  else if startHeight =? endHeight then Ok []
  else
    match tip c with
    | None => Panic
    | Some t =>
        let latestHeight := height t in
        if latestHeight <? startHeight then Ok []
        else
          let endHeight := if i32 (latestHeight + 1) <? endHeight then i32 (latestHeight + 1) else endHeight in
          hashes_from (Z.to_nat (endHeight - startHeight)) startHeight
    end.

(** The loop fills the slice from its end, so the hashes come in the order of
    the heights. *)
Fixpoint walk_back (n : nat) (node : option blockNode) (hashes : list Hash) : result query_error (list Hash) :=
  match n with
  | O => Ok hashes
  | S n => match node with None => Panic | Some node => walk_back n (parent node) (hash node :: hashes) end
  end.

Definition HeightToHashRange (startHeight : Z) (endHash : Hash) (maxResults : Z) : result query_error (list Hash) :=
  match LookupNode bi endHash with
  | None => Err UnknownBlock
  | Some endNode =>
      if negb (KnownValid (NodeStatus bi endNode)) then Err NotValidated
      else
        let endHeight := height endNode in
        if startHeight <? 0 then Err BadStart
        else if endHeight <? startHeight then Err BadStart
        else
          let resultsLength := i32 (i32 (endHeight - startHeight) + 1) in
          if maxResults <? resultsLength then Err TooManyResults
          else walk_back (Z.to_nat resultsLength) (Some endNode) []
  end.

(** The rounds with [index] counting down to 1. *)
Fixpoint interval_loop (index : nat) (interval : Z) (node : blockNode) (hashes : list Hash)
    : result query_error (list Hash) :=
  match index with
  | O => Ok hashes
  | S n =>
      let blockHeight := i32 (Z.of_nat index * interval) in
      let next := if contains c node then nodeByHeight c blockHeight else Ancestor node blockHeight in
      match next with
      | None => Panic
      | Some node => interval_loop n interval node (hash node :: hashes)
      end
  end.

(** A division by zero and a slice of negative length panic. *)
Definition IntervalBlockHashes (endHash : Hash) (interval : Z) : result query_error (list Hash) :=
  match LookupNode bi endHash with
  | None => Err UnknownBlock
  | Some endNode =>
      if negb (KnownValid (NodeStatus bi endNode)) then Err NotValidated
      else if interval =? 0 then Panic
      else
        let resultsLength := Z.quot (height endNode) interval in
        if resultsLength <? 0 then Panic
        else interval_loop (Z.to_nat resultsLength) interval endNode []
  end.

(** ** Locators *)

(** The first block of the locator on the main chain. *)
Fixpoint first_known (locator : list Hash) : option blockNode :=
  match locator with
  | [] => None
  | h :: locator =>
      match LookupNode bi h with
      | Some node => if contains c node then Some node else first_known locator
      | None => first_known locator
      end
  end.

Definition locateInventory (locator : list Hash) (hashStop : Hash) (maxEntries : Z)
    : result query_error (option blockNode * Z) :=
  let stopNode := LookupNode bi hashStop in
  match locator with
  | [] => match stopNode with None => Ok (None, 0) | Some node => Ok (Some node, 1) end
  | _ :: _ =>
      let startNode := match first_known locator with Some node => Some node | None => genesis c end in
      match next c startNode with
      | None => Ok (None, 0)
      | Some startNode =>
          match tip c with
          | None => Panic
          | Some t =>
              let total := u32 (i32 (i32 (height t - height startNode) + 1)) in
              let total :=
                match stopNode with
                | Some stop =>
                    if contains c stop && (height startNode <=? height stop)
                    then u32 (i32 (i32 (height stop - height startNode) + 1)) else total
                | None => total
                end in
              let total := if maxEntries <? total then maxEntries else total in
              Ok (Some startNode, total)
          end
      end
  end.

(** [total] blocks from [node] on, as hashes or as headers. *)
Fixpoint collect {A} (f : blockNode -> A) (total : nat) (node : option blockNode) : result query_error (list A) :=
  match total with
  | O => Ok []
  | S total =>
      match node with
      | None => Panic
      | Some n => let* l := collect f total (next c (Some n)) in Ok (f n :: l)
      end
  end.

Definition locateBlocks (locator : list Hash) (hashStop : Hash) (maxHashes : Z) : result query_error (list Hash) :=
  let* (node, total) := locateInventory locator hashStop maxHashes in
  collect hash (Z.to_nat total) node.

Definition locateHeaders (locator : list Hash) (hashStop : Hash) (maxHeaders : Z) : result query_error (list BlockHeader) :=
  let* (node, total) := locateInventory locator hashStop maxHeaders in
  collect Header (Z.to_nat total) node.

Definition LocateHeaders (locator : list Hash) (hashStop : Hash) : result query_error (list BlockHeader) :=
  locateHeaders locator hashStop MaxBlockHeadersPerMsg.

End Queries.

(** ** The main chain as a list *)

(** The chain of a node from the genesis block on. *)
Definition main_chain (t : blockNode) : list blockNode := reverse (chain_of t).

Lemma length_main t : chain_ok t -> Z.of_nat (length (main_chain t)) = height t + 1.
Proof. intros Hok. unfold main_chain. rewrite length_reverse. by apply length_chain_of. Qed.

Lemma main_lookup t h : chain_ok t -> 0 <= h <= height t -> main_chain t !! Z.to_nat h = Ancestor t h.
Proof.
  intros Hok Hh. pose proof (nth_slice t h Hok Hh) as Hs. unfold slice_of in Hs. rewrite list_lookup_fmap in Hs.
  unfold main_chain. destruct (reverse (chain_of t) !! Z.to_nat h); cbn in Hs; [by injection Hs|done].
Qed.

Lemma main_height t k n : chain_ok t -> main_chain t !! k = Some n -> height n = Z.of_nat k.
Proof.
  intros Hok Hk. pose proof (lookup_lt_Some _ _ _ Hk) as Hl. pose proof (length_main t Hok) as Hm.
  unfold main_chain in *. rewrite length_reverse in *. rewrite reverse_lookup in Hk by done.
  rewrite (chain_of_height t _ n Hok Hk). lia.
Qed.

Lemma mem_main t n : chain_ok t -> n ∈ chain_of t -> main_chain t !! Z.to_nat (height n) = Some n /\ 0 <= height n <= height t.
Proof.
  intros Hok Hn. unfold main_chain in *. apply elem_of_reverse, list_elem_of_lookup in Hn as [k Hk].
  pose proof (main_height t k n Hok Hk) as Hh. pose proof (lookup_lt_Some _ _ _ Hk) as Hl.
  pose proof (length_main t Hok) as Hm. unfold main_chain in Hm. rewrite Hh, Nat2Z.id. split; [done|lia].
Qed.

Section Views.
Context (c : chainView) (t : blockNode) (Hc : view_of c (Some t)).

Lemma view_tip_node : tip c = Some t.
Proof.
  destruct Hc as (_ & _ & Hs). unfold tip. rewrite Hs. destruct (slice_of_last t) as [l ->]. by rewrite last_snoc.
Qed.

Lemma view_at h : 0 <= h <= height t -> nodeByHeight c h = main_chain t !! Z.to_nat h.
Proof. intros Hh. rewrite (nodeByHeight_view c t) by done. symmetry. apply main_lookup; [apply Hc|done]. Qed.

Lemma view_next n :
  n ∈ chain_of t -> next c (Some n) = main_chain t !! S (Z.to_nat (height n)).
Proof.
  intros Hn. destruct Hc as (Hok & Hh & _). destruct (mem_main t n Hok Hn) as [_ Hr]. unfold next.
  rewrite (proj2 (contains_view c t n Hc) Hn). cbn [negb]. rewrite i32_small by (widths; lia).
  destruct (Z.le_gt_cases (height n + 1) (height t)) as [Hle|Hgt].
  - rewrite view_at by lia. f_equal. lia.
  - rewrite (nodeByHeight_view c t) by done. unfold Ancestor. rewrite (proj2 (orb_true_iff _ _)) by lia.
    symmetry. apply lookup_ge_None. pose proof (length_main t Hok). lia.
Qed.

Lemma hashes_from_main n i :
  0 <= i -> i + Z.of_nat n <= height t + 1 ->
  hashes_from c n i = Ok (map hash (take n (drop (Z.to_nat i) (main_chain t)))).
Proof.
  revert i. induction n as [|n IH]; intros i Hi Hn; [done|]. cbn [hashes_from].
  rewrite view_at by lia. pose proof (length_main t (proj1 Hc)) as Hl.
  destruct (lookup_lt_is_Some_2 (main_chain t) (Z.to_nat i)) as [x Hx]; [lia|]. rewrite Hx, IH by lia. cbn [rbind].
  rewrite (drop_S _ x (Z.to_nat i)) by done. cbn [take map]. by replace (Z.to_nat (i + 1)) with (S (Z.to_nat i)) by lia.
Qed.

Lemma collect_main {A} (f : blockNode -> A) total i :
  (i + total <= length (main_chain t))%nat ->
  collect c f total (main_chain t !! i) = Ok (map f (take total (drop i (main_chain t)))).
Proof.
  revert i. induction total as [|total IH]; intros i Hi; [done|]. cbn [collect].
  destruct (lookup_lt_is_Some_2 (main_chain t) i) as [x Hx]; [lia|]. rewrite Hx.
  assert (Hm : x ∈ chain_of t) by (apply elem_of_reverse; by eapply list_elem_of_lookup_2).
  rewrite (view_next x Hm), (main_height t i x (proj1 Hc) Hx), Nat2Z.id, IH by lia.
  by rewrite (drop_S _ x i Hx).
Qed.

Lemma genesis_main : genesis c = main_chain t !! O.
Proof.
  destruct Hc as (Hok & _ & Hs). unfold genesis. rewrite Hs. unfold slice_of, main_chain.
  destruct (reverse (chain_of t)); done.
Qed.

End Views.

Lemma walk_back_chain n node hashes :
  chain_ok node -> (n <= length (chain_of node))%nat ->
  walk_back n (Some node) hashes = Ok (map hash (reverse (take n (chain_of node))) ++ hashes).
Proof.
  revert node hashes. induction n as [|n IH]; intros node hashes Hok Hn; [done|].
  destruct node as [d|d p]; cbn [walk_back parent chain_of].
  - assert (n = O) as -> by (cbn in Hn; lia). done.
  - cbn [chain_of length] in Hn. rewrite IH by (try apply Hok; lia). cbn [take]. rewrite reverse_cons, map_app.
    cbn [map]. by rewrite <- app_assoc.
Qed.

Lemma take_chain n node : chain_ok node -> (n <= length (chain_of node))%nat ->
  reverse (take n (chain_of node)) = drop (length (chain_of node) - n) (main_chain node).
Proof.
  intros Hok Hn. unfold main_chain. rewrite <- (take_drop n (chain_of node)) at 3. rewrite reverse_app.
  rewrite drop_app_length'; [done|]. rewrite length_reverse, length_drop. done.
Qed.

(** ** What a locator asks for *)

Section Locate.
Context (bi : blockIndex) (c : chainView) (t : blockNode) (Hc : view_of c (Some t)).

(** The height of the last block the asking node is known to have. *)
Definition known_height (locator : list Hash) : Z :=
  match first_known bi c locator with Some node => height node | None => 0 end.

(** The height of the last block it may be sent. *)
Definition last_height (start : Z) (hashStop : Hash) : Z :=
  match LookupNode bi hashStop with
  | Some stop => if contains c stop && (start <? height stop) then height stop else height t
  | None => height t
  end.

Lemma first_known_Some locator n :
  first_known bi c locator = Some n -> n ∈ chain_of t /\ exists h, h ∈ locator /\ LookupNode bi h = Some n.
Proof.
  induction locator as [|h l IH]; [done|]. cbn [first_known]. intros Hf.
  destruct (LookupNode bi h) as [x|] eqn:Hx.
  - destruct (contains c x) eqn:Hx'.
    + injection Hf as ->. split; [by apply (contains_view c t)|]. exists h. by split; [left|].
    + destruct (IH Hf) as (Hn & h' & Hh & Hl). split; [done|]. exists h'. by split; [right|].
  - destruct (IH Hf) as (Hn & h' & Hh & Hl). split; [done|]. exists h'. by split; [right|].
Qed.

Lemma known_node locator : exists n,
  match first_known bi c locator with Some node => Some node | None => genesis c end = Some n /\
  n ∈ chain_of t /\ height n = known_height locator /\ 0 <= height n <= height t.
Proof.
  unfold known_height. destruct Hc as (Hok & _ & _).
  destruct (first_known bi c locator) as [n|] eqn:Hf.
  - apply first_known_Some in Hf as [Hn _]. destruct (mem_main t n Hok Hn) as [_ Hr]. by exists n.
  - rewrite (genesis_main c t Hc). pose proof (length_main t Hok) as Hl. pose proof (chain_ok_height t Hok).
    destruct (lookup_lt_is_Some_2 (main_chain t) O) as [g Hg]; [lia|]. pose proof (main_height t O g Hok Hg) as Hh.
    exists g. split; [done|]. split; [apply elem_of_reverse; by eapply list_elem_of_lookup_2|]. lia.
Qed.

Lemma last_height_range start hashStop : start <= height t -> start <= last_height start hashStop <= height t.
Proof.
  intros Hs. unfold last_height. destruct (LookupNode bi hashStop) as [s|]; [|lia].
  destruct (contains c s && _) eqn:Hb; [|lia]. apply andb_true_iff in Hb as [Hcs Hlt].
  apply (contains_view c t) in Hcs; [|done]. destruct (mem_main t s (proj1 Hc) Hcs) as [_ Hr]. bool_to_Z. lia.
Qed.

Lemma locateInventory_main h locator hashStop maxEntries :
  0 <= maxEntries ->
  let start := known_height (h :: locator) in
  let total := Z.min maxEntries (last_height start hashStop - start) in
  exists node, locateInventory bi c (h :: locator) hashStop maxEntries = Ok (node, total) /\
    (0 < total -> node = main_chain t !! S (Z.to_nat start)).
Proof.
  intros Hmax start total. unfold locateInventory.
  destruct (known_node (h :: locator)) as (n & -> & Hn & Hh & Hr). fold start in Hh.
  rewrite (view_next c t Hc n Hn), Hh. pose proof (length_main t (proj1 Hc)) as Hl.
  pose proof (last_height_range start hashStop ltac:(lia)) as Hlast.
  destruct (main_chain t !! S (Z.to_nat start)) as [s|] eqn:Hs.
  - rewrite (view_tip_node c t Hc). pose proof (main_height t _ s (proj1 Hc) Hs) as Hsh.
    pose proof (proj1 (proj2 Hc)) as Hbound. pose proof (lookup_lt_Some _ _ _ Hs) as Hlt.
    eexists. split; [|intros _; exact eq_refl]. f_equal. f_equal.
    rewrite Hsh. unfold total, last_height in *.
    replace (Z.of_nat (S (Z.to_nat start))) with (start + 1) by lia.
    assert (Htot : forall x, start <= x <= height t -> u32 (i32 (i32 (x - (start + 1)) + 1)) = x - start)
      by (intros x Hx; rewrite (i32_small (x - _)), i32_small, u32_small by (widths; lia); lia).
    rewrite Htot by lia. destruct (LookupNode bi hashStop) as [stop|]; [|destruct (_ <? _) eqn:?; bool_to_Z; lia].
    replace (start + 1 <=? height stop) with (start <? height stop) by (destruct (start <? height stop) eqn:?; bool_to_Z; lia).
    destruct (contains c stop && (start <? height stop)); rewrite ?Htot by lia; destruct (_ <? _) eqn:?; bool_to_Z; lia.
  - apply lookup_ge_None in Hs. exists None. assert (total = 0) as -> by (unfold total; lia). split; [done|lia].
Qed.

Lemma locate_main {A} (f : blockNode -> A) h locator hashStop maxEntries :
  0 <= maxEntries ->
  (let* (node, total) := locateInventory bi c (h :: locator) hashStop maxEntries in collect c f (Z.to_nat total) node)
  = Ok (map f (take (Z.to_nat (Z.min maxEntries (last_height (known_height (h :: locator)) hashStop - known_height (h :: locator))))
       (drop (S (Z.to_nat (known_height (h :: locator)))) (main_chain t)))).
Proof.
  intros Hmax. destruct (locateInventory_main h locator hashStop maxEntries Hmax) as (node & -> & Hnode). cbn [rbind].
  set (start := known_height (h :: locator)) in *. set (total := Z.min maxEntries _) in *.
  destruct (known_node (h :: locator)) as (n & _ & _ & Hh & Hr). fold start in Hh.
  pose proof (last_height_range start hashStop ltac:(lia)). pose proof (length_main t (proj1 Hc)).
  destruct (Z.lt_ge_cases 0 total) as [Hpos|Hzero].
  - rewrite Hnode by done. apply (collect_main c t Hc). unfold total. lia.
  - replace (Z.to_nat total) with O by lia. done.
Qed.

End Locate.

(** The hashes of a locator are those of blocks of the chain it was made from. *)
Lemma locator_loop_mem c t fuel node step locator :
  view_of c (Some t) -> match node with Some n => n ∈ chain_of t | None => True end ->
  Forall (fun h => exists n, n ∈ chain_of t /\ hash n = h) locator ->
  Forall (fun h => exists n, n ∈ chain_of t /\ hash n = h) (locator_loop fuel c node step locator).
Proof.
  intros Hc. revert node step locator. induction fuel as [|fuel IH]; intros node step locator Hn Hl; [by destruct node|].
  destruct node as [n|]; [|done]. cbn [locator_loop].
  assert (Hl' : Forall (fun h => exists m, m ∈ chain_of t /\ hash m = h) (locator ++ [hash n])).
  { apply Forall_app. split; [done|]. constructor; [by exists n|constructor]. }
  destruct (height n =? 0); [done|]. apply IH; [|done].
  rewrite (proj2 (contains_view c t n Hc) Hn). destruct Hc as (Hok & Hh & Hs). rewrite Hs. unfold slice_of.
  rewrite list_lookup_fmap. destruct (reverse (chain_of t) !! _) as [m|] eqn:Hm; [|done]. cbn.
  apply elem_of_reverse. by eapply list_elem_of_lookup_2.
Qed.

Lemma LatestBlockLocator_mem c t :
  view_of c (Some t) -> Forall (fun h => exists n, n ∈ chain_of t /\ hash n = h) (LatestBlockLocator c).
Proof.
  intros Hc. unfold LatestBlockLocator, blockLocator. rewrite (view_tip_node c t Hc).
  apply (locator_loop_mem c t); [done| |constructor]. destruct t; left.
Qed.

(** ** Properties *)

(** Ancestors of an ancestor. *)
Lemma main_ancestor n x h :
  chain_ok n -> x ∈ chain_of n -> 0 <= h <= height x -> Ancestor x h = main_chain n !! Z.to_nat h.
Proof.
  intros Hok Hx Hh. pose proof Hx as Hx'. apply list_elem_of_lookup in Hx' as [k Hk].
  pose proof (chain_ok_mem n k x Hok Hk) as Hokx. rewrite <- main_lookup by done.
  pose proof (length_main x Hokx) as Hl. unfold main_chain in *. rewrite (chain_of_drop n k x Hk) in *.
  rewrite <- (take_drop k (chain_of n)) at 2. rewrite reverse_app, lookup_app_l; [done|].
  rewrite length_reverse in *. lia.
Qed.

Lemma interval_loop_main c t n interval index x hashes :
  view_of c (Some t) -> chain_ok n -> height n < 2 ^ 31 -> 0 < interval -> x ∈ chain_of n ->
  Z.of_nat index * interval <= height x ->
  exists l, interval_loop c index interval x hashes = Ok (l ++ hashes) /\ length l = index /\
    forall k, (k < index)%nat -> l !! k = hash <$> main_chain n !! Z.to_nat (Z.of_nat (S k) * interval).
Proof.
  intros Hc Hok Hh Hi. revert x hashes. induction index as [|index IH]; intros x hashes Hx Hle.
  { exists []. split; [done|]. split; [done|]. lia. }
  cbn [interval_loop]. pose proof (chain_ok_height n Hok). pose proof (proj2 (mem_main n x Hok Hx)) as Hr.
  set (h := Z.of_nat (S index) * interval) in *. assert (Hh0 : 0 <= h) by (unfold h; nia).
  rewrite (i32_small h) by (widths; lia).
  assert (Hnext : (if contains c x then nodeByHeight c h else Ancestor x h) = main_chain n !! Z.to_nat h).
  { rewrite <- (main_ancestor n x h) by done. destruct (contains c x) eqn:Hcx; [|done].
    apply (contains_view c t) in Hcx; [|done]. destruct (mem_main t x (proj1 Hc) Hcx) as [_ Hrx].
    rewrite (view_at c t Hc) by lia. symmetry. apply main_ancestor; [apply Hc|done|done]. }
  rewrite Hnext. pose proof (length_main n Hok) as Hl.
  destruct (lookup_lt_is_Some_2 (main_chain n) (Z.to_nat h)) as [y Hy]; [lia|]. rewrite Hy.
  pose proof (main_height n _ y Hok Hy) as Hyh.
  destruct (IH y (hash y :: hashes)) as (l & -> & Hlen & Hall).
  { apply elem_of_reverse. by eapply list_elem_of_lookup_2. }
  { unfold h in Hyh. nia. }
  exists (l ++ [hash y]). rewrite <- app_assoc. split; [done|]. rewrite length_app. cbn [length]. split; [lia|].
  intros k Hk. destruct (decide (k = index)) as [->|Hne].
  - rewrite lookup_app_r, Hlen, Nat.sub_diag by lia. change (Z.of_nat (S index) * interval) with h. by rewrite Hy.
  - rewrite lookup_app_l by lia. apply Hall. lia.
Qed.

(** The ranges of hashes are those of the chain: between two heights of the main
    chain, from a height to a validated block, and at the multiples of an
    interval below a validated block, whether or not that block is on the main
    chain (the view is only a shortcut). *)
Theorem hash_ranges_exact bi c t :
  view_of c (Some t) ->
  (forall s e, 0 <= s <= e -> HeightRange c s e = Ok (map hash (take (Z.to_nat (e - s)) (drop (Z.to_nat s) (main_chain t))))) /\
  (forall n h, LookupNode bi h = Some n -> chain_ok n -> height n < 2 ^ 31 - 1 -> KnownValid (NodeStatus bi n) = true ->
     (forall s max, 0 <= s <= height n -> height n - s < max ->
        HeightToHashRange bi s h max = Ok (map hash (drop (Z.to_nat s) (main_chain n)))) /\
     (forall interval, 0 < interval -> exists l, IntervalBlockHashes bi c h interval = Ok l /\
        Z.of_nat (length l) = height n / interval /\
        forall k, (k < length l)%nat -> l !! k = hash <$> main_chain n !! Z.to_nat (Z.of_nat (S k) * interval))).
Proof.
  intros Hc. pose proof (length_main t (proj1 Hc)) as Hlt. pose proof (chain_ok_height t (proj1 Hc)) as Ht0. split.
  - intros s e Hse. unfold HeightRange. rewrite !(proj2 (Z.ltb_ge _ _)) by lia.
    destruct (s =? e) eqn:He; [bool_to_Z; replace (Z.to_nat (e - s)) with O by lia; done|].
    rewrite (view_tip_node c t Hc). destruct (height t <? s) eqn:Hts; bool_to_Z.
    + rewrite drop_ge by lia. by rewrite take_nil.
    + pose proof (proj1 (proj2 Hc)). rewrite i32_small by (widths; lia).
      destruct (height t + 1 <? e) eqn:Hlim; bool_to_Z; rewrite (hashes_from_main c t Hc) by lia; [|done].
      f_equal. f_equal. rewrite !take_ge by (rewrite length_drop; lia). done.
  - intros n h Hn Hok Hb Hv. pose proof (chain_ok_height n Hok) as Hn0. pose proof (length_chain_of n Hok) as Hln.
    split.
    + intros s max Hs Hmax. unfold HeightToHashRange. rewrite Hn, Hv. cbn [negb].
      rewrite !(proj2 (Z.ltb_ge _ _)) by lia. rewrite (i32_small (height n - s)), i32_small by (widths; lia).
      rewrite (proj2 (Z.ltb_ge _ _)) by lia. rewrite walk_back_chain by (try done; lia).
      rewrite app_nil_r, take_chain by (try done; lia). f_equal. f_equal. f_equal. lia.
    + intros interval Hi. unfold IntervalBlockHashes. rewrite Hn, Hv. cbn [negb].
      rewrite (proj2 (Z.eqb_neq _ _)), Z.quot_div_nonneg by lia. pose proof (Z.div_pos (height n) interval).
      rewrite (proj2 (Z.ltb_ge _ _)) by lia.
      destruct (interval_loop_main c t n interval (Z.to_nat (height n / interval)) n [] Hc Hok) as (l & Hl & Hlen & Hall);
        [lia|done|destruct n; left|pose proof (Z.mul_div_le (height n) interval); lia|].
      exists l. rewrite app_nil_r in Hl. split; [done|]. split; [lia|]. intros k Hk. apply Hall. lia.
Qed.

(** a locator is answered with exactly the blocks the asking node lacks, in
    order: the main chain after the first block of the locator that is on it
    (after the genesis block if none is), up to the stop block if that lies
    further on the main chain and else up to the tip, but at most the maximal
    number; the headers are those of the same blocks. *)
Theorem locate_exact bi c t h locator hashStop max :
  view_of c (Some t) -> 0 <= max ->
  let known := known_height bi c (h :: locator) in
  let missing := take (Z.to_nat (Z.min max (last_height bi c t known hashStop - known)))
                      (drop (S (Z.to_nat known)) (main_chain t)) in
  locateBlocks bi c (h :: locator) hashStop max = Ok (map hash missing) /\
  locateHeaders bi c (h :: locator) hashStop max = Ok (map Header missing).
Proof. intros Hc Hmax known missing. split; by apply locate_main. Qed.

(** The answer to a node's own locator. *)
Lemma answer_nonempty bi c t h locator hashStop max :
  view_of c (Some t) -> 0 < max -> known_height bi c (h :: locator) < last_height bi c t (known_height bi c (h :: locator)) hashStop ->
  exists b l, locateBlocks bi c (h :: locator) hashStop max = Ok (hash b :: l) /\
    main_chain t !! S (Z.to_nat (known_height bi c (h :: locator))) = Some b.
Proof.
  intros Hc Hmax Hlt. unfold locateBlocks. rewrite (locate_main bi c t Hc) by lia.
  set (k := known_height bi c (h :: locator)) in *.
  destruct (known_node bi c t Hc (h :: locator)) as (n & _ & _ & Hh & Hr). fold k in Hh.
  pose proof (last_height_range bi c t Hc k hashStop ltac:(lia)). pose proof (length_main t (proj1 Hc)).
  destruct (lookup_lt_is_Some_2 (main_chain t) (S (Z.to_nat k))) as [b Hb]; [lia|].
  rewrite (drop_S _ b _ Hb). destruct (Z.to_nat (Z.min max _)) eqn:E; [lia|]. cbn [take map]. by eauto.
Qed.

Lemma locator_loop_prefix c fuel node step locator : exists l, locator_loop fuel c node step locator = locator ++ l.
Proof.
  revert node step locator. induction fuel as [|fuel IH]; intros node step locator; cbn [locator_loop].
  { exists []. rewrite app_nil_r. by destruct node. }
  destruct node as [n|]; [|exists []; by rewrite app_nil_r]. destruct (height n =? 0); [by exists [hash n]|].
  match goal with |- exists l, locator_loop _ _ ?x ?y ?z = _ => destruct (IH x y z) as [l ->] end.
  exists ([hash n] ++ l). by rewrite app_assoc.
Qed.

Lemma LatestBlockLocator_cons c t : view_of c (Some t) -> exists h l, LatestBlockLocator c = h :: l.
Proof.
  intros Hc. unfold LatestBlockLocator, blockLocator. rewrite (view_tip_node c t Hc). cbn [locator_loop app].
  destruct (height t =? 0); [by eauto|].
  match goal with |- exists h l, locator_loop ?f ?c ?x ?y ?z = _ => destruct (locator_loop_prefix c f x y z) as [l ->] end.
  by eauto.
Qed.

Lemma main_parent t k b : chain_ok t -> main_chain t !! S k = Some b -> parent b = main_chain t !! k.
Proof.
  intros Hok Hb. pose proof (lookup_lt_Some _ _ _ Hb) as Hl. unfold main_chain in *. rewrite length_reverse in Hl.
  rewrite reverse_lookup in Hb by done. rewrite reverse_lookup by lia.
  replace (length (chain_of t) - S k)%nat with (1 + (length (chain_of t) - S (S k)))%nat by lia.
  set (j := (length (chain_of t) - S (S k))%nat) in *. rewrite Nat.add_comm, <- lookup_drop, <- (chain_of_drop t j b Hb).
  destruct b as [d|d p]; [done|]. cbn. by destruct p.
Qed.

(** The index knows a chain, and files every node under its hash. *)
Record indexed (bi : blockIndex) (t : blockNode) : Prop := {
  ix_chain n : n ∈ chain_of t -> LookupNode bi (hash n) = Some n;
  ix_hash h n : LookupNode bi h = Some n -> hash n = h
}.

(** C11: synchronisation makes progress: a node whose chain ends in [t1] sends
    the locator of its chain to a node whose chain ends in [t2] and starts with
    the same genesis block.  If it lacks the block [t2], the answer is not empty
    and its first block follows a block that the asking node has. *)
Theorem locator_answer_connects c1 t1 bi c2 t2 max :
  view_of c1 (Some t1) -> view_of c2 (Some t2) -> indexed bi t2 -> hash <$> genesis c1 = hash <$> genesis c2 ->
  LookupNode bi zero_hash = None -> 0 < max -> (hash t2 ∉ map hash (chain_of t1)) ->
  exists b p l, locateBlocks bi c2 (LatestBlockLocator c1) zero_hash max = Ok (hash b :: l) /\
    parent b = Some p /\ hash p ∈ map hash (chain_of t1).
Proof.
  intros H1 H2 [_ Hix] Hg Hz Hmax Hlack.
  pose proof (LatestBlockLocator_mem c1 t1 H1) as Hmem. destruct (LatestBlockLocator_cons c1 t1 H1) as (h & loc & Hloc).
  rewrite Hloc in *. destruct (known_node bi c2 t2 H2 (h :: loc)) as (n & Hn & Hin & Hh & Hr).
  assert (Hshared : hash n ∈ map hash (chain_of t1)).
  { apply list_elem_of_fmap. destruct (first_known bi c2 (h :: loc)) as [m|] eqn:Hf.
    - apply (first_known_Some bi c2 t2 H2) in Hf as [_ (h' & Hh' & Hl)]. injection Hn as ->.
      apply Hix in Hl. rewrite list.Forall_forall in Hmem. destruct (Hmem h' Hh') as (x & Hx & Hxh). exists x. split; [congruence|done].
    - rewrite Hn in Hg. rewrite (genesis_main c1 t1 H1) in Hg. destruct (main_chain t1 !! O) as [x|] eqn:Hx; [|done].
      cbn in Hg. exists x. split; [congruence|]. apply elem_of_reverse. by eapply list_elem_of_lookup_2. }
  destruct (mem_main t2 n (proj1 H2) Hin) as [Hpos _].
  assert (Hlt : height n < height t2).
  { destruct (Z.eq_dec (height n) (height t2)) as [E|]; [|lia]. exfalso. apply Hlack.
    destruct (mem_main t2 t2 (proj1 H2)) as [Ht _]; [destruct t2; left|]. rewrite <- E in Ht. congruence. }
  destruct (answer_nonempty bi c2 t2 h loc zero_hash max H2 Hmax) as (b & l & Hl & Hb).
  { unfold last_height. rewrite Hz, <- Hh. lia. }
  exists b, n, l. split; [done|]. split; [|done]. rewrite (main_parent t2 _ b (proj1 H2) Hb), <- Hh. done.
Qed.

Section Witnesses.
#[local] Existing Instance prefix_hash_functions | 0.

Definition root_node : blockNode := newBlockNode sample_header None 1.
Definition child_node : blockNode :=
  newBlockNode (mkBlockHeader 1 (hash root_node) zero_hash 1010 (replicate 64 x00) (replicate 33 x00) 1 0) (Some root_node) 1.

Definition child_view : chainView := mkChainView [Some root_node; Some child_node].
Definition root_view : chainView := mkChainView [Some root_node].
Definition child_index : blockIndex := AddNode child_node statusValid (AddNode root_node statusValid newBlockIndex).

Lemma child_view_of : view_of child_view (Some child_node).
Proof. split; [apply newBlockNode_ok; split; [reflexivity|cbn; lia]|]. split; [vm_compute|]; reflexivity. Qed.
Lemma root_view_of : view_of root_view (Some root_node).
Proof. split; [exact eq_refl|]. split; [vm_compute|]; reflexivity. Qed.

Lemma locate_exact_witness :
  locateBlocks child_index child_view [hash root_node] zero_hash 10 = Ok [hash child_node].
Proof.
  destruct (locate_exact child_index child_view child_node (hash root_node) [] zero_hash 10 child_view_of ltac:(lia)) as [Hl _].
  rewrite Hl. vm_compute. reflexivity.
Defined.

Lemma two_indexed (r : blockNode) d :
  hash (ChildNode d r) <> hash r -> parent r = None ->
  indexed (AddNode (ChildNode d r) statusValid (AddNode r statusValid newBlockIndex)) (ChildNode d r).
Proof.
  intros Hne Hr. unfold AddNode, addNode, newBlockIndex. cbn [index]. split.
  - unfold LookupNode. cbn [index]. intros n Hn. apply elem_of_cons in Hn as [-> |Hn]; [apply lookup_insert_eq|].
    destruct r as [dr|]; [|done]. apply list_elem_of_singleton in Hn. subst n.
    rewrite lookup_insert_ne by exact Hne. apply lookup_insert_eq.
  - unfold LookupNode. cbn [index]. intros h n Hl. apply lookup_insert_Some in Hl as [[<- <-]|[_ Hl]]; [done|].
    apply lookup_insert_Some in Hl as [[<- <-]|[_ Hl]]; [done|]. cbn [index] in Hl. by rewrite lookup_empty in Hl.
Qed.

Lemma child_indexed : indexed child_index child_node.
Proof. apply two_indexed; [vm_compute; discriminate|reflexivity]. Qed.

Lemma locator_answer_connects_witness :
  exists b p l, locateBlocks child_index child_view (LatestBlockLocator root_view) zero_hash 10 = Ok (hash b :: l) /\
    parent b = Some p /\ hash p ∈ map hash (chain_of root_node).
Proof.
  apply (locator_answer_connects root_view root_node child_index child_view child_node 10
    root_view_of child_view_of child_indexed); [reflexivity|vm_compute; reflexivity|lia|].
  intros Hin. apply list_elem_of_singleton in Hin. revert Hin. vm_compute. discriminate.
Defined.

End Witnesses.
