(* ===== verification/Chain.v ===== *)
(** * Accepting blocks: blockchain/process.go, blockchain/accept.go and the
    orphan pool of blockchain/chain.go

    [ProcessBlock] and [ProcessSyncBlock] take a block, reject duplicates, park
    blocks without a known parent in the orphan pool, and hand the others to
    [maybeAcceptBlock]; an accepted block releases the orphans that wait for
    it.  The database and the selection of the best chain ([connectBestChain])
    are behind the class [Backend]. *)

From S2P Require Import Prelude Chainhash Vote Wire Hash WireMsg BlockIndex Signature Validate.

(** A [drcutil.Block]: the message and the votes the node attached to it. *)
Record Block := mkBlock { b_MsgBlock : MsgBlock; b_Votes : Z }.

Definition b_Header (b : Block) : BlockHeader := mb_Header (b_MsgBlock b).
Definition b_PrevBlock (b : Block) : Hash := bh_PrevBlock (b_Header b).
Definition Block_Hash `{HashFunctions} (b : Block) : Hash := BlockHash (b_Header b).

Record BestLastCandidate := mkBest {
  best_Hash : Hash; best_Height : Z; best_Header : BlockHeader; best_Votes : Z
}.

(** The database and the chain view. *)
Class Backend := {
  backend : Type;
  (** [BestSnapshot().Height] *)
  be_height : backend -> Z;
  (** the lookup of [blockExists] in the database *)
  be_has_block : backend -> Hash -> result rule_error bool;
  (** [dbStoreBlock] in an update transaction *)
  be_store_block : MsgBlock -> backend -> result rule_error backend;
  (** [flushToDB] of the dirty nodes *)
  be_flush : blockIndex -> backend -> result rule_error backend;
  (** [connectBestChain], which can also set status flags in the index *)
  be_connect : blockNode -> Block -> blockIndex -> backend ->
               result rule_error bool * (blockIndex * backend);
  (** [BlockByHeight]; nil with an error when there is none *)
  be_block_by_height : backend -> Z -> option MsgBlock
}.

Section Chain.
Context `{HashFunctions} `{Curve} `{Platform} `{Backend}.

Record BlockChain := mkBlockChain {
  bc_index : blockIndex;
  orphans : gmap Hash Block;
  prevOrphans : gmap Hash (list Block);
  bestCandidate : option BestLastCandidate;
  bc_backend : backend
}.

Definition set_store (i : blockIndex) (b : backend) (bc : BlockChain) : BlockChain :=
  mkBlockChain i (orphans bc) (prevOrphans bc) (bestCandidate bc) b.
Definition set_orphans o p (bc : BlockChain) : BlockChain :=
  mkBlockChain (bc_index bc) o p (bestCandidate bc) (bc_backend bc).

(** A method returns a value or an error together with the new state. *)
Definition chainM (A : Type) : Type := BlockChain -> result rule_error A * BlockChain.
Definition cret {A} (r : result rule_error A) : chainM A := fun bc => (r, bc).
Definition cbind {A B} (c : chainM A) (k : A -> chainM B) : chainM B := fun bc =>
  match c bc with
  | (Ok a, bc) => k a bc
  | (Err e, bc) => (Err e, bc)
  | (Panic, bc) => (Panic, bc)
  end.
Notation "'let+' p := c 'in' k" := (cbind c (fun x => match x with p => k end))
  (at level 10, p pattern, k at level 200).

(** ** The orphan pool *)

Definition IsKnownOrphan (bc : BlockChain) (h : Hash) : bool :=
  bool_decide (is_Some (orphans bc !! h)).

Definition addOrphanBlock (block : Block) (bc : BlockChain) : BlockChain :=
  let prevHash := b_PrevBlock block in
  set_orphans (<[Block_Hash block := block]> (orphans bc))
    (<[prevHash := default [] (prevOrphans bc !! prevHash) ++ [block]]> (prevOrphans bc)) bc.

Definition removeOrphanBlock (orphan : Block) (bc : BlockChain) : BlockChain :=
  let orphanHash := Block_Hash orphan in
  let prevHash := b_PrevBlock orphan in
  let rest := List.filter (fun o => negb (bool_decide (Block_Hash o = orphanHash)))
                (default [] (prevOrphans bc !! prevHash)) in
  set_orphans (delete orphanHash (orphans bc))
    (match rest with
     | [] => delete prevHash (prevOrphans bc)
     | _ => <[prevHash := rest]> (prevOrphans bc)
     end) bc.

(** ** Acceptance *)

Definition blockExists (h : Hash) : chainM bool := fun bc =>
  if HaveBlock (bc_index bc) h then (Ok true, bc) else (be_has_block (bc_backend bc) h, bc).

Definition update_store (f : blockIndex -> backend -> result rule_error (blockIndex * backend))
  : chainM unit := fun bc =>
  match f (bc_index bc) (bc_backend bc) with
  | Ok (i, b) => (Ok tt, set_store i b bc)
  | Err e => (Err e, bc)
  | Panic => (Panic, bc)
  end.

Definition connectBestChain (node : blockNode) (block : Block) : chainM bool := fun bc =>
  let '(r, (i, b)) := be_connect node block (bc_index bc) (bc_backend bc) in
  (r, set_store i b bc).

(** [flushToDB] does nothing without dirty nodes and clears them on success. *)
Definition flushToDB : chainM unit :=
  update_store (fun i b =>
    if bool_decide (dirty i = ∅) then Ok (i, b)
    else let* b := be_flush i b in Ok (mkBlockIndex (index i) (status i) ∅, b)).

Definition maybeAcceptBlock (block : Block) : chainM bool := fun bc =>
  match LookupNode (bc_index bc) (b_PrevBlock block) with
  | None => (Err ErrPreviousBlockUnknown, bc)
  | Some prevNode =>
      if KnownInvalid (NodeStatus (bc_index bc) prevNode) then (Err ErrInvalidAncestorBlock, bc)
      else
        let newNode := newBlockNode (b_Header block) (Some prevNode) (b_Votes block) in
        (let+ _ := cret (checkBlockContext (b_MsgBlock block) prevNode) in
         let+ _ := update_store (fun i b => let* b := be_store_block (b_MsgBlock block) b in
                                            Ok (i, b)) in
         let+ _ := update_store (fun i b => Ok (AddNode newNode statusDataStored i, b)) in
         let+ _ := flushToDB in
         connectBestChain newNode block) bc
  end.

(** One iteration of the two nested loops of [processOrphans]: the first hash
    of the queue is popped when no orphan waits for it, otherwise the first of
    its orphans is taken out of the pool and accepted.  [None]: out of fuel. *)
Fixpoint processOrphans_loop (fuel : nat) (processHashes : list Hash) (bc : BlockChain)
  : option (result rule_error unit * BlockChain) :=
  match processHashes with
  | [] => Some (Ok tt, bc)
  | processHash :: rest =>
      match fuel with
      | O => None
      | S fuel =>
          match default [] (prevOrphans bc !! processHash) with
          | [] => processOrphans_loop fuel rest bc
          | orphan :: _ =>
              let bc := removeOrphanBlock orphan bc in
              match maybeAcceptBlock orphan bc with
              | (Ok _, bc) => processOrphans_loop fuel (processHashes ++ [Block_Hash orphan]) bc
              | (Err e, bc) => Some (Err e, bc)
              | (Panic, bc) => Some (Panic, bc)
              end
          end
      end
  end.

(** Every iteration removes an orphan or shortens the queue. *)
Definition processOrphans (h : Hash) : chainM unit := fun bc =>
  default (Panic, bc) (processOrphans_loop (2 * size (orphans bc) + 1) [h] bc).

(** [pool] is the current candidate pool, read by the header check. *)
Definition ProcessBlock (pool : list MsgCandidate) (block : Block) : chainM (bool * bool) := fun bc =>
  let blockHash := Block_Hash block in
  let prevHash := b_PrevBlock block in
  (let+ exists_ := blockExists blockHash in
   if exists_ : bool then cret (Err ErrDuplicateBlock)
   else if IsKnownOrphan bc blockHash then cret (Err ErrDuplicateBlock)
   else
     let+ prevHashExists := blockExists prevHash in
     if negb prevHashExists then (fun bc => (Ok (false, true), addOrphanBlock block bc))
     else
       match LookupNode (bc_index bc) prevHash with
       | None => cret Panic
       | Some node =>
           let seed := DoubleHashH (nd_signature (node_data node)) in
           let+ Pi := cret (BlockVerge (bh_Scale (b_Header block))) in
           let+ _ := cret (checkBlockSanity pool (b_MsgBlock block) seed Pi) in
           let+ isMainChain := maybeAcceptBlock block in
           let+ _ := processOrphans blockHash in
           cret (Ok (isMainChain, false))
       end) bc.

(** An error of the second lookup is turned into [false] without an error. *)
Definition ProcessSyncBlock (block : Block) : chainM bool := fun bc =>
  let blockHash := Block_Hash block in
  (let+ exists_ := blockExists blockHash in
   if exists_ : bool then cret (Err ErrDuplicateBlock)
   else if IsKnownOrphan bc blockHash then cret (Err ErrDuplicateBlock)
   else fun bc =>
     match blockExists (b_PrevBlock block) bc with
     | (Err _, bc) => (Ok false, bc)
     | (Panic, bc) => (Panic, bc)
     | (Ok false, bc) => (Ok true, addOrphanBlock block bc)
     | (Ok true, bc) =>
         (let+ _ := maybeAcceptBlock block in
          let+ _ := processOrphans blockHash in
          cret (Ok true)) bc
     end) bc.

Definition SetBestCandidate (h : Hash) (height : Z) (header : BlockHeader) (votes : Z)
    (bc : BlockChain) : BlockChain :=
  mkBlockChain (bc_index bc) (orphans bc) (prevOrphans bc)
    (Some (mkBest h height header votes)) (bc_backend bc).

(** ** The invariant of the orphan pool *)

(** [orphans] is indexed by hash, [prevOrphans] lists the same blocks by
    parent, without duplicates and without empty lists. *)
Record pool_ok (bc : BlockChain) : Prop := {
  pool_hash : forall h b, orphans bc !! h = Some b ->
    h = Block_Hash b /\ exists l, prevOrphans bc !! b_PrevBlock b = Some l /\ b ∈ l;
  pool_prev : forall p l b, prevOrphans bc !! p = Some l -> b ∈ l ->
    b_PrevBlock b = p /\ orphans bc !! Block_Hash b = Some b;
  pool_nonempty : forall p l, prevOrphans bc !! p = Some l -> l <> []
}.

Lemma addOrphan_ok block bc :
  pool_ok bc -> orphans bc !! Block_Hash block = None -> pool_ok (addOrphanBlock block bc).
Proof.
  intros [Hh Hp Hn] Hnew. unfold addOrphanBlock, set_orphans.
  constructor; cbn [orphans prevOrphans].
  - intros h b. rewrite lookup_insert_Some. intros [[<- <-]|[Hne Hb]].
    + split; [easy|]. eexists. rewrite lookup_insert_eq. split; [easy|].
      rewrite elem_of_app, list_elem_of_singleton. auto.
    + destruct (Hh h b Hb) as (-> & l & Hl & Hin). split; [easy|].
      destruct (decide (b_PrevBlock b = b_PrevBlock block)) as [Heq|Hneq].
      * rewrite Heq in *. rewrite lookup_insert_eq, Hl. eexists. split; [easy|].
        rewrite elem_of_app. auto.
      * rewrite lookup_insert_ne by easy. eauto.
  - intros p l b. rewrite lookup_insert_Some. intros [[<- <-]|[Hne Hl]] Hin.
    + apply elem_of_app in Hin as [Hin|Hin%list_elem_of_singleton]; [|subst b].
      * destruct (prevOrphans bc !! b_PrevBlock block) as [l|] eqn:Hl; [|easy].
        destruct (Hp _ _ _ Hl Hin) as [Hpb Ho]. split; [easy|].
        rewrite lookup_insert_ne; [easy|]. congruence.
      * now rewrite lookup_insert_eq.
    + destruct (Hp _ _ _ Hl Hin) as [Hpb Ho]. split; [easy|].
      rewrite lookup_insert_ne; [easy|]. congruence.
  - intros p l. rewrite lookup_insert_Some. intros [[<- <-]|[Hne Hl]]; [|eauto].
    now destruct (default [] _).
Qed.

Definition other_orphans (orphan : Block) (l : list Block) : list Block :=
  List.filter (fun o => negb (bool_decide (Block_Hash o = Block_Hash orphan))) l.

Lemma elem_of_other_orphans o l b :
  b ∈ other_orphans o l <-> b ∈ l /\ Block_Hash b <> Block_Hash o.
Proof.
  unfold other_orphans. rewrite !list_elem_of_In, filter_In, negb_true_iff, bool_decide_eq_false.
  easy.
Qed.

Lemma removeOrphan_lookup orphan bc p :
  prevOrphans (removeOrphanBlock orphan bc) !! p =
  if decide (p = b_PrevBlock orphan) then
    match other_orphans orphan (default [] (prevOrphans bc !! p)) with [] => None | l => Some l end
  else prevOrphans bc !! p.
Proof.
  unfold removeOrphanBlock, set_orphans. cbn [prevOrphans].
  fold (other_orphans orphan (default [] (prevOrphans bc !! b_PrevBlock orphan))).
  destruct (decide _) as [->|Hne].
  - destruct (other_orphans _ _); [apply lookup_delete_eq|apply lookup_insert_eq].
  - destruct (other_orphans _ _); [now apply lookup_delete_ne|now apply lookup_insert_ne].
Qed.

Lemma removeOrphan_ok orphan bc :
  pool_ok bc -> orphans bc !! Block_Hash orphan = Some orphan -> pool_ok (removeOrphanBlock orphan bc).
Proof.
  intros [Hh Hp Hn] Ho. constructor.
  - intros h b Hb. change (orphans (removeOrphanBlock orphan bc))
      with (delete (Block_Hash orphan) (orphans bc)) in Hb.
    apply lookup_delete_Some in Hb as [Hne Hb]. destruct (Hh h b Hb) as (-> & l & Hl & Hin).
    split; [easy|]. rewrite removeOrphan_lookup. destruct (decide _) as [Heq|]; [|eauto].
    rewrite Hl. cbn [default]. unfold id.
    assert (Hb' : b ∈ other_orphans orphan l) by (apply elem_of_other_orphans; split; [easy|congruence]).
    destruct (other_orphans orphan l) as [|x r]; [now apply list.not_elem_of_nil in Hb'|eauto].
  - intros p l b. rewrite removeOrphan_lookup. intros Hl Hin.
    change (orphans (removeOrphanBlock orphan bc))
      with (delete (Block_Hash orphan) (orphans bc)).
    assert (Hold : exists l', prevOrphans bc !! p = Some l' /\ b ∈ l'
                              /\ Block_Hash b <> Block_Hash orphan).
    { destruct (decide _) as [->|Hne].
      - destruct (prevOrphans bc !! _) as [l'|]; [|easy].
        cbn [default] in Hl. unfold id in Hl.
        destruct (other_orphans orphan l') as [|x r] eqn:Hoth; [discriminate Hl|].
        injection Hl as <-. rewrite <- Hoth in Hin. apply elem_of_other_orphans in Hin. eauto.
      - exists l. split; [easy|]. split; [easy|]. intros Heq.
        destruct (Hp _ _ _ Hl Hin) as [Hpb Hob]. rewrite Heq, Ho in Hob. congruence. }
    destruct Hold as (l' & Hl' & Hin' & Hneq). destruct (Hp _ _ _ Hl' Hin') as [Hpb Hob].
    split; [easy|]. now rewrite lookup_delete_ne.
  - intros p l. rewrite removeOrphan_lookup. destruct (decide _); [|eauto].
    destruct (other_orphans _ _); now intros [= <-].
Qed.

Lemma removeOrphan_size orphan bc :
  orphans bc !! Block_Hash orphan = Some orphan ->
  size (orphans bc) = S (size (orphans (removeOrphanBlock orphan bc))).
Proof.
  intros Ho. change (orphans (removeOrphanBlock orphan bc))
    with (delete (Block_Hash orphan) (orphans bc)).
  rewrite map_size_delete_Some by (rewrite Ho; eauto).
  destruct (size (orphans bc)) eqn:Hs; [|easy]. apply map_size_empty_inv in Hs.
  now rewrite Hs, lookup_empty in Ho.
Qed.

(** Accepting a block leaves the orphan pool alone. *)
Definition same_pool (bc bc' : BlockChain) : Prop :=
  orphans bc' = orphans bc /\ prevOrphans bc' = prevOrphans bc
  /\ bestCandidate bc' = bestCandidate bc.

Lemma same_pool_ok bc bc' : same_pool bc bc' -> pool_ok bc -> pool_ok bc'.
Proof.
  intros (Ho & Hp & _) [Hh Hpr Hn].
  constructor; rewrite ?Ho, ?Hp; [exact Hh|exact Hpr|exact Hn].
Qed.

Definition keeps_pool {A} (c : chainM A) : Prop := forall bc, same_pool bc (c bc).2.

Lemma keeps_cbind {A B} (c : chainM A) (k : A -> chainM B) :
  keeps_pool c -> (forall a, keeps_pool (k a)) -> keeps_pool (cbind c k).
Proof.
  intros Hc Hk bc. unfold cbind. specialize (Hc bc). destruct (c bc) as [[a| |] bc1]; cbn in *;
    [|easy|easy]. specialize (Hk a bc1). destruct Hc as (? & ? & ?), Hk as (? & ? & ?).
  split; [|split]; congruence.
Qed.

Lemma keeps_cret {A} (r : result rule_error A) : keeps_pool (cret r).
Proof. intros bc. easy. Qed.

Lemma keeps_update f : keeps_pool (update_store f).
Proof. intros bc. unfold update_store. now destruct (f _ _) as [[]| |]. Qed.

Lemma keeps_connect node block : keeps_pool (connectBestChain node block).
Proof. intros bc. unfold connectBestChain. now destruct (be_connect _ _ _ _) as [r [i b]]. Qed.

Lemma keeps_maybeAccept block : keeps_pool (maybeAcceptBlock block).
Proof.
  intros bc. unfold maybeAcceptBlock. destruct (LookupNode _ _); [|easy].
  destruct (KnownInvalid _); [easy|]. revert bc.
  repeat (apply keeps_cbind; [first [apply keeps_cret|apply keeps_update]|intros _]).
  apply keeps_connect.
Qed.

Lemma maybeAccept_pool block bc r bc' :
  maybeAcceptBlock block bc = (r, bc') -> same_pool bc bc'.
Proof. intros Hm. pose proof (keeps_maybeAccept block bc) as Hk. now rewrite Hm in Hk. Qed.

(** The loop ends, keeps the invariant, and on success leaves no orphan waiting
    for a hash of the queue. *)
Lemma processOrphans_loop_ok fuel queue bc :
  pool_ok bc -> (2 * size (orphans bc) + length queue <= fuel)%nat ->
  exists r bc', processOrphans_loop fuel queue bc = Some (r, bc') /\ pool_ok bc'
    /\ bestCandidate bc' = bestCandidate bc
    /\ orphans bc' ⊆ orphans bc
    /\ (forall p, prevOrphans bc !! p = None -> prevOrphans bc' !! p = None)
    /\ (r = Ok tt -> forall h, h ∈ queue -> prevOrphans bc' !! h = None).
Proof.
  revert queue bc. induction fuel as [|fuel IH]; intros queue bc Hok Hf.
  { destruct queue; [|cbn in Hf; lia]. exists (Ok tt), bc. cbn.
    now split_and!. }
  destruct queue as [|ph rest].
  { exists (Ok tt), bc. now split_and!. }
  cbn [processOrphans_loop].
  destruct (prevOrphans bc !! ph) as [l|] eqn:Hl; cbn [default]; unfold id.
  - destruct l as [|orphan l]; [now destruct (pool_nonempty bc Hok ph [])|].
    destruct (pool_prev bc Hok ph _ orphan Hl) as [Hprev Ho]; [left|].
    pose proof (removeOrphan_ok orphan bc Hok Ho) as Hok1.
    pose proof (removeOrphan_size orphan bc Ho) as Hsize.
    set (bc1 := removeOrphanBlock orphan bc) in *.
    assert (Hnone1 : forall p, prevOrphans bc !! p = None -> prevOrphans bc1 !! p = None).
    { intros p Hpn. unfold bc1. rewrite removeOrphan_lookup, Hpn. cbn. now destruct (decide _). }
    assert (Hsub1 : orphans bc1 ⊆ orphans bc) by apply delete_subseteq.
    destruct (maybeAcceptBlock orphan bc1) as [ra bc2] eqn:Hacc.
    pose proof (maybeAccept_pool _ _ _ _ Hacc) as Hsame. pose proof Hsame as (Hso & Hsp & Hsb).
    pose proof (same_pool_ok _ _ Hsame Hok1) as Hok2.
    destruct ra as [a|e|].
    + destruct (IH ((ph :: rest) ++ [Block_Hash orphan]) bc2 Hok2) as (r & bc' & Hrun & Hok' & Hb & Hsub & Hmono & Hdone).
      { rewrite Hso, length_app. cbn [length] in *. lia. }
      exists r, bc'. split; [exact Hrun|]. split; [easy|]. split; [now rewrite Hb, Hsb|].
      split; [rewrite Hso in Hsub; now transitivity (orphans bc1)|].
      split; [intros p Hp; apply Hmono; rewrite Hsp; auto|].
      intros Hr h Hh. apply Hdone; [easy|]. rewrite elem_of_app. now left.
    + exists (Err e), bc2. split_and!; try easy; [now rewrite Hso|intros p Hp; rewrite Hsp; auto].
    + exists Panic, bc2. split_and!; try easy; [now rewrite Hso|intros p Hp; rewrite Hsp; auto].
  - destruct (IH rest bc Hok) as (r & bc' & Hrun & Hok' & Hb & Hsub & Hmono & Hdone); [cbn in Hf; lia|].
    exists r, bc'. split_and!; try easy. intros Hr h Hh.
    apply list.elem_of_cons in Hh as [->|Hh]; eauto.
Qed.

Lemma processOrphans_ok h bc :
  pool_ok bc ->
  let '(r, bc') := processOrphans h bc in
  pool_ok bc' /\ orphans bc' ⊆ orphans bc /\ (r = Ok tt -> prevOrphans bc' !! h = None)
  /\ processOrphans_loop (2 * size (orphans bc) + 1) [h] bc = Some (r, bc').
Proof.
  intros Hok. unfold processOrphans.
  destruct (processOrphans_loop_ok (2 * size (orphans bc) + 1) [h] bc Hok) as
    (r & bc' & Hrun & Hok' & _ & Hsub & _ & Hdone); [cbn; lia|].
  rewrite Hrun. cbn. split; [easy|]. split; [easy|]. split; [|easy].
  intros Hr. apply Hdone; [easy|]. left.
Qed.

Lemma cbind_ret {A B} (a : A) (k : A -> chainM B) bc : cbind (cret (Ok a)) k bc = k a bc.
Proof. easy. Qed.

Lemma blockExists_state h bc : blockExists h bc = ((blockExists h bc).1, bc).
Proof. unfold blockExists. now destruct (HaveBlock _ _). Qed.

Lemma IsKnownOrphan_false bc h : IsKnownOrphan bc h = false -> orphans bc !! h = None.
Proof.
  unfold IsKnownOrphan. rewrite bool_decide_eq_false. now intros Hn%eq_None_not_Some.
Qed.

(** The end of both methods: accept the block, then release its orphans. *)
Lemma accept_release_ok {A} block bc (a : bool -> result rule_error A) :
  pool_ok bc ->
  let '(r, bc') := (let+ main := maybeAcceptBlock block in
                    let+ _ := processOrphans (Block_Hash block) in
                    cret (a main)) bc in
  pool_ok bc' /\ orphans bc' ⊆ orphans bc
  /\ (forall x, r = Ok x -> prevOrphans bc' !! Block_Hash block = None).
Proof.
  intros Hok. unfold cbind at 1. destruct (maybeAcceptBlock block bc) as [ra bc1] eqn:Hacc.
  pose proof (same_pool_ok _ _ (maybeAccept_pool _ _ _ _ Hacc) Hok) as Hok1.
  pose proof (maybeAccept_pool _ _ _ _ Hacc) as (Ho1 & _).
  destruct ra as [main|e|]; [|now rewrite Ho1|now rewrite Ho1].
  unfold cbind. pose proof (processOrphans_ok (Block_Hash block) bc1 Hok1) as Hp.
  destruct (processOrphans (Block_Hash block) bc1) as [rp bc2]. destruct Hp as (Hok2 & Hsub & Hd & _).
  rewrite Ho1 in Hsub. destruct rp as [[]|e|]; cbn; (split; [easy|]); (split; [easy|]); try easy.
  intros x _. now apply Hd.
Qed.

(** What [ProcessBlock] does to the orphan pool.  [parked]: the block and its
    parent are unknown and the block is no orphan yet. *)
Definition parked (block : Block) (bc : BlockChain) : Prop :=
  (blockExists (Block_Hash block) bc).1 = Ok false /\ orphans bc !! Block_Hash block = None
  /\ (blockExists (b_PrevBlock block) bc).1 = Ok false.

Definition block_outcome_ok (block : Block) (bc bc' : BlockChain) (r : result rule_error (bool * bool))
  : Prop :=
  match r with
  | Ok (main, true) => main = false /\ parked block bc /\ bc' = addOrphanBlock block bc
  | Ok (_, false) => ~ parked block bc /\ orphans bc' ⊆ orphans bc
                     /\ prevOrphans bc' !! Block_Hash block = None
  | _ => ~ parked block bc /\ orphans bc' ⊆ orphans bc
  end.

Lemma ProcessBlock_inv pool block bc :
  pool_ok bc ->
  let '(r, bc') := ProcessBlock pool block bc in pool_ok bc' /\ block_outcome_ok block bc bc' r.
Proof.
  intros Hok. unfold ProcessBlock, block_outcome_ok, parked. unfold cbind at 1. rewrite blockExists_state.
  destruct (blockExists (Block_Hash block) bc).1 as [[]|e|]; cbn; try (split_and!; easy).
  destruct (IsKnownOrphan bc (Block_Hash block)) eqn:Horph.
  { apply bool_decide_eq_true in Horph as [o Horph]. rewrite Horph. cbn. split_and!; easy. }
  apply IsKnownOrphan_false in Horph.
  unfold cbind at 1. rewrite blockExists_state.
  destruct (blockExists (b_PrevBlock block) bc).1 as [[]|e|]; cbn; try (split_and!; easy).
  - destruct (LookupNode _ _) as [node|]; [|split_and!; easy].
    destruct (BlockVerge _) as [Pi|e|]; [rewrite cbind_ret|split_and!; easy|split_and!; easy].
    destruct (checkBlockSanity _ _ _ _) as [[]|e|]; [rewrite cbind_ret|split_and!; easy|split_and!; easy].
    pose proof (accept_release_ok block bc (fun main => Ok (main, false)) Hok) as Ha.
    cbv beta in Ha.
    match goal with |- let '(r, bc') := ?c in _ => destruct c as [r bc'] eqn:Hr end.
    destruct Ha as (Hok' & Hsub & Hd). split; [easy|].
    destruct r as [[main orphan]|e|]; try (split_and!; easy).
    assert (orphan = false) as ->; [|split_and!; [easy|easy|now apply (Hd (main, false))]].
    revert Hr. unfold cbind, cret. destruct (maybeAcceptBlock block bc) as [[]]; try easy.
    destruct (processOrphans _ _) as [[]]; try easy. now intros [= _ <- _].
  - split; [now apply addOrphan_ok|]. split_and!; easy.
Qed.

Lemma outcome_cases block bc bc' r :
  block_outcome_ok block bc bc' r ->
  r = Ok (false, true) /\ parked block bc /\ bc' = addOrphanBlock block bc
  \/ (forall main, r <> Ok (main, true)) /\ ~ parked block bc /\ orphans bc' ⊆ orphans bc
     /\ (forall main, r = Ok (main, false) -> prevOrphans bc' !! Block_Hash block = None).
Proof.
  destruct r as [[main []]|e|]; cbn; [intros (-> & Hp & ->); now left| | |];
    intros Hr; right; split_and!; try easy.
Qed.

Lemma ProcessSyncBlock_inv block bc :
  pool_ok bc -> pool_ok (ProcessSyncBlock block bc).2.
Proof.
  intros Hok. unfold ProcessSyncBlock, cbind at 1. rewrite blockExists_state.
  destruct (blockExists (Block_Hash block) bc).1 as [[]|e|]; cbn; try easy.
  destruct (IsKnownOrphan bc (Block_Hash block)) eqn:Horph; [easy|].
  apply IsKnownOrphan_false in Horph. rewrite blockExists_state.
  destruct (blockExists (b_PrevBlock block) bc).1 as [[]|e|]; cbn; try easy.
  - pose proof (accept_release_ok block bc (fun _ => Ok true) Hok) as Ha.
    cbv beta in Ha.
    destruct (cbind _ _ bc) as [r bc'] in Ha |- *. now destruct Ha.
  - now apply addOrphan_ok.
Qed.

(** Processing blocks leaves the best candidate alone. *)
Lemma processOrphans_best h bc : bestCandidate (processOrphans h bc).2 = bestCandidate bc.
Proof.
  unfold processOrphans. generalize (2 * size (orphans bc) + 1)%nat, [h].
  intros fuel queue. enough (Hall : forall bc r, processOrphans_loop fuel queue bc = Some r ->
    bestCandidate r.2 = bestCandidate bc).
  { specialize (Hall bc). destruct (processOrphans_loop _ _ _) as [r|]; cbn; auto. }
  clear bc h. revert queue. induction fuel as [|fuel IH]; intros [|ph rest] bc r; cbn;
    try discriminate; try (now intros [= <-]).
  destruct (default [] _) as [|o l]; [apply IH|].
  destruct (maybeAcceptBlock o (removeOrphanBlock o bc)) as [ra bc1] eqn:Hacc.
  apply maybeAccept_pool in Hacc as (_ & _ & Hb).
  change (bestCandidate (removeOrphanBlock o bc)) with (bestCandidate bc) in Hb.
  destruct ra; [intros Hr; now rewrite (IH _ _ _ Hr)|now intros [= <-]|now intros [= <-]].
Qed.

Lemma ProcessBlock_best pool block bc :
  bestCandidate (ProcessBlock pool block bc).2 = bestCandidate bc.
Proof.
  unfold ProcessBlock. unfold cbind at 1. rewrite blockExists_state.
  destruct (blockExists (Block_Hash block) bc).1 as [[]|e|]; cbn; try easy.
  destruct (IsKnownOrphan bc (Block_Hash block)); [easy|].
  unfold cbind at 1. rewrite blockExists_state.
  destruct (blockExists (b_PrevBlock block) bc).1 as [[]|e|]; cbn; try easy.
  destruct (LookupNode _ _) as [node|]; [|easy].
  destruct (BlockVerge _) as [Pi|e|]; [rewrite cbind_ret|easy|easy].
  destruct (checkBlockSanity _ _ _ _) as [[]|e|]; [rewrite cbind_ret|easy|easy].
  unfold cbind. destruct (maybeAcceptBlock block bc) as [ra bc1] eqn:Hacc.
  apply maybeAccept_pool in Hacc as (_ & _ & Hb).
  destruct ra; [|easy|easy]. pose proof (processOrphans_best (Block_Hash block) bc1) as Hp.
  destruct (processOrphans _ bc1) as [[] bc2]; cbn in *; congruence.
Qed.

End Chain.

(** ** Properties *)

(** C39: the orphan pool stays consistent under block processing: if every block
    in it is filed under its own hash and under its parent, without empty
    entries, this holds after [ProcessBlock], whatever the outcome.  The block
    is reported as an orphan exactly when neither it nor its parent is known
    and it is no orphan yet, exactly when this call files it as an orphan, and
    nothing else changes then; otherwise, accepted or rejected, no block is
    added to the pool, and a block that is accepted has no orphan left waiting
    for it. *)
Theorem ProcessBlock_orphan_pool `{HashFunctions} `{Curve} `{Platform} `{Backend} pool block bc :
  pool_ok bc ->
  let '(r, bc') := ProcessBlock pool block bc in
  let isOrphan := exists main, r = Ok (main, true) in
  pool_ok bc'
  /\ (isOrphan <-> (blockExists (Block_Hash block) bc).1 = Ok false
                   /\ orphans bc !! Block_Hash block = None
                   /\ (blockExists (b_PrevBlock block) bc).1 = Ok false)
  /\ (isOrphan <-> orphans bc !! Block_Hash block = None
                   /\ orphans bc' !! Block_Hash block = Some block)
  /\ (isOrphan -> bc' = addOrphanBlock block bc)
  /\ (~ isOrphan -> orphans bc' ⊆ orphans bc)
  /\ (forall main, r = Ok (main, false) -> prevOrphans bc' !! Block_Hash block = None).
Proof.
  intros Hok. pose proof (ProcessBlock_inv pool block bc Hok) as Hp.
  destruct (ProcessBlock pool block bc) as [r bc']. destruct Hp as [Hok' Hp]. cbv zeta.
  split; [exact Hok'|].
  destruct (outcome_cases block bc bc' r Hp) as [(-> & (Hb & Hn & Hq) & ->)|(Hno & Hpark & Hsub & Hdone)].
  - split_and!; try easy; [split; [easy|eauto]|split; [|eauto]|intros []; eauto].
    intros _. split; [exact Hn|apply lookup_insert_eq].
  - split_and!; try easy.
    + split; [intros [main ->]; now destruct (Hno main)|intros Hq; now destruct Hpark].
    + split; [intros [main ->]; now destruct (Hno main)|intros [Hn Ho]].
      eapply lookup_weaken in Ho; [|exact Hsub]. congruence.
    + intros [main ->]. now destruct (Hno main).
Qed.

(** releasing orphans terminates: the two nested loops of [processOrphans]
    end within the fuel of the model for every consistent pool, because each
    iteration removes an orphan or shortens the queue. *)
Theorem processOrphans_terminates `{HashFunctions} `{Curve} `{Platform} `{Backend} h bc :
  pool_ok bc ->
  exists r bc', processOrphans_loop (2 * size (orphans bc) + 1) [h] bc = Some (r, bc')
                /\ processOrphans h bc = (r, bc').
Proof.
  intros Hok. pose proof (processOrphans_ok h bc Hok) as Hp.
  destruct (processOrphans h bc) as [r bc'] eqn:Heq. exists r, bc'. now split.
Qed.

(** A backend that accepts everything and stores nothing, for concrete checks. *)
Definition empty_backend : Backend := {|
  backend := unit;
  be_height _ := 0;
  be_has_block _ _ := Ok false;
  be_store_block _ b := Ok b;
  be_flush _ b := Ok b;
  be_connect _ _ i b := (Ok true, (i, b));
  be_block_by_height _ _ := None
|}.
Definition zero_platform : Platform := {| float_to_uint16_undefined := 0 |}.

Definition empty_chain : @BlockChain empty_backend :=
  @mkBlockChain empty_backend newBlockIndex ∅ ∅ None tt.
Definition sample_block : Block := mkBlock (mkMsgBlock sample_child_header []) 1.

Lemma empty_chain_ok : @pool_ok prefix_hash_functions empty_backend empty_chain.
Proof. constructor; intros; cbn in *; rewrite lookup_empty in *; discriminate. Qed.

Definition orphan_chain : @BlockChain empty_backend :=
  @addOrphanBlock prefix_hash_functions empty_backend sample_block empty_chain.

Lemma orphan_chain_ok : @pool_ok prefix_hash_functions empty_backend orphan_chain.
Proof. apply addOrphan_ok; [exact empty_chain_ok|apply lookup_empty]. Qed.

Definition second_orphan : Block := mkBlock (mkMsgBlock sample_header []) 1.

Lemma ProcessBlock_orphan_pool_witness :
  let bc' := (@ProcessBlock prefix_hash_functions accepting_curve zero_platform empty_backend []
                second_orphan orphan_chain).2 in
  @pool_ok prefix_hash_functions empty_backend bc'
  /\ orphans bc' !! @Block_Hash prefix_hash_functions second_orphan = Some second_orphan.
Proof.
  pose proof (@ProcessBlock_orphan_pool prefix_hash_functions accepting_curve zero_platform
    empty_backend [] second_orphan orphan_chain orphan_chain_ok) as Hp.
  destruct (ProcessBlock _ _ _) as [r bc']. destruct Hp as (Hok & Hwhen & Hfiled & _).
  split; [exact Hok|]. apply Hfiled, Hwhen. split_and!; vm_compute; reflexivity.
Defined.

Lemma processOrphans_terminates_witness :
  exists r bc',
    @processOrphans_loop prefix_hash_functions accepting_curve zero_platform empty_backend
      (2 * size (orphans orphan_chain) + 1) [b_PrevBlock sample_block] orphan_chain
    = Some (r, bc').
Proof.
  destruct (@processOrphans_terminates prefix_hash_functions accepting_curve zero_platform
    empty_backend (b_PrevBlock sample_block) orphan_chain orphan_chain_ok) as (r & bc' & Hl & _).
  exists r, bc'. exact Hl.
Defined.
