(* ===== verification/ConnectChain.v ===== *)
(** * Extending the main chain: connectBlock, disconnectBlock and
    connectBestChain of blockchain/chain.go

    The node's state behind the class [Backend] of [Chain]: the database, the
    view of the best chain and the snapshot of the best state.  [connectBestChain]
    checks a block against a new view and, when it is accepted, writes the view,
    the journal, the index of heights and the best state and moves the tip; it
    does not reorganize.  No optional index is configured, and the warnings about
    unknown versions, which are only logged, are left out. *)

From S2P Require Import Prelude Float64 Chainhash Vote Wire Hash WireMsg ScriptNum Stack Opcode Script Merkle BlockIndex.
From S2P Require Import Signature Engine EngineSafety EngineCache Compress Validate Utxo ScriptVal ChainIO ConnectBlock.
From S2P Require Import ChainView Chain.

Definition GetBlockWeight (block : MsgBlock) : Z :=
  i64 (MsgBlock_SerializeSizeStripped block * (WitnessScaleFactor - 1) + MsgBlock_SerializeSize block).

Definition GetTransactionWeight (tx : MsgTx) : Z :=
  i64 (MsgTx_SerializeSizeStripped tx * (WitnessScaleFactor - 1) + MsgTx_SerializeSize tx).

(** The errors that are values of [RuleError]. *)
Definition is_RuleError (e : rule_error) : bool :=
  match e with
  | KeyError _ | BackendError | AssertError | ErrCorruption | ErrNotInMainChain | StorageError _ => false
  | _ => true
  end.

(** ** The backend *)

Record chainStore := mkChainStore {
  s_db : ChainDB;
  s_bestChain : chainView;
  s_snapshot : BestState
}.

Definition set_db (db : ChainDB) (s : chainStore) : chainStore := mkChainStore db (s_bestChain s) (s_snapshot s).

Section ConnectChain.
Context `{HashFunctions} `{ScriptHashes} `{Curve} `{MapOrder} `{OutPointOrder}.
Context (params : Params) (sigCache : option SigCache).

(** The part of [blockExists] that reads the database. *)
Definition db_block_exists (s : chainStore) (h : Hash) : result rule_error bool :=
  match blockData (s_db s) !! h with
  | None => Ok false
  | Some _ =>
      match dbFetchHeightByHash h (s_db s) with
      | Ok _ => Ok true
      | Err ErrNotInMainChain => Ok false
      | Err e => Err e
      | Panic => Panic
      end
  end.

(** [flushToDB] on the index and the store. *)
Definition flush_index (bi : blockIndex) (s : chainStore) : blockIndex * chainStore :=
  if bool_decide (dirty bi = ∅) then (bi, s)
  else let '(bi, db) := ChainIO.flushToDB bi (s_db s) in (bi, set_db db s).

(** The best state of a node: [b] is the block the sizes and counts are taken
    from and [header] the one the signature, key and scale are taken from. *)
Definition best_state_of (node : blockNode) (b : MsgBlock) (header : BlockHeader) (totalTxns votes : Z) : BestState :=
  newBestState node (u64 (MsgBlock_SerializeSize b)) (u64 (GetBlockWeight b)) (zlen (mb_Transactions b)) totalTxns
    (bh_Signature header) (bh_PublicKey header) (bh_Scale header) (bh_Reserved header)
    (CalcPastMedianTime node) votes.

(** The index is flushed before the database transaction, which is undone as a
    whole when it fails. *)
Definition connectBlock (node : blockNode) (block : MsgBlock) (votes : Z) (view : UtxoViewpoint)
  (stxos : list SpentTxOut) (bi : blockIndex) (s : chainStore)
  : result rule_error UtxoViewpoint * (blockIndex * chainStore) :=
  match tip (s_bestChain s) with
  | None => (Panic, (bi, s))
  | Some t =>
      if negb (bool_decide (bh_PrevBlock (mb_Header block) = hash t)) then (Err AssertError, (bi, s))
      else match countSpentOutputs block with
      | Panic => (Panic, (bi, s))
      | Err e => (Err e, (bi, s))
      | Ok n =>
          if negb (zlen stxos =? n) then (Err AssertError, (bi, s))
          else
            let '(bi, s) := flush_index bi s in
            let state := best_state_of node block (mb_Header block)
                           (u64 (bs_TotalTxns (s_snapshot s) + zlen (mb_Transactions block))) votes in
            let blockHash := BlockHash (mb_Header block) in
            match dbPutUtxoView view (dbPutBlockIndex blockHash (height node) (dbPutBestState state (s_db s))) with
            | Err e => (Err e, (bi, s))
            | Panic => (Panic, (bi, s))
            | Ok db =>
                let db := dbPutSpendJournalEntry blockHash stxos db in
                match setTip (Some node) (s_bestChain s) with
                | Ok c => (Ok (commit view), (bi, mkChainStore db c state))
                | Err e => (Err e, (bi, set_db db s))
                | Panic => (Panic, (bi, set_db db s))
                end
            end
      end
  end.

(** The best state after disconnecting has the hash and the counts of the
    previous block, and the header fields and votes of the block that is
    disconnected. *)
Definition disconnectBlock (node : blockNode) (block : MsgBlock) (votes : Z) (view : UtxoViewpoint)
  (bi : blockIndex) (s : chainStore) : result rule_error UtxoViewpoint * (blockIndex * chainStore) :=
  match tip (s_bestChain s) with
  | None => (Panic, (bi, s))
  | Some t =>
      if negb (bool_decide (hash node = hash t)) then (Err AssertError, (bi, s))
      else match parent node with
      | None => (Panic, (bi, s))
      | Some prevNode =>
          match dbFetchBlockByNode prevNode (s_db s) with
          | Err e => (Err e, (bi, s))
          | Panic => (Panic, (bi, s))
          | Ok (prevBlock, _) =>
              let '(bi, s) := flush_index bi s in
              let state := best_state_of prevNode prevBlock (mb_Header block)
                             (u64 (bs_TotalTxns (s_snapshot s) - zlen (mb_Transactions block))) votes in
              let blockHash := BlockHash (mb_Header block) in
              match
                (let* db := dbPutUtxoView view (dbRemoveBlockIndex blockHash (height node)
                              (dbPutBestState state (s_db s))) in
                 let* _ := dbFetchSpendJournalEntry blockHash block db in
                 Ok (dbRemoveSpendJournalEntry blockHash db)) with
              | Err e => (Err e, (bi, s))
              | Panic => (Panic, (bi, s))
              | Ok db =>
                  match setTip (parent node) (s_bestChain s) with
                  | Ok c => (Ok (commit view), (bi, mkChainStore db c state))
                  | Err e => (Err e, (bi, set_db db s))
                  | Panic => (Panic, (bi, set_db db s))
                  end
              end
          end
      end
  end.

(** [maybeAcceptBlock] has set the height of the block to that of the node. *)
Definition connect_best_chain (node : blockNode) (block : Block) (bi : blockIndex) (s : chainStore)
  : result rule_error bool * (blockIndex * chainStore) :=
  let msg := b_MsgBlock block in
  match tip (s_bestChain s) with
  | None => (Panic, (bi, s))
  | Some t =>
      let parentHash := bh_PrevBlock (mb_Header msg) in
      if bool_decide (parentHash = hash t) then
        match countSpentOutputs msg with
        | Panic => (Panic, (bi, s))
        | Err e => (Err e, (bi, s))
        | Ok _ =>
            let view := SetBestHash parentHash NewUtxoViewpoint in
            match checkConnectBlock params (s_db s) node msg (height node) sigCache view (Some []) with
            | Panic => (Panic, (bi, s))
            | Err e =>
                if is_RuleError e then
                  let '(bi, s) := flush_index (SetStatusFlags node statusValidateFailed bi) s in (Err e, (bi, s))
                else (Err e, (bi, s))
            | Ok (view, stxos) =>
                let '(bi, s) := flush_index (SetStatusFlags node statusValid bi) s in
                match connectBlock node msg (b_Votes block) view (default [] stxos) bi s with
                | (Panic, st) => (Panic, st)
                | (Err e, (bi, s)) =>
                    let bi := if is_RuleError e then SetStatusFlags node statusValidateFailed bi else bi in
                    let '(bi, s) := flush_index bi s in (Err e, (bi, s))
                | (Ok _, (bi, s)) =>
                    if negb (KnownValid (NodeStatus bi node)) then
                      let '(bi, s) := flush_index (SetStatusFlags node statusValid bi) s in (Ok true, (bi, s))
                    else (Ok true, (bi, s))
                end
            end
        end
      else (Err AssertError, (bi, s))
  end.

Definition BlockByHeight (s : chainStore) (h : Z) : option MsgBlock :=
  match nodeByHeight (s_bestChain s) h with
  | None => None
  | Some node => match dbFetchBlockByNode node (s_db s) with Ok (block, _) => Some block | _ => None end
  end.

(** The store as the backend of block processing. *)
Definition chain_backend : Backend := {|
  backend := chainStore;
  be_height s := bs_Height (s_snapshot s);
  be_has_block := db_block_exists;
  be_store_block b s := Ok (set_db (dbStoreBlock b (s_db s)) s);
  be_flush bi s := Ok (set_db (flush_rows bi (s_db s)) s);
  be_connect := connect_best_chain;
  be_block_by_height := BlockByHeight
|}.

(** ** The store and the ledger *)

Lemma fetch_coin_utxo db db' o : utxoSet db = utxoSet db' -> fetch_coin db o = fetch_coin db' o.
Proof. intros Hu. rewrite <- !coin_at_fetch. by rewrite Hu. Qed.

Lemma view_coin_utxo db db' view o : utxoSet db = utxoSet db' -> view_coin db view o = view_coin db' view o.
Proof. intros Hu. unfold view_coin. destruct (entries view !! o); [done|]. by apply fetch_coin_utxo. Qed.

Lemma view_ok_utxo db db' view : utxoSet db = utxoSet db' -> view_ok db view -> view_ok db' view.
Proof. intros Hu Hv o e He Hun. rewrite (Hv o e He Hun). by apply fetch_coin_utxo. Qed.

Lemma new_view_coin db h o : view_coin db (SetBestHash h NewUtxoViewpoint) o = fetch_coin db o.
Proof. unfold view_coin. cbn. by rewrite lookup_empty. Qed.

Lemma flush_rows_utxo bi db :
  utxoSet (flush_rows bi db) = utxoSet db /\ spendJournal (flush_rows bi db) = spendJournal db
  /\ hashIndex (flush_rows bi db) = hashIndex db.
Proof.
  unfold flush_rows. induction (elements (dirty bi)) as [|h l IH]; [done|]. cbn [foldr].
  destruct (index bi !! h); [|done]. unfold dbStoreBlockNode. cbn. done.
Qed.

Lemma flush_index_store bi s bi' s' :
  flush_index bi s = (bi', s') ->
  utxoSet (s_db s') = utxoSet (s_db s) /\ s_bestChain s' = s_bestChain s /\ s_snapshot s' = s_snapshot s
  /\ status bi' = status bi /\ spendJournal (s_db s') = spendJournal (s_db s)
  /\ hashIndex (s_db s') = hashIndex (s_db s).
Proof.
  unfold flush_index. case_bool_decide; [by intros [= <- <-]|]. cbn. intros [= <- <-]. cbn.
  destruct (flush_rows_utxo bi (s_db s)) as (? & ? & ?). done.
Qed.

(** The store holds the ledger [l] and the chain that ends in [t]. *)
Record store_ok (s : chainStore) (t : blockNode) (l : gmap OutPoint coin) : Prop := {
  so_readable : readable_set (utxoSet (s_db s));
  so_ledger : forall o, outpoint_ok o -> fetch_coin (s_db s) o = l !! o;
  so_nonneg : map_Forall (fun _ => nonneg) l;
  so_chain : view_of (s_bestChain s) (Some t)
}.

Lemma store_ok_flush bi s bi' s' t l : flush_index bi s = (bi', s') -> store_ok s t l -> store_ok s' t l.
Proof.
  intros Hf [Hr Hl Hn Hc]. apply flush_index_store in Hf as (Hu & Hb & _). split; [by rewrite Hu| |done|by rewrite Hb].
  intros o Ho. rewrite <- Hl by done. by apply fetch_coin_utxo.
Qed.

Lemma view_tip c t : view_of c (Some t) -> tip c = Some t.
Proof.
  intros (_ & _ & Hc). unfold tip. rewrite Hc. destruct (slice_of_last t) as [l ->]. by rewrite last_snoc.
Qed.

(** ** Entries that can be written *)

Definition writable_at (o : OutPoint) (e : option UtxoEntry) : Prop := outpoint_ok o /\ writable e.

Lemma writable_Spend o e : writable_at o (Some e) -> writable_at o (Some (Spend e)).
Proof. intros [Ho Hw]. split; [done|]. intros _ Hs. by rewrite Spend_spent in Hs. Qed.

Lemma writable_load (db : ChainDB) o e : outpoint_ok o -> dbFetchUtxoEntry db o = Ok e -> writable_at o e.
Proof.
  intros Ho He. split; [done|]. cbn in He. unfold db_fetch_utxo in He. destruct (utxoSet db !! _) as [bs|]; [|by injection He as <-].
  destruct (_ =? 0)%nat; [done|]. apply rbind_Ok in He as (e0 & He0 & He). injection He as <-. cbn [writable]. intros Hm _.
  unfold from_storage, deserializeUtxoEntry in He0. destruct (deserializeVLQ bs) as [code off].
  destruct (length bs <=? off)%nat; [done|].
  destruct (decodeCompressedTxOut (drop off bs)) as [[[a sc] n]|x|]; cbn in He0; try done.
  injection He0 as <-. cbn in Hm. by destruct (negb _) in Hm.
Qed.

(** The outputs of the block have scripts that can be stored. *)
Definition block_storable (txs : list MsgTx) : Prop :=
  Forall (fun tx => Forall (fun out => stored_script_ok (to_PkScript out)) (tx_TxOut tx)) txs.

Lemma writable_outs h txs :
  is_i32 h -> Forall tx_sane txs -> block_storable txs -> Forall (outs_keep writable_at h) txs.
Proof.
  intros Hh Hs Hst. apply List.Forall_forall. intros tx Htx i out Hout.
  unfold block_storable in Hst. rewrite List.Forall_forall in Hs, Hst. specialize (Hs tx Htx). specialize (Hst tx Htx).
  split; [apply created_outpoint_ok|]. intros _ _. split; [done|]. split.
  - pose proof (Forall_lookup_1 _ _ _ _ (sane_values tx Hs) Hout) as Hv. rewrite MaxSatoshi_val in Hv.
    unfold amount_ok. cbn. lia.
  - exact (Forall_lookup_1 _ _ _ _ Hst Hout).
Qed.

Lemma journal_count txs h l cs l' :
  coinbase_first txs -> ledger_txs txs h l = Some (cs, l') ->
  exists cb tail, txs = cb :: tail /\ zlen cs = sumZ (fun tx => zlen (tx_TxIn tx)) tail.
Proof.
  intros [Hne Hcb] Hl. destruct txs as [|cb tail]; [done|]. exists cb, tail. split; [done|].
  cbn [ledger_txs] in Hl. destruct (ledger_tx cb h l) as [[cs1 l1]|] eqn:H1'; [|done].
  destruct (ledger_txs tail h l1) as [[cs2 l2]|] eqn:H2'; [|done]. injection Hl as <- <-.
  apply ledger_tx_count in H1'. rewrite (Hcb O cb eq_refl) in H1'. cbn [Nat.eqb] in H1'.
  rewrite <- (ledger_txs_count _ _ _ _ _ H2').
  - unfold zlen. rewrite length_app. lia.
  - intros tx Htx. apply list_elem_of_lookup in Htx as [k Hk]. by rewrite (Hcb (S k) tx).
Qed.

Lemma put_view_only view db db' : dbPutUtxoView view db = Ok db' -> exists b, db' = set_utxoSet b db.
Proof. unfold dbPutUtxoView. intros Hp. apply rbind_Ok in Hp as (b & _ & Hp). injection Hp as <-. by exists b. Qed.

(** Writing a view that was checked extends the chain. *)
Lemma connectBlock_ok node block votes view stxos t l l' bi s :
  store_ok s t l -> parent node = Some t -> chain_ok node -> height node < 2 ^ 31 - 1 ->
  bh_PrevBlock (mb_Header block) = hash t -> countSpentOutputs block = Ok (zlen stxos) ->
  keeps writable_at view -> view_ok (s_db s) view -> implements (s_db s) view l' -> map_Forall (fun _ => nonneg) l' ->
  exists view' bi' s', connectBlock node block votes view stxos bi s = (Ok view', (bi', s'))
    /\ store_ok s' node l' /\ status bi' = status bi
    /\ spendJournal (s_db s') !! BlockHash (mb_Header block) = Some (serializeSpendJournalEntry stxos)
    /\ hashIndex (s_db s') !! BlockHash (mb_Header block) = Some (serializedHeight (height node))
    /\ bs_Hash (s_snapshot s') = hash node /\ bs_Height (s_snapshot s') = height node.
Proof.
  intros Hok Hp Hcok Hh Hprev Hcount Hw Hv Himp Hn. unfold connectBlock.
  rewrite (view_tip _ _ (so_chain _ _ _ Hok)). rewrite bool_decide_true by done. cbn [negb]. rewrite Hcount, Z.eqb_refl. cbn [negb].
  destruct (flush_index bi s) as [bi1 s1] eqn:Hf.
  apply flush_index_store in Hf as (Hu & Hb & Hsnap & Hst & _).
  set (state := best_state_of _ _ _ _ _). set (db1 := dbPutBlockIndex _ _ _).
  assert (Hu1 : utxoSet db1 = utxoSet (s_db s)) by (by rewrite <- Hu).
  destruct (put_view view db1) as (db2 & Hput & Hdb2).
  { intros o e He. exact (Hw o e He). }
  { by eapply view_ok_utxo. }
  rewrite (setTip_view (E := rule_error) (s_bestChain s1) (Some t) node); [|by rewrite Hb; apply Hok|done|done].
  assert (Hfields : hashIndex db2 = hashIndex db1) by (by apply put_view_only in Hput as [b ->]). rewrite Hput.
  do 3 eexists. split; [done|]. split; [|split; [done|]].
  - split; cbn; [|..|done|done].
    { eapply put_view_readable; [intros o e He; exact (Hw o e He)| |exact Hput]. rewrite Hu1. apply Hok. }
    intros o Ho. rewrite (fetch_coin_utxo _ db2) by done. rewrite Hdb2 by done.
    rewrite (view_coin_utxo db1 (s_db s)) by done. by apply Himp.
  - cbn. rewrite lookup_insert_eq. split; [done|]. rewrite Hfields. cbn. by rewrite lookup_insert_eq.
Qed.

(** The whole operation: either the block becomes the tip and the ledger makes
    the block's step, or the ledger and the tip are as before. *)
Lemma connect_best_chain_spec node block bi s t l r bi' s' :
  let txs := mb_Transactions (b_MsgBlock block) in
  store_ok s t l -> parent node = Some t -> chain_ok node -> height node < 2 ^ 31 - 1 ->
  BIP0034Height params <= height node -> block_sane txs -> block_storable txs -> Forall witness_bounded txs ->
  connect_best_chain node block bi s = (r, (bi', s')) ->
  match r with
  | Ok b => b = true /\ exists cs l', ledger_txs txs (height node) l = Some (cs, l') /\ store_ok s' node l'
      /\ total l' <= total l + CalcBlockSubsidy (height node) (SubsidyReductionInterval params)
      /\ spendJournal (s_db s') !! BlockHash (mb_Header (b_MsgBlock block))
         = Some (serializeSpendJournalEntry (map journal_entry cs))
      /\ hashIndex (s_db s') !! BlockHash (mb_Header (b_MsgBlock block)) = Some (serializedHeight (height node))
      /\ bs_Hash (s_snapshot s') = hash node /\ bs_Height (s_snapshot s') = height node
  | Err _ => store_ok s' t l
  | Panic => False
  end.
Proof.
  intros txs Hok Hp Hcok Hh Hbip Hsane Hst Hwit Hc. unfold connect_best_chain in Hc.
  rewrite (view_tip _ _ (so_chain _ _ _ Hok)) in Hc. case_bool_decide as Hprev; [|by injection Hc as <- <- <-].
  destruct (countSpentOutputs (b_MsgBlock block)) as [n|e|] eqn:Hcount; [|by injection Hc as <- <- <-|].
  2:{ pose proof (proj1 (bs_first _ Hsane)) as Hne. unfold countSpentOutputs in Hcount. by destruct (mb_Transactions _). }
  set (view0 := SetBestHash _ _) in Hc.
  assert (Hsafe : safe (checkConnectBlock params (s_db s) node (b_MsgBlock block) (height node) sigCache view0 (Some []))
                    (fun _ => True)).
  { apply checkConnectBlock_safe; [|by eexists|apply Hsane|apply Hsane|done]. intros o Ho.
    by destruct (so_readable _ _ _ Hok o Ho) as [e He]; cbn; change (db_fetch_utxo (s_db s) o = Ok e) in He; rewrite He. }
  destruct (checkConnectBlock _ _ _ _ _ _ _ _) as [[view stxos]|e|] eqn:Hcheck in Hc; [| |by rewrite Hcheck in Hsafe].
  2:{ destruct (is_RuleError e); [|by injection Hc as <- <- <-].
      destruct (flush_index _ s) as [bi1 s1] eqn:Hf in Hc. injection Hc as <- <- <-. by eapply store_ok_flush. }
  destruct (flush_index _ s) as [bi1 s1] eqn:Hf in Hc.
  pose proof (store_ok_flush _ _ _ _ _ _ Hf Hok) as Hok1. apply flush_index_store in Hf as (Hu & _).
  assert (Himp : implements (s_db s) view0 l) by (intros o Ho; unfold view0; rewrite new_view_coin; by apply Hok).
  pose proof (chain_ok_height node Hcok) as Hh0.
  assert (Hkeep : keeps writable_at view /\ view_ok (s_db s) view).
  { split; [eapply (checkConnectBlock_keeps writable_at)|
            eapply (checkConnectBlock_keeps (agrees_if_unchanged (s_db s)) (s_db s))]; try exact Hcheck;
      eauto using writable_Spend, writable_load, unchanged_Spend, unchanged_load.
    all: try (apply writable_outs; [widths; lia|apply Hsane|done]); try apply Hsane;
      try (apply List.Forall_forall; intros tx _; apply unchanged_outs).
    all: intros o e; cbn; by rewrite lookup_empty. }
  destruct Hkeep as [Hw Hv].
  assert (Hbefore : view_before txs view0) by (intros o _; apply lookup_empty).
  destruct (checkConnectBlock_spec params (s_db s) node (b_MsgBlock block) (height node) sigCache view0 (Some []) view
    stxos l Hsane Himp (so_nonneg _ _ _ Hok) Hbefore Hbip Hcheck) as (cs & l' & Hlt & Hi & Hj & _ & Hn & Htot & _).
  subst stxos. cbn [from_option id journalled app] in Hc.
  destruct (journal_count _ _ _ _ _ (bs_first _ Hsane) Hlt) as (cb & tail & Htxs & Hzl).
  assert (Hcount' : countSpentOutputs (b_MsgBlock block) = Ok (zlen (map journal_entry cs))).
  { unfold countSpentOutputs. unfold txs in Htxs. rewrite Htxs. f_equal. unfold zlen at 2. rewrite length_map. done. }
  edestruct (connectBlock_ok node (b_MsgBlock block) (b_Votes block) view (map journal_entry cs) t l l' bi1 s1)
    as (view' & bi2 & s2 & Hcb & Hok2 & Hstat & Hjr & Hhi & Hsn); try done.
  { by eapply view_ok_utxo. }
  { intros o Ho. rewrite (view_coin_utxo (s_db s1) (s_db s)) by done. by apply Hi. }
  rewrite Hcb in Hc. destruct (negb _) in Hc; [|injection Hc as <- <- <-; split; [done|]; by exists cs, l'].
  destruct (flush_index _ s2) as [bi3 s3] eqn:Hf3 in Hc. injection Hc as <- <- <-. split; [done|]. exists cs, l'.
  split; [done|]. split; [by eapply store_ok_flush|]. split; [done|].
  apply flush_index_store in Hf3 as (_ & _ & -> & _ & -> & ->). done.
Qed.

(** ** Growing a chain *)

(** The stores a node goes through: from the store [s0] of the block [g], each
    block that extends the tip and has passed the sanity checks is either
    connected or refused. *)
Inductive chain_from (s0 : chainStore) (g : blockNode) : chainStore -> blockNode -> Prop :=
  | from_start : chain_from s0 g s0 g
  | from_block s t node block bi r bi' s' :
      chain_from s0 g s t -> parent node = Some t -> chain_ok node -> height node < 2 ^ 31 - 1 ->
      block_sane (mb_Transactions (b_MsgBlock block)) -> block_storable (mb_Transactions (b_MsgBlock block)) ->
      Forall witness_bounded (mb_Transactions (b_MsgBlock block)) ->
      connect_best_chain node block bi s = (r, (bi', s')) ->
      chain_from s0 g s' (if is_ok r then node else t).

Lemma chain_from_ok s0 g l0 s t :
  store_ok s0 g l0 -> BIP0034Height params <= 0 -> chain_from s0 g s t ->
  exists l, store_ok s t l /\
    total l <= total l0 + sumZ (fun h => CalcBlockSubsidy (Z.of_nat h) (SubsidyReductionInterval params))
                            (seq (S (Z.to_nat (height g))) (Z.to_nat (height t - height g)))
    /\ height g <= height t.
Proof.
  intros Hok Hbip. induction 1 as [|s t node block bi r bi' s' _ IH Hp Hcok Hh Hsane Hst Hwit Hc].
  { exists l0. split; [done|]. rewrite Z.sub_diag. change (Z.to_nat 0) with 0%nat. cbn [seq].
    match goal with |- context [sumZ ?f []] => change (sumZ f []) with 0 end. lia. }
  destruct IH as (l & Hokl & Htot & Hle). pose proof (chain_ok_height node Hcok) as Hh0.
  pose proof (connect_best_chain_spec node block bi s t l r bi' s' Hokl Hp Hcok Hh ltac:(lia) Hsane Hst Hwit Hc) as Hspec.
  destruct r as [b|e|]; [|by exists l|done]. destruct Hspec as (_ & cs & l' & _ & Hok' & Htot' & _). cbn [is_ok].
  exists l'. split; [done|]. destruct node as [d|d p]; [done|]. injection Hp as ->. destruct Hcok as [Hd Ht].
  pose proof (chain_ok_height g (proj1 (so_chain _ _ _ Hok))) as Hg.
  assert (Hhn : height (ChildNode d t) = height t + 1) by done.
  replace (Z.to_nat (height (ChildNode d t) - height g)) with (S (Z.to_nat (height t - height g))) by lia.
  rewrite seq_S, sumZ_app.
  replace (S (Z.to_nat (height g)) + Z.to_nat (height t - height g))%nat with (Z.to_nat (height (ChildNode d t))) by lia.
  match goal with |- context [sumZ ?f [?x]] => change (sumZ f [x]) with (f x + 0) end.
  cbv beta. rewrite Z2Nat.id by lia. split; [|lia]. lia.
Qed.

(** ** Properties *)

(** C7: extending the main chain is atomic: with a store that holds a ledger and
    a chain, [connectBestChain] either makes the block the tip, after which the
    database holds the ledger after the block's step, the journal the coins it
    took, the index its height, the snapshot its hash, and the supply has grown
    by at most the subsidy; or it returns an error and the ledger and the chain
    are as they were. *)
Theorem connectBestChain_atomic node block bi s t l r bi' s' :
  let txs := mb_Transactions (b_MsgBlock block) in
  store_ok s t l -> parent node = Some t -> chain_ok node -> height node < 2 ^ 31 - 1 ->
  BIP0034Height params <= height node -> block_sane txs -> block_storable txs -> Forall witness_bounded txs ->
  connect_best_chain node block bi s = (r, (bi', s')) ->
  match r with
  | Ok b => b = true /\ exists cs l', ledger_txs txs (height node) l = Some (cs, l') /\ store_ok s' node l'
      /\ total l' <= total l + CalcBlockSubsidy (height node) (SubsidyReductionInterval params)
      /\ spendJournal (s_db s') !! BlockHash (mb_Header (b_MsgBlock block))
         = Some (serializeSpendJournalEntry (map journal_entry cs))
      /\ hashIndex (s_db s') !! BlockHash (mb_Header (b_MsgBlock block)) = Some (serializedHeight (height node))
      /\ bs_Hash (s_snapshot s') = hash node /\ bs_Height (s_snapshot s') = height node
  | Err _ => store_ok s' t l
  | Panic => False
  end.
Proof. apply connect_best_chain_spec. Qed.

(** C8: the supply is bounded as long as every block has passed the sanity checks:
    on a chain that starts from a genesis block whose coinbase is not in the
    utxo set, and with the main network's halving, all coins in the database
    together never exceed [MaxSatoshi], whatever such blocks are offered on the
    tip and whichever of them are refused.  The sanity checks are needed: for
    blocks that skip them see [sync_block_inflates] below. *)
Theorem chain_supply_bounded s0 g s t :
  store_ok s0 g ∅ -> height g = 0 -> BIP0034Height params <= 0 -> SubsidyReductionInterval params = 210000 ->
  chain_from s0 g s t -> exists l, store_ok s t l /\ total l <= MaxSatoshi.
Proof.
  intros Hok Hg Hbip Hint Hc. destruct (chain_from_ok s0 g ∅ s t Hok Hbip Hc) as (l & Hl & Htot & _).
  exists l. split; [done|]. rewrite Hg, Hint, Z.sub_0_r in Htot. change (total ∅) with 0 in Htot.
  destruct (so_chain _ _ _ Hl) as (Hcok & Hlt & _). pose proof (chain_ok_height t Hcok) as H0'.
  pose proof (supply_total (S (Z.to_nat (height t))) ltac:(widths; lia)) as Hs. unfold supply in Hs.
  change (seq 0 (S (Z.to_nat (height t)))) with (0%nat :: seq 1 (Z.to_nat (height t))) in Hs.
  change (sumZ (fun h => CalcBlockSubsidy (Z.of_nat h) 210000) (0%nat :: seq 1 (Z.to_nat (height t))))
    with (CalcBlockSubsidy 0 210000 + sumZ (fun h => CalcBlockSubsidy (Z.of_nat h) 210000) (seq 1 (Z.to_nat (height t)))) in Hs.
  change (S (Z.to_nat 0)) with 1%nat in Htot. pose proof (CalcBlockSubsidy_nonneg 0 210000). lia.
Qed.

(** disconnecting a block records the wrong best state: the snapshot and the
    database get the hash and height of the previous block, but the signature,
    public key, scale and votes of the block that was disconnected. *)
Theorem disconnectBlock_keeps_header node block votes view bi s prevNode v bi' s' :
  parent node = Some prevNode -> disconnectBlock node block votes view bi s = (Ok v, (bi', s')) ->
  let best := s_snapshot s' in
  bs_Hash best = hash prevNode /\ bs_Height best = height prevNode
  /\ bs_Signature best = bh_Signature (mb_Header block) /\ bs_PubKey best = bh_PublicKey (mb_Header block)
  /\ bs_Scale best = bh_Scale (mb_Header block) /\ bs_Votes best = votes.
Proof.
  intros Hp. unfold disconnectBlock. rewrite Hp. destruct (tip _); [|done]. destruct (negb _); [done|].
  destruct (dbFetchBlockByNode _ _) as [[pb ph]|e|]; [|done|done]. destruct (flush_index bi s) as [bi1 s1].
  destruct (let* db := dbPutUtxoView _ _ in _) as [db|e|]; [|done|done].
  destruct (setTip _ _) as [c|e|]; [|done|done]. by intros [= <- <- <-].
Qed.

End ConnectChain.

(** ** Witnesses *)

Section Witnesses.
#[local] Existing Instance prefix_hash_functions | 0.
#[local] Existing Instance prefix_script_hashes.
#[local] Existing Instance accepting_curve.
#[local] Existing Instance list_order.
#[local] Existing Instance elements_order.

(** A store with an empty utxo set and a chain of one block, and a block that
    extends it. *)
Definition first_store : chainStore :=
  mkChainStore empty_db (mkChainView (slice_of sample_root))
    (best_state_of sample_root (mkMsgBlock sample_header []) sample_header 0 0).
Definition first_coinbase : MsgTx :=
  mkMsgTx 1 [mkTxIn (mkOutPoint zero_hash MaxUint32) [x51; x00] [] 0] [mkTxOut 100 [x51]] 0.
Definition first_block : Block := mkBlock (mkMsgBlock sample_child_header [first_coinbase]) 1.


Lemma first_store_ok : store_ok first_store sample_root ∅.
Proof.
  split.
  - intros o _. exists None. unfold db_fetch_utxo. cbn. by rewrite lookup_empty.
  - intros o _. rewrite lookup_empty. unfold fetch_coin. cbn. unfold db_fetch_utxo. cbn. by rewrite lookup_empty.
  - apply map_Forall_empty.
  - split; [reflexivity|done].
Qed.

Lemma first_block_sane : block_sane [first_coinbase].
Proof.
  split.
  - split; [done|]. intros [|k] tx Hk; [by injection Hk as <-|done].
  - apply list.Forall_cons; split; [|by apply list.Forall_nil]; apply CheckTransactionSanity_iff; vm_compute; reflexivity.
  - apply (bool_decide_unpack _). vm_compute. exact I.
  - apply (bool_decide_unpack _). vm_compute. exact I.
Qed.

Lemma first_block_storable : block_storable [first_coinbase].
Proof.
  apply list.Forall_cons; split; [|by apply list.Forall_nil]. apply list.Forall_cons; split; [|by apply list.Forall_nil].
  exact sample_script_ok.
Qed.

Lemma first_block_witness : Forall witness_bounded [first_coinbase].
Proof. apply (bool_decide_unpack _). vm_compute. exact I. Qed.

Lemma result_parts {A B C} (r : A * (B * C)) a : fst r = a -> r = (a, (fst (snd r), snd (snd r))).
Proof. destruct r as [x [y z]]. cbn. by intros ->. Qed.

Definition first_index : blockIndex :=
  fst (snd (connect_best_chain sample_params None sample_child first_block newBlockIndex first_store)).
Definition second_store : chainStore :=
  snd (snd (connect_best_chain sample_params None sample_child first_block newBlockIndex first_store)).

Lemma first_step :
  connect_best_chain sample_params None sample_child first_block newBlockIndex first_store
  = (Ok true, (first_index, second_store)).
Proof. unfold first_index, second_store. apply result_parts. vm_compute. reflexivity. Qed.

Lemma connectBestChain_atomic_witness :
  exists cs l', ledger_txs [first_coinbase] (height sample_child) ∅ = Some (cs, l')
    /\ store_ok second_store sample_child l'.
Proof.
  destruct (connectBestChain_atomic sample_params None sample_child first_block newBlockIndex first_store sample_root ∅
    (Ok true) first_index second_store first_store_ok eq_refl sample_child_ok
    ltac:(vm_compute; reflexivity) ltac:(vm_compute; discriminate) first_block_sane first_block_storable first_block_witness
    first_step) as (_ & cs & l' & Hl & Hok & _).
  exists cs, l'. split; [exact Hl|exact Hok].
Defined.

Lemma chain_supply_bounded_witness :
  exists l, store_ok second_store sample_child l /\ total l <= MaxSatoshi.
Proof.
  apply (chain_supply_bounded sample_params None first_store sample_root).
  - exact first_store_ok.
  - reflexivity.
  - vm_compute. discriminate.
  - reflexivity.
  - apply (from_block sample_params None first_store sample_root first_store sample_root sample_child first_block
      newBlockIndex (Ok true) first_index second_store).
    + apply from_start.
    + reflexivity.
    + exact sample_child_ok.
    + vm_compute. reflexivity.
    + exact first_block_sane.
    + exact first_block_storable.
    + exact first_block_witness.
    + exact first_step.
Defined.

(** The same store with the first block's data, and the second block
    disconnected from it. *)
Definition stored_chain : chainStore :=
  set_db (set_blocks {[hash sample_root := MsgBlock_BtcEncode WitnessEncoding (mkMsgBlock sample_header [])]}
            (s_db second_store)) second_store.
Definition disconnected_view : UtxoViewpoint :=
  match fst (disconnectBlock sample_child (b_MsgBlock first_block) 1 NewUtxoViewpoint first_index stored_chain) with
  | Ok v => v | _ => NewUtxoViewpoint
  end.
Definition disconnected_index : blockIndex :=
  fst (snd (disconnectBlock sample_child (b_MsgBlock first_block) 1 NewUtxoViewpoint first_index stored_chain)).
Definition disconnected_store : chainStore :=
  snd (snd (disconnectBlock sample_child (b_MsgBlock first_block) 1 NewUtxoViewpoint first_index stored_chain)).

Lemma ok_value {E A} (r : result E A) d : is_ok r = true -> r = Ok (match r with Ok v => v | _ => d end).
Proof. by destruct r. Qed.

Lemma disconnect_step :
  disconnectBlock sample_child (b_MsgBlock first_block) 1 NewUtxoViewpoint first_index stored_chain
  = (Ok disconnected_view, (disconnected_index, disconnected_store)).
Proof.
  unfold disconnected_index, disconnected_store. apply result_parts. unfold disconnected_view. apply ok_value.
  vm_compute. reflexivity.
Qed.

Lemma disconnectBlock_keeps_header_witness :
  bs_Hash (s_snapshot disconnected_store) = hash sample_root /\ bs_Votes (s_snapshot disconnected_store) = 1.
Proof.
  destruct (disconnectBlock_keeps_header sample_child (b_MsgBlock first_block) 1 NewUtxoViewpoint first_index stored_chain
    sample_root disconnected_view disconnected_index disconnected_store eq_refl disconnect_step)
    as (Hh & _ & _ & _ & _ & Hv).
  split; [exact Hh|exact Hv].
Defined.

(** *** Blocks that skip the sanity checks *)

(** A chain of one block, an honest block on it, and a block with a transaction
    that names the coinbase of the honest block twice. *)
Definition young_params : Params := mkParams zero_hash 0 0 0 0 210000.
#[local] Existing Instance zero_platform.
#[local] Instance young_backend : Backend := chain_backend young_params None.
Definition young_chain : BlockChain :=
  mkBlockChain (AddNode sample_root statusValid newBlockIndex) ∅ ∅ None first_store.

Definition subsidy_at (h : Z) : Z := CalcBlockSubsidy h 210000.
Definition honest_coinbase : MsgTx :=
  mkMsgTx 1 [mkTxIn (mkOutPoint zero_hash MaxUint32) [x51; x00] [] 0] [mkTxOut (subsidy_at 1) [x51]] 0.
Definition honest_header : BlockHeader :=
  mkBlockHeader 1 (hash sample_root) zero_hash 1010 (replicate 64 x00) (SerializeCompressed sample_pubkey) 1 0.
Definition honest_block : Block := mkBlock (mkMsgBlock honest_header [honest_coinbase]) 1.

Definition twice (tx : MsgTx) : MsgTx :=
  let i := mkTxIn (mkOutPoint (TxHash tx) 0) [] [] 0 in
  mkMsgTx 2 [i; i] [mkTxOut (2 * subsidy_at 1) [x51]] 0.
Definition inflating_coinbase : MsgTx :=
  mkMsgTx 3 [mkTxIn (mkOutPoint zero_hash MaxUint32) [x52; x00] [] 0] [mkTxOut (subsidy_at 2) [x51]] 0.
Definition inflating_block : Block :=
  mkBlock (mkMsgBlock (mkBlockHeader 3 (BlockHash honest_header) zero_hash 1020 (replicate 64 x00)
                        (SerializeCompressed sample_pubkey) 1 0)
             [inflating_coinbase; twice honest_coinbase]) 1.

(** a block that a peer sends for synchronisation can create money out of
    nothing: [ProcessSyncBlock] (and [processOrphans]) accept a block without
    [checkBlockSanity], and nothing after it notices that a transaction names an
    input twice: [CheckTransactionInputs] adds the value of the coin up twice
    before it is spent.  The two coins in the database are then worth more than
    the two subsidies. *)
Theorem sync_block_inflates :
  let '(r1, bc1) := ProcessSyncBlock honest_block young_chain in
  let '(r2, bc2) := ProcessSyncBlock inflating_block bc1 in
  let amount tx := c_amount <$> fetch_coin (s_db (bc_backend bc2)) (mkOutPoint (TxHash tx) 0) in
  r1 = Ok true /\ r2 = Ok true
  /\ CheckTransactionSanity (twice honest_coinbase) = Err ErrDuplicateTxInputs
  /\ amount (twice honest_coinbase) = Some (2 * subsidy_at 1)
  /\ amount inflating_coinbase = Some (subsidy_at 2)
  /\ subsidy_at 1 + subsidy_at 2 < 2 * subsidy_at 1 + subsidy_at 2.
Proof. vm_compute. split_and!; reflexivity. Qed.

End Witnesses.
