(* ===== verification/ChainInit.v ===== *)
(** * Starting the chain: createChainState and initChainState of
    blockchain/chainio.go

    A node that starts on an empty database writes the genesis block; a node
    that starts on the database of an earlier run loads the block index in the
    order of its keys, looks up the tip and rebuilds the view of the best chain
    and the snapshot.  The migration of databases without a block index and the
    records of the bucket versions are left out; the receiver's index and view are
    empty when these functions are called. *)
From stdpp Require Import sorting.
From S2P Require Import Prelude Float64 Chainhash Vote Wire Hash WireMsg ScriptNum Stack Opcode Script Merkle BlockIndex.
From S2P Require Import Signature Engine EngineSafety EngineCache Compress Validate Utxo ScriptVal ChainIO ConnectBlock.
From S2P Require Import ChainView Chain ConnectChain.

(** ** The order of a cursor *)

Definition key_le (a b : list byte * list byte) : Prop := bytes_leb (fst a) (fst b) = true.
#[export] Instance key_le_dec : RelDecision key_le.
Proof. intros a b. unfold key_le. apply _. Defined.

(** The entries of a bucket as a cursor visits them. *)
Definition cursor_entries (b : Bucket) : list (list byte * list byte) := merge_sort key_le (map_to_list b).

Section ChainInit.
Context `{HashFunctions}.
Context (genesisBlock : MsgBlock) (genesisHash : Hash).

(** [node.status = st] followed by [addNode], which does not mark the node. *)
Definition load_node (node : blockNode) (st : Z) (bi : blockIndex) : blockIndex :=
  let bi := addNode node bi in
  mkBlockIndex (index bi) (<[hash node := st]> (status bi)) (dirty bi).

Definition createChainState (db : ChainDB) : result rule_error (blockIndex * chainStore) :=
  let header := mb_Header genesisBlock in
  let node := newBlockNode header None 1 in
  let st := Z.lor statusDataStored statusValid in
  let* c := setTip (Some node) (mkChainView []) in
  let bi := load_node node st newBlockIndex in
  let numTxns := zlen (mb_Transactions genesisBlock) in
  let blockSize := u64 (MsgBlock_SerializeSize genesisBlock) in
  let blockWeight := u64 (GetBlockWeight genesisBlock) in
  let snapshot := newBestState node blockSize blockWeight numTxns numTxns (bh_Signature header) (bh_PublicKey header)
                    (bh_Scale header) (bh_Reserved header) (timestamp node) 1 in
  let db := mkChainDB ∅ ∅ ∅ ∅ ∅ (chainState db) (blockData db) in
  let db := dbStoreBlockNode node st db in
  let db := dbPutBlockIndex (hash node) (height node) db in
  let db := dbPutBestState snapshot db in
  let db := dbStoreBlock genesisBlock db in
  Ok (bi, mkChainStore db c snapshot).

(** The loop over the rows of the block index. *)
Fixpoint load_rows (rows : list (list byte * list byte)) (lastNode : option blockNode) (bi : blockIndex)
    : result rule_error blockIndex :=
  match rows with
  | [] => Ok bi
  | (_, value) :: rows =>
      match deserializeBlockRow value with
      | Err _ => Err BackendError
      | Panic => Panic
      | Ok (header, st, votes) =>
          let* par :=
            match lastNode with
            | None => if bool_decide (BlockHash header = genesisHash) then Ok None else Err AssertError
            | Some last =>
                if bool_decide (bh_PrevBlock header = hash last) then Ok (Some last)
                else match LookupNode bi (bh_PrevBlock header) with
                     | None => Err AssertError
                     | Some p => Ok (Some p)
                     end
            end in
          let node := newBlockNode header par votes in
          load_rows rows (Some node) (load_node node st bi)
      end
  end.

(** The walk from the tip that marks its ancestors valid. *)
Fixpoint mark_valid (node : blockNode) (bi : blockIndex) : blockIndex :=
  let bi := if KnownValid (NodeStatus bi node) then bi else SetStatusFlags node statusValid bi in
  match node with ChildNode _ p => mark_valid p bi | RootNode _ => bi end.

Definition initChainState (db : ChainDB) : result rule_error (blockIndex * chainStore) :=
  match chainState db with
  | None => createChainState db
  | Some serializedData =>
      let* state := deserializeBestChainState serializedData in
      let* bi := load_rows (cursor_entries (blockIndexRows db)) None newBlockIndex in
      match LookupNode bi (bcs_hash state) with
      | None => Err AssertError
      | Some t =>
          let* c := setTip (Some t) (mkChainView []) in
          match blockData db !! bcs_hash state with
          | None => Err BackendError
          | Some blockBytes =>
              match MsgBlock_BtcDecode WitnessEncoding blockBytes with
              | Err _ => Err BackendError
              | Panic => Panic
              | Ok (block, _) =>
                  let bi := mark_valid t bi in
                  let d := node_data t in
                  let snapshot := newBestState t (zlen blockBytes) (u64 (GetBlockWeight block)) (zlen (mb_Transactions block))
                                    (bcs_totalTxns state) (nd_signature d) (nd_publicKey d) (nd_scale d) (nd_reserved d)
                                    (CalcPastMedianTime t) (Votes t) in
                  Ok (flush_index bi (mkChainStore db c snapshot))
              end
          end
      end
  end.

End ChainInit.
