(* ===== verification/Restart.v ===== *)
(** * A restart finds what the node had stored

    The invariant that ties the block index, the view of the best chain and the
    snapshot of a running node to its database; creating a chain establishes it,
    accepting blocks keeps it, and starting on the database restores the state
    from it. *)
From stdpp Require Import sorting.
From S2P Require Import Prelude Float64 Chainhash Vote Wire Hash WireMsg ScriptNum Stack Opcode Script Merkle BlockIndex.
From S2P Require Import Signature Engine EngineSafety EngineCache Compress Validate Utxo ScriptVal ChainIO ConnectBlock.
From S2P Require Import ChainView Chain ConnectChain ChainInit.
Import ListNotations.
Open Scope Z_scope.
Open Scope list_scope.

(** ** The order of the rows *)

Lemma bytes_leb_total a b : bytes_leb a b = true \/ bytes_leb b a = true.
Proof.
  revert b. induction a as [|x a IH]; intros [|y b]; cbn [bytes_leb]; auto.
  destruct (Z.ltb_spec x y), (Z.ltb_spec y x); auto; lia.
Qed.

Lemma bytes_leb_trans a b c : bytes_leb a b = true -> bytes_leb b c = true -> bytes_leb a c = true.
Proof.
  revert b c. induction a as [|x a IH]; intros [|y b] [|z c]; cbn [bytes_leb]; try done.
  destruct (Z.ltb_spec x y), (Z.ltb_spec y z), (Z.ltb_spec x z); try done; try lia;
    destruct (Z.ltb_spec y x), (Z.ltb_spec z y), (Z.ltb_spec z x); try done; try lia. apply IH.
Qed.

#[export] Instance key_le_total : Total key_le.
Proof. intros a b. apply bytes_leb_total. Qed.
#[export] Instance key_le_trans : Transitive key_le.
Proof. intros a b c. apply bytes_leb_trans. Qed.

Lemma bytes_leb_be p q x y :
  length p = length q -> bytes_leb (p ++ x) (q ++ y) = true -> be_value p <= be_value q.
Proof.
  revert q. induction p as [|a p IH]; intros [|b q] Hl; try done. injection Hl as Hl. cbn [bytes_leb app].
  rewrite !be_value_cons, <- Hl. pose proof (be_value_range p). pose proof (be_value_range q) as Hq. unfold zlen in *. rewrite <- Hl in Hq. rewrite !Z.pow_mul_r in * by lia. change (2 ^ 8) with 256 in *.
  destruct (Z.ltb_spec a b); [intros _; nia|]. destruct (Z.ltb_spec b a); [done|].
  intros Hr%IH; [|done]. replace (Z_of_byte a) with (Z_of_byte b) by lia. lia.
Qed.

Lemma key_order h1 a h2 b :
  is_u32 a -> is_u32 b -> bytes_leb (blockIndexKey h1 a) (blockIndexKey h2 b) = true -> a <= b.
Proof.
  intros Ha Hb Hle. unfold blockIndexKey in Hle. apply bytes_leb_be in Hle.
  - unfold be_value in Hle. rewrite !reverse_involutive, !le_value_bytes in Hle.
    change (8 * Z.of_nat 4) with 32 in Hle. by rewrite !Z.mod_small in Hle.
  - by rewrite !length_reverse, !length_le_bytes.
Qed.

(** ** Nodes as they are read back *)

Lemma make_node_eta n : make_node (node_data n) (parent n) = n.
Proof. by destruct n. Qed.

Section Restart.
Context `{HashFunctions}.
Context (genesisHash : Hash).

(** A node of the index, filed under [h]. *)
Record node_ok (bi : blockIndex) (h : Hash) (n : blockNode) : Prop := {
  no_hash : hash n = h;
  no_hash_ok : hash_ok h;
  no_chain : chain_ok n;
  no_height : height n < 2 ^ 31 - 1;
  no_header : header_ok (Header n);
  no_id : BlockHash (Header n) = h;
  no_votes : is_u16 (Votes n);
  no_status : is_u8 (NodeStatus bi n);
  no_parent : match parent n with Some p => index bi !! hash p = Some p | None => h = genesisHash end
}.

Definition row_key (n : blockNode) : list byte := blockIndexKey (hash n) (u32 (height n)).

(** The index and its rows; the rows of nodes marked dirty may be old. *)
Record index_stored (bi : blockIndex) (rows : Bucket) : Prop := {
  is_nodes : forall h n, index bi !! h = Some n -> node_ok bi h n;
  is_written : forall h n, index bi !! h = Some n -> (h ∉ dirty bi) -> rows !! row_key n = Some (block_row n (NodeStatus bi n));
  is_known : forall k v, rows !! k = Some v -> exists h n, index bi !! h = Some n /\ k = row_key n
}.

Lemma renew_node bi h n : node_ok bi h n -> newBlockNode (Header n) (parent n) (Votes n) = n.
Proof.
  intros [Hh _ Hok Hb _ Hid _ _ _]. transitivity (make_node (node_data n) (parent n)); [|apply make_node_eta].
  unfold newBlockNode. rewrite Hid, <- Hh. f_equal. unfold hash, Votes.
  assert (Hhgt : match parent n with Some p => i32 (height p + 1) | None => 0 end = nd_height (node_data n)).
  { destruct n as [d|d p]; cbn [parent node_data]; [symmetry; exact Hok|]. destruct Hok as [Hd Hp].
    pose proof (chain_ok_height p Hp). rewrite i32_small; [done|]. unfold height in *. cbn in Hb. widths. lia. }
  rewrite Hhgt. unfold Header. by destruct (node_data n).
Qed.

Lemma row_key_inj bi h1 n1 h2 n2 : node_ok bi h1 n1 -> node_ok bi h2 n2 -> row_key n1 = row_key n2 -> h1 = h2.
Proof.
  intros H1 H2 Hk. unfold row_key, blockIndexKey in Hk.
  apply app_inj_1 in Hk as [_ Hk]; [|by rewrite !length_reverse, !length_le_bytes].
  rewrite (no_hash _ _ _ H1), (no_hash _ _ _ H2) in Hk. by rewrite !copy_into_id in Hk by (eapply no_hash_ok; eassumption).
Qed.

Definition entry (bi : blockIndex) (n : blockNode) : list byte * list byte := (row_key n, block_row n (NodeStatus bi n)).

Lemma index_nodes bi rows h n :
  index_stored bi rows -> index bi !! h = Some n -> index bi !! hash n = Some n.
Proof. intros Hs Hn. pose proof (no_hash _ _ _ (is_nodes _ _ Hs h n Hn)) as ->. done. Qed.

(** The cursor visits the rows of the nodes of the index. *)
Lemma cursor_nodes bi rows :
  index_stored bi rows -> dirty bi = ∅ ->
  exists L, cursor_entries rows = map (entry bi) L /\ NoDup L /\
    (forall n, n ∈ L <-> index bi !! hash n = Some n).
Proof.
  intros Hs Hd. set (N := map snd (map_to_list (index bi))).
  assert (HN : forall n, n ∈ N <-> index bi !! hash n = Some n).
  { intros n. unfold N. rewrite list_elem_of_fmap. split.
    - intros ([h x] & -> & Hx). apply elem_of_map_to_list in Hx. cbn [snd]. by eapply index_nodes.
    - intros Hn. exists (hash n, n). split; [done|]. by apply elem_of_map_to_list. }
  assert (HND : NoDup N).
  { unfold N. apply NoDup_fmap_2_strong; [|apply NoDup_map_to_list]. intros [h1 n1] [h2 n2] H1 H2 E. cbn in E. subst n2.
    apply elem_of_map_to_list in H1, H2. f_equal.
    rewrite <- (no_hash _ _ _ (is_nodes _ _ Hs _ _ H1)). apply (no_hash _ _ _ (is_nodes _ _ Hs _ _ H2)). }
  assert (Hperm : map_to_list rows ≡ₚ map (entry bi) N).
  { apply NoDup_Permutation; [apply NoDup_map_to_list| |].
    - apply NoDup_fmap_2_strong; [|done]. intros n1 n2 H1 H2 E. apply HN in H1, H2. apply (f_equal fst) in E. change (row_key n1 = row_key n2) in E.
      pose proof (row_key_inj _ _ _ _ _ (is_nodes _ _ Hs _ _ H1) (is_nodes _ _ Hs _ _ H2) E) as Eh.
      rewrite Eh in H1. congruence.
    - intros [k v]. rewrite elem_of_map_to_list, list_elem_of_fmap. split.
      + intros Hkv. destruct (is_known _ _ Hs k v Hkv) as (h & n & Hn & ->). exists n.
        pose proof (is_written _ _ Hs h n Hn) as Hw. rewrite Hd in Hw. rewrite Hw in Hkv by set_solver.
        injection Hkv as <-. split; [done|]. apply HN. by eapply index_nodes.
      + intros (n & E & Hn). pose proof (f_equal fst E) as Ek. pose proof (f_equal snd E) as Ev. cbn [fst snd entry] in Ek, Ev.
        subst k v. apply HN in Hn. apply (is_written _ _ Hs (hash n)); [done|].
        rewrite Hd. set_solver. }
  assert (Hc : cursor_entries rows ≡ₚ map (entry bi) N) by (unfold cursor_entries; by rewrite merge_sort_Permutation).
  apply Permutation_map_inv in Hc as (L & HL & HP). exists L. split; [done|]. split.
  - by rewrite <- HP.
  - intros n. rewrite <- HN. by rewrite HP.
Qed.

(** Lower nodes come first. *)
Lemma cursor_sorted rows : StronglySorted key_le (cursor_entries rows).
Proof. apply (StronglySorted_merge_sort key_le). Qed.

Lemma node_height bi h n : node_ok bi h n -> is_u32 (height n) /\ u32 (height n) = height n.
Proof.
  intros Hn. pose proof (chain_ok_height n (no_chain _ _ _ Hn)). pose proof (no_height _ _ _ Hn).
  assert (is_u32 (height n)) by (widths; lia). split; [done|]. by apply u32_small.
Qed.

Lemma entry_height bi h1 n1 h2 n2 :
  node_ok bi h1 n1 -> node_ok bi h2 n2 -> key_le (entry bi n1) (entry bi n2) -> height n1 <= height n2.
Proof.
  intros H1 H2 Hle. destruct (node_height _ _ _ H1) as [Hu1 E1], (node_height _ _ _ H2) as [Hu2 E2].
  unfold key_le, entry, row_key in Hle. cbn [fst] in Hle. rewrite E1, E2 in Hle. by eapply key_order.
Qed.

(** ** Loading the index *)

(** The index holds exactly the nodes of a list, none of them dirty. *)
Record loaded (bi : blockIndex) (P : list blockNode) (bi' : blockIndex) : Prop := {
  ld_index h n : index bi' !! h = Some n <-> n ∈ P /\ hash n = h;
  ld_status n : n ∈ P -> status bi' !! hash n = Some (NodeStatus bi n);
  ld_dirty : dirty bi' = ∅
}.

Lemma loaded_step bi P n bi' :
  loaded bi P bi' -> (forall m, m ∈ P -> hash m <> hash n) -> loaded bi (P ++ [n]) (load_node n (NodeStatus bi n) bi').
Proof.
  intros [Hi Hs Hd] Hne. split; cbn [load_node addNode index status dirty]; [| |done].
  - intros h m. rewrite elem_of_app, list_elem_of_singleton. destruct (decide (hash n = h)) as [<-|Hh].
    + rewrite lookup_insert_eq. split; [intros [= ->]; auto|]. intros [[Hm| ->] E]; [by apply Hne in Hm|done].
    + rewrite lookup_insert_ne by done. rewrite Hi. split; [intros [? ?]; auto|]. intros [[Hm| ->] E]; [done|done].
  - intros m. rewrite elem_of_app, list_elem_of_singleton. intros [Hm| ->]; [|apply lookup_insert_eq].
    rewrite lookup_insert_ne by (by apply not_eq_sym, Hne). by apply Hs.
Qed.

Section Load.
Context (bi : blockIndex) (rows : Bucket) (L : list blockNode).
Context (Hstored : index_stored bi rows) (Hnd : NoDup L).
Context (HL : forall n, n ∈ L <-> index bi !! hash n = Some n).
Context (Hsorted : StronglySorted key_le (map (entry bi) L)).

Lemma listed n : n ∈ L -> node_ok bi (hash n) n.
Proof. intros Hn. apply (is_nodes _ _ Hstored). by apply HL. Qed.

Lemma same_hash n m : n ∈ L -> m ∈ L -> hash n = hash m -> n = m.
Proof. intros Hn%HL Hm%HL E. rewrite E in Hn. congruence. Qed.

(** The parent of a node is listed before it. *)
Lemma parent_before P n S p : L = P ++ n :: S -> parent n = Some p -> p ∈ P.
Proof.
  intros E Hp. assert (Hn : n ∈ L) by (rewrite E; set_solver). pose proof (listed n Hn) as Hok.
  assert (Hpl : p ∈ L).
  { apply HL. pose proof (no_parent _ _ _ Hok) as Hpar. by rewrite Hp in Hpar. }
  assert (Hh : height n = height p + 1).
  { pose proof (no_chain _ _ _ Hok) as Hc. destruct n as [d|d q]; [done|]. injection Hp as ->. apply Hc. }
  pose proof Hpl as Hin. rewrite E in Hin. apply elem_of_app in Hin as [Hin|Hin]; [done|]. exfalso.
  apply elem_of_cons in Hin as [-> |Hin]; [lia|].
  rewrite E, map_app, map_cons in Hsorted. apply StronglySorted_app in Hsorted as (_ & _ & Hs).
  apply StronglySorted_cons in Hs as [Hs _]. rewrite list.Forall_forall in Hs.
  specialize (Hs (entry bi p)). apply (entry_height bi (hash n) n (hash p) p Hok (listed p Hpl)) in Hs; [lia|].
  apply list_elem_of_fmap. by exists p.
Qed.

Lemma load_rows_stored S P bi' :
  L = P ++ S -> loaded bi P bi' ->
  exists bi'', load_rows genesisHash (map (entry bi) S) (list.last P) bi' = Ok bi'' /\ loaded bi L bi''.
Proof.
  revert P bi'. induction S as [|n S IH]; intros P bi' E Hld.
  { exists bi'. split; [done|]. by rewrite E, app_nil_r. }
  cbn [map load_rows entry]. assert (Hn : n ∈ L) by (rewrite E; set_solver). pose proof (listed n Hn) as Hok.
  rewrite block_row_roundtrip by (eapply no_header || eapply no_status || eapply no_votes; eassumption).
  assert (Hpar : match list.last P with
     | None => if bool_decide (BlockHash (Header n) = genesisHash) then Ok None else Err AssertError
     | Some last =>
         if bool_decide (bh_PrevBlock (Header n) = hash last) then Ok (Some last)
         else match LookupNode bi' (bh_PrevBlock (Header n)) with
              | None => Err AssertError
              | Some p => Ok (Some p)
              end
     end = Ok (E := rule_error) (parent n)).
  { pose proof (no_parent _ _ _ Hok) as Hpo. destruct (parent n) as [p|] eqn:Hp.
    - pose proof (parent_before P n S p E Hp) as HpP. destruct (list.last P) as [last|] eqn:Hlast.
      2:{ apply last_None in Hlast. subst P. by apply elem_of_nil in HpP. }
      apply last_Some_elem_of in Hlast. assert (Hprev : bh_PrevBlock (Header n) = hash p) by (unfold Header; cbn; by rewrite Hp).
      rewrite Hprev. case_bool_decide as Heq.
      + f_equal. f_equal. symmetry. apply same_hash; [by apply HL| |done]. rewrite E. set_solver.
      + unfold LookupNode. by rewrite (proj2 (ld_index _ _ _ Hld (hash p) p)).
    - rewrite (no_id _ _ _ Hok). destruct (list.last P) as [last|] eqn:Hlast; [|by rewrite bool_decide_true].
      exfalso. destruct P as [|g P]; [done|].
      assert (Hg : g ∈ L) by (rewrite E; set_solver). pose proof (listed g Hg) as Hgo.
      pose proof (no_parent _ _ _ Hgo) as Hgp. destruct (parent g) as [q|] eqn:Hq.
      + apply (parent_before [] g (P ++ n :: S) q) in Hq; [|done]. by apply elem_of_nil in Hq.
      + assert (g = n) as -> by (apply same_hash; congruence). rewrite E in Hnd.
        apply list.NoDup_cons in Hnd as [Hnin _]. apply Hnin. set_solver. }
  rewrite Hpar. cbn [rbind]. rewrite (renew_node _ _ _ Hok).
  replace (Some n) with (list.last (P ++ [n])) by apply last_snoc.
  apply IH; [by rewrite <- app_assoc|]. apply loaded_step; [done|].
  intros m Hm Heq. assert (m = n) as -> by (apply same_hash; [rewrite E; set_solver|done|done]).
  rewrite E in Hnd. apply list.NoDup_app in Hnd as (_ & Hdis & _). apply (Hdis n Hm). left.
Qed.
End Load.

Lemma load_index bi rows :
  index_stored bi rows -> dirty bi = ∅ ->
  exists bi', load_rows genesisHash (cursor_entries rows) None newBlockIndex = Ok bi' /\
    index bi' = index bi /\ dirty bi' = ∅ /\ forall h n, index bi !! h = Some n -> NodeStatus bi' n = NodeStatus bi n.
Proof.
  intros Hs Hd. destruct (cursor_nodes bi rows Hs Hd) as (L & HL & Hnd & Hin).
  destruct (load_rows_stored bi rows L Hs Hnd Hin) with (S := L) (P := @nil blockNode) (bi' := newBlockIndex)
    as (bi' & Hl & [Hi Hst Hdi]); [rewrite <- HL; apply cursor_sorted|done| |].
  { split; [|intros n Hn; by apply elem_of_nil in Hn|done]. intros h n. cbn [newBlockIndex index]. rewrite lookup_empty.
    split; [done|]. intros [Hn _]. by apply elem_of_nil in Hn. }
  rewrite HL. exists bi'. split; [done|]. split; [|split; [done|]].
  - apply map_eq. intros h. apply option_eq. intros n. rewrite Hi, Hin. split.
    + intros [Hn <-]. done.
    + intros Hn. split; [by eapply index_nodes|]. apply (no_hash _ _ _ (is_nodes _ _ Hs h n Hn)).
  - intros h n Hn. unfold NodeStatus at 1. rewrite Hst; [done|]. apply Hin. by eapply index_nodes.
Qed.

(** ** The state of a running node *)

(** A block the database can hold. *)
Record stored_block (b : MsgBlock) : Prop := {
  sb_body : block_body_ok WitnessEncoding (mb_Header b) (mb_Transactions b);
  sb_size : zlen (MsgBlock_BtcEncode WitnessEncoding b) < 2 ^ 63
}.

(** The block of a node, as it is stored. *)
Definition block_of (db : ChainDB) (n : blockNode) (b : MsgBlock) : Prop :=
  stored_block b /\ mb_Header b = Header n /\ blockData db !! hash n = Some (MsgBlock_BtcEncode WitnessEncoding b).

Lemma block_of_data db db' n b : blockData db' = blockData db -> block_of db n b -> block_of db' n b.
Proof. intros Hb. unfold block_of. by rewrite Hb. Qed.

(** Index, view and snapshot of a node whose best block is [t], and their
    counterparts in the database. *)
Record durable (bi : blockIndex) (s : chainStore) (t : blockNode) : Prop := {
  du_index : index_stored bi (blockIndexRows (s_db s));
  du_blocks : forall h n, index bi !! h = Some n -> exists b, block_of (s_db s) n b;
  du_known : forall h, is_Some (blockData (s_db s) !! h) -> is_Some (index bi !! h);
  du_tip : index bi !! hash t = Some t;
  du_view : view_of (s_bestChain s) (Some t);
  du_valid : forall n, n ∈ chain_of t -> KnownValid (NodeStatus bi n) = true;
  du_snapshot : exists b total, is_u64 total /\ block_of (s_db s) t b /\
    s_snapshot s = best_state_of t b (Header t) total (Votes t);
  du_state : chainState (s_db s) = chainState (dbPutBestState (s_snapshot s) (s_db s))
}.

Lemma chain_indexed bi rows t n :
  index_stored bi rows -> index bi !! hash t = Some t -> n ∈ chain_of t -> index bi !! hash n = Some n.
Proof.
  intros Hs. induction t as [d|d p IH]; intros Ht Hn; cbn [chain_of] in Hn.
  - apply list_elem_of_singleton in Hn. by subst n.
  - apply elem_of_cons in Hn as [-> |Hn]; [done|]. apply IH; [|done].
    exact (no_parent _ _ _ (is_nodes _ _ Hs _ _ Ht)).
Qed.

Lemma mark_valid_id t bi : (forall n, n ∈ chain_of t -> KnownValid (NodeStatus bi n) = true) -> mark_valid t bi = bi.
Proof.
  induction t as [d|d p IH]; intros Hv; cbn [mark_valid]; rewrite Hv by left; [done|].
  apply IH. intros n Hn. apply Hv. by right.
Qed.

Lemma encode_size b : stored_block b ->
  zlen (MsgBlock_BtcEncode WitnessEncoding b) = u64 (MsgBlock_SerializeSize b).
Proof.
  intros [Hb Hs]. unfold MsgBlock_BtcEncode in *. rewrite (zlen_write_block_body _ _ _ Hb) in *.
  change (blockHeaderLen + _ + _) with (MsgBlock_SerializeSize b) in *.
  symmetry. apply u64_small. pose proof (zlen_write_block_body _ _ _ Hb) as Hz.
  change (blockHeaderLen + _ + _) with (MsgBlock_SerializeSize b) in Hz. unfold zlen in Hz. widths. lia.
Qed.

Lemma decode_stored b : stored_block b ->
  MsgBlock_BtcDecode WitnessEncoding (MsgBlock_BtcEncode WitnessEncoding b) = Ok (b, []).
Proof.
  intros [Hb _]. rewrite <- (app_nil_r (MsgBlock_BtcEncode _ _)).
  exact (codec_read_write (H := block_codec WitnessEncoding) b [] Hb).
Qed.

(** What the stored state of a snapshot reads back as, as far as it is used. *)
Lemma stored_state bi n total :
  node_ok bi (hash n) n -> is_u64 total ->
  exists st, deserializeBestChainState
      (serializeBestChainState (mkBestChainState (hash n) (u32 (height n)) total (bh_Scale (Header n)) (bh_Reserved (Header n))
         (Votes n) (bh_Signature (Header n)) (bh_PublicKey (Header n)))) = Ok st /\
    bcs_hash st = hash n /\ bcs_totalTxns st = total.
Proof.
  intros Hn Ht. rewrite best_state_roundtrip.
  - eexists. split; [done|]. by cbn.
  - pose proof (no_header _ _ _ Hn) as Hh. destruct (node_height _ _ _ Hn) as [Hu Hu'].
    split; cbn [bcs_hash bcs_height bcs_totalTxns bcs_scale bcs_reserved bcs_votes bcs_signature bcs_pubKey];
      try (by apply Hh); [by eapply no_hash_ok|apply u32_range|done|by eapply no_votes].
Qed.

Lemma restart_state genesisBlock bi s t :
  durable bi s t -> dirty bi = ∅ ->
  exists bi', initChainState genesisBlock genesisHash (s_db s) = Ok (bi', s) /\
    index bi' = index bi /\ dirty bi' = ∅ /\ forall h n, index bi !! h = Some n -> NodeStatus bi' n = NodeStatus bi n.
Proof.
  intros Hd Hclean. destruct (load_index bi _ (du_index _ _ _ Hd) Hclean) as (bi' & Hload & Hi & Hdi & Hst).
  destruct (du_snapshot _ _ _ Hd) as (b & total & Htot & (Hsb & Hhd & Hdata) & Hsnap).
  pose proof (is_nodes _ _ (du_index _ _ _ Hd) _ _ (du_tip _ _ _ Hd)) as Hok.
  exists bi'. split; [|done]. unfold initChainState. rewrite (du_state _ _ _ Hd), Hsnap. cbn [dbPutBestState set_state chainState].
  destruct (stored_state bi t total Hok Htot) as (st & Hdes & Hhash & Htx).
  unfold best_state_of, newBestState. cbn [bs_Hash bs_Height bs_TotalTxns bs_Scale bs_Reserved bs_Votes bs_Signature bs_PubKey].
  rewrite Hdes. cbn [rbind]. rewrite Hload. cbn [rbind]. rewrite Hhash, Htx. unfold LookupNode. rewrite Hi, (du_tip _ _ _ Hd).
  rewrite (setTip_view (E := rule_error) (mkChainView []) None t eq_refl (no_chain _ _ _ Hok) (no_height _ _ _ Hok)).
  cbn [rbind]. rewrite Hdata, (decode_stored b Hsb). f_equal.
  rewrite mark_valid_id.
  2:{ intros n Hn. rewrite (Hst (hash n)); [by apply (du_valid _ _ _ Hd)|].
      eapply chain_indexed; [apply (du_index _ _ _ Hd)|apply (du_tip _ _ _ Hd)|done]. }
  unfold flush_index. rewrite bool_decide_true by done. f_equal. destruct s as [db c snap]. cbn [s_db s_bestChain s_snapshot] in *.
  f_equal.
  - destruct (du_view _ _ _ Hd) as (_ & _ & Hc). cbn in Hc. destruct c. cbn in Hc. by subst.
  - rewrite Hsnap. unfold best_state_of, newBestState. by rewrite (encode_size b Hsb).
Qed.

(** ** Writing the index *)

Definition flush_one (bi : blockIndex) (h : Hash) (db : ChainDB) : ChainDB :=
  match index bi !! h with Some node => dbStoreBlockNode node (NodeStatus bi node) db | None => db end.

Lemma flush_rows_fields bi db :
  chainState (flush_rows bi db) = chainState db /\ blockData (flush_rows bi db) = blockData db.
Proof.
  unfold flush_rows. induction (elements (dirty bi)) as [|h l IH]; [done|]. cbn [foldr].
  destruct (index bi !! h); [|done]. exact IH.
Qed.

Lemma flush_list bi l db :
  (forall h n, index bi !! h = Some n -> node_ok bi h n) ->
  let rows := blockIndexRows (foldr (flush_one bi) db l) in
  (forall h n, index bi !! h = Some n -> h ∈ l -> rows !! row_key n = Some (block_row n (NodeStatus bi n))) /\
  (forall h n, index bi !! h = Some n -> (h ∉ l) -> rows !! row_key n = blockIndexRows db !! row_key n) /\
  (forall k v, rows !! k = Some v -> blockIndexRows db !! k = Some v \/ exists h n, index bi !! h = Some n /\ k = row_key n).
Proof.
  intros Hok. cbv zeta. induction l as [|x l (IH1 & IH2 & IH3)]; cbn [foldr].
  { split; [intros h n _ Hin; by apply elem_of_nil in Hin|]. split; [done|]. by left. }
  unfold flush_one at 1 3 5. destruct (index bi !! x) as [m|] eqn:Hx.
  - cbn [dbStoreBlockNode set_rows blockIndexRows]. change (blockIndexKey (hash m) (u32 (height m))) with (row_key m).
    assert (Hkey : forall h n, index bi !! h = Some n -> row_key m = row_key n -> h = x /\ n = m).
    { intros h n Hn E. pose proof (row_key_inj _ _ _ _ _ (Hok x m Hx) (Hok h n Hn) E) as ->. split; congruence. }
    split; [|split].
    + intros h n Hn Hin. destruct (decide (row_key m = row_key n)) as [E|E].
      * destruct (Hkey h n Hn E) as [-> ->]. apply lookup_insert_eq.
      * rewrite lookup_insert_ne by done. apply (IH1 h); [done|]. apply elem_of_cons in Hin as [-> |?]; [|done]. congruence.
    + intros h n Hn Hnin. apply not_elem_of_cons in Hnin as [Hne Hnin].
      rewrite lookup_insert_ne; [by apply (IH2 h)|]. intros E. by destruct (Hkey h n Hn E).
    + intros k v Hk. apply lookup_insert_Some in Hk as [[<- <-]|[_ Hk]]; [right; by exists x, m|by apply IH3].
  - split; [|split; [|done]].
    + intros h n Hn Hin. apply (IH1 h); [done|]. apply elem_of_cons in Hin as [-> |?]; [congruence|done].
    + intros h n Hn Hnin. apply (IH2 h); [done|]. by apply not_elem_of_cons in Hnin as [_ ?].
Qed.

Lemma flush_stored bi db :
  index_stored bi (blockIndexRows db) ->
  index_stored (mkBlockIndex (index bi) (status bi) ∅) (blockIndexRows (flush_rows bi db)).
Proof.
  intros [Hn Hw Hk]. destruct (flush_list bi (elements (dirty bi)) db Hn) as (H1 & H2 & H3).
  change (foldr (flush_one bi) db (elements (dirty bi))) with (flush_rows bi db) in *. split.
  - intros h n Hin. cbn [index] in Hin. destruct (Hn h n Hin). by split.
  - cbn [index]. intros h n Hin _. change (NodeStatus (mkBlockIndex _ _ _) n) with (NodeStatus bi n).
    destruct (decide (h ∈ dirty bi)) as [Hd|Hd].
    + apply (H1 h); [done|]. by apply elem_of_elements.
    + rewrite (H2 h) by (try done; by rewrite elem_of_elements). by apply (Hw h).
  - cbn [index]. intros k v Hkv. destruct (H3 k v Hkv) as [Hold|Hnew]; [by apply (Hk k v)|done].
Qed.

(** A change of the index and of its rows that keeps the nodes, the blocks and
    the stored best state. *)
Lemma durable_move bi s t bi' db' :
  durable bi s t -> index bi' = index bi -> (forall n, n ∈ chain_of t -> KnownValid (NodeStatus bi' n) = true) ->
  index_stored bi' (blockIndexRows db') -> blockData db' = blockData (s_db s) -> chainState db' = chainState (s_db s) ->
  durable bi' (set_db db' s) t.
Proof.
  intros [] Hi Hv Hs Hb Hc. assert (Hbo : forall n b, block_of (s_db s) n b -> block_of db' n b) by (unfold block_of; by rewrite Hb).
  split; cbn [set_db s_db s_bestChain s_snapshot]; rewrite ?Hi, ?Hb, ?Hc; try done.
  - intros h n Hn. destruct (du_blocks0 h n Hn) as [b ?]. eauto.
  - destruct du_snapshot0 as (b & total & Ht & Hbt & Hsn). by eauto 6.
Qed.

Lemma flush_durable bi s t bi' s' :
  durable bi s t -> flush_index bi s = (bi', s') ->
  durable bi' s' t /\ dirty bi' = ∅ /\ index bi' = index bi /\ blockData (s_db s') = blockData (s_db s).
Proof.
  intros Hd. unfold flush_index. case_bool_decide as Hcl; [intros [= <- <-]; done|]. cbn [ChainIO.flushToDB]. intros [= <- <-].
  destruct (flush_rows_fields bi (s_db s)) as [Hc Hb]. split; [|done].
  apply (durable_move bi); try done; [apply (du_valid _ _ _ Hd)|]. apply flush_stored, Hd.
Qed.

Lemma lor_u8 a b : is_u8 a -> is_u8 b -> is_u8 (Z.lor a b).
Proof.
  intros Ha Hb. destruct (Z.eq_dec (Z.lor a b) 0) as [->|Hne]; [split; [done|reflexivity]|].
  pose proof (proj2 (Z.lor_nonneg a b) (conj (proj1 Ha) (proj1 Hb))). split; [done|].
  apply Z.log2_lt_pow2; [lia|]. rewrite Z.log2_lor by (destruct Ha, Hb; lia).
  assert (Hlog : forall x, is_u8 x -> Z.log2 x < 8).
  { intros x [Hx0 Hx1]. destruct (Z.eq_dec x 0) as [->|]; [reflexivity|]. apply Z.log2_lt_pow2; lia. }
  pose proof (Hlog a Ha). pose proof (Hlog b Hb). lia.
Qed.

Lemma KnownValid_lor a b : KnownValid a = true -> KnownValid (Z.lor a b) = true.
Proof.
  unfold KnownValid. rewrite !negb_true_iff, !Z.eqb_neq. intros Ha E. apply Ha.
  rewrite Z.land_comm, Z.land_lor_distr_r in E. apply Z.lor_eq_0_iff in E as [E _]. by rewrite Z.land_comm.
Qed.

Lemma KnownValid_set a : KnownValid (Z.lor a statusValid) = true.
Proof.
  unfold KnownValid. rewrite negb_true_iff, Z.eqb_neq. intros E.
  rewrite Z.land_comm, Z.land_lor_distr_r in E. by apply Z.lor_eq_0_iff in E as [_ E].
Qed.

Lemma NodeStatus_set n m fl bi :
  NodeStatus (SetStatusFlags m fl bi) n = if decide (hash m = hash n) then Z.lor (NodeStatus bi m) fl else NodeStatus bi n.
Proof.
  unfold NodeStatus at 1. cbn [SetStatusFlags status]. destruct (decide (hash m = hash n)) as [->|Hne].
  - by rewrite lookup_insert_eq.
  - by rewrite lookup_insert_ne.
Qed.

Lemma flags_durable bi s t node fl :
  durable bi s t -> index bi !! hash node = Some node -> is_u8 fl -> durable (SetStatusFlags node fl bi) s t.
Proof.
  intros Hd Hin Hfl. assert (Hmono : forall n, KnownValid (NodeStatus bi n) = true -> KnownValid (NodeStatus (SetStatusFlags node fl bi) n) = true).
  { intros n Hv. rewrite NodeStatus_set. destruct (decide _) as [E|]; [|done]. apply KnownValid_lor.
    unfold NodeStatus in *. by rewrite E. }
  replace s with (set_db (s_db s) s) by by destruct s.
  apply (durable_move bi); try done; [intros n Hn; by apply Hmono, (du_valid _ _ _ Hd)|].
  destruct (du_index _ _ _ Hd) as [Hn Hw Hk]. split; [| |done].
  - intros h n Hh. cbn [SetStatusFlags index] in Hh. destruct (Hn h n Hh) as [H1 H2 H3 H4 H5 H6 H7 H8 H9].
    split; try done. rewrite NodeStatus_set. destruct (decide _); [|done]. apply lor_u8; [|done].
    by eapply no_status, Hn.
  - cbn [SetStatusFlags index dirty]. intros h n Hh Hnd. rewrite NodeStatus_set. destruct (decide _) as [E|].
    + exfalso. apply Hnd. pose proof (no_hash _ _ _ (Hn h n Hh)). set_solver.
    + apply (Hw h); [done|]. set_solver.
Qed.

(** ** Connecting a block *)

Section Connect.
Context `{ScriptHashes} `{Curve} `{Platform} `{MapOrder} `{OutPointOrder}.
Context (params : Params) (sigCache : option SigCache).

Lemma put_view_fields view db db' :
  dbPutUtxoView view db = Ok db' ->
  blockIndexRows db' = blockIndexRows db /\ blockData db' = blockData db /\ chainState db' = chainState db.
Proof. by intros [b ->]%put_view_only. Qed.

(** A known node on top of the tip, with its stored block. *)
Record next_node (bi : blockIndex) (s : chainStore) (t node : blockNode) (block : MsgBlock) (votes : Z) : Prop := {
  nn_index : index bi !! hash node = Some node;
  nn_block : block_of (s_db s) node block;
  nn_votes : votes = Votes node;
  nn_parent : parent node = Some t
}.

Lemma next_header bi s t node block votes :
  durable bi s t -> next_node bi s t node block votes ->
  mb_Header block = Header node /\ BlockHash (mb_Header block) = hash node.
Proof.
  intros Hd [Hi (_ & Hh & _) _ _]. split; [done|]. rewrite Hh.
  apply (no_id _ _ _ (is_nodes _ _ (du_index _ _ _ Hd) _ _ Hi)).
Qed.

Lemma connectBlock_durable bi s t node block votes view stxos r bi' s' :
  durable bi s t -> dirty bi = ∅ -> next_node bi s t node block votes -> KnownValid (NodeStatus bi node) = true ->
  connectBlock node block votes view stxos bi s = (r, (bi', s')) ->
  bi' = bi /\ durable bi s' (if is_ok r then node else t) /\ blockData (s_db s') = blockData (s_db s).
Proof.
  intros Hd Hcl Hnn Hv Hc. destruct (next_header _ _ _ _ _ _ Hd Hnn) as [Hh Hid]. destruct Hnn as [Hi Hb Hvo Hp].
  unfold connectBlock in Hc. rewrite (view_tip _ _ (du_view _ _ _ Hd)) in Hc.
  destruct (negb _); [by injection Hc as <- <- <-|]. destruct (countSpentOutputs block) as [n|e|]; [|by injection Hc as <- <- <-|by injection Hc as <- <- <-].
  destruct (negb _); [by injection Hc as <- <- <-|].
  unfold flush_index in Hc. rewrite bool_decide_true in Hc by done.
  destruct (dbPutUtxoView _ _) as [db|e|] eqn:Hput; [|by injection Hc as <- <- <-|by injection Hc as <- <- <-].
  pose proof (is_nodes _ _ (du_index _ _ _ Hd) _ _ Hi) as Hok.
  rewrite (setTip_view (E := rule_error) _ (Some t) node (du_view _ _ _ Hd) (no_chain _ _ _ Hok) (no_height _ _ _ Hok)) in Hc.
  apply put_view_fields in Hput as (Hrows & Hdata & Hstate). set (total := u64 _) in *.
  injection Hc as <- <- <-. cbn [is_ok]. split; [done|]. split; [|cbn; by rewrite Hdata].
  destruct Hd. cbn [dbPutBlockIndex set_heights dbPutBestState set_state blockIndexRows blockData chainState] in *.
  assert (Hbo : forall n b, block_of (s_db s) n b ->
    block_of (dbPutSpendJournalEntry (BlockHash (mb_Header block)) stxos db) n b) by (unfold block_of; cbn; by rewrite Hdata).
  split; cbn [s_db s_bestChain s_snapshot dbPutSpendJournalEntry set_spendJournal blockIndexRows blockData chainState]; try done.
  - by rewrite Hrows.
  - intros h m Hm. destruct (du_blocks0 h m Hm) as [b ?]. exists b. by apply Hbo.
  - rewrite Hdata. done.
  - split; [apply Hok|]. split; [apply Hok|done].
  - intros m Hm. destruct node as [d|d p]; [done|]. injection Hp as ->. cbn [chain_of] in Hm.
    apply elem_of_cons in Hm as [-> |Hm]; [done|]. by apply du_valid0.
  - exists block, total. split; [apply u64_range|]. split; [by apply Hbo|]. by rewrite Hh, Hvo.
Qed.

Lemma connect_durable bi s t node block r bi' s' :
  durable bi s t -> dirty bi = ∅ -> index bi !! hash node = Some node -> block_of (s_db s) node (b_MsgBlock block) ->
  b_Votes block = Votes node -> (exists p, parent node = Some p) ->
  connect_best_chain params sigCache node block bi s = (r, (bi', s')) ->
  durable bi' s' (if is_ok r then node else t) /\ dirty bi' = ∅.
Proof.
  intros Hd Hcl Hi Hb Hvo [p Hp] Hc. pose proof (is_nodes _ _ (du_index _ _ _ Hd) _ _ Hi) as Hok.
  unfold connect_best_chain in Hc. rewrite (view_tip _ _ (du_view _ _ _ Hd)) in Hc.
  case_bool_decide as Hprev; [|by injection Hc as <- <- <-].
  assert (p = t) as ->.
  { pose proof (no_parent _ _ _ Hok) as Hpo. rewrite Hp in Hpo. destruct Hb as (_ & Hh & _).
    rewrite Hh in Hprev. unfold Header in Hprev. cbn in Hprev. rewrite Hp in Hprev. pose proof (du_tip _ _ _ Hd). congruence. }
  destruct (countSpentOutputs _); [|by injection Hc as <- <- <-|by injection Hc as <- <- <-].
  destruct (checkConnectBlock _ _ _ _ _ _ _ _) as [[view stxos]|e|]; [| |by injection Hc as <- <- <-].
  2:{ destruct (is_RuleError e); [|by injection Hc as <- <- <-].
      destruct (flush_index _ s) as [bi1 s1] eqn:Hf. injection Hc as <- <- <-.
      eapply flush_durable in Hf as (Hd1 & Hc1 & _); [done|]. apply flags_durable; [done|done|split; [done|reflexivity]]. }
  destruct (flush_index _ s) as [bi1 s1] eqn:Hf.
  pose proof (flush_index_store _ _ _ _ Hf) as (_ & _ & _ & Hst & _).
  eapply flush_durable in Hf as (Hd1 & Hc1 & Hi1 & Hdata1); [|apply flags_durable; [done|done|split; [done|reflexivity]]].
  assert (Hv : KnownValid (NodeStatus bi1 node) = true).
  { unfold NodeStatus. rewrite Hst. change (default statusNone _) with (NodeStatus (SetStatusFlags node statusValid bi) node).
    rewrite NodeStatus_set, decide_True by done. apply KnownValid_set. }
  assert (Hnn : next_node bi1 s1 t node (b_MsgBlock block) (b_Votes block)).
  { split; [by rewrite Hi1| |done|done]. unfold block_of in *. by rewrite Hdata1. }
  destruct (connectBlock _ _ _ _ _ bi1 s1) as [r2 [bi2 s2]] eqn:Hcb.
  destruct (connectBlock_durable _ _ _ _ _ _ _ _ _ _ _ Hd1 Hc1 Hnn Hv Hcb) as (-> & Hd2 & _).
  destruct r2 as [v|e|]; cbn [is_ok] in Hd2.
  - rewrite Hv in Hc. cbn [negb] in Hc. by injection Hc as <- <- <-.
  - destruct (flush_index _ s2) as [bi3 s3] eqn:Hf3. injection Hc as <- <- <-. cbn [is_ok].
    eapply flush_durable in Hf3 as (Hd3 & Hc3 & _); [done|]. destruct (is_RuleError e); [|done].
    apply flags_durable; [done|by rewrite Hi1|split; [done|reflexivity]].
  - by injection Hc as <- <- <-.
Qed.

(** ** Accepting a block *)

(** A block that arrives: one that can be stored and is not in the index. *)
Record new_block (bi : blockIndex) (prev : blockNode) (block : Block) : Prop := {
  nb_stored : stored_block (b_MsgBlock block);
  nb_votes : is_u16 (b_Votes block);
  nb_new : index bi !! Block_Hash block = None;
  nb_prev : index bi !! b_PrevBlock block = Some prev;
  nb_height : height prev + 1 < 2 ^ 31 - 1
}.

Lemma new_node_ok bi s t prev block :
  durable bi s t -> new_block bi prev block ->
  let node := newBlockNode (b_Header block) (Some prev) (b_Votes block) in
  Header node = b_Header block /\ hash node = Block_Hash block /\ chain_ok node /\ height node < 2 ^ 31 - 1.
Proof.
  intros Hd [Hs Hv Hn Hp Hh] node. pose proof (is_nodes _ _ (du_index _ _ _ Hd) _ _ Hp) as Hok.
  pose proof (chain_ok_height prev (no_chain _ _ _ Hok)) as H0'.
  assert (Hhgt : height node = height prev + 1) by (unfold node, height; cbn; apply i32_small; widths; unfold height in *; lia).
  split; [|split; [done|split; [|lia]]].
  - unfold node, Header. cbn. rewrite (no_hash _ _ _ Hok). unfold b_PrevBlock. by destruct (b_Header block).
  - apply newBlockNode_ok. split; [apply Hok|lia].
Qed.

Lemma add_durable bi s t prev block :
  durable bi s t -> new_block bi prev block ->
  let node := newBlockNode (b_Header block) (Some prev) (b_Votes block) in
  let db := dbStoreBlock (b_MsgBlock block) (s_db s) in
  durable (AddNode node statusDataStored bi) (set_db db s) t /\ block_of db node (b_MsgBlock block).
Proof.
  intros Hd Hnb node db. destruct (new_node_ok _ _ _ _ _ Hd Hnb) as (Hhd & Hhs & Hch & Hhb). fold node in Hhd, Hhs, Hch, Hhb.
  destruct Hnb as [Hs Hv Hn Hp Hh]. rewrite <- Hhs in Hn.
  assert (Hdb : db = set_blocks (<[hash node := MsgBlock_BtcEncode WitnessEncoding (b_MsgBlock block)]> (blockData (s_db s))) (s_db s)).
  { unfold db, dbStoreBlock. rewrite bool_decide_false; [done|]. intros Hsome. change (BlockHash _) with (hash node) in Hsome.
    apply (du_known _ _ _ Hd) in Hsome. rewrite Hn in Hsome. by destruct Hsome. }
  assert (Hfresh : forall h m, index bi !! h = Some m -> hash node <> h) by (intros h m Hm E; rewrite E in Hn; congruence).
  assert (Hbo : forall m b, index bi !! hash m = Some m -> block_of (s_db s) m b -> block_of db m b).
  { intros m b Hm (H1' & H2' & H3'). split; [done|]. split; [done|]. rewrite Hdb. cbn.
    rewrite lookup_insert_ne by (by eapply Hfresh). done. }
  assert (Hnew : block_of db node (b_MsgBlock block)).
  { split; [done|]. split; [done|]. rewrite Hdb. cbn. apply lookup_insert_eq. }
  split; [|done]. assert (Hstat : forall m, index bi !! hash m = Some m -> NodeStatus (AddNode node statusDataStored bi) m = NodeStatus bi m).
  { intros m Hm. unfold NodeStatus. cbn [AddNode status addNode].
    rewrite lookup_insert_ne by (by eapply Hfresh). done. }
  pose proof (du_index _ _ _ Hd) as Hst.
  split; cbn [set_db s_db s_bestChain s_snapshot AddNode addNode index].
  - rewrite Hdb. cbn [set_blocks blockIndexRows]. split; cbn [AddNode addNode index dirty].
    + intros h m Hm. apply lookup_insert_Some in Hm as [[<- <-]|[Hne Hm]].
      * split; try done; [rewrite Hhs; apply DoubleHashH_ok|rewrite Hhd; apply Hs|by rewrite Hhd, Hhs| |].
        { unfold NodeStatus. cbn [AddNode status addNode]. rewrite lookup_insert_eq. split; [done|reflexivity]. }
        cbn [parent node newBlockNode make_node AddNode addNode index].
        rewrite (no_hash _ _ _ (is_nodes _ _ Hst _ _ Hp)), lookup_insert_ne; [done|]. by eapply Hfresh.
      * destruct (is_nodes _ _ Hst h m Hm) as [N1 N2 N3 N4 N5 N6 N7 N8 N9]. split; try done.
        { rewrite Hstat; [done|]. by rewrite N1. }
        destruct (parent m) as [q|]; [|done]. cbn [AddNode addNode index]. rewrite lookup_insert_ne; [done|].
        by eapply Hfresh.
    + intros h m Hm Hnd. apply lookup_insert_Some in Hm as [[<- <-]|[Hne Hm]]; [set_solver|].
      rewrite Hstat by (by eapply index_nodes). apply (is_written _ _ Hst h m Hm). set_solver.
    + intros k v Hk. destruct (is_known _ _ Hst k v Hk) as (h & m & Hm & ->). exists h, m. split; [|done].
      rewrite lookup_insert_ne; [done|]. by eapply Hfresh.
  - intros h m Hm. apply lookup_insert_Some in Hm as [[<- <-]|[Hne Hm]]; [by eexists|].
    destruct (du_blocks _ _ _ Hd h m Hm) as [b Hb]. exists b. apply Hbo; [by eapply index_nodes|done].
  - intros h. rewrite Hdb. cbn [set_blocks blockData]. destruct (decide (hash node = h)) as [<-|Hne].
    + rewrite !lookup_insert_eq. by eexists.
    + rewrite !lookup_insert_ne by done. apply (du_known _ _ _ Hd).
  - rewrite lookup_insert_ne; [apply (du_tip _ _ _ Hd)|]. eapply Hfresh, (du_tip _ _ _ Hd).
  - apply (du_view _ _ _ Hd).
  - intros m Hm. rewrite Hstat; [by apply (du_valid _ _ _ Hd)|]. eapply chain_indexed; [done|apply (du_tip _ _ _ Hd)|done].
  - destruct (du_snapshot _ _ _ Hd) as (b & total & Ht & Hb & Hsn). exists b, total. split; [done|]. split; [|done].
    apply Hbo; [apply (du_tip _ _ _ Hd)|done].
  - rewrite Hdb. cbn [set_blocks chainState]. exact (du_state _ _ _ Hd).
Qed.

Abbreviation chain := (@BlockChain (chain_backend params sigCache)) (only parsing).

Definition chain_store (bc : chain) : chainStore := bc_backend bc.

(** The state of a node between two blocks. *)
Definition at_rest (bc : chain) (t : blockNode) : Prop :=
  durable (bc_index bc) (chain_store bc) t /\ dirty (bc_index bc) = ∅.

(** A block fit for the database, below the limit of heights. *)
Record arriving (bc : chain) (block : Block) : Prop := {
  ar_stored : stored_block (b_MsgBlock block);
  ar_votes : is_u16 (b_Votes block);
  ar_new : index (bc_index bc) !! Block_Hash block = None;
  ar_height : forall prev, index (bc_index bc) !! b_PrevBlock block = Some prev -> height prev + 1 < 2 ^ 31 - 1
}.

Lemma accept_at_rest (bc : chain) t block r bc' :
  at_rest bc t -> arriving bc block -> maybeAcceptBlock block bc = (r, bc') ->
  exists t', at_rest bc' t' /\ (is_ok r = false -> t' = t) /\
    (is_ok r = true -> hash t' = Block_Hash block).
Proof.
  intros [Hd Hcl] [Hs Hv Hn Hh] Ha. unfold maybeAcceptBlock in Ha.
  destruct (LookupNode (bc_index bc) (b_PrevBlock block)) as [prev|] eqn:Hp; [|injection Ha as <- <-; by exists t].
  destruct (KnownInvalid _); [injection Ha as <- <-; by exists t|].
  unfold cbind at 1, cret in Ha. destruct (checkBlockContext (b_MsgBlock block) prev) as [u|e|];
    [|injection Ha as <- <-; by exists t|injection Ha as <- <-; by exists t].
  assert (Hnb : new_block (bc_index bc) prev block) by (split; [done|done|done|done|by apply Hh]).
  destruct (add_durable _ _ _ _ _ Hd Hnb) as [Hadd Hblk].
  destruct (new_node_ok _ _ _ _ _ Hd Hnb) as (_ & Hhash & _ & _).
  set (node := newBlockNode (b_Header block) (Some prev) (b_Votes block)) in *.
  set (bi1 := AddNode node statusDataStored (bc_index bc)) in *.
  set (s1 := set_db (dbStoreBlock (b_MsgBlock block) (s_db (chain_store bc))) (chain_store bc)) in *.
  assert (Hdirty : bool_decide (dirty bi1 = ∅) = false).
  { apply bool_decide_eq_false. unfold bi1. cbn [AddNode dirty]. set_solver. }
  assert (Hflush : flush_index bi1 s1 = (mkBlockIndex (index bi1) (status bi1) ∅, set_db (flush_rows bi1 (s_db s1)) s1))
    by (unfold flush_index; by rewrite Hdirty).
  destruct (flush_durable _ _ _ _ _ Hadd Hflush) as (Hd1 & Hcl1 & Hi1 & Hdata1).
  unfold cbind, update_store, flushToDB, update_store, set_store in Ha. cbn [be_store_block chain_backend rbind bc_index bc_backend be_flush] in Ha.
  change (AddNode node statusDataStored (bc_index bc)) with bi1 in Ha. rewrite Hdirty in Ha. cbn [rbind bc_index bc_backend] in Ha.
  unfold connectBestChain, set_store in Ha. cbn [bc_index bc_backend be_connect chain_backend] in Ha.
  destruct (connect_best_chain _ _ _ _ _ _) as [r2 [bi2 s2]] eqn:Hc. injection Ha as <- <-.
  eapply (connect_durable _ _ t) in Hc; [|exact Hd1|done| | |done|by eexists].
  - destruct Hc as [Hd2 Hcl2]. exists (if is_ok r2 then node else t). split; [done|]. by destruct (is_ok r2).
  - rewrite Hi1. unfold bi1. cbn [AddNode addNode index]. apply lookup_insert_eq.
  - exact (block_of_data _ _ _ _ Hdata1 Hblk).
Qed.

(** The states of a node that started on an empty database and received
    blocks, whatever became of them. *)
Inductive running (genesisBlock : MsgBlock) : chain -> Prop :=
  | run_start db bi s orphs prevs best :
      createChainState genesisBlock db = Ok (bi, s) -> chainState db = None -> blockData db = ∅ ->
      running genesisBlock (@mkBlockChain (chain_backend params sigCache) bi orphs prevs best s)
  | run_block bc block r bc' :
      running genesisBlock bc -> arriving bc block -> maybeAcceptBlock block bc = (r, bc') -> running genesisBlock bc'
  | run_pool bc orphs prevs best :
      running genesisBlock bc -> running genesisBlock (mkBlockChain (bc_index bc) orphs prevs best (bc_backend bc)).

(** A genesis block as the parameters of a network have it. *)
Record genesis_ok (genesisBlock : MsgBlock) : Prop := {
  go_stored : stored_block genesisBlock;
  go_hash : BlockHash (mb_Header genesisBlock) = genesisHash;
  go_prev : bh_PrevBlock (mb_Header genesisBlock) = zero_hash
}.

Lemma sort_times_one x : sort_times [x] = [x].
Proof. reflexivity. Qed.

Lemma create_durable genesisBlock db :
  genesis_ok genesisBlock -> blockData db = ∅ ->
  exists bi s, createChainState genesisBlock db = Ok (bi, s) /\ dirty bi = ∅ /\
    durable bi s (newBlockNode (mb_Header genesisBlock) None 1).
Proof.
  intros [Hs Hg Hp] Hempty. set (header := mb_Header genesisBlock) in *. set (g := newBlockNode header None 1).
  assert (Hhd : Header g = header) by (by apply Header_newBlockNode).
  assert (Hhash : hash g = genesisHash) by exact Hg.
  unfold createChainState. fold header g.
  rewrite (setTip_view (E := rule_error) (mkChainView []) None g eq_refl); [|exact eq_refl|reflexivity]. cbn [rbind].
  do 2 eexists. split; [reflexivity|]. split; [done|].
  assert (Hstatus : NodeStatus (load_node g (Z.lor statusDataStored statusValid) newBlockIndex) g = 3).
  { unfold NodeStatus. cbn [load_node addNode status]. by rewrite lookup_insert_eq. }
  assert (Hdata : forall db', blockData db' = ∅ -> block_of (dbStoreBlock genesisBlock db') g genesisBlock).
  { intros db' He. split; [done|]. split; [done|]. unfold dbStoreBlock. rewrite He, lookup_empty.
    rewrite bool_decide_false by (intros [? ?]; done). cbn. apply lookup_insert_eq. }
  set (snapshot := newBestState g _ _ _ _ _ _ _ _ _ _). set (db1 := dbPutBestState snapshot _).
  assert (Hb1 : blockData db1 = ∅) by done.
  assert (Hdb : dbStoreBlock genesisBlock db1 = set_blocks {[hash g := MsgBlock_BtcEncode WitnessEncoding genesisBlock]} db1).
  { unfold dbStoreBlock. rewrite Hb1, lookup_empty. rewrite bool_decide_false by (intros [? ?]; done). done. }
  pose proof (Hdata db1 Hb1) as Hblock. rewrite Hdb in *.
  split; cbn [s_db s_bestChain s_snapshot load_node addNode index newBlockIndex].
  - split; cbn [load_node addNode index dirty newBlockIndex set_blocks blockIndexRows].
    + intros h n Hn. apply lookup_insert_Some in Hn as [[<- <-]|[_ Hn]]; [|by rewrite lookup_empty in Hn].
      split; try done; [apply DoubleHashH_ok|rewrite Hhd; apply Hs|by rewrite Hhd|rewrite Hstatus; split; [done|reflexivity]].
    + intros h n Hn _. apply lookup_insert_Some in Hn as [[<- <-]|[_ Hn]]; [|by rewrite lookup_empty in Hn].
      rewrite Hstatus. unfold db1. cbn. apply lookup_insert_eq.
    + intros k v Hk. unfold db1 in Hk. cbn in Hk. apply lookup_insert_Some in Hk as [[<- _]|[_ Hk]]; [|by rewrite lookup_empty in Hk].
      exists (hash g), g. split; [apply lookup_insert_eq|done].
  - intros h n Hn. apply lookup_insert_Some in Hn as [[<- <-]|[_ Hn]]; [by eexists|by rewrite lookup_empty in Hn].
  - intros h. cbn [set_blocks blockData]. intros [v Hv]. apply lookup_singleton_Some in Hv as [<- _]. rewrite lookup_insert_eq. by eexists.
  - apply lookup_insert_eq.
  - split; [exact eq_refl|]. split; [reflexivity|done].
  - intros n Hn. apply list_elem_of_singleton in Hn. subst n.
    change (KnownValid (NodeStatus (load_node g (Z.lor statusDataStored statusValid) newBlockIndex) g) = true). by rewrite Hstatus.
  - exists genesisBlock, (zlen (mb_Transactions genesisBlock)). split; [|split; [done|]].
    + eapply count_in_ok; [apply (sb_body _ Hs)|apply maxTxPerBlock_small].
    + unfold snapshot, best_state_of. rewrite Hhd. done.
  - done.
Qed.

Lemma running_at_rest genesisBlock bc :
  genesis_ok genesisBlock -> running genesisBlock bc -> exists t, at_rest bc t.
Proof.
  intros Hg. induction 1 as [db bi s orphs prevs best Hc Hn He|bc block r bc' _ [t IH] Har Ha|bc orphs prevs best _ [t IH]].
  - destruct (create_durable genesisBlock db Hg He) as (bi' & s' & Hc' & Hcl & Hd). rewrite Hc in Hc'. injection Hc' as <- <-.
    by eexists.
  - destruct (accept_at_rest _ _ _ _ _ IH Har Ha) as (t' & Ht' & _). by exists t'.
  - exists t. exact IH.
Qed.

End Connect.
End Restart.

(** ** Properties *)

(** C10: a restart finds what the node had.  Take a node that started on an empty
    database and then received any number of blocks, each of which was connected,
    refused or failed.  Starting again on its database succeeds and gives back the
    same view of the best chain, the same snapshot of the best state (the public
    key included, which the stored best state truncates), an index with the same
    nodes and statuses, and leaves the database as it is. *)
Theorem restart_recovers `{HashFunctions, ScriptHashes, Curve, Platform, MapOrder, OutPointOrder} params sigCache genesisHash
    genesisBlock (bc : @BlockChain (chain_backend params sigCache)) :
  genesis_ok genesisHash genesisBlock -> running params sigCache genesisBlock bc ->
  exists bi', initChainState genesisBlock genesisHash (s_db (bc_backend bc)) = Ok (bi', bc_backend bc) /\
    index bi' = index (bc_index bc) /\ dirty bi' = ∅ /\
    forall h n, index (bc_index bc) !! h = Some n -> NodeStatus bi' n = NodeStatus (bc_index bc) n.
Proof.
  intros Hg Hr. destruct (running_at_rest genesisHash params sigCache genesisBlock bc Hg Hr) as (t & Hd & Hcl).
  exact (restart_state genesisHash genesisBlock _ _ t Hd Hcl).
Qed.

Section Witnesses.
#[local] Existing Instance prefix_hash_functions | 0.
#[local] Existing Instance prefix_script_hashes.
#[local] Existing Instance accepting_curve.
#[local] Existing Instance zero_platform.
#[local] Existing Instance list_order.
#[local] Existing Instance elements_order.

Definition first_genesis : MsgBlock := mkMsgBlock sample_header [].
Definition second_header : BlockHeader :=
  mkBlockHeader 1 (BlockHash sample_header) zero_hash 1010 (replicate 64 x00) (SerializeCompressed sample_pubkey) 1 0.
Definition second_block : Block := mkBlock (mkMsgBlock second_header [first_coinbase]) 1.

Lemma second_stored : stored_block (b_MsgBlock second_block).
Proof.
  assert (Hb : block_body_ok WitnessEncoding second_header [first_coinbase]).
  { split; [constructor; vm_compute; try reflexivity; split; congruence|]. split; [|vm_compute; discriminate].
    constructor; [|constructor]. constructor; try (vm_compute; first [reflexivity|discriminate|split; congruence]);
      (constructor; [|constructor]); constructor; vm_compute; repeat split; try congruence; constructor. }
  split; [done|]. change (MsgBlock_BtcEncode _ _) with (write_block_body WitnessEncoding second_header [first_coinbase]).
  rewrite (zlen_write_block_body _ _ _ Hb). reflexivity.
Qed.

Lemma empty_block_stored h : header_ok h -> stored_block (mkMsgBlock h []).
Proof.
  intros Hh. assert (Hb : block_body_ok WitnessEncoding h []) by (split; [done|]; split; [constructor|vm_compute; discriminate]).
  split; [done|]. change (MsgBlock_BtcEncode _ _) with (write_block_body WitnessEncoding h []).
  rewrite (zlen_write_block_body _ _ _ Hb). reflexivity.
Qed.

Lemma first_genesis_ok : genesis_ok (BlockHash sample_header) first_genesis.
Proof. split; [|done|done]. apply empty_block_stored. constructor; vm_compute; try reflexivity; split; congruence. Qed.

Definition fresh_index : blockIndex := load_node (newBlockNode sample_header None 1) 3 newBlockIndex.

Lemma fresh_chain : exists s, createChainState first_genesis empty_db = Ok (fresh_index, s).
Proof.
  destruct (create_durable (BlockHash sample_header) first_genesis empty_db first_genesis_ok eq_refl) as (bi & s & Hc & _).
  exists s. rewrite Hc. f_equal. f_equal. unfold createChainState in Hc. apply rbind_Ok in Hc as (c & _ & Hc).
  apply Ok_inj, (f_equal fst) in Hc. symmetry. exact Hc.
Qed.

Lemma second_arrives params sigCache s :
  arriving params sigCache (@mkBlockChain (chain_backend params sigCache) fresh_index ∅ ∅ None s) second_block.
Proof.
  split.
  - exact second_stored.
  - split; [done|reflexivity].
  - cbn [bc_index fresh_index load_node addNode index newBlockIndex]. rewrite lookup_insert_ne by (vm_compute; discriminate). done.
  - intros prev Hp. cbn [bc_index fresh_index load_node addNode index newBlockIndex] in Hp.
    apply lookup_insert_Some in Hp as [[_ <-]|[_ Hp]]; [reflexivity|done].
Qed.

(** The chain after the second block, which is connected. *)
Definition started : chainStore := match createChainState first_genesis empty_db with Ok (_, s) => s | _ => first_store end.
Definition grown : result rule_error bool * @BlockChain (chain_backend sample_params None) :=
  maybeAcceptBlock second_block (@mkBlockChain (chain_backend sample_params None) fresh_index ∅ ∅ None started).

Lemma started_ok : createChainState first_genesis empty_db = Ok (fresh_index, started).
Proof. destruct fresh_chain as [s Hs]. unfold started. by rewrite Hs. Qed.

Lemma grown_connected : fst grown = Ok true /\ bs_Height (s_snapshot (bc_backend (snd grown))) = 1.
Proof. vm_compute. split; reflexivity. Qed.

Lemma restart_recovers_witness :
  fst grown = Ok true /\ bs_Height (s_snapshot (bc_backend (snd grown))) = 1 /\
  exists bi', initChainState first_genesis (BlockHash sample_header) (s_db (bc_backend (snd grown)))
              = Ok (bi', bc_backend (snd grown)).
Proof.
  split; [exact (proj1 grown_connected)|]. split; [exact (proj2 grown_connected)|].
  edestruct (restart_recovers sample_params None (BlockHash sample_header) first_genesis (snd grown))
    as (bi' & Hi & _).
  - exact first_genesis_ok.
  - apply (run_block sample_params None first_genesis
      (@mkBlockChain (chain_backend sample_params None) fresh_index ∅ ∅ None started) second_block (fst grown));
      [|apply second_arrives|exact (surjective_pairing grown)].
    eapply (run_start sample_params None first_genesis empty_db); [exact started_ok|reflexivity|reflexivity].
  - exists bi'. exact Hi.
Defined.

End Witnesses.
