(* ===== verification/Policy.v ===== *)
(** * Transaction policy: mempool/policy.go, mempool/error.go and
    mining/policy.go

    What a transaction must satisfy to be relayed, beyond the rules of the
    chain: standard forms of its scripts, no dust, a minimal fee or a priority. *)

From S2P Require Import Prelude Float64 Chainhash Wire Hash WireMsg ScriptNum Stack Opcode Script ScriptBuilder.
From S2P Require Import Signature Engine EngineSafety EngineCache PubKeyHash Standard Compress BlockIndex Validate Utxo.
From S2P Require Import ScriptVal ConnectBlock ChainIO ChainView Chain ConnectChain.

(** ** Errors *)

Definition RejectMalformed : Z := 0x01.
Definition RejectInvalid : Z := 0x10.
Definition RejectObsolete : Z := 0x11.
Definition RejectDuplicate : Z := 0x12.
Definition RejectNonstandard : Z := 0x40.
Definition RejectDust : Z := 0x41.
Definition RejectInsufficientFee : Z := 0x42.
Definition RejectCheckpoint : Z := 0x43.

(** [RuleError] around a [TxRuleError] or around an error of the chain's rules,
    and errors that are passed on as they are. *)
Inductive pool_error :=
  | TxRuleError (RejectCode : Z)
  | ChainRuleError (e : rule_error)
  | PlainError (e : rule_error).

(** [if cerr, ok := err.(blockchain.RuleError)]. *)
Definition chain_error (e : rule_error) : pool_error := if is_RuleError e then ChainRuleError e else PlainError e.

Definition from_chain {A} (r : result rule_error A) : result pool_error A :=
  match r with Ok a => Ok a | Err e => Err (chain_error e) | Panic => Panic end.

(** The codes of the chain's errors; of those with a code of their own only the
    first can occur here. *)
Definition extractRejectCode (e : pool_error) : Z * bool :=
  match e with
  | TxRuleError code => (code, true)
  | ChainRuleError ErrDuplicateBlock => (RejectDuplicate, true)
  | ChainRuleError _ => (RejectInvalid, true)
  | PlainError _ => (RejectInvalid, false)
  end.

(** The code [maybeAcceptTransaction] keeps of an error of the standard checks. *)
Definition as_nonstandard {A} (r : result pool_error A) : result pool_error A :=
  match r with
  | Err e =>
      let '(rejectCode, found) := extractRejectCode e in
      Err (TxRuleError (if found then rejectCode else RejectNonstandard))
  | _ => r
  end.

(** ** Sizes and fees *)

Definition maxStandardP2SHSigOps : Z := 15.
Definition maxStandardTxWeight : Z := 400000.
Definition maxStandardSigScriptSize : Z := 1650.
Definition DefaultMinRelayTxFee : Z := 1000.
Definition maxStandardMultiSigKeys : Z := 3.

Definition GetTxVirtualSize (tx : MsgTx) : Z :=
  Z.quot (i64 (GetTransactionWeight tx + (WitnessScaleFactor - 1))) WitnessScaleFactor.

Definition calcMinRequiredTxRelayFee (serializedSize minRelayTxFee : Z) : Z :=
  let minFee := Z.quot (i64 (serializedSize * minRelayTxFee)) 1000 in
  let minFee := if (minFee =? 0) && (0 <? minRelayTxFee) then minRelayTxFee else minFee in
  if (minFee <? 0) || (MaxSatoshi <? minFee) then MaxSatoshi else minFee.

Definition isDust (txOut : TxOut) (minRelayTxFee : Z) : bool :=
  if IsUnspendable (to_PkScript txOut) then true
  else
    let totalSize := TxOut_SerializeSize txOut + 41 in
    let totalSize := if IsWitnessProgram (to_PkScript txOut) then totalSize + 107 / WitnessScaleFactor
                     else totalSize + 107 in
    Z.quot (i64 (to_Value txOut * 1000)) (3 * totalSize) <? minRelayTxFee.

(** ** Standard forms *)

(** The loop over the inputs; the entry of an input that is not in the view is
    nil, whose script panics. *)
Fixpoint standard_inputs (view : UtxoViewpoint) (ins : list TxIn) : result pool_error unit :=
  match ins with
  | [] => Ok tt
  | txIn :: ins =>
      match LookupEntry view (ti_PreviousOutPoint txIn) with
      | None => Panic
      | Some entry =>
          let originPkScript := ue_pkScript entry in
          match GetScriptClass originPkScript with
          | ScriptHashTy =>
              let numSigOps := GetPreciseSigOpCount (ti_SignatureScript txIn) originPkScript true in
              if maxStandardP2SHSigOps <? numSigOps then Err (TxRuleError RejectNonstandard)
              else standard_inputs view ins
          | NonStandardTy => Err (TxRuleError RejectNonstandard)
          | _ => standard_inputs view ins
          end
      end
  end.
Definition checkInputsStandard (tx : MsgTx) (view : UtxoViewpoint) : result pool_error unit :=
  standard_inputs view (tx_TxIn tx).

Definition checkPkScriptStandard (pkScript : list byte) (scriptClass : ScriptClass) : result pool_error unit :=
  match scriptClass with
  | MultiSigTy =>
      match CalcMultiSigStats pkScript with
      | Panic => Panic
      | Err _ => Err (TxRuleError RejectNonstandard)
      | Ok (numPubKeys, numSigs) =>
          if numPubKeys <? 1 then Err (TxRuleError RejectNonstandard)
          else if maxStandardMultiSigKeys <? numPubKeys then Err (TxRuleError RejectNonstandard)
          else if numSigs <? 1 then Err (TxRuleError RejectNonstandard)
          else if numPubKeys <? numSigs then Err (TxRuleError RejectNonstandard)
          else Ok tt
      end
  | NonStandardTy => Err (TxRuleError RejectNonstandard)
  | _ => Ok tt
  end.

Definition standard_sig_script (txIn : TxIn) : bool :=
  (zlen (ti_SignatureScript txIn) <=? maxStandardSigScriptSize) && IsPushOnlyScript (ti_SignatureScript txIn).

(** The loop over the outputs, with the number of those that only carry data. *)
Fixpoint standard_outputs (minRelayTxFee numNullDataOutputs : Z) (outs : list TxOut) : result pool_error Z :=
  match outs with
  | [] => Ok numNullDataOutputs
  | txOut :: outs =>
      let scriptClass := GetScriptClass (to_PkScript txOut) in
      let* _ := as_nonstandard (checkPkScriptStandard (to_PkScript txOut) scriptClass) in
      if bool_decide (scriptClass = NullDataTy) then standard_outputs minRelayTxFee (numNullDataOutputs + 1) outs
      else if isDust txOut minRelayTxFee then Err (TxRuleError RejectDust)
      else standard_outputs minRelayTxFee numNullDataOutputs outs
  end.

Definition checkTransactionStandard (tx : MsgTx) (height medianTimePast minRelayTxFee maxTxVersion : Z)
  : result pool_error unit :=
  if (maxTxVersion <? tx_Version tx) || (tx_Version tx <? 1) then Err (TxRuleError RejectNonstandard)
  else if negb (IsFinalizedTransaction tx height medianTimePast) then Err (TxRuleError RejectNonstandard)
  else if maxStandardTxWeight <? GetTransactionWeight tx then Err (TxRuleError RejectNonstandard)
  else if negb (forallb standard_sig_script (tx_TxIn tx)) then Err (TxRuleError RejectNonstandard)
  else
    let* numNullDataOutputs := standard_outputs minRelayTxFee 0 (tx_TxOut tx) in
    if 1 <? numNullDataOutputs then Err (TxRuleError RejectNonstandard) else Ok tt.

(** ** Priority *)

Definition UnminedHeight : Z := 0x7fffffff.
(** [drcutil.SatoshiPerBitcoin * 144.0 / 250], a constant. *)
Definition MinHighPriority : float64 := of_int 57600000.

Definition calcInputValueAge (tx : MsgTx) (view : UtxoViewpoint) (nextBlockHeight : Z) : float64 :=
  fold_left (fun totalInputAge txIn =>
    match LookupEntry view (ti_PreviousOutPoint txIn) with
    | Some entry =>
        if IsSpent entry then totalInputAge
        else
          let originHeight := ue_blockHeight entry in
          let inputAge := if originHeight =? UnminedHeight then 0 else i32 (nextBlockHeight - originHeight) in
          fadd totalInputAge (of_int64 (i64 (ue_amount entry * inputAge)))
    | None => totalInputAge
    end) (tx_TxIn tx) (of_int 0).

Definition CalcPriority (tx : MsgTx) (view : UtxoViewpoint) (nextBlockHeight : Z) : float64 :=
  let overhead := fold_left (fun n txIn => n + (41 + Z.min 110 (zlen (ti_SignatureScript txIn)))) (tx_TxIn tx) 0 in
  let serializedTxSize := MsgTx_SerializeSize tx in
  if serializedTxSize <=? overhead then of_int 0
  else fdiv (calcInputValueAge tx view nextBlockHeight) (of_int (serializedTxSize - overhead)).
