(* ===== verification/Mempool.v ===== *)
(** * The pool of transactions: mempool/mempool.go

    Transactions that are waiting for a block ([pool], with the outputs they
    spend in [outpoints]) and transactions with missing inputs ([orphans], with
    the outputs they wait for in [orphansByPrev]).  What the pool asks of the
    chain are the fields of [Config], as in the source; [chain_config] has the
    functions the server puts there.  An operation reads the clock once; the
    address index and the fee estimator, which are optional, are not
    configured. *)

From S2P Require Import Prelude Float64 Chainhash Wire Hash WireMsg ScriptNum Stack Opcode Script ScriptBuilder.
From S2P Require Import Signature Engine EngineSafety EngineCache PubKeyHash Standard Compress BlockIndex Validate Utxo.
From S2P Require Import ScriptVal ConnectBlock ChainIO ChainView Chain ConnectChain Policy.

Definition DefaultBlockPrioritySize : Z := 50000.
(** Times are in nanoseconds. *)
Definition second : Z := 10 ^ 9.
Definition orphanTTL : Z := 15 * 60 * second.
Definition orphanExpireScanInterval : Z := 5 * 60 * second.

Record RelayPolicy := mkPolicy {
  MaxTxVersion : Z; DisableRelayPriority : bool; AcceptNonStd : bool; FreeTxRelayLimit : float64;
  MaxOrphanTxs : Z; MaxOrphanTxSize : Z; MaxSigOpCostPerTx : Z; MinRelayTxFee : Z
}.

(** [IsDeploymentActive] may be a nil function. *)
Record Config := mkConfig {
  cfg_Policy : RelayPolicy;
  cfg_ChainParams : Params;
  cfg_FetchUtxoView : MsgTx -> result rule_error UtxoViewpoint;
  cfg_BestHeight : Z;
  cfg_MedianTimePast : Z;
  cfg_CalcSequenceLock : MsgTx -> UtxoViewpoint -> result rule_error SequenceLock;
  cfg_IsDeploymentActive : option (result rule_error bool);
  cfg_SigCache : option SigCache
}.

Record TxDesc := mkTxDesc {
  td_Tx : MsgTx; td_Added : Z; td_Height : Z; td_Fee : Z; td_FeePerKB : Z; td_StartingPriority : float64
}.
Record orphanTx := mkOrphanTx { ot_tx : MsgTx; ot_tag : Z; ot_expiration : Z }.

Record TxPool := mkTxPool {
  pool : gmap Hash TxDesc;
  orphans : gmap Hash orphanTx;
  orphansByPrev : gmap OutPoint (gmap Hash MsgTx);
  outpoints : gmap OutPoint MsgTx;
  pennyTotal : float64;
  lastPennyUnix : Z;
  nextExpireScan : Z;
  lastUpdated : Z
}.

Definition set_orphans (o : gmap Hash orphanTx) (by_prev : gmap OutPoint (gmap Hash MsgTx)) (mp : TxPool) : TxPool :=
  mkTxPool (pool mp) o by_prev (outpoints mp) (pennyTotal mp) (lastPennyUnix mp) (nextExpireScan mp) (lastUpdated mp).
Definition set_pool (p : gmap Hash TxDesc) (outs : gmap OutPoint MsgTx) (updated : Z) (mp : TxPool) : TxPool :=
  mkTxPool p (orphans mp) (orphansByPrev mp) outs (pennyTotal mp) (lastPennyUnix mp) (nextExpireScan mp) updated.
Definition set_penny (total : float64) (unix : Z) (mp : TxPool) : TxPool :=
  mkTxPool (pool mp) (orphans mp) (orphansByPrev mp) (outpoints mp) total unix (nextExpireScan mp) (lastUpdated mp).
Definition set_scan (t : Z) (mp : TxPool) : TxPool :=
  mkTxPool (pool mp) (orphans mp) (orphansByPrev mp) (outpoints mp) (pennyTotal mp) (lastPennyUnix mp) t (lastUpdated mp).

(** [New] *)
Definition NewTxPool (now : Z) : TxPool :=
  mkTxPool ∅ ∅ ∅ ∅ (of_int 0) 0 (now + orphanExpireScanInterval) 0.

(** [math.Pow]. *)
Class MathPow := { Pow : float64 -> float64 -> float64 }.

Section Pool.
Context `{HashFunctions} `{ScriptHashes} `{Curve} `{MapOrder} `{OutPointOrder} `{MathPow}.

(** ** Orphans *)

(** The orphans that wait for an output, as a map that is empty when there is
    none. *)
Definition redeemers (o : OutPoint) (by_prev : gmap OutPoint (gmap Hash MsgTx)) : gmap Hash MsgTx :=
  default ∅ (by_prev !! o).

(** The loop of [removeOrphan] over the inputs of the orphan. *)
Definition unlink_input (txHash : Hash) (prev : OutPoint) (by_prev : gmap OutPoint (gmap Hash MsgTx))
  : gmap OutPoint (gmap Hash MsgTx) :=
  match by_prev !! prev with
  | None => by_prev
  | Some waiting =>
      let waiting := delete txHash waiting in
      if (size waiting =? 0)%nat then delete prev by_prev else <[prev := waiting]> by_prev
  end.
Definition unlink_inputs (txHash : Hash) (ins : list TxIn) (by_prev : gmap OutPoint (gmap Hash MsgTx))
  : gmap OutPoint (gmap Hash MsgTx) :=
  fold_left (fun m txIn => unlink_input txHash (ti_PreviousOutPoint txIn) m) ins by_prev.

(** Go's [range] over a map that the body deletes from: the entries that are
    still there when their turn comes. *)
Fixpoint range_live (keys : list (Hash * MsgTx)) (live : TxPool -> gmap Hash MsgTx)
  (body : MsgTx -> TxPool -> option TxPool) (mp : TxPool) : option TxPool :=
  match keys with
  | [] => Some mp
  | (h, tx) :: keys =>
      match live mp !! h with
      | None => range_live keys live body mp
      | Some _ => mp ← body tx mp; range_live keys live body mp
      end
  end.

(** The loop over the redeemers of each output. *)
Fixpoint each_output (outs : list OutPoint) (body : MsgTx -> TxPool -> option TxPool) (mp : TxPool) : option TxPool :=
  match outs with
  | [] => Some mp
  | o :: outs =>
      mp ← range_live (range (redeemers o (orphansByPrev mp))) (fun mp => redeemers o (orphansByPrev mp)) body mp;
      each_output outs body mp
  end.

Definition tx_outpoints (tx : MsgTx) : list OutPoint := map (created_outpoint tx) (seq 0 (length (tx_TxOut tx))).

(** [None] is running out of fuel. *)
Fixpoint remove_orphan (fuel : nat) (removeRedeemers : bool) (tx : MsgTx) (mp : TxPool) : option TxPool :=
  match fuel with
  | O => None
  | S fuel =>
      let txHash := TxHash tx in
      match orphans mp !! txHash with
      | None => Some mp
      | Some otx =>
          let mp := set_orphans (orphans mp) (unlink_inputs txHash (tx_TxIn (ot_tx otx)) (orphansByPrev mp)) mp in
          mp ← (if removeRedeemers then each_output (tx_outpoints tx) (remove_orphan fuel true) mp else Some mp);
          Some (set_orphans (delete txHash (orphans mp)) (orphansByPrev mp) mp)
      end
  end.

(** Each level of the recursion has taken another orphan out of the index. *)
Definition removeOrphan (tx : MsgTx) (removeRedeemers : bool) (mp : TxPool) : TxPool :=
  default mp (remove_orphan (S (size (orphans mp))) removeRedeemers tx mp).

Definition RemoveOrphan (tx : MsgTx) (mp : TxPool) : TxPool := removeOrphan tx false mp.

(** The loop over all orphans: those that satisfy [p] are removed, as long as
    they are there, and counted. *)
Fixpoint remove_orphans_where (p : orphanTx -> bool) (l : list (Hash * orphanTx)) (mp : TxPool) : nat * TxPool :=
  match l with
  | [] => (0%nat, mp)
  | (h, otx) :: l =>
      match orphans mp !! h with
      | None => remove_orphans_where p l mp
      | Some _ =>
          if p otx then
            let '(n, mp) := remove_orphans_where p l (removeOrphan (ot_tx otx) true mp) in (S n, mp)
          else remove_orphans_where p l mp
      end
  end.

Definition RemoveOrphansByTag (tag : Z) (mp : TxPool) : nat * TxPool :=
  remove_orphans_where (fun otx => ot_tag otx =? tag) (range (orphans mp)) mp.

Definition limitNumOrphans (policy : RelayPolicy) (now : Z) (mp : TxPool) : TxPool :=
  let mp := if nextExpireScan mp <? now then
              set_scan (now + orphanExpireScanInterval)
                (remove_orphans_where (fun otx => ot_expiration otx <? now) (range (orphans mp)) mp).2
            else mp in
  if Z.of_nat (size (orphans mp)) + 1 <=? MaxOrphanTxs policy then mp
  else match range (orphans mp) with
       | [] => mp
       | (_, otx) :: _ => removeOrphan (ot_tx otx) false mp
       end.

Definition link_input (tx : MsgTx) (prev : OutPoint) (by_prev : gmap OutPoint (gmap Hash MsgTx))
  : gmap OutPoint (gmap Hash MsgTx) :=
  <[prev := <[TxHash tx := tx]> (redeemers prev by_prev)]> by_prev.

Definition addOrphan (policy : RelayPolicy) (now : Z) (tx : MsgTx) (tag : Z) (mp : TxPool) : TxPool :=
  if MaxOrphanTxs policy <=? 0 then mp
  else
    let mp := limitNumOrphans policy now mp in
    set_orphans (<[TxHash tx := mkOrphanTx tx tag (now + orphanTTL)]> (orphans mp))
      (fold_left (fun m txIn => link_input tx (ti_PreviousOutPoint txIn) m) (tx_TxIn tx) (orphansByPrev mp)) mp.

Definition maybeAddOrphan (policy : RelayPolicy) (now : Z) (tx : MsgTx) (tag : Z) (mp : TxPool)
  : result pool_error TxPool :=
  if MaxOrphanTxSize policy <? MsgTx_SerializeSize tx then Err (TxRuleError RejectNonstandard)
  else Ok (addOrphan policy now tx tag mp).

(** The loop over the inputs of the transaction. *)
Definition remove_double_spends (ins : list TxIn) (mp : TxPool) : TxPool :=
  fold_left (fun mp txIn =>
    let o := ti_PreviousOutPoint txIn in
    default mp (range_live (range (redeemers o (orphansByPrev mp))) (fun mp => redeemers o (orphansByPrev mp))
                  (fun orphan mp => Some (removeOrphan orphan true mp)) mp)) ins mp.
Definition removeOrphanDoubleSpends (tx : MsgTx) (mp : TxPool) : TxPool := remove_double_spends (tx_TxIn tx) mp.

(** ** The main pool *)

Definition isTransactionInPool (h : Hash) (mp : TxPool) : bool := bool_decide (is_Some (pool mp !! h)).
Definition isOrphanInPool (h : Hash) (mp : TxPool) : bool := bool_decide (is_Some (orphans mp !! h)).
Definition haveTransaction (h : Hash) (mp : TxPool) : bool := isTransactionInPool h mp || isOrphanInPool h mp.

Definition unspend_inputs (tx : MsgTx) (outs : gmap OutPoint MsgTx) : gmap OutPoint MsgTx :=
  fold_left (fun m txIn => delete (ti_PreviousOutPoint txIn) m) (tx_TxIn tx) outs.

(** The transaction itself, if it is in the pool. *)
Definition remove_one (now : Z) (tx : MsgTx) (mp : TxPool) : TxPool :=
  match pool mp !! TxHash tx with
  | None => mp
  | Some txDesc =>
      set_pool (delete (TxHash tx) (pool mp)) (unspend_inputs (td_Tx txDesc) (outpoints mp)) (now / second) mp
  end.

(** The recursion goes to the transactions that spend its outputs; [None] is
    running out of fuel. *)
Fixpoint remove_transaction (fuel : nat) (now : Z) (removeRedeemers : bool) (tx : MsgTx) (mp : TxPool) : option TxPool :=
  match fuel with
  | O => None
  | S fuel =>
      mp ← (if removeRedeemers then
              fold_left (fun r o => mp ← r;
                match outpoints mp !! o with
                | Some txRedeemer => remove_transaction fuel now true txRedeemer mp
                | None => Some mp
                end) (tx_outpoints tx) (Some mp)
            else Some mp);
      Some (remove_one now tx mp)
  end.

(** The depth is bounded by the number of transactions. *)
Definition removeTransaction (now : Z) (tx : MsgTx) (removeRedeemers : bool) (mp : TxPool) : TxPool :=
  default mp (remove_transaction (S (S (size (pool mp)))) now removeRedeemers tx mp).
Definition RemoveTransaction := removeTransaction.

Definition RemoveDoubleSpends (now : Z) (tx : MsgTx) (mp : TxPool) : TxPool :=
  fold_left (fun mp txIn =>
    match outpoints mp !! ti_PreviousOutPoint txIn with
    | Some txRedeemer =>
        if bool_decide (TxHash txRedeemer = TxHash tx) then mp else removeTransaction now txRedeemer true mp
    | None => mp
    end) (tx_TxIn tx) mp.

(** [fee * 1000 / GetTxVirtualSize(tx)]: the size is never zero. *)
Definition addTransaction (now : Z) (view : UtxoViewpoint) (tx : MsgTx) (height fee : Z) (mp : TxPool)
  : TxDesc * TxPool :=
  let txD := mkTxDesc tx now height fee (Z.quot (i64 (fee * 1000)) (GetTxVirtualSize tx))
               (CalcPriority tx view height) in
  (txD,
   set_pool (<[TxHash tx := txD]> (pool mp))
     (fold_left (fun m txIn => <[ti_PreviousOutPoint txIn := tx]> m) (tx_TxIn tx) (outpoints mp)) (now / second) mp).

Definition checkPoolDoubleSpend (tx : MsgTx) (mp : TxPool) : result pool_error unit :=
  if existsb (fun txIn => bool_decide (is_Some (outpoints mp !! ti_PreviousOutPoint txIn))) (tx_TxIn tx)
  then Err (TxRuleError RejectDuplicate) else Ok tt.

Definition CheckSpend (op : OutPoint) (mp : TxPool) : option MsgTx := outpoints mp !! op.

(** The outputs of transactions of the pool, for the inputs the chain does not
    have. *)
Definition pool_inputs (mp : TxPool) (ins : list TxIn) (view : UtxoViewpoint) : UtxoViewpoint :=
  fold_left (fun view txIn =>
    let prevOut := ti_PreviousOutPoint txIn in
    if unspent_entry view prevOut then view
    else match pool mp !! op_Hash prevOut with
         | Some poolTxDesc => AddTxOut (td_Tx poolTxDesc) (op_Index prevOut) UnminedHeight view
         | None => view
         end) ins view.

Definition pool_fetchInputUtxos (cfg : Config) (tx : MsgTx) (mp : TxPool) : result rule_error UtxoViewpoint :=
  let* utxoView := cfg_FetchUtxoView cfg tx in
  Ok (pool_inputs mp (tx_TxIn tx) utxoView).

Definition FetchTransaction (h : Hash) (mp : TxPool) : option MsgTx := td_Tx <$> pool mp !! h.

(** ** Accepting a transaction *)

(** The outputs of the transaction itself must not be unspent in the chain; they
    are taken out of the view. *)
Fixpoint own_outputs (outs : list OutPoint) (view : UtxoViewpoint) : result pool_error UtxoViewpoint :=
  match outs with
  | [] => Ok view
  | o :: outs =>
      if unspent_entry view o then Err (TxRuleError RejectDuplicate) else own_outputs outs (RemoveEntry o view)
  end.

Definition missing_parents (view : UtxoViewpoint) : list Hash :=
  omap (fun p => match p.2 with
                 | Some entry => if IsSpent entry then Some (op_Hash p.1) else None
                 | None => Some (op_Hash p.1)
                 end) (range_entries (entries view)).

(** The checks up to the inputs; the view and its missing parents. *)
Definition accept_inputs (cfg : Config) (rejectDupOrphans : bool) (tx : MsgTx) (mp : TxPool)
  : result pool_error UtxoViewpoint :=
  let txHash := TxHash tx in
  let* _ :=
    (if HasWitness tx then
       match cfg_IsDeploymentActive cfg with
       | None => Panic
       | Some (Ok true) => Ok tt
       | Some (Ok false) => Err (TxRuleError RejectNonstandard)
       | Some (Err e) => Err (PlainError e)
       | Some Panic => Panic
       end
     else Ok tt) in
  if isTransactionInPool txHash mp || (rejectDupOrphans && isOrphanInPool txHash mp)
  then Err (TxRuleError RejectDuplicate)
  else
    let* _ := from_chain (CheckTransactionSanity tx) in
    if IsCoinBaseTx tx then Err (TxRuleError RejectInvalid)
    else
      let nextBlockHeight := i32 (cfg_BestHeight cfg + 1) in
      let policy := cfg_Policy cfg in
      let* _ :=
        (if AcceptNonStd policy then Ok tt
         else as_nonstandard (checkTransactionStandard tx nextBlockHeight (cfg_MedianTimePast cfg)
                                (MinRelayTxFee policy) (MaxTxVersion policy))) in
      let* _ := checkPoolDoubleSpend tx mp in
      let* utxoView := from_chain (pool_fetchInputUtxos cfg tx mp) in
      own_outputs (tx_outpoints tx) utxoView.

(** The checks on a transaction whose inputs are all there, up to the fee. *)
Definition accept_fee (cfg : Config) (tx : MsgTx) (utxoView : UtxoViewpoint) : result pool_error Z :=
  let policy := cfg_Policy cfg in
  let nextBlockHeight := i32 (cfg_BestHeight cfg + 1) in
  let* sequenceLock := from_chain (cfg_CalcSequenceLock cfg tx utxoView) in
  if negb (SequenceLockActive sequenceLock nextBlockHeight (cfg_MedianTimePast cfg))
  then Err (TxRuleError RejectNonstandard)
  else
    let* txFee := from_chain (CheckTransactionInputs tx nextBlockHeight utxoView (cfg_ChainParams cfg)) in
    let* _ := (if AcceptNonStd policy then Ok tt else as_nonstandard (checkInputsStandard tx utxoView)) in
    let* sigOpCost := from_chain (GetSigOpCost tx false utxoView true true) in
    if MaxSigOpCostPerTx policy <? sigOpCost then Err (TxRuleError RejectNonstandard) else Ok txFee.

(** The rate limiter for transactions with a low fee.  The constant
    [1.0-1.0/600.0] is rounded once. *)
Definition rate_limit (cfg : Config) (now serializedSize : Z) (mp : TxPool) : result pool_error unit * TxPool :=
  let nowUnix := now / second in
  let decay := Pow (round_q 599 600) (of_int64 (i64 (nowUnix - lastPennyUnix mp))) in
  let total := fmul (pennyTotal mp) decay in
  let limit := fmul (fmul (FreeTxRelayLimit (cfg_Policy cfg)) (of_int 10)) (of_int 1000) in
  if fge total limit then (Err (TxRuleError RejectInsufficientFee), set_penny total nowUnix mp)
  else (Ok tt, set_penny (fadd total (of_int serializedSize)) nowUnix mp).

(** The parents that are missing, or the descriptor of the new entry.  The
    signatures that the scripts add to the signature cache are not part of the
    result: a cache changes no verdict ([sig_cache_transparent]). *)
Definition maybeAcceptTransaction (cfg : Config) (now : Z) (tx : MsgTx) (isNew rateLimit rejectDupOrphans : bool)
  (mp : TxPool) : result pool_error (list Hash * option TxDesc) * TxPool :=
  match accept_inputs cfg rejectDupOrphans tx mp with
  | Err e => (Err e, mp)
  | Panic => (Panic, mp)
  | Ok utxoView =>
      match missing_parents utxoView with
      | (_ :: _) as missingParents => (Ok (missingParents, None), mp)
      | [] =>
          match accept_fee cfg tx utxoView with
          | Err e => (Err e, mp)
          | Panic => (Panic, mp)
          | Ok txFee =>
              let policy := cfg_Policy cfg in
              let nextBlockHeight := i32 (cfg_BestHeight cfg + 1) in
              let serializedSize := GetTxVirtualSize tx in
              let minFee := calcMinRequiredTxRelayFee serializedSize (MinRelayTxFee policy) in
              if (DefaultBlockPrioritySize - 1000 <=? serializedSize) && (txFee <? minFee)
              then (Err (TxRuleError RejectInsufficientFee), mp)
              else if isNew && negb (DisableRelayPriority policy) && (txFee <? minFee)
                      && fge MinHighPriority (CalcPriority tx utxoView nextBlockHeight)
              then (Err (TxRuleError RejectInsufficientFee), mp)
              else
                let '(r, mp) := if rateLimit && (txFee <? minFee) then rate_limit cfg now serializedSize mp
                                else (Ok tt, mp) in
                match r with
                | Err e => (Err e, mp)
                | Panic => (Panic, mp)
                | Ok _ =>
                    match from_chain (ValidateTransactionScripts tx utxoView StandardVerifyFlags (cfg_SigCache cfg)) with
                    | Err e => (Err e, mp)
                    | Panic => (Panic, mp)
                    | Ok _ =>
                        let '(txD, mp) := addTransaction now utxoView tx (cfg_BestHeight cfg) txFee mp in
                        (Ok ([], Some txD), mp)
                    end
                end
          end
      end
  end.

Definition MaybeAcceptTransaction (cfg : Config) (now : Z) (tx : MsgTx) (isNew rateLimit : bool) (mp : TxPool)
  : result pool_error (list Hash * option TxDesc) * TxPool :=
  maybeAcceptTransaction cfg now tx isNew rateLimit true mp.

(** ** Orphans that are orphans no longer *)

(** The loop over the orphans that redeem one output: at most one of them is
    accepted, and an invalid one ends the loop.  [keys] are the entries that
    were there when the loop began. *)
Fixpoint try_redeemers (cfg : Config) (now : Z) (o : OutPoint) (keys : list (Hash * MsgTx)) (mp : TxPool)
  : result pool_error (option TxDesc) * TxPool :=
  match keys with
  | [] => (Ok None, mp)
  | (h, tx) :: keys =>
      match redeemers o (orphansByPrev mp) !! h with
      | None => try_redeemers cfg now o keys mp
      | Some _ =>
          match maybeAcceptTransaction cfg now tx true true false mp with
          | (Panic, mp) => (Panic, mp)
          | (Err _, mp) => (Ok None, removeOrphan tx true mp)
          | (Ok (_ :: _, _), mp) => try_redeemers cfg now o keys mp
          | (Ok ([], txD), mp) => (Ok txD, removeOrphan tx false mp)
          end
      end
  end.

(** The outputs of one transaction of the list; accepted orphans go to its end. *)
Fixpoint process_outputs (cfg : Config) (now : Z) (outs : list OutPoint) (mp : TxPool)
  : result pool_error (list TxDesc) * TxPool :=
  match outs with
  | [] => (Ok [], mp)
  | o :: outs =>
      match try_redeemers cfg now o (range (redeemers o (orphansByPrev mp))) mp with
      | (Panic, mp) => (Panic, mp)
      | (Err e, mp) => (Err e, mp)
      | (Ok txD, mp) =>
          match process_outputs cfg now outs mp with
          | (Ok l, mp) => (Ok (option_list txD ++ l), mp)
          | (r, mp) => (r, mp)
          end
      end
  end.

(** The list of transactions to process; [None] is running out of fuel. *)
Fixpoint process_list (fuel : nat) (cfg : Config) (now : Z) (processList : list MsgTx) (acceptedTxns : list TxDesc)
  (mp : TxPool) : option (result pool_error (list TxDesc) * TxPool) :=
  match processList with
  | [] => Some (Ok acceptedTxns, mp)
  | processItem :: processList =>
      match fuel with
      | O => None
      | S fuel =>
          match process_outputs cfg now (tx_outpoints processItem) mp with
          | (Ok l, mp) => process_list fuel cfg now (processList ++ map td_Tx l) (acceptedTxns ++ l) mp
          | (r, mp) => Some (r, mp)
          end
      end
  end.

(** Every transaction that is processed after the first was an orphan. *)
Definition pool_processOrphans (cfg : Config) (now : Z) (acceptedTx : MsgTx) (mp : TxPool)
  : result pool_error (list TxDesc) * TxPool :=
  match process_list (S (size (orphans mp))) cfg now [acceptedTx] [] mp with
  | None => (Panic, mp)
  | Some (Ok acceptedTxns, mp) =>
      (Ok acceptedTxns,
       fold_left (fun mp txD => removeOrphanDoubleSpends (td_Tx txD) mp) acceptedTxns
         (removeOrphanDoubleSpends acceptedTx mp))
  | Some (r, mp) => (r, mp)
  end.
Definition ProcessOrphans := pool_processOrphans.

Definition ProcessTransaction (cfg : Config) (now : Z) (tx : MsgTx) (allowOrphan rateLimit : bool) (tag : Z) (mp : TxPool)
  : result pool_error (list TxDesc) * TxPool :=
  match maybeAcceptTransaction cfg now tx true rateLimit true mp with
  | (Err e, mp) => (Err e, mp)
  | (Panic, mp) => (Panic, mp)
  | (Ok ([], txD), mp) =>
      match pool_processOrphans cfg now tx mp with
      | (Ok newTxs, mp) => (Ok (option_list txD ++ newTxs), mp)
      | (r, mp) => (r, mp)
      end
  | (Ok (_ :: _, _), mp) =>
      if negb allowOrphan then (Err (TxRuleError RejectDuplicate), mp)
      else match maybeAddOrphan (cfg_Policy cfg) now tx tag mp with
           | Ok mp => (Ok [], mp)
           | Err e => (Err e, mp)
           | Panic => (Panic, mp)
           end
  end.

(** ** Reading the pool *)

Definition Count (mp : TxPool) : Z := Z.of_nat (size (pool mp)).
Definition TxHashes (mp : TxPool) : list Hash := (range (pool mp)).*1.
Definition TxDescs (mp : TxPool) : list TxDesc := (range (pool mp)).*2.
Definition MiningDescs (mp : TxPool) : list TxDesc := (range (pool mp)).*2.
Definition LastUpdated (mp : TxPool) : Z := lastUpdated mp.

(** ** The functions of the chain *)

(** As in [newServer] of server.go, where [IsDeploymentActive] is commented
    out; nothing is asked when there is no tip.  The server also configures the
    fee estimator, which [addTransaction] tells about the new transaction; its
    statistics are not part of the model and the pool never reads them. *)
Definition chain_config (policy : RelayPolicy) (params : Params) (sigCache : option SigCache) (s : chainStore) : Config :=
  mkConfig policy params (FetchUtxoView (s_db s)) (bs_Height (s_snapshot s)) (bs_MedianTime (s_snapshot s))
    (fun tx view => match tip (s_bestChain s) with
                    | Some node => calcSequenceLock node tx view true
                    | None => Panic
                    end)
    None sigCache.

End Pool.
