(* ===== verification/MempoolInv.v ===== *)
(** * The pool of transactions: invariants

    The orphan pool and its index agree, the outputs that are marked as spent are
    exactly those the transactions of the pool spend, and both stay so through
    every operation; the recursions and the worklist end. *)

From S2P Require Import Prelude Float64 Chainhash Wire Hash WireMsg ScriptNum Stack Opcode Script ScriptBuilder.
From S2P Require Import Signature Engine EngineSafety EngineCache PubKeyHash Standard Compress BlockIndex Validate Utxo.
From S2P Require Import ScriptVal ConnectBlock ChainIO ChainView Chain ConnectChain Policy Mempool.

Definition inputs (tx : MsgTx) : list OutPoint := map ti_PreviousOutPoint (tx_TxIn tx).

Lemma size_shrinks (D X : gset Hash) h : h ∈ D -> h ∉ X -> (size (D ∖ ({[h]} ∪ X)) < size (D ∖ X))%nat.
Proof.
  intros Hd Hx. apply subset_size. split.
  - intros x. rewrite !elem_of_difference, not_elem_of_union. intuition.
  - intros Hs. specialize (Hs h). rewrite !elem_of_difference, not_elem_of_union, not_elem_of_singleton in Hs.
    destruct Hs as [_ [[] _]]; done.
Qed.

Section Invariant.
Context `{HashFunctions} `{ScriptHashes} `{Curve} `{MapOrder} `{OutPointOrder} `{MathPow}.

(** ** The orphan pool *)

(** The index lists the orphans under their inputs, but for the orphans in [X],
    which are being removed. *)
Record orphans_ok (X : gset Hash) (mp : TxPool) : Prop := {
  oo_hash : forall h ot, orphans mp !! h = Some ot -> TxHash (ot_tx ot) = h;
  oo_index : forall o h tx, redeemers o (orphansByPrev mp) !! h = Some tx <->
    (h ∉ X) /\ exists ot, orphans mp !! h = Some ot /\ ot_tx ot = tx /\ o ∈ inputs tx;
  oo_nonempty : forall o w, orphansByPrev mp !! o = Some w -> w <> ∅
}.

(** The parts of the state the orphan operations do not touch. *)
Definition same_pool (mp mp' : TxPool) : Prop :=
  pool mp' = pool mp /\ outpoints mp' = outpoints mp /\ pennyTotal mp' = pennyTotal mp
  /\ lastPennyUnix mp' = lastPennyUnix mp /\ lastUpdated mp' = lastUpdated mp.

#[local] Instance same_pool_refl : Reflexive same_pool.
Proof. by intros mp. Qed.
#[local] Instance same_pool_trans : Transitive same_pool.
Proof. intros a b c (? & ? & ? & ? & ?) (? & ? & ? & ? & ?). repeat split; congruence. Qed.

Lemma redeemers_unlink h prev m o :
  redeemers o (unlink_input h prev m) = if decide (o = prev) then delete h (redeemers o m) else redeemers o m.
Proof.
  unfold redeemers, unlink_input. destruct (decide (o = prev)) as [->|Hne].
  - destruct (m !! prev) as [w|] eqn:Hm; cbn; [|by rewrite Hm, delete_empty].
    destruct (_ =? _)%nat eqn:Hs.
    + rewrite lookup_delete_eq. cbn. apply Nat.eqb_eq, map_size_empty_inv in Hs. by rewrite Hs.
    + by rewrite lookup_insert_eq.
  - destruct (m !! prev) as [w|]; [|done].
    destruct (_ =? _)%nat; [by rewrite lookup_delete_ne|by rewrite lookup_insert_ne].
Qed.

Lemma redeemers_unlink_all h ins m o :
  redeemers o (unlink_inputs h ins m)
  = if decide (o ∈ map ti_PreviousOutPoint ins) then delete h (redeemers o m) else redeemers o m.
Proof.
  unfold unlink_inputs. revert m. induction ins as [|i ins IH]; intros m; cbn [fold_left map].
  { rewrite decide_False; [done|apply not_elem_of_nil]. }
  rewrite IH, redeemers_unlink. destruct (decide (o = ti_PreviousOutPoint i)) as [->|Hne].
  - rewrite (decide_True _ _ (P := ti_PreviousOutPoint i ∈ _ :: _)) by left.
    destruct (decide _); [|done]. by rewrite delete_delete_eq.
  - destruct (decide (o ∈ map ti_PreviousOutPoint ins)) as [Hin|Hin].
    + by rewrite decide_True by (by right).
    + rewrite decide_False; [done|]. by rewrite not_elem_of_cons.
Qed.

Lemma unlink_nonempty h ins m :
  (forall o w, m !! o = Some w -> w <> ∅) -> forall o w, unlink_inputs h ins m !! o = Some w -> w <> ∅.
Proof.
  unfold unlink_inputs. revert m. induction ins as [|i ins IH]; intros m Hm; cbn [fold_left]; [done|].
  apply IH. intros o w. unfold unlink_input. destruct (m !! _) as [w0|] eqn:Hw; [|apply Hm].
  destruct (_ =? _)%nat eqn:Hs; [rewrite lookup_delete_Some; intros [_ ?]; by eapply Hm|].
  destruct (decide (ti_PreviousOutPoint i = o)) as [<-|Hne]; [|rewrite lookup_insert_ne by done; apply Hm].
  rewrite lookup_insert_eq. intros [= <-] He. rewrite He, map_size_empty in Hs. done.
Qed.

(** Taking an orphan out of the index. *)
Lemma unlink_ok X mp h ot :
  orphans_ok X mp -> orphans mp !! h = Some ot ->
  orphans_ok ({[h]} ∪ X) (set_orphans (orphans mp) (unlink_inputs h (tx_TxIn (ot_tx ot)) (orphansByPrev mp)) mp).
Proof.
  intros [Hh Hi Hn] Ho. split; cbn; [done| |by apply unlink_nonempty].
  intros o h' tx. rewrite redeemers_unlink_all, not_elem_of_union, not_elem_of_singleton.
  destruct (decide (h' = h)) as [->|Hne].
  - split; [|by intros [[? _] _]]. intros Hr. exfalso. destruct (decide _) as [Hin|Hin].
    + by rewrite lookup_delete_eq in Hr.
    + apply Hi in Hr as (_ & ot' & Hot' & <- & Hin'). rewrite Ho in Hot'. injection Hot' as <-. by apply Hin.
  - assert (Hr : (if decide (o ∈ map ti_PreviousOutPoint (tx_TxIn (ot_tx ot))) then delete h (redeemers o (orphansByPrev mp))
        else redeemers o (orphansByPrev mp)) !! h' = redeemers o (orphansByPrev mp) !! h').
    { destruct (decide _); [by rewrite lookup_delete_ne|done]. }
    rewrite Hr, Hi. intuition.
Qed.

(** Taking an orphan that is out of the index out of the pool. *)
Lemma drop_ok X mp h :
  h ∉ X -> orphans_ok ({[h]} ∪ X) mp -> orphans_ok X (set_orphans (delete h (orphans mp)) (orphansByPrev mp) mp).
Proof.
  intros Hx [Hh Hi Hn]. split; cbn; [|intros o h' tx|done].
  { intros h' ot. rewrite lookup_delete_Some. intros [_ ?]. by apply Hh. }
  rewrite Hi, not_elem_of_union, not_elem_of_singleton. split.
  - intros ([Hne Hn'] & ot & Ho & He). split; [done|]. exists ot. by rewrite lookup_delete_ne.
  - intros (Hn' & ot & Ho & He). apply lookup_delete_Some in Ho as [Hne Ho]. split; [by split|]. by exists ot.
Qed.

(** Fewer orphans, with the ones that are being removed untouched. *)
Record fewer (X : gset Hash) (mp mp' : TxPool) : Prop := {
  fw_sub : orphans mp' ⊆ orphans mp;
  fw_keep : forall h, h ∈ X -> orphans mp' !! h = orphans mp !! h;
  fw_same : same_pool mp mp';
  fw_scan : nextExpireScan mp' = nextExpireScan mp
}.

#[local] Instance fewer_refl X : Reflexive (fewer X).
Proof. by split. Qed.
#[local] Instance fewer_trans X : Transitive (fewer X).
Proof.
  intros a b c [S1 K1 M1 N1] [S2 K2 M2 N2]. split; [by etrans| |by etrans|congruence]. intros h Hh. by rewrite K2, K1.
Qed.

Lemma fewer_redeemers X mp mp' o :
  orphans_ok X mp -> orphans_ok X mp' -> fewer X mp mp' ->
  redeemers o (orphansByPrev mp') ⊆ redeemers o (orphansByPrev mp).
Proof.
  intros [_ Hi _] [_ Hi' _] [Hs _ _ _]. apply map_subseteq_spec. intros h tx Hr. apply Hi' in Hr as (Hx & ot & Ho & He).
  apply Hi. split; [done|]. exists ot. split; [|done]. by eapply lookup_weaken.
Qed.

(** What removing one orphan does; [X] are the orphans that are being removed
    further up. *)
Definition removal (body : MsgTx -> TxPool -> option TxPool) (X : gset Hash) (n : nat) : Prop :=
  forall tx mp, TxHash tx ∉ X -> orphans_ok X mp -> (size (dom (orphans mp) ∖ X) < n)%nat ->
    exists mp', body tx mp = Some mp' /\ orphans_ok X mp' /\ fewer X mp mp' /\ orphans mp' !! TxHash tx = None.

Lemma fewer_size X mp mp' : fewer X mp mp' -> (size (dom (orphans mp') ∖ X) <= size (dom (orphans mp) ∖ X))%nat.
Proof.
  intros Hf. apply subseteq_size. intros h. rewrite !elem_of_difference, !elem_of_dom. intros [[ot Ho] Hx]. split; [|done].
  exists ot. eapply lookup_weaken; [exact Ho|apply Hf].
Qed.

Lemma index_none X mp h o : orphans_ok X mp -> orphans mp !! h = None -> redeemers o (orphansByPrev mp) !! h = None.
Proof.
  intros [_ Hi _] Hn. apply eq_None_not_Some. intros [tx Htx]. apply Hi in Htx as (_ & ot & Ho & _). congruence.
Qed.

Lemma range_live_ok body X n o keys mp :
  removal body X n -> Forall (fun p => TxHash p.2 = p.1) keys ->
  orphans_ok X mp -> (size (dom (orphans mp) ∖ X) < n)%nat ->
  exists mp', range_live keys (fun mp => redeemers o (orphansByPrev mp)) body mp = Some mp'
    /\ orphans_ok X mp' /\ fewer X mp mp'
    /\ Forall (fun p => redeemers o (orphansByPrev mp') !! p.1 = None) keys.
Proof.
  intros Hb Hk. revert mp. induction Hk as [|[h tx] keys Hh _ IH]; intros mp Hok Hn; [by exists mp|].
  cbn [fst snd] in Hh. cbn [range_live]. destruct (redeemers o (orphansByPrev mp) !! h) as [tx'|] eqn:Hr.
  - assert (Hx : TxHash tx ∉ X) by (rewrite Hh; by apply (oo_index X mp Hok) in Hr as [? _]).
    destruct (Hb tx mp Hx Hok Hn) as (mp1 & -> & Hok1 & Hf1 & Hn1). cbn.
    destruct (IH mp1 Hok1) as (mp2 & -> & Hok2 & Hf2 & Hd2); [pose proof (fewer_size _ _ _ Hf1); lia|].
    exists mp2. split; [done|]. split; [done|]. split; [by etrans|]. constructor; [|done]. cbn. rewrite <- Hh.
    apply (index_none X); [done|]. eapply lookup_weaken_None; [exact Hn1|apply Hf2].
  - destruct (IH mp Hok Hn) as (mp2 & -> & Hok2 & Hf2 & Hd2).
    exists mp2. split; [done|]. split; [done|]. split; [done|]. constructor; [|done]. cbn.
    eapply lookup_weaken_None; [exact Hr|]. by eapply fewer_redeemers.
Qed.

Lemma index_keys X mp o :
  orphans_ok X mp -> Forall (fun p => TxHash p.2 = p.1) (range (redeemers o (orphansByPrev mp))).
Proof.
  intros Hok. apply List.Forall_forall. intros [h tx] Hin. apply list_elem_of_In in Hin. rewrite range_perm in Hin.
  apply elem_of_map_to_list in Hin. apply (oo_index X mp Hok) in Hin as (_ & ot & Ho & <- & _). by apply (oo_hash X mp Hok).
Qed.

Lemma range_all_gone X mp mp' o :
  orphans_ok X mp -> orphans_ok X mp' -> fewer X mp mp' ->
  Forall (fun p => redeemers o (orphansByPrev mp') !! p.1 = None) (range (redeemers o (orphansByPrev mp))) ->
  redeemers o (orphansByPrev mp') = ∅.
Proof.
  intros Hok Hok' Hf Hd. apply map_empty. intros h. destruct (redeemers o (orphansByPrev mp') !! h) as [tx|] eqn:Hr; [|done].
  exfalso. assert (Hin : (h, tx) ∈ range (redeemers o (orphansByPrev mp))).
  { rewrite range_perm. apply elem_of_map_to_list. eapply lookup_weaken; [exact Hr|]. by eapply fewer_redeemers. }
  rewrite List.Forall_forall in Hd. apply list_elem_of_In, Hd in Hin. cbn in Hin. congruence.
Qed.

Lemma each_output_ok body X n outs mp :
  removal body X n -> orphans_ok X mp -> (size (dom (orphans mp) ∖ X) < n)%nat ->
  exists mp', each_output outs body mp = Some mp' /\ orphans_ok X mp' /\ fewer X mp mp'
    /\ Forall (fun o => redeemers o (orphansByPrev mp') = ∅) outs.
Proof.
  intros Hb. revert mp. induction outs as [|o outs IH]; intros mp Hok Hn; [by exists mp|]. cbn [each_output].
  destruct (range_live_ok body X n o (range (redeemers o (orphansByPrev mp))) mp Hb (index_keys X mp o Hok) Hok Hn)
    as (mp1 & -> & Hok1 & Hf1 & Hd1). cbn.
  destruct (IH mp1 Hok1) as (mp2 & -> & Hok2 & Hf2 & Hd2); [pose proof (fewer_size _ _ _ Hf1); lia|].
  exists mp2. split; [done|]. split; [done|]. split; [by etrans|]. constructor; [|done].
  pose proof (range_all_gone X mp mp1 o Hok Hok1 Hf1 Hd1) as He. apply map_empty. intros h.
  eapply lookup_weaken_None; [|exact (fewer_redeemers X mp1 mp2 o Hok1 Hok2 Hf2)]. by rewrite He.
Qed.

(** One level of the recursion. *)
Lemma remove_orphan_step fuel rr X tx mp :
  (forall X, removal (remove_orphan fuel true) X fuel) ->
  TxHash tx ∉ X -> orphans_ok X mp -> (size (dom (orphans mp) ∖ X) < S fuel)%nat ->
  exists mp', remove_orphan (S fuel) rr tx mp = Some mp' /\ orphans_ok X mp' /\ fewer X mp mp'
    /\ orphans mp' !! TxHash tx = None
    /\ (rr = true -> is_Some (orphans mp !! TxHash tx) ->
        Forall (fun o => redeemers o (orphansByPrev mp') = ∅) (tx_outpoints tx)).
Proof.
  intros IH Hx Hok Hn. cbn [remove_orphan]. set (h := TxHash tx) in *. clearbody h.
  destruct (orphans mp !! h) as [ot|] eqn:Ho; 
    [|exists mp; do 4 (split; [done|]); by intros _ [ot Hot]].
  pose proof (unlink_ok X mp h ot Hok Ho) as Hok1. set (mp1 := set_orphans _ _ _) in *.
  assert (Hlt : (size (dom (orphans mp1) ∖ ({[h]} ∪ X)) < fuel)%nat).
  { cbn [orphans mp1 set_orphans]. eapply Nat.lt_le_trans; [apply size_shrinks|]; [apply elem_of_dom; by exists ot|done|lia]. }
  assert (Hstep : exists mp2, (if rr then each_output (tx_outpoints tx) (remove_orphan fuel true) mp1 else Some mp1) = Some mp2
    /\ orphans_ok ({[h]} ∪ X) mp2 /\ fewer ({[h]} ∪ X) mp1 mp2
    /\ (rr = true -> Forall (fun o => redeemers o (orphansByPrev mp2) = ∅) (tx_outpoints tx))).
  { destruct rr; [|by exists mp1].
    destruct (each_output_ok _ _ _ (tx_outpoints tx) mp1 (IH ({[h]} ∪ X)) Hok1 Hlt) as (mp2 & ? & ? & ? & ?).
    by exists mp2. }
  destruct Hstep as (mp2 & -> & Hok2 & [Hs2 Hk2 Hsame2 Hscan2] & Hd2). cbn.
  eexists. split; [done|]. split; [by apply drop_ok|]. split; [|split; [apply lookup_delete_eq|by intros ? _; apply Hd2]].
  split; cbn.
  - etrans; [apply delete_subseteq|exact Hs2].
  - intros h' Hh'. rewrite lookup_delete_ne by (intros <-; done). apply Hk2, elem_of_union. by right.
  - done.
  - exact Hscan2.
Qed.

Lemma remove_orphan_ok fuel rr X : removal (remove_orphan fuel rr) X fuel.
Proof.
  revert rr X. induction fuel as [|fuel IH]; intros rr X tx mp Hx Hok Hn; [lia|].
  destruct (remove_orphan_step fuel rr X tx mp (IH true) Hx Hok Hn) as (mp' & ? & ? & ? & ? & _). by exists mp'.
Qed.

(** [removeOrphan] has enough fuel; it removes the orphan and, on request, all
    orphans that wait for its outputs. *)
Lemma removeOrphan_spec tx rr mp :
  orphans_ok ∅ mp ->
  orphans_ok ∅ (removeOrphan tx rr mp) /\ fewer ∅ mp (removeOrphan tx rr mp)
  /\ orphans (removeOrphan tx rr mp) !! TxHash tx = None
  /\ (rr = true -> is_Some (orphans mp !! TxHash tx) ->
      Forall (fun o => redeemers o (orphansByPrev (removeOrphan tx rr mp)) = ∅) (tx_outpoints tx)).
Proof.
  intros Hok. unfold removeOrphan.
  destruct (remove_orphan_step (size (orphans mp)) rr ∅ tx mp) as (mp' & -> & ?); try done.
  - apply remove_orphan_ok.
  - rewrite difference_empty_L, size_dom. lia.
Qed.

Lemma remove_orphans_where_ok p l mp :
  orphans_ok ∅ mp -> orphans_ok ∅ (remove_orphans_where p l mp).2 /\ fewer ∅ mp (remove_orphans_where p l mp).2.
Proof.
  revert mp. induction l as [|[h ot] l IH]; intros mp Hok; [done|]. cbn [remove_orphans_where].
  destruct (orphans mp !! h); [|by apply IH]. destruct (p ot); [|by apply IH].
  destruct (removeOrphan_spec (ot_tx ot) true mp Hok) as (Hok1 & Hf1 & _). destruct (IH _ Hok1) as [Hok2 Hf2].
  destruct (remove_orphans_where p l (removeOrphan (ot_tx ot) true mp)) as [n mp']. cbn in *. split; [done|by etrans].
Qed.

(** At most the allowed number of orphans, less one, are left. *)
Lemma limitNumOrphans_ok policy now mp :
  orphans_ok ∅ mp -> Z.of_nat (size (orphans mp)) <= MaxOrphanTxs policy -> 0 < MaxOrphanTxs policy ->
  let mp' := limitNumOrphans policy now mp in
  orphans_ok ∅ mp' /\ orphans mp' ⊆ orphans mp /\ same_pool mp mp'
  /\ Z.of_nat (size (orphans mp')) + 1 <= MaxOrphanTxs policy.
Proof.
  intros Hok Hsz Hpos. unfold limitNumOrphans.
  set (mp1 := if _ <? now then _ else mp).
  assert (Hone : orphans_ok ∅ mp1 /\ orphans mp1 ⊆ orphans mp /\ same_pool mp mp1).
  { unfold mp1. destruct (_ <? now); [|done].
    destruct (remove_orphans_where_ok (fun otx => ot_expiration otx <? now) (range (orphans mp)) mp Hok) as [[Hh Hi Hn] [Hs _ Hp _]].
    split; [by split|]. by split. }
  destruct Hone as (Hok1 & Hsub1 & Hp1). clearbody mp1.
  assert (Hs1 : (size (orphans mp1) <= size (orphans mp))%nat) by (by apply map_subseteq_size).
  destruct (Z.leb_spec (Z.of_nat (size (orphans mp1)) + 1) (MaxOrphanTxs policy)) as [Hle|Hgt]; [done|].
  destruct (range (orphans mp1)) as [|[h ot] l] eqn:Hr.
  - assert (Hz : size (orphans mp1) = 0%nat).
    { rewrite <- length_map_to_list, <- range_perm, Hr. done. }
    rewrite Hz in Hgt |- *. lia.
  - destruct (removeOrphan_spec (ot_tx ot) false mp1 Hok1) as (Hok2 & Hf2 & Hg2 & _).
    assert (Hin : orphans mp1 !! h = Some ot).
    { apply elem_of_map_to_list. rewrite <- range_perm, Hr. left. }
    rewrite (oo_hash ∅ mp1 Hok1 h ot Hin) in Hg2. split; [done|].
    split; [etrans; [apply Hf2|done]|]. split; [by etrans; [|apply Hf2]|].
    assert (Hlt : (size (orphans (removeOrphan (ot_tx ot) false mp1)) < size (orphans mp1))%nat); [|lia].
    apply map_subset_size. split; [apply Hf2|]. intros Hsup. pose proof (lookup_weaken _ _ _ _ Hin Hsup). congruence.
Qed.

Lemma redeemers_link tx prev m o :
  redeemers o (link_input tx prev m) = if decide (o = prev) then <[TxHash tx := tx]> (redeemers o m) else redeemers o m.
Proof.
  unfold link_input, redeemers at 1. destruct (decide (o = prev)) as [->|Hne].
  - by rewrite lookup_insert_eq.
  - by rewrite lookup_insert_ne.
Qed.

Lemma redeemers_link_all tx ins m o :
  redeemers o (fold_left (fun m txIn => link_input tx (ti_PreviousOutPoint txIn) m) ins m)
  = if decide (o ∈ map ti_PreviousOutPoint ins) then <[TxHash tx := tx]> (redeemers o m) else redeemers o m.
Proof.
  revert m. induction ins as [|i ins IH]; intros m; cbn [fold_left map].
  { rewrite decide_False; [done|apply not_elem_of_nil]. }
  rewrite IH, redeemers_link. destruct (decide (o = ti_PreviousOutPoint i)) as [->|Hne].
  - rewrite (decide_True _ _ (P := ti_PreviousOutPoint i ∈ _ :: _)) by left.
    destruct (decide _); [|done]. by rewrite insert_insert_eq.
  - destruct (decide (o ∈ map ti_PreviousOutPoint ins)) as [Hin|Hin].
    + by rewrite decide_True by (by right).
    + rewrite decide_False; [done|]. by rewrite not_elem_of_cons.
Qed.

Lemma link_nonempty tx ins m :
  (forall o w, m !! o = Some w -> w <> ∅) ->
  forall o w, fold_left (fun m txIn => link_input tx (ti_PreviousOutPoint txIn) m) ins m !! o = Some w -> w <> ∅.
Proof.
  revert m. induction ins as [|i ins IH]; intros m Hm; cbn [fold_left]; [done|]. apply IH. intros o w.
  unfold link_input. destruct (decide (ti_PreviousOutPoint i = o)) as [<-|Hne]; [|rewrite lookup_insert_ne by done; apply Hm].
  rewrite lookup_insert_eq. intros [= <-]. apply insert_non_empty.
Qed.

Lemma pool_addOrphan_ok policy now tx tag mp :
  orphans_ok ∅ mp -> orphans mp !! TxHash tx = None -> Z.of_nat (size (orphans mp)) <= Z.max 0 (MaxOrphanTxs policy) ->
  let mp' := addOrphan policy now tx tag mp in
  orphans_ok ∅ mp' /\ same_pool mp mp' /\ Z.of_nat (size (orphans mp')) <= Z.max 0 (MaxOrphanTxs policy)
  /\ (forall h, is_Some (orphans mp' !! h) -> h = TxHash tx \/ is_Some (orphans mp !! h)).
Proof.
  intros Hok Hn Hsz. unfold addOrphan. destruct (Z.leb_spec (MaxOrphanTxs policy) 0) as [Hle|Hpos];
    [do 3 (split; [done|]); by right|].
  destruct (limitNumOrphans_ok policy now mp Hok ltac:(lia) Hpos) as (Hok1 & Hsub & Hp & Hs). cbv zeta.
  set (mp1 := limitNumOrphans policy now mp) in *. clearbody mp1.
  assert (Hn1 : orphans mp1 !! TxHash tx = None) by (by eapply lookup_weaken_None). cbn.
  split; [|split; [done|split]].
  - destruct Hok1 as [Hh Hi He]. split; cbn; [| |by apply link_nonempty].
    + intros h ot. destruct (decide (TxHash tx = h)) as [<-|Hne]; [by rewrite lookup_insert_eq; intros [= <-]|].
      rewrite lookup_insert_ne by done. apply Hh.
    + intros o h t. rewrite redeemers_link_all. destruct (decide (TxHash tx = h)) as [<-|Hne].
      * rewrite lookup_insert_eq. split.
        -- destruct (decide _) as [Hin|Hin]; [rewrite lookup_insert_eq; intros [= <-]; split; [apply not_elem_of_empty|by eexists]|].
           intros Hr. apply Hi in Hr as (_ & ot & Ho & _). congruence.
        -- intros (_ & ot & [= <-] & <- & Hin). cbn in Hin. rewrite decide_True by done. by rewrite lookup_insert_eq.
      * rewrite lookup_insert_ne by done.
        assert (Hr : (if decide (o ∈ map ti_PreviousOutPoint (tx_TxIn tx)) then <[TxHash tx:=tx]> (redeemers o (orphansByPrev mp1))
          else redeemers o (orphansByPrev mp1)) !! h = redeemers o (orphansByPrev mp1) !! h)
          by (destruct (decide _); [by rewrite lookup_insert_ne|done]).
        rewrite Hr. apply Hi.
  - rewrite map_size_insert_None by done. lia.
  - intros h [ot Ho]. destruct (decide (TxHash tx = h)) as [<-|Hne]; [by left|right].
    rewrite lookup_insert_ne in Ho by done. exists ot. by eapply lookup_weaken.
Qed.

(** ** The main pool *)

(** The outputs marked as spent are those the transactions of the pool spend; in
    particular no two of them spend the same output. *)
Record pool_ok (mp : TxPool) : Prop := {
  po_hash : forall h d, pool mp !! h = Some d -> TxHash (td_Tx d) = h;
  po_spent : forall o tx, outpoints mp !! o = Some tx <->
    exists d, pool mp !! TxHash tx = Some d /\ td_Tx d = tx /\ o ∈ inputs tx
}.

Lemma lookup_spend tx ins (m : gmap OutPoint MsgTx) o :
  fold_left (fun m txIn => <[ti_PreviousOutPoint txIn := tx]> m) ins m !! o
  = if decide (o ∈ map ti_PreviousOutPoint ins) then Some tx else m !! o.
Proof.
  revert m. induction ins as [|i ins IH]; intros m; cbn [fold_left map].
  { rewrite decide_False; [done|apply not_elem_of_nil]. }
  rewrite IH. destruct (decide (o ∈ map ti_PreviousOutPoint ins)) as [Hin|Hin].
  - by rewrite decide_True by (by right).
  - destruct (decide (o = ti_PreviousOutPoint i)) as [->|Hne].
    + rewrite lookup_insert_eq, decide_True by left. done.
    + rewrite lookup_insert_ne by done. rewrite decide_False; [done|]. by rewrite not_elem_of_cons.
Qed.

Lemma lookup_unspend tx (m : gmap OutPoint MsgTx) o :
  unspend_inputs tx m !! o = if decide (o ∈ inputs tx) then None else m !! o.
Proof.
  unfold unspend_inputs, inputs. revert m. induction (tx_TxIn tx) as [|i ins IH]; intros m; cbn [fold_left map].
  { rewrite decide_False; [done|apply not_elem_of_nil]. }
  rewrite IH. destruct (decide (o ∈ map ti_PreviousOutPoint ins)) as [Hin|Hin].
  - by rewrite decide_True by (by right).
  - destruct (decide (o = ti_PreviousOutPoint i)) as [->|Hne].
    + rewrite lookup_delete_eq, decide_True by left. done.
    + rewrite lookup_delete_ne by done. rewrite decide_False; [done|]. by rewrite not_elem_of_cons.
Qed.

Lemma addTransaction_ok now view tx height fee mp :
  pool_ok mp -> pool mp !! TxHash tx = None -> Forall (fun o => outpoints mp !! o = None) (inputs tx) ->
  pool_ok (addTransaction now view tx height fee mp).2.
Proof.
  intros [Hh Hs] Hn Hfree. unfold addTransaction. set (txD := mkTxDesc _ _ _ _ _ _). cbn [snd].
  rewrite List.Forall_forall in Hfree. split; cbn.
  - intros h d. destruct (decide (TxHash tx = h)) as [<-|Hne]; [by rewrite lookup_insert_eq; intros [= <-]|].
    rewrite lookup_insert_ne by done. apply Hh.
  - intros o t. rewrite lookup_spend. destruct (decide (TxHash tx = TxHash t)) as [Heq|Hne].
    + rewrite <- Heq, lookup_insert_eq. split.
      * destruct (decide _) as [Hin|Hin]; [intros [= <-]; by exists txD|]. intros Ho. apply Hs in Ho as (d & Hd & _). congruence.
      * intros (d & [= <-] & <- & Hin). by rewrite decide_True.
    + rewrite lookup_insert_ne by done. split.
      * destruct (decide _) as [Hin|Hin]; [by intros [= <-]|]. apply Hs.
      * intros Hd. apply Hs in Hd. destruct (decide _) as [Hin|Hin]; [|done].
        apply list_elem_of_In, Hfree in Hin. congruence.
Qed.

Lemma remove_one_ok now tx mp :
  pool_ok mp -> pool_ok (remove_one now tx mp) /\ pool (remove_one now tx mp) = delete (TxHash tx) (pool mp).
Proof.
  intros Hok. unfold remove_one. destruct (pool mp !! TxHash tx) as [d|] eqn:Hd; [|split; [done|by rewrite delete_id]].
  split; [|done]. destruct Hok as [Hh Hs]. pose proof (Hh _ _ Hd) as Hdh. split; cbn.
  - intros h d'. rewrite lookup_delete_Some. intros [_ ?]. by apply Hh.
  - intros o t. rewrite lookup_unspend. split.
    + destruct (decide _) as [Hin|Hin]; [done|]. intros Ho. pose proof Ho as Ho'. apply Hs in Ho' as (d' & Hd' & He & Hin').
      exists d'. split; [|done]. rewrite lookup_delete_ne; [done|]. intros Heq. rewrite <- Heq, Hd in Hd'. injection Hd' as <-.
      by rewrite <- He in Hin'.
    + intros (d' & Hd' & He & Hin'). apply lookup_delete_Some in Hd' as [Hne Hd'].
      assert (Ho : outpoints mp !! o = Some t) by (apply Hs; by exists d').
      destruct (decide _) as [Hin|Hin]; [|done]. exfalso.
      assert (Ho2 : outpoints mp !! o = Some (td_Tx d)) by (apply Hs; exists d; by rewrite Hdh).
      apply Hne. rewrite <- Hdh. congruence.
Qed.

Lemma outpoints_shrink mp mp' :
  pool_ok mp -> pool_ok mp' -> pool mp' ⊆ pool mp -> outpoints mp' ⊆ outpoints mp.
Proof.
  intros [_ Hs] [_ Hs'] Hsub. apply map_subseteq_spec. intros o t Ho. apply Hs' in Ho as (d & Hd & He). apply Hs.
  exists d. split; [by eapply lookup_weaken|done].
Qed.

(** ** Removing transactions *)

(** The transactions that spend an output of [tx], of one of those, and so on. *)
Inductive descends (p : gmap Hash TxDesc) (tx : MsgTx) : MsgTx -> Prop :=
  | desc_self : descends p tx tx
  | desc_child t d o :
      descends p tx t -> p !! TxHash (td_Tx d) = Some d -> o ∈ tx_outpoints t -> o ∈ inputs (td_Tx d) ->
      descends p tx (td_Tx d).

Lemma descends_trans p p' tx t u : p' ⊆ p -> descends p tx t -> descends p' t u -> descends p tx u.
Proof.
  intros Hs Ht. induction 1 as [|v d o _ IH Hd Ho Hi]; [done|]. eapply desc_child; [exact IH| |exact Ho|exact Hi].
  by eapply lookup_weaken.
Qed.

Section Ranked.
(** No transaction refers to itself through others: hashes have a rank that
    grows from a transaction to those that spend it. *)
Context (rank : Hash -> nat).
Definition ranked (mp : TxPool) : Prop :=
  forall h d, pool mp !! h = Some d -> forall o, o ∈ inputs (td_Tx d) -> (rank (op_Hash o) < rank h)%nat.

Lemma ranked_sub mp mp' : ranked mp -> pool mp' ⊆ pool mp -> ranked mp'.
Proof. intros Hr Hs h d Hd. apply Hr. by eapply lookup_weaken. Qed.

(** The transactions of a higher rank. *)
Definition above (r : nat) (mp : TxPool) : gset Hash := filter (fun h => (r < rank h)%nat) (dom (pool mp)).

Lemma above_shrinks r mp mp' h :
  pool mp' ⊆ pool mp -> is_Some (pool mp' !! h) -> (r < rank h)%nat -> (size (above (rank h) mp') < size (above r mp))%nat.
Proof.
  intros Hs Hh Hr. apply subset_size. unfold above. split.
  - intros x. rewrite !elem_of_filter. intros [Hx Hd]. split; [lia|].
    apply elem_of_dom in Hd as [d Hd]. apply elem_of_dom. exists d. exact (lookup_weaken _ _ _ _ Hd Hs).
  - intros Hsup. specialize (Hsup h). rewrite !elem_of_filter in Hsup. destruct Hsup as [Hlt _]; [|lia].
    split; [done|]. destruct Hh as [d Hd]. apply elem_of_dom. exists d. exact (lookup_weaken _ _ _ _ Hd Hs).
Qed.

(** The parts of the state removing transactions does not touch. *)
Definition same_orphans (mp mp' : TxPool) : Prop :=
  orphans mp' = orphans mp /\ orphansByPrev mp' = orphansByPrev mp /\ nextExpireScan mp' = nextExpireScan mp.

(** What removing [tx] with its redeemers does. *)
Record removed (tx : MsgTx) (mp mp' : TxPool) : Prop := {
  rm_ok : pool_ok mp';
  rm_sub : pool mp' ⊆ pool mp;
  rm_only : forall h d, pool mp !! h = Some d -> pool mp' !! h = None -> h = TxHash tx \/ descends (pool mp) tx (td_Tx d);
  rm_closed : forall t, t = tx \/ (exists h d, pool mp !! h = Some d /\ td_Tx d = t /\ pool mp' !! h = None /\ h <> TxHash tx) ->
    Forall (fun o => outpoints mp' !! o = None) (tx_outpoints t);
  rm_frame : same_orphans mp mp'
}.

(** The state of the loop over the outputs. *)
Record removing (tx : MsgTx) (done_outs : list OutPoint) (mp mp' : TxPool) : Prop := {
  rg_ok : pool_ok mp';
  rg_sub : pool mp' ⊆ pool mp;
  rg_only : forall h d, pool mp !! h = Some d -> pool mp' !! h = None -> descends (pool mp) tx (td_Tx d);
  rg_closed : forall h d, pool mp !! h = Some d -> pool mp' !! h = None ->
    Forall (fun o => outpoints mp' !! o = None) (tx_outpoints (td_Tx d));
  rg_done : Forall (fun o => outpoints mp' !! o = None) done_outs;
  rg_frame : same_orphans mp mp'
}.

Definition redeemer_step (fuel : nat) (now : Z) (r : option TxPool) (o : OutPoint) : option TxPool :=
  mp ← r; match outpoints mp !! o with
          | Some txRedeemer => remove_transaction fuel now true txRedeemer mp
          | None => Some mp
          end.

Lemma outpoints_none mp mp' (os : list OutPoint) :
  outpoints mp' ⊆ outpoints mp -> Forall (fun o => outpoints mp !! o = None) os -> Forall (fun o => outpoints mp' !! o = None) os.
Proof. intros Hs Ho. eapply List.Forall_impl; [|exact Ho]. intros o Hn. exact (lookup_weaken_None _ _ _ Hn Hs). Qed.

Lemma removing_step fuel now tx outs mp mp1 o :
  (forall t m, pool_ok m -> ranked m -> (size (above (rank (TxHash t)) m) < fuel)%nat ->
     exists m', remove_transaction fuel now true t m = Some m' /\ removed t m m' /\ pool m' !! TxHash t = None) ->
  ranked mp -> (size (above (rank (TxHash tx)) mp) <= fuel)%nat -> o ∈ tx_outpoints tx ->
  removing tx outs mp mp1 ->
  exists mp2, redeemer_step fuel now (Some mp1) o = Some mp2 /\ removing tx (outs ++ [o]) mp mp2.
Proof.
  intros IH Hr Hfuel Ho [Hok Hs Honly Hcl Hdone Hfr]. cbn. destruct (outpoints mp1 !! o) as [t|] eqn:Hout; cycle 1.
  { exists mp1. split; [done|]. split; try done. apply Forall_app. split; [done|by constructor]. }
  pose proof Hout as Hout'. apply (po_spent mp1 Hok) in Hout' as (d & Hd & Hdt & Hin).
  assert (Hrank : (rank (TxHash tx) < rank (TxHash t))%nat).
  { apply list_elem_of_In, in_map_iff in Ho as (i & <- & _). rewrite <- Hdt in Hin.
    exact (Hr _ d (lookup_weaken _ _ _ _ Hd Hs) _ Hin). }
  destruct (IH t mp1 Hok (ranked_sub _ _ Hr Hs)) as (mp2 & -> & [Hok2 Hs2 Honly2 Hcl2 Hfr2] & Hgone).
  { pose proof (above_shrinks (rank (TxHash tx)) mp mp1 (TxHash t) Hs (mk_is_Some _ _ Hd) Hrank). lia. }
  pose proof (outpoints_shrink mp1 mp2 Hok Hok2 Hs2) as Hout2.
  assert (Hdesc : descends (pool mp) tx t).
  { rewrite <- Hdt. eapply desc_child; [apply desc_self| |exact Ho|by rewrite Hdt].
    rewrite Hdt. by eapply lookup_weaken. }
  exists mp2. split; [done|]. split.
  - done.
  - by etrans.
  - intros h e He Hg. destruct (pool mp1 !! h) as [e1|] eqn:He1; [|by eapply Honly].
    assert (e1 = e) as -> by (pose proof (lookup_weaken _ _ _ _ He1 Hs); congruence).
    destruct (Honly2 h e He1 Hg) as [->|Hd2]; [|by eapply descends_trans].
    rewrite Hd in He1. injection He1 as <-. by rewrite Hdt.
  - intros h e He Hg. destruct (pool mp1 !! h) as [e1|] eqn:He1; [|by eapply outpoints_none; [|eapply Hcl]].
    assert (e1 = e) as -> by (pose proof (lookup_weaken _ _ _ _ He1 Hs); congruence).
    destruct (decide (h = TxHash t)) as [->|Hne].
    + rewrite Hd in He1. injection He1 as <-. rewrite Hdt. apply Hcl2. by left.
    + apply Hcl2. right. by exists h, e.
  - apply Forall_app. split; [by eapply outpoints_none|]. constructor; [|constructor].
    apply eq_None_not_Some. intros [u Hu]. pose proof (lookup_weaken _ _ _ _ Hu Hout2) as Hu1.
    assert (u = t) as -> by congruence. apply (po_spent mp2 Hok2) in Hu as (e & He & _). congruence.
  - destruct Hfr as (? & ? & ?), Hfr2 as (? & ? & ?). repeat split; congruence.
Qed.

Lemma removing_all fuel now tx outs rest mp mp1 :
  (forall t m, pool_ok m -> ranked m -> (size (above (rank (TxHash t)) m) < fuel)%nat ->
     exists m', remove_transaction fuel now true t m = Some m' /\ removed t m m' /\ pool m' !! TxHash t = None) ->
  ranked mp -> (size (above (rank (TxHash tx)) mp) <= fuel)%nat -> Forall (fun o => o ∈ tx_outpoints tx) rest ->
  removing tx outs mp mp1 ->
  exists mp2, fold_left (redeemer_step fuel now) rest (Some mp1) = Some mp2 /\ removing tx (outs ++ rest) mp mp2.
Proof.
  intros IH Hr Hfuel Hrest. revert outs mp1. induction Hrest as [|o rest Ho _ IHr]; intros outs mp1 Hg.
  { exists mp1. by rewrite app_nil_r. }
  destruct (removing_step fuel now tx outs mp mp1 o IH Hr Hfuel Ho Hg) as (mp2 & Hstep & Hg2).
  cbn [fold_left]. rewrite Hstep. destruct (IHr _ mp2 Hg2) as (mp3 & -> & Hg3). exists mp3. split; [done|].
  by rewrite <- app_assoc in Hg3.
Qed.

Lemma remove_transaction_spec fuel now tx mp :
  pool_ok mp -> ranked mp -> (size (above (rank (TxHash tx)) mp) < fuel)%nat ->
  exists mp', remove_transaction fuel now true tx mp = Some mp' /\ removed tx mp mp' /\ pool mp' !! TxHash tx = None.
Proof.
  revert tx mp. induction fuel as [|fuel IH]; intros tx mp Hok Hr Hf; [lia|]. cbn [remove_transaction].
  destruct (removing_all fuel now tx [] (tx_outpoints tx) mp mp IH Hr ltac:(lia)) as (mp1 & Hfold & [Hok1 Hs1 Honly1 Hcl1 Hd1 Hfr1]).
  { by apply List.Forall_forall; intros o; rewrite <- list_elem_of_In. }
  { split; try done; try by constructor; intros; congruence. all: intros h d Hd Hn; congruence. }
  change (fold_left _ (tx_outpoints tx) (Some mp)) with (fold_left (redeemer_step fuel now) (tx_outpoints tx) (Some mp)).
  rewrite Hfold. cbn. destruct (remove_one_ok now tx mp1 Hok1) as [Hok2 Hp2].
  assert (Hs2 : pool (remove_one now tx mp1) ⊆ pool mp1) by (rewrite Hp2; apply delete_subseteq).
  pose proof (outpoints_shrink mp1 _ Hok1 Hok2 Hs2) as Hout.
  eexists. split; [done|]. split; [|by rewrite Hp2, lookup_delete_eq]. split; [done|by etrans|..].
  - intros h d Hd Hn. rewrite Hp2 in Hn. destruct (decide (h = TxHash tx)) as [->|Hne]; [by left|right].
    rewrite lookup_delete_ne in Hn by done. by eapply Honly1.
  - intros t [->|(h & d & Hd & <- & Hn & Hne)]; [by eapply outpoints_none|].
    rewrite Hp2, lookup_delete_ne in Hn by done. by eapply outpoints_none; [|eapply Hcl1].
  - destruct Hfr1 as (? & ? & ?). unfold remove_one. destruct (pool mp1 !! _); by repeat split.
Qed.

End Ranked.

(** Whatever the fuel, removing transactions keeps the pool consistent. *)
Lemma remove_transaction_keeps fuel now rr tx mp mp' :
  pool_ok mp -> remove_transaction fuel now rr tx mp = Some mp' ->
  pool_ok mp' /\ pool mp' ⊆ pool mp /\ same_orphans mp mp'.
Proof.
  revert rr tx mp mp'. induction fuel as [|fuel IH]; intros rr tx mp mp' Hok Hr; [done|]. cbn [remove_transaction] in Hr.
  assert (Hfold : forall outs m m', pool_ok m ->
    fold_left (redeemer_step fuel now) outs (Some m) = Some m' -> pool_ok m' /\ pool m' ⊆ pool m /\ same_orphans m m').
  { induction outs as [|o outs IHo]; intros m m' Hm Hf; cbn [fold_left] in Hf; [by injection Hf as <-|].
    unfold redeemer_step at 2 in Hf. cbn in Hf. destruct (outpoints m !! o) as [t|]; [|by apply IHo].
    destruct (remove_transaction fuel now true t m) as [m1|] eqn:H1'.
    - destruct (IH true t m m1 Hm H1') as (Hm1 & Hs1 & (? & ? & ?)). destruct (IHo m1 m' Hm1 Hf) as (Hm' & Hs' & (? & ? & ?)).
      split; [done|]. split; [by etrans|]. repeat split; congruence.
    - exfalso. clear - Hf. induction outs; [done|]. by apply IHouts. }
  destruct (if rr then _ else _) as [mp1|] eqn:H1' in Hr; [|done]. cbn in Hr. injection Hr as <-.
  assert (Hstep : pool_ok mp1 /\ pool mp1 ⊆ pool mp /\ same_orphans mp mp1).
  { destruct rr; [by apply (Hfold (tx_outpoints tx))|]. by injection H1' as <-. }
  destruct Hstep as (Hok1 & Hs1 & (? & ? & ?)). destruct (remove_one_ok now tx mp1 Hok1) as [Hok2 Hp2].
  split; [done|]. split; [rewrite Hp2; etrans; [apply delete_subseteq|done]|].
  unfold remove_one. by destruct (pool mp1 !! _); repeat split.
Qed.

Lemma removeTransaction_keeps now tx rr mp :
  pool_ok mp -> let mp' := removeTransaction now tx rr mp in pool_ok mp' /\ pool mp' ⊆ pool mp /\ same_orphans mp mp'.
Proof.
  intros Hok. unfold removeTransaction. destruct (remove_transaction _ _ _ _ _) as [mp'|] eqn:Hr; [|done].
  by apply remove_transaction_keeps in Hr.
Qed.

(** ** Accepting transactions *)

(** An output of a transaction of the pool. *)
Definition pool_output (mp : TxPool) (o : OutPoint) : Prop :=
  exists d out, pool mp !! op_Hash o = Some d /\ tx_TxOut (td_Tx d) !! Z.to_nat (op_Index o) = Some out.

Lemma unspent_set view o e o' :
  unspent_entry (set_entry o (Some e) view) o' = if decide (o = o') then negb (IsSpent e) else unspent_entry view o'.
Proof. unfold unspent_entry, LookupEntry. rewrite lookup_set_entry. by destruct (decide _). Qed.

(** The coin an outpoint stands for: the unspent entry the chain has for it, or
    the output of a transaction of the pool. *)
Definition pool_coin (mp : TxPool) (o : OutPoint) : option UtxoEntry :=
  match pool mp !! op_Hash o with
  | Some d =>
      match tx_TxOut (td_Tx d) !! Z.to_nat (op_Index o) with
      | Some out => Some (mkUtxoEntry (to_Value out) (to_PkScript out) UnminedHeight (fresh_flags (IsCoinBaseTx (td_Tx d))))
      | None => None
      end
  | None => None
  end.

Definition spent_coin_of (chain : UtxoViewpoint) (mp : TxPool) (o : OutPoint) : option UtxoEntry :=
  if unspent_entry chain o then LookupEntry chain o else pool_coin mp o.

Lemma pool_coin_output mp o e : pool_coin mp o = Some e -> pool_output mp o.
Proof.
  unfold pool_coin, pool_output. destruct (pool mp !! _) as [d|]; [|done].
  destruct (tx_TxOut (td_Tx d) !! _) as [out|] eqn:Hout; [|done]. intros _. by exists d, out.
Qed.

Lemma AddTxOut_coin mp d i view o e :
  pool_ok mp -> pool mp !! op_Hash i = Some d ->
  LookupEntry (AddTxOut (td_Tx d) (op_Index i) UnminedHeight view) o = Some e ->
  LookupEntry view o = Some e \/ i = o /\ pool_coin mp o = Some e.
Proof.
  intros Hok Hd Hl. unfold AddTxOut in Hl. destruct (_ <=? _) in Hl; [by left|].
  destruct (tx_TxOut (td_Tx d) !! _) as [out|] eqn:Hout; [|by left]. unfold addTxOut in Hl.
  destruct (IsUnspendable _) in Hl; [by left|]. unfold LookupEntry in *. rewrite lookup_set_entry in Hl.
  destruct (decide _) as [Heq|]; [right|by left]. rewrite (po_hash mp Hok _ _ Hd) in Heq.
  assert (i = o) as -> by (rewrite <- Heq; by destruct i). split; [done|].
  unfold pool_coin. by rewrite Hd, Hout.
Qed.

Lemma pool_inputs_coin mp ins view o e :
  pool_ok mp -> LookupEntry (pool_inputs mp ins view) o = Some e -> IsSpent e = false ->
  LookupEntry view o = Some e \/ unspent_entry view o = false /\ pool_coin mp o = Some e.
Proof.
  intros Hok. unfold pool_inputs. revert view. induction ins as [|i ins IH]; intros view Hl Hs; cbn [fold_left] in Hl; [by left|].
  destruct (unspent_entry view (ti_PreviousOutPoint i)) eqn:Hu; [by apply IH|].
  destruct (pool mp !! op_Hash (ti_PreviousOutPoint i)) as [d|] eqn:Hd; [|by apply IH].
  apply IH in Hl as [Hl|[Hl Hc]]; [| |done].
  - apply (AddTxOut_coin mp) in Hl as [Hl|[<- Hc]]; auto.
  - right. split; [|done]. destruct (unspent_entry view o) eqn:Hv; [|done].
    destruct (decide (ti_PreviousOutPoint i = o)) as [Heq|Hne]; [congruence|]. rewrite <- Hl, <- Hv.
    unfold AddTxOut. case_if; [done|]. destruct (tx_TxOut (td_Tx d) !! _); [|done]. unfold addTxOut.
    case_if; [done|]. rewrite unspent_set. case_decide as Heq; [|done]. destruct Hne. rewrite (po_hash mp Hok _ _ Hd) in Heq.
    rewrite <- Heq. by destruct (ti_PreviousOutPoint i).
Qed.

Lemma own_outputs_coin outs view view' o e :
  own_outputs outs view = Ok view' -> LookupEntry view' o = Some e -> LookupEntry view o = Some e.
Proof.
  revert view. induction outs as [|x outs IH]; intros view Hw Hl; cbn [own_outputs] in Hw; [by injection Hw as <-|].
  destruct (unspent_entry view x); [done|]. apply IH in Hw; [|done]. unfold LookupEntry, RemoveEntry in *.
  cbn in Hw. destruct (decide (x = o)) as [->|Hne]; [by rewrite lookup_delete_eq in Hw|]. by rewrite lookup_delete_ne in Hw.
Qed.

(** The entries of the view the checks read are the available coins. *)
Lemma checked_view_coin mp tx chain view o e :
  pool_ok mp -> own_outputs (tx_outpoints tx) (pool_inputs mp (tx_TxIn tx) chain) = Ok view ->
  LookupEntry view o = Some e -> IsSpent e = false -> spent_coin_of chain mp o = Some e.
Proof.
  intros Hok Hown Hl Hs. eapply own_outputs_coin in Hown; [|exact Hl].
  apply pool_inputs_coin in Hown as [Hc|[Hu Hc]]; [| |done|done]; unfold spent_coin_of; [|by rewrite Hu].
  unfold unspent_entry. by rewrite Hc, Hs.
Qed.

(** The state apart from the rate limiter. *)
Definition but_penny (mp mp' : TxPool) : Prop :=
  pool mp' = pool mp /\ outpoints mp' = outpoints mp /\ same_orphans mp mp' /\ lastUpdated mp' = lastUpdated mp.

(** What holds of a transaction that enters the pool. *)
Record accepted (cfg : Config) (tx : MsgTx) (d : TxDesc) (mp mp' : TxPool) : Prop := {
  ac_tx : td_Tx d = tx;
  ac_new : pool mp !! TxHash tx = None;
  ac_sane : tx_sane tx;
  ac_not_coinbase : IsCoinBaseTx tx = false;
  ac_standard : AcceptNonStd (cfg_Policy cfg) = false ->
    checkTransactionStandard tx (i32 (cfg_BestHeight cfg + 1)) (cfg_MedianTimePast cfg)
      (MinRelayTxFee (cfg_Policy cfg)) (MaxTxVersion (cfg_Policy cfg)) = Ok tt;
  ac_unspent : Forall (fun o => outpoints mp !! o = None) (inputs tx);
  ac_inputs : exists chain view, cfg_FetchUtxoView cfg tx = Ok chain
    /\ (forall o, o ∈ inputs tx -> exists e, LookupEntry view o = Some e /\ spent_coin_of chain mp o = Some e)
    /\ CheckTransactionInputs tx (i32 (cfg_BestHeight cfg + 1)) view (cfg_ChainParams cfg) = Ok (td_Fee d)
    /\ ValidateTransactionScripts tx view StandardVerifyFlags (cfg_SigCache cfg) = Ok tt;
  ac_pool : pool mp' = <[TxHash tx := d]> (pool mp);
  ac_ok : pool_ok mp';
  ac_frame : same_orphans mp mp'
}.

Lemma existsb_false {A} (p : A -> bool) l : existsb p l = false -> Forall (fun x => p x = false) l.
Proof.
  induction l as [|x l IH]; cbn; [constructor|]. intros Hp. apply orb_false_iff in Hp as [? ?]. constructor; auto.
Qed.

Lemma accept_inputs_inv cfg rd tx mp view :
  accept_inputs cfg rd tx mp = Ok view ->
  pool mp !! TxHash tx = None /\ (rd = true -> orphans mp !! TxHash tx = None) /\ tx_sane tx /\ IsCoinBaseTx tx = false
  /\ (AcceptNonStd (cfg_Policy cfg) = false ->
      checkTransactionStandard tx (i32 (cfg_BestHeight cfg + 1)) (cfg_MedianTimePast cfg)
        (MinRelayTxFee (cfg_Policy cfg)) (MaxTxVersion (cfg_Policy cfg)) = Ok tt)
  /\ Forall (fun o => outpoints mp !! o = None) (inputs tx)
  /\ exists chain, cfg_FetchUtxoView cfg tx = Ok chain
       /\ own_outputs (tx_outpoints tx) (pool_inputs mp (tx_TxIn tx) chain) = Ok view.
Proof.
  unfold accept_inputs. intros Ha. apply rbind_Ok in Ha as ([] & _ & Ha).
  destruct (isTransactionInPool _ _ || _) eqn:Hdup; [done|]. apply orb_false_iff in Hdup as [Hin Hor].
  apply rbind_Ok in Ha as ([] & Hs & Ha). destruct (IsCoinBaseTx tx) eqn:Hcb; [done|].
  apply rbind_Ok in Ha as ([] & Hstd & Ha). apply rbind_Ok in Ha as ([] & Hds & Ha). apply rbind_Ok in Ha as (v & Hv & Ha).
  split; [apply eq_None_not_Some; by apply bool_decide_eq_false in Hin|].
  split; [intros ->; apply eq_None_not_Some; by apply bool_decide_eq_false in Hor|].
  split. { apply CheckTransactionSanity_iff. destruct (CheckTransactionSanity tx) as [[]|e|]; by cbn in Hs. }
  split; [done|]. split.
  { intros Hn. rewrite Hn in Hstd. destruct (checkTransactionStandard _ _ _ _ _) as [[]|e|]; [done| |done].
    cbn in Hstd. by destruct (extractRejectCode e). }
  split.
  { unfold checkPoolDoubleSpend in Hds. destruct (existsb _ _) eqn:He; [done|]. apply existsb_false in He.
    unfold inputs. apply List.Forall_forall. intros o Ho. apply in_map_iff in Ho as (i & <- & Hi).
    rewrite List.Forall_forall in He. specialize (He i Hi). apply bool_decide_eq_false in He. by apply eq_None_not_Some. }
  unfold pool_fetchInputUtxos in Hv. destruct (cfg_FetchUtxoView cfg tx) as [chain|e|]; cbn in Hv; [|done..].
  injection Hv as <-. by exists chain.
Qed.

Lemma from_chain_Ok {A} (r : result rule_error A) a : from_chain r = Ok a -> r = Ok a.
Proof. destruct r; cbn; congruence. Qed.

Lemma accept_fee_inv cfg tx view fee :
  accept_fee cfg tx view = Ok fee ->
  CheckTransactionInputs tx (i32 (cfg_BestHeight cfg + 1)) view (cfg_ChainParams cfg) = Ok fee.
Proof.
  unfold accept_fee. intros Ha. apply rbind_Ok in Ha as (lock & _ & Ha). destruct (negb _) in Ha; [done|].
  apply rbind_Ok in Ha as (f & Hf & Ha). apply rbind_Ok in Ha as ([] & _ & Ha). apply rbind_Ok in Ha as (n & _ & Ha).
  destruct (_ <? _) in Ha; [done|]. injection Ha as <-. by apply from_chain_Ok.
Qed.

Lemma checked_inputs_unspent tx h view params fee o :
  IsCoinBaseTx tx = false -> CheckTransactionInputs tx h view params = Ok fee -> o ∈ inputs tx -> unspent_entry view o = true.
Proof.
  intros Hcb Hc Ho. unfold CheckTransactionInputs in Hc. rewrite Hcb in Hc. apply rbind_Ok in Hc as (T & HT & _).
  apply check_inputs_spec in HT as (es & Hes & _); [|rewrite MaxSatoshi_val; lia].
  apply list_elem_of_In, in_map_iff in Ho as (i & <- & Hi). apply list_elem_of_In, list_elem_of_lookup in Hi as [k Hk].
  destruct (Forall2_lookup_l _ _ _ _ _ Hes Hk) as (e & _ & He & Hs & _). unfold unspent_entry. by rewrite He, Hs.
Qed.

(** The coins of the inputs and what they are worth. *)
Lemma fee_coins tx h view params fee :
  tx_sane tx -> IsCoinBaseTx tx = false -> CheckTransactionInputs tx h view params = Ok fee ->
  exists coins, Forall2 (fun o coin => LookupEntry view o = Some coin) (inputs tx) coins
    /\ sumZ ue_amount coins = sumZ to_Value (tx_TxOut tx) + fee /\ 0 <= fee.
Proof.
  intros Hs Hcb Hc. apply CheckTransactionInputs_spec in Hc; [|done]. rewrite Hcb in Hc.
  destruct Hc as (es & Hes & Hsum & Hfee). exists es. split; [|lia].
  unfold inputs. apply Forall2_fmap_l. eapply list.Forall2_impl; [exact Hes|]. by intros i e (He & _).
Qed.

Lemma pool_ok_penny total unix mp : pool_ok mp -> pool_ok (set_penny total unix mp).
Proof. intros [Hh Hs]. by split. Qed.

Lemma maybeAccept_spec cfg now tx isNew rl rd mp r mp' :
  pool_ok mp -> maybeAcceptTransaction cfg now tx isNew rl rd mp = (r, mp') ->
  match r with
  | Ok (missing, Some d) => missing = [] /\ accepted cfg tx d mp mp' /\ (rd = true -> orphans mp !! TxHash tx = None)
  | Ok (missing, None) => missing <> [] /\ mp' = mp /\ pool mp !! TxHash tx = None
      /\ (rd = true -> orphans mp !! TxHash tx = None)
  | _ => but_penny mp mp'
  end.
Proof.
  intros Hok. unfold maybeAcceptTransaction.
  destruct (accept_inputs cfg rd tx mp) as [view|e|] eqn:Hin; [|by intros [= <- <-]..].
  apply accept_inputs_inv in Hin as (Hnew & Hno & Hs & Hcb & Hstd & Hfree & chain & Hch & Hown).
  destruct (missing_parents view) as [|m ms] eqn:Hm; [|by intros [= <- <-]].
  destruct (accept_fee cfg tx view) as [fee|e|] eqn:Hfee; [|by intros [= <- <-]..].
  apply accept_fee_inv in Hfee. cbv zeta.
  destruct (_ && _); [by intros [= <- <-]|]. destruct (_ && _ && _ && _); [by intros [= <- <-]|].
  set (limited := if _ && _ then _ else _).
  assert (Hlim : but_penny mp limited.2 /\ pool_ok limited.2).
  { unfold limited. destruct (rl && _); [|split; [by repeat split|done]]. unfold rate_limit.
    destruct (fge _ _); cbn; (split; [by repeat split|by apply pool_ok_penny]). }
  destruct limited as [[[]|e|] mp1] eqn:Hl; cbn in Hlim; destruct Hlim as [Hbut Hok1]; [|by intros [= <- <-]..].
  destruct (ValidateTransactionScripts _ _ _ _) as [[]|e|] eqn:Hv; cbn [from_chain]; [|by intros [= <- <-]..].
  destruct Hbut as (Hp1 & Ho1 & Hor1 & Hu1).
  destruct (addTransaction now view tx (cfg_BestHeight cfg) fee mp1) as [d mp2] eqn:Hadd. intros [= <- <-]. split; [done|]. split; [|done].
  assert (Hok2 : pool_ok mp2).
  { change mp2 with (d, mp2).2. rewrite <- Hadd. apply addTransaction_ok; [done|by rewrite Hp1|].
    eapply List.Forall_impl; [|exact Hfree]. intros o. cbn. by rewrite Ho1. }
  unfold addTransaction in Hadd. injection Hadd as <- <-. cbn in Hok2. split; try done; cbn.
  - exists chain, view. split; [done|]. split; [|done]. intros o Ho.
    pose proof (checked_inputs_unspent _ _ _ _ _ _ Hcb Hfee Ho) as Hu. unfold unspent_entry in Hu.
    destruct (LookupEntry view o) as [e|] eqn:He; [|done]. exists e. split; [done|].
    eapply checked_view_coin; [done..|]. by apply negb_true_iff.
  - by rewrite Hp1.
Qed.

(** ** The whole pool *)

Record mempool_ok (policy : RelayPolicy) (mp : TxPool) : Prop := {
  mo_orphans : orphans_ok ∅ mp;
  mo_pool : pool_ok mp;
  mo_limit : Z.of_nat (size (orphans mp)) <= Z.max 0 (MaxOrphanTxs policy);
  mo_disjoint : forall h, is_Some (pool mp !! h) -> orphans mp !! h = None;
  mo_valid : forall h d, pool mp !! h = Some d -> tx_sane (td_Tx d) /\ IsCoinBaseTx (td_Tx d) = false
}.

Lemma orphans_ok_same X mp mp' : same_orphans mp mp' -> orphans_ok X mp -> orphans_ok X mp'.
Proof. intros (Ho & Hb & _) [Hh Hi Hn]. split; rewrite ?Ho, ?Hb; done. Qed.

Lemma pool_ok_same mp mp' : same_pool mp mp' -> pool_ok mp -> pool_ok mp'.
Proof. intros (Hp & Ho & _) [Hh Hs]. split; rewrite ?Hp, ?Ho; done. Qed.

(** Fewer orphans and the same pool. *)
Lemma mempool_ok_fewer policy mp mp' :
  mempool_ok policy mp -> orphans_ok ∅ mp' -> orphans mp' ⊆ orphans mp -> same_pool mp mp' -> mempool_ok policy mp'.
Proof.
  intros [Ho Hp Hl Hd Hv] Ho' Hs Hsame. pose proof (map_subseteq_size _ _ Hs). split; [done|by eapply pool_ok_same|lia|..];
    destruct Hsame as (Hpool & _); rewrite Hpool; [|done].
  intros h Hh. eapply lookup_weaken_None; [by apply Hd|done].
Qed.

Lemma mempool_ok_removeOrphan policy tx rr mp : mempool_ok policy mp -> mempool_ok policy (removeOrphan tx rr mp).
Proof.
  intros Hm. destruct (removeOrphan_spec tx rr mp (mo_orphans _ _ Hm)) as (Ho & [Hs _ Hp _] & _). by eapply mempool_ok_fewer.
Qed.

Lemma mempool_ok_same policy mp mp' :
  mempool_ok policy mp -> pool mp' = pool mp -> outpoints mp' = outpoints mp -> same_orphans mp mp' -> mempool_ok policy mp'.
Proof.
  intros [Ho [Hh Hs] Hl Hd Hv] Hp Hout Hso. pose proof Hso as (Ho1 & _). split.
  - by eapply orphans_ok_same.
  - split; rewrite ?Hp, ?Hout; done.
  - by rewrite Ho1.
  - by rewrite Hp, Ho1.
  - by rewrite Hp.
Qed.

(** A transaction that is accepted and is no orphan. *)
Lemma mempool_ok_accept policy cfg tx d mp mp' :
  mempool_ok policy mp -> accepted cfg tx d mp mp' -> orphans mp !! TxHash tx = None -> mempool_ok policy mp'.
Proof.
  intros [Ho Hp Hl Hd Hv] Ha Hno. pose proof (ac_frame _ _ _ _ _ Ha) as Hso. pose proof Hso as (Ho1 & _). split.
  - by eapply orphans_ok_same.
  - by apply Ha.
  - by rewrite Ho1.
  - intros h. rewrite (ac_pool _ _ _ _ _ Ha), Ho1. destruct (decide (TxHash tx = h)) as [<-|Hne]; [done|].
    rewrite lookup_insert_ne by done. apply Hd.
  - intros h e. rewrite (ac_pool _ _ _ _ _ Ha). destruct (decide (TxHash tx = h)) as [<-|Hne].
    + rewrite lookup_insert_eq. intros [= <-]. rewrite (ac_tx _ _ _ _ _ Ha). split; apply Ha.
    + rewrite lookup_insert_ne by done. apply Hv.
Qed.

(** An orphan that is accepted, and then taken out of the orphan pool. *)
Lemma accept_orphan policy cfg tx d mp mp1 :
  mempool_ok policy mp -> is_Some (orphans mp !! TxHash tx) -> accepted cfg tx d mp mp1 ->
  mempool_ok policy (removeOrphan tx false mp1) /\ (size (orphans (removeOrphan tx false mp1)) < size (orphans mp))%nat.
Proof.
  intros Hm [ot Hot] Ha. pose proof (ac_frame _ _ _ _ _ Ha) as Hso. pose proof Hso as (Ho1 & _).
  destruct (removeOrphan_spec tx false mp1 (orphans_ok_same _ _ _ Hso (mo_orphans _ _ Hm))) as (Ho2 & [Hs2 _ Hp2 _] & Hg2 & _).
  set (mp2 := removeOrphan tx false mp1) in *. clearbody mp2. rewrite Ho1 in Hs2.
  assert (Hlt : (size (orphans mp2) < size (orphans mp))%nat).
  { apply map_subset_size. split; [done|]. intros Hsup. pose proof (lookup_weaken _ _ _ _ Hot Hsup). congruence. }
  split; [|done]. destruct Hm as [Ho Hp Hl Hd Hv]. pose proof (ac_ok _ _ _ _ _ Ha) as Hok1.
  split; [done|by eapply pool_ok_same|lia|..]; destruct Hp2 as (Hpool & _); rewrite Hpool, (ac_pool _ _ _ _ _ Ha).
  - intros h. destruct (decide (TxHash tx = h)) as [<-|Hne]; [done|]. rewrite lookup_insert_ne by done.
    intros Hh. eapply lookup_weaken_None; [by apply Hd|done].
  - intros h e. destruct (decide (TxHash tx = h)) as [<-|Hne].
    + rewrite lookup_insert_eq. intros [= <-]. rewrite (ac_tx _ _ _ _ _ Ha). split; apply Ha.
    + rewrite lookup_insert_ne by done. apply Hv.
Qed.

(** A step of the worklist: the state stays consistent, and every accepted
    transaction is an orphan less. *)
Definition progress (policy : RelayPolicy) (mp mp' : TxPool) (r : result pool_error (list TxDesc)) : Prop :=
  mempool_ok policy mp' /\ match r with
                           | Ok l => (size (orphans mp') + length l <= size (orphans mp))%nat
                           | Err _ => False
                           | Panic => True
                           end.

Lemma try_redeemers_ok policy cfg now o keys mp r mp' :
  mempool_ok policy mp -> Forall (fun p => TxHash p.2 = p.1) keys ->
  try_redeemers cfg now o keys mp = (r, mp') ->
  progress policy mp mp' (match r with Ok d => Ok (option_list d) | Err e => Err e | Panic => Panic end).
Proof.
  intros Hm Hk. revert mp Hm. induction Hk as [|[h tx] keys Hh _ IH]; intros mp Hm; cbn [try_redeemers].
  { intros [= <- <-]. split; [done|]. cbn. lia. }
  cbn [fst snd] in Hh. destruct (redeemers o (orphansByPrev mp) !! h) as [tx'|] eqn:Hr; [|by apply IH].
  assert (Hot : is_Some (orphans mp !! TxHash tx)).
  { rewrite Hh. apply (oo_index ∅ mp (mo_orphans _ _ Hm)) in Hr as (_ & ot & Hot & _). by exists ot. }
  destruct (maybeAcceptTransaction cfg now tx true true false mp) as [r1 mp1] eqn:Ha.
  apply maybeAccept_spec in Ha; [|apply Hm]. destruct r1 as [[missing [d|]]|e|].
  - destruct Ha as (-> & Ha & _). intros [= <- <-]. destruct (accept_orphan policy cfg tx d mp mp1 Hm Hot Ha) as [Hm2 Hlt].
    split; [done|]. change (length (option_list (Some d))) with 1%nat. lia.
  - destruct Ha as (Hne & -> & _). destruct missing; [done|]. by apply IH.
  - destruct Ha as (Hp & Ho & Hso & _). intros [= <- <-].
    assert (Hm1 : mempool_ok policy mp1) by (by eapply mempool_ok_same). split; [by apply mempool_ok_removeOrphan|].
    destruct (removeOrphan_spec tx true mp1 (mo_orphans _ _ Hm1)) as (_ & [Hs _ _ _] & _). destruct Hso as (Ho1 & _).
    rewrite Ho1 in Hs. pose proof (map_subseteq_size _ _ Hs).
    change (length (option_list (None : option TxDesc))) with 0%nat. lia.
  - destruct Ha as (Hp & Ho & Hso & _). intros [= <- <-]. split; [by eapply mempool_ok_same|done].
Qed.

Lemma process_outputs_ok policy cfg now outs mp r mp' :
  mempool_ok policy mp -> process_outputs cfg now outs mp = (r, mp') -> progress policy mp mp' r.
Proof.
  revert mp r mp'. induction outs as [|o outs IH]; intros mp r mp' Hm; cbn [process_outputs].
  { intros [= <- <-]. split; [done|]. cbn. lia. }
  destruct (try_redeemers _ _ _ _ _) as [r1 mp1] eqn:Ht.
  apply (try_redeemers_ok policy) in Ht as [Hm1 Hs1]; [|done|by eapply index_keys; apply Hm].
  destruct r1 as [d|e|]; [|done|by intros [= <- <-]].
  destruct (process_outputs cfg now outs mp1) as [r2 mp2] eqn:Hp. apply IH in Hp as [Hm2 Hs2]; [|done].
  destruct r2 as [l|e|]; [|done|by intros [= <- <-]]. intros [= <- <-]. split; [done|].
  cbv beta iota in Hs1, Hs2 |- *. rewrite length_app. lia.
Qed.

Lemma process_list_ok policy fuel cfg now todo acc mp :
  mempool_ok policy mp -> (length todo + size (orphans mp) <= fuel)%nat ->
  exists r mp', process_list fuel cfg now todo acc mp = Some (r, mp') /\ mempool_ok policy mp' /\ (forall e, r <> Err e).
Proof.
  revert todo acc mp. induction fuel as [|fuel IH]; intros [|tx todo] acc mp Hm Hf; cbn [process_list]; try (by eauto).
  { cbn in Hf. lia. }
  destruct (process_outputs _ _ _ _) as [r mp1] eqn:Hp. apply (process_outputs_ok policy) in Hp as [Hm1 Hs1]; [|done].
  destruct r as [l|e|]; [|done|by eauto]. apply IH; [done|]. rewrite length_app, length_map. cbn in Hf. lia.
Qed.

Lemma removal_any n : removal (fun orphan mp => Some (removeOrphan orphan true mp)) ∅ n.
Proof.
  intros tx mp _ Hok _. destruct (removeOrphan_spec tx true mp Hok) as (Ho & Hf & Hg & _). by eexists.
Qed.

Lemma mempool_ok_double_spends policy tx mp : mempool_ok policy mp -> mempool_ok policy (removeOrphanDoubleSpends tx mp).
Proof.
  unfold removeOrphanDoubleSpends, remove_double_spends. revert mp. induction (tx_TxIn tx) as [|i ins IH]; intros mp Hm; [done|].
  cbn [fold_left]. apply IH. set (o := ti_PreviousOutPoint i).
  destruct (range_live_ok (fun orphan mp => Some (removeOrphan orphan true mp)) ∅ (S (size (dom (orphans mp) ∖ ∅))) o
    (range (redeemers o (orphansByPrev mp))) mp (removal_any _) (index_keys ∅ mp o (mo_orphans _ _ Hm)) (mo_orphans _ _ Hm))
    as (mp1 & Hr & Ho1 & [Hs1 _ Hp1 _] & _); [lia|].
  rewrite Hr. cbn. by eapply mempool_ok_fewer.
Qed.

Lemma pool_processOrphans_ok policy cfg now tx mp r mp' :
  mempool_ok policy mp -> pool_processOrphans cfg now tx mp = (r, mp') ->
  mempool_ok policy mp' /\ (exists r1 mp1, process_list (S (size (orphans mp))) cfg now [tx] [] mp = Some (r1, mp1)).
Proof.
  intros Hm. unfold pool_processOrphans.
  destruct (process_list_ok policy (S (size (orphans mp))) cfg now [tx] [] mp Hm) as (r1 & mp1 & Hl & Hm1 & Hne); [done|].
  rewrite Hl. destruct r1 as [l|e|]; [|by edestruct Hne|intros [= <- <-]; eauto].
  intros [= <- <-]. split; [|by eauto]. apply (mempool_ok_double_spends policy tx) in Hm1. revert Hm1.
  generalize (removeOrphanDoubleSpends tx mp1). clear Hl Hne. induction l as [|d l IH]; intros m Hm'; [done|]. cbn [fold_left].
  apply IH. by apply mempool_ok_double_spends.
Qed.

Lemma mempool_ok_removeTransaction policy now tx rr mp :
  mempool_ok policy mp -> mempool_ok policy (removeTransaction now tx rr mp).
Proof.
  intros [Ho Hp Hl Hd Hv]. destruct (removeTransaction_keeps now tx rr mp Hp) as (Hp' & Hs & Hso). pose proof Hso as (Ho1 & _). split.
  - by eapply orphans_ok_same.
  - done.
  - by rewrite Ho1.
  - intros h [d Hh]. rewrite Ho1. apply Hd. exists d. by eapply lookup_weaken.
  - intros h d Hh. eapply Hv. by eapply lookup_weaken.
Qed.

Lemma mempool_ok_RemoveDoubleSpends policy now tx mp : mempool_ok policy mp -> mempool_ok policy (RemoveDoubleSpends now tx mp).
Proof.
  unfold RemoveDoubleSpends. revert mp. induction (tx_TxIn tx) as [|i ins IH]; intros mp Hm; [done|]. cbn [fold_left]. apply IH.
  destruct (outpoints mp !! _) as [t|]; [|done]. case_bool_decide; [done|]. by apply mempool_ok_removeTransaction.
Qed.

Lemma mempool_ok_MaybeAccept policy cfg now tx isNew rl mp :
  mempool_ok policy mp -> mempool_ok policy (MaybeAcceptTransaction cfg now tx isNew rl mp).2.
Proof.
  intros Hm. unfold MaybeAcceptTransaction. destruct (maybeAcceptTransaction _ _ _ _ _ _ _) as [r mp'] eqn:Ha. cbn [snd].
  apply maybeAccept_spec in Ha; [|apply Hm]. destruct r as [[missing [d|]]|e|].
  - destruct Ha as (_ & Ha & Hno). eapply mempool_ok_accept; [done|done|]. by apply Hno.
  - by destruct Ha as (_ & -> & _).
  - destruct Ha as (? & ? & ? & _). by eapply mempool_ok_same.
  - destruct Ha as (? & ? & ? & _). by eapply mempool_ok_same.
Qed.

Lemma mempool_ok_addOrphan policy now tx tag mp :
  mempool_ok policy mp -> orphans mp !! TxHash tx = None -> pool mp !! TxHash tx = None ->
  mempool_ok policy (addOrphan policy now tx tag mp).
Proof.
  intros [Ho Hp Hl Hd Hv] Hno Hnp. destruct (pool_addOrphan_ok policy now tx tag mp Ho Hno Hl) as (Ho' & Hsame & Hl' & Hin).
  split; [done|by eapply pool_ok_same|done|..]; destruct Hsame as (Hpool & _); rewrite Hpool; [|done].
  intros h Hh. apply eq_None_not_Some. intros Hor. apply Hin in Hor as [->|Hor]; [rewrite Hnp in Hh; by destruct Hh|].
  rewrite (Hd h Hh) in Hor. by destruct Hor.
Qed.

Lemma mempool_ok_ProcessTransaction cfg now tx ao rl tag mp :
  mempool_ok (cfg_Policy cfg) mp -> mempool_ok (cfg_Policy cfg) (ProcessTransaction cfg now tx ao rl tag mp).2.
Proof.
  intros Hm. unfold ProcessTransaction. destruct (maybeAcceptTransaction _ _ _ _ _ _ _) as [r mp1] eqn:Ha.
  apply maybeAccept_spec in Ha; [|apply Hm]. destruct r as [[missing [d|]]|e|].
  - destruct Ha as (-> & Ha & Hno). pose proof (mempool_ok_accept _ _ _ _ _ _ Hm Ha (Hno eq_refl)) as Hm1.
    destruct (pool_processOrphans cfg now tx mp1) as [r2 mp2] eqn:Hp. apply (pool_processOrphans_ok (cfg_Policy cfg)) in Hp as [Hm2 _]; [|done].
    by destruct r2.
  - destruct Ha as (Hne & -> & Hnp & Hno). destruct missing; [done|]. destruct (negb ao); [done|].
    unfold maybeAddOrphan. destruct (_ <? _); [done|]. cbn. apply mempool_ok_addOrphan; [done|by apply Hno|done].
  - destruct Ha as (? & ? & ? & _). by eapply mempool_ok_same.
  - destruct Ha as (? & ? & ? & _). by eapply mempool_ok_same.
Qed.

(** The states a pool goes through, whatever the chain and the clock say at each
    operation. *)
Inductive pool_reachable (policy : RelayPolicy) : TxPool -> Prop :=
  | pr_new now : pool_reachable policy (NewTxPool now)
  | pr_process cfg now tx allowOrphan rateLimit tag mp :
      pool_reachable policy mp -> cfg_Policy cfg = policy ->
      pool_reachable policy (ProcessTransaction cfg now tx allowOrphan rateLimit tag mp).2
  | pr_accept cfg now tx isNew rateLimit mp :
      pool_reachable policy mp -> pool_reachable policy (MaybeAcceptTransaction cfg now tx isNew rateLimit mp).2
  | pr_orphans cfg now tx mp : pool_reachable policy mp -> pool_reachable policy (ProcessOrphans cfg now tx mp).2
  | pr_remove now tx rr mp : pool_reachable policy mp -> pool_reachable policy (RemoveTransaction now tx rr mp)
  | pr_double_spends now tx mp : pool_reachable policy mp -> pool_reachable policy (RemoveDoubleSpends now tx mp)
  | pr_remove_orphan tx mp : pool_reachable policy mp -> pool_reachable policy (RemoveOrphan tx mp)
  | pr_tag tag mp : pool_reachable policy mp -> pool_reachable policy (RemoveOrphansByTag tag mp).2.

Lemma NewTxPool_ok policy now : mempool_ok policy (NewTxPool now).
Proof.
  split.
  - split; cbn; [by intros h ot|..].
    + intros o h tx. unfold redeemers. rewrite lookup_empty. cbn. rewrite lookup_empty. split; [done|].
      intros (_ & ot & Hot & _). by rewrite lookup_empty in Hot.
    + intros o w. by rewrite lookup_empty.
  - split; cbn; [by intros h d|]. intros o tx. rewrite !lookup_empty. split; [done|by intros (d & ? & _)].
  - cbn. rewrite map_size_empty. lia.
  - intros h. cbn. rewrite lookup_empty. by intros [? ?].
  - intros h d. cbn. by rewrite lookup_empty.
Qed.

Lemma reachable_ok policy mp : pool_reachable policy mp -> mempool_ok policy mp.
Proof.
  induction 1 as [now|cfg now tx ao rl tag mp _ IH <-|cfg now tx isNew rl mp _ IH|cfg now tx mp _ IH
    |now tx rr mp _ IH|now tx mp _ IH|tx mp _ IH|tag mp _ IH].
  - apply NewTxPool_ok.
  - by apply mempool_ok_ProcessTransaction.
  - by apply mempool_ok_MaybeAccept.
  - unfold ProcessOrphans. destruct (pool_processOrphans cfg now tx mp) as [r mp'] eqn:Hp. by eapply pool_processOrphans_ok in Hp as [? _].
  - by apply mempool_ok_removeTransaction.
  - by apply mempool_ok_RemoveDoubleSpends.
  - by apply mempool_ok_removeOrphan.
  - destruct (remove_orphans_where_ok (fun otx => ot_tag otx =? tag) (range (orphans mp)) mp (mo_orphans _ _ IH)) as [Ho [Hs _ Hp _]].
    by eapply mempool_ok_fewer.
Qed.

(** ** Properties *)

(** C12: the invariant of the pool: in every state it reaches, the outputs that
    are marked as spent are exactly the inputs of its transactions, so that no
    two transactions of the pool spend the same output; the index of the orphans
    lists exactly the orphans under the outputs they wait for, with no empty
    entries; no transaction is in both pools; there are at most [MaxOrphanTxs]
    orphans; and every transaction of the pool is sane and no coinbase. *)
Theorem mempool_invariant policy mp :
  pool_reachable policy mp ->
  (forall h d, pool mp !! h = Some d ->
     TxHash (td_Tx d) = h /\ tx_sane (td_Tx d) /\ IsCoinBaseTx (td_Tx d) = false /\ orphans mp !! h = None)
  /\ (forall o tx, CheckSpend o mp = Some tx <->
        exists d, pool mp !! TxHash tx = Some d /\ td_Tx d = tx /\ o ∈ inputs tx)
  /\ (forall h h' d d' o, pool mp !! h = Some d -> pool mp !! h' = Some d' ->
        o ∈ inputs (td_Tx d) -> o ∈ inputs (td_Tx d') -> h = h')
  /\ (forall o h, is_Some (redeemers o (orphansByPrev mp) !! h) <->
        exists ot, orphans mp !! h = Some ot /\ o ∈ inputs (ot_tx ot))
  /\ Z.of_nat (size (orphans mp)) <= Z.max 0 (MaxOrphanTxs policy).
Proof.
  intros Hr. destruct (reachable_ok policy mp Hr) as [Ho Hp Hl Hd Hv]. split; [|split; [|split; [|split; [|done]]]].
  - intros h d Hh. destruct (Hv h d Hh). split; [by apply Hp|]. do 2 (split; [done|]). by apply Hd; exists d.
  - apply Hp.
  - intros h h' d d' o Hh Hh' Hi Hi'. pose proof (po_hash mp Hp _ _ Hh) as E. pose proof (po_hash mp Hp _ _ Hh') as E'.
    assert (Hs : outpoints mp !! o = Some (td_Tx d)) by (apply Hp; exists d; by rewrite E).
    assert (Hs' : outpoints mp !! o = Some (td_Tx d')) by (apply Hp; exists d'; by rewrite E').
    rewrite <- E, <- E'. congruence.
  - intros o h. split.
    + intros [tx Hx]. apply (oo_index ∅ mp Ho) in Hx as (_ & ot & Hot & <- & Hi). by exists ot.
    + intros (ot & Hot & Hi). exists (ot_tx ot). apply (oo_index ∅ mp Ho). split; [apply not_elem_of_empty|by exists ot].
Qed.

(** C13: what gets into the pool: a transaction is accepted only if it is new,
    sane, no coinbase and, unless the policy says otherwise, standard; none of
    its inputs is spent by a transaction of the pool; every input is an output
    that is unspent in the view fetched from the chain or else an output of a
    transaction of the pool.  The view in which the inputs pass the chain's
    checks and the scripts are valid under the standard flags has exactly these
    coins for the inputs, with their amounts, scripts and heights; they are
    worth the outputs and the fee that is recorded. *)
Theorem accepted_transaction policy cfg now tx isNew rateLimit rejectDup mp missing d mp' :
  pool_reachable policy mp ->
  maybeAcceptTransaction cfg now tx isNew rateLimit rejectDup mp = (Ok (missing, Some d), mp') ->
  missing = [] /\ td_Tx d = tx /\ pool mp !! TxHash tx = None /\ tx_sane tx /\ IsCoinBaseTx tx = false
  /\ (AcceptNonStd (cfg_Policy cfg) = false ->
      checkTransactionStandard tx (i32 (cfg_BestHeight cfg + 1)) (cfg_MedianTimePast cfg)
        (MinRelayTxFee (cfg_Policy cfg)) (MaxTxVersion (cfg_Policy cfg)) = Ok tt)
  /\ Forall (fun o => CheckSpend o mp = None) (inputs tx)
  /\ (exists chain view coins, cfg_FetchUtxoView cfg tx = Ok chain
       /\ (forall o, o ∈ inputs tx -> unspent_entry chain o = true \/ pool_output mp o)
       /\ Forall2 (fun o coin => spent_coin_of chain mp o = Some coin /\ LookupEntry view o = Some coin) (inputs tx) coins
       /\ sumZ ue_amount coins = sumZ to_Value (tx_TxOut tx) + td_Fee d /\ 0 <= td_Fee d
       /\ CheckTransactionInputs tx (i32 (cfg_BestHeight cfg + 1)) view (cfg_ChainParams cfg) = Ok (td_Fee d)
       /\ ValidateTransactionScripts tx view StandardVerifyFlags (cfg_SigCache cfg) = Ok tt)
  /\ pool mp' = <[TxHash tx := d]> (pool mp).
Proof.
  intros Hr Ha. apply maybeAccept_spec in Ha; [|by eapply reachable_ok]. cbn in Ha. destruct Ha as (-> & Ha & _).
  destruct Ha as [Htx Hnew Hsane Hcb Hstd Hfree (chain & view & Hch & Hin & Hfee & Hval) Hpool _ _].
  do 7 (split; [done|]). split; [|done].
  destruct (fee_coins _ _ _ _ _ Hsane Hcb Hfee) as (coins & Hcoins & Hsum & Hpos).
  exists chain, view, coins. split; [done|]. split.
  { intros o Ho. destruct (Hin o Ho) as (e & _ & He). unfold spent_coin_of in He.
    destruct (unspent_entry chain o); [by left|right]. by eapply pool_coin_output. }
  split; [|done]. apply Forall2_same_length_lookup. split; [by eapply Forall2_length|].
  intros k o coin Hk Hc. pose proof (Forall2_lookup_lr _ _ _ _ _ _ Hcoins Hk Hc) as Hl. cbn in Hl.
  destruct (Hin o) as (e & He & Hav); [by eapply list_elem_of_lookup_2|]. split; congruence.
Qed.

(** C24: removing a transaction with its redeemers removes exactly the
    transactions that depend on it: those that spend one of its outputs, those
    that spend an output of one of these, and so on.  The recursion ends,
    provided that transactions do not refer to each other in a cycle. *)
Theorem RemoveTransaction_exact rank now tx mp :
  pool_ok mp -> ranked rank mp ->
  (forall d, pool mp !! TxHash tx = Some d -> length (tx_TxOut (td_Tx d)) = length (tx_TxOut tx)) ->
  let mp' := RemoveTransaction now tx true mp in
  pool_ok mp' /\ pool mp' ⊆ pool mp
  /\ forall h d, pool mp !! h = Some d ->
       (pool mp' !! h = None <-> h = TxHash tx \/ descends (pool mp) tx (td_Tx d)).
Proof.
  intros Hok Hr Hlen. unfold RemoveTransaction, removeTransaction.
  destruct (remove_transaction_spec rank (S (S (size (pool mp)))) now tx mp Hok Hr) as (mp' & -> & [Hok' Hs Honly Hcl _] & Hgone).
  { assert (Ha : above rank (rank (TxHash tx)) mp ⊆ dom (pool mp)) by (intros h; unfold above; rewrite elem_of_filter; by intros [_ Hh]).
    apply subseteq_size in Ha. rewrite size_dom in Ha. lia. }
  cbn. split; [done|]. split; [done|].
  assert (Hdesc : forall u, descends (pool mp) tx u -> pool mp' !! TxHash u = None).
  { induction 1 as [|t d o Ht IH Hd Ho Hi]; [done|]. apply eq_None_not_Some. intros [d' Hd'].
    assert (d' = d) as -> by (pose proof (lookup_weaken _ _ _ _ Hd' Hs); congruence).
    assert (Hout : outpoints mp' !! o = Some (td_Tx d)) by (apply Hok'; by exists d).
    assert (Hnone : Forall (fun o => outpoints mp' !! o = None) (tx_outpoints t)).
    { destruct Ht as [|t0 e o0 _ He _ _]; [apply Hcl; by left|].
      destruct (decide (TxHash (td_Tx e) = TxHash tx)) as [Heq|Hne]; [|apply Hcl; right; by exists (TxHash (td_Tx e)), e].
      assert (Hto : tx_outpoints (td_Tx e) = tx_outpoints tx).
      { unfold tx_outpoints. rewrite Heq in He. rewrite (Hlen e He). apply map_ext. intros k. unfold created_outpoint. by rewrite Heq. }
      rewrite Hto. apply Hcl. by left. }
    rewrite List.Forall_forall in Hnone. apply list_elem_of_In, Hnone in Ho. congruence. }
  intros h d Hd. split; [by apply Honly|]. intros [->|Hx]; [done|]. rewrite <- (po_hash mp Hok h d Hd). by apply Hdesc.
Qed.

(** C40: the server leaves the pool's [IsDeploymentActive] nil, so that any
    transaction with a witness crashes the node before anything about it is
    checked, in whatever state the pool and the chain are. *)
Theorem witness_transaction_crashes policy params sigCache s now tx allowOrphan rateLimit tag mp :
  HasWitness tx = true ->
  (ProcessTransaction (chain_config policy params sigCache s) now tx allowOrphan rateLimit tag mp).1 = Panic.
Proof.
  intros Hw. unfold ProcessTransaction, maybeAcceptTransaction, accept_inputs. by rewrite Hw.
Qed.

End Invariant.

(** ** Witnesses *)

Section Witnesses.
#[local] Existing Instance prefix_hash_functions | 0.
#[local] Existing Instance prefix_script_hashes.
#[local] Existing Instance accepting_curve.
#[local] Existing Instance list_order.
#[local] Existing Instance elements_order.

Definition const_pow : MathPow := {| Pow _ _ := of_int 1 |}.
#[local] Existing Instance const_pow.
#[local] Existing Instance entry_source.

Definition sample_policy : RelayPolicy := mkPolicy 2 true true (of_int 15) 100 100000 20000 1000.
Definition sample_config : Config :=
  mkConfig sample_policy sample_params (FetchUtxoView sample_db) 1 1600000000
    (fun _ _ => Ok (mkSequenceLock (-1) (-1))) None None.

(** A transaction that spends the coin of the database, and one that spends its
    output. *)
Definition pool_parent : MsgTx := mkMsgTx 1 [mkTxIn sample_coin_out [] [] 7] [mkTxOut 900 [x51]] 0.
Definition pool_child : MsgTx := mkMsgTx 2 [mkTxIn (created_outpoint pool_parent 0) [] [] 7] [mkTxOut 800 [x51]] 0.

Definition one_pool : TxPool := (ProcessTransaction sample_config 0 pool_parent true false 1 (NewTxPool 0)).2.
Definition two_pool : TxPool := (ProcessTransaction sample_config 0 pool_child true false 1 one_pool).2.

Lemma one_reachable : pool_reachable sample_policy one_pool.
Proof. apply pr_process; [apply pr_new|reflexivity]. Qed.
Lemma two_reachable : pool_reachable sample_policy two_pool.
Proof. apply pr_process; [exact one_reachable|reflexivity]. Qed.

Lemma mempool_invariant_witness :
  Count two_pool = 2 /\ CheckSpend sample_coin_out two_pool = Some pool_parent
  /\ exists d, pool two_pool !! TxHash pool_parent = Some d /\ td_Tx d = pool_parent
       /\ sample_coin_out ∈ inputs pool_parent.
Proof.
  assert (Hs : CheckSpend sample_coin_out two_pool = Some pool_parent) by (vm_compute; reflexivity).
  split; [vm_compute; reflexivity|]. split; [exact Hs|].
  destruct (mempool_invariant sample_policy two_pool two_reachable) as (_ & Hspent & _).
  exact (proj1 (Hspent sample_coin_out pool_parent) Hs).
Defined.

(** The result of accepting the child. *)
Definition child_result := maybeAcceptTransaction sample_config 0 pool_child true false true one_pool.
Definition child_desc : TxDesc :=
  match child_result.1 with Ok (_, Some d) => d | _ => mkTxDesc pool_child 0 0 0 0 (of_int 0) end.

Lemma accepted_parts (r : result pool_error (list Hash * option TxDesc) * TxPool) d0 :
  match r.1 with Ok ([], Some _) => true | _ => false end = true ->
  r = (Ok ([], Some (match r.1 with Ok (_, Some d) => d | _ => d0 end)), r.2).
Proof. destruct r as [[[[|h l] [d|]]|e|] mp]; cbn; by intros. Qed.

Lemma child_accepted : maybeAcceptTransaction sample_config 0 pool_child true false true one_pool
  = (Ok ([], Some child_desc), child_result.2).
Proof. unfold child_desc, child_result. apply accepted_parts. vm_compute. reflexivity. Qed.

Lemma accepted_transaction_witness :
  td_Tx child_desc = pool_child
  /\ exists chain coins, cfg_FetchUtxoView sample_config pool_child = Ok chain
       /\ Forall2 (fun o coin => spent_coin_of chain one_pool o = Some coin) (inputs pool_child) coins
       /\ sumZ ue_amount coins = sumZ to_Value (tx_TxOut pool_child) + td_Fee child_desc.
Proof.
  destruct (accepted_transaction sample_policy sample_config 0 pool_child true false true one_pool [] child_desc
    child_result.2 one_reachable child_accepted) as (_ & Ht & _ & _ & _ & _ & _ & (chain & view & coins & Hch & _ & Hin & Hsum & _) & _).
  split; [exact Ht|]. exists chain, coins. split; [exact Hch|]. split; [|exact Hsum].
  eapply list.Forall2_impl; [exact Hin|]. intros o coin Hc. exact (proj1 Hc).
Defined.

Definition sample_rank (h : Hash) : nat :=
  if bool_decide (h = TxHash pool_child) then 2%nat else if bool_decide (h = TxHash pool_parent) then 1%nat else 0%nat.

Lemma sample_ranked : ranked sample_rank two_pool.
Proof.
  assert (Ha : map_Forall (fun h d => Forall (fun o => (sample_rank (op_Hash o) < sample_rank h)%nat) (inputs (td_Tx d))) (pool two_pool))
    by (apply (bool_decide_unpack _); vm_compute; exact I).
  intros h d Hd o Ho. specialize (Ha h d Hd). cbn in Ha. rewrite List.Forall_forall in Ha. by apply Ha, list_elem_of_In.
Qed.

(** Removing the parent removes the child too. *)
Lemma RemoveTransaction_exact_witness :
  Count (RemoveTransaction 0 pool_parent true two_pool) = 0
  /\ exists d, pool two_pool !! TxHash pool_child = Some d
       /\ (pool (RemoveTransaction 0 pool_parent true two_pool) !! TxHash pool_child = None
           <-> TxHash pool_child = TxHash pool_parent \/ descends (pool two_pool) pool_parent (td_Tx d)).
Proof.
  split; [vm_compute; reflexivity|].
  destruct (RemoveTransaction_exact sample_rank 0 pool_parent two_pool
    (mo_pool _ _ (reachable_ok _ _ two_reachable)) sample_ranked) as (_ & _ & Hx).
  - assert (Hl : match pool two_pool !! TxHash pool_parent with
                 | Some d => (length (tx_TxOut (td_Tx d)) =? length (tx_TxOut pool_parent))%nat
                 | None => true end = true) by (vm_compute; reflexivity).
    intros d Hd. rewrite Hd in Hl. apply Nat.eqb_eq, Hl.
  - assert (Hs : bool_decide (is_Some (pool two_pool !! TxHash pool_child)) = true) by (vm_compute; reflexivity).
    apply bool_decide_eq_true in Hs as [d Hd]. exists d. split; [exact Hd|]. exact (Hx _ d Hd).
Defined.

Definition witness_tx : MsgTx := mkMsgTx 1 [mkTxIn sample_coin_out [] [[x01]] 7] [mkTxOut 900 [x51]] 0.

Lemma witness_transaction_crashes_witness :
  (ProcessTransaction (chain_config sample_policy sample_params None first_store) 0 witness_tx true true 1 (NewTxPool 0)).1 = Panic.
Proof. apply witness_transaction_crashes. reflexivity. Defined.

End Witnesses.
