(* ===== verification/Genesis.v ===== *)
(** * The genesis block: chaincfg/genesis.go *)

From S2P Require Import Prelude Chainhash Wire Hash WireMsg.

Definition genesis_script : list byte :=
  [x04; xff; xff; x00; x1d; x01; x04; x45; x54; x68; x65; x20; x54; x69; x6d; x65; x73; x20;
   x30; x33; x2f; x4a; x61; x6e; x2f; x32; x30; x30; x39; x20; x43; x68; x61; x6e; x63; x65;
   x6c; x6c; x6f; x72; x20; x6f; x6e; x20; x62; x72; x69; x6e; x6b; x20; x6f; x66; x20; x73;
   x65; x63; x6f; x6e; x64; x20; x62; x61; x69; x6c; x6f; x75; x74; x20; x66; x6f; x72; x20;
   x62; x61; x6e; x6b; x73].

Definition genesis_pk_script : list byte :=
  [x41; x04; x67; x8a; xfd; xb0; xfe; x55; x48; x27; x19; x67; xf1; xa6; x71; x30; xb7; x10;
   x5c; xd6; xa8; x28; xe0; x39; x09; xa6; x79; x62; xe0; xea; x1f; x61; xde; xb6; x49; xf6;
   xbc; x3f; x4c; xef; x38; xc4; xf3; x55; x04; xe5; x1e; xc1; x12; xde; x5c; x38; x4d; xf7;
   xba; x0b; x8d; x57; x8a; x4c; x70; x2b; x6b; xf1; x1d; x5f; xac].

Definition genesisCoinbaseTx : MsgTx :=
  mkMsgTx 1 [mkTxIn (mkOutPoint zero_hash 0xffffffff) genesis_script [] 0xffffffff]
    [mkTxOut 0x12a05f200 genesis_pk_script] 0.

Definition genesisHash : Hash :=
  [xfe; xf9; xcd; xf0; x3f; x00; x80; x99; x24; xbf; xbc; x38; xed; x72; x16; xd4; xd8; xba;
   xde; x84; x32; x2d; x85; x46; x58; x9d; x83; xd6; xe0; x00; x99; xd9].

Definition genesisMerkleRoot : Hash :=
  [x3b; xa3; xed; xfd; x7a; x7b; x12; xb2; x7a; xc7; x2c; x3e; x67; x76; x8f; x61; x7f; xc8;
   x1b; xc3; x88; x8a; x51; x32; x3a; x9f; xb8; xaa; x4b; x1e; x5e; x4a].

Definition genesisBlock : MsgBlock :=
  mkMsgBlock
    (mkBlockHeader 1 zero_hash genesisMerkleRoot 0x495fab29 (replicate 64 x00) (replicate 33 x00) 1 0)
    [genesisCoinbaseTx].

(** ** Properties *)

(** the hard-coded genesis constants are consistent with the code that
    recomputes them: the genesis hash is the double SHA-256 of the serialised
    173-byte genesis header, and the merkle root in that header is the hash of
    the genesis coinbase. *)
Theorem genesis_consistent :
  BlockHash (mb_Header genesisBlock) = genesisHash
  /\ TxHash genesisCoinbaseTx = bh_MerkleRoot (mb_Header genesisBlock).
Proof. split; vm_compute; reflexivity. Qed.
