(* ===== verification/Round.v ===== *)
(** * A round of the vote: blockchain/process.go, mining/cpuminer/vote.go,
    netsync/manager.go

    During a round a node collects candidates ([handleCandidateMsg],
    [ProcessCandidate]) and votes ([handleSignMsg], [CollectVotes]), casts its
    own votes ([BlockVote]) and, when the timer fires, picks the winner and
    writes the block the candidates point to ([voteProcess]).  The state of the
    round is the package variables these functions share. *)

From S2P Require Import Prelude Float64 Chainhash Vote Wire Hash WireMsg BlockIndex Signature.
From S2P Require Import Validate Genesis Chain.

(** The key of the node.  [Sign64] is [None] when the signature of crypto/ecdsa
    fails: the two numbers are then nil, and [sign] of btcec/signature.go
    dereferences them before its caller sees the error.  What it returns is a
    64-byte signature that verifies under the public key. *)
Class NodeKey `{Curve} := {
  Sign64 : list byte -> option (list byte);
  node_key : PubKey;
  Sign64_length : forall h s, Sign64 h = Some s -> length s = Hash64Size;
  Sign64_verifies : forall h s sig, Sign64 h = Some s -> GetSignature (E := unit) s = Ok sig ->
    ecdsa_Verify node_key h (sig_R sig) (sig_S sig) = true;
  node_key_parses : ParsePubKey (SerializeCompressed node_key) = Ok node_key
}.

(** What the handlers send. *)
Inductive event :=
  | EvSendBlock (c : MsgCandidate)
  | EvSendSign (s : MsgSign)
  | EvGetBlock (m : MsgGetBlock)
  | EvSyncBlock (m : MsgSyncBlock).

Section Round.
Context `{HashFunctions} `{Curve} `{Platform} `{Backend} `{MapOrder}.

Record RoundState := mkRound {
  PrevCandidatePool : gmap Hash MsgCandidate;
  CurrentCandidatePool : gmap Hash MsgCandidate;
  CurrentPointPool : gmap Hash (list MsgCandidate);
  vars : VoteVars;
  incrementBlock : gset Z;
  rejectedTxns : gset Hash;
  chain : BlockChain;
  outbox : list event
}.

Definition with_vars (v : VoteVars) (st : RoundState) : RoundState :=
  mkRound (PrevCandidatePool st) (CurrentCandidatePool st) (CurrentPointPool st) v
    (incrementBlock st) (rejectedTxns st) (chain st) (outbox st).
Definition send (e : event) (st : RoundState) : RoundState :=
  mkRound (PrevCandidatePool st) (CurrentCandidatePool st) (CurrentPointPool st) (vars st)
    (incrementBlock st) (rejectedTxns st) (chain st) (outbox st ++ [e]).

(** The two insertions into the candidate pool and the pointing pool. *)
Definition add_candidate (h : Hash) (c : MsgCandidate) (pointsTo : Hash) (st : RoundState)
  : RoundState :=
  mkRound (PrevCandidatePool st) (<[h := c]> (CurrentCandidatePool st))
    (<[pointsTo := default [] (CurrentPointPool st !! pointsTo) ++ [c]]> (CurrentPointPool st))
    (vars st) (incrementBlock st) (rejectedTxns st) (chain st) (outbox st).

Definition MsgCandidateToBlock (c : MsgCandidate) : MsgBlock :=
  mkMsgBlock (mc_Header c) (mc_Transactions c).

(** ** Counting votes *)

Definition GetBestPointBlockH (st : RoundState) : Hash :=
  (fold_left (fun acc kv => if acc.2 <? zlen kv.2 then (kv.1, zlen kv.2) else acc)
     (range (CurrentPointPool st)) (zero_hash, 0)).1.

Definition tickets (st : RoundState) : gmap Hash (list SignAndKey) := GetTicketPool (vars st).

(** The weight read through a candidate that may be missing. *)
Definition pool_weight {E} (st : RoundState) (h : Hash) : result E Z :=
  match CurrentCandidatePool st !! h with
  | Some c => Ok (candidate_weight c)
  | None => Panic
  end.

Definition max_step {E} (st : RoundState) (acc : Hash * Z) (kv : Hash * list SignAndKey)
  : result E (Hash * Z) :=
  let '(maxBlockHash, maxVotes) := acc in
  let '(headerHash, signAndKeys) := kv in
  let count := zlen signAndKeys in
  if maxVotes <? count then Ok (headerHash, count)
  else if count =? maxVotes then
    let* weight := pool_weight st headerHash in
    let* maxWeight := pool_weight st maxBlockHash in
    if weight <? maxWeight then Ok (headerHash, maxVotes) else Ok acc
  else Ok acc.

Fixpoint max_loop {E} (st : RoundState) (acc : Hash * Z) (l : list (Hash * list SignAndKey))
  : result E (Hash * Z) :=
  match l with
  | [] => Ok acc
  | kv :: l => let* acc := max_step st acc kv in max_loop st acc l
  end.

Definition GetMaxVotes {E} (st : RoundState) : result E (Hash * Z) :=
  let* best := max_loop st (zero_hash, 0) (range (tickets st)) in
  Ok (best.1, u16 best.2).

Definition GetVotes (st : RoundState) (h : Hash) : Z := u16 (zlen (default [] (tickets st !! h))).

Definition AdvantageVoteNum : Z := 100.

Definition isAdvantage {E} (st : RoundState) (headerHash : Hash) : result E bool :=
  let* best := GetMaxVotes st in
  let count := GetVotes st headerHash in
  Ok (negb (AdvantageVoteNum <=? u16 (best.2 - count))).

(** [float64(2) / float64(3)]. *)
Definition MinVoteRatio : float64 := fdiv (of_int 2) (of_int 3).

Definition IsEnough (voteNum scale : Z) : bool :=
  if scale <=? IdealVoteNum then
    ((scale <=? 10)
     && fge (of_int voteNum) (fsub (fmul (of_int scale) MinVoteRatio) (of_int 1)))
    || fge (of_int voteNum) (fmul (of_int scale) MinVoteRatio)
  else fge (of_int voteNum) (fmul (of_int IdealVoteNum) MinVoteRatio).

(** ** The vote of this node *)

(** The errors of the conversions are only logged; using their nil results
    panics. *)
Definition BlockVote `{!NodeKey} {E} (msg : MsgCandidate) (st : RoundState) : result E RoundState :=
  let headerHash := BlockHash (mc_Header msg) in
  let* adv := isAdvantage st headerHash in
  if negb adv then Ok st
  else
    match Sign64 headerHash with
    | None => Panic
    | Some headerSign =>
        let bigWeight := sig_weight headerSign in
        let* voteVerge := VotesVerge (bh_Scale (mc_Header msg)) in
        if bigWeight <=? voteVerge then
          match NewHash64 headerSign, NewHash33 (SerializeCompressed node_key) with
          | Ok sign, Ok pubKey =>
              Ok (send (EvSendSign (mkMsgSign headerHash sign pubKey))
                    (with_vars (UpdateTicketPool headerHash (mkSignAndKey sign pubKey) (vars st)) st))
          | _, _ => Panic
          end
        else Ok st
    end.

(** ** Candidates *)

(** The nodes [ProcessCandidate] averages: at most [PrevScaleNum] of them,
    following the previous-block hashes through the index. *)
Fixpoint collect_prev (n : nat) (bi : blockIndex) (node : option blockNode) : list blockNode :=
  match n, node with
  | S n, Some b => b :: collect_prev n bi (LookupNode bi (bh_PrevBlock (Header b)))
  | _, _ => []
  end.

(** The estimate of the network size on top of the best candidate. *)
Definition round_scale (bi : blockIndex) (best : BestLastCandidate) : Z :=
  let nodes := collect_prev PrevScaleNum bi (LookupNode bi (bh_PrevBlock (best_Header best))) in
  EstimateScale (best_Votes best :: map Votes nodes)
                (bh_Scale (best_Header best) :: map scale nodes).

Definition ProcessCandidate (block : MsgCandidate) (st : RoundState)
  : result rule_error (bool * RoundState) :=
  let blockHash := MsgCandidate_BlockHash block in
  match CurrentCandidatePool st !! blockHash with
  | Some _ => Err ErrDuplicateBlock
  | None =>
      if IsKnownOrphan (chain st) blockHash then Err ErrDuplicateBlock
      else match bestCandidate (chain st) with
      | None => Panic
      | Some best =>
          let seed := DoubleHashH (bh_Signature (best_Header best)) in
          let scale := round_scale (bc_index (chain st)) best in
          let* Pi := BlockVerge scale in
          let* vb := checkCandidateSanity (map snd (range (CurrentCandidatePool st))) block seed Pi in
          match PrevCandidatePool st !! bh_PrevBlock (mc_Header block) with
          | None => Err ErrDuplicateBlock
          | Some _ => Ok (vb, add_candidate blockHash block (best_Hash best) st)
          end
      end
  end.

Definition set_height (h : Z) (v : VoteVars) : VoteVars :=
  mkVoteVars (Work v) (ticketPool v) (prevTicketPool v) h (StartHeight v) (FirstBLockTime v)
    (VoteBool v).

(** [known]: the sender is a connected peer. *)
Definition handleCandidateMsg `{!NodeKey} {E} (known : bool) (c : MsgCandidate) (st : RoundState)
  : result E RoundState :=
  if negb known then Ok st
  else
    let height := mc_Height c in
    let st := with_vars (set_height height (vars st)) st in
    let distance := i32 (height - be_height (bc_backend (chain st))) in
    if distance =? 2 then
      match ProcessCandidate c st with
      | Ok (v, st) =>
          let st := mkRound (PrevCandidatePool st) (CurrentCandidatePool st) (CurrentPointPool st)
                      (vars st) (incrementBlock st) ∅ (chain st) (outbox st) in
          let st := send (EvSendBlock c) st in
          if v && VoteBool (vars st) then BlockVote c st else Ok st
      | Err _ => Ok st
      | Panic => Panic
      end
    else if 2 <? distance then
      if StartHeight (vars st) =? height then Ok st
      else if bool_decide (height ∈ incrementBlock st) then Ok st
      else
        let prev := bh_PrevBlock (mc_Header c) in
        let st := send (EvGetBlock (mkMsgGetBlock 1 (i32 (height - 2)) zero_hash)) st in
        let st := send (EvGetBlock (mkMsgGetBlock 2 (i32 (height - 1)) prev)) st in
        let st := add_candidate (MsgCandidate_BlockHash c) c prev st in
        Ok (mkRound (PrevCandidatePool st) (CurrentCandidatePool st) (CurrentPointPool st) (vars st)
              ({[height]} ∪ incrementBlock st) (rejectedTxns st) (chain st) (outbox st))
    else Ok st.

(** ** Votes of others *)

(** Whether the key has not voted for the block yet: the loops look at every
    entry of the pool but only inspect the one of the block. *)
Definition preventRepeatSign (st : RoundState) (blockHeaderHash : Hash) (publicKey : Hash33) : bool :=
  forallb (fun kv => if bool_decide (kv.1 = blockHeaderHash)
                     then forallb (fun sk => negb (bool_decide (publicKey = PublicKey sk))) kv.2
                     else true)
    (range (tickets st)).

(** A key that does not parse is logged, and the nil key is then used. *)
Definition CollectVotes {E} (sign : MsgSign) (candidate : MsgCandidate) (st : RoundState)
  : result E RoundState :=
  let h := ms_BlockHeaderHash sign in
  if preventRepeatSign st h (ms_PublicKey sign) then
    let pubKey := match ParsePubKey (ms_PublicKey sign) with Ok k => Some k | _ => None end in
    let* sig := GetSignature (ms_Signature sign) in
    let* ok := Verify sig h pubKey in
    if ok : bool then
      let bigWeight := sig_weight (ms_Signature sign) in
      let* voteVerge := VotesVerge (bh_Scale (mc_Header candidate)) in
      if bigWeight <=? voteVerge then
        let ticket := mkSignAndKey (ms_Signature sign) (ms_PublicKey sign) in
        let st := with_vars (UpdateTicketPool h ticket (vars st)) st in
        match bestCandidate (chain st) with
        | Some last =>
            if bool_decide (bh_PrevBlock (mc_Header candidate) = best_Hash last)
            then Ok (send (EvSendSign sign) st) else Ok st
        | None => Ok st
        end
      else Ok st
    else Ok st
  else Ok st.

Definition handleSignMsg {E} (known : bool) (sign : MsgSign) (st : RoundState) : result E RoundState :=
  if negb known then Ok st
  else match CurrentCandidatePool st !! ms_BlockHeaderHash sign with
       | Some c => CollectVotes sign c st
       | None => Ok st
       end.

(** ** Synchronisation *)

(** A missing block is dereferenced in both cases. *)
Definition handleGetBlockMsg {E} (known : bool) (m : MsgGetBlock) (st : RoundState)
  : result E RoundState :=
  if negb known then Ok st
  else if gb_TypeParameter m =? 1 then
    match be_block_by_height (bc_backend (chain st)) (gb_Height m) with
    | Some b => Ok (send (EvSyncBlock (mkMsgSyncBlock 1
                     (mkMsgCandidate (mb_Header b) (mb_Transactions b) (gb_Height m)))) st)
    | None => Panic
    end
  else if gb_TypeParameter m =? 2 then
    match PrevCandidatePool st !! gb_BlockHash m with
    | Some c => Ok (send (EvSyncBlock (mkMsgSyncBlock 2 c)) st)
    | None => Panic
    end
  else Ok st.

Definition with_chain (bc : BlockChain) (st : RoundState) : RoundState :=
  mkRound (PrevCandidatePool st) (CurrentCandidatePool st) (CurrentPointPool st) (vars st)
    (incrementBlock st) (rejectedTxns st) bc (outbox st).

Definition handleSyncBlockMsg {E} (known : bool) (m : MsgSyncBlock) (st : RoundState)
  : result E RoundState :=
  if negb known then Ok st
  else
    let candidate := sb_MsgCandidate m in
    if sb_TypeParameter m =? 1 then
      match ProcessSyncBlock (mkBlock (MsgCandidateToBlock candidate) 0) (chain st) with
      | (Panic, _) => Panic
      | (_, bc) => Ok (with_chain bc st)
      end
    else if sb_TypeParameter m =? 2 then
      Ok (mkRound (<[MsgCandidate_BlockHash candidate := candidate]> (PrevCandidatePool st))
            (CurrentCandidatePool st) (CurrentPointPool st) (vars st) (incrementBlock st)
            (rejectedTxns st) (chain st) (outbox st))
    else Ok st.

(** ** The end of the round *)

Definition set_work (w : bool) (v : VoteVars) : VoteVars :=
  mkVoteVars w (ticketPool v) (prevTicketPool v) (CurrentHeight v) (StartHeight v)
    (FirstBLockTime v) (VoteBool v).

(** The end of an iteration of [generateBlocks], after the wait: [submitBlock]
    compares the previous block with the best candidate and sends the block,
    and the node votes for it.  Neither asks whether the block is still a
    candidate of the round. *)
Definition stop_work (st : RoundState) : RoundState := with_vars (set_work false (vars st)) st.

Definition submit_candidate `{!NodeKey} {E} (c : MsgCandidate) (st : RoundState) : result E RoundState :=
  match bestCandidate (chain st) with
  | None => Panic
  | Some best =>
      if negb (bool_decide (bh_PrevBlock (mc_Header c) = best_Hash best)) then Ok st
      else
        let st := send (EvSendBlock c) st in
        match mc_Transactions c with
        | tx :: _ =>
            match tx_TxOut tx with
            | _ :: _ => BlockVote c (stop_work st)
            | [] => Panic
            end
        | [] => Panic
        end
  end.

(** The best candidate of the round; a missing winner is dereferenced. *)
Definition choose_best {E} (st : RoundState) (winner : Hash) (votes : Z) : result E BlockChain :=
  let genesis := mb_Header genesisBlock in
  if (size (CurrentCandidatePool st) =? 0)%nat then
    Ok (SetBestCandidate genesisHash 0 genesis 1 (chain st))
  else match CurrentCandidatePool st !! winner with
  | None => Panic
  | Some c =>
      if IsEnough votes (bh_Scale (mc_Header c))
      then Ok (SetBestCandidate winner (mc_Height c) (mc_Header c) votes (chain st))
      else Ok (SetBestCandidate genesisHash (mc_Height c) genesis votes (chain st))
  end.

Definition voteProcess {E} (st : RoundState) : result E RoundState :=
  let* best := GetMaxVotes st in
  let '(blockHeaderHash, votes) := best in
  let* bc := choose_best st blockHeaderHash votes in
  let h := GetBestPointBlockH st in
  let* bc :=
    match PrevCandidatePool st !! h with
    | Some prevCandidate =>
        let block := mkBlock (MsgCandidateToBlock prevCandidate) votes in
        match ProcessBlock (map snd (range (CurrentCandidatePool st))) block bc with
        | (Panic, _) => Panic
        | (_, bc) => Ok bc
        end
    | None => Ok bc
    end in
  let v := SetPrevTicketPool (GetTicketPool (vars st)) (vars st) in
  let v := set_work true (SetTicketPool ∅ v) in
  Ok (mkRound (CurrentCandidatePool st) ∅ ∅ v (incrementBlock st) (rejectedTxns st) bc (outbox st)).

(** ** Lemmas on counting *)

Definition weight_of (st : RoundState) (h : Hash) : Z :=
  match CurrentCandidatePool st !! h with Some c => candidate_weight c | None => 0 end.

Definition in_pool (st : RoundState) (h : Hash) : Prop := is_Some (CurrentCandidatePool st !! h).

(** [acc] is no better than [r]: fewer votes, or as many and no smaller weight. *)
Definition no_better (st : RoundState) (acc r : Hash * Z) : Prop :=
  acc.2 < r.2 \/ (acc.2 = r.2 /\ weight_of st r.1 <= weight_of st acc.1).

Lemma no_better_refl st a : no_better st a a. Proof. right. lia. Qed.
Lemma no_better_trans st a b c : no_better st a b -> no_better st b c -> no_better st a c.
Proof. unfold no_better. lia. Qed.

Lemma pool_weight_in {E} st h : in_pool st h -> pool_weight (E := E) st h = Ok (weight_of st h).
Proof. intros [c Hc]. unfold pool_weight, weight_of. now rewrite Hc. Qed.

Lemma max_step_ok {E} st acc kv :
  kv.2 <> [] -> in_pool st kv.1 -> (acc.2 = 0 \/ in_pool st acc.1) -> 0 <= acc.2 ->
  exists r, max_step (E := E) st acc kv = Ok r /\ no_better st acc r
    /\ no_better st (kv.1, zlen kv.2) r /\ (r = acc \/ r = (kv.1, zlen kv.2)).
Proof.
  destruct acc as [mh mv], kv as [h l]. cbn [fst snd]. intros Hne Hin Hacc Hnn.
  assert (0 < zlen l) by (unfold zlen; destruct l; [easy|cbn; lia]).
  unfold max_step. case_if.
  - exists (h, zlen l). split_and!; auto using no_better_refl. now left.
  - case_if; [|exists (mh, mv); split_and!; auto using no_better_refl; left; cbn; lia].
    destruct Hacc as [Hz|Hm]; [lia|]. rewrite !pool_weight_in by easy. cbn [rbind].
    case_if.
    + exists (h, mv). split_and!; auto; [right|right|right; congruence]; cbn; lia.
    + exists (mh, mv). split_and!; auto using no_better_refl. right. cbn. lia.
Qed.

Lemma max_loop_ok {E} st l acc :
  Forall (fun kv => kv.2 <> [] /\ in_pool st kv.1) l -> (acc.2 = 0 \/ in_pool st acc.1) ->
  0 <= acc.2 ->
  exists r, max_loop (E := E) st acc l = Ok r /\ no_better st acc r
    /\ Forall (fun kv => no_better st (kv.1, zlen kv.2) r) l
    /\ (r = acc \/ Exists (fun kv => r = (kv.1, zlen kv.2)) l).
Proof.
  revert acc. induction l as [|kv l IH]; intros acc Hl Hacc Hnn.
  - exists acc. split_and!; auto using no_better_refl.
  - apply Forall_cons_iff in Hl as [[Hne Hin] Hl]. cbn [max_loop].
    destruct (max_step_ok (E := E) st acc kv Hne Hin Hacc Hnn) as (a & -> & H1a & H2a & Ha).
    cbn [rbind]. destruct (IH a Hl) as (r & Hr & H1r & H2r & Hrr).
    { destruct Ha as [->| ->]; auto. }
    { destruct Ha as [->| ->]; [easy|]. unfold zlen. cbn. lia. }
    exists r. split; [easy|]. split; [eauto using no_better_trans|].
    split; [constructor; eauto using no_better_trans|].
    destruct Hrr as [->|Hex]; [|auto]. destruct Ha as [->| ->]; auto.
Qed.

(** Every block with votes has a vote and is a candidate of the round. *)
Definition tickets_ok (st : RoundState) : Prop :=
  forall h l, tickets st !! h = Some l -> l <> [] /\ in_pool st h.

Lemma in_range {A} (m : gmap Hash A) h x : In (h, x) (range m) <-> m !! h = Some x.
Proof.
  rewrite <- elem_of_map_to_list, <- list_elem_of_In. now rewrite range_perm.
Qed.

Lemma tickets_ok_range st :
  tickets_ok st -> Forall (fun kv => kv.2 <> [] /\ in_pool st kv.1) (range (tickets st)).
Proof.
  intros Hok. apply List.Forall_forall. intros [h l] Hin%in_range. cbn. now apply Hok.
Qed.

(** The winner [GetMaxVotes] has to find. *)
Definition is_winner (st : RoundState) (h : Hash) (n : Z) : Prop :=
  exists l, tickets st !! h = Some l /\ zlen l = n /\
  forall h' l', tickets st !! h' = Some l' -> no_better st (h', zlen l') (h, n).

Lemma GetMaxVotes_loop {E} st :
  tickets_ok st ->
  exists h n, max_loop (E := E) st (zero_hash, 0) (range (tickets st)) = Ok (h, n)
    /\ (tickets st = ∅ /\ h = zero_hash /\ n = 0 \/ is_winner st h n).
Proof.
  intros Hok. destruct (max_loop_ok (E := E) st (range (tickets st)) (zero_hash, 0))
    as ([h n] & Hr & _ & Hall & Hrr); [now apply tickets_ok_range|now left|cbn; lia|].
  exists h, n. split; [easy|]. destruct Hrr as [Heq|Hex].
  - left. destruct (map_choose_or_empty (tickets st)) as [(k & l & Hk)|He].
    + rewrite List.Forall_forall in Hall. specialize (Hall (k, l) ltac:(now apply in_range)).
      injection Heq as -> ->. destruct (Hok k l Hk) as [Hne _]. unfold no_better in Hall. cbn in Hall.
      destruct l; [easy|]. unfold zlen in Hall. cbn in Hall. lia.
    + injection Heq as -> ->. auto.
  - right. apply List.Exists_exists in Hex as ([k l] & Hin%in_range & Heq). injection Heq as -> ->.
    exists l. split_and!; auto. intros h' l' Hl'.
    rewrite List.Forall_forall in Hall. apply (Hall (h', l')). now apply in_range.
Qed.

(** With pairwise different weights there is one winner. *)
Lemma is_winner_unique st h n h' n' :
  (forall a b, in_pool st a -> in_pool st b -> weight_of st a = weight_of st b -> a = b) ->
  tickets_ok st -> is_winner st h n -> is_winner st h' n' -> h = h' /\ n = n'.
Proof.
  intros Hinj Hok (l & Hl & <- & Hbest) (l' & Hl' & <- & Hbest').
  specialize (Hbest _ _ Hl'). specialize (Hbest' _ _ Hl). unfold no_better in *. cbn in *.
  assert (zlen l = zlen l') by lia. split; [|easy].
  apply Hinj; [now apply (Hok h l)|now apply (Hok h' l')|lia].
Qed.

(** ** The invariant of a round *)

(** A recorded vote: its key parses, its signature of the block hash verifies
    under it, and its weight is within the threshold of a header with that hash. *)
Definition ticket_ok (h : Hash) (t : SignAndKey) : Prop :=
  exists key sig header verge,
    ParsePubKey (PublicKey t) = Ok key /\ GetSignature (E := unit) (Vote.Signature t) = Ok sig
    /\ ecdsa_Verify key h (sig_R sig) (sig_S sig) = true
    /\ BlockHash header = h /\ VotesVerge (E := unit) (bh_Scale header) = Ok verge
    /\ sig_weight (Vote.Signature t) <= verge.

(** Votes under an exempt key need not be for a candidate of the round, and can
    be recorded twice; every other vote is for a candidate and recorded once. *)
Definition for_candidate (exempt : Hash33 -> bool) (st : RoundState) (h : Hash) (l : list SignAndKey)
  : Prop := in_pool st h \/ Forall (fun t => exempt (PublicKey t) = true) l.

Definition once (exempt : Hash33 -> bool) (l : list SignAndKey) : Prop :=
  NoDup (List.filter (fun k => negb (exempt k)) (map PublicKey l)).

Record round_inv (exempt : Hash33 -> bool) (st : RoundState) : Prop := {
  inv_pool : forall h c, CurrentCandidatePool st !! h = Some c -> h = BlockHash (mc_Header c);
  inv_in_pool : forall h l, tickets st !! h = Some l -> l <> [] /\ for_candidate exempt st h l;
  inv_valid : forall h l, tickets st !! h = Some l -> Forall (ticket_ok h) l;
  inv_once : forall h l, tickets st !! h = Some l -> once exempt l;
  inv_orphans : pool_ok (chain st)
}.

(** No key is exempt. *)
Definition nobody (k : Hash33) : bool := false.

Lemma round_inv_tickets st : round_inv nobody st -> tickets_ok st.
Proof.
  intros [_ I2 _ _ _] h l Hl. destruct (I2 h l Hl) as [Hne [Hin|Hex]]; [easy|].
  destruct Hex as [|t l' Ht _]; [easy|discriminate Ht].
Qed.


Section Invariant.
Context (exempt : Hash33 -> bool).
#[local] Abbreviation inv := (round_inv exempt).

(** States that agree on what the invariant reads. *)
Definition same_round (st st' : RoundState) : Prop :=
  CurrentCandidatePool st' = CurrentCandidatePool st /\ tickets st' = tickets st
  /\ chain st' = chain st.

Lemma same_round_inv st st' : same_round st st' -> inv st -> inv st'.
Proof.
  intros (Hc & Ht & Hb) [I1 I2 I3 I4 I5].
  constructor; unfold for_candidate, in_pool; rewrite ?Hc, ?Ht, ?Hb;
    [exact I1|exact I2|exact I3|exact I4|exact I5].
Qed.

Lemma init_inv prev points v incr rej bc out :
  ticketPool v = ∅ -> pool_ok bc -> inv (mkRound prev ∅ points v incr rej bc out).
Proof.
  intros Hv Hb. constructor; cbn [CurrentCandidatePool chain]; [| | | |exact Hb];
    intros h l; unfold tickets, GetTicketPool; cbn [vars]; rewrite ?Hv, lookup_empty; discriminate.
Qed.

(** Recording one more vote. *)
Lemma add_ticket_inv st h t :
  inv st -> in_pool st h \/ exempt (PublicKey t) = true /\ ~ in_pool st h -> ticket_ok h t ->
  exempt (PublicKey t) = true
    \/ (forall l, tickets st !! h = Some l -> PublicKey t ∉ map PublicKey l) ->
  inv (with_vars (UpdateTicketPool h t (vars st)) st).
Proof.
  intros [I1 I2 I3 I4 I5] Hin Ht Hfresh.
  set (st' := with_vars _ st).
  assert (Hlook : forall k l, tickets st' !! k = Some l ->
    (k = h /\ l = default [] (tickets st !! h) ++ [t]) \/ (k <> h /\ tickets st !! k = Some l)).
  { intros k l. unfold st', tickets, GetTicketPool, UpdateTicketPool, SetTicketPool.
    cbn [vars with_vars ticketPool]. rewrite lookup_insert_Some.
    intros [[<- <-]|[Hne Hl]]; [now left|right; split; [congruence|easy]]. }
  constructor.
  - exact I1.
  - intros k l Hk. destruct (Hlook k l Hk) as [[-> ->]|[_ Hl]]; [|now apply I2].
    split; [now destruct (default [] _)|]. destruct Hin as [Hin|[Hex Hout]]; [now left|right].
    apply Forall_app. split; [|now constructor].
    destruct (tickets st !! h) as [l'|] eqn:Hl'; [|constructor].
    now destruct (I2 h l' Hl') as [_ [Hin|Hall]].
  - intros k l Hk. destruct (Hlook k l Hk) as [[-> ->]|[_ Hl]]; [|now apply I3].
    apply Forall_app. split; [|now constructor].
    destruct (tickets st !! h) as [l'|] eqn:Hl'; [now apply I3|constructor].
  - intros k l Hk. destruct (Hlook k l Hk) as [[-> ->]|[_ Hl]]; [|now apply (I4 k l)].
    unfold once. rewrite map_app, List.filter_app. cbn [map List.filter].
    destruct (exempt (PublicKey t)) eqn:Hex; cbn [negb].
    + rewrite app_nil_r. destruct (tickets st !! h) as [l'|] eqn:Hl'; [now apply (I4 h)|constructor].
    + destruct Hfresh as [[=]|Hfresh]. destruct (tickets st !! h) as [l'|] eqn:Hl'; cbn [default]; unfold id.
      * apply list.NoDup_app. split_and!; [now apply (I4 h)| |apply list.NoDup_singleton].
        intros x Hx ->%list_elem_of_singleton. apply (Hfresh l' eq_refl).
        apply list_elem_of_In in Hx. apply filter_In in Hx as [Hx _]. now apply list_elem_of_In.
      * apply list.NoDup_singleton.
  - exact I5.
Qed.

Lemma preventRepeatSign_fresh st h key :
  preventRepeatSign st h key = true ->
  forall l, tickets st !! h = Some l -> key ∉ map PublicKey l.
Proof.
  unfold preventRepeatSign. rewrite forallb_forall. intros Hall l Hl.
  specialize (Hall (h, l) ltac:(now apply in_range)). cbn in Hall.
  rewrite bool_decide_eq_true_2 in Hall by easy. rewrite forallb_forall in Hall.
  intros (t & -> & Ht)%list_elem_of_fmap. specialize (Hall t ltac:(now apply list_elem_of_In)).
  apply negb_true_iff, bool_decide_eq_false in Hall. now apply Hall.
Qed.

Lemma GetSignature_any {E} s sig :
  GetSignature (E := E) s = Ok sig -> GetSignature (E := unit) s = Ok sig.
Proof.
  unfold GetSignature, slice. repeat (destruct (_ && _); cbn [rbind]; try discriminate).
  intros Heq. injection Heq as <-. reflexivity.
Qed.

Lemma VotesVerge_any {E} sc v : VotesVerge (E := E) sc = Ok v -> VotesVerge (E := unit) sc = Ok v.
Proof. unfold VotesVerge. case_if; [discriminate|]. intros Heq. injection Heq as <-. reflexivity. Qed.

Lemma CollectVotes_inv {E} sign c st st' :
  inv st -> CurrentCandidatePool st !! ms_BlockHeaderHash sign = Some c ->
  CollectVotes (E := E) sign c st = Ok st' -> inv st'.
Proof.
  intros Hinv Hc. unfold CollectVotes.
  destruct (preventRepeatSign _ _ _) eqn:Hrep; [|now intros [= <-]].
  destruct (GetSignature _) as [sig| |] eqn:Hsig; try discriminate. cbn [rbind].
  destruct (ParsePubKey _) as [key| |] eqn:Hkey; try discriminate. cbn [rbind Verify].
  destruct (ecdsa_Verify _ _ _ _) eqn:Hver; [|now intros [= <-]].
  destruct (VotesVerge _) as [verge| |] eqn:Hverge; try discriminate. cbn [rbind].
  case_if; [|now intros [= <-]].
  assert (Hnew : inv (with_vars (UpdateTicketPool (ms_BlockHeaderHash sign)
            (mkSignAndKey (ms_Signature sign) (ms_PublicKey sign)) (vars st)) st)).
  { apply add_ticket_inv; [easy|left; eexists; exact Hc| |right].
    - exists key, sig, (mc_Header c), verge. cbn.
      split_and!; eauto using GetSignature_any, VotesVerge_any. symmetry. now apply (inv_pool exempt st).
    - now apply preventRepeatSign_fresh. }
  destruct (bestCandidate _); [|now intros [= <-]].
  destruct (bool_decide _); intros [= <-]; [|easy].
  eapply same_round_inv; [|exact Hnew]. easy.
Qed.

Lemma set_bytes_ok n s h : set_bytes n s = Ok h -> h = s /\ length s = n.
Proof.
  unfold set_bytes. destruct (Nat.eqb_spec (length s) n); cbn; [|discriminate].
  now intros [= <-].
Qed.

Lemma GetMaxVotes_ok {E} st : tickets_ok st -> exists b, GetMaxVotes (E := E) st = Ok b.
Proof.
  intros Hok. destruct (GetMaxVotes_loop (E := E) st Hok) as (h & n & Hl & _).
  unfold GetMaxVotes. rewrite Hl. cbn. eauto.
Qed.

Lemma BlockVote_inv `{!NodeKey} {E} c st st' :
  inv st -> in_pool st (BlockHash (mc_Header c)) \/ exempt (SerializeCompressed node_key) = true ->
  exempt (SerializeCompressed node_key) = true
    \/ (forall l, tickets st !! BlockHash (mc_Header c) = Some l ->
                   SerializeCompressed node_key ∉ map PublicKey l) ->
  BlockVote (E := E) c st = Ok st' -> inv st'.
Proof.
  intros Hinv Hc Hfresh. unfold BlockVote.
  destruct (isAdvantage _ _) as [[]| |]; try discriminate; cbn [rbind negb]; [|now intros [= <-]].
  destruct (Sign64 (BlockHash (mc_Header c))) as [s|] eqn:Hs; [|discriminate].
  destruct (VotesVerge _) as [verge| |] eqn:Hverge; try discriminate. cbn [rbind].
  case_if; [|now intros [= <-]].
  destruct (NewHash64 _) as [sign| |] eqn:Hsign; try discriminate.
  destruct (NewHash33 _) as [key| |] eqn:Hkey; try discriminate. intros [= <-].
  apply set_bytes_ok in Hsign as [-> Hlen], Hkey as [-> _].
  apply (same_round_inv (with_vars (UpdateTicketPool (BlockHash (mc_Header c))
    (mkSignAndKey s (SerializeCompressed node_key)) (vars st)) st)); [easy|].
  apply add_ticket_inv; [easy| | |exact Hfresh].
  - unfold in_pool in *. destruct (CurrentCandidatePool st !! _) as [c'|]; [left; eauto|right].
    destruct Hc as [[c' Hc]|Hex]; [discriminate|]. split; [exact Hex|]. now intros [c' [=]].
  - destruct (GetSignature_ok (E := unit) _ Hlen) as [sig Hsig].
    exists node_key, sig, (mc_Header c), verge. cbn [Vote.Signature PublicKey] in *.
    split_and!; eauto using VotesVerge_any, node_key_parses, Sign64_verifies.
Qed.

Lemma submit_candidate_inv `{!NodeKey} {E} c st st' :
  inv st -> exempt (SerializeCompressed node_key) = true ->
  submit_candidate (E := E) c st = Ok st' -> inv st'.
Proof.
  intros Hinv Hex. unfold submit_candidate. destruct (bestCandidate _); [|discriminate].
  destruct (negb _); [now intros [= <-]|].
  destruct (mc_Transactions c) as [|tx txs]; [discriminate|]. destruct (tx_TxOut tx); [discriminate|].
  apply BlockVote_inv; [|now right|now left]. apply (same_round_inv st); easy.
Qed.

(** A candidate joins the pool under its own hash. *)
Lemma add_candidate_inv st c pointsTo :
  inv st -> inv (add_candidate (BlockHash (mc_Header c)) c pointsTo st).
Proof.
  intros [I1 I2 I3 I4 I5]. constructor; [| |exact I3|exact I4|exact I5].
  - intros h c'. cbn [add_candidate CurrentCandidatePool]. rewrite lookup_insert_Some.
    intros [[<- <-]|[_ Hl]]; [easy|now apply I1].
  - intros h l Hl. destruct (I2 h l Hl) as [Hne Hin]. split; [easy|].
    destruct Hin as [Hin|Hex]; [left|now right].
    unfold in_pool. cbn [add_candidate CurrentCandidatePool]. apply lookup_insert_is_Some'. now right.
Qed.

Lemma ProcessCandidate_inv c st v st' :
  inv st -> ProcessCandidate c st = Ok (v, st') ->
  inv st' /\ CurrentCandidatePool st' !! BlockHash (mc_Header c) = Some c
  /\ forall l, tickets st' !! BlockHash (mc_Header c) = Some l ->
       Forall (fun t => exempt (PublicKey t) = true) l.
Proof.
  intros Hinv. unfold ProcessCandidate, MsgCandidate_BlockHash.
  destruct (CurrentCandidatePool st !! _) eqn:Hnew; [discriminate|].
  destruct (IsKnownOrphan _ _); [discriminate|].
  destruct (bestCandidate _) as [best|]; [|discriminate].
  destruct (BlockVerge _); try discriminate. cbn [rbind].
  destruct (checkCandidateSanity _ _ _ _); try discriminate. cbn [rbind].
  destruct (PrevCandidatePool st !! _); [|discriminate]. intros [= _ <-].
  split; [now apply add_candidate_inv|]. split; [apply lookup_insert_eq|].
  intros l Hl. destruct (inv_in_pool exempt st Hinv _ _ Hl) as [_ [[c' Hin]|Hall]]; [congruence|easy].
Qed.

Lemma handleCandidateMsg_inv `{!NodeKey} {E} known c st st' :
  inv st -> handleCandidateMsg (E := E) known c st = Ok st' -> inv st'.
Proof.
  intros Hinv. unfold handleCandidateMsg. destruct known; [cbn [negb]|now intros [= <-]].
  set (st1 := with_vars _ st).
  assert (Hinv1 : inv st1) by (apply (same_round_inv st); easy).
  case_if.
  - destruct (ProcessCandidate c st1) as [[v st2]|e|] eqn:Hp; [|now intros [= <-]|discriminate].
    apply ProcessCandidate_inv in Hp as (Hinv2 & Hc2 & Ht2); [|easy].
    set (st3 := send _ _).
    assert (Hinv3 : inv st3) by (apply (same_round_inv st2); easy).
    destruct (v && _); [|now intros [= <-]].
    apply BlockVote_inv; [easy|left; eexists; exact Hc2|].
    destruct (exempt (SerializeCompressed node_key)) eqn:Hex; [now left|right]. intros l Hl Hin.
    change (tickets st3) with (tickets st2) in Hl. apply Ht2 in Hl.
    apply list_elem_of_fmap in Hin as (t & Ht & Hin). rewrite list.Forall_forall in Hl.
    apply Hl in Hin. congruence.
  - case_if; [|now intros [= <-]]. case_if; [now intros [= <-]|].
    destruct (bool_decide _); [now intros [= <-]|]. intros [= <-].
    apply (same_round_inv (add_candidate (BlockHash (mc_Header c)) c (bh_PrevBlock (mc_Header c)) st1));
      [split_and!; reflexivity|].
    now apply add_candidate_inv.
Qed.

Lemma handleSignMsg_inv {E} known sign st st' :
  inv st -> handleSignMsg (E := E) known sign st = Ok st' -> inv st'.
Proof.
  intros Hinv. unfold handleSignMsg. destruct known; [cbn [negb]|now intros [= <-]].
  destruct (CurrentCandidatePool st !! _) eqn:Hc; [|now intros [= <-]].
  now apply CollectVotes_inv.
Qed.

Lemma handleGetBlockMsg_inv {E} known m st st' :
  inv st -> handleGetBlockMsg (E := E) known m st = Ok st' -> inv st'.
Proof.
  intros Hinv. unfold handleGetBlockMsg. destruct known; [cbn [negb]|now intros [= <-]].
  repeat case_if; try (now intros [= <-]); case_match; try discriminate; intros [= <-];
    (apply (same_round_inv st); [split_and!; reflexivity|easy]).
Qed.

Lemma with_chain_inv st bc : inv st -> pool_ok bc -> inv (with_chain bc st).
Proof. intros [I1 I2 I3 I4 I5] Hb. constructor; [exact I1|exact I2|exact I3|exact I4|exact Hb]. Qed.

Lemma handleSyncBlockMsg_inv {E} known m st st' :
  inv st -> handleSyncBlockMsg (E := E) known m st = Ok st' -> inv st'.
Proof.
  intros Hinv. unfold handleSyncBlockMsg. destruct known; [cbn [negb]|now intros [= <-]].
  case_if.
  - set (b := mkBlock _ _). pose proof (ProcessSyncBlock_inv b (chain st) (inv_orphans exempt st Hinv)) as Hp.
    destruct (ProcessSyncBlock b (chain st)) as [[] bc]; try discriminate; intros [= <-];
      now apply with_chain_inv.
  - case_if; intros [= <-]; [|easy].
    apply (same_round_inv st); [split_and!; reflexivity|easy].
Qed.

Lemma SetBestCandidate_pool h hgt hd v bc : pool_ok bc -> pool_ok (SetBestCandidate h hgt hd v bc).
Proof. intros [P1 P2 P3]. constructor; [exact P1|exact P2|exact P3]. Qed.

Lemma choose_best_pool {E} st h v bc :
  choose_best (E := E) st h v = Ok bc -> pool_ok (chain st) -> pool_ok bc.
Proof.
  unfold choose_best. intros Hc Hp. destruct (_ =? _)%nat in Hc.
  - injection Hc as <-. now apply SetBestCandidate_pool.
  - destruct (CurrentCandidatePool st !! h) as [c|]; [|discriminate].
    destruct (IsEnough _ _) in Hc; injection Hc as <-; now apply SetBestCandidate_pool.
Qed.

Lemma voteProcess_inv {E} st st' : inv st -> voteProcess (E := E) st = Ok st' -> inv st'.
Proof.
  intros Hinv. unfold voteProcess.
  destruct (GetMaxVotes st) as [[h votes]| |]; try discriminate. cbn [rbind].
  destruct (choose_best st h votes) as [bc| |] eqn:Hb; try discriminate. cbn [rbind].
  apply choose_best_pool in Hb; [|now apply (inv_orphans exempt)].
  destruct (PrevCandidatePool st !! _) as [pc|].
  - set (b := mkBlock _ _). set (pool := map snd _).
    pose proof (ProcessBlock_inv pool b bc Hb) as Hp.
    destruct (ProcessBlock pool b bc) as [r bc']. destruct Hp as [Hp _].
    destruct r; try discriminate; cbn [rbind]; intros [= <-]; now apply init_inv.
  - cbn [rbind]. intros [= <-]. now apply init_inv.
Qed.

End Invariant.

(** ** The steps of a node *)

(** The messages a node reacts to, the end of a round, and the two steps of its
    own block production ([generateBlocks]): a block enters the pools, counted
    as pointing to what was the best candidate when its template was made, and
    is submitted after the wait, in whatever state the node is in by then.
    [own] says whether the node submits blocks. *)
Inductive round_step `{!NodeKey} (own : bool) : RoundState -> RoundState -> Prop :=
  | step_candidate known c st st' :
      handleCandidateMsg (E := Empty_set) known c st = Ok st' -> round_step own st st'
  | step_sign known s st st' :
      handleSignMsg (E := Empty_set) known s st = Ok st' -> round_step own st st'
  | step_getblock known m st st' :
      handleGetBlockMsg (E := Empty_set) known m st = Ok st' -> round_step own st st'
  | step_syncblock known m st st' :
      handleSyncBlockMsg (E := Empty_set) known m st = Ok st' -> round_step own st st'
  | step_vote st st' :
      voteProcess (E := Empty_set) st = Ok st' -> round_step own st st'
  | step_propose c pointsTo st :
      round_step own st (add_candidate (MsgCandidate_BlockHash c) c pointsTo st)
  | step_submit c st st' :
      own = true -> submit_candidate (E := Empty_set) c st = Ok st' -> round_step own st st'.

Inductive reachable `{!NodeKey} (own : bool) (init : RoundState) : RoundState -> Prop :=
  | reach_init : reachable own init init
  | reach_step st st' : reachable own init st -> round_step own st st' -> reachable own init st'.

(** The key the invariant exempts: that of a node that submits blocks. *)
Definition own_key `{!NodeKey} (own : bool) (k : Hash33) : bool :=
  own && bool_decide (k = SerializeCompressed node_key).

Lemma round_step_inv `{!NodeKey} own st st' :
  round_inv (own_key own) st -> round_step own st st' -> round_inv (own_key own) st'.
Proof.
  intros Hinv Hstep. destruct Hstep;
    eauto using handleCandidateMsg_inv, handleSignMsg_inv, handleGetBlockMsg_inv,
      handleSyncBlockMsg_inv, voteProcess_inv, add_candidate_inv.
  eapply submit_candidate_inv; eauto. subst own. cbn. now apply bool_decide_eq_true_2.
Qed.

Lemma reachable_inv `{!NodeKey} own init st :
  round_inv (own_key own) init -> reachable own init st -> round_inv (own_key own) st.
Proof. intros Hi. induction 1; eauto using round_step_inv. Qed.

(** A node that submits no blocks only records votes for candidates. *)
Lemma reachable_tickets_ok `{!NodeKey} init st :
  round_inv nobody init -> reachable false init st -> tickets_ok st.
Proof. intros Hi Hr. apply round_inv_tickets. exact (reachable_inv false init st Hi Hr). Qed.

Lemma BlockVote_first `{!NodeKey} {E} c st st' :
  tickets st = ∅ -> BlockVote (E := E) c st = Ok st' ->
  CurrentCandidatePool st' = CurrentCandidatePool st
  /\ (tickets st' = ∅ \/ exists t, tickets st' = {[ BlockHash (mc_Header c) := [t] ]}).
Proof.
  intros Ht. unfold BlockVote. destruct (isAdvantage _ _) as [[]| |]; try discriminate; cbn [rbind negb];
    [|intros [= <-]; auto].
  destruct (Sign64 _) as [s|]; [|discriminate].
  destruct (VotesVerge _); try discriminate. cbn [rbind].
  case_if; [|intros [= <-]; auto].
  destruct (NewHash64 _) as [sign| |]; try discriminate.
  destruct (NewHash33 _) as [key| |]; try discriminate. intros [= <-].
  split; [easy|right]. exists (mkSignAndKey sign key).
  unfold tickets, GetTicketPool in Ht |- *. cbn [send with_vars vars UpdateTicketPool SetTicketPool ticketPool].
  unfold GetTicketPool. now rewrite Ht, lookup_empty.
Qed.

End Round.

(** ** The quorum, exactly *)

(** The double computations of [IsEnough] agree with rational arithmetic. *)
Lemma ratio_table :
  forallb (fun n => let s := Z.of_nat n in
             fceil (fmul (of_int s) MinVoteRatio) =? cdiv (2 * s) 3) (seq 0 301) = true.
Proof. vm_compute. reflexivity. Qed.

Lemma ratio_minus_one_table :
  forallb (fun n => let s := Z.of_nat n in
             fceil (fsub (fmul (of_int s) MinVoteRatio) (of_int 1)) =? cdiv (2 * s - 3) 3) (seq 0 11)
  = true.
Proof. vm_compute. reflexivity. Qed.

Lemma ratio_exact s : 0 <= s <= 300 -> fceil (fmul (of_int s) MinVoteRatio) = cdiv (2 * s) 3.
Proof.
  intros Hs. pose proof ratio_table as Ht. rewrite forallb_forall in Ht.
  specialize (Ht (Z.to_nat s) ltac:(apply in_seq; lia)). cbv zeta in Ht.
  rewrite Z2Nat.id in Ht by lia. now apply Z.eqb_eq.
Qed.

Lemma ratio_minus_one_exact s :
  0 <= s <= 10 -> fceil (fsub (fmul (of_int s) MinVoteRatio) (of_int 1)) = cdiv (2 * s - 3) 3.
Proof.
  intros Hs. pose proof ratio_minus_one_table as Ht. rewrite forallb_forall in Ht.
  specialize (Ht (Z.to_nat s) ltac:(apply in_seq; lia)). cbv zeta in Ht.
  rewrite Z2Nat.id in Ht by lia. now apply Z.eqb_eq.
Qed.

Lemma cdiv_le n d z : 0 < d -> (cdiv n d <=? z) = true <-> n <= z * d.
Proof.
  intros Hd. unfold cdiv. rewrite Z.leb_le. split; intros Hz.
  - pose proof (Z.mul_div_le (- n) d Hd). nia.
  - enough (- z <= - n / d) by lia. apply Z.div_le_lower_bound; lia.
Qed.

(** ** Properties *)

(** C5: the quorum rule, exactly: the double computations of [IsEnough] decide
    whether the votes reach two thirds of the expected number of voters (the
    estimated network size, at most 300), where a network of at most ten nodes
    may miss one vote more.  Exactly two thirds, 200 votes of 300, is enough,
    although the comments of the function ask for more than two thirds. *)
Theorem IsEnough_spec voteNum scale :
  0 <= scale ->
  IsEnough voteNum scale = true <->
  2 * Z.min scale 300 <= 3 * voteNum \/ (scale <= 10 /\ 2 * scale <= 3 * voteNum + 3).
Proof.
  intros Hs. unfold IsEnough, IdealVoteNum. rewrite !fge_of_int. case_if.
  - rewrite orb_true_iff, andb_true_iff, ratio_exact, cdiv_le by lia.
    destruct (Z.le_gt_cases scale 10) as [H10|H10].
    + rewrite ratio_minus_one_exact, cdiv_le by lia. lia.
    + split; [|lia]. intros [[Hle _]|Hv]; [bool_to_Z; lia|lia].
  - rewrite ratio_exact, cdiv_le by lia. lia.
Qed.

Lemma IsEnough_spec_witness : 0 <= 9 /\ (IsEnough 5 9 = true <->
  2 * Z.min 9 300 <= 3 * 5 \/ (9 <= 10 /\ 2 * 9 <= 3 * 5 + 3)).
Proof. split; [lia|apply (IsEnough_spec 5 9); lia]. Defined.


(** C3: counting the votes never fails when every block with votes is a
    candidate of the round, and finds a block with the most votes and, among
    those, the smallest weight; without votes the result is the zero hash. *)
Theorem GetMaxVotes_winner `{HashFunctions} `{Curve} `{Platform} `{Backend} `{MapOrder} st :
  tickets_ok st ->
  exists h n, GetMaxVotes (E := Empty_set) st = Ok (h, u16 n)
    /\ (tickets st = ∅ /\ h = zero_hash /\ n = 0 \/ is_winner st h n).
Proof.
  intros Hok. destruct (GetMaxVotes_loop (E := Empty_set) st Hok) as (h & n & Hl & Hw).
  exists h, n. split; [|easy]. unfold GetMaxVotes. now rewrite Hl.
Qed.

(** C2: the winner does not depend on the order in which Go iterates over the
    ticket pool, as long as every block with votes is a candidate of the round
    ([tickets_ok]) and no two candidates have the same weight: any two nodes
    with the same pools choose the same block. *)
Theorem GetMaxVotes_order_independent `{HashFunctions} `{Curve} `{Platform} `{Backend}
    (o1 o2 : MapOrder) st :
  tickets_ok st ->
  (forall a b, in_pool st a -> in_pool st b -> weight_of st a = weight_of st b -> a = b) ->
  @GetMaxVotes _ _ o1 Empty_set st = @GetMaxVotes _ _ o2 Empty_set st.
Proof.
  intros Hok Hinj. unfold GetMaxVotes.
  destruct (@GetMaxVotes_loop _ _ o1 Empty_set st Hok) as (h1 & n1 & -> & Hr1).
  destruct (@GetMaxVotes_loop _ _ o2 Empty_set st Hok) as (h2 & n2 & -> & Hr2).
  destruct Hr1 as [(He1 & -> & ->)|Hw1], Hr2 as [(He2 & -> & ->)|Hw2]; [easy| | |].
  - destruct Hw2 as (l & Hl & _). now rewrite He1, lookup_empty in Hl.
  - destruct Hw1 as (l & Hl & _). now rewrite He2, lookup_empty in Hl.
  - now destruct (is_winner_unique st h1 n1 h2 n2 Hinj Hok Hw1 Hw2) as [-> ->].
Qed.


(** C6: what the end of a round does when it does not crash: the ticket pool
    and both pools of the round are emptied, the candidates become the previous
    pool, mining is allowed again, and the new best candidate is the winner if
    its votes reach the quorum, the genesis block otherwise.  The previous
    ticket pool is left as it was. *)
Theorem voteProcess_spec `{HashFunctions} `{Curve} `{Platform} `{Backend} `{MapOrder} st st' :
  voteProcess (E := Empty_set) st = Ok st' ->
  tickets st' = ∅ /\ CurrentCandidatePool st' = ∅ /\ CurrentPointPool st' = ∅
  /\ PrevCandidatePool st' = CurrentCandidatePool st /\ Work (vars st') = true
  /\ prevTicketPool (vars st') = prevTicketPool (vars st)
  /\ exists h votes best, GetMaxVotes (E := Empty_set) st = Ok (h, votes)
     /\ bestCandidate (chain st') = Some best
     /\ if bool_decide (CurrentCandidatePool st = ∅)
        then best = mkBest genesisHash 0 (mb_Header genesisBlock) 1
        else exists c, CurrentCandidatePool st !! h = Some c
             /\ best = if IsEnough votes (bh_Scale (mc_Header c))
                       then mkBest h (mc_Height c) (mc_Header c) votes
                       else mkBest genesisHash (mc_Height c) (mb_Header genesisBlock) votes.
Proof.
  unfold voteProcess. destruct (GetMaxVotes st) as [[h votes]| |] eqn:Hmax; try discriminate.
  cbn [rbind]. destruct (choose_best st h votes) as [bc| |] eqn:Hb; try discriminate. cbn [rbind].
  assert (Hbest : exists best, bestCandidate bc = Some best
     /\ if bool_decide (CurrentCandidatePool st = ∅)
        then best = mkBest genesisHash 0 (mb_Header genesisBlock) 1
        else exists c, CurrentCandidatePool st !! h = Some c
             /\ best = if IsEnough votes (bh_Scale (mc_Header c))
                       then mkBest h (mc_Height c) (mc_Header c) votes
                       else mkBest genesisHash (mc_Height c) (mb_Header genesisBlock) votes).
  { revert Hb. unfold choose_best. case_bool_decide as He.
    - rewrite He, map_size_empty. cbn. intros [= <-]. cbn. eauto.
    - destruct (Nat.eqb_spec (size (CurrentCandidatePool st)) 0) as [Hz|_].
      { now apply map_size_empty_inv in Hz. }
      destruct (CurrentCandidatePool st !! h) as [c|]; [|discriminate].
      destruct (IsEnough _ _) eqn:Hen; intros [= <-]; cbn; eexists; (split; [easy|]);
        exists c; rewrite Hen; easy. }
  intros Hrun.
  assert (Hsame : exists bc', bestCandidate bc' = bestCandidate bc
    /\ st' = mkRound (CurrentCandidatePool st) ∅ ∅
               (set_work true (SetTicketPool ∅ (SetPrevTicketPool (GetTicketPool (vars st)) (vars st))))
               (incrementBlock st) (rejectedTxns st) bc' (outbox st)).
  { destruct (PrevCandidatePool st !! _) as [pc|]; [|cbn in Hrun; injection Hrun as <-; eauto].
    pose proof (ProcessBlock_best (map snd (range (CurrentCandidatePool st)))
                  (mkBlock (MsgCandidateToBlock pc) votes) bc) as Hpb.
    destruct (ProcessBlock _ _ bc) as [[]]; try discriminate; injection Hrun as <-; eauto. }
  destruct Hsame as (bc' & Hbc & ->). split_and!; try reflexivity.
  destruct Hbest as (best & Hbest & Hspec). exists h, votes, best. cbn [chain].
  split_and!; [easy|congruence|easy].
Qed.

(** a round with candidates but without a single vote crashes the node:
    [GetMaxVotes] returns the zero hash, the candidate looked up under it is
    nil, and [voteProcess] dereferences it. *)
Theorem voteProcess_crashes_without_votes
    `{HashFunctions} `{Curve} `{Platform} `{Backend} `{MapOrder} st :
  tickets st = ∅ -> CurrentCandidatePool st <> ∅ -> CurrentCandidatePool st !! zero_hash = None ->
  voteProcess (E := Empty_set) st = Panic.
Proof.
  intros Ht Hne Hz. unfold voteProcess, GetMaxVotes. rewrite Ht.
  assert (Hr : range (∅ : gmap Hash (list SignAndKey)) = []).
  { apply Permutation_nil. rewrite range_perm. now rewrite map_to_list_empty. }
  rewrite Hr. cbn [max_loop rbind fst snd]. unfold choose_best.
  destruct (Nat.eqb_spec (size (CurrentCandidatePool st)) 0) as [He|_].
  { now apply map_size_empty_inv in He. }
  now rewrite Hz.
Qed.

(** the node can vote for its own block too late: the block is submitted some
    seconds after it was added to the pools, and if the round ends in between
    without a new best candidate (no quorum: the best candidate is the genesis
    block again), it is sent and voted for although it is no candidate any
    more.  When that is the only vote of the round and there is any other
    candidate, [voteProcess] looks the winner up in the pool, finds nil and
    crashes. *)
Theorem late_vote_crashes `{HashFunctions} `{Curve} `{Platform} `{Backend} `{MapOrder} `{!NodeKey}
    c st st' d pointsTo :
  CurrentCandidatePool st !! BlockHash (mc_Header c) = None -> tickets st = ∅ ->
  submit_candidate (E := Empty_set) c st = Ok st' -> tickets st' <> ∅ ->
  BlockHash (mc_Header d) <> BlockHash (mc_Header c) ->
  voteProcess (E := Empty_set) (add_candidate (BlockHash (mc_Header d)) d pointsTo st') = Panic.
Proof.
  intros Hc Ht Hs Hne Hd. revert Hs. unfold submit_candidate. destruct (bestCandidate _); [|discriminate].
  destruct (negb _); [now intros [= <-]|].
  destruct (mc_Transactions c) as [|tx txs]; [discriminate|]. destruct (tx_TxOut tx); [discriminate|].
  intros [Hp [He|[vote He]]]%BlockVote_first; [easy| |exact Ht].
  cbn [stop_work with_vars send CurrentCandidatePool] in Hp.
  set (st'' := add_candidate _ _ _ st'). unfold voteProcess, GetMaxVotes.
  change (tickets st'') with (tickets st'). rewrite He.
  assert (Hr : range ({[ BlockHash (mc_Header c) := [vote] ]} : gmap Hash (list SignAndKey))
               = [(BlockHash (mc_Header c), [vote])]).
  { apply Permutation_singleton_r. rewrite range_perm. now rewrite map_to_list_singleton. }
  rewrite Hr. cbn [max_loop max_step rbind]. change (0 <? zlen [vote]) with true. cbn [rbind fst snd].
  unfold choose_best, st''. cbn [add_candidate CurrentCandidatePool].
  destruct (Nat.eqb_spec (size (<[BlockHash (mc_Header d) := d]> (CurrentCandidatePool st'))) 0) as [Hz|_].
  { apply map_size_empty_inv in Hz. now apply insert_non_empty in Hz. }
  now rewrite lookup_insert_ne, Hp, Hc by easy.
Qed.

(** a peer can crash the node with one vote message: for a block that is a
    candidate of the round, a public key that does not parse is only logged,
    and the nil key is then used to verify. *)
Theorem bad_vote_key_crashes `{HashFunctions} `{Curve} `{Platform} `{Backend} `{MapOrder} sign c st e :
  CurrentCandidatePool st !! ms_BlockHeaderHash sign = Some c ->
  hash64_ok (ms_Signature sign) -> ParsePubKey (ms_PublicKey sign) = Err e ->
  preventRepeatSign st (ms_BlockHeaderHash sign) (ms_PublicKey sign) = true ->
  handleSignMsg (E := Empty_set) true sign st = Panic.
Proof.
  intros Hc Hs Hk Hrep. unfold handleSignMsg. cbn [negb]. rewrite Hc. unfold CollectVotes.
  rewrite Hrep, Hk. destruct (GetSignature_ok (E := Empty_set) _ Hs) as [sig ->]. reflexivity.
Qed.

(** a peer can crash the node with one getblock message of type 2 that
    names a block the node does not have in its previous candidate pool. *)
Theorem unknown_getblock_crashes `{HashFunctions} `{Curve} `{Platform} `{Backend} `{MapOrder} h hgt st :
  PrevCandidatePool st !! h = None ->
  handleGetBlockMsg (E := Empty_set) true (mkMsgGetBlock 2 hgt h) st = Panic.
Proof. intros Hh. unfold handleGetBlockMsg. cbn. now rewrite Hh. Qed.

(** C4: what it takes for a candidate to enter the pools: it is new, its key
    parses, its signature of the seed of the round verifies, its weight is
    below the threshold for the estimated network size, it passes the body
    checks, and its previous block was a candidate of the round before.  It is
    then counted as pointing to the best candidate of the node. *)
Theorem ProcessCandidate_accepts `{HashFunctions} `{Curve} `{Platform} `{Backend} `{MapOrder} c st v st' :
  hash64_ok (bh_Signature (mc_Header c)) ->
  ProcessCandidate c st = Ok (v, st') ->
  CurrentCandidatePool st !! BlockHash (mc_Header c) = None /\
  exists best key sig Pi,
    bestCandidate (chain st) = Some best
    /\ ParsePubKey (bh_PublicKey (mc_Header c)) = Ok key
    /\ GetSignature (E := rule_error) (bh_Signature (mc_Header c)) = Ok sig
    /\ ecdsa_Verify key (DoubleHashH (bh_Signature (best_Header best))) (sig_R sig) (sig_S sig) = true
    /\ BlockVerge (E := rule_error) (round_scale (bc_index (chain st)) best) = Ok Pi
    /\ candidate_weight c < Pi
    /\ check_body_sanity (mc_Header c) (mc_Transactions c) (MsgCandidate_SerializeSizeStripped c) = Ok tt
    /\ is_Some (PrevCandidatePool st !! bh_PrevBlock (mc_Header c))
    /\ (v = true <-> Forall (fun p => candidate_weight c < candidate_weight p.2)
                            (range (CurrentCandidatePool st)))
    /\ st' = add_candidate (BlockHash (mc_Header c)) c (best_Hash best) st.
Proof.
  intros Hs. unfold ProcessCandidate, MsgCandidate_BlockHash.
  destruct (CurrentCandidatePool st !! _) eqn:Hnew; [discriminate|].
  destruct (IsKnownOrphan _ _); [discriminate|].
  destruct (bestCandidate _) as [best|]; [|discriminate].
  destruct (BlockVerge _) as [Pi| |] eqn:HPi; try discriminate. cbn [rbind].
  unfold checkCandidateSanity.
  pose proof (header_sanity_ok (map snd (range (CurrentCandidatePool st))) (mc_Header c)
                (DoubleHashH (bh_Signature (best_Header best))) Pi Hs) as (sig & Hsig & Hspec).
  destruct (checkBlockHeaderSanity _ _ _ _) as [vb| |] eqn:Hh; try discriminate. cbn [rbind].
  destruct Hspec as (key & Hkey & Hver & Hw & Hvb).
  destruct (check_body_sanity _ _ _) as [[]| |] eqn:Hbody; try discriminate. cbn [rbind].
  destruct (PrevCandidatePool st !! _) as [pc|]; [|discriminate]. intros [= <- <-].
  split; [easy|]. exists best, key, sig, Pi. split_and!; try easy.
  unfold candidate_weight. rewrite Hvb, List.Forall_map. reflexivity.
Qed.

(** the pointing pool is keyed by the node's own best candidate, not by the
    block the candidate points to: an accepted candidate whose previous block
    is another one is counted for the best candidate, which can make
    [voteProcess] write a block that no candidate points to. *)
Theorem candidate_points_to_best `{HashFunctions} `{Curve} `{Platform} `{Backend} `{MapOrder}
    c st v st' best :
  ProcessCandidate c st = Ok (v, st') -> bestCandidate (chain st) = Some best ->
  bh_PrevBlock (mc_Header c) <> best_Hash best ->
  CurrentPointPool st' !! best_Hash best
    = Some (default [] (CurrentPointPool st !! best_Hash best) ++ [c])
  /\ CurrentPointPool st' !! bh_PrevBlock (mc_Header c)
    = CurrentPointPool st !! bh_PrevBlock (mc_Header c).
Proof.
  unfold ProcessCandidate. intros Hp Hb Hne. rewrite Hb in Hp.
  destruct (CurrentCandidatePool st !! _); [discriminate|].
  destruct (IsKnownOrphan _ _); [discriminate|].
  destruct (BlockVerge _); try discriminate. cbn [rbind] in Hp.
  destruct (checkCandidateSanity _ _ _ _); try discriminate. cbn [rbind] in Hp.
  destruct (PrevCandidatePool st !! _); [|discriminate]. injection Hp as <- <-.
  cbn [add_candidate CurrentPointPool].
  split; [apply lookup_insert_eq|apply lookup_insert_ne; congruence].
Qed.

Lemma voteProcess_prev `{HashFunctions} `{Curve} `{Platform} `{Backend} `{MapOrder} st st' :
  voteProcess (E := Empty_set) st = Ok st' -> PrevCandidatePool st' = CurrentCandidatePool st.
Proof.
  unfold voteProcess. destruct (GetMaxVotes st) as [[h votes]| |]; try discriminate. cbn [rbind].
  destruct (choose_best st h votes) as [bc| |]; try discriminate. cbn [rbind].
  destruct (match PrevCandidatePool st !! _ with Some _ => _ | None => _ end); try discriminate.
  now intros [= <-].
Qed.

(** a round without candidates stops the node from following the others:
    after it the best candidate is the genesis block, but the previous
    candidate pool is empty, so every candidate a peer sends in the next round
    is rejected, whatever it contains. *)
Theorem empty_round_rejects_candidates `{HashFunctions} `{Curve} `{Platform} `{Backend} `{MapOrder}
    st st' c :
  CurrentCandidatePool st = ∅ -> voteProcess (E := Empty_set) st = Ok st' ->
  forall v st'', ProcessCandidate c st' <> Ok (v, st'').
Proof.
  intros He Hv v st''. apply voteProcess_prev in Hv. rewrite He in Hv.
  unfold ProcessCandidate. rewrite Hv, lookup_empty.
  destruct (CurrentCandidatePool st' !! _); [discriminate|].
  destruct (IsKnownOrphan _ _); [discriminate|].
  destruct (bestCandidate _); [|discriminate].
  destruct (BlockVerge _); try discriminate. cbn [rbind].
  now destruct (checkCandidateSanity _ _ _ _).
Qed.

(** ** Concrete rounds *)

Lemma rev_perm {A} (m : gmap Hash A) : reverse (map_to_list m) ≡ₚ map_to_list m.
Proof. apply reverse_Permutation. Qed.
Definition reverse_order : MapOrder :=
  {| range A m := reverse (map_to_list m); range_perm A m := rev_perm m |}.

Lemma sample_pubkey_parses : ParsePubKey (SerializeCompressed sample_pubkey) = Ok sample_pubkey.
Proof. vm_compute. reflexivity. Qed.

Definition sample_node_key : @NodeKey accepting_curve.
Proof.
  refine (@Build_NodeKey accepting_curve (fun _ => Some (replicate 64 x00)) sample_pubkey _ _ _).
  - intros h s [= <-]. reflexivity.
  - reflexivity.
  - exact sample_pubkey_parses.
Defined.

Definition sample_hash : Hash := @BlockHash prefix_hash_functions (mc_Header sample_candidate).
Definition sample_best : BestLastCandidate :=
  mkBest (replicate 32 x07) 0 (mb_Header genesisBlock) 1.
Definition best_chain : @BlockChain empty_backend :=
  @mkBlockChain empty_backend newBlockIndex ∅ ∅ (Some sample_best) tt.
Definition fresh_vars : VoteVars := mkVoteVars false ∅ ∅ 0 1 0 true.

(** A node at the start, and one with a previous candidate to build on. *)
Definition start_state : @RoundState empty_backend :=
  @mkRound empty_backend ∅ ∅ ∅ fresh_vars ∅ ∅ empty_chain [].
Definition ready_state : @RoundState empty_backend :=
  @mkRound empty_backend {[ zero_hash := sample_candidate ]} ∅ ∅ fresh_vars ∅ ∅ best_chain [].
(** A candidate without votes, and with one. *)
Definition voteless_state : @RoundState empty_backend :=
  @mkRound empty_backend ∅ {[ sample_hash := sample_candidate ]} ∅ fresh_vars ∅ ∅ empty_chain [].
Definition voted_state : @RoundState empty_backend :=
  with_vars (UpdateTicketPool sample_hash
               (mkSignAndKey (replicate 64 x00) (replicate 33 x00)) fresh_vars) voteless_state.

Lemma best_chain_ok : @pool_ok prefix_hash_functions empty_backend best_chain.
Proof. constructor; intros; cbn in *; rewrite lookup_empty in *; discriminate. Qed.

Lemma voted_tickets h l :
  tickets voted_state !! h = Some l ->
  h = sample_hash /\ l = [mkSignAndKey (replicate 64 x00) (replicate 33 x00)].
Proof.
  unfold tickets, GetTicketPool, voted_state, UpdateTicketPool, SetTicketPool.
  cbn [vars with_vars ticketPool]. rewrite lookup_insert_Some. intros [[<- <-]|[_ Hl]]; [easy|].
  unfold GetTicketPool, fresh_vars in Hl. cbn [ticketPool] in Hl. now rewrite lookup_empty in Hl.
Qed.

Lemma voted_tickets_ok : tickets_ok voted_state.
Proof.
  intros h l [-> ->]%voted_tickets. split; [easy|].
  exists sample_candidate. unfold voted_state, with_vars, voteless_state.
  cbn [CurrentCandidatePool]. apply lookup_singleton_eq.
Qed.

(** A block of the node on the genesis block, and the vote of a peer for it. *)
Definition own_candidate : MsgCandidate :=
  let h := mc_Header sample_candidate in
  mkMsgCandidate (mkBlockHeader (bh_Version h) genesisHash (bh_MerkleRoot h) (bh_Timestamp h)
    (bh_Signature h) (bh_PublicKey h) (bh_Scale h) (bh_Reserved h)) [sample_coinbase] 1.

(** Two candidates of different weight with one vote each. *)
Definition heavy_candidate : MsgCandidate :=
  let h := mc_Header sample_candidate in
  mkMsgCandidate (mkBlockHeader 2 zero_hash (bh_MerkleRoot h) (bh_Timestamp h)
    (replicate 64 x01) (bh_PublicKey h) (bh_Scale h) (bh_Reserved h)) [sample_coinbase] 1.
Definition heavy_hash : Hash := @BlockHash prefix_hash_functions (mc_Header heavy_candidate).
Definition two_state : @RoundState empty_backend :=
  @mkRound empty_backend ∅ {[ sample_hash := sample_candidate; heavy_hash := heavy_candidate ]} ∅
    (mkVoteVars false
       {[ sample_hash := [mkSignAndKey (replicate 64 x00) (replicate 33 x00)];
          heavy_hash := [mkSignAndKey (replicate 64 x00) (replicate 33 x00)] ]} ∅ 0 1 0 true)
    ∅ ∅ empty_chain [].

Lemma two_pool h : in_pool two_state h -> h = sample_hash \/ h = heavy_hash.
Proof.
  intros [c Hc]. unfold two_state in Hc. cbn [CurrentCandidatePool] in Hc.
  apply lookup_insert_Some in Hc as [[<- _]|[_ Hc]]; [now left|right].
  now apply lookup_singleton_Some in Hc as [<- _].
Qed.

Lemma two_tickets_ok : tickets_ok two_state.
Proof.
  intros h l. unfold tickets, GetTicketPool, two_state, in_pool. cbn [vars ticketPool CurrentCandidatePool].
  intros [[<- <-]|[_ [<- <-]%lookup_singleton_Some]]%lookup_insert_Some; (split; [easy|]);
    vm_compute; eauto.
Qed.

Lemma two_weights a b : in_pool two_state a -> in_pool two_state b ->
  @weight_of prefix_hash_functions _ two_state a = @weight_of prefix_hash_functions _ two_state b -> a = b.
Proof.
  intros [->| ->]%two_pool [->| ->]%two_pool; try easy; intros Hw; exfalso; revert Hw;
    vm_compute; discriminate.
Qed.

Section Witnesses.
#[local] Existing Instance prefix_hash_functions | 0.
#[local] Existing Instance accepting_curve.
#[local] Existing Instance zero_platform.
#[local] Existing Instance empty_backend.
#[local] Existing Instance list_order.
#[local] Existing Instance sample_node_key.

Lemma start_vote : exists st', voteProcess (E := Empty_set) start_state = Ok st'.
Proof. eexists. vm_compute. reflexivity. Qed.




Lemma GetMaxVotes_winner_witness :
  exists h n, GetMaxVotes (E := Empty_set) two_state = Ok (h, u16 n)
    /\ (tickets two_state = ∅ /\ h = zero_hash /\ n = 0 \/ is_winner two_state h n).
Proof. exact (GetMaxVotes_winner two_state two_tickets_ok). Defined.

Lemma GetMaxVotes_order_independent_witness :
  range (MapOrder := list_order) (tickets two_state) <> range (MapOrder := reverse_order) (tickets two_state)
  /\ @GetMaxVotes _ _ list_order Empty_set two_state = @GetMaxVotes _ _ reverse_order Empty_set two_state.
Proof.
  split; [vm_compute; discriminate|].
  exact (GetMaxVotes_order_independent list_order reverse_order two_state two_tickets_ok two_weights).
Defined.

(** The own block of the node is voted for in a round it is no candidate of. *)
Definition late_steps : result Empty_set (RoundState * RoundState) :=
  let* st := voteProcess start_state in
  let* st' := submit_candidate own_candidate st in Ok (st, st').
Lemma late_steps_ok : (if late_steps is Ok (st, st') then
    bool_decide (is_Some (tickets st' !! BlockHash (mc_Header own_candidate)))
  else false) = true.
Proof. vm_compute. reflexivity. Qed.

Lemma late_vote : exists st st',
  voteProcess (E := Empty_set) start_state = Ok st
  /\ submit_candidate (E := Empty_set) own_candidate st = Ok st'
  /\ CurrentCandidatePool st = ∅ /\ tickets st = ∅
  /\ is_Some (tickets st' !! BlockHash (mc_Header own_candidate)).
Proof.
  pose proof late_steps_ok as Hok. unfold late_steps in Hok.
  destruct (voteProcess start_state) as [st| |] eqn:E1; try discriminate. cbn [rbind] in Hok.
  destruct (submit_candidate _ _) as [st'| |] eqn:E2; try discriminate. cbn [rbind] in Hok.
  apply bool_decide_eq_true in Hok. exists st, st'. unfold voteProcess in E1.
  destruct (GetMaxVotes start_state) as [[h votes]| |] in E1; try discriminate. cbn [rbind] in E1.
  destruct (choose_best start_state h votes) as [bc| |] in E1; try discriminate. cbn [rbind] in E1.
  destruct (PrevCandidatePool start_state !! _) in E1; [destruct (ProcessBlock _ _ _) as [[]] in E1|];
    try discriminate; injection E1 as <-; easy.
Qed.

Lemma late_vote_crashes_witness : exists st st',
  submit_candidate (E := Empty_set) own_candidate st = Ok st'
  /\ voteProcess (E := Empty_set) (add_candidate sample_hash sample_candidate genesisHash st') = Panic.
Proof.
  destruct late_vote as (st & st' & _ & Hs & Hp & Ht & Hv). exists st, st'. split; [exact Hs|].
  apply (late_vote_crashes own_candidate st st' sample_candidate genesisHash); [|exact Ht|exact Hs| |].
  - rewrite Hp. apply lookup_empty.
  - intros He. rewrite He, lookup_empty in Hv. now destruct Hv.
  - vm_compute. discriminate.
Defined.

Lemma voted_round : exists st' best, voteProcess (E := Empty_set) voted_state = Ok st'
  /\ bestCandidate (chain st') = Some best /\ best_Hash best = sample_hash.
Proof. do 2 eexists. split_and!; vm_compute; reflexivity. Qed.

Lemma voteProcess_spec_witness :
  exists st' best, voteProcess (E := Empty_set) voted_state = Ok st'
    /\ bestCandidate (chain st') = Some best /\ best_Hash best = sample_hash
    /\ tickets st' = ∅ /\ PrevCandidatePool st' = CurrentCandidatePool voted_state.
Proof.
  destruct voted_round as (st' & best & Hv & Hb & Hh). exists st', best.
  destruct (voteProcess_spec voted_state st' Hv) as (Ht & _ & _ & Hp & _).
  split; [exact Hv|]. split; [exact Hb|]. split; [exact Hh|]. split; [exact Ht|exact Hp].
Defined.

Lemma voteProcess_crashes_without_votes_witness :
  voteProcess (E := Empty_set) voteless_state = Panic.
Proof.
  apply (voteProcess_crashes_without_votes voteless_state); [reflexivity| |].
  - unfold voteless_state. cbn [CurrentCandidatePool]. apply map_non_empty_singleton.
  - apply lookup_singleton_None. vm_compute. discriminate.
Defined.

Definition bad_sign : MsgSign := mkMsgSign sample_hash (replicate 64 x00) (replicate 33 x00).

Lemma bad_vote_key_crashes_witness :
  handleSignMsg (E := Empty_set) true bad_sign voteless_state = Panic.
Proof.
  apply (bad_vote_key_crashes bad_sign sample_candidate voteless_state KeyMagic);
    [apply lookup_singleton_eq|reflexivity|reflexivity|reflexivity].
Defined.

Lemma unknown_getblock_crashes_witness :
  handleGetBlockMsg (E := Empty_set) true (mkMsgGetBlock 2 5 sample_hash) start_state = Panic.
Proof. apply (unknown_getblock_crashes sample_hash 5 start_state). apply lookup_empty. Defined.

Lemma ready_accepts : exists st', ProcessCandidate sample_candidate ready_state = Ok (true, st').
Proof. eexists. vm_compute. reflexivity. Qed.

Lemma ProcessCandidate_accepts_witness :
  exists st', ProcessCandidate sample_candidate ready_state = Ok (true, st')
    /\ CurrentCandidatePool ready_state !! BlockHash (mc_Header sample_candidate) = None.
Proof.
  destruct ready_accepts as [st' Hp]. exists st'. split; [exact Hp|].
  exact (proj1 (ProcessCandidate_accepts sample_candidate ready_state true st' eq_refl Hp)).
Defined.

Lemma candidate_points_to_best_witness :
  exists st', ProcessCandidate sample_candidate ready_state = Ok (true, st')
    /\ CurrentPointPool st' !! best_Hash sample_best = Some [sample_candidate].
Proof.
  destruct ready_accepts as [st' Hp]. exists st'. split; [exact Hp|].
  refine (proj1 (candidate_points_to_best sample_candidate ready_state true st' sample_best
                   Hp eq_refl _)). vm_compute. discriminate.
Defined.

Lemma empty_round_rejects_candidates_witness :
  exists st', voteProcess (E := Empty_set) start_state = Ok st'
    /\ forall v st'', ProcessCandidate sample_candidate st' <> Ok (v, st'').
Proof.
  destruct start_vote as [st' Hv]. exists st'. split; [exact Hv|].
  exact (empty_round_rejects_candidates start_state st' sample_candidate eq_refl Hv).
Defined.

End Witnesses.

(** Two previous blocks with one candidate each. *)
Definition tied_state : @RoundState empty_backend :=
  @mkRound empty_backend ∅ ∅
    {[ sample_hash := [sample_candidate]; replicate 32 x07 := [sample_candidate] ]}
    fresh_vars ∅ ∅ empty_chain [].

(** the block that is written at the end of a round can depend on the order
    in which Go happens to iterate over a map: when two previous blocks are
    pointed to equally often, [GetBestPointBlockH] returns whichever comes
    first, so nodes with the same pools can write different blocks. *)
Theorem GetBestPointBlockH_order_dependent :
  @GetBestPointBlockH empty_backend list_order tied_state
  <> @GetBestPointBlockH empty_backend reverse_order tied_state.
Proof. vm_compute. discriminate. Qed.
