(* ===== verification/Miner.v ===== *)
(** * Proposing blocks: mining/cpuminer/cpuminer.go

    One iteration of the worker [generateBlocks], with the mutex
    [submitBlockLock] explicit.  The iteration is cut where the worker waits
    before submitting its block: [generate_iteration] runs up to the insertion
    of the candidate into the pools, [submit_candidate] of Round.v from the end
    of the wait.  The template generator and [solveBlock] are parameters of an
    iteration. *)

From S2P Require Import Prelude Chainhash Vote Wire Hash WireMsg BlockIndex Signature.
From S2P Require Import Validate Genesis Chain Round.

Section Miner.
Context `{HashFunctions} `{Curve} `{Platform} `{Backend} `{MapOrder} `{!NodeKey}.

(** What an iteration meets: the quit channel, [IsCurrent], the result of
    [NewBlockTemplate] for the scale and height, and that of [solveBlock]. *)
Record miner_env := mkEnv {
  env_quit : bool;
  env_current : bool;
  env_template : Z -> Z -> option MsgCandidate;
  env_solved : MsgCandidate -> bool
}.

Inductive outcome :=
  | Quit
  (** the worker waits for a mutex it holds itself *)
  | Blocked
  (** [continue]: the next iteration starts with the mutex held or free *)
  | Continue (locked : bool) (st : RoundState)
  (** the candidate is in the pools, the worker waits to submit it *)
  | Proposed (c : MsgCandidate) (st : RoundState).

(** The error of [Sign64] is tested, but a failing one has panicked by then. *)
Definition generate_iteration (env : miner_env) (locked : bool) (st : RoundState)
  : result Empty_set outcome :=
  if env_quit env then Ok Quit
  else if locked then Ok Blocked
  else if negb (Work (vars st)) then Ok (Continue false st)
  else match bestCandidate (chain st) with
  | None => Panic
  | Some best =>
      if negb (best_Height best =? 0) && negb (env_current env) then Ok (Continue false st)
      else match Sign64 (DoubleHashB (bh_Signature (best_Header best))) with
      | None => Panic
      | Some signature =>
          let weight := sig_weight signature in
          let scale := round_scale (bc_index (chain st)) best in
          let* Pi := BlockVerge scale in
          if Pi <=? weight then Ok (Continue true (stop_work st))
          else
            match NewHash33 (SerializeCompressed node_key), NewHash64 signature with
            | Ok _, Ok _ =>
                match env_template env scale (i32 (best_Height best + 1)) with
                | None => Ok (Continue false (stop_work st))
                | Some c =>
                    if env_solved env c
                    then Ok (Proposed c (add_candidate (MsgCandidate_BlockHash c) c (best_Hash best) st))
                    else Ok (Continue false st)
                end
            | _, _ => Ok (Continue true (stop_work st))
            end
      end
  end.

End Miner.

(** ** Properties *)

(** losing the lottery once stops block production for good: when the
    weight of the node is not below the threshold, the iteration ends without
    releasing [submitBlockLock], and every later iteration that is not told to
    quit waits for the mutex it holds itself. *)
Theorem lost_lottery_deadlocks `{HashFunctions} `{Curve} `{Platform} `{Backend} `{MapOrder} `{!NodeKey}
    env st best signature Pi :
  env_quit env = false -> Work (vars st) = true -> bestCandidate (chain st) = Some best ->
  (best_Height best = 0 \/ env_current env = true) ->
  Sign64 (DoubleHashB (bh_Signature (best_Header best))) = Some signature ->
  BlockVerge (E := Empty_set) (round_scale (bc_index (chain st)) best) = Ok Pi ->
  Pi <= sig_weight signature ->
  exists st', generate_iteration env false st = Ok (Continue true st')
    /\ forall env' st'', env_quit env' = false -> generate_iteration env' true st'' = Ok Blocked.
Proof.
  intros Hq Hw Hb Hc Hs Hp Hlt. exists (stop_work st). split.
  - unfold generate_iteration. rewrite Hq, Hw, Hb. cbn [negb].
    replace (negb (best_Height best =? 0) && negb (env_current env)) with false.
    + rewrite Hs, Hp. cbn [rbind]. now rewrite (proj2 (Z.leb_le _ _) Hlt).
    + destruct Hc as [->| ->]; [easy|]. now rewrite andb_false_r.
  - intros env' st'' Hq'. unfold generate_iteration. now rewrite Hq'.
Qed.

(** A curve point and a hash that always give the largest weight. *)
Definition losing_sum (bs : list byte) : list byte := replicate HashSize xff.
Lemma length_losing_sum bs : length (losing_sum bs) = HashSize. Proof. reflexivity. Qed.
Definition losing_hash_functions : HashFunctions :=
  {| Sum256 := losing_sum; Sum256_length := length_losing_sum |}.

(** A best candidate whose votes put the threshold below that weight. *)
Definition busy_best : BestLastCandidate := mkBest zero_hash 0 (mb_Header genesisBlock) 200.
Definition busy_state : @RoundState empty_backend :=
  @mkRound empty_backend ∅ ∅ ∅ (set_work true fresh_vars) ∅ ∅
    (@mkBlockChain empty_backend newBlockIndex ∅ ∅ (Some busy_best) tt) [].

Lemma lost_lottery_deadlocks_witness :
  exists st',
    @generate_iteration losing_hash_functions accepting_curve zero_platform empty_backend
      sample_node_key (mkEnv false true (fun _ _ => None) (fun _ => true)) false busy_state
    = Ok (Continue true st').
Proof.
  destruct (@lost_lottery_deadlocks losing_hash_functions accepting_curve zero_platform empty_backend
    list_order sample_node_key (mkEnv false true (fun _ _ => None) (fun _ => true)) busy_state busy_best
    (replicate 64 x00) (2 ^ 256 * 50 / 200) eq_refl eq_refl eq_refl (or_introl eq_refl) eq_refl)
    as (st' & Hg & _).
  - vm_compute. reflexivity.
  - vm_compute. discriminate.
  - exists st'. exact Hg.
Defined.
