(* ===== verification/Treap.v ===== *)
(** * Treaps

    database/internal/treap: the ordered maps that hold the pending changes and
    the cache of the database.  Nodes live in a store and refer to each other by
    pointers, because the code compares pointers, shares subtrees between the
    versions of an immutable treap and updates nodes in place.  [rand.Int] is an
    argument of the operations that draw a priority.  Keys are non-nil slices. *)
From S2P Require Import Prelude.
Import ListNotations.

(** A loop that visits more nodes than the store has does not end. *)
Variant treap_error := ErrDiverges.

Module Treap.

(** ** Keys *)

(** bytes.Compare. *)
Fixpoint bytes_Compare (a b : list byte) : Z :=
  match a, b with
  | [], [] => 0
  | [], _ => -1
  | _, [] => 1
  | x :: a, y :: b => if x <? y then -1 else if y <? x then 1 else bytes_Compare a b
  end.

(** ** Nodes and the store *)

Definition ptr : Type := option N.

Record treapNode := mkNode {
  key : list byte;
  value : list byte;
  priority : Z;
  left : ptr;
  right : ptr
}.

Definition set_value (v : list byte) (n : treapNode) := mkNode (key n) v (priority n) (left n) (right n).
Definition set_left (p : ptr) (n : treapNode) := mkNode (key n) (value n) (priority n) p (right n).
Definition set_right (p : ptr) (n : treapNode) := mkNode (key n) (value n) (priority n) (left n) p.

Record store := mkStore { cells : gmap N treapNode; next : N }.

Definition res := result treap_error.

(** Dereferencing nil panics. *)
Definition load (st : store) (p : ptr) : res treapNode :=
  match p with
  | Some l => match cells st !! l with Some n => Ok n | None => Panic end
  | None => Panic
  end.

Definition update (st : store) (p : ptr) (f : treapNode -> treapNode) : res store :=
  match p with
  | Some l =>
      match cells st !! l with
      | Some n => Ok (mkStore (<[l := f n]> (cells st)) (next st))
      | None => Panic
      end
  | None => Panic
  end.

(** [&treapNode{...}]. *)
Definition new_node (st : store) (n : treapNode) : ptr * store :=
  (Some (next st), mkStore (<[next st := n]> (cells st)) (N.succ (next st))).

(** More than the number of nodes on any path. *)
Definition fuel (st : store) : nat := S (N.to_nat (next st)).

Definition nodeFieldsSize : Z := 72.
Definition nodeSize (n : treapNode) : Z :=
  u64 (nodeFieldsSize + u64 (Z.of_nat (length (key n)) + Z.of_nat (length (value n)))).
Definition newTreapNode (st : store) (k v : list byte) (prio : Z) : ptr * store :=
  new_node st (mkNode k v prio None None).
Definition cloneTreapNode (st : store) (p : ptr) : res (ptr * store) :=
  let* n := load st p in
  Ok (new_node st (mkNode (key n) (value n) (priority n) (left n) (right n))).

(** ** The stack of parents *)

Definition staticDepth : Z := 128.

Record parentStack := mkStack { index : Z; items : list ptr; overflow : list ptr }.

Definition empty_stack : parentStack := mkStack 0 (replicate (Z.to_nat staticDepth) None) [].

(** Indexing an array or a slice. *)
Definition at_index (a : list ptr) (i : Z) : res ptr :=
  if i <? 0 then Panic else match a !! Z.to_nat i with Some p => Ok p | None => Panic end.
Definition set_index (a : list ptr) (i : Z) (p : ptr) : res (list ptr) :=
  if (i <? 0) || (Z.of_nat (length a) <=? i) then Panic else Ok (<[Z.to_nat i := p]> a).

Definition Len (s : parentStack) : Z := index s.

Definition At (s : parentStack) (n : Z) : res ptr :=
  let i := index s - n - 1 in
  if i <? 0 then Ok None
  else if i <? staticDepth then at_index (items s) i
  else at_index (overflow s) (i - staticDepth).

Definition Pop (s : parentStack) : res (ptr * parentStack) :=
  if index s =? 0 then Ok (None, s)
  else
    let i := index s - 1 in
    if i <? staticDepth then
      let* node := at_index (items s) i in
      let* a := set_index (items s) i None in
      Ok (node, mkStack i a (overflow s))
    else
      let* node := at_index (overflow s) (i - staticDepth) in
      let* a := set_index (overflow s) (i - staticDepth) None in
      Ok (node, mkStack i (items s) a).

(** The slice [overflow] is never resliced, so its capacity is its length. *)
Definition Push (s : parentStack) (node : ptr) : res parentStack :=
  if index s <? staticDepth then
    let* a := set_index (items s) (index s) node in
    Ok (mkStack (index s + 1) a (overflow s))
  else
    let i := index s - staticDepth in
    let grown :=
      if Z.of_nat (length (overflow s)) <? i + 1
      then overflow s ++ replicate (Z.to_nat (i + 1) - length (overflow s)) None
      else overflow s in
    let* a := set_index grown i node in
    Ok (mkStack (index s + 1) (items s) a).

(** ** Operations that both treaps share *)

(** The fields of Immutable and of Mutable. *)
Record treap := mkTreap { root : ptr; count : Z; totalSize : Z }.

Definition empty_treap : treap := mkTreap None 0 0.

Fixpoint get_loop (n : nat) (st : store) (k : list byte) (node parent : ptr) : res (ptr * ptr) :=
  match n with
  | O => Err ErrDiverges
  | S n =>
      match node with
      | None => Ok (None, None)
      | Some _ =>
          let* nd := load st node in
          let c := bytes_Compare k (key nd) in
          if c <? 0 then get_loop n st k (left nd) node
          else if 0 <? c then get_loop n st k (right nd) node
          else Ok (node, parent)
      end
  end.

(** The node with the key and its parent; Immutable.get returns only the node. *)
Definition get (st : store) (t : treap) (k : list byte) : res (ptr * ptr) :=
  get_loop (fuel st) st k (root t) None.

Definition Has (st : store) (t : treap) (k : list byte) : res bool :=
  let* (node, _) := get st t k in Ok (bool_decide (node <> None)).

(** [None] is the nil slice. *)
Definition Get (st : store) (t : treap) (k : list byte) : res (option (list byte)) :=
  let* (node, _) := get st t k in
  match node with
  | None => Ok None
  | Some _ => let* n := load st node in Ok (Some (value n))
  end.

(** Replace the child of [grandparent] that was [parent] by [node], or the root. *)
Definition relinkGrandparent (st : store) (rt node parent grandparent : ptr) : res (store * ptr) :=
  match grandparent with
  | None => Ok (st, node)
  | Some _ =>
      let* g := load st grandparent in
      let* st := update st grandparent
        (if bool_decide (left g = parent) then set_left node else set_right node) in
      Ok (st, rt)
  end.

(** The rotations that bring a new node up until its parent's priority is not
    larger.  [rt] is newRoot of Immutable.Put, t.root of Mutable.Put. *)
Fixpoint rotate_up (n : nat) (st : store) (rt node : ptr) (parents : parentStack) : res (store * ptr) :=
  match n with
  | O => Err ErrDiverges
  | S n =>
      if Len parents <=? 0 then Ok (st, rt)
      else
        let* (parent, parents) := Pop parents in
        let* nd := load st node in
        let* pd := load st parent in
        if priority pd <=? priority nd then Ok (st, rt)
        else
          let* st :=
            if bool_decide (left pd = node) then
              let* st := update st node (set_right parent) in
              update st parent (set_left (right nd))
            else
              let* st := update st node (set_left parent) in
              update st parent (set_right (left nd)) in
          let* grandparent := At parents 0 in
          let* (st, rt) := relinkGrandparent st rt node parent grandparent in
          rotate_up n st rt node parents
  end.

(** The child that is moved up, and whether it is the left one. *)
Definition choose_child (st : store) (nd : treapNode) : res (ptr * bool) :=
  match left nd, right nd with
  | None, r => Ok (r, false)
  | l, None => Ok (l, true)
  | l, r =>
      let* ld := load st l in
      let* rd := load st r in
      if priority rd <=? priority ld then Ok (l, true) else Ok (r, false)
  end.

(** Immutable.Delete clones each child it moves up, Mutable.Delete does not. *)
Definition own_child (copy : bool) (st : store) (child : ptr) : res (ptr * store) :=
  if copy then cloneTreapNode st child else Ok (child, st).

(** The rotations that bring the node to delete down to a leaf.  The result
    is the parent of the leaf. *)
Fixpoint rotate_down (copy : bool) (n : nat) (st : store) (rt node parent : ptr)
    : res (store * ptr * ptr) :=
  match n with
  | O => Err ErrDiverges
  | S n =>
      let* nd := load st node in
      match left nd, right nd with
      | None, None => Ok (st, rt, parent)
      | _, _ =>
          let* (child, isLeft) := choose_child st nd in
          let* (child, st) := own_child copy st child in
          let* cd := load st child in
          let* st :=
            if (isLeft : bool) then
              let* st := update st child (set_right node) in
              update st node (set_left (right cd))
            else
              let* st := update st child (set_left node) in
              update st node (set_right (left cd)) in
          let* (st, rt) := relinkGrandparent st rt child node parent in
          rotate_down copy n st rt node child
      end
  end.

(** Disconnect the leaf from its parent. *)
Definition unlink (st : store) (node parent : ptr) : res store :=
  let* pd := load st parent in
  update st parent (if bool_decide (right pd = node) then set_right None else set_left None).

Fixpoint push_left (n : nat) (st : store) (node : ptr) (parents : parentStack) : res parentStack :=
  match n with
  | O => Err ErrDiverges
  | S n =>
      match node with
      | None => Ok parents
      | Some _ =>
          let* parents := Push parents node in
          let* nd := load st node in
          push_left n st (left nd) parents
      end
  end.

(** The callback of ForEach is a function on a state of its own. *)
Fixpoint each_loop {A} (n : nat) (st : store) (fn : list byte -> list byte -> A -> bool * A)
    (parents : parentStack) (a : A) : res A :=
  match n with
  | O => Err ErrDiverges
  | S n =>
      if Len parents <=? 0 then Ok a
      else
        let* (node, parents) := Pop parents in
        let* nd := load st node in
        let (continue, a) := fn (key nd) (value nd) a in
        if (continue : bool) then
          let* parents := push_left (fuel st) st (right nd) parents in
          each_loop n st fn parents a
        else Ok a
  end.

Definition ForEach {A} (st : store) (t : treap) (fn : list byte -> list byte -> A -> bool * A) (a : A)
    : res A :=
  let* parents := push_left (fuel st) st (root t) empty_stack in
  each_loop (fuel st) st fn parents a.

(** [value == nil]. *)
Definition or_emptySlice (v : option (list byte)) : list byte := default [] v.

(** ** The immutable treap *)

Definition link_clone (st : store) (oldParent node nodeCopy : ptr) : res store :=
  match oldParent with
  | None => Ok st
  | Some _ =>
      let* od := load st oldParent in
      update st oldParent (if bool_decide (left od = node) then set_left nodeCopy else set_right nodeCopy)
  end.

(** The descent of Immutable.Put, cloning the path.  On the right the key was
    found: the result is its old value. *)
Fixpoint clone_path (n : nat) (st : store) (k v : list byte) (node : ptr) (parents : parentStack) (c : Z)
    : res (store * parentStack * (Z + list byte)) :=
  match n with
  | O => Err ErrDiverges
  | S n =>
      match node with
      | None => Ok (st, parents, inl c)
      | Some _ =>
          let* nd := load st node in
          let* (nodeCopy, st) := cloneTreapNode st node in
          let* oldParent := At parents 0 in
          let* st := link_clone st oldParent node nodeCopy in
          let* parents := Push parents nodeCopy in
          let c := bytes_Compare k (key nd) in
          if c <? 0 then clone_path n st k v (left nd) parents c
          else if 0 <? c then clone_path n st k v (right nd) parents c
          else
            let* st := update st nodeCopy (set_value v) in
            Ok (st, parents, inr (value nd))
      end
  end.

Definition link_new (st : store) (parent node : ptr) (c : Z) : res store :=
  update st parent (if c <? 0 then set_left node else set_right node).

Definition Immutable_Put (st : store) (t : treap) (k : list byte) (v : option (list byte)) (rand : Z)
    : res (treap * store) :=
  let v := or_emptySlice v in
  match root t with
  | None =>
      let (rt, st) := newTreapNode st k v rand in
      let* n := load st rt in
      Ok (mkTreap rt 1 (nodeSize n), st)
  | Some _ =>
      let* (st, parents, found) := clone_path (fuel st) st k v (root t) empty_stack 0 in
      match found with
      | inr old =>
          let* newRoot := At parents (Len parents - 1) in
          let newTotalSize := u64 (u64 (totalSize t - Z.of_nat (length old)) + Z.of_nat (length v)) in
          Ok (mkTreap newRoot (count t) newTotalSize, st)
      | inl c =>
          let (node, st) := newTreapNode st k v rand in
          let* parent := At parents 0 in
          let* st := link_new st parent node c in
          let* newRoot := At parents (Len parents - 1) in
          let* (st, newRoot) := rotate_up (fuel st) st newRoot node parents in
          let* n := load st node in
          Ok (mkTreap newRoot (i64 (count t + 1)) (u64 (totalSize t + nodeSize n)), st)
      end
  end.

(** The path to the key; [None] when it does not exist. *)
Fixpoint find_path (n : nat) (st : store) (k : list byte) (node : ptr) (parents : parentStack)
    : res (parentStack * ptr) :=
  match n with
  | O => Err ErrDiverges
  | S n =>
      match node with
      | None => Ok (parents, None)
      | Some _ =>
          let* parents := Push parents node in
          let* nd := load st node in
          let c := bytes_Compare k (key nd) in
          if c <? 0 then find_path n st k (left nd) parents
          else if 0 <? c then find_path n st k (right nd) parents
          else Ok (parents, node)
      end
  end.

(** Clone the parents from the root down. *)
Fixpoint clone_parents (i : nat) (st : store) (parents newParents : parentStack)
    : res (store * parentStack) :=
  match i with
  | O => Ok (st, newParents)
  | S i' =>
      let* node := At parents (Z.of_nat i') in
      let* (nodeCopy, st) := cloneTreapNode st node in
      let* oldParent := At newParents 0 in
      let* st := link_clone st oldParent node nodeCopy in
      let* newParents := Push newParents nodeCopy in
      clone_parents i' st parents newParents
  end.

(** A root without children. *)
Definition only_node (parent : ptr) (n : treapNode) : bool :=
  match parent, left n, right n with None, None, None => true | _, _, _ => false end.

Definition Immutable_Delete (st : store) (t : treap) (k : list byte) : res (treap * store) :=
  let* (parents, delNode) := find_path (fuel st) st k (root t) empty_stack in
  match delNode with
  | None => Ok (t, st)
  | Some _ =>
      let* parent := At parents 1 in
      let* nd := load st delNode in
      if only_node parent nd then Ok (empty_treap, st)
      else
        let* (st, newParents) := clone_parents (Z.to_nat (Len parents)) st parents empty_stack in
        let* (delNode, newParents) := Pop newParents in
        let* parent := At newParents 0 in
        let* newRoot := At newParents (Len newParents - 1) in
        let* (st, newRoot, parent) := rotate_down true (fuel st) st newRoot delNode parent in
        let* st := unlink st delNode parent in
        let* n := load st delNode in
        Ok (mkTreap newRoot (i64 (count t - 1)) (u64 (totalSize t - nodeSize n)), st)
  end.

(** ** The mutable treap *)

(** The descent of Mutable.Put. *)
Fixpoint put_path (n : nat) (st : store) (k : list byte) (node : ptr) (parents : parentStack) (c : Z)
    : res (parentStack * (Z + ptr)) :=
  match n with
  | O => Err ErrDiverges
  | S n =>
      match node with
      | None => Ok (parents, inl c)
      | Some _ =>
          let* parents := Push parents node in
          let* nd := load st node in
          let c := bytes_Compare k (key nd) in
          if c <? 0 then put_path n st k (left nd) parents c
          else if 0 <? c then put_path n st k (right nd) parents c
          else Ok (parents, inr node)
      end
  end.

Definition Mutable_Put (st : store) (t : treap) (k : list byte) (v : option (list byte)) (rand : Z)
    : res (treap * store) :=
  let v := or_emptySlice v in
  match root t with
  | None =>
      let (node, st) := newTreapNode st k v rand in
      let* n := load st node in
      Ok (mkTreap node 1 (nodeSize n), st)
  | Some _ =>
      let* (parents, found) := put_path (fuel st) st k (root t) empty_stack 0 in
      match found with
      | inr node =>
          let* n := load st node in
          let size := u64 (totalSize t - Z.of_nat (length (value n))) in
          let size := u64 (size + Z.of_nat (length v)) in
          let* st := update st node (set_value v) in
          Ok (mkTreap (root t) (count t) size, st)
      | inl c =>
          let (node, st) := newTreapNode st k v rand in
          let* n := load st node in
          let* parent := At parents 0 in
          let* st := link_new st parent node c in
          let* (st, rt) := rotate_up (fuel st) st (root t) node parents in
          Ok (mkTreap rt (i64 (count t + 1)) (u64 (totalSize t + nodeSize n)), st)
      end
  end.

Definition Mutable_Delete (st : store) (t : treap) (k : list byte) : res (treap * store) :=
  let* (node, parent) := get st t k in
  match node with
  | None => Ok (t, st)
  | Some _ =>
      let* nd := load st node in
      if only_node parent nd then Ok (empty_treap, st)
      else
        let* (st, rt, parent) := rotate_down false (fuel st) st (root t) node parent in
        let* st := unlink st node parent in
        let* n := load st node in
        Ok (mkTreap rt (i64 (count t - 1)) (u64 (totalSize t - nodeSize n)), st)
  end.

Definition Reset (t : treap) : treap := empty_treap.

(** ** Iterators *)

Record Iterator := mkIter {
  it_mutable : bool;              (* iter.t is not nil *)
  it_root : ptr;
  it_node : ptr;
  it_parents : parentStack;
  isNew : bool;
  seekKey : option (list byte);
  startKey : option (list byte);
  limitKey : option (list byte)
}.

Definition set_pos (node : ptr) (parents : parentStack) (it : Iterator) : Iterator :=
  mkIter (it_mutable it) (it_root it) node parents (isNew it) (seekKey it) (startKey it) (limitKey it).
Definition set_node (node : ptr) (it : Iterator) : Iterator := set_pos node (it_parents it) it.
Definition set_isNew (b : bool) (it : Iterator) : Iterator :=
  mkIter (it_mutable it) (it_root it) (it_node it) (it_parents it) b (seekKey it) (startKey it) (limitKey it).
Definition set_seekKey (k : option (list byte)) (it : Iterator) : Iterator :=
  mkIter (it_mutable it) (it_root it) (it_node it) (it_parents it) (isNew it) k (startKey it) (limitKey it).

(** [mutable] distinguishes Mutable.Iterator from Immutable.Iterator. *)
Definition new_Iterator (mutable : bool) (t : treap) (start limit : option (list byte)) : Iterator :=
  mkIter mutable (root t) None empty_stack true None start limit.

Definition limitIterator (st : store) (it : Iterator) : res (bool * Iterator) :=
  match it_node it with
  | None => Ok (false, it)
  | Some _ =>
      let* nd := load st (it_node it) in
      if match startKey it with Some s => bytes_Compare (key nd) s <? 0 | None => false end
      then Ok (false, set_node None it)
      else if match limitKey it with Some l => 0 <=? bytes_Compare (key nd) l | None => false end
      then Ok (false, set_node None it)
      else Ok (true, it)
  end.

(** The descent of [seek]: the selected node with its depth, the stack, and
    whether the exact key was found. *)
Fixpoint seek_loop (n : nat) (st : store) (k : list byte) (exactMatch greater : bool)
    (node : ptr) (parents : parentStack) (sel : ptr) (depth : Z) : res (ptr * Z * parentStack * bool) :=
  match n with
  | O => Err ErrDiverges
  | S n =>
      match node with
      | None => Ok (sel, depth, parents, false)
      | Some _ =>
          let* parents := Push parents node in
          let* nd := load st node in
          let c := bytes_Compare k (key nd) in
          if c <? 0 then
            let (sel, depth) := if greater then (node, Len parents - 1) else (sel, depth) in
            seek_loop n st k exactMatch greater (left nd) parents sel depth
          else if 0 <? c then
            let (sel, depth) := if negb greater then (node, Len parents - 1) else (sel, depth) in
            seek_loop n st k exactMatch greater (right nd) parents sel depth
          else if exactMatch then
            let* (_, parents) := Pop parents in
            Ok (node, depth, parents, true)
          else seek_loop n st k exactMatch greater (if greater then right nd else left nd) parents sel depth
      end
  end.

Fixpoint pop_times (n : nat) (parents : parentStack) : res parentStack :=
  match n with
  | O => Ok parents
  | S n => let* (_, parents) := Pop parents in pop_times n parents
  end.

Definition seek (st : store) (it : Iterator) (k : list byte) (exactMatch greater : bool)
    : res (bool * Iterator) :=
  let* (sel, depth, parents, exact) :=
    seek_loop (fuel st) st k exactMatch greater (it_root it) empty_stack None 0 in
  if (exact : bool) then limitIterator st (set_pos sel parents it)
  else
    let* parents := pop_times (Z.to_nat (Len parents - depth)) parents in
    limitIterator st (set_pos sel parents it).

(** The left-most node below [node], or the right-most one; nil in an empty treap. *)
Fixpoint descend_end (n : nat) (st : store) (child : treapNode -> ptr) (node : ptr) (parents : parentStack)
    : res (ptr * parentStack) :=
  match n with
  | O => Err ErrDiverges
  | S n =>
      match node with
      | None => Ok (None, parents)
      | Some _ =>
          let* nd := load st node in
          match child nd with
          | None => Ok (node, parents)
          | Some _ =>
              let* parents := Push parents node in
              descend_end n st child (child nd) parents
          end
      end
  end.

Definition to_end (st : store) (child : treapNode -> ptr) (it : Iterator) : res (bool * Iterator) :=
  let* (node, parents) := descend_end (fuel st) st child (it_root it) empty_stack in
  match node with
  | Some _ => Ok (true, set_pos node parents it)
  | None => Ok (false, set_pos (it_node it) parents it)
  end.

Definition First (st : store) (it : Iterator) : res (bool * Iterator) :=
  let it := set_isNew false it in
  match startKey it with
  | Some s => seek st it s true true
  | None => to_end st left it
  end.

Definition Last (st : store) (it : Iterator) : res (bool * Iterator) :=
  let it := set_isNew false it in
  match limitKey it with
  | Some l => seek st it l false false
  | None => to_end st right it
  end.

(** Walk up while the node is the [child] of its parent. *)
Fixpoint climb (n : nat) (st : store) (child : treapNode -> ptr) (node parent : ptr) (parents : parentStack)
    : res (ptr * parentStack) :=
  match n with
  | O => Err ErrDiverges
  | S n =>
      match parent with
      | None => Ok (None, parents)
      | Some _ =>
          let* pd := load st parent in
          if bool_decide (child pd = node) then
            let* (parent', parents) := Pop parents in
            climb n st child parent parent' parents
          else Ok (parent, parents)
      end
  end.

(** The last node in the direction of [far]. *)
Fixpoint descend_far (n : nat) (st : store) (far : treapNode -> ptr) (cur : ptr) (parents : parentStack)
    : res (ptr * parentStack) :=
  match n with
  | O => Err ErrDiverges
  | S n =>
      let* nd := load st cur in
      match far nd with
      | None => Ok (cur, parents)
      | Some _ =>
          let* parents := Push parents cur in
          descend_far n st far (far nd) parents
      end
  end.

(** [near] is the child to look at first, [far] the opposite one. *)
Definition step_iter (st : store) (near far : treapNode -> ptr) (it : Iterator) : res (bool * Iterator) :=
  let* nd := load st (it_node it) in
  match near nd with
  | None =>
      let* (parent, parents) := Pop (it_parents it) in
      let* (node, parents) := climb (fuel st) st near (it_node it) parent parents in
      limitIterator st (set_pos node parents it)
  | Some _ =>
      let* parents := Push (it_parents it) (it_node it) in
      let* (node, parents) := descend_far (fuel st) st far (near nd) parents in
      limitIterator st (set_pos node parents it)
  end.

Definition Next (st : store) (it : Iterator) : res (bool * Iterator) :=
  if isNew it then First st it
  else match it_node it with
       | None => Ok (false, it)
       | Some _ =>
           match seekKey it with
           | Some k => seek st (set_seekKey None it) k false true
           | None => step_iter st right left it
           end
       end.

Definition Prev (st : store) (it : Iterator) : res (bool * Iterator) :=
  if isNew it then Last st it
  else match it_node it with
       | None => Ok (false, it)
       | Some _ =>
           match seekKey it with
           | Some k => seek st (set_seekKey None it) k false false
           | None => step_iter st left right it
           end
       end.

Definition Seek (st : store) (it : Iterator) (k : list byte) : res (bool * Iterator) :=
  seek st (set_isNew false it) k true true.

Definition Key (st : store) (it : Iterator) : res (option (list byte)) :=
  match it_node it with
  | None => Ok None
  | Some _ => let* nd := load st (it_node it) in Ok (Some (key nd))
  end.

Definition Value (st : store) (it : Iterator) : res (option (list byte)) :=
  match it_node it with
  | None => Ok None
  | Some _ => let* nd := load st (it_node it) in Ok (Some (value nd))
  end.

Definition Valid (it : Iterator) : bool := bool_decide (it_node it <> None).

(** [t] is what iter.t points to now. *)
Definition ForceReseek (st : store) (it : Iterator) (t : treap) : res Iterator :=
  if it_mutable it then
    let it := mkIter true (root t) (it_node it) (it_parents it) (isNew it) (seekKey it) (startKey it) (limitKey it) in
    match it_node it with
    | None => Ok (set_seekKey None it)
    | Some _ => let* nd := load st (it_node it) in Ok (set_seekKey (Some (key nd)) it)
    end
  else Ok it.

End Treap.
