(* ===== verification/TreapSpec.v ===== *)
(** * The contract of treaps

    Both treaps implement finite maps: an abstract tree is represented in the
    store, every operation is followed on the tree with a zipper, and the
    immutable treap leaves every cell of the old store as it was. *)
From S2P Require Import Prelude Treap.
From Stdlib Require Import Sorted Permutation.
From stdpp Require Import sorting.
Import ListNotations Treap.
Open Scope Z_scope.

(** ** The order of keys *)

Definition klt (a b : list byte) : Prop := bytes_Compare a b < 0.

Lemma byte_inj (x y : byte) : Z_of_byte x = Z_of_byte y -> x = y.
Proof. intros H. rewrite <- (byte_of_Z_of_byte x), H. apply byte_of_Z_of_byte. Qed.

Lemma Compare_range a : forall b, -1 <= bytes_Compare a b <= 1.
Proof. induction a as [|x a IH]; intros [|y b]; cbn; try lia. repeat case_match; try lia. apply IH. Qed.

Lemma Compare_opp a : forall b, bytes_Compare b a = - bytes_Compare a b.
Proof.
  induction a as [|x a IH]; intros [|y b]; cbn; try done.
  destruct (Z.ltb_spec x y), (Z.ltb_spec y x); try lia. apply IH.
Qed.

Lemma Compare_eq a : forall b, bytes_Compare a b = 0 <-> a = b.
Proof.
  induction a as [|x a IH]; intros [|y b]; cbn; try done.
  destruct (Z.ltb_spec x y); [split; [lia|intros [= -> ->]; lia]|].
  destruct (Z.ltb_spec y x); [split; [lia|intros [= -> ->]; lia]|].
  rewrite IH. split; [intros ->; f_equal; apply byte_inj; lia|by intros [= -> ->]].
Qed.

Lemma Compare_refl a : bytes_Compare a a = 0.
Proof. by apply Compare_eq. Qed.

Lemma klt_trans a : forall b c, klt a b -> klt b c -> klt a c.
Proof.
  unfold klt. induction a as [|x a IH]; intros [|y b] [|z c]; cbn; try lia.
  destruct (Z.ltb_spec x y), (Z.ltb_spec y z), (Z.ltb_spec x z), (Z.ltb_spec y x),
    (Z.ltb_spec z y), (Z.ltb_spec z x); try lia. apply IH.
Qed.

Lemma klt_irrefl a : ~ klt a a.
Proof. unfold klt. rewrite Compare_refl. lia. Qed.

Lemma klt_gt a b : klt a b <-> 0 < bytes_Compare b a.
Proof. unfold klt. rewrite (Compare_opp b a). lia. Qed.

#[export] Instance klt_transitive : Transitive klt.
Proof. intros a b c. apply klt_trans. Qed.

(** ** The stack of parents is a list *)

(** [l] is the content of the stack, the top first. *)
Record stacks (s : parentStack) (l : list N) : Prop := {
  st_index : index s = Z.of_nat (length l);
  st_items : length (items s) = 128%nat;
  st_at : forall i x, reverse l !! i = Some x ->
    (if (i <? 128)%nat then items s !! i else overflow s !! (i - 128)%nat) = Some (Some x)
}.

Lemma stacks_empty : stacks empty_stack [].
Proof. split; [done|done|]. intros i x H. by destruct i. Qed.

Lemma at_index_ok a i p : a !! i = Some p -> at_index a (Z.of_nat i) = Ok p.
Proof.
  intros H. unfold at_index. destruct (Z.ltb_spec (Z.of_nat i) 0); [lia|]. by rewrite Nat2Z.id, H.
Qed.

Lemma set_index_ok a i p : (i < length a)%nat -> set_index a (Z.of_nat i) p = Ok (<[i := p]> a).
Proof.
  intros H. unfold set_index. destruct (Z.ltb_spec (Z.of_nat i) 0); [lia|].
  destruct (Z.leb_spec (Z.of_nat (length a)) (Z.of_nat i)); [lia|]. cbn. by rewrite Nat2Z.id.
Qed.

(** The cell of position [i] from the bottom. *)
Lemma stacks_cell s l i x : stacks s l -> reverse l !! i = Some x ->
  (if Z.of_nat i <? staticDepth then at_index (items s) (Z.of_nat i)
   else at_index (overflow s) (Z.of_nat i - staticDepth)) = Ok (Some x).
Proof.
  intros [Hi Hl Ha] Hx. specialize (Ha _ _ Hx). unfold staticDepth.
  destruct (Nat.ltb_spec i 128), (Z.ltb_spec (Z.of_nat i) 128); try lia.
  - by apply at_index_ok.
  - replace (Z.of_nat i - 128) with (Z.of_nat (i - 128)) by lia. by apply at_index_ok.
Qed.

Lemma At_spec s l n x : stacks s l -> l !! n = Some x -> At s (Z.of_nat n) = Ok (Some x).
Proof.
  intros Hs Hx. unfold At. rewrite (st_index s l Hs). pose proof (lookup_lt_Some _ _ _ Hx) as Hn.
  destruct (Z.ltb_spec (Z.of_nat (length l) - Z.of_nat n - 1) 0); [lia|].
  replace (Z.of_nat (length l) - Z.of_nat n - 1) with (Z.of_nat (length l - S n)) by lia.
  eapply stacks_cell; [done|]. rewrite reverse_lookup by lia. by replace (_ - S (_ - S n))%nat with n by lia.
Qed.

Lemma At_none s l n : stacks s l -> (length l <= n)%nat -> At s (Z.of_nat n) = Ok None.
Proof.
  intros Hs Hn. unfold At. rewrite (st_index s l Hs). by destruct (Z.ltb_spec (Z.of_nat (length l) - Z.of_nat n - 1) 0); [|lia].
Qed.

Lemma At_lookup s l n : stacks s l -> At s (Z.of_nat n) = Ok (l !! n).
Proof.
  intros Hs. destruct (l !! n) eqn:E; [by eapply At_spec|]. apply lookup_ge_None in E. by eapply At_none.
Qed.

Lemma At_head s l : stacks s l -> At s 0 = Ok (head l).
Proof. intros Hs. change 0 with (Z.of_nat 0). rewrite (At_lookup s l 0 Hs). by destruct l. Qed.

Lemma Pop_nil s : stacks s [] -> Pop s = Ok (None, s).
Proof. intros Hs. unfold Pop. by rewrite (st_index s [] Hs). Qed.

Lemma Pop_cons s x l : stacks s (x :: l) -> exists s', Pop s = Ok (Some x, s') /\ stacks s' l.
Proof.
  intros Hs. unfold Pop. rewrite (st_index _ _ Hs). cbn [length].
  destruct (Z.eqb_spec (Z.of_nat (S (length l))) 0); [lia|].
  replace (Z.of_nat (S (length l)) - 1) with (Z.of_nat (length l)) by lia.
  assert (Hx : reverse (x :: l) !! length l = Some x).
  { rewrite reverse_cons, lookup_app_r; rewrite length_reverse; [|lia]. by rewrite Nat.sub_diag. }
  pose proof (stacks_cell _ _ _ _ Hs Hx) as Hc.
  pose proof (st_at _ _ Hs _ _ Hx) as Ha. destruct Hs as [Hi Hl Hat].
  assert (Hrest : forall i y, reverse l !! i = Some y -> (i < length l)%nat /\ reverse (x :: l) !! i = Some y).
  { intros i y Hy. pose proof (lookup_lt_Some _ _ _ Hy) as Hlt. rewrite length_reverse in Hlt.
    split; [done|]. rewrite reverse_cons, lookup_app_l; [done|by rewrite length_reverse]. }
  unfold staticDepth in *. destruct (Z.ltb_spec (Z.of_nat (length l)) 128).
  - rewrite Hc. cbn [rbind]. rewrite set_index_ok by lia. eexists. split; [done|].
    split; cbn [index items overflow]; [done|by rewrite length_insert|].
    intros i y Hy. destruct (Hrest i y Hy) as [Hlt Hy']. specialize (Hat i y Hy').
    destruct (Nat.ltb_spec i 128); [|lia]. by rewrite list_lookup_insert_ne by lia.
  - rewrite Hc. cbn [rbind]. replace (Z.of_nat (length l) - 128) with (Z.of_nat (length l - 128)) by lia.
    destruct (Nat.ltb_spec (length l) 128); [lia|].
    rewrite set_index_ok by (by eapply lookup_lt_Some). eexists. split; [done|].
    split; cbn [index items overflow]; [done|done|].
    intros i y Hy. destruct (Hrest i y Hy) as [Hlt Hy']. specialize (Hat i y Hy').
    destruct (Nat.ltb_spec i 128); [done|]. by rewrite list_lookup_insert_ne by lia.
Qed.

Lemma Push_spec s l x : stacks s l -> exists s', Push s (Some x) = Ok s' /\ stacks s' (x :: l).
Proof.
  intros [Hi Hl Hat]. unfold Push. rewrite Hi. unfold staticDepth.
  assert (Hcons : forall a : nat -> option ptr, a (length l) = Some (Some x) ->
    (forall i y, reverse l !! i = Some y -> a i = Some (Some y)) ->
    forall i y, reverse (x :: l) !! i = Some y -> a i = Some (Some y : ptr)).
  { intros a Hx Hr i y. rewrite reverse_cons, lookup_app. destruct (reverse l !! i) eqn:E.
    - intros [= <-]. by apply Hr.
    - apply lookup_ge_None in E. rewrite length_reverse in *. destruct (i - length l)%nat eqn:Ei; [|done].
      intros [= <-]. by replace i with (length l) by lia. }
  assert (Hlt : forall i y, reverse l !! i = Some y -> (i < length l)%nat).
  { intros i y Hy. apply lookup_lt_Some in Hy. by rewrite length_reverse in Hy. }
  destruct (Z.ltb_spec (Z.of_nat (length l)) 128).
  - rewrite set_index_ok by lia. eexists. split; [done|].
    split; cbn [index items overflow]; [cbn; lia|by rewrite length_insert|]. apply Hcons.
    + destruct (Nat.ltb_spec (length l) 128); [|lia]. apply list_lookup_insert_eq. lia.
    + intros i y Hy. pose proof (Hlt i y Hy). specialize (Hat i y Hy).
      destruct (Nat.ltb_spec i 128); [|lia]. by rewrite list_lookup_insert_ne by lia.
  - replace (Z.of_nat (length l) - 128) with (Z.of_nat (length l - 128)) by lia.
    match goal with |- context [set_index ?a _ _] => set (grown := a) end.
    assert (Hg : (length l - 128 < length grown)%nat /\
      forall i p, overflow s !! i = Some p -> grown !! i = Some p).
    { unfold grown. destruct (Z.ltb_spec (Z.of_nat (length (overflow s))) (Z.of_nat (length l - 128) + 1)).
      - rewrite length_app, length_replicate. split; [lia|]. intros i p Hp. rewrite lookup_app_l; [done|].
        by eapply lookup_lt_Some.
      - split; [lia|done]. }
    destruct Hg as [Hg Hgat]. rewrite set_index_ok by done. eexists. split; [done|].
    split; cbn [index items overflow]; [cbn; lia|done|]. apply Hcons.
    + destruct (Nat.ltb_spec (length l) 128); [lia|]. by apply list_lookup_insert_eq.
    + intros i y Hy. pose proof (Hlt i y Hy). specialize (Hat i y Hy).
      destruct (Nat.ltb_spec i 128); [done|]. rewrite list_lookup_insert_ne by lia. by apply Hgat.
Qed.

Lemma Len_spec s l : stacks s l -> Len s = Z.of_nat (length l).
Proof. by intros []. Qed.

Lemma Len_pos s l : stacks s l -> (Len s <=? 0) = bool_decide (l = []).
Proof. intros Hs. rewrite (Len_spec s l Hs). by destruct l. Qed.

(** ** Trees in the store *)

Inductive tree :=
  | Leaf
  | Node (l : N) (k v : list byte) (p : Z) (tl tr : tree).

#[export] Instance tree_eq_dec : EqDecision tree.
Proof. solve_decision. Defined.

Definition ptr_of (t : tree) : ptr := match t with Leaf => None | Node l _ _ _ _ _ => Some l end.

Fixpoint locs (t : tree) : list N :=
  match t with Leaf => [] | Node l _ _ _ tl tr => l :: locs tl ++ locs tr end.

(** The entries in order. *)
Fixpoint elements (t : tree) : list (list byte * list byte) :=
  match t with Leaf => [] | Node _ k v _ tl tr => elements tl ++ (k, v) :: elements tr end.

Fixpoint repr (m : gmap N treapNode) (t : tree) : Prop :=
  match t with
  | Leaf => True
  | Node l k v p tl tr => m !! l = Some (mkNode k v p (ptr_of tl) (ptr_of tr)) /\ repr m tl /\ repr m tr
  end.

(** A step of the path from a hole to the root: the parent, the side of the hole
    and the subtree on the other side. *)
Record frame := mkFrame { f_left : bool; f_loc : N; f_k : list byte; f_v : list byte; f_p : Z; f_sib : tree }.

Definition plug1 (f : frame) (t : tree) : tree :=
  if f_left f then Node (f_loc f) (f_k f) (f_v f) (f_p f) t (f_sib f)
  else Node (f_loc f) (f_k f) (f_v f) (f_p f) (f_sib f) t.

Fixpoint plug (c : list frame) (t : tree) : tree :=
  match c with [] => t | f :: c => plug c (plug1 f t) end.

Definition path (c : list frame) : list N := map f_loc c.
Fixpoint locsc (c : list frame) : list N :=
  match c with [] => [] | f :: c => f_loc f :: locs (f_sib f) ++ locsc c end.

Fixpoint before (c : list frame) : list (list byte * list byte) :=
  match c with
  | [] => []
  | f :: c => before c ++ (if f_left f then [] else elements (f_sib f) ++ [(f_k f, f_v f)])
  end.
Fixpoint after (c : list frame) : list (list byte * list byte) :=
  match c with
  | [] => []
  | f :: c => (if f_left f then (f_k f, f_v f) :: elements (f_sib f) else []) ++ after c
  end.

Definition cell_of (f : frame) (p : ptr) : treapNode :=
  if f_left f then mkNode (f_k f) (f_v f) (f_p f) p (ptr_of (f_sib f))
  else mkNode (f_k f) (f_v f) (f_p f) (ptr_of (f_sib f)) p.

(** The path is in the store, with [p] in the hole. *)
Fixpoint reprc (m : gmap N treapNode) (c : list frame) (p : ptr) : Prop :=
  match c with
  | [] => True
  | f :: c => m !! f_loc f = Some (cell_of f p) /\ repr m (f_sib f) /\ reprc m c (Some (f_loc f))
  end.

Lemma elements_plug c : forall t, elements (plug c t) = before c ++ elements t ++ after c.
Proof.
  induction c as [|f c IH]; intros t; cbn [plug before after]; [by rewrite app_nil_r|].
  rewrite IH. unfold plug1. destruct (f_left f); cbn [elements]; rewrite <- ?app_assoc; cbn; rewrite <- ?app_assoc; done.
Qed.

Lemma locs_plug c : forall t, Permutation (locs (plug c t)) (locs t ++ locsc c).
Proof.
  induction c as [|f c IH]; intros t; cbn [plug locsc]; [by rewrite app_nil_r|].
  rewrite IH. unfold plug1. destruct (f_left f); cbn [locs].
  - cbn. rewrite <- app_assoc. apply Permutation_middle.
  - rewrite (Permutation_app_comm (locs (f_sib f))). cbn. rewrite <- app_assoc. apply Permutation_middle.
Qed.

Lemma repr_plug m c : forall t, repr m (plug c t) <-> reprc m c (ptr_of t) /\ repr m t.
Proof.
  induction c as [|f c IH]; intros t; cbn [plug reprc]; [tauto|].
  rewrite IH. unfold plug1, cell_of. destruct (f_left f); cbn [repr ptr_of]; tauto.
Qed.

(** The root of a path with [p] in its hole. *)
Fixpoint top (c : list frame) (p : ptr) : ptr :=
  match c with [] => p | f :: c => top c (Some (f_loc f)) end.

Lemma ptr_of_plug c : forall t, ptr_of (plug c t) = top c (ptr_of t).
Proof.
  induction c as [|f c IH]; intros t; [done|]. cbn [plug top]. rewrite IH. unfold plug1. by destruct (f_left f).
Qed.

Lemma top_lookup f c p : path (f :: c) !! length c = top (f :: c) p.
Proof.
  revert f p. induction c as [|g c IH]; intros f p; [done|]. exact (IH g (Some (f_loc f))).
Qed.

Lemma At_root s c p : stacks s (path c) -> c <> [] -> At s (Len s - 1) = Ok (top c p).
Proof.
  intros Hs Hc. destruct c as [|f c]; [done|]. rewrite (Len_spec _ _ Hs).
  unfold path. rewrite length_map. cbn [length].
  replace (Z.of_nat (S (length c)) - 1) with (Z.of_nat (length c)) by lia.
  rewrite (At_lookup _ _ _ Hs), <- (top_lookup f c p). done.
Qed.

(** ** Changing the store *)

Lemma locs_repr m t l : repr m t -> l ∈ locs t -> is_Some (m !! l).
Proof.
  induction t as [|l' k v p tl IHl tr IHr]; cbn [repr locs]; [by intros _ H%elem_of_nil|].
  intros (H & Hl & Hr) [->|Hin]%elem_of_cons; [by eauto|].
  apply elem_of_app in Hin as [|]; auto.
Qed.

Lemma locsc_repr m c : forall p l, reprc m c p -> l ∈ locsc c -> is_Some (m !! l).
Proof.
  induction c as [|f c IH]; intros p l; cbn [reprc locsc]; [by intros _ H%elem_of_nil|].
  intros (H & Hs & Hc) [->|Hin]%elem_of_cons; [by eauto|].
  apply elem_of_app in Hin as [|]; [by eapply locs_repr|by eapply IH].
Qed.

(** Stores that agree on the nodes represent the same trees. *)
Lemma repr_agree m m' t : (forall l, l ∈ locs t -> m' !! l = m !! l) -> repr m t -> repr m' t.
Proof.
  induction t as [|l k v p tl IHl tr IHr]; cbn [repr locs]; [done|].
  intros Ha (H & Hl & Hr). split; [rewrite Ha; [done|by left]|].
  split; [apply IHl|apply IHr]; try done; intros l' Hl'; apply Ha; right; apply elem_of_app; auto.
Qed.

Lemma reprc_agree m m' c : forall p, (forall l, l ∈ locsc c -> m' !! l = m !! l) -> reprc m c p -> reprc m' c p.
Proof.
  induction c as [|f c IH]; intros p; cbn [reprc locsc]; [done|].
  intros Ha (H & Hs & Hc). split; [rewrite Ha; [done|by left]|].
  split; [eapply repr_agree; [|done]|apply IH; [|done]];
    intros l' Hl'; apply Ha; right; apply elem_of_app; auto.
Qed.

Lemma repr_insert m t l n : l ∉ locs t -> repr m t -> repr (<[l := n]> m) t.
Proof. intros Hl. apply repr_agree. intros l' H. apply lookup_insert_ne. by intros ->. Qed.

Lemma reprc_insert m c p l n : l ∉ locsc c -> reprc m c p -> reprc (<[l := n]> m) c p.
Proof. intros Hl. apply reprc_agree. intros l' H. apply lookup_insert_ne. by intros ->. Qed.

Lemma update_ok st l n f : cells st !! l = Some n ->
  update st (Some l) f = Ok (mkStore (<[l := f n]> (cells st)) (next st)).
Proof. intros H. unfold update. by rewrite H. Qed.

Lemma load_cell st l n : cells st !! l = Some n -> load st (Some l) = Ok n.
Proof. intros H. unfold load. by rewrite H. Qed.

(** Every node is below the next free location. *)
Definition wf (st : store) : Prop := forall l n, cells st !! l = Some n -> (l < next st)%N.

(** The nodes of a list are the same in both stores. *)
Definition same_off (L : list N) (st st' : store) : Prop :=
  forall l, l ∉ L -> cells st' !! l = cells st !! l.

Lemma set_child_cell (f : frame) p q :
  (if f_left f then set_left q else set_right q) (cell_of f p) = cell_of f q.
Proof. unfold cell_of. by destruct (f_left f). Qed.

(** The code finds the side of a child by comparing pointers. *)
Lemma side_of f l : Some l <> ptr_of (f_sib f) -> bool_decide (left (cell_of f (Some l)) = Some l) = f_left f.
Proof.
  intros Hl. unfold cell_of. destruct (f_left f); cbn [left]; [by apply bool_decide_eq_true|].
  apply bool_decide_eq_false. congruence.
Qed.

Lemma ptr_in_locs t l : ptr_of t = Some l -> l ∈ locs t.
Proof. destruct t; [done|]. intros [= ->]. by left. Qed.

Lemma ptr_not_in t l : l ∉ locs t -> Some l <> ptr_of t.
Proof. intros H E. by apply H, ptr_in_locs. Qed.

(** Replacing the child in the hole of a path. *)
Lemma relink_spec st c old new : reprc (cells st) c (Some old) -> old ∉ locsc c -> NoDup (locsc c) ->
  exists st', relinkGrandparent st (top c (Some old)) (Some new) (Some old) (head (path c))
    = Ok (st', top c (Some new)) /\
  reprc (cells st') c (Some new) /\ next st' = next st /\ same_off (take 1 (path c)) st st'.
Proof.
  destruct c as [|f c]; [by exists st|]. cbn [reprc locsc path map head take].
  intros (Hf & Hs & Hc) Hold Hnd. unfold relinkGrandparent. rewrite (load_cell _ _ _ Hf). cbn [rbind].
  apply not_elem_of_cons in Hold as [Hne Hold]. apply not_elem_of_app in Hold as [Hos _].
  apply list.NoDup_cons in Hnd as [Hfl Hnd]. apply not_elem_of_app in Hfl as [Hfs Hfc].
  rewrite side_of by (by apply ptr_not_in). rewrite (update_ok _ _ _ _ Hf). cbn [rbind].
  eexists. split; [done|]. cbn [cells next]. rewrite set_child_cell. split; [|split; [done|]].
  - split; [by rewrite lookup_insert_eq|]. split; [by apply repr_insert|by apply reprc_insert].
  - intros l Hl. apply lookup_insert_ne. intros <-. apply Hl. by left.
Qed.

Lemma link_clone_relink st p node copy rt :
  link_clone st p node copy = (let* (st, _) := relinkGrandparent st rt copy node p in Ok st).
Proof. destruct p as [l|]; [|done]. cbn. by destruct (cells st !! l). Qed.

(** ** Rotations upwards *)

Definition rotate1 (f : frame) (l : N) (k v : list byte) (p : Z) (tl tr : tree) : tree :=
  if f_left f then Node l k v p tl (Node (f_loc f) (f_k f) (f_v f) (f_p f) tr (f_sib f))
  else Node l k v p (Node (f_loc f) (f_k f) (f_v f) (f_p f) (f_sib f) tl) tr.

(** The tree that [rotate_up] leaves. *)
Fixpoint rise (c : list frame) (t : tree) : tree :=
  match c, t with
  | f :: c', Node l k v p tl tr => if f_p f <=? p then plug c t else rise c' (rotate1 f l k v p tl tr)
  | _, _ => plug c t
  end.

Lemma rotate1_locs f l k v p tl tr :
  Permutation (locs (rotate1 f l k v p tl tr)) (locs (plug1 f (Node l k v p tl tr))).
Proof.
  unfold rotate1, plug1. destruct (f_left f); cbn; rewrite <- ?app_assoc.
  - rewrite <- Permutation_middle. apply perm_swap.
  - rewrite <- Permutation_middle. apply perm_swap.
Qed.

Lemma rotate1_elements f l k v p tl tr :
  elements (rotate1 f l k v p tl tr) = elements (plug1 f (Node l k v p tl tr)).
Proof. unfold rotate1, plug1. destruct (f_left f); cbn [elements]; rewrite <- !app_assoc; cbn; by rewrite <- ?app_assoc. Qed.

Lemma locs_plug_perm c t t' : Permutation (locs t) (locs t') -> Permutation (locs (plug c t)) (locs (plug c t')).
Proof. intros H. by rewrite !locs_plug, H. Qed.

Lemma rise_locs c : forall t, Permutation (locs (rise c t)) (locs (plug c t)).
Proof.
  induction c as [|f c IH]; intros [|l k v p tl tr]; cbn [rise]; try done.
  case_match; [done|]. rewrite IH. cbn [plug]. apply locs_plug_perm, rotate1_locs.
Qed.

Lemma rise_elements c : forall t, elements (rise c t) = elements (plug c t).
Proof.
  induction c as [|f c IH]; intros [|l k v p tl tr]; cbn [rise]; try done.
  case_match; [done|]. rewrite IH. cbn [plug]. rewrite !elements_plug. by rewrite rotate1_elements.
Qed.

(** Exchanging the child and its parent, before the grandparent is told. *)
Definition rotated (st : store) (f : frame) (l : N) (k v : list byte) (p : Z) (tl tr : tree) : store :=
  let lc := if f_left f then mkNode k v p (ptr_of tl) (Some (f_loc f))
            else mkNode k v p (Some (f_loc f)) (ptr_of tr) in
  mkStore (<[f_loc f := cell_of f (if f_left f then ptr_of tr else ptr_of tl)]> (<[l := lc]> (cells st))) (next st).

Lemma NoDup_app_elim {A} (a b : list A) : NoDup (a ++ b) -> NoDup a /\ NoDup b /\ forall x, x ∈ a -> x ∉ b.
Proof. rewrite list.NoDup_app. tauto. Qed.

(** Facts about the nodes of a zipper. *)
Record apart (c : list frame) (f : frame) (l : N) (tl tr : tree) : Prop := {
  ap_lf : l <> f_loc f;
  ap_l : (l ∉ locs tl) /\ (l ∉ locs tr) /\ (l ∉ locs (f_sib f)) /\ (l ∉ locsc c);
  ap_f : (f_loc f ∉ locs tl) /\ (f_loc f ∉ locs tr) /\ (f_loc f ∉ locs (f_sib f)) /\ (f_loc f ∉ locsc c);
  ap_c : NoDup (locsc c)
}.

Lemma NoDup_apart c f l k v p tl tr :
  NoDup (locs (plug (f :: c) (Node l k v p tl tr))) -> apart c f l tl tr.
Proof.
  rewrite locs_plug. cbn [locs locsc]. cbn. intros [Hl Hnd]%list.NoDup_cons.
  apply NoDup_app_elim in Hnd as (Ht & Hc & Hx).
  apply list.NoDup_cons in Hc as [Hf Hc]. apply NoDup_app_elim in Hc as (Hs & Hc & Hsc).
  rewrite !elem_of_app, elem_of_cons, !elem_of_app in Hl. rewrite elem_of_app in Hf.
  assert (Hfx : forall t, t = tl \/ t = tr -> f_loc f ∉ locs t).
  { intros t Hin Hf'. apply (Hx (f_loc f)); [apply elem_of_app; destruct Hin; subst; auto|by left]. }
  split; [naive_solver|naive_solver| |done].
  split; [auto|]. split; [auto|]. naive_solver.
Qed.

Lemma repr_insert2 m t l n l' n' : l ∉ locs t -> l' ∉ locs t -> repr m t ->
  repr (<[l := n]> (<[l' := n']> m)) t.
Proof. intros. apply repr_insert; [done|]. by apply repr_insert. Qed.

Lemma rotated_repr st c f l k v p tl tr :
  repr (cells st) (f_sib f) -> reprc (cells st) c (Some (f_loc f)) ->
  repr (cells st) tl -> repr (cells st) tr -> apart c f l tl tr ->
  repr (cells (rotated st f l k v p tl tr)) (rotate1 f l k v p tl tr) /\
  reprc (cells (rotated st f l k v p tl tr)) c (Some (f_loc f)).
Proof.
  intros Hs Hc Htl Htr [Hne Hla Hfa Hnc].
  destruct_and!. unfold rotated, rotate1, cell_of. cbn [cells]. split.
  - destruct (f_left f); cbn [repr ptr_of]; (split; [by rewrite lookup_insert_ne, lookup_insert_eq|]).
    + split; [by apply repr_insert2|]. split; [by rewrite lookup_insert_eq|].
      split; by apply repr_insert2.
    + split; [|by apply repr_insert2]. split; [by rewrite lookup_insert_eq|].
      split; by apply repr_insert2.
  - by apply reprc_insert; [|apply reprc_insert].
Qed.

Lemma rotated_off st f l k v p tl tr : same_off [l; f_loc f] st (rotated st f l k v p tl tr).
Proof.
  intros l' Hl'. unfold rotated. cbn [cells]. rewrite !lookup_insert_ne; [done|..]; set_solver.
Qed.

(** The two assignments of a rotation. *)
Lemma rotate_step st f l k v p tl tr q : l <> f_loc f ->
  cells st !! l = Some (mkNode k v p (ptr_of tl) (ptr_of tr)) ->
  cells st !! f_loc f = Some (cell_of f q) ->
  (if f_left f then
     let* st := update st (Some l) (set_right (Some (f_loc f))) in
     update st (Some (f_loc f)) (set_left (ptr_of tr))
   else
     let* st := update st (Some l) (set_left (Some (f_loc f))) in
     update st (Some (f_loc f)) (set_right (ptr_of tl)))
  = Ok (rotated st f l k v p tl tr).
Proof.
  intros Hne Hl Hf. unfold rotated, cell_of in *. destruct (f_left f);
    rewrite (update_ok _ _ _ _ Hl); cbn [rbind];
    (etransitivity; [apply update_ok; cbn [cells]; rewrite lookup_insert_ne by done; exact Hf|done]).
Qed.

Lemma path_in_locsc c x : x ∈ path c -> x ∈ locsc c.
Proof.
  induction c as [|f c IH]; [done|]. cbn [path map locsc]. intros [->|H]%elem_of_cons; [by left|].
  right. apply elem_of_app. right. by apply IH.
Qed.

(** A store changed only on the path still represents the subtree in the hole. *)
Lemma repr_off_path st st' c t L : NoDup (locs (plug c t)) -> repr (cells st) t -> same_off L st st' ->
  (forall x, x ∈ L -> x ∈ path c) -> repr (cells st') t.
Proof.
  rewrite locs_plug. intros (_ & _ & Hd)%NoDup_app_elim Hr Hoff HL. eapply repr_agree; [|exact Hr].
  intros x Hx. apply Hoff. intros H. by apply (Hd x Hx), path_in_locsc, HL.
Qed.

Lemma same_off_mono L L' st st' : (forall x, x ∈ L -> x ∈ L') -> same_off L st st' -> same_off L' st st'.
Proof. intros HL Ho l Hl. apply Ho. auto. Qed.

Lemma same_off_trans L st1 st2 st3 : same_off L st1 st2 -> same_off L st2 st3 -> same_off L st1 st3.
Proof. intros H1 H2 l Hl. by rewrite H2, H1. Qed.

Lemma elem_of_take1 {A} (l : list A) x : x ∈ take 1 l -> x ∈ l.
Proof. destruct l; cbn; [done|]. intros [->|H%elem_of_nil]%elem_of_cons; [by left|done]. Qed.

Lemma rotate_up_spec c : forall n st l k v p tl tr s,
  repr (cells st) (plug c (Node l k v p tl tr)) -> NoDup (locs (plug c (Node l k v p tl tr))) ->
  stacks s (path c) -> (length c < n)%nat ->
  exists st', rotate_up n st (top c (Some l)) (Some l) s = Ok (st', ptr_of (rise c (Node l k v p tl tr))) /\
  repr (cells st') (rise c (Node l k v p tl tr)) /\ next st' = next st /\ same_off (l :: path c) st st'.
Proof.
  induction c as [|f c IH]; intros n st l k v p tl tr s Hr Hnd Hs Hn; (destruct n as [|n]; [cbn in Hn; lia|]).
  { exists st. cbn [rotate_up]. rewrite (Len_pos _ _ Hs). done. }
  cbn [rotate_up]. rewrite (Len_pos _ _ Hs).
  rewrite bool_decide_eq_false_2 by done.
  destruct (Pop_cons _ _ (path c) Hs) as (s' & -> & Hs'). cbn [rbind].
  pose proof (NoDup_apart _ _ _ _ _ _ _ _ Hnd) as Hap.
  pose proof Hr as Hr'. apply repr_plug in Hr' as [(Hf & Hsib & Hc) (Hl & Htl & Htr)].
  cbn [ptr_of] in Hf. rewrite (load_cell _ _ _ Hl), (load_cell _ _ _ Hf). cbn [rbind priority right left].
  assert (Hp : priority (cell_of f (Some l)) = f_p f) by (unfold cell_of; by destruct (f_left f)).
  rewrite Hp. cbn [rise]. destruct (Z.leb_spec (f_p f) p).
  { exists st. split; [by rewrite ptr_of_plug|]. done. }
  assert (Hsl : l ∉ locs (f_sib f)) by (by destruct Hap as [_ (?&?&?&?) _ _]).
  rewrite side_of by (by apply ptr_not_in). rewrite (rotate_step st f l k v p _ _ (Some l)) by (done || apply Hap). cbn [rbind].
  rewrite (At_head _ _ Hs'). cbn [rbind].
  destruct (rotated_repr st c f l k v p tl tr Hsib Hc Htl Htr Hap) as [Hrot Hrc].
  assert (Hfc : f_loc f ∉ locsc c) by (by destruct Hap as [_ _ (?&?&?&?) _]).
  destruct (relink_spec (rotated st f l k v p tl tr) c (f_loc f) l Hrc Hfc (ap_c _ _ _ _ _ Hap))
    as (st2 & E & Hrc2 & Hn2 & Hoff2).
  change (top (f :: c) (Some l)) with (top c (Some (f_loc f))). rewrite E. cbn [rbind].
  assert (Hnd2 : NoDup (locs (plug c (rotate1 f l k v p tl tr)))).
  { rewrite (locs_plug_perm c _ _ (rotate1_locs f l k v p tl tr)). exact Hnd. }
  assert (Hr2 : repr (cells st2) (plug c (rotate1 f l k v p tl tr))).
  { apply repr_plug. split.
    - unfold rotate1. destruct (f_left f); exact Hrc2.
    - eapply repr_off_path; [exact Hnd2|exact Hrot|exact Hoff2|apply elem_of_take1]. }
  assert (Hend : exists l' k' v' p' tl' tr', rotate1 f l k v p tl tr = Node l' k' v' p' tl' tr' /\ l' = l)
    by (unfold rotate1; destruct (f_left f); eauto 10).
  destruct Hend as (l' & k' & v' & p' & tl' & tr' & Ed & ->). rewrite Ed in *.
  destruct (IH n st2 l k' v' p' tl' tr' s' Hr2 Hnd2 Hs') as (st3 & E3 & Hr3 & Hn3 & Hoff3);
    [cbn [length] in Hn; lia|].
  exists st3. split; [exact E3|]. split; [exact Hr3|].
  split; [by rewrite Hn3, Hn2|].
  apply (same_off_trans _ _ st2); [apply (same_off_trans _ _ (rotated st f l k v p tl tr))|].
  - eapply same_off_mono; [|apply rotated_off]. clear; set_solver.
  - eapply same_off_mono; [|exact Hoff2]. intros x Hx%elem_of_take1. right. by right.
  - eapply same_off_mono; [|exact Hoff3]. clear; set_solver.
Qed.

(** ** Rotations downwards *)

Lemma choose_child_spec st l k v p tl tr : repr (cells st) tl -> repr (cells st) tr ->
  tl <> Leaf \/ tr <> Leaf ->
  exists f lc kc vc pc a b, choose_child st (mkNode k v p (ptr_of tl) (ptr_of tr)) = Ok (Some lc, f_left f) /\
  Node l k v p tl tr = plug1 f (Node lc kc vc pc a b) /\ f_loc f = l /\ f_k f = k /\ f_v f = v /\ f_p f = p.
Proof.
  intros Hl Hr Hne. unfold choose_child. cbn [left right].
  destruct tl as [|ll kl vl pl al bl], tr as [|lr kr vr pr ar br]; cbn [ptr_of]; [naive_solver|..].
  - by exists (mkFrame false l k v p Leaf), lr, kr, vr, pr, ar, br.
  - by exists (mkFrame true l k v p Leaf), ll, kl, vl, pl, al, bl.
  - destruct Hl as (Hl & _), Hr as (Hr & _). rewrite (load_cell _ _ _ Hl), (load_cell _ _ _ Hr).
    cbn [rbind priority]. destruct (pr <=? pl).
    + by exists (mkFrame true l k v p (Node lr kr vr pr ar br)), ll, kl, vl, pl, al, bl.
    + by exists (mkFrame false l k v p (Node ll kl vl pl al bl)), lr, kr, vr, pr, ar, br.
Qed.

(** The child as the code continues with it: cloned into a new node or not. *)
Lemma take_child (copy : bool) st c f lc kc vc pc a b :
  wf st -> repr (cells st) (plug (f :: c) (Node lc kc vc pc a b)) ->
  NoDup (locs (plug (f :: c) (Node lc kc vc pc a b))) ->
  exists lc' st1,
  own_child copy st (Some lc) = Ok (Some lc', st1) /\
  cells st1 !! lc' = Some (mkNode kc vc pc (ptr_of a) (ptr_of b)) /\ wf st1 /\
  NoDup (locs (plug (f :: c) (Node lc' kc vc pc a b))) /\ (next st <= next st1)%N /\
  (forall x, (x < next st)%N -> cells st1 !! x = cells st !! x) /\
  (if copy then (next st <= lc')%N else lc' = lc).
Proof.
  intros Hwf Hr Hnd. pose proof Hr as Hr'. apply repr_plug in Hr' as [Hc (Hl & Ha & Hb)]. destruct copy.
  - unfold own_child, cloneTreapNode. rewrite (load_cell _ _ _ Hl). cbn [rbind key value priority left right].
    unfold new_node. eexists _, _. split; [done|]. cbn [cells next].
    split; [by rewrite lookup_insert_eq|].
    assert (Hfresh : forall x, is_Some (cells st !! x) -> x <> next st).
    { intros x [n Hx] ->. apply Hwf in Hx. lia. }
    split.
    { intros x n. cbn [cells next]. rewrite lookup_insert. case_decide; [subst; lia|]. intros Hx%Hwf. lia. }
    split.
    { rewrite locs_plug in *. cbn [locs] in *. cbn in *. apply list.NoDup_cons in Hnd as [_ Hnd].
      apply list.NoDup_cons. split; [|done]. intros Hin. apply (Hfresh (next st)); [|done].
      rewrite !elem_of_app in Hin. destruct Hin as [[Hin|Hin]|Hin];
        [exact (locs_repr _ _ _ Ha Hin)|exact (locs_repr _ _ _ Hb Hin)|exact (locsc_repr _ (f :: c) _ _ Hc Hin)]. }
    split; [lia|]. split; [|lia]. intros x Hx. apply lookup_insert_ne. lia.
  - exists lc, st. done.
Qed.

(** What [rotate_down] may change: the node, its path, and its subtrees unless they are cloned. *)
Definition down_off (copy : bool) (st st' : store) (l : N) (c : list frame) (tl tr : tree) : Prop :=
  forall x, (x < next st)%N -> x ∉ l :: take 1 (path c) -> copy = true \/ x ∉ locs tl ++ locs tr ->
  cells st' !! x = cells st !! x.

(** The path below which the node is after one step. *)
Definition down_frame (f : frame) (lc : N) (kc vc : list byte) (pc : Z) (a b : tree) : frame :=
  mkFrame (negb (f_left f)) lc kc vc pc (if f_left f then a else b).
Definition down_left (f : frame) (a b : tree) : tree := if f_left f then b else f_sib f.
Definition down_right (f : frame) (a b : tree) : tree := if f_left f then f_sib f else a.

Lemma down_plug f lc kc vc pc a b c :
  plug (down_frame f lc kc vc pc a b :: c) (Node (f_loc f) (f_k f) (f_v f) (f_p f) (down_left f a b) (down_right f a b))
  = plug c (rotate1 f lc kc vc pc a b).
Proof. cbn [plug]. f_equal. unfold plug1, rotate1, down_frame, down_left, down_right. by destruct (f_left f). Qed.

(** One step: rotate the child up and tell the grandparent. *)
Lemma down_step (copy : bool) st c f lc kc vc pc a b :
  wf st -> repr (cells st) (plug (f :: c) (Node lc kc vc pc a b)) ->
  NoDup (locs (plug (f :: c) (Node lc kc vc pc a b))) ->
  exists lc' st1 st2,
  own_child copy st (Some lc) = Ok (Some lc', st1) /\
  cells st1 !! lc' = Some (mkNode kc vc pc (ptr_of a) (ptr_of b)) /\
  cells st1 !! f_loc f = Some (cell_of f (Some lc)) /\ lc' <> f_loc f /\
  relinkGrandparent (rotated st1 f lc' kc vc pc a b) (top c (Some (f_loc f))) (Some lc') (Some (f_loc f)) (head (path c))
    = Ok (st2, top c (Some lc')) /\
  wf st2 /\ repr (cells st2) (plug c (rotate1 f lc' kc vc pc a b)) /\
  NoDup (locs (plug c (rotate1 f lc' kc vc pc a b))) /\ (next st <= next st2)%N /\
  (if copy then (next st <= lc')%N else lc' = lc) /\
  forall x, (x < next st)%N -> x ∉ lc' :: f_loc f :: take 1 (path c) -> cells st2 !! x = cells st !! x.
Proof.
  intros Hwf Hr Hnd.
  destruct (take_child copy st c f lc kc vc pc a b Hwf Hr Hnd)
    as (lc' & st1 & E & Hlc & Hwf1 & Hnd1 & Hnx & Hsame & Hcopy).
  assert (Hr1 : reprc (cells st1) (f :: c) (Some lc) /\ repr (cells st1) a /\ repr (cells st1) b).
  { apply repr_plug in Hr as [Hc (Hl & Ha & Hb)].
    assert (Hdom : forall x, is_Some (cells st !! x) -> cells st1 !! x = cells st !! x).
    { intros x [n Hx]. apply Hsame. by eapply Hwf. }
    split; [eapply reprc_agree; [|exact Hc]; intros x Hx; apply Hdom; exact (locsc_repr _ (f :: c) _ _ Hc Hx)|].
    split; [eapply repr_agree; [|exact Ha]|eapply repr_agree; [|exact Hb]]; intros x Hx; apply Hdom;
      [exact (locs_repr _ _ _ Ha Hx)|exact (locs_repr _ _ _ Hb Hx)]. }
  destruct Hr1 as [(Hf & Hs & Hc) [Ha Hb]].
  pose proof (NoDup_apart _ _ _ _ _ _ _ _ Hnd1) as Hap.
  destruct (rotated_repr st1 c f lc' kc vc pc a b Hs Hc Ha Hb Hap) as [Hrot Hrc].
  destruct (relink_spec (rotated st1 f lc' kc vc pc a b) c (f_loc f) lc' Hrc) as (st2 & E2 & Hrc2 & Hn2 & Hoff2).
  { by destruct Hap as [_ _ (?&?&?&?) _]. } { apply Hap. }
  assert (Hnd2 : NoDup (locs (plug c (rotate1 f lc' kc vc pc a b)))).
  { rewrite (locs_plug_perm c _ _ (rotate1_locs f lc' kc vc pc a b)). exact Hnd1. }
  assert (Hall : forall x, x ∉ lc' :: f_loc f :: take 1 (path c) -> cells st2 !! x = cells st1 !! x).
  { intros x Hx. rewrite !not_elem_of_cons in Hx. destruct Hx as (? & ? & ?).
    rewrite Hoff2 by done. apply rotated_off. rewrite !not_elem_of_cons. split; [done|]. split; [done|].
    apply not_elem_of_nil. }
  exists lc', st1, st2. do 3 (split; [done|]). split; [apply Hap|]. split; [exact E2|].
  split; [|split; [|split; [done|]]].
  - intros x n Hx. rewrite Hn2. cbn [rotated next].
    destruct (decide (x ∈ lc' :: f_loc f :: take 1 (path c))) as [Hin|Hni]; [|rewrite Hall in Hx by done; by eapply Hwf1].
    rewrite !elem_of_cons in Hin. destruct Hin as [->|[->|Hin]]; [by eapply Hwf1|by eapply Hwf1|].
    apply elem_of_take1, path_in_locsc in Hin. destruct (locsc_repr _ _ _ _ Hc Hin) as [n' Hn']. by eapply Hwf1.
  - apply repr_plug. split.
    + unfold rotate1. destruct (f_left f); exact Hrc2.
    + eapply repr_off_path; [exact Hnd2|exact Hrot|exact Hoff2|apply elem_of_take1].
  - rewrite Hn2. cbn [rotated next]. split; [done|]. split; [done|].
    intros x Hx Hni. rewrite Hall by done. by apply Hsame.
Qed.

Lemma down_off_step (copy : bool) st st2 st3 c f lc lc' kc vc pc a b tl tr :
  Node (f_loc f) (f_k f) (f_v f) (f_p f) tl tr = plug1 f (Node lc kc vc pc a b) ->
  (next st <= next st2)%N -> (if copy then (next st <= lc')%N else lc' = lc) ->
  (forall x, (x < next st)%N -> x ∉ lc' :: f_loc f :: take 1 (path c) -> cells st2 !! x = cells st !! x) ->
  down_off copy st2 st3 (f_loc f) (down_frame f lc' kc vc pc a b :: c) (down_left f a b) (down_right f a b) ->
  down_off copy st st3 (f_loc f) c tl tr.
Proof.
  intros Ep Hn2 Hcopy Hoff Hdown x Hx Hni Hcp. apply not_elem_of_cons in Hni as [Hne Hni].
  assert (Hlc : x <> lc' /\ (copy = true \/ x ∉ locs (down_left f a b) ++ locs (down_right f a b))).
  { destruct copy; [split; [lia|by left]|]. subst lc'. destruct Hcp as [?|Hcp]; [done|].
    revert Ep Hcp. unfold plug1, down_left, down_right. destruct (f_left f); intros [= -> ->];
      cbn [locs]; rewrite ?not_elem_of_app, ?not_elem_of_cons, ?not_elem_of_app; naive_solver. }
  destruct Hlc as [Hlc Hcp']. rewrite Hdown; [|lia| |done].
  - apply Hoff; [done|]. by rewrite !not_elem_of_cons.
  - cbn. rewrite !not_elem_of_cons. split; [done|]. split; [done|]. apply not_elem_of_nil.
Qed.

(** The nodes that come onto the path: clones, or nodes of the subtrees. *)
Definition taken (copy : bool) (st : store) (tl tr : tree) (x : N) : Prop :=
  if copy then (next st <= x)%N else x ∈ locs tl ++ locs tr.

Lemma taken_step (copy : bool) st st2 c c' f lc lc' kc vc pc a b tl tr :
  Node (f_loc f) (f_k f) (f_v f) (f_p f) tl tr = plug1 f (Node lc kc vc pc a b) ->
  (next st <= next st2)%N -> (if copy then (next st <= lc')%N else lc' = lc) ->
  (forall x, x ∈ path c' -> x ∈ path (down_frame f lc' kc vc pc a b :: c) \/
     taken copy st2 (down_left f a b) (down_right f a b) x) ->
  forall x, x ∈ path c' -> x ∈ path c \/ taken copy st tl tr x.
Proof.
  intros Ep Hn2 Hcopy Hpath x Hx. unfold taken in *. destruct (Hpath x Hx) as [Hin|Ht].
  - cbn [path map down_frame f_loc] in Hin. apply elem_of_cons in Hin as [->|Hin]; [right|by left].
    destruct copy; [done|]. subst lc'. revert Ep. unfold plug1. destruct (f_left f); intros [= -> ->];
      cbn [locs]; rewrite elem_of_app, elem_of_cons; tauto.
  - right. destruct copy; [lia|]. revert Ep Ht. unfold plug1, down_left, down_right.
    destruct (f_left f); intros [= -> ->]; cbn [locs]; rewrite !elem_of_app, elem_of_cons, !elem_of_app; tauto.
Qed.

Lemma rotate_down_unfold (copy : bool) n st rt node parent nd : load st node = Ok nd ->
  left nd <> None \/ right nd <> None ->
  rotate_down copy (S n) st rt node parent =
  (let* (child, isLeft) := choose_child st nd in
   let* (child, st) := own_child copy st child in
   let* cd := load st child in
   let* st :=
     if (isLeft : bool) then
       let* st := update st child (set_right node) in
       update st node (set_left (right cd))
     else
       let* st := update st child (set_left node) in
       update st node (set_right (left cd)) in
   let* (st, rt) := relinkGrandparent st rt child node parent in
   rotate_down copy n st rt node child).
Proof.
  intros H Hne. cbn [rotate_down]. rewrite H. cbn [rbind].
  destruct (left nd); [done|]. destruct (right nd); [done|naive_solver].
Qed.

Lemma rotate_down_spec copy n : forall c st l k v p tl tr,
  wf st -> repr (cells st) (plug c (Node l k v p tl tr)) -> NoDup (locs (plug c (Node l k v p tl tr))) ->
  (length (locs tl) + length (locs tr) < n)%nat ->
  exists st' c', rotate_down copy n st (top c (Some l)) (Some l) (head (path c))
    = Ok (st', top c' (Some l), head (path c')) /\
  wf st' /\ repr (cells st') (plug c' (Node l k v p Leaf Leaf)) /\ NoDup (locs (plug c' (Node l k v p Leaf Leaf))) /\
  before c' = before c ++ elements tl /\ after c' = elements tr ++ after c /\
  (next st <= next st')%N /\ down_off copy st st' l c tl tr /\
  (forall x, x ∈ path c' -> x ∈ path c \/ taken copy st tl tr x) /\
  (c <> [] \/ tl <> Leaf \/ tr <> Leaf -> c' <> []).
Proof.
  induction n as [|n IH]; intros c st l k v p tl tr Hwf Hr Hnd Hn; [lia|].
  pose proof Hr as Hr'. apply repr_plug in Hr' as [Hc (Hl & Htl & Htr)].
  assert (Hcase : (tl = Leaf /\ tr = Leaf) \/ (tl <> Leaf \/ tr <> Leaf)) by (destruct tl, tr; naive_solver).
  destruct Hcase as [[-> ->]|Hne].
  { exists st, c. cbn [rotate_down]. rewrite (load_cell _ _ _ Hl). cbn. rewrite app_nil_r.
    do 7 (split; [done|]). split; [by intros x ?|]. naive_solver. }
  rewrite (rotate_down_unfold _ _ _ _ _ _ _ (load_cell _ _ _ Hl)); [|destruct tl, tr; cbn; naive_solver].
  destruct (choose_child_spec st l k v p tl tr Htl Htr Hne)
    as (f & lc & kc & vc & pc & a & b & -> & Ep & <- & <- & <- & <-).
  cbn [rbind]. rewrite Ep in Hr, Hnd.
  destruct (down_step copy st c f lc kc vc pc a b Hwf Hr Hnd)
    as (lc' & st1 & st2 & -> & Hlc & Hf & Hne' & E2 & Hwf2 & Hr2 & Hnd2 & Hn2 & Hcopy & Hoff).
  cbn [rbind]. rewrite (load_cell _ _ _ Hlc). cbn [rbind left right].
  rewrite (rotate_step st1 f lc' kc vc pc a b (Some lc)) by done. cbn [rbind]. rewrite E2. cbn [rbind].
  rewrite <- down_plug in Hr2, Hnd2.
  destruct (IH (down_frame f lc' kc vc pc a b :: c) st2 (f_loc f) (f_k f) (f_v f) (f_p f)
    (down_left f a b) (down_right f a b) Hwf2 Hr2 Hnd2) as (st' & c' & E & Hwf' & Hr3 & Hnd3 & Hb & Ha & Hn3 & Hoff3 & Hpath & Hc').
  { revert Hn Ep. unfold plug1, down_left, down_right. destruct (f_left f); intros Hn [= -> ->];
      cbn [locs length] in Hn; rewrite length_app in Hn; lia. }
  exists st', c'. split; [exact E|]. do 3 (split; [done|]).
  split; [|split; [|split; [lia|split; [|split; [|intros _; apply Hc'; by left]]]]].
  - rewrite Hb. revert Ep. unfold plug1, down_left, down_frame. cbn [before f_left f_sib f_k f_v].
    destruct (f_left f); intros [= -> ->]; cbn; rewrite <- ?app_assoc; done.
  - rewrite Ha. revert Ep. unfold plug1, down_right, down_frame. cbn [after f_left f_sib f_k f_v].
    destruct (f_left f); intros [= -> ->]; cbn; rewrite <- ?app_assoc; done.
  - eapply down_off_step; eassumption.
  - eapply taken_step; eassumption.
Qed.

(** Taking the leaf out. *)
Lemma unlink_spec st f c l k v p : repr (cells st) (plug (f :: c) (Node l k v p Leaf Leaf)) ->
  NoDup (locs (plug (f :: c) (Node l k v p Leaf Leaf))) ->
  exists st', unlink st (Some l) (Some (f_loc f)) = Ok st' /\ repr (cells st') (plug (f :: c) Leaf) /\
  next st' = next st /\ same_off [f_loc f] st st' /\ l <> f_loc f.
Proof.
  intros Hr Hnd. pose proof (NoDup_apart _ _ _ _ _ _ _ _ Hnd) as [Hne (_ & _ & Hls & _) (_ & _ & Hfs & Hfc) _].
  apply repr_plug in Hr as [(Hf & Hs & Hc) _]. cbn [ptr_of] in Hf.
  unfold unlink. rewrite (load_cell _ _ _ Hf). cbn [rbind]. rewrite (update_ok _ _ _ _ Hf).
  eexists. split; [done|]. cbn [cells next]. split; [|split; [done|split; [|done]]].
  - apply repr_plug. split; [|done]. cbn [reprc ptr_of]. split; [|split; [by apply repr_insert|by apply reprc_insert]].
    rewrite lookup_insert_eq. f_equal. unfold cell_of. apply ptr_not_in in Hls.
    destruct (f_left f); cbn [right]; [rewrite bool_decide_eq_false_2 by congruence|rewrite bool_decide_eq_true_2 by done]; done.
  - intros x Hx. apply lookup_insert_ne. intros <-. apply Hx. by left.
Qed.

(** ** Searching *)

Definition keys (t : tree) : list (list byte) := map fst (elements t).

(** The place of a key: the path to it and the subtree there. *)
Fixpoint locate (k : list byte) (c : list frame) (t : tree) : list frame * tree :=
  match t with
  | Leaf => (c, Leaf)
  | Node l k' v p tl tr =>
      if bytes_Compare k k' <? 0 then locate k (mkFrame true l k' v p tr :: c) tl
      else if 0 <? bytes_Compare k k' then locate k (mkFrame false l k' v p tl :: c) tr
      else (c, t)
  end.

Lemma locate_plug k t : forall c, plug (locate k c t).1 (locate k c t).2 = plug c t.
Proof.
  induction t as [|l k' v p tl IHl tr IHr]; intros c; cbn [locate]; [done|].
  case_match; [by rewrite IHl|]. case_match; [by rewrite IHr|done].
Qed.

Definition bst (t : tree) : Prop := StronglySorted klt (keys t).

Definition below (k : list byte) (l : list (list byte * list byte)) : Prop := Forall (fun e => klt e.1 k) l.
Definition above (k : list byte) (l : list (list byte * list byte)) : Prop := Forall (fun e => klt k e.1) l.

Lemma sorted_mid (A B : list (list byte * list byte)) k v :
  StronglySorted klt (map fst (A ++ (k, v) :: B)) -> below k A /\ above k B.
Proof.
  induction A as [|[k' v'] A IH]; cbn.
  - intros [_ H]%StronglySorted_inv. split; [constructor|]. unfold above. by rewrite Forall_map in H.
  - intros [Hs H]%StronglySorted_inv. destruct (IH Hs) as [Ha Hb]. split; [|done]. constructor; [|done].
    rewrite Forall_map in H. rewrite List.Forall_forall in H. apply (H (k, v)). apply in_elt.
Qed.

(** What the search knows about the key: everything before the path is smaller,
    everything after it is larger. *)
Definition around (k : list byte) (c : list frame) : Prop := below k (before c) /\ above k (after c).

Lemma above_trans k k' B : klt k k' -> above k' B -> above k B.
Proof. intros Hk H. eapply list.Forall_impl; [exact H|]. intros e. by apply klt_trans. Qed.
Lemma below_trans k k' A : klt k' k -> below k' A -> below k A.
Proof. intros Hk H. eapply list.Forall_impl; [exact H|]. intros e He. by apply klt_trans with k'. Qed.

Lemma sorted_root c l k v p tl tr : bst (plug c (Node l k v p tl tr)) ->
  below k (elements tl) /\ above k (elements tr).
Proof.
  unfold bst, keys. rewrite elements_plug. cbn [elements]. intros H.
  replace (before c ++ (elements tl ++ (k, v) :: elements tr) ++ after c)
    with ((before c ++ elements tl) ++ (k, v) :: (elements tr ++ after c)) in H
    by (rewrite <- !app_assoc; cbn; done).
  apply sorted_mid in H as [Ha Hb]. apply Forall_app in Ha as [_ Ha]. by apply Forall_app in Hb as [Hb _].
Qed.

Lemma locate_around k t : forall c, bst (plug c t) -> around k c -> around k (locate k c t).1.
Proof.
  induction t as [|l k' v p tl IHl tr IHr]; intros c Hs [Hb Ha]; cbn [locate]; [done|].
  pose proof (sorted_root c l k' v p tl tr Hs) as [Hl Hr].
  destruct (Z.ltb_spec (bytes_Compare k k') 0) as [Hlt|]; [|destruct (Z.ltb_spec 0 (bytes_Compare k k')) as [Hgt|]; [|done]].
  - apply IHl; [done|]. split; cbn [before after f_left f_k f_v f_sib]; [by rewrite app_nil_r|].
    constructor; [done|]. apply Forall_app. split; [|done]. by apply (above_trans k k').
  - apply klt_gt in Hgt. apply IHr; [done|]. split; cbn [before after f_left f_k f_v f_sib]; [|done].
    apply Forall_app. split; [done|]. apply Forall_app. split; [by apply (below_trans k k')|].
    constructor; [done|constructor].
Qed.

(** The search ends at the key or at a leaf. *)
Lemma locate_found k t : forall c, match (locate k c t).2 with Leaf => True | Node _ k' _ _ _ _ => k' = k end.
Proof.
  induction t as [|l k' v p tl IHl tr IHr]; intros c; cbn [locate]; [done|].
  destruct (Z.ltb_spec (bytes_Compare k k') 0); [apply IHl|].
  destruct (Z.ltb_spec 0 (bytes_Compare k k')); [apply IHr|]. cbn. symmetry. apply Compare_eq. lia.
Qed.

Lemma get_loop_spec k t : forall n st c, repr (cells st) t -> (length (locs t) < n)%nat ->
  get_loop n st k (ptr_of t) (head (path c)) =
  Ok (let (c', t') := locate k c t in (ptr_of t', match t' with Leaf => None | _ => head (path c') end)).
Proof.
  induction t as [|l k' v p tl IHl tr IHr]; intros n st c Hr Hn; (destruct n as [|n]; [lia|]); [done|].
  cbn [get_loop ptr_of locate]. destruct Hr as (Hl & Htl & Htr). rewrite (load_cell _ _ _ Hl).
  cbn [rbind key left right]. cbn [locs length] in Hn. rewrite length_app in Hn.
  case_match; [apply (IHl n st (mkFrame true l k' v p tr :: c)); [done|lia]|].
  case_match; [apply (IHr n st (mkFrame false l k' v p tl :: c)); [done|lia]|]. done.
Qed.

Definition found_path (c : list frame) (t : tree) : list N :=
  match t with Leaf => path c | Node l _ _ _ _ _ => l :: path c end.

Lemma find_path_spec k t : forall n st c s, repr (cells st) t -> stacks s (path c) -> (length (locs t) < n)%nat ->
  exists s', find_path n st k (ptr_of t) s = Ok (s', ptr_of (locate k c t).2) /\
  stacks s' (found_path (locate k c t).1 (locate k c t).2).
Proof.
  induction t as [|l k' v p tl IHl tr IHr]; intros n st c s Hr Hs Hn; (destruct n as [|n]; [lia|]); [by exists s|].
  cbn [find_path ptr_of locate]. destruct Hr as (Hl & Htl & Htr).
  destruct (Push_spec _ _ l Hs) as (s' & -> & Hs'). cbn [rbind]. rewrite (load_cell _ _ _ Hl).
  cbn [rbind key left right]. cbn [locs length] in Hn. rewrite length_app in Hn.
  case_match; [apply (IHl n st (mkFrame true l k' v p tr :: c)); [done|done|lia]|].
  case_match; [apply (IHr n st (mkFrame false l k' v p tl :: c)); [done|done|lia]|]. by exists s'.
Qed.

(** The side of the new node follows from the last comparison. *)
Definition side_sign (c : list frame) (d x : Z) : Prop :=
  match c with [] => x = d | f :: _ => (x <? 0) = f_left f end.

Lemma put_path_spec k t : forall n st c s d x, repr (cells st) t -> stacks s (path c) -> (length (locs t) < n)%nat ->
  side_sign c d x ->
  exists s' x', put_path n st k (ptr_of t) s x =
    Ok (s', match (locate k c t).2 with Leaf => inl x' | t' => inr (ptr_of t') end) /\
  stacks s' (found_path (locate k c t).1 (locate k c t).2) /\ side_sign (locate k c t).1 d x'.
Proof.
  induction t as [|l k' v p tl IHl tr IHr]; intros n st c s d x Hr Hs Hn Hx; (destruct n as [|n]; [lia|]); [by exists s, x|].
  cbn [put_path ptr_of locate]. destruct Hr as (Hl & Htl & Htr).
  destruct (Push_spec _ _ l Hs) as (s' & -> & Hs'). cbn [rbind]. rewrite (load_cell _ _ _ Hl).
  cbn [rbind key left right]. cbn [locs length] in Hn. rewrite length_app in Hn.
  destruct (bytes_Compare k k' <? 0) eqn:E1;
    [apply (IHl n st (mkFrame true l k' v p tr :: c) s' d); [done|done|lia|done]|].
  destruct (0 <? bytes_Compare k k');
    [apply (IHr n st (mkFrame false l k' v p tl :: c) s' d); [done|done|lia|done]|]. by exists s', x.
Qed.

(** ** Cloning the path *)

(** A list of frames with new locations. *)
Definition fresh_path (st : store) (c : list frame) : Prop := Forall (fun l => (next st <= l)%N) (path c).

Lemma clone_step st c l k v p tl tr :
  wf st -> repr (cells st) (plug c (Node l k v p tl tr)) -> NoDup (locs (plug c (Node l k v p tl tr))) ->
  let lc := next st in
  exists st1 st2, cloneTreapNode st (Some l) = Ok (Some lc, st1) /\
  link_clone st1 (head (path c)) (Some l) (Some lc) = Ok st2 /\
  wf st2 /\ repr (cells st2) (plug c (Node lc k v p tl tr)) /\ NoDup (locs (plug c (Node lc k v p tl tr))) /\
  next st2 = N.succ (next st) /\ same_off (lc :: take 1 (path c)) st st2.
Proof.
  intros Hwf Hr Hnd lc. pose proof Hr as Hr'. apply repr_plug in Hr' as [Hc (Hl & Htl & Htr)].
  set (st1 := mkStore (<[lc := mkNode k v p (ptr_of tl) (ptr_of tr)]> (cells st)) (N.succ (next st))).
  assert (Hfresh : forall x, is_Some (cells st !! x) -> x <> lc) by (intros x [n Hx] ->; apply Hwf in Hx; unfold lc in *; lia).
  assert (Hlc : (lc ∉ locs tl) /\ (lc ∉ locs tr) /\ (lc ∉ locsc c)).
  { repeat split; intros Hin; apply (Hfresh lc); try done;
      [exact (locs_repr _ _ _ Htl Hin)|exact (locs_repr _ _ _ Htr Hin)|exact (locsc_repr _ _ _ _ Hc Hin)]. }
  destruct Hlc as (Hlc1 & Hlc2 & Hlc3).
  assert (Hc1 : reprc (cells st1) c (Some l)) by (by apply reprc_insert).
  pose proof Hnd as Hnd'. rewrite locs_plug in Hnd'. cbn in Hnd'. apply list.NoDup_cons in Hnd' as [Hni Hnd'].
  rewrite not_elem_of_app in Hni. destruct Hni as [_ Hlc].
  destruct (relink_spec st1 c l lc Hc1 Hlc) as (st2 & E & Hc2 & Hn2 & Hoff2).
  { by apply NoDup_app_elim in Hnd' as (_ & Hx & _). }
  exists st1, st2. split.
  { unfold cloneTreapNode. rewrite (load_cell _ _ _ Hl). done. }
  split; [rewrite (link_clone_relink _ _ _ _ (top c (Some l))), E; done|].
  assert (Hnd2 : NoDup (locs (plug c (Node lc k v p tl tr)))).
  { rewrite locs_plug. cbn. apply list.NoDup_cons. split; [|done]. by rewrite !not_elem_of_app. }
  assert (Hsame : same_off (lc :: take 1 (path c)) st st2).
  { intros x Hx. apply not_elem_of_cons in Hx as [Hx1 Hx2]. rewrite Hoff2 by done. by apply lookup_insert_ne. }
  split; [|split; [|split; [done|split; [done|done]]]].
  - intros x n Hx. rewrite Hn2. cbn [next st1]. destruct (decide (x = lc)) as [->|Hne]; [unfold lc; lia|].
    destruct (decide (x ∈ take 1 (path c))) as [Hin|Hni].
    + apply elem_of_take1, path_in_locsc in Hin. destruct (locsc_repr _ _ _ _ Hc Hin) as [n' Hn']. apply Hwf in Hn'. lia.
    + rewrite Hsame in Hx by (by apply not_elem_of_cons). apply Hwf in Hx. lia.
  - apply repr_plug. split; [done|].
    eapply (repr_off_path st1); [exact Hnd2| |exact Hoff2|apply elem_of_take1].
    cbn [repr st1 cells]. split; [by rewrite lookup_insert_eq|]. split; by apply repr_insert.
Qed.

(** What was in the store stays. *)
Definition extends (st0 st : store) : Prop :=
  (next st0 <= next st)%N /\ forall x, (x < next st0)%N -> cells st !! x = cells st0 !! x.

Lemma extends_off st0 st st' L : extends st0 st -> (next st <= next st')%N ->
  same_off L st st' -> (forall x, x ∈ L -> (next st0 <= x)%N) -> extends st0 st'.
Proof.
  intros [Hn Hs] Hn' Ho HL. split; [lia|]. intros x Hx. rewrite Ho; [by apply Hs|].
  intros Hin%HL. lia.
Qed.

Lemma fresh_take st0 c x : fresh_path st0 c -> x ∈ take 1 (path c) -> (next st0 <= x)%N.
Proof. unfold fresh_path. rewrite list.Forall_forall. intros H Hx%elem_of_take1. by apply H. Qed.

(** Paths that differ only in the locations of their nodes. *)
Definition frame_sim (f g : frame) : Prop :=
  f_left f = f_left g /\ f_k f = f_k g /\ f_v f = f_v g /\ f_p f = f_p g /\ f_sib f = f_sib g.
Abbreviation similar := (Forall2 frame_sim).

#[local] Instance frame_sim_equiv : Equivalence frame_sim.
Proof.
  split; [done|intros f g (?&?&?&?&?); done|].
  intros f g h (?&?&?&?&?) (?&?&?&?&?). repeat split; congruence.
Qed.

Lemma similar_before c c' : similar c c' -> before c = before c'.
Proof.
  induction 1 as [|f g c c' (E1 & E2 & E3 & E4 & E5) _ IH]; [done|]. cbn [before]. by rewrite IH, E1, E2, E3, E5.
Qed.
Lemma similar_after c c' : similar c c' -> after c = after c'.
Proof.
  induction 1 as [|f g c c' (E1 & E2 & E3 & E4 & E5) _ IH]; [done|]. cbn [after]. by rewrite IH, E1, E2, E3, E5.
Qed.

Lemma locate_similar k t : forall c c', similar c c' ->
  similar (locate k c t).1 (locate k c' t).1 /\ (locate k c t).2 = (locate k c' t).2.
Proof.
  induction t as [|l k' v p tl IHl tr IHr]; intros c c' Hc; cbn [locate]; [done|].
  case_match; [apply IHl; by constructor|]. case_match; [apply IHr; by constructor|]. done.
Qed.

(** The clone of a path is similar to it, new, and ends where the search ended. *)
Record cloned (st0 st : store) (k v : list byte) (c0 : list frame) (t0 : tree) (d : Z)
    (s : parentStack) (r : Z + list byte) (c : list frame) : Prop := {
  cl_wf : wf st;
  cl_ext : extends st0 st;
  cl_fresh : fresh_path st0 c;
  cl_sim : similar c c0;
  cl_end : match t0 with
    | Leaf => exists x, r = inl x /\ stacks s (path c) /\ side_sign c d x /\
        repr (cells st) (plug c Leaf) /\ NoDup (locs (plug c Leaf))
    | Node _ k' old p tl tr => exists lc, r = inr old /\ stacks s (lc :: path c) /\
        repr (cells st) (plug c (Node lc k' v p tl tr)) /\ NoDup (locs (plug c (Node lc k' v p tl tr)))
    end
}.

(** Changing the value of the node in the hole. *)
Lemma update_value st c l k v p tl tr w :
  repr (cells st) (plug c (Node l k v p tl tr)) -> NoDup (locs (plug c (Node l k v p tl tr))) ->
  exists st', update st (Some l) (set_value w) = Ok st' /\ repr (cells st') (plug c (Node l k w p tl tr)) /\
  next st' = next st /\ same_off [l] st st' /\ NoDup (locs (plug c (Node l k w p tl tr))) /\
  (wf st -> wf st').
Proof.
  rewrite repr_plug. intros [Hc (Hl & Htl & Htr)] Hnd. pose proof Hnd as Hnd'.
  rewrite locs_plug in Hnd'. cbn in Hnd'. apply list.NoDup_cons in Hnd' as [Hni _].
  rewrite !not_elem_of_app in Hni. destruct Hni as [[H1 H2] H3].
  rewrite (update_ok _ _ _ _ Hl). eexists. split; [done|]. cbn [cells next].
  split; [|split; [done|split; [|split]]].
  - apply repr_plug. split; [by apply reprc_insert|]. cbn [repr]. split; [by rewrite lookup_insert_eq|].
    split; by apply repr_insert.
  - intros x Hx. apply lookup_insert_ne. intros <-. apply Hx. by left.
  - rewrite locs_plug in *. exact Hnd.
  - intros Hwf x n. cbn [cells next]. rewrite lookup_insert. case_decide; [|apply Hwf].
    subst. intros _. by eapply Hwf.
Qed.

Definition clones st0 k v (t : tree) : Prop := forall n st c s d x,
  wf st -> repr (cells st) (plug c t) -> NoDup (locs (plug c t)) -> stacks s (path c) ->
  extends st0 st -> fresh_path st0 c -> (length (locs t) < n)%nat -> side_sign c d x ->
  exists st' s' r c', clone_path n st k v (ptr_of t) s x = Ok (st', s', r) /\
  cloned st0 st' k v (locate k c t).1 (locate k c t).2 d s' r c'.

(** Going down to a child [t'] from the clone that [f] describes. *)
Lemma clone_descend st0 st k v n c s d x f f' t' : clones st0 k v t' -> frame_sim f f' ->
  wf st -> repr (cells st) (plug (f :: c) t') -> NoDup (locs (plug (f :: c) t')) ->
  stacks s (path (f :: c)) -> extends st0 st -> fresh_path st0 (f :: c) ->
  (length (locs t') < n)%nat -> (x <? 0) = f_left f ->
  exists st' s' r c', clone_path n st k v (ptr_of t') s x = Ok (st', s', r) /\
  cloned st0 st' k v (locate k (f' :: c) t').1 (locate k (f' :: c) t').2 d s' r c'.
Proof.
  intros IH Hsim Hwf Hr Hnd Hs Hext Hfp Hn Hx.
  destruct (IH n st (f :: c) s d x Hwf Hr Hnd Hs Hext Hfp Hn Hx) as (st' & s' & r & c' & E & Hcl).
  exists st', s', r, c'. split; [exact E|].
  destruct (locate_similar k t' (f :: c) (f' :: c)) as [Hs1 Hs2]; [by constructor|].
  destruct Hcl as [? ? ? Hsc Hend].
  split; try done; [by transitivity (locate k (f :: c) t').1|by rewrite <- Hs2].
Qed.

Lemma clone_path_spec st0 k v t : clones st0 k v t.
Proof.
  induction t as [|l k' w p tl IHl tr IHr]; intros n st c s d x Hwf Hr Hnd Hs Hext Hfp Hn Hx;
    (destruct n as [|n]; [lia|]).
  { exists st, s, (inl x), c. split; [done|]. split; try done. cbn. eauto 10. }
  cbn [clone_path ptr_of locate]. destruct (clone_step st c l k' w p tl tr Hwf Hr Hnd)
    as (st1 & st2 & E1 & E2 & Hwf2 & Hr2 & Hnd2 & Hn2 & Hoff2).
  apply repr_plug in Hr as [Hc (Hl & Htl & Htr)]. rewrite (load_cell _ _ _ Hl). cbn [rbind]. rewrite E1. cbn [rbind].
  rewrite (At_head _ _ Hs). cbn [rbind]. rewrite E2. cbn [rbind].
  destruct (Push_spec _ _ (next st) Hs) as (s' & -> & Hs'). cbn [rbind key left right value].
  cbn [locs length] in Hn. rewrite length_app in Hn.
  assert (Hext2 : extends st0 st2).
  { eapply extends_off; [exact Hext|lia|exact Hoff2|]. destruct Hext as [Hle _].
    intros y [->|Hy]%elem_of_cons; [done|by eapply fresh_take]. }
  assert (Hfp2 : Forall (fun l => (next st0 <= l)%N) (next st :: path c)) by (constructor; [apply Hext|done]).
  destruct (bytes_Compare k k' <? 0) eqn:Elt;
    [apply (clone_descend _ _ _ _ _ _ _ _ _ (mkFrame true (next st) k' w p tr)); try done; lia|].
  destruct (0 <? bytes_Compare k k') eqn:Egt;
    [apply (clone_descend _ _ _ _ _ _ _ _ _ (mkFrame false (next st) k' w p tl)); try done; lia|].
  destruct (update_value st2 c (next st) k' w p tl tr v Hr2 Hnd2) as (st3 & -> & Hr3 & Hn3 & Hoff3 & Hnd3 & Hwf3).
  cbn [rbind]. exists st3, s', (inr w), c. split; [done|]. split; [auto| |done|done|by exists (next st)].
  eapply extends_off; [exact Hext2|lia|exact Hoff3|].
  intros y [->|Hy%elem_of_nil]%elem_of_cons; [apply Hext|done].
Qed.

(** ** Inserting *)

Lemma NoDup_bound (L : list N) n : NoDup L -> (forall x, x ∈ L -> (x < n)%N) -> (length L <= N.to_nat n)%nat.
Proof.
  intros Hnd Hb. assert (Hinc : map N.to_nat L ⊆+ seq 0 (N.to_nat n)).
  { apply NoDup_submseteq; [by apply NoDup_fmap_2; [apply _|]|].
    intros y Hy. apply list_elem_of_fmap in Hy as (x & -> & Hx). apply elem_of_seq. apply Hb in Hx. lia. }
  apply submseteq_length in Hinc. by rewrite length_map, length_seq in Hinc.
Qed.

Lemma tree_bound st t : wf st -> repr (cells st) t -> NoDup (locs t) -> (length (locs t) < fuel st)%nat.
Proof.
  intros Hwf Hr Hnd. unfold fuel. apply (NoDup_bound _ (next st)) in Hnd; [lia|].
  intros x Hx. destruct (locs_repr _ _ _ Hr Hx) as [n Hn]. by eapply Hwf.
Qed.

Lemma path_length_bound c t : (length c + length (locs t) <= length (locs (plug c t)))%nat.
Proof.
  rewrite locs_plug, length_app. enough (length c <= length (locsc c))%nat by lia.
  induction c as [|f c IH]; cbn; [lia|]. rewrite length_app. lia.
Qed.

(** The new node keeps its contents while it rises. *)
Lemma rise_node c : forall l k v p tl tr, exists c' tl' tr', rise c (Node l k v p tl tr) = plug c' (Node l k v p tl' tr').
Proof.
  induction c as [|f c IH]; intros l k v p tl tr; cbn [rise]; [by exists [], tl, tr|].
  case_match; [by exists (f :: c), tl, tr|]. unfold rotate1. destruct (f_left f); apply IH.
Qed.

(** The new node becomes a leaf below the path. *)
Lemma attach_new st c k v p d x :
  wf st -> repr (cells st) (plug c Leaf) -> NoDup (locs (plug c Leaf)) -> c <> [] -> side_sign c d x ->
  let l := next st in
  exists st1 st2, newTreapNode st k v p = (Some l, st1) /\ cells st1 !! l = Some (mkNode k v p None None) /\
  link_new st1 (head (path c)) (Some l) x = Ok st2 /\
  repr (cells st2) (plug c (Node l k v p Leaf Leaf)) /\ NoDup (locs (plug c (Node l k v p Leaf Leaf))) /\
  wf st2 /\ next st2 = N.succ l /\ same_off (l :: path c) st st2.
Proof.
  intros Hwf Hr Hnd Hc Hx l. destruct c as [|f c]; [done|]. cbn in Hx. clear Hc.
  apply repr_plug in Hr as [(Hf & Hsib & Hc) _]. cbn [ptr_of] in Hf.
  assert (Hl : l ∉ locsc (f :: c)).
  { intros Hin. destruct (locsc_repr _ (f :: c) None _ (conj Hf (conj Hsib Hc)) Hin) as [n Hn].
    apply Hwf in Hn. unfold l in Hn. lia. }
  assert (Hlf : l <> f_loc f) by (intros E; apply Hl; rewrite E; by left).
  rewrite locs_plug in Hnd. cbn in Hnd. pose proof Hnd as [Hfni _]%list.NoDup_cons.
  rewrite not_elem_of_app in Hfni. destruct Hfni as [Hfs Hfc].
  assert (Hl' := Hl). cbn [locsc] in Hl'. rewrite not_elem_of_cons, not_elem_of_app in Hl'. destruct Hl' as (_ & Hls & Hlc).
  set (st1 := mkStore (<[l := mkNode k v p None None]> (cells st)) (N.succ l)).
  exists st1, (mkStore (<[f_loc f := cell_of f (Some l)]> (cells st1)) (N.succ l)).
  split; [done|]. split; [apply lookup_insert_eq|]. split.
  { cbn [path map head]. unfold link_new. rewrite Hx.
    rewrite (update_ok st1 (f_loc f) (cell_of f None)) by (by rewrite <- Hf; apply lookup_insert_ne).
    by rewrite set_child_cell. }
  split; [|split; [|split; [|split; [done|]]]].
  - apply repr_plug. cbn [reprc repr ptr_of cells]. split; [split; [by rewrite lookup_insert_eq|split]|].
    + by apply repr_insert2.
    + by apply reprc_insert; [|apply reprc_insert].
    + cbn [st1 cells]. split; [by rewrite lookup_insert_ne, lookup_insert_eq|done].
  - rewrite locs_plug. cbn. by apply list.NoDup_cons.
  - intros y n. cbn [st1 cells next]. rewrite lookup_insert. case_decide; [subst; intros _; apply Hwf in Hf; unfold l; lia|].
    rewrite lookup_insert. case_decide; [subst; lia|]. intros Hy%Hwf. unfold l. lia.
  - intros y Hy. cbn [st1 cells]. apply not_elem_of_cons in Hy as [Hy1 Hy2].
    apply not_elem_of_cons in Hy2 as [Hy2 _]. by rewrite !lookup_insert_ne.
Qed.

(** Changing cells in place keeps the store well-formed. *)
Lemma wf_off st st' L : wf st -> next st' = next st -> same_off L st st' ->
  (forall x, x ∈ L -> is_Some (cells st !! x)) -> wf st'.
Proof.
  intros Hwf Hn Ho HL x n Hx. rewrite Hn. destruct (decide (x ∈ L)) as [Hin|Hni].
  - destruct (HL x Hin) as [n' Hn']. by eapply Hwf.
  - rewrite Ho in Hx by done. by eapply Hwf.
Qed.

Lemma insert_new st c s k v p d x :
  wf st -> repr (cells st) (plug c Leaf) -> NoDup (locs (plug c Leaf)) -> c <> [] ->
  stacks s (path c) -> side_sign c d x ->
  let l := next st in let T := rise c (Node l k v p Leaf Leaf) in
  exists st1 st2 st3, newTreapNode st k v p = (Some l, st1) /\ cells st1 !! l = Some (mkNode k v p None None) /\
  link_new st1 (head (path c)) (Some l) x = Ok st2 /\
  rotate_up (fuel st2) st2 (top c (Some l)) (Some l) s = Ok (st3, ptr_of T) /\
  repr (cells st3) T /\ NoDup (locs T) /\ wf st3 /\ (next st <= next st3)%N /\ same_off (l :: path c) st st3 /\
  exists a b, cells st3 !! l = Some (mkNode k v p a b).
Proof.
  intros Hwf Hr Hnd Hc Hs Hx l T.
  destruct (attach_new st c k v p d x Hwf Hr Hnd Hc Hx)
    as (st1 & st2 & E1 & Hcell & E2 & Hr2 & Hnd2 & Hwf2 & Hn2 & Hoff2). fold l in E1, Hcell, E2, Hr2, Hnd2, Hn2, Hoff2.
  assert (Hfuel : (length c < fuel st2)%nat).
  { pose proof (tree_bound st2 _ Hwf2 Hr2 Hnd2). pose proof (path_length_bound c (Node l k v p Leaf Leaf)). lia. }
  destruct (rotate_up_spec c _ st2 l k v p Leaf Leaf s Hr2 Hnd2 Hs Hfuel) as (st3 & E3 & Hr3 & Hn3 & Hoff3).
  exists st1, st2, st3. do 3 (split; [done|]). split; [exact E3|]. split; [exact Hr3|].
  split; [by unfold T; rewrite rise_locs|].
  split; [|split; [rewrite Hn3, Hn2; unfold l; lia|split; [by eapply same_off_trans|]]].
  - eapply wf_off; [exact Hwf2|done|exact Hoff3|]. intros y Hy. apply (locs_repr _ _ y Hr2).
    rewrite locs_plug. cbn. apply elem_of_cons in Hy as [->|Hy]; [by left|right; by apply path_in_locsc].
  - unfold T in Hr3. destruct (rise_node c l k v p Leaf Leaf) as (c' & a & b & E). rewrite E in Hr3.
    apply repr_plug in Hr3 as [_ (Hc3 & _)]. eauto.
Qed.

(** ** The contract *)

Definition entry_size (e : list byte * list byte) : Z :=
  nodeFieldsSize + Z.of_nat (length e.1) + Z.of_nat (length e.2).
Definition total (es : list (list byte * list byte)) : Z := foldr (fun e z => entry_size e + z) 0 es.

(** The treap [t] is the tree [T] in the store. *)
Record treap_rep (st : store) (t : treap) (T : tree) : Prop := {
  tr_root : root t = ptr_of T;
  tr_repr : repr (cells st) T;
  tr_nodup : NoDup (locs T);
  tr_bst : bst T;
  tr_count : count t = i64 (Z.of_nat (length (elements T)));
  tr_size : totalSize t = u64 (total (elements T))
}.

Lemma total_app a b : total (a ++ b) = total a + total b.
Proof. unfold total. induction a as [|e a IH]; cbn [app foldr]; [done|]. rewrite IH. lia. Qed.

Lemma total_cons e es : total (e :: es) = entry_size e + total es.
Proof. done. Qed.

Lemma nodeSize_entry k v p a b : nodeSize (mkNode k v p a b) = u64 (entry_size (k, v)).
Proof.
  unfold nodeSize, entry_size, u64. cbn [key value fst snd]. rewrite Zplus_mod_idemp_r. f_equal. lia.
Qed.

Lemma u64_add a b : u64 (u64 a + b) = u64 (a + b).
Proof. apply Zplus_mod_idemp_l. Qed.
Lemma u64_add_r a b : u64 (a + u64 b) = u64 (a + b).
Proof. apply Zplus_mod_idemp_r. Qed.
Lemma u64_sub a b : u64 (u64 a - b) = u64 (a - b).
Proof. apply Zminus_mod_idemp_l. Qed.
Lemma u64_sub_r a b : u64 (a - u64 b) = u64 (a - b).
Proof. apply Zminus_mod_idemp_r. Qed.
Lemma i64_add a b : i64 (i64 a + b) = i64 (a + b).
Proof.
  unfold i64. f_equal. replace ((a + 2 ^ 63) mod 2 ^ 64 - 2 ^ 63 + b + 2 ^ 63) with ((a + 2 ^ 63) mod 2 ^ 64 + b) by lia.
  rewrite Zplus_mod_idemp_l. f_equal. lia.
Qed.

(** ** Entries in order *)

Abbreviation entries := (list (list byte * list byte)).

Definition sorted (es : entries) : Prop := StronglySorted klt (map fst es).

(** [es'] is [es] with the value of [k] set to [v]. *)
Definition put_in (k v : list byte) (es es' : entries) : Prop :=
  exists A B, below k A /\ above k B /\ es' = A ++ (k, v) :: B /\
  (es = A ++ B \/ exists old, es = A ++ (k, old) :: B).

(** [es'] is [es] without [k], which was there with the value [v]. *)
Definition deleted_from (k v : list byte) (es es' : entries) : Prop :=
  exists A B, es = A ++ (k, v) :: B /\ es' = A ++ B.

Lemma sorted_app A B : sorted (A ++ B) <-> sorted A /\ sorted B /\ forall a b, a ∈ A -> b ∈ B -> klt a.1 b.1.
Proof.
  unfold sorted. rewrite map_app, StronglySorted_app.
  split; intros (H & HA & HB).
  - split; [done|]. split; [done|]. intros a b Ha Hb. apply H; by apply list_elem_of_fmap_2.
  - split; [|done]. intros x y (a & -> & Ha)%list_elem_of_fmap (b & -> & Hb)%list_elem_of_fmap. by apply HB.
Qed.

Lemma sorted_insert A k v B : below k A -> above k B -> sorted (A ++ B) -> sorted (A ++ (k, v) :: B).
Proof.
  intros HA HB (SA & SB & Hab)%sorted_app. apply sorted_app. split; [done|]. split.
  - unfold sorted. cbn. constructor; [done|]. by rewrite Forall_map.
  - intros a b Ha [->|Hb]%elem_of_cons; [|by apply Hab]. unfold below in HA. rewrite list.Forall_forall in HA. by apply HA.
Qed.

Lemma sorted_remove A k v B : sorted (A ++ (k, v) :: B) -> sorted (A ++ B).
Proof.
  intros (SA & SB & Hab)%sorted_app. apply sorted_app. split; [done|].
  split; [by apply StronglySorted_inv in SB as [SB _]|]. intros a b Ha Hb. apply Hab; [done|by right].
Qed.

Lemma put_in_sorted k v es es' : sorted es -> put_in k v es es' -> sorted es'.
Proof.
  intros Hs (A & B & HA & HB & -> & [->|[old ->]]); [by apply sorted_insert|].
  apply sorted_insert; [done|done|by eapply sorted_remove].
Qed.

Lemma sorted_NoDup es : sorted es -> NoDup (es.*1).
Proof.
  unfold sorted. induction es as [|[k v] es IH]; cbn; [constructor|].
  intros [Hs Hk]%StronglySorted_inv. constructor; [|by apply IH].
  intros Hin. rewrite list.Forall_forall in Hk. by apply Hk, klt_irrefl in Hin.
Qed.

(** The map that the entries are. *)
Definition to_map (es : entries) : gmap (list byte) (list byte) := list_to_map es.

Lemma to_map_mid A k v B : sorted (A ++ (k, v) :: B) -> to_map (A ++ (k, v) :: B) = <[k := v]> (to_map (A ++ B)).
Proof.
  intros Hs%sorted_NoDup. unfold to_map.
  rewrite (list_to_map_proper (A ++ (k, v) :: B) ((k, v) :: A ++ B)); [done|done|].
  symmetry. apply Permutation_middle.
Qed.

Lemma to_map_without A k v B : sorted (A ++ (k, v) :: B) -> to_map (A ++ B) !! k = None.
Proof.
  intros Hs%sorted_NoDup. apply not_elem_of_list_to_map_1. rewrite <- Permutation_middle in Hs.
  by apply list.NoDup_cons in Hs as [Hni _].
Qed.

Lemma put_in_map k v es es' : sorted es -> put_in k v es es' -> to_map es' = <[k := v]> (to_map es).
Proof.
  intros Hs Hp. pose proof (put_in_sorted _ _ _ _ Hs Hp) as Hs'.
  destruct Hp as (A & B & HA & HB & -> & [->|[old ->]]); rewrite to_map_mid by done; [done|].
  rewrite (to_map_mid A k old B Hs). symmetry. apply insert_insert_eq.
Qed.

Lemma deleted_map k v es es' : sorted es -> deleted_from k v es es' ->
  to_map es' = delete k (to_map es) /\ to_map es !! k = Some v /\ sorted es'.
Proof.
  intros Hs (A & B & -> & ->). rewrite to_map_mid by done. split; [|split; [apply lookup_insert_eq|by eapply sorted_remove]].
  rewrite delete_insert_id; [done|by eapply to_map_without].
Qed.

(** ** The heap *)

Definition root_ge (q : Z) (t : tree) : Prop := match t with Leaf => True | Node _ _ _ p _ _ => q <= p end.

Fixpoint heap (t : tree) : Prop :=
  match t with
  | Leaf => True
  | Node _ _ _ p tl tr => root_ge p tl /\ root_ge p tr /\ heap tl /\ heap tr
  end.

Definition head_p (c : list frame) (q : Z) : Prop := match c with [] => True | f :: _ => f_p f <= q end.

Fixpoint heapc (c : list frame) : Prop :=
  match c with
  | [] => True
  | f :: c => root_ge (f_p f) (f_sib f) /\ heap (f_sib f) /\ head_p c (f_p f) /\ heapc c
  end.

Lemma heap_plug c : forall t, heap (plug c t) <->
  heapc c /\ heap t /\ match c with [] => True | f :: _ => root_ge (f_p f) t end.
Proof.
  induction c as [|f c IH]; intros t; cbn [plug heapc]; [tauto|]. rewrite IH. unfold plug1.
  destruct (f_left f), c as [|g c]; cbn [heap root_ge head_p]; tauto.
Qed.

Lemma root_ge_mono q q' t : q' <= q -> root_ge q t -> root_ge q' t.
Proof. destruct t; cbn; [done|lia]. Qed.

(** A new node rises without breaking the heap. *)
Lemma rise_heap c : forall l k v p tl tr, heapc c -> heap (Node l k v p tl tr) ->
  match c with [] => True | f :: _ => root_ge (f_p f) tl /\ root_ge (f_p f) tr end ->
  heap (rise c (Node l k v p tl tr)).
Proof.
  induction c as [|f c IH]; intros l k v p tl tr Hc Ht Hf; [done|]. cbn [rise].
  destruct (Z.leb_spec (f_p f) p); [by apply heap_plug|].
  destruct Hc as (Hs1 & Hs2 & Hh & Hc), Ht as (H1 & H2 & H3 & H4), Hf as [Hf1 Hf2].
  unfold rotate1. destruct (f_left f); apply IH; try done; cbn [heap root_ge];
    try (repeat split; done || lia); destruct c as [|g c]; try done; cbn [head_p] in Hh;
    first [split; [by eapply root_ge_mono|cbn; lia]|split; [cbn; lia|by eapply root_ge_mono]].
Qed.

Lemma similar_heapc c c' : similar c c' -> heapc c <-> heapc c'.
Proof.
  induction 1 as [|f g c c' (E1 & E2 & E3 & E4 & E5) Hc IH]; [done|]. cbn [heapc]. rewrite E4, E5, IH.
  enough (head_p c (f_p g) <-> head_p c' (f_p g)) by tauto.
  destruct Hc as [|f' g' ? ? (?&?&?&E&?)]; [done|]. cbn [head_p]. by rewrite E.
Qed.

Lemma similar_heap c c' t t' : similar c c' -> heap (plug c t) -> heap t' ->
  (forall q, root_ge q t -> root_ge q t') -> heap (plug c' t').
Proof.
  intros Hs (Hc & Ht & Hr)%heap_plug Ht' Hrr. apply heap_plug. split; [by apply (similar_heapc c)|]. split; [done|].
  destruct Hs as [|f g ? ? (?&?&?&E&?)]; [done|]. rewrite <- E. by apply Hrr.
Qed.

(** ** Put *)

(** What the search finds, for a tree with [k] in order. *)
Lemma locate_root k T : bst T -> let (c, t) := locate k [] T in
  T = plug c t /\ around k c /\ match t with Leaf => True | Node _ k' _ _ _ _ => k' = k end.
Proof.
  intros Hs. pose proof (locate_plug k T []) as Hp. pose proof (locate_found k T []) as Hf.
  pose proof (locate_around k T [] Hs) as Ha. destruct (locate k [] T) as [c t]. cbn [fst snd] in *.
  split; [done|]. split; [|done]. apply Ha. split; constructor.
Qed.

Lemma put_absent k v c : around k c -> put_in k v (before c ++ after c) (before c ++ (k, v) :: after c).
Proof. intros [Hb Ha]. exists (before c), (after c). eauto. Qed.

Lemma mid_assoc (a b c d : entries) x : a ++ (b ++ x :: c) ++ d = (a ++ b) ++ x :: (c ++ d).
Proof. rewrite <- !app_assoc. done. Qed.

Lemma put_present c l l' k old v p tl tr : bst (plug c (Node l k old p tl tr)) ->
  put_in k v (elements (plug c (Node l k old p tl tr))) (elements (plug c (Node l' k v p tl tr))).
Proof.
  intros Hs. unfold bst, keys in Hs. rewrite !elements_plug in *. cbn [elements] in *. rewrite !mid_assoc in *.
  apply sorted_mid in Hs as [Ha Hb]. exists (before c ++ elements tl), (elements tr ++ after c). eauto 10.
Qed.

(** The counters of a treap whose entries changed by one [Put]. *)
Lemma put_new_counters t es k v p a b c : count t = i64 (Z.of_nat (length es)) -> totalSize t = u64 (total es) ->
  es = before c ++ after c ->
  i64 (count t + 1) = i64 (Z.of_nat (length (before c ++ (k, v) :: after c))) /\
  u64 (totalSize t + nodeSize (mkNode k v p a b)) = u64 (total (before c ++ (k, v) :: after c)).
Proof.
  intros -> -> ->. rewrite nodeSize_entry, u64_add, u64_add_r, i64_add. split; f_equal.
  - rewrite !length_app. cbn [length]. lia.
  - rewrite !total_app. unfold total. cbn [foldr]. lia.
Qed.

Lemma put_old_counters t c l k old v p tl tr :
  count t = i64 (Z.of_nat (length (elements (plug c (Node l k old p tl tr))))) ->
  totalSize t = u64 (total (elements (plug c (Node l k old p tl tr)))) -> forall l',
  count t = i64 (Z.of_nat (length (elements (plug c (Node l' k v p tl tr))))) /\
  u64 (u64 (totalSize t - Z.of_nat (length old)) + Z.of_nat (length v))
    = u64 (total (elements (plug c (Node l' k v p tl tr)))).
Proof.
  intros -> -> l'. rewrite !elements_plug. cbn [elements]. rewrite !mid_assoc, u64_sub, u64_add.
  split; [by rewrite !length_app|]. f_equal.
  rewrite !total_app. unfold total. cbn [foldr]. unfold entry_size. cbn [fst snd]. lia.
Qed.

(** A treap of one node. *)
Lemma singleton_rep st k v p : wf st ->
  let st' := mkStore (<[next st := mkNode k v p None None]> (cells st)) (N.succ (next st)) in
  wf st' /\ extends st st' /\
  treap_rep st' (mkTreap (Some (next st)) 1 (nodeSize (mkNode k v p None None))) (Node (next st) k v p Leaf Leaf).
Proof.
  intros Hwf st'. split; [|split].
  - intros x n. cbn [st' cells next]. rewrite lookup_insert. case_decide; [subst; lia|]. intros Hx%Hwf. lia.
  - split; [cbn; lia|]. intros x Hx. apply lookup_insert_ne. lia.
  - split; try done.
    + split; [apply lookup_insert_eq|done].
    + apply NoDup_singleton.
    + repeat constructor.
    + rewrite nodeSize_entry. cbn. f_equal. lia.
Qed.

Lemma empty_root t st T : treap_rep st t T -> root t = None -> T = Leaf.
Proof. intros Ht. rewrite (tr_root _ _ _ Ht). by destruct T. Qed.

(** The result of a [Put]: the entries, and the heap order. *)
Definition put_result (k v : list byte) (st' : store) (t' : treap) (T T' : tree) : Prop :=
  wf st' /\ treap_rep st' t' T' /\ put_in k v (elements T) (elements T') /\ (heap T -> heap T').

Lemma put_result_intro k v st' t' T T' : wf st' -> root t' = ptr_of T' -> repr (cells st') T' -> NoDup (locs T') ->
  bst T -> put_in k v (elements T) (elements T') -> (heap T -> heap T') ->
  count t' = i64 (Z.of_nat (length (elements T'))) -> totalSize t' = u64 (total (elements T')) ->
  put_result k v st' t' T T'.
Proof.
  intros Hwf Hroot Hr Hnd Hs Hp Hh Hc Hz. split; [done|]. split; [|done].
  split; try done. by eapply put_in_sorted.
Qed.

Lemma rise_heap_new c l k v p : heap (plug c Leaf) -> heap (rise c (Node l k v p Leaf Leaf)).
Proof. intros (Hc & _ & _)%heap_plug. apply rise_heap; [done|done|]. by destruct c. Qed.

(** The key was absent: the new node has been attached below a path like the one
    of the search, and has risen. *)
Lemma put_absent_result st' t rt c c0 l k v p a b : similar c c0 -> around k c0 ->
  bst (plug c0 Leaf) -> count t = i64 (Z.of_nat (length (elements (plug c0 Leaf)))) ->
  totalSize t = u64 (total (elements (plug c0 Leaf))) ->
  let T' := rise c (Node l k v p Leaf Leaf) in
  wf st' -> repr (cells st') T' -> NoDup (locs T') -> rt = ptr_of T' ->
  put_result k v st' (mkTreap rt (i64 (count t + 1)) (u64 (totalSize t + nodeSize (mkNode k v p a b)))) (plug c0 Leaf) T'.
Proof.
  intros Hsim Hard Hs Hcount Hsize T' Hwf Hr Hnd Hrt.
  assert (Hb := similar_before _ _ Hsim). assert (Ha := similar_after _ _ Hsim).
  rewrite elements_plug in Hcount, Hsize. cbn [elements app] in Hcount, Hsize.
  destruct (put_new_counters t _ k v p a b c0 Hcount Hsize eq_refl) as [Hc' Hz'].
  assert (He : elements T' = before c0 ++ (k, v) :: after c0)
    by (unfold T'; rewrite rise_elements, elements_plug; cbn [elements app]; by rewrite Hb, Ha).
  apply put_result_intro; rewrite ?He; try done.
  - rewrite elements_plug. by apply put_absent.
  - intros Hh. apply rise_heap_new. eapply similar_heap; [symmetry; exact Hsim|done|done|done].
Qed.

(** The key was there: its value has been replaced. *)
Lemma put_present_result st' t rt c c0 l l' k old v p tl tr : similar c c0 ->
  let T := plug c0 (Node l k old p tl tr) in let T' := plug c (Node l' k v p tl tr) in
  bst T -> count t = i64 (Z.of_nat (length (elements T))) -> totalSize t = u64 (total (elements T)) ->
  wf st' -> repr (cells st') T' -> NoDup (locs T') -> rt = ptr_of T' ->
  put_result k v st' (mkTreap rt (count t)
    (u64 (u64 (totalSize t - Z.of_nat (length old)) + Z.of_nat (length v)))) T T'.
Proof.
  intros Hsim T T' Hs Hcount Hsize Hwf Hr Hnd Hrt.
  destruct (put_old_counters t c0 l k old v p tl tr Hcount Hsize l') as [Hc' Hz'].
  assert (He : elements T' = elements (plug c0 (Node l' k v p tl tr)))
    by (unfold T'; rewrite !elements_plug; by rewrite (similar_before _ _ Hsim), (similar_after _ _ Hsim)).
  apply put_result_intro; rewrite ?He; try done.
  - by apply put_present.
  - intros Hh. eapply similar_heap; [symmetry; exact Hsim|exact Hh| |done]. by apply heap_plug in Hh as (_ & Hh & _).
Qed.

(** [Put] on an empty treap. *)
Lemma put_empty_result st k v p : wf st ->
  let n := mkNode k v p None None in
  let st' := mkStore (<[next st := n]> (cells st)) (N.succ (next st)) in
  extends st st' /\
  put_result k v st' (mkTreap (Some (next st)) 1 (nodeSize n)) Leaf (Node (next st) k v p Leaf Leaf).
Proof.
  intros Hwf n st'. destruct (singleton_rep st k v p Hwf) as (Hwf' & Hext & Hrep).
  split; [done|]. split; [done|]. split; [exact Hrep|]. split; [|done].
  exists [], []. split; [constructor|]. split; [constructor|]. eauto.
Qed.

Lemma nonempty_path c rl : Some rl = ptr_of (plug c Leaf) -> c <> [].
Proof. by intros H ->. Qed.

Lemma Immutable_Put_spec st t T k v p : wf st -> treap_rep st t T ->
  exists t' st' T', Immutable_Put st t k v p = Ok (t', st') /\ put_result k (or_emptySlice v) st' t' T T' /\ extends st st'.
Proof.
  intros Hwf Ht. unfold Immutable_Put. set (w := or_emptySlice v).
  destruct (root t) as [rl|] eqn:Er.
  2: { rewrite (empty_root _ _ _ Ht Er). cbn. rewrite lookup_insert_eq. cbn.
       destruct (put_empty_result st k w p Hwf). eauto 10. }
  destruct Ht as [Hroot Hr Hnd Hs Hcount Hsize]. rewrite Er in Hroot. rewrite Hroot.
  destruct (clone_path_spec st k w T (fuel st) st [] empty_stack 0 0) as (st1 & s1 & r & c & E & Hcl);
    [done|done|done|apply stacks_empty|done|constructor|by apply tree_bound|done|].
  rewrite E. cbn [rbind]. pose proof (locate_root k T Hs) as Hloc. destruct (locate k [] T) as [c0 t0].
  cbn [fst snd] in Hcl. destruct Hloc as (-> & Hard & Hkey). destruct Hcl as [Hwf1 Hext1 Hfr Hsim Hend].
  destruct t0 as [|l k' old p' tl tr].
  - destruct Hend as (x & -> & Hst & Hside & Hr1 & Hnd1).
    assert (Hne : c <> []) by (apply nonempty_path in Hroot; intros ->; by apply Forall2_nil_inv_l in Hsim).
    destruct (insert_new st1 c s1 k w p 0 x Hwf1 Hr1 Hnd1 Hne Hst Hside)
      as (st2 & st3 & st4 & -> & Hcell & E2 & E3 & Hr4 & Hnd4 & Hwf4 & Hn4 & Hoff4 & a & b & Hcell4).
    rewrite (At_head _ _ Hst). cbn [rbind]. rewrite E2. cbn [rbind].
    rewrite (At_root _ _ (Some (next st1)) Hst Hne). cbn [rbind]. rewrite E3. cbn [rbind].
    rewrite (load_cell _ _ _ Hcell4). cbn [rbind].
    eexists _, _, _. split; [done|]. split; [by apply put_absent_result|].
    eapply extends_off; [exact Hext1|lia|exact Hoff4|]. destruct Hext1 as [Hle _].
    intros y [->|Hy]%elem_of_cons; [done|]. unfold fresh_path in Hfr. rewrite list.Forall_forall in Hfr. by apply Hfr.
  - destruct Hend as (lc & -> & Hst & Hr1 & Hnd1). subst k'.
    change (lc :: path c) with (path (mkFrame true lc k w p' Leaf :: c)) in Hst.
    rewrite (At_root _ _ None Hst) by done. cbn [rbind top f_loc].
    eexists _, _, (plug c (Node lc k w p' tl tr)). split; [done|]. split; [|done].
    apply put_present_result; try done. by rewrite ptr_of_plug.
Qed.

Lemma Mutable_Put_spec st t T k v p : wf st -> treap_rep st t T ->
  exists t' st' T', Mutable_Put st t k v p = Ok (t', st') /\ put_result k (or_emptySlice v) st' t' T T' /\
  same_off (next st :: locs T) st st'.
Proof.
  intros Hwf Ht. unfold Mutable_Put. set (w := or_emptySlice v).
  destruct (root t) as [rl|] eqn:Er.
  2: { rewrite (empty_root _ _ _ Ht Er). cbn. rewrite lookup_insert_eq. cbn.
       destruct (put_empty_result st k w p Hwf) as [_ Hput].
       eexists _, _, _. split; [done|]. split; [exact Hput|]. intros x Hx. apply lookup_insert_ne.
       intros <-. apply Hx. by left. }
  destruct Ht as [Hroot Hr Hnd Hs Hcount Hsize]. rewrite Er in Hroot. rewrite Hroot.
  destruct (put_path_spec k T (fuel st) st [] empty_stack 0 0) as (s1 & x & E & Hst & Hside);
    [done|apply stacks_empty|by apply tree_bound|done|].
  rewrite E. cbn [rbind]. pose proof (locate_root k T Hs) as Hloc. destruct (locate k [] T) as [c0 t0].
  cbn [fst snd] in *. destruct Hloc as (-> & Hard & Hkey).
  assert (Hsim : similar c0 c0) by reflexivity.
  destruct t0 as [|l k' old p' tl tr]; cbn [found_path] in Hst.
  - assert (Hne : c0 <> []) by (by apply nonempty_path in Hroot).
    destruct (insert_new st c0 s1 k w p 0 x Hwf Hr Hnd Hne Hst Hside)
      as (st2 & st3 & st4 & -> & Hcell & E2 & E3 & Hr4 & Hnd4 & Hwf4 & Hn4 & Hoff4 & a & b & Hcell4).
    rewrite (load_cell _ _ _ Hcell). cbn [rbind]. rewrite (At_head _ _ Hst). cbn [rbind]. rewrite E2. cbn [rbind].
    assert (Htop : top c0 (Some (next st)) = ptr_of (plug c0 Leaf)) by (rewrite ptr_of_plug; by destruct c0).
    rewrite <- Htop, E3. cbn [rbind].
    eexists _, _, _. split; [done|]. split; [by apply put_absent_result|].
    eapply same_off_mono; [|exact Hoff4]. intros y [->|Hy]%elem_of_cons; [by left|right].
    rewrite locs_plug. cbn. by apply path_in_locsc.
  - subst k'. pose proof Hr as Hr'. apply repr_plug in Hr' as [_ (Hl & _)]. cbn [ptr_of].
    rewrite (load_cell _ _ _ Hl). cbn [rbind value].
    destruct (update_value st c0 l k old p' tl tr w Hr Hnd) as (st' & -> & Hr' & Hn' & Hoff' & Hnd' & Hwf').
    cbn [rbind]. eexists _, _, (plug c0 (Node l k w p' tl tr)). split; [done|]. split.
    + apply put_present_result; try done; [by apply Hwf'|]. by rewrite !ptr_of_plug.
    + eapply same_off_mono; [|exact Hoff']. intros y [->|Hy%elem_of_nil]%elem_of_cons; [right|done].
      rewrite locs_plug. by left.
Qed.

(** ** Delete *)

(** Both treaps end by rotating the node down and unlinking it. *)
Lemma remove_node (copy : bool) st c l k v p tl tr :
  wf st -> repr (cells st) (plug c (Node l k v p tl tr)) -> NoDup (locs (plug c (Node l k v p tl tr))) ->
  c <> [] \/ tl <> Leaf \/ tr <> Leaf ->
  exists st1 st2 c' rt parent,
  rotate_down copy (fuel st) st (top c (Some l)) (Some l) (head (path c)) = Ok (st1, rt, parent) /\
  unlink st1 (Some l) parent = Ok st2 /\ cells st2 !! l = Some (mkNode k v p None None) /\
  rt = ptr_of (plug c' Leaf) /\ wf st2 /\ repr (cells st2) (plug c' Leaf) /\ NoDup (locs (plug c' Leaf)) /\
  elements (plug c' Leaf) = (before c ++ elements tl) ++ (elements tr ++ after c) /\ (next st <= next st2)%N /\
  forall x, (x < next st)%N -> x ∉ l :: path c -> ~ taken copy st tl tr x -> cells st2 !! x = cells st !! x.
Proof.
  intros Hwf Hr Hnd Hne.
  destruct (rotate_down_spec copy (fuel st) c st l k v p tl tr Hwf Hr Hnd)
    as (st1 & c' & E & Hwf1 & Hr1 & Hnd1 & Hb & Ha & Hn1 & Hoff & Hpath & Hc').
  { pose proof (tree_bound st _ Hwf Hr Hnd) as Hlt. pose proof (path_length_bound c (Node l k v p tl tr)) as Hle.
    cbn [locs length] in Hle. rewrite length_app in Hle. lia. }
  specialize (Hc' Hne). destruct c' as [|f c']; [done|].
  destruct (unlink_spec st1 f c' l k v p Hr1 Hnd1) as (st2 & E2 & Hr2 & Hn2 & Hoff2 & Hlf).
  exists st1, st2, (f :: c'). eexists _, _. split; [exact E|]. split; [exact E2|].
  apply repr_plug in Hr1 as [(Hf & Hrest) (Hl & _)].
  split; [rewrite Hoff2; [exact Hl|intros [->|H%elem_of_nil]%elem_of_cons; done]|].
  split; [by rewrite ptr_of_plug|]. split; [|split; [done|split; [|split; [|split; [lia|]]]]].
  - eapply wf_off; [exact Hwf1|done|exact Hoff2|]. intros y [->|H%elem_of_nil]%elem_of_cons; [by eauto|done].
  - rewrite locs_plug in Hnd1 |- *. cbn in Hnd1 |- *. by apply list.NoDup_cons in Hnd1 as [_ Hnd1].
  - rewrite elements_plug. cbn [elements app]. by rewrite Hb, Ha.
  - intros x Hx Hni Ht. rewrite Hoff2.
    + apply Hoff; [done| |].
      * apply not_elem_of_cons in Hni as [H1 H2]. apply not_elem_of_cons. split; [done|].
        intros H. by apply H2, elem_of_take1.
      * unfold taken in Ht. destruct copy; [by left|by right].
    + intros [->|H%elem_of_nil]%elem_of_cons; [|done].
      destruct (Hpath (f_loc f)) as [H|H]; [by left| |done]. by apply not_elem_of_cons in Hni as [_ Hni].
Qed.

Lemma plug_app c c' t : plug (c ++ c') t = plug c' (plug c t).
Proof. revert t. induction c as [|f c IH]; intros t; [done|]. apply IH. Qed.

Definition reloc (l : N) (f : frame) : frame := mkFrame (f_left f) l (f_k f) (f_v f) (f_p f) (f_sib f).

Lemma path_app c c' : path (c ++ c') = path c ++ path c'.
Proof. apply map_app. Qed.

(** Cloning the rest of the path [c] below the clones [c'] of its upper part [u]. *)
Lemma clone_parents_spec st0 l k v p tl tr c : forall st s s' u c',
  wf st -> repr (cells st) (plug c' (plug c (Node l k v p tl tr))) ->
  NoDup (locs (plug c' (plug c (Node l k v p tl tr)))) ->
  stacks s (l :: path (c ++ u)) -> stacks s' (path c') -> extends st0 st -> fresh_path st0 c' ->
  exists st' s'' c'' l', clone_parents (S (length c)) st s s' = Ok (st', s'') /\
  stacks s'' (l' :: path c'') /\ similar c'' (c ++ c') /\ (next st0 <= l')%N /\ fresh_path st0 c'' /\
  wf st' /\ repr (cells st') (plug c'' (Node l' k v p tl tr)) /\ NoDup (locs (plug c'' (Node l' k v p tl tr))) /\
  extends st0 st'.
Proof.
  induction c as [|f c IH] using rev_ind; intros st s s' u c' Hwf Hr Hnd Hs Hs' Hext Hfp.
  - cbn [clone_parents length]. cbn [plug] in Hr, Hnd. change (Z.of_nat 0) with 0.
    destruct (clone_step st c' l k v p tl tr Hwf Hr Hnd) as (st1 & st2 & E1 & E2 & Hwf2 & Hr2 & Hnd2 & Hn2 & Hoff2).
    rewrite (At_head _ _ Hs). cbn [rbind head]. rewrite E1. cbn [rbind]. rewrite (At_head _ _ Hs'). cbn [rbind].
    rewrite E2. cbn [rbind]. destruct (Push_spec _ _ (next st) Hs') as (s'' & -> & Hs''). cbn [rbind].
    exists st2, s'', c', (next st). destruct Hext as [Hle Hsame]. do 2 (split; [done|]). split; [reflexivity|].
    do 5 (split; [done|]). eapply extends_off; [split; [exact Hle|exact Hsame]|lia|exact Hoff2|].
    intros y [->|Hy]%elem_of_cons; [done|by eapply fresh_take].
  - rewrite plug_app in Hr, Hnd. cbn [plug] in Hr, Hnd. rewrite length_app, Nat.add_1_r.
    assert (Hat : At s (Z.of_nat (S (length c))) = Ok (Some (f_loc f))).
    { rewrite (At_lookup _ _ _ Hs). f_equal. change (path ((c ++ [f]) ++ u) !! length c = Some (f_loc f)).
      unfold path. rewrite !map_app, <- app_assoc, lookup_app_r; rewrite length_map; [|done].
      by rewrite Nat.sub_diag. }
    cbn [clone_parents]. rewrite Hat. cbn [rbind].
    assert (Hstep : exists st1 st2, cloneTreapNode st (Some (f_loc f)) = Ok (Some (next st), st1) /\
      link_clone st1 (head (path c')) (Some (f_loc f)) (Some (next st)) = Ok st2 /\ wf st2 /\
      repr (cells st2) (plug (reloc (next st) f :: c') (plug c (Node l k v p tl tr))) /\
      NoDup (locs (plug (reloc (next st) f :: c') (plug c (Node l k v p tl tr)))) /\
      next st2 = N.succ (next st) /\ same_off (next st :: take 1 (path c')) st st2).
    { cbn [plug]. unfold plug1, reloc in *. cbn [f_left f_loc f_k f_v f_p f_sib].
      destruct (f_left f); by apply clone_step. }
    destruct Hstep as (st1 & st2 & E1 & E2 & Hwf2 & Hr2 & Hnd2 & Hn2 & Hoff2).
    rewrite E1. cbn [rbind]. rewrite (At_head _ _ Hs'). cbn [rbind]. rewrite E2. cbn [rbind].
    destruct (Push_spec _ _ (next st) Hs') as (s'' & -> & Hs''). cbn [rbind].
    rewrite <- app_assoc in Hs. destruct Hext as [Hle Hsame].
    destruct (IH st2 s s'' ([f] ++ u) (reloc (next st) f :: c')) as (st3 & s3 & c3 & l3 & E3 & Hs3 & Hsim & Hrest);
      [done|done|done|done|done| |by constructor|].
    { eapply extends_off; [split; [exact Hle|exact Hsame]|lia|exact Hoff2|].
      intros y [->|Hy]%elem_of_cons; [done|by eapply fresh_take]. }
    exists st3, s3, c3, l3. split; [exact E3|]. split; [done|]. split; [|exact Hrest].
    rewrite Hsim, <- app_assoc. apply Forall2_app; [reflexivity|]. constructor; [done|reflexivity].
Qed.

Definition del_in (k : list byte) (es es' : entries) : Prop :=
  ((k ∉ es.*1) /\ es' = es) \/ exists v, deleted_from k v es es'.

Lemma del_in_map k es es' : sorted es -> del_in k es es' -> to_map es' = delete k (to_map es) /\ sorted es'.
Proof.
  intros Hs [[Hni ->]|[v Hd]].
  - split; [|done]. symmetry. apply delete_id, not_elem_of_list_to_map_1. done.
  - by destruct (deleted_map k v es es' Hs Hd) as (? & _ & ?).
Qed.

Lemma around_absent k c : around k c -> k ∉ (elements (plug c Leaf)).*1.
Proof.
  intros [Hb Ha] Hin. rewrite elements_plug, fmap_app, elem_of_app in Hin. cbn [elements app] in Hin.
  unfold below, above in *. rewrite list.Forall_forall in Hb, Ha.
  destruct Hin as [([k' v'] & -> & Hin)%list_elem_of_fmap|([k' v'] & -> & Hin)%list_elem_of_fmap].
  - by apply Hb, klt_irrefl in Hin.
  - by apply Ha, klt_irrefl in Hin.
Qed.

Definition delete_result (k : list byte) (st' : store) (t' : treap) (T : tree) : Prop :=
  wf st' /\ exists T', treap_rep st' t' T' /\ del_in k (elements T) (elements T').

(** The node was found and unlinked: [c'] is what is left around it. *)
Lemma delete_found_result st' t rt k v p T' c l tl tr :
  let T := plug c (Node l k v p tl tr) in
  bst T -> count t = i64 (Z.of_nat (length (elements T))) -> totalSize t = u64 (total (elements T)) ->
  wf st' -> repr (cells st') T' -> NoDup (locs T') -> rt = ptr_of T' ->
  elements T' = (before c ++ elements tl) ++ (elements tr ++ after c) ->
  delete_result k st' (mkTreap rt (i64 (count t - 1)) (u64 (totalSize t - nodeSize (mkNode k v p None None)))) T.
Proof.
  intros T Hs Hcount Hsize Hwf Hr Hnd Hrt He. split; [done|]. exists T'.
  assert (HT : elements T = (before c ++ elements tl) ++ (k, v) :: (elements tr ++ after c))
    by (unfold T; rewrite elements_plug; cbn [elements]; apply mid_assoc).
  assert (Hd : deleted_from k v (elements T) (elements T')) by (rewrite HT, He; by eexists _, _).
  split; [|right; by exists v].
  split; try done; cbn [root count totalSize].
  - unfold bst, keys. fold (sorted (elements T')). by destruct (deleted_map k v _ _ Hs Hd) as (_ & _ & ?).
  - rewrite Hcount, He, HT, <- Z.add_opp_r, i64_add. f_equal. rewrite !length_app. cbn [length]. rewrite length_app. lia.
  - rewrite Hsize, nodeSize_entry, u64_sub, u64_sub_r, He, HT. f_equal. rewrite !total_app, total_cons, total_app. lia.
Qed.

Lemma empty_rep st k v p l : wf st -> delete_result k st empty_treap (plug [] (Node l k v p Leaf Leaf)).
Proof.
  intros Hwf. split; [done|]. exists Leaf. split; [by split; try done; constructor|].
  right. exists v, [], []. done.
Qed.

Lemma leaf_root c l k v p tl tr : only_node (head (path c)) (mkNode k v p (ptr_of tl) (ptr_of tr)) = true ->
  c = [] /\ plug c (Node l k v p tl tr) = plug [] (Node l k v p Leaf Leaf).
Proof. by destruct c, tl, tr. Qed.

Lemma not_leaf_root c k v p tl tr : only_node (head (path c)) (mkNode k v p (ptr_of tl) (ptr_of tr)) = false ->
  c <> [] \/ tl <> Leaf \/ tr <> Leaf.
Proof. destruct c; [|by left]. destruct tl; [|naive_solver]. destruct tr; [done|naive_solver]. Qed.

Lemma Mutable_Delete_spec st t T k : wf st -> treap_rep st t T ->
  exists t' st', Mutable_Delete st t k = Ok (t', st') /\ delete_result k st' t' T /\
  (forall x, (x < next st)%N -> x ∉ locs T -> cells st' !! x = cells st !! x).
Proof.
  intros Hwf Ht. pose proof Ht as [Hroot Hr Hnd Hs Hcount Hsize]. unfold Mutable_Delete, get. rewrite Hroot.
  pose proof (get_loop_spec k T (fuel st) st [] Hr (tree_bound _ _ Hwf Hr Hnd)) as E. cbn [path map head] in E.
  rewrite E. cbn [rbind]. pose proof (locate_root k T Hs) as Hloc. destruct (locate k [] T) as [c t0].
  destruct Hloc as (-> & Hard & Hkey). destruct t0 as [|l k' v p tl tr]; cbn [ptr_of].
  { exists t, st. split; [done|]. split; [|done]. split; [done|]. exists (plug c Leaf). split; [done|].
    left. split; [by apply around_absent|done]. }
  subst k'. pose proof Hr as Hr'. apply repr_plug in Hr' as [_ (Hl & _)]. rewrite (load_cell _ _ _ Hl). cbn [rbind].
  destruct (only_node _ _) eqn:Eleaf.
  { destruct (leaf_root c l k v p tl tr Eleaf) as [_ ->]. exists empty_treap, st. split; [done|].
    split; [by apply empty_rep|done]. }
  destruct (remove_node false st c l k v p tl tr Hwf Hr Hnd (not_leaf_root _ _ _ _ _ _ Eleaf))
    as (st1 & st2 & c' & rt & parent & E1 & E2 & Hl2 & Hrt & Hwf2 & Hr2 & Hnd2 & He & Hn2 & Hoff).
  rewrite ptr_of_plug. cbn [ptr_of]. rewrite E1. cbn [rbind]. rewrite E2. cbn [rbind].
  rewrite (load_cell _ _ _ Hl2). cbn [rbind]. eexists _, _. split; [done|].
  split; [by eapply delete_found_result|].
  intros x Hx Hni. rewrite locs_plug in Hni. cbn in Hni. rewrite not_elem_of_cons, not_elem_of_app in Hni.
  destruct Hni as (H1 & H2 & H3). apply Hoff; [done| |exact H2].
  apply not_elem_of_cons. split; [done|]. intros H. by apply H3, path_in_locsc.
Qed.

(** At the root the first rotation replaces the root anyway. *)
Lemma rotate_down_root (copy : bool) n st rt rt' l k v p tl tr :
  cells st !! l = Some (mkNode k v p (ptr_of tl) (ptr_of tr)) -> tl <> Leaf \/ tr <> Leaf ->
  rotate_down copy (S n) st rt (Some l) None = rotate_down copy (S n) st rt' (Some l) None.
Proof.
  intros Hl Hne. rewrite !(rotate_down_unfold _ _ _ _ _ _ _ (load_cell _ _ _ Hl)); [done|..];
    (destruct tl, tr; cbn; naive_solver).
Qed.

(** newRoot, which is not used when the root itself is deleted. *)
Lemma root_of_path s c l : stacks s (path c) ->
  exists rt, At s (Len s - 1) = Ok rt /\ (c <> [] -> rt = top c (Some l)).
Proof.
  intros Hs. destruct c as [|f c].
  - destruct Hs as [Hi Hl _]. unfold At, Len. rewrite Hi. cbn. unfold at_index. cbn.
    destruct (items s) as [|q qs]; [done|]. by exists q.
  - exists (top (f :: c) (Some l)). split; [by apply At_root|done].
Qed.

Lemma remove_from_path copy st s c l k v p tl tr : wf st -> repr (cells st) (plug c (Node l k v p tl tr)) ->
  c <> [] \/ tl <> Leaf \/ tr <> Leaf -> stacks s (path c) ->
  exists rt, At s (Len s - 1) = Ok rt /\
  rotate_down copy (fuel st) st rt (Some l) (head (path c)) =
  rotate_down copy (fuel st) st (top c (Some l)) (Some l) (head (path c)).
Proof.
  intros Hwf Hr Hne Hs. destruct (root_of_path s c l Hs) as (rt & E & Hrt). exists rt. split; [done|].
  destruct c as [|f c]; [|by rewrite Hrt]. destruct Hr as (Hl & _). destruct Hne as [?|Hne]; [done|].
  by eapply rotate_down_root.
Qed.

Lemma Immutable_Delete_spec st t T k : wf st -> treap_rep st t T ->
  exists t' st', Immutable_Delete st t k = Ok (t', st') /\ delete_result k st' t' T /\ extends st st'.
Proof.
  intros Hwf Ht. pose proof Ht as [Hroot Hr Hnd Hs Hcount Hsize]. unfold Immutable_Delete. rewrite Hroot.
  destruct (find_path_spec k T (fuel st) st [] empty_stack Hr stacks_empty (tree_bound _ _ Hwf Hr Hnd))
    as (s & -> & Hst). cbn [rbind].
  pose proof (locate_root k T Hs) as Hloc. destruct (locate k [] T) as [c t0]. cbn [fst snd] in *.
  destruct Hloc as (-> & Hard & Hkey). destruct t0 as [|l k' v p tl tr]; cbn [ptr_of found_path] in *.
  { exists t, st. split; [done|]. split; [|done]. split; [done|]. exists (plug c Leaf). split; [done|].
    left. split; [by apply around_absent|done]. }
  subst k'. pose proof Hr as Hr'. apply repr_plug in Hr' as [_ (Hl & _)].
  assert (Hat : At s 1 = Ok (head (path c))).
  { change 1 with (Z.of_nat 1). rewrite (At_lookup _ _ _ Hst). by destruct c. }
  rewrite Hat. cbn [rbind]. rewrite (load_cell _ _ _ Hl). cbn [rbind].
  destruct (only_node _ _) eqn:Eleaf.
  { destruct (leaf_root c l k v p tl tr Eleaf) as [_ ->]. exists empty_treap, st. split; [done|].
    split; [by apply empty_rep|done]. }
  rewrite (Len_spec _ _ Hst). cbn [length]. rewrite Nat2Z.id. unfold path at 1. rewrite length_map.
  destruct (clone_parents_spec st l k v p tl tr c st s empty_stack [] [])
    as (st1 & s1 & c1 & l1 & -> & Hs1 & Hsim & Hl1 & Hfp1 & Hwf1 & Hr1 & Hnd1 & Hext1);
    [done|done|done|by rewrite app_nil_r|apply stacks_empty|done|constructor|].
  cbn [rbind]. rewrite app_nil_r in Hsim. destruct (Pop_cons _ _ (path c1) Hs1) as (s2 & -> & Hs2). cbn [rbind].
  rewrite (At_head _ _ Hs2). cbn [rbind].
  assert (Hne1 : c1 <> [] \/ tl <> Leaf \/ tr <> Leaf).
  { destruct (not_leaf_root _ _ _ _ _ _ Eleaf) as [Hc|Htt]; [left|by right]. intros ->.
    by apply Forall2_nil_inv_l in Hsim. }
  destruct (remove_node true st1 c1 l1 k v p tl tr Hwf1 Hr1 Hnd1 Hne1)
    as (st3 & st4 & c' & rt & parent & E1 & E2 & Hl4 & Hrt & Hwf4 & Hr4 & Hnd4 & He & Hn4 & Hoff).
  destruct (remove_from_path true st1 s2 c1 l1 k v p tl tr Hwf1 Hr1 Hne1 Hs2) as (rt0 & -> & E0). cbn [rbind].
  rewrite E0, E1. cbn [rbind]. rewrite E2. cbn [rbind]. rewrite (load_cell _ _ _ Hl4). cbn [rbind].
  eexists _, _. split; [done|]. rewrite (similar_before _ _ Hsim), (similar_after _ _ Hsim) in He.
  split; [by eapply delete_found_result|].
  destruct Hext1 as [Hle Hsame]. split; [lia|]. intros x Hx. rewrite Hoff; [by apply Hsame|lia| |cbn; lia].
  unfold fresh_path in Hfp1. rewrite list.Forall_forall in Hfp1.
  intros [->|Hin%Hfp1]%elem_of_cons; lia.
Qed.

(** ** Reading *)

Lemma Get_spec st t T k : wf st -> treap_rep st t T -> Get st t k = Ok (to_map (elements T) !! k).
Proof.
  intros Hwf [Hroot Hr Hnd Hs _ _]. unfold Get, get. rewrite Hroot.
  pose proof (get_loop_spec k T (fuel st) st [] Hr (tree_bound _ _ Hwf Hr Hnd)) as E. cbn [path map head] in E.
  rewrite E. cbn [rbind]. pose proof (locate_root k T Hs) as Hloc. destruct (locate k [] T) as [c t0].
  destruct Hloc as (-> & Hard & Hkey). destruct t0 as [|l k' v p tl tr]; cbn [ptr_of].
  - f_equal. symmetry. apply not_elem_of_list_to_map_1. by apply around_absent.
  - subst k'. apply repr_plug in Hr as [_ (Hl & _)]. rewrite (load_cell _ _ _ Hl). cbn [rbind value]. f_equal. symmetry.
    unfold bst, keys in Hs. fold (sorted (elements (plug c (Node l k v p tl tr)))) in Hs.
    rewrite elements_plug in *. cbn [elements] in *. rewrite mid_assoc in *. rewrite to_map_mid by done.
    apply lookup_insert_eq.
Qed.

Lemma Has_spec st t T k : wf st -> treap_rep st t T ->
  Has st t k = Ok (bool_decide (to_map (elements T) !! k <> None)).
Proof.
  intros Hwf Ht. pose proof (Get_spec st t T k Hwf Ht) as Hg. unfold Get, Has in *.
  destruct (get st t k) as [[node parent]| |]; [|done|done]. cbn [rbind] in *. f_equal. apply bool_decide_ext.
  destruct node as [l|]; [|by injection Hg as <-].
  destruct (load st (Some l)); [|done|done]. cbn [rbind] in Hg. injection Hg as <-. done.
Qed.

(** The callback on the entries in order, until it returns false. *)
Fixpoint visit {A} (fn : list byte -> list byte -> A -> bool * A) (es : entries) (a : A) : A :=
  match es with
  | [] => a
  | (k, v) :: es => let (continue, a) := fn k v a in if continue then visit fn es a else a
  end.

(** The nodes on the left spine, whose right subtrees are still to be visited. *)
Fixpoint left_spine (t : tree) (c : list frame) : list frame :=
  match t with Leaf => c | Node l k v p tl tr => left_spine tl (mkFrame true l k v p tr :: c) end.

Definition spine_ok (st : store) (f : frame) : Prop :=
  f_left f = true /\ repr (cells st) (f_sib f) /\ (length (locs (f_sib f)) < fuel st)%nat /\
  exists q, cells st !! f_loc f = Some (mkNode (f_k f) (f_v f) (f_p f) q (ptr_of (f_sib f))).

Lemma left_spine_after t : forall c, after (left_spine t c) = elements t ++ after c.
Proof.
  induction t as [|l k v p tl IHl tr IHr]; intros c; cbn [left_spine elements]; [done|].
  rewrite IHl. cbn [after f_left f_k f_v f_sib]. rewrite <- app_assoc. done.
Qed.

Lemma push_left_spec st t : forall n s c, repr (cells st) t -> stacks s (path c) ->
  Forall (spine_ok st) c -> (length (locs t) < n)%nat -> (length (locs t) < fuel st)%nat ->
  exists s', push_left n st (ptr_of t) s = Ok s' /\ stacks s' (path (left_spine t c)) /\
  Forall (spine_ok st) (left_spine t c).
Proof.
  induction t as [|l k v p tl IHl tr IHr]; intros n s c Hr Hs Hc Hn Hf; (destruct n as [|n]; [lia|]); [by exists s|].
  cbn [push_left ptr_of left_spine]. destruct Hr as (Hl & Htl & Htr).
  destruct (Push_spec _ _ l Hs) as (s' & -> & Hs'). cbn [rbind]. rewrite (load_cell _ _ _ Hl). cbn [rbind left].
  cbn [locs length] in Hn, Hf. rewrite length_app in Hn, Hf. apply IHl; [done|done| |lia|lia].
  constructor; [|done]. split; [done|]. split; [done|]. cbn [f_sib]. split; [lia|eauto].
Qed.

Lemma each_loop_spec {A} (fn : list byte -> list byte -> A -> bool * A) st : forall n c s a,
  stacks s (path c) -> Forall (spine_ok st) c -> (length (after c) < n)%nat ->
  each_loop n st fn s a = Ok (visit fn (after c) a).
Proof.
  induction n as [|n IH]; intros c s a Hs Hc Hn; [lia|]. cbn [each_loop]. rewrite (Len_pos _ _ Hs).
  destruct c as [|f c]; [done|]. rewrite bool_decide_eq_false_2 by done.
  destruct (Pop_cons _ _ (path c) Hs) as (s' & -> & Hs'). cbn [rbind].
  apply list.Forall_cons in Hc as [(Hleft & Hsib & Hfuel & q & Hcell) Hc]. rewrite (load_cell _ _ _ Hcell).
  cbn [rbind key value right]. cbn [after] in *. rewrite Hleft in *. cbn [app visit] in *.
  destruct (fn (f_k f) (f_v f) a) as [[] a']; [|done].
  destruct (push_left_spec st (f_sib f) (fuel st) s' c Hsib Hs' Hc Hfuel Hfuel) as (s'' & -> & Hs'' & Hc'').
  cbn [rbind]. rewrite <- left_spine_after in *. apply IH; [done|done|]. cbn [length] in Hn. lia.
Qed.

Lemma length_elements t : length (elements t) = length (locs t).
Proof. induction t; cbn; [done|]. rewrite !length_app. cbn. lia. Qed.

Lemma ForEach_spec {A} (fn : list byte -> list byte -> A -> bool * A) st t T a : wf st -> treap_rep st t T ->
  ForEach st t fn a = Ok (visit fn (elements T) a).
Proof.
  intros Hwf [Hroot Hr Hnd _ _ _]. unfold ForEach. rewrite Hroot. pose proof (tree_bound st T Hwf Hr Hnd) as Hb.
  destruct (push_left_spec st T (fuel st) empty_stack []) as (s & -> & Hs & Hc); [done|apply stacks_empty|constructor|done|done|].
  cbn [rbind]. rewrite (each_loop_spec fn st _ _ _ _ Hs Hc); rewrite left_spine_after, app_nil_r; [done|].
  by rewrite length_elements.
Qed.

(** ** Treaps are finite maps *)

Definition represents (st : store) (t : treap) (m : gmap (list byte) (list byte)) : Prop :=
  exists T, treap_rep st t T /\ to_map (elements T) = m.

Lemma represents_extends st st' t m : wf st -> extends st st' -> represents st t m -> represents st' t m.
Proof.
  intros Hwf [_ Hsame] (T & [Hroot Hr Hnd Hs Hc Hz] & Hm). exists T. split; [|done]. split; try done.
  eapply repr_agree; [|exact Hr]. intros l Hl. apply Hsame. destruct (locs_repr _ _ _ Hr Hl) as [n Hn]. by eapply Hwf.
Qed.

Lemma put_represents k v st' t' T T' : bst T -> put_result k v st' t' T T' ->
  represents st' t' (<[k := v]> (to_map (elements T))).
Proof. intros Hs (_ & Hrep & Hp & _). exists T'. split; [done|]. by apply put_in_map. Qed.

Lemma delete_represents k st' t' T : bst T -> delete_result k st' t' T ->
  represents st' t' (delete k (to_map (elements T))).
Proof. intros Hs (_ & T' & Hrep & Hd). exists T'. split; [done|]. by apply del_in_map. Qed.

(** C32: The immutable treap is a persistent finite map: Put and Delete never
    panic and always end, the new treap represents the updated map, and every
    treap that existed before still represents the map it did, although the new
    treap shares its nodes. *)
Theorem immutable_treap_persistent (st : store) (t : treap) (m : gmap (list byte) (list byte))
    (k : list byte) (v : option (list byte)) (rand : Z) : wf st -> represents st t m ->
  (exists t' st', Immutable_Put st t k v rand = Ok (t', st') /\ wf st' /\
     represents st' t' (<[k := or_emptySlice v]> m) /\ forall u mu, represents st u mu -> represents st' u mu) /\
  (exists t' st', Immutable_Delete st t k = Ok (t', st') /\ wf st' /\
     represents st' t' (delete k m) /\ forall u mu, represents st u mu -> represents st' u mu).
Proof.
  intros Hwf (T & Ht & <-). split.
  - destruct (Immutable_Put_spec st t T k v rand Hwf Ht) as (t' & st' & T' & E & Hp & Hext).
    exists t', st'. split; [done|]. split; [apply Hp|]. split; [by eapply put_represents; [apply Ht|]|].
    intros u mu. by apply represents_extends.
  - destruct (Immutable_Delete_spec st t T k Hwf Ht) as (t' & st' & E & Hd & Hext).
    exists t', st'. split; [done|]. split; [apply Hd|]. split; [by eapply delete_represents; [apply Ht|]|].
    intros u mu. by apply represents_extends.
Qed.

Definition empty_store : store := mkStore ∅ 0%N.

Lemma wf_empty : wf empty_store.
Proof. intros l n H. cbn [empty_store cells] in H. by rewrite lookup_empty in H. Qed.

Lemma represents_empty st : represents st empty_treap ∅.
Proof. exists Leaf. split; [|done]. by split; try done; constructor. Qed.

Lemma immutable_treap_persistent_witness :
  exists t' st', Immutable_Put empty_store empty_treap [x01] None 5 = Ok (t', st') /\
  represents st' t' {[ [x01] := [] ]} /\ represents st' empty_treap ∅.
Proof.
  destruct (immutable_treap_persistent empty_store empty_treap ∅ [x01] None 5 wf_empty (represents_empty _))
    as [(t' & st' & E & _ & Hr & Hold) _].
  exists t', st'. split; [exact E|]. split; [exact Hr|]. apply Hold, represents_empty.
Defined.

(** The mutable treap is a finite map as well, updated in place: Put and
    Delete never panic and always end; Get, Has, Len, Size and ForEach answer from
    the map, ForEach in ascending order of the keys until the callback stops it. *)
Theorem mutable_treap_map (st : store) (t : treap) (m : gmap (list byte) (list byte))
    (k : list byte) (v : option (list byte)) (rand : Z) : wf st -> represents st t m ->
  (exists t' st', Mutable_Put st t k v rand = Ok (t', st') /\ wf st' /\
     represents st' t' (<[k := or_emptySlice v]> m)) /\
  (exists t' st', Mutable_Delete st t k = Ok (t', st') /\ wf st' /\ represents st' t' (delete k m)) /\
  Get st t k = Ok (m !! k) /\ Has st t k = Ok (bool_decide (m !! k <> None)) /\
  exists es, sorted es /\ to_map es = m /\
    count t = i64 (Z.of_nat (length es)) /\ totalSize t = u64 (total es) /\
    forall A (fn : list byte -> list byte -> A -> bool * A) a, ForEach st t fn a = Ok (visit fn es a).
Proof.
  intros Hwf (T & Ht & <-). split; [|split; [|split; [by apply Get_spec|split; [by apply Has_spec|]]]].
  - destruct (Mutable_Put_spec st t T k v rand Hwf Ht) as (t' & st' & T' & E & Hp & _).
    exists t', st'. split; [done|]. split; [apply Hp|]. by eapply put_represents; [apply Ht|].
  - destruct (Mutable_Delete_spec st t T k Hwf Ht) as (t' & st' & E & Hd & _).
    exists t', st'. split; [done|]. split; [apply Hd|]. by eapply delete_represents; [apply Ht|].
  - exists (elements T). split; [apply Ht|]. split; [done|]. split; [apply Ht|]. split; [apply Ht|].
    intros. by apply ForEach_spec.
Qed.

Lemma mutable_treap_map_witness :
  exists t' st', Mutable_Put empty_store empty_treap [x01] None 5 = Ok (t', st') /\ represents st' t' {[ [x01] := [] ]}.
Proof.
  destruct (mutable_treap_map empty_store empty_treap ∅ [x01] None 5 wf_empty (represents_empty _))
    as [(t' & st' & E & _ & Hr) _].
  exists t', st'. split; [exact E|exact Hr].
Defined.

(** ** Priorities *)

(** Inserting keeps the heap order of priorities... *)
Lemma put_keeps_heap st t T k v p : wf st -> treap_rep st t T -> heap T ->
  exists t' st' T', Mutable_Put st t k v p = Ok (t', st') /\ treap_rep st' t' T' /\ heap T'.
Proof.
  intros Hwf Ht Hh. destruct (Mutable_Put_spec st t T k v p Hwf Ht) as (t' & st' & T' & E & (_ & Hr & _ & Hhp) & _).
  exists t', st', T'. auto.
Qed.

Definition sample_tree : tree :=
  Node 0 [x02] [] 1 (Node 1 [x01] [] 2 Leaf Leaf) (Node 2 [x03] [] 3 Leaf Leaf).
Definition sample_cells : gmap N treapNode :=
  <[0%N := mkNode [x02] [] 1 (Some 1%N) (Some 2%N)]> (<[1%N := mkNode [x01] [] 2 None None]>
  {[2%N := mkNode [x03] [] 3 None None]}).

(** ... but deleting does not: of two children it moves up the one with the larger
    priority, which then is above the smaller one. *)
Lemma delete_breaks_heap :
  let st := mkStore sample_cells 3 in let t := mkTreap (Some 0%N) 3 219 in
  treap_rep st t sample_tree /\ heap sample_tree /\
  exists t' st' T', Mutable_Delete st t [x02] = Ok (t', st') /\ treap_rep st' t' T' /\ ~ heap T'.
Proof.
  cbv zeta. split; [|split; [cbn; lia|]].
  - split; try (vm_compute; done).
    + apply (bool_decide_unpack _). vm_compute. exact I.
    + repeat constructor.
  - eexists _, _, (Node 2 [x03] [] 3 (Node 1 [x01] [] 2 Leaf Leaf) Leaf). split; [vm_compute; reflexivity|].
    split; [|cbn; lia].
    split; try (vm_compute; done).
    + apply (bool_decide_unpack _). vm_compute. exact I.
    + repeat constructor.
Qed.
