(* ===== verification/TreapIter.v ===== *)
(** * Iterators over treaps

    The iterators of database/internal/treap/treapiter.go walk the entries in
    order, in either direction, and find their place again after the treap was
    changed.  [d] is the direction: true for ascending. *)
From Stdlib Require Import Sorted.
From stdpp Require Import sorting.
From S2P Require Import Prelude Treap TreapSpec.
Import ListNotations Treap.
Open Scope Z_scope.

(** ** Directions *)

Definition child (d : bool) : treapNode -> ptr := if d then left else right.

(** The entries of a tree in the direction of the walk. *)
Definition elems (d : bool) (t : tree) : entries := if d then elements t else reverse (elements t).

(** The entries outside a path that are still ahead. *)
Definition ahead (d : bool) (c : list frame) : entries := if d then after c else reverse (before c).

(** The subtree that follows a node, and the one that precedes it. *)
Definition near (d : bool) (tl tr : tree) : tree := if d then tr else tl.
Definition far (d : bool) (tl tr : tree) : tree := if d then tl else tr.

Lemma elems_node d l k v p tl tr :
  elems d (Node l k v p tl tr) = elems d (far d tl tr) ++ (k, v) :: elems d (near d tl tr).
Proof.
  unfold elems, far, near. destruct d; cbn [elements]; [done|].
  rewrite reverse_app, reverse_cons, <- app_assoc. done.
Qed.

Lemma ahead_cons d f c : ahead d (f :: c) =
  (if Bool.eqb (f_left f) d then (f_k f, f_v f) :: elems d (f_sib f) else []) ++ ahead d c.
Proof.
  unfold ahead, elems. destruct d; cbn [before after]; [by destruct (f_left f)|].
  rewrite reverse_app. destruct (f_left f); cbn [Bool.eqb]; [done|]. by rewrite reverse_app.
Qed.


(** ** Positions *)

(** The first node of a path that lies ahead, with the path above it. *)
Fixpoint up (d : bool) (c : list frame) : option (frame * list frame) :=
  match c with
  | [] => None
  | f :: c => if Bool.eqb (f_left f) d then Some (f, c) else up d c
  end.

(** The iterator stands at the first entry of [es], with the others ahead of it;
    it is exhausted when [es] is empty. *)
Definition placed (T : tree) (d : bool) (node : ptr) (s : parentStack) (es : entries) : Prop :=
  match es with
  | [] => node = None
  | (k, v) :: es' => exists c l p tl tr, T = plug c (Node l k v p tl tr) /\ node = Some l /\
      stacks s (path c) /\ es' = elems d (near d tl tr) ++ ahead d c
  end.

Lemma up_ahead d c : ahead d c =
  match up d c with None => [] | Some (f, c') => (f_k f, f_v f) :: elems d (f_sib f) ++ ahead d c' end.
Proof.
  induction c as [|f c IH]; [by destruct d|]. rewrite ahead_cons. cbn [up].
  destruct (Bool.eqb (f_left f) d); [done|]. exact IH.
Qed.

Lemma up_placed d c t f c' s : up d c = Some (f, c') -> stacks s (path c') ->
  placed (plug c t) d (Some (f_loc f)) s (ahead d c).
Proof.
  intros Hup Hs. rewrite up_ahead, Hup. cbn [placed]. revert t Hup.
  induction c as [|g c IH]; intros t; cbn [up plug]; [done|].
  destruct (Bool.eqb (f_left g) d) eqn:E; [|apply IH].
  intros [= -> ->]. apply eqb_prop in E. exists c', (f_loc f), (f_p f). unfold plug1. rewrite E.
  destruct d; [exists t, (f_sib f)|exists (f_sib f), t]; done.
Qed.

Section Store.
Context (st : store) (T : tree) (Hwf : wf st) (Hr : repr (cells st) T) (Hnd : NoDup (locs T)).

Lemma path_bound c t : T = plug c t -> (length c < fuel st)%nat.
Proof.
  intros ->. pose proof (tree_bound st _ Hwf Hr Hnd). pose proof (path_length_bound c t). lia.
Qed.

(** Walking up to the next node ahead. *)
Lemma climb_spec d c : forall t l s n, T = plug c t -> ptr_of t = Some l -> stacks s (path c) -> (length c < n)%nat ->
  exists node s', (let* (parent, s) := Pop s in climb n st (child (negb d)) (Some l) parent s) = Ok (node, s') /\
  placed T d node s' (ahead d c).
Proof.
  induction c as [|f c IH]; intros t l s n HT Hl Hs Hn; (destruct n as [|n]; [lia|]).
  { rewrite (Pop_nil _ Hs). cbn. exists None, s. split; [done|]. rewrite up_ahead. done. }
  destruct (Pop_cons _ _ (path c) Hs) as (s' & -> & Hs'). cbn [rbind climb].
  pose proof Hr as Hr'. rewrite HT in Hr'. apply repr_plug in Hr' as [(Hf & _) _]. rewrite Hl in Hf.
  rewrite (load_cell _ _ _ Hf). cbn [rbind].
  assert (Hls : Some l <> ptr_of (f_sib f)).
  { apply ptr_not_in. intros Hin. rewrite HT, locs_plug in Hnd. apply NoDup_app_elim in Hnd as (_ & _ & Hd).
    apply (Hd l); [by apply ptr_in_locs|]. cbn [locsc]. right. apply elem_of_app. by left. }
  assert (Hside : bool_decide (child (negb d) (cell_of f (Some l)) = Some l) = negb (Bool.eqb (f_left f) d)).
  { unfold child, cell_of. destruct d, (f_left f); cbn;
      first [by apply bool_decide_eq_true_2|apply bool_decide_eq_false_2; congruence]. }
  rewrite Hside. destruct (Bool.eqb (f_left f) d) eqn:E; cbn [negb].
  - exists (Some (f_loc f)), s'. split; [done|]. rewrite HT. eapply up_placed; [|exact Hs']. cbn [up]. by rewrite E.
  - destruct (IH (plug1 f t) (f_loc f) s' n) as (node & s'' & E2 & Hp);
      [done|by unfold plug1; destruct (f_left f)|done|cbn [length] in Hn; lia|].
    exists node, s''. split; [exact E2|]. rewrite ahead_cons, E. exact Hp.
Qed.

(** Going down to the first node of a subtree. *)
Lemma descend_far_spec d t : forall c l s n, T = plug c t -> ptr_of t = Some l -> stacks s (path c) ->
  (length (locs t) < n)%nat ->
  exists node s', descend_far n st (child d) (Some l) s = Ok (node, s') /\
  placed T d node s' (elems d t ++ ahead d c).
Proof.
  induction t as [|l' k v p tl IHl tr IHr]; intros c l s n HT Hl Hs Hn; [done|].
  injection Hl as ->. destruct n as [|n]; [lia|]. cbn [descend_far].
  pose proof Hr as Hr'. rewrite HT in Hr'. apply repr_plug in Hr' as [_ (Hcell & _)]. rewrite (load_cell _ _ _ Hcell).
  cbn [rbind]. cbn [locs length] in Hn. rewrite length_app in Hn.
  assert (Hchild : child d (mkNode k v p (ptr_of tl) (ptr_of tr)) = ptr_of (far d tl tr)) by (by destruct d).
  rewrite Hchild, elems_node, <- app_assoc. destruct (far d tl tr) as [|l2 k2 v2 p2 tl2 tr2] eqn:Efar.
  - exists (Some l), s. split; [done|]. replace (elems d Leaf) with (@nil (list byte * list byte)) by (by destruct d).
    exists c, l, p, tl, tr. done.
  - cbn [ptr_of]. destruct (Push_spec _ _ l Hs) as (s' & -> & Hs'). cbn [rbind].
    set (f := mkFrame d l k v p (near d tl tr)).
    assert (Hah : ahead d (f :: c) = (k, v) :: elems d (near d tl tr) ++ ahead d c)
      by (rewrite ahead_cons; cbn [f_left f]; by rewrite Bool.eqb_reflx).
    cbn [app]. rewrite <- Hah. unfold far, near in *. destruct d; cbn [far near] in *; subst.
    + apply (IHl (f :: c) l2 s' n); [done|done|done|lia].
    + apply (IHr (f :: c) l2 s' n); [done|done|done|lia].
Qed.

(** ** Limits *)

Definition ge_start (start : option (list byte)) (k : list byte) : bool :=
  match start with Some s => 0 <=? bytes_Compare k s | None => true end.
Definition lt_limit (limit : option (list byte)) (k : list byte) : bool :=
  match limit with Some l => bytes_Compare k l <? 0 | None => true end.
Definition in_range (start limit : option (list byte)) (e : list byte * list byte) : bool :=
  ge_start start e.1 && lt_limit limit e.1.

Lemma not_leb_ltb a b : negb (a <=? b) = (b <? a).
Proof. lia. Qed.

(** The position after the limits were applied. *)
Definition settled (d : bool) (it : Iterator) (es : entries) (b : bool) (it' : Iterator) : Prop :=
  it_root it' = it_root it /\ isNew it' = isNew it /\ seekKey it' = seekKey it /\
  startKey it' = startKey it /\ limitKey it' = limitKey it /\ it_mutable it' = it_mutable it /\
  match es with
  | e :: _ => if in_range (startKey it) (limitKey it) e then b = true /\ placed T d (it_node it') (it_parents it') es
              else b = false /\ it_node it' = None
  | [] => b = false /\ it_node it' = None
  end.

Lemma limit_spec d it node s es : placed T d node s es ->
  exists b it', limitIterator st (set_pos node s it) = Ok (b, it') /\ settled d it es b it'.
Proof.
  intros Hp. destruct es as [|[k v] es]; cbn [placed] in Hp.
  { subst. eexists _, _. split; [done|]. done. }
  pose proof Hp as (c & l & p & tl & tr & HT & Hnode & Hs & Hes). rewrite Hnode in *.
  pose proof Hr as Hr'. rewrite HT in Hr'. apply repr_plug in Hr' as [_ (Hcell & _)].
  unfold limitIterator. cbn [set_pos it_node startKey limitKey]. rewrite (load_cell _ _ _ Hcell). cbn [rbind key].
  unfold settled, in_range, ge_start, lt_limit. cbn [fst].
  assert (Hst : (match startKey it with Some s => bytes_Compare k s <? 0 | None => false end)
    = negb (match startKey it with Some s => 0 <=? bytes_Compare k s | None => true end))
    by (destruct (startKey it); [by rewrite not_leb_ltb|done]).
  assert (Hli : (match limitKey it with Some l => 0 <=? bytes_Compare k l | None => false end)
    = negb (match limitKey it with Some l => bytes_Compare k l <? 0 | None => true end))
    by (destruct (limitKey it); [lia|done]).
  rewrite Hst, Hli. destruct (match startKey it with Some s => _ | None => true end); cbn [negb andb];
    [|eexists _, _; split; [done|]; done].
  destruct (match limitKey it with Some l => _ | None => true end); cbn [negb];
    eexists _, _; (split; [done|]); done.
Qed.

(** ** Steps *)

Lemma step_spec d it k v es : placed T d (it_node it) (it_parents it) ((k, v) :: es) ->
  exists b it', step_iter st (child (negb d)) (child d) it = Ok (b, it') /\ settled d it es b it'.
Proof.
  intros (c & l & p & tl & tr & HT & Hnode & Hs & ->). unfold step_iter. rewrite Hnode.
  pose proof Hr as Hr'. rewrite HT in Hr'. apply repr_plug in Hr' as [_ (Hcell & _)]. rewrite (load_cell _ _ _ Hcell).
  cbn [rbind].
  assert (Hchild : child (negb d) (mkNode k v p (ptr_of tl) (ptr_of tr)) = ptr_of (near d tl tr)) by (by destruct d).
  rewrite Hchild. destruct (near d tl tr) as [|l2 k2 v2 p2 tl2 tr2] eqn:En.
  - replace (elems d Leaf) with (@nil (list byte * list byte)) by (by destruct d). cbn [app ptr_of].
    destruct (climb_spec d c (Node l k v p tl tr) l (it_parents it) (fuel st) HT eq_refl Hs (path_bound _ _ HT))
      as (node & s' & E & Hp).
    destruct (Pop (it_parents it)) as [[parent s1]| |]; [|done|done]. cbn [rbind] in *. rewrite E. cbn [rbind].
    by apply limit_spec.
  - cbn [ptr_of]. destruct (Push_spec _ _ l Hs) as (s' & -> & Hs'). cbn [rbind].
    set (f := mkFrame (negb d) l k v p (far d tl tr)).
    assert (Hah : ahead d (f :: c) = ahead d c) by (rewrite ahead_cons; cbn [f_left f]; by destruct d).
    assert (HT' : T = plug (f :: c) (near d tl tr)) by (rewrite HT; cbn [plug]; unfold f, plug1, near, far; by destruct d).
    rewrite En in HT'. rewrite <- Hah.
    destruct (descend_far_spec d (Node l2 k2 v2 p2 tl2 tr2) (f :: c) l2 s' (fuel st) HT' eq_refl Hs')
      as (node & s'' & -> & Hp); [|cbn [rbind]; by apply limit_spec].
    rewrite HT' in Hr, Hnd. pose proof (tree_bound st _ Hwf Hr Hnd). pose proof (path_length_bound (f :: c) (Node l2 k2 v2 p2 tl2 tr2)). lia.
Qed.

(** The first node of the whole treap in a direction. *)
Lemma descend_end_spec d t : forall c s n, T = plug c t -> stacks s (path c) -> (length (locs t) < n)%nat ->
  t <> Leaf -> exists node s', descend_end n st (child d) (ptr_of t) s = Ok (node, s') /\
  node <> None /\ placed T d node s' (elems d t ++ ahead d c).
Proof.
  induction t as [|l k v p tl IHl tr IHr]; intros c s n HT Hs Hn Hne; [done|].
  destruct n as [|n]; [lia|]. cbn [descend_end ptr_of].
  pose proof Hr as Hr'. rewrite HT in Hr'. apply repr_plug in Hr' as [_ (Hcell & _)]. rewrite (load_cell _ _ _ Hcell).
  cbn [rbind]. cbn [locs length] in Hn. rewrite length_app in Hn.
  assert (Hchild : child d (mkNode k v p (ptr_of tl) (ptr_of tr)) = ptr_of (far d tl tr)) by (by destruct d).
  rewrite Hchild, elems_node, <- app_assoc. destruct (far d tl tr) as [|l2 k2 v2 p2 tl2 tr2] eqn:Efar.
  - exists (Some l), s. split; [done|]. split; [done|].
    replace (elems d Leaf) with (@nil (list byte * list byte)) by (by destruct d). exists c, l, p, tl, tr. done.
  - cbn [ptr_of]. destruct (Push_spec _ _ l Hs) as (s' & -> & Hs'). cbn [rbind].
    set (f := mkFrame d l k v p (near d tl tr)).
    assert (Hah : ahead d (f :: c) = (k, v) :: elems d (near d tl tr) ++ ahead d c)
      by (rewrite ahead_cons; cbn [f_left f]; by rewrite Bool.eqb_reflx).
    cbn [app]. rewrite <- Hah. unfold far, near in *. destruct d; cbn [far near] in *; subst.
    + apply (IHl (f :: c) s' n); [done|done|lia|done].
    + apply (IHr (f :: c) s' n); [done|done|lia|done].
Qed.
End Store.

(** ** Seeking *)

(** The entries a search for [k] leaves behind. *)
Definition skip (d exact : bool) (k : list byte) (e : list byte * list byte) : bool :=
  let c := bytes_Compare k e.1 in if c =? 0 then negb exact else Bool.eqb (0 <? c) d.

(** [R] is what is left of [es] after the entries that the search skips. *)
Definition sought (d exact : bool) (k : list byte) (es R : entries) : Prop :=
  exists S, es = S ++ R /\ Forall (fun e => skip d exact k e = true) S /\ Forall (fun e => skip d exact k e = false) R.

Lemma elems_plug d c t : elems d (plug c t) = reverse (ahead (negb d) c) ++ elems d t ++ ahead d c.
Proof.
  unfold elems, ahead. rewrite elements_plug. destruct d; cbn [negb]; [by rewrite reverse_involutive|].
  by rewrite !reverse_app, app_assoc.
Qed.

Definition sel_ok (d : bool) (c : list frame) (sel : ptr) (depth : Z) : Prop :=
  match up d c with
  | None => sel = None /\ depth = 0
  | Some (f, c') => sel = Some (f_loc f) /\ depth = Z.of_nat (length c')
  end.

(** What the search knows at a subtree below [c]. *)
Definition seeking (d exact : bool) (k : list byte) (c : list frame) : Prop :=
  Forall (fun e => skip d exact k e = true) (ahead (negb d) c) /\
  Forall (fun e => skip d exact k e = false) (ahead d c).

Lemma skip_klt d exact k e : klt e.1 k -> skip d exact k e = d.
Proof. intros H%klt_gt. unfold skip. destruct (Z.eqb_spec (bytes_Compare k e.1) 0); [lia|]. destruct (Z.ltb_spec 0 (bytes_Compare k e.1)); [|lia]. by destruct d. Qed.
Lemma skip_kgt d exact k e : klt k e.1 -> skip d exact k e = negb d.
Proof. intros H. unfold klt in H. unfold skip. destruct (Z.eqb_spec (bytes_Compare k e.1) 0); [lia|]. destruct (Z.ltb_spec 0 (bytes_Compare k e.1)); [lia|]. by destruct d. Qed.
Lemma skip_eq d exact k v : skip d exact k (k, v) = negb exact.
Proof. unfold skip. cbn [fst]. by rewrite Compare_refl. Qed.

Lemma Forall_elems (P : list byte * list byte -> Prop) d t : Forall P (elements t) -> Forall P (elems d t).
Proof. unfold elems. destruct d; [done|]. by apply Forall_reverse. Qed.

(** Descending to one side: the node and the other subtree are skipped or ahead. *)
Lemma seeking_frame d exact k c f : seeking d exact k c ->
  Forall (fun e => skip d exact k e = negb (Bool.eqb (f_left f) d)) ((f_k f, f_v f) :: elements (f_sib f)) ->
  seeking d exact k (f :: c).
Proof.
  intros [Hb Ha] Hf. apply list.Forall_cons in Hf as [Hk Hs]. unfold seeking. rewrite !ahead_cons.
  destruct (Bool.eqb (f_left f) d) eqn:E; cbn [negb] in *.
  - replace (Bool.eqb (f_left f) (negb d)) with false by (by destruct (f_left f), d). split; [done|].
    constructor; [done|]. apply Forall_app. split; [by apply Forall_elems|done].
  - replace (Bool.eqb (f_left f) (negb d)) with true by (by destruct (f_left f), d). split; [|done].
    constructor; [done|]. apply Forall_app. split; [by apply Forall_elems|done].
Qed.

Lemma above_skip d exact k k' B : klt k k' \/ k = k' -> above k' B ->
  Forall (fun e => skip d exact k e = negb d) B.
Proof.
  intros Hk HB. eapply list.Forall_impl; [exact HB|]. intros e He. apply skip_kgt.
  destruct Hk as [Hk|Hk]; [by apply klt_trans with k'|by rewrite Hk].
Qed.

Lemma below_skip d exact k k' A : klt k' k \/ k = k' -> below k' A ->
  Forall (fun e => skip d exact k e = d) A.
Proof.
  intros Hk HA. eapply list.Forall_impl; [exact HA|]. intros e He. apply skip_klt.
  destruct Hk as [Hk|Hk]; [by apply klt_trans with k'|by rewrite Hk].
Qed.

Section Seek.
Context (st : store) (T : tree) (Hwf : wf st) (Hr : repr (cells st) T) (Hnd : NoDup (locs T)) (Hbst : bst T).

Lemma seek_loop_spec d exact k t : forall c s n sel depth, T = plug c t -> stacks s (path c) ->
  (length (locs t) < n)%nat -> sel_ok d c sel depth -> seeking d exact k c ->
  exists sel' depth' s' ex R, seek_loop n st k exact d (ptr_of t) s sel depth = Ok (sel', depth', s', ex) /\
  sought d exact k (elems d T) R /\
  if (ex : bool) then placed T d sel' s' R
  else exists c', T = plug c' Leaf /\ stacks s' (path c') /\ sel_ok d c' sel' depth' /\ R = ahead d c'.
Proof.
  induction t as [|l k' v p tl IHl tr IHr]; intros c s n sel depth HT Hs Hn Hsel Hsk; (destruct n as [|n]; [lia|]).
  { exists sel, depth, s, false, (ahead d c). split; [done|]. split; [|by exists c].
    exists (reverse (ahead (negb d) c)). rewrite HT, elems_plug. replace (elems d Leaf) with (@nil (list byte * list byte)) by (by destruct d).
    split; [done|]. destruct Hsk. split; [by apply Forall_reverse|done]. }
  cbn [seek_loop ptr_of]. destruct (Push_spec _ _ l Hs) as (s' & -> & Hs'). cbn [rbind].
  pose proof Hr as Hr'. rewrite HT in Hr'. apply repr_plug in Hr' as [_ (Hcell & _)]. rewrite (load_cell _ _ _ Hcell).
  cbn [rbind key left right]. rewrite HT in Hbst. destruct (sorted_root _ _ _ _ _ _ _ Hbst) as [Hlo Hhi].
  cbn [locs length] in Hn. rewrite length_app in Hn. rewrite (Len_spec _ _ Hs'). unfold path. cbn [length]. rewrite length_map.
  replace (Z.of_nat (S (length c)) - 1) with (Z.of_nat (length c)) by lia.
  destruct (Z.ltb_spec (bytes_Compare k k') 0) as [Hlt|Hge].
  { set (f := mkFrame true l k' v p tr).
    assert (Hsk' : seeking d exact k (f :: c)).
    { apply seeking_frame; [done|]. cbn [f_left f f_k f_v f_sib]. replace (negb (Bool.eqb true d)) with (negb d) by (by destruct d).
      constructor; [by apply skip_kgt|]. apply (above_skip _ _ _ k'); [by left|done]. }
    destruct d; apply (IHl (f :: c)); try done; lia. }
  destruct (Z.ltb_spec 0 (bytes_Compare k k')) as [Hgt|Hle].
  { set (f := mkFrame false l k' v p tl). apply klt_gt in Hgt.
    assert (Hsk' : seeking d exact k (f :: c)).
    { apply seeking_frame; [done|]. cbn [f_left f f_k f_v f_sib]. replace (negb (Bool.eqb false d)) with d by (by destruct d).
      constructor; [by apply skip_klt|]. apply (below_skip _ _ _ k'); [by left|done]. }
    destruct d; apply (IHr (f :: c)); try done; lia. }
  assert (k = k') as <- by (apply Compare_eq; lia). destruct exact.
  - destruct (Pop_cons _ _ (path c) Hs') as (s'' & -> & Hs''). cbn [rbind].
    exists (Some l), depth, s'', true, ((k, v) :: elems d (near d tl tr) ++ ahead d c). split; [done|]. split.
    + exists (reverse (ahead (negb d) c) ++ elems d (far d tl tr)). destruct Hsk as [Hb Ha].
      split; [rewrite HT, elems_plug, elems_node, <- !app_assoc; done|]. split.
      * apply Forall_app. split; [by apply Forall_reverse|]. apply Forall_elems. destruct d; cbn [far];
          [by apply (below_skip true _ _ k); [right|]|by apply (above_skip false _ _ k); [right|]].
      * constructor; [apply skip_eq|]. apply Forall_app. split; [|done]. apply Forall_elems. destruct d; cbn [near];
          [by apply (above_skip true _ _ k); [right|]|by apply (below_skip false _ _ k); [right|]].
    + exists c, l, p, tl, tr. done.
  - set (f := mkFrame (negb d) l k v p (far d tl tr)).
    assert (Hsk' : seeking d false k (f :: c)).
    { apply seeking_frame; [done|]. cbn [f_left f f_k f_v f_sib]. replace (negb (Bool.eqb (negb d) d)) with true by (by destruct d).
      constructor; [apply skip_eq|]. destruct d; cbn [far];
        [by apply (below_skip true _ _ k); [right|]|by apply (above_skip false _ _ k); [right|]]. }
    destruct d; [apply (IHr (f :: c))|apply (IHl (f :: c))]; try done; lia.
Qed.

Lemma pop_times_spec n : forall s a b, stacks s (a ++ b) -> length a = n ->
  exists s', pop_times n s = Ok s' /\ stacks s' b.
Proof.
  induction n as [|n IH]; intros s a b Hs Hl; destruct a as [|x a]; try discriminate; [by exists s|].
  cbn [pop_times]. destruct (Pop_cons _ _ _ Hs) as (s' & -> & Hs'). cbn [rbind]. apply (IH s' a b Hs'). by injection Hl.
Qed.

Lemma up_path d c f c' : up d c = Some (f, c') -> exists a, path c = a ++ path c' /\ length a = (length c - length c')%nat.
Proof.
  induction c as [|g c IH]; cbn [up]; [done|]. destruct (Bool.eqb (f_left g) d).
  - intros [= -> ->]. exists [f_loc f]. split; [done|]. cbn [length]. lia.
  - intros H. destruct (IH H) as (a & Ha & Hl). exists (f_loc g :: a). split; [cbn [path map]; unfold path in *; by rewrite Ha|].
    assert (length c' <= length c)%nat; [|cbn [length]; lia].
    apply (f_equal length) in Ha. unfold path in Ha. rewrite length_app, !length_map in Ha. lia.
Qed.

Lemma seek_spec d exact k it : it_root it = ptr_of T ->
  exists b it' R, seek st it k exact d = Ok (b, it') /\ sought d exact k (elems d T) R /\ settled T d it R b it'.
Proof.
  intros Hroot. unfold seek. rewrite Hroot.
  destruct (seek_loop_spec d exact k T [] empty_stack (fuel st) None 0) as (sel & depth & s & ex & R & -> & Hso & Hend);
    [done|apply stacks_empty|by apply tree_bound|done|split; destruct d; constructor|].
  cbn [rbind]. destruct ex.
  { destruct (limit_spec st T Hr d it sel s R Hend) as (b & it' & E & Hset). eauto 10. }
  destruct Hend as (c & HT & Hs & Hsel & ->). rewrite (Len_spec _ _ Hs). unfold path at 1. rewrite length_map.
  assert (Hpop : exists s', pop_times (Z.to_nat (Z.of_nat (length c) - depth)) s = Ok s' /\ placed T d sel s' (ahead d c)).
  { unfold sel_ok in Hsel. destruct (up d c) as [[f c']|] eqn:Eup; destruct Hsel as [-> ->].
    - destruct (up_path d c f c' Eup) as (a & Ha & Hl). rewrite Ha in Hs.
      destruct (pop_times_spec (Z.to_nat (Z.of_nat (length c) - Z.of_nat (length c'))) s a (path c') Hs) as (s' & E & Hs'); [lia|].
      exists s'. split; [exact E|]. rewrite HT. by eapply up_placed.
    - destruct (pop_times_spec (Z.to_nat (Z.of_nat (length c) - 0)) s (path c) []) as (s' & E & Hs');
        [by rewrite app_nil_r|unfold path; rewrite length_map; lia|].
      exists s'. split; [exact E|]. rewrite up_ahead, Eup. done. }
  destruct Hpop as (s' & -> & Hp). cbn [rbind].
  destruct (limit_spec st T Hr d it sel s' _ Hp) as (b & it' & E & Hset). eauto 10.
Qed.
End Seek.

(** ** Walking over a range *)

Definition advance (d : bool) (st : store) (it : Iterator) : res (bool * Iterator) :=
  if d then Next st it else Prev st it.

(** [for iter.Next() { ... }], or with Prev, collecting the entries. *)
Fixpoint collect (d : bool) (n : nat) (st : store) (it : Iterator) : res entries :=
  match n with
  | O => Err ErrDiverges
  | S n =>
      let* (b, it) := advance d st it in
      if (b : bool) then
        let* k := Key st it in
        let* v := Value st it in
        let* es := collect d n st it in
        match k, v with Some k, Some v => Ok ((k, v) :: es) | _, _ => Panic end
      else Ok []
  end.

Definition ordered (d : bool) (es : entries) : Prop :=
  StronglySorted (fun a b => if d then klt a.1 b.1 else klt b.1 a.1) es.

Lemma ordered_elems d T : bst T -> ordered d (elems d T).
Proof.
  unfold bst, keys, ordered, elems. generalize (elements T) as es. clear T. intros es Hs. destruct d.
  - induction es as [|e es IH]; [constructor|]. cbn [map] in Hs. apply StronglySorted_inv in Hs as [Hs Hf].
    constructor; [by apply IH|]. by rewrite List.Forall_map in Hf.
  - induction es as [|e es IH]; [constructor|]. cbn [map] in Hs. apply StronglySorted_inv in Hs as [Hs Hf].
    rewrite reverse_cons. apply StronglySorted_app. rewrite List.Forall_map in Hf. rewrite list.Forall_forall in Hf.
    split; [|split; [by apply IH|repeat constructor]].
    intros a b Ha [->|Hb%elem_of_nil]%elem_of_cons; [|done]. apply Hf. by rewrite elem_of_reverse in Ha.
Qed.

Lemma filter_none (P : list byte * list byte -> Prop) `{!forall e, Decision (P e)} (es : entries) :
  (forall e, e ∈ es -> ~ P e) -> filter P es = [].
Proof.
  induction es as [|e es IH]; intros Hno; [done|]. rewrite filter_cons_False by (apply Hno; by left).
  apply IH. intros x Hx. apply Hno. by right.
Qed.

(** The bound met on the way in and the one met on the way out. *)
Definition entered (d : bool) (start limit : option (list byte)) (e : list byte * list byte) : bool :=
  if d then ge_start start e.1 else lt_limit limit e.1.

Lemma klt_ge s a b : klt a b -> ge_start s a = true -> ge_start s b = true.
Proof.
  destruct s as [s|]; [|done]. cbn. rewrite !Z.leb_le. intros Hab Ha.
  destruct (Z.lt_ge_cases (bytes_Compare b s) 0) as [Hb|]; [|lia].
  assert (klt a s) by (by apply klt_trans with b). unfold klt in *. lia.
Qed.
Lemma klt_lt s a b : klt a b -> lt_limit s b = true -> lt_limit s a = true.
Proof. destruct s as [s|]; [|done]. cbn. rewrite !Z.ltb_lt. intros Hab Hb. by apply klt_trans with b. Qed.

(** Past the first entry outside the range there is no entry inside. *)
Lemma range_over d start limit e es : ordered d (e :: es) -> Forall (fun e => entered d start limit e = true) (e :: es) ->
  in_range start limit e = false -> filter (fun e => in_range start limit e = true) (e :: es) = [].
Proof.
  intros [_ Ho]%StronglySorted_inv [He Hes]%list.Forall_cons Hout.
  rewrite filter_cons_False by (by rewrite Hout). apply filter_none.
  rewrite list.Forall_forall in Ho, Hes. intros x Hx Hin.
  unfold in_range, entered in *. apply andb_prop in Hin as [H1 H2]. specialize (Ho x Hx). destruct d; cbn in Ho.
  - rewrite He, (klt_lt limit e.1 x.1 Ho H2) in Hout. done.
  - rewrite He, (klt_ge start x.1 e.1 Ho H1) in Hout. done.
Qed.

Section Collect.
Context (st : store) (t : treap) (T : tree) (Hwf : wf st) (Ht : treap_rep st t T).
Context (d : bool) (start limit : option (list byte)).

(** An iterator of this treap and range that has been positioned. *)
Definition running (it : Iterator) : Prop :=
  it_root it = ptr_of T /\ isNew it = false /\ seekKey it = None /\ startKey it = start /\ limitKey it = limit.

Lemma settled_running it es b it' : settled T d it es b it' -> running it -> running it'.
Proof. intros (?&?&?&?&?&?&_) (?&?&?&?&?). repeat split; congruence. Qed.

Lemma placed_entry it k v es : placed T d (it_node it) (it_parents it) ((k, v) :: es) ->
  Key st it = Ok (Some k) /\ Value st it = Ok (Some v) /\ it_node it <> None.
Proof.
  intros (c & l & p & tl & tr & HT & Hn & _). unfold Key, Value. rewrite Hn.
  pose proof (tr_repr _ _ _ Ht) as Hr. rewrite HT in Hr. apply repr_plug in Hr as [_ (Hcell & _)].
  rewrite (load_cell _ _ _ Hcell). done.
Qed.

Lemma advance_step it k v es : running it -> placed T d (it_node it) (it_parents it) ((k, v) :: es) ->
  exists b it', advance d st it = Ok (b, it') /\ settled T d it es b it'.
Proof.
  intros (Hroot & Hnew & Hsk & _) Hp. destruct (placed_entry it k v es Hp) as (_ & _ & Hn).
  pose proof (step_spec st T Hwf (tr_repr _ _ _ Ht) (tr_nodup _ _ _ Ht) d it k v es Hp) as Hstep.
  unfold advance, Next, Prev. rewrite Hnew, Hsk. destruct d; (destruct (it_node it) as [l|]; [|done]); exact Hstep.
Qed.

Definition ended (es : entries) (b : bool) (it' : Iterator) : Prop :=
  match es with
  | e :: _ => if in_range start limit e then b = true /\ placed T d (it_node it') (it_parents it') es
              else b = false
  | [] => b = false
  end.

Lemma settled_ended it es b it' : startKey it = start -> limitKey it = limit -> settled T d it es b it' -> ended es b it'.
Proof.
  intros Hs Hl (_ & _ & _ & _ & _ & _ & Hend). rewrite Hs, Hl in Hend. unfold ended.
  destruct es; [apply Hend|]. case_match; [done|apply Hend].
Qed.

(** From a position on, the walk gives the entries that are left in the range. *)
Lemma collect_from es : forall it n b it', advance d st it = Ok (b, it') -> running it' -> ended es b it' ->
  ordered d es -> Forall (fun e => entered d start limit e = true) es -> (length es < n)%nat ->
  collect d n st it = Ok (filter (fun e => in_range start limit e = true) es).
Proof.
  induction es as [|[k v] es IH]; intros it n b it' E Hrun Hend Ho He Hn; (destruct n as [|n]; [cbn in Hn; lia|]);
    cbn [collect ended] in *; rewrite E; cbn [rbind]; [by rewrite Hend|].
  destruct (in_range start limit (k, v)) eqn:Hin.
  - destruct Hend as [-> Hp]. destruct (placed_entry it' k v es Hp) as (-> & -> & _). cbn [rbind].
    destruct (advance_step it' k v es Hrun Hp) as (b2 & it2 & E2 & Hset2).
    apply StronglySorted_inv in Ho as [Ho _]. apply list.Forall_cons in He as [_ He].
    rewrite (IH it' n b2 it2); [|done|by eapply settled_running| |done|done|cbn in Hn; lia].
    + cbn [rbind]. by rewrite filter_cons_True.
    + eapply settled_ended; [apply Hrun|apply Hrun|done].
  - rewrite Hend. by rewrite (range_over d start limit (k, v) es).
Qed.

(** The bound that [First] or [Last] seeks. *)
Definition entry_key : option (list byte) := if d then start else limit.

Lemma skip_entered k e : entry_key = Some k -> skip d d k e = negb (entered d start limit e).
Proof.
  unfold entry_key, skip, entered. pose proof (Compare_opp k e.1) as Hopp. destruct d; intros Hk; rewrite Hk; cbn;
    destruct (Z.eqb_spec (bytes_Compare k e.1) 0), (Z.ltb_spec 0 (bytes_Compare k e.1)); cbn; lia.
Qed.

Lemma sought_filter k es R : entry_key = Some k -> sought d d k es R ->
  filter (fun e => in_range start limit e = true) es = filter (fun e => in_range start limit e = true) R /\
  Forall (fun e => entered d start limit e = true) R /\ exists S, es = S ++ R.
Proof.
  intros Hk (S & -> & HS & HR). split; [|split; [|by exists S]].
  - rewrite list.filter_app, filter_none; [done|]. intros e He Hin. rewrite list.Forall_forall in HS.
    specialize (HS e He). cbn in HS. rewrite (skip_entered k e Hk) in HS.
    unfold in_range, entered in *. destruct d, (ge_start start e.1), (lt_limit limit e.1); done.
  - eapply list.Forall_impl; [exact HR|]. cbn. intros e He. rewrite (skip_entered k e Hk) in He. by destruct (entered _ _ _ _).
Qed.

Lemma ordered_suffix A B : ordered d (A ++ B) -> ordered d B.
Proof. intros H. by apply StronglySorted_app_1_r in H. Qed.

(** How a new iterator enters its range: at the start of [R]. *)
Definition enters (it : Iterator) : Prop :=
  exists b it' R S, advance d st it = Ok (b, it') /\ running it' /\ ended R b it' /\ elems d T = S ++ R /\
  Forall (fun e => entered d start limit e = true) R /\
  filter (fun e => in_range start limit e = true) (elems d T) = filter (fun e => in_range start limit e = true) R.

Lemma enter_seek mutable k : entry_key = Some k -> enters (new_Iterator mutable t start limit).
Proof.
  intros Ek. set (it0 := set_isNew false (new_Iterator mutable t start limit)).
  assert (Hrun0 : running it0) by (repeat split; apply Ht).
  assert (Hadv : advance d st (new_Iterator mutable t start limit) = seek st it0 k d d).
  { unfold advance, Next, Prev, First, Last, it0, entry_key in *. cbn [isNew new_Iterator startKey limitKey set_isNew].
    destruct d; by rewrite Ek. }
  destruct (seek_spec st T Hwf (tr_repr _ _ _ Ht) (tr_nodup _ _ _ Ht) (tr_bst _ _ _ Ht) d d k it0 (tr_root _ _ _ Ht))
    as (b & it' & R & E & Hso & Hset).
  destruct (sought_filter k _ _ Ek Hso) as (Hf & Hent & S & HS). exists b, it', R, S.
  split; [by rewrite Hadv|]. split; [by eapply settled_running|]. split; [by eapply (settled_ended it0)|done].
Qed.

Lemma enter_end mutable : entry_key = None ->
  match elems d T with e :: _ => in_range start limit e = true | [] => True end ->
  enters (new_Iterator mutable t start limit).
Proof.
  intros Ek Hfirst. set (it0 := set_isNew false (new_Iterator mutable t start limit)).
  assert (Hrun0 : running it0) by (repeat split; apply Ht).
  assert (Hadv : advance d st (new_Iterator mutable t start limit) = to_end st (child d) it0).
  { unfold advance, Next, Prev, First, Last, it0, entry_key in *. cbn [isNew new_Iterator startKey limitKey set_isNew].
    destruct d; by rewrite Ek. }
  assert (Hend : exists b it', to_end st (child d) it0 = Ok (b, it') /\ running it' /\ ended (elems d T) b it').
  { unfold to_end. rewrite (proj1 Hrun0). destruct (decide (T = Leaf)) as [HT|HT].
    - replace (ptr_of T) with (None : ptr) by (by rewrite HT). cbn. eexists _, _. split; [done|]. split; [exact Hrun0|].
      replace (elems d T) with (@nil (list byte * list byte)) by (rewrite HT; by destruct d). done.
    - pose proof (tr_repr _ _ _ Ht) as Hr. pose proof (tr_nodup _ _ _ Ht) as Hnd.
      destruct (descend_end_spec st T Hr Hnd d T [] empty_stack (fuel st)) as (node & s & -> & Hne & Hp);
        [done|apply stacks_empty|by apply tree_bound|done|].
      cbn [rbind]. destruct node as [n|]; [|done]. eexists _, _. split; [done|]. split; [done|].
      replace (ahead d []) with (@nil (list byte * list byte)) in Hp by (by destruct d). rewrite app_nil_r in Hp.
      destruct (elems d T) as [|e es] eqn:Ee; [done|]. cbn [ended]. rewrite Hfirst. done. }
  destruct Hend as (b & it' & E & Hrun & Hend). exists b, it', (elems d T), []. rewrite Hadv.
  do 4 (split; [done|]). split; [|done].
  apply list.Forall_forall. intros e _. unfold entry_key, entered in *. by destruct d; rewrite Ek.
Qed.

Lemma collect_new mutable :
  entry_key <> None \/ match elems d T with e :: _ => in_range start limit e = true | [] => True end ->
  collect d (S (length (elements T))) st (new_Iterator mutable t start limit)
  = Ok (filter (fun e => in_range start limit e = true) (elems d T)).
Proof.
  intros Hfirst.
  assert (Hent : enters (new_Iterator mutable t start limit)).
  { destruct entry_key as [k|] eqn:Ek; [by eapply enter_seek|]. destruct Hfirst as [?|?]; [done|by apply enter_end]. }
  destruct Hent as (b & it' & R & S & E & Hrun & Hend & HS & HR & ->).
  apply (collect_from R _ _ b it' E Hrun Hend); [|done|].
  - pose proof (ordered_elems d T (tr_bst _ _ _ Ht)) as Ho. rewrite HS in Ho. by eapply ordered_suffix.
  - assert (Hlen : length (elems d T) = length (elements T)) by (unfold elems; destruct d; [done|apply length_reverse]).
    rewrite HS, length_app in Hlen. lia.
Qed.
End Collect.

(** ** Iterators enumerate ranges *)

(** Walking a new iterator with Next, or with Prev, gives exactly the entries of
    the map whose keys lie between the start key (inclusive) and the limit key
    (exclusive), in ascending or descending order, and the walk ends; provided the
    iterator has the bound it meets first, or the first key lies in the range. *)
Theorem iterator_range (d mutable : bool) (st : store) (t : treap) (m : gmap (list byte) (list byte))
    (start limit : option (list byte)) : wf st -> represents st t m ->
  exists es, sorted es /\ to_map es = m /\
  let walk := if d then es else reverse es in
  ((if d then start else limit) <> None \/
     match walk with e :: _ => in_range start limit e = true | [] => True end ->
   collect d (S (length es)) st (new_Iterator mutable t start limit)
   = Ok (filter (fun e => in_range start limit e = true) walk)).
Proof.
  intros Hwf (T & Ht & Hm). exists (elements T). split; [apply Ht|]. split; [done|]. cbv zeta. intros Hfirst.
  exact (collect_new st t T Hwf Ht d start limit mutable Hfirst).
Qed.

Definition sample_store : store := mkStore sample_cells 3.
Definition sample_treap : treap := mkTreap (Some 0%N) 3 219.

Lemma sample_rep : wf sample_store /\ treap_rep sample_store sample_treap sample_tree.
Proof.
  split.
  - intros l n. unfold sample_store, sample_cells. cbn [cells next].
    rewrite !lookup_insert, lookup_singleton. repeat case_decide; subst; done.
  - apply (proj1 delete_breaks_heap).
Qed.

Lemma iterator_range_witness :
  exists es, collect true (S (length es)) sample_store (new_Iterator true sample_treap (Some [x02]) None)
    = Ok (filter (fun e => in_range (Some [x02]) None e = true) es) /\ to_map es = to_map (elements sample_tree).
Proof.
  destruct (iterator_range true true sample_store sample_treap (to_map (elements sample_tree)) (Some [x02]) None)
    as (es & _ & Hm & Hc); [apply sample_rep|exists sample_tree; split; [apply sample_rep|reflexivity]|].
  exists es. split; [apply Hc; left; discriminate|exact Hm].
Defined.

(** An iterator over a mutable treap survives updates: after ForceReseek the next
    key it gives is the least key of the changed treap that is greater than the key
    it stood at, even if that key has been deleted, or none if that is out of range. *)
Theorem reseek_continues (st : store) (t : treap) (m : gmap (list byte) (list byte)) (it : Iterator) (l : N) (n : treapNode) :
  wf st -> represents st t m -> it_mutable it = true -> isNew it = false ->
  it_node it = Some l -> cells st !! l = Some n ->
  exists es S R it1 b it2, sorted es /\ to_map es = m /\ es = S ++ R /\
  Forall (fun e => e.1 = key n \/ klt e.1 (key n)) S /\ Forall (fun e => klt (key n) e.1) R /\
  ForceReseek st it t = Ok it1 /\ Next st it1 = Ok (b, it2) /\
  match R with
  | (k, v) :: _ => if in_range (startKey it) (limitKey it) (k, v)
                   then b = true /\ Key st it2 = Ok (Some k) /\ Value st it2 = Ok (Some v)
                   else b = false /\ Valid it2 = false
  | [] => b = false /\ Valid it2 = false
  end.
Proof.
  intros Hwf (T & Ht & Hm) Hmut Hnew Hnode Hcell. unfold ForceReseek. rewrite Hmut. cbn [it_node]. rewrite Hnode, (load_cell _ _ _ Hcell).
  cbn [rbind].
  destruct (seek_spec st T Hwf (tr_repr _ _ _ Ht) (tr_nodup _ _ _ Ht) (tr_bst _ _ _ Ht) true false (key n)
    (mkIter true (root t) (Some l) (it_parents it) false None (startKey it) (limitKey it)) (tr_root _ _ _ Ht))
    as (b & it2 & R & E & (S & HS & HSk & HRk) & Hset).
  exists (elements T), S, R. eexists. exists b, it2. split; [apply Ht|]. split; [done|]. split; [exact HS|].
  split; [|split; [|split; [done|split]]].
  - eapply list.Forall_impl; [exact HSk|]. cbn. intros e He. unfold skip in He.
    destruct (Z.eqb_spec (bytes_Compare (key n) e.1) 0) as [Hz|Hz]; [left; symmetry; by apply Compare_eq|right].
    apply klt_gt. destruct (Z.ltb_spec 0 (bytes_Compare (key n) e.1)); [done|discriminate He].
  - eapply list.Forall_impl; [exact HRk|]. cbn. intros e He. unfold skip in He.
    destruct (Z.eqb_spec (bytes_Compare (key n) e.1) 0) as [Hz|Hz]; [discriminate He|].
    unfold klt. destruct (Z.ltb_spec 0 (bytes_Compare (key n) e.1)); [discriminate He|lia].
  - unfold Next. cbn [set_seekKey isNew it_node seekKey]. rewrite Hnew. exact E.
  - destruct Hset as (_ & _ & _ & _ & _ & _ & Hend). cbn [startKey limitKey] in Hend.
    assert (Hval : forall b', b = b' /\ it_node it2 = None -> b = b' /\ Valid it2 = false)
      by (intros b' [-> Hn]; unfold Valid; rewrite Hn; done).
    destruct R as [|[k v] R]; [by apply Hval|]. case_match; [|by apply Hval].
    destruct Hend as [-> Hp]. destruct (placed_entry st t T Ht true it2 k v R Hp) as (? & ? & _). done.
Qed.

Lemma reseek_continues_witness :
  exists it1 b it2, ForceReseek sample_store
      (mkIter true (Some 0%N) (Some 1%N) empty_stack false None None None) sample_treap = Ok it1 /\
  Next sample_store it1 = Ok (b, it2).
Proof.
  destruct (reseek_continues sample_store sample_treap (to_map (elements sample_tree))
    (mkIter true (Some 0%N) (Some 1%N) empty_stack false None None None) 1 (mkNode [x01] [] 2 None None))
    as (es & S & R & it1 & b & it2 & _ & _ & _ & _ & _ & E1 & E2 & _);
    [apply sample_rep|exists sample_tree; split; [apply sample_rep|reflexivity]|reflexivity..|].
  exists it1, b, it2. split; [exact E1|exact E2].
Defined.

(** ** What the iterators do not do *)

(** Without a start key First does not look at the limit: it gives a key outside. *)
Lemma First_ignores_limit :
  exists it, First sample_store (new_Iterator true sample_treap None (Some [x00])) = Ok (true, it) /\
  Key sample_store it = Ok (Some [x01]).
Proof. eexists. split; vm_compute; reflexivity. Qed.

(** Likewise Last without a limit key does not look at the start key. *)
Lemma Last_ignores_start :
  exists it, Last sample_store (new_Iterator true sample_treap (Some [xff]) None) = Ok (true, it) /\
  Key sample_store it = Ok (Some [x03]).
Proof. eexists. split; vm_compute; reflexivity. Qed.

(** Seek does not clear the key that ForceReseek remembered: the next Next
    continues from the old position. *)
Lemma Seek_keeps_reseek_key :
  exists it it' it'', ForceReseek sample_store
      (mkIter true (Some 0%N) (Some 1%N) empty_stack false None None None) sample_treap = Ok it /\
  Seek sample_store it [x03] = Ok (true, it') /\ Key sample_store it' = Ok (Some [x03]) /\
  Next sample_store it' = Ok (true, it'') /\ Key sample_store it'' = Ok (Some [x02]).
Proof. eexists _, _, _. split; [vm_compute; reflexivity|]. repeat split; vm_compute; reflexivity. Qed.
