(* ===== verification/Base58.v ===== *)
(** * Base58: drcutil/base58

    The modified base58 encoding of byte strings and its variant with a version
    and a checksum.  A Go string is a list of bytes. *)
From S2P Require Import Prelude Chainhash Hash Signature.
From Stdlib Require String.
Import (notations) String.
Import ListNotations.
Open Scope Z_scope.
Open Scope list_scope.

Variant base58_error := ErrChecksum | ErrInvalidFormat.

Module Base58.

Definition alphabet : list byte :=
  String.list_byte_of_string "123456789ABCDEFGHJKLMNPQRSTUVWXYZabcdefghijkmnopqrstuvwxyz"%string.
Definition alphabetIdx0 : byte := x31.
Definition bigRadix : Z := 58.

Definition b58 : list Z :=
  [255; 255; 255; 255; 255; 255; 255; 255; 255; 255; 255; 255; 255; 255; 255; 255;
   255; 255; 255; 255; 255; 255; 255; 255; 255; 255; 255; 255; 255; 255; 255; 255;
   255; 255; 255; 255; 255; 255; 255; 255; 255; 255; 255; 255; 255; 255; 255; 255;
   255; 0; 1; 2; 3; 4; 5; 6; 7; 8; 255; 255; 255; 255; 255; 255;
   255; 9; 10; 11; 12; 13; 14; 15; 16; 255; 17; 18; 19; 20; 21; 255;
   22; 23; 24; 25; 26; 27; 28; 29; 30; 31; 32; 255; 255; 255; 255; 255;
   255; 33; 34; 35; 36; 37; 38; 39; 40; 41; 42; 43; 255; 44; 45; 46;
   47; 48; 49; 50; 51; 52; 53; 54; 55; 56; 57; 255; 255; 255; 255; 255;
   255; 255; 255; 255; 255; 255; 255; 255; 255; 255; 255; 255; 255; 255; 255; 255;
   255; 255; 255; 255; 255; 255; 255; 255; 255; 255; 255; 255; 255; 255; 255; 255;
   255; 255; 255; 255; 255; 255; 255; 255; 255; 255; 255; 255; 255; 255; 255; 255;
   255; 255; 255; 255; 255; 255; 255; 255; 255; 255; 255; 255; 255; 255; 255; 255;
   255; 255; 255; 255; 255; 255; 255; 255; 255; 255; 255; 255; 255; 255; 255; 255;
   255; 255; 255; 255; 255; 255; 255; 255; 255; 255; 255; 255; 255; 255; 255; 255;
   255; 255; 255; 255; 255; 255; 255; 255; 255; 255; 255; 255; 255; 255; 255; 255;
   255; 255; 255; 255; 255; 255; 255; 255; 255; 255; 255; 255; 255; 255; 255; 255].

(** Both tables are indexed inside their bounds. *)
Definition b58_at (c : byte) : Z := nth (Z.to_nat c) b58 255.
Definition alphabet_at (d : Z) : byte := nth (Z.to_nat d) alphabet x00.

(** The loop of [Decode] from the last character to the first. *)
Fixpoint decode_loop (rev_b : list byte) (answer j : Z) : option Z :=
  match rev_b with
  | [] => Some answer
  | c :: rest =>
      let tmp := b58_at c in
      if tmp =? 255 then None else decode_loop rest (answer + j * tmp) (j * bigRadix)
  end.

Fixpoint leading (c : byte) (b : list byte) : nat :=
  match b with
  | [] => 0
  | x :: b => if Byte.eqb x c then S (leading c b) else 0
  end.

Definition Decode (b : list byte) : list byte :=
  match decode_loop (reverse b) 0 1 with
  | None => []
  | Some answer => replicate (leading alphabetIdx0 b) x00 ++ big_Bytes answer
  end.

(** The digits, the least significant first. *)
Fixpoint encode_loop (n : nat) (x : Z) : list byte :=
  match n with
  | O => []
  | S n => if 0 <? x then alphabet_at (x mod bigRadix) :: encode_loop n (x / bigRadix) else []
  end.

Definition Encode (b : list byte) : list byte :=
  let x := be_value b in
  let answer := encode_loop (S (8 * length b)) x in
  reverse (answer ++ replicate (leading x00 b) alphabetIdx0).

Section Check.
Context `{HashFunctions}.

Definition checksum (input : list byte) : list byte := take 4 (Sum256 (Sum256 input)).

Definition CheckEncode (input : list byte) (version : byte) : list byte :=
  let b := version :: input in
  Encode (b ++ checksum b).

Definition CheckDecode (input : list byte) : result base58_error (list byte * byte) :=
  let decoded := Decode input in
  let n := length decoded in
  if (n <? 5)%nat then Err ErrInvalidFormat
  else match decoded with
       | version :: _ =>
           if bool_decide (checksum (take (n - 4) decoded) = drop (n - 4) decoded)
           then Ok (drop 1 (take (n - 4) decoded), version)
           else Err ErrChecksum
       | [] => Panic
       end.
End Check.

End Base58.
Import Base58.

(** ** The tables *)

Lemma alphabet_at_b58 d : 0 <= d < 58 -> b58_at (alphabet_at d) = d.
Proof.
  intros Hd. assert (Hall : forallb (fun n => b58_at (alphabet_at (Z.of_nat n)) =? Z.of_nat n) (seq 0 58) = true)
    by (vm_compute; reflexivity).
  rewrite forallb_forall in Hall. specialize (Hall (Z.to_nat d) ltac:(apply in_seq; lia)).
  rewrite Z2Nat.id in Hall by lia. by apply Z.eqb_eq.
Qed.

Lemma b58_at_alphabet c : b58_at c <> 255 -> 0 <= b58_at c < 58 /\ alphabet_at (b58_at c) = c.
Proof.
  intros Hc. assert (Hall : forallb (fun c => (b58_at c =? 255) ||
    ((0 <=? b58_at c) && (b58_at c <? 58) && Byte.eqb (alphabet_at (b58_at c)) c)) all_bytes = true)
    by (vm_compute; reflexivity).
  rewrite forallb_forall in Hall. specialize (Hall c (in_all_bytes c)).
  apply orb_prop in Hall as [Hall|Hall]; [by apply Z.eqb_eq in Hall|].
  apply andb_prop in Hall as [[H1 H2]%andb_prop H3]. apply Byte.byte_dec_bl in H3. split; [lia|done].
Qed.

Lemma alphabet_0 : alphabet_at 0 = alphabetIdx0.
Proof. reflexivity. Qed.
Lemma idx0_value : b58_at alphabetIdx0 = 0.
Proof. reflexivity. Qed.

#[local] Opaque b58_at alphabet_at.

(** ** Digits *)

(** The value of characters, the least significant first. *)
Fixpoint val58 (cs : list byte) : Z :=
  match cs with [] => 0 | c :: cs => b58_at c + 58 * val58 cs end.

Definition valid (cs : list byte) : Prop := Forall (fun c => b58_at c <> 255) cs.

Lemma b58_range c : b58_at c <> 255 -> 0 <= b58_at c < 58.
Proof. apply b58_at_alphabet. Qed.

Lemma decode_loop_valid cs : forall a j, valid cs -> decode_loop cs a j = Some (a + j * val58 cs).
Proof.
  induction cs as [|c cs IH]; intros a j Hv; cbn [decode_loop val58]; [f_equal; lia|].
  apply list.Forall_cons in Hv as [Hc Hv]. destruct (Z.eqb_spec (b58_at c) 255); [done|].
  rewrite IH by done. unfold bigRadix. f_equal. lia.
Qed.

Lemma decode_loop_invalid cs : forall a j, ~ valid cs -> decode_loop cs a j = None.
Proof.
  induction cs as [|c cs IH]; intros a j Hv; cbn [decode_loop]; [by destruct Hv; constructor|].
  destruct (Z.eqb_spec (b58_at c) 255) as [|Hc]; [done|]. apply IH. intros Hcs. apply Hv. by constructor.
Qed.

Lemma val58_nonneg cs : valid cs -> 0 <= val58 cs.
Proof.
  induction 1 as [|c cs Hc Hcs IH]; cbn [val58]; [lia|]. pose proof (b58_range c Hc). lia.
Qed.

Lemma val58_ones cs n : val58 (cs ++ replicate n alphabetIdx0) = val58 cs.
Proof.
  induction cs as [|c cs IH]; cbn [app val58]; [|by rewrite IH].
  induction n as [|n IH]; [done|]. cbn [replicate val58]. by rewrite IH, idx0_value.
Qed.

Lemma ones_valid n : valid (replicate n alphabetIdx0).
Proof. apply Forall_replicate. by rewrite idx0_value. Qed.

(** The most significant digit is not zero. *)
Definition proper (cs : list byte) : Prop := list.last cs <> Some alphabetIdx0.

Lemma idx0_zero c : b58_at c <> 255 -> b58_at c = 0 -> c = alphabetIdx0.
Proof. intros Hc H0. destruct (b58_at_alphabet c Hc) as [_ <-]. rewrite H0. apply alphabet_0. Qed.

Lemma proper_pos cs : valid cs -> proper cs -> cs <> [] -> 0 < val58 cs.
Proof.
  induction 1 as [|c cs Hc Hcs IH]; intros Hp Hne; [done|]. cbn [val58]. pose proof (b58_range c Hc).
  destruct cs as [|c' cs]; [|specialize (IH Hp ltac:(done)); lia]. cbn [val58].
  destruct (Z.eq_dec (b58_at c) 0) as [H0|]; [|lia]. apply idx0_zero in H0; [|done]. by subst c.
Qed.

(** [encode_loop] writes the digits of its argument... *)
Lemma encode_loop_digits n : forall x, 0 <= x < 2 ^ Z.of_nat n ->
  val58 (encode_loop n x) = x /\ valid (encode_loop n x) /\ proper (encode_loop n x).
Proof.
  induction n as [|n IH]; intros x Hx; [cbn in *; split; [lia|by split; [constructor|]]|].
  rewrite Nat2Z.inj_succ, Z.pow_succ_r in Hx by lia. cbn [encode_loop]. unfold bigRadix.
  destruct (Z.ltb_spec 0 x) as [H0|H0]; [|cbn; split; [lia|by split; [constructor|]]].
  pose proof (Z.mod_pos_bound x 58 ltac:(lia)) as Hm. pose proof (Z.div_mod x 58 ltac:(lia)) as Hd.
  destruct (IH (x / 58)) as (Hv & Hval & Hp); [split; [apply Z.div_pos; lia|apply Z.div_lt_upper_bound; lia]|].
  assert (Hc : b58_at (alphabet_at (x mod 58)) = x mod 58) by (by apply alphabet_at_b58).
  cbn [val58]. rewrite Hv, Hc. split; [lia|]. split; [constructor; [lia|done]|].
  unfold proper in *. destruct (encode_loop n (x / 58)) as [|c cs] eqn:E; [|exact Hp]. cbn. intros [= Hone].
  rewrite Hone in Hc. change (b58_at alphabetIdx0) with 0 in Hc. cbn in Hv. lia.
Qed.

(** ... and there is only one way to write them. *)
Lemma encode_loop_val58 cs : valid cs -> forall n, proper cs -> val58 cs < 2 ^ Z.of_nat n -> encode_loop n (val58 cs) = cs.
Proof.
  induction 1 as [|c cs Hc Hcs IH]; intros n Hp Hn; [by destruct n|].
  pose proof (proper_pos (c :: cs) ltac:(by constructor) Hp ltac:(done)) as Hpos.
  pose proof (b58_range c Hc). pose proof (val58_nonneg cs Hcs). cbn [val58] in *.
  destruct n as [|n]; [cbn in Hn; lia|]. rewrite Nat2Z.inj_succ, Z.pow_succ_r in Hn by lia. cbn [encode_loop].
  destruct (Z.ltb_spec 0 (b58_at c + 58 * val58 cs)); [|lia]. unfold bigRadix.
  rewrite (Z.mul_comm 58), Z.mod_add, Z.div_add, Z.mod_small, Z.div_small, Z.add_0_l by lia.
  f_equal; [by apply b58_at_alphabet|]. apply IH; [|lia]. destruct cs; [done|exact Hp].
Qed.

(** ** Leading zeros *)

Lemma leading_split c b : exists rest, b = replicate (leading c b) c ++ rest /\ leading c rest = 0%nat.
Proof.
  induction b as [|x b (rest & Hb & Hr)]; [by exists []|]. cbn [leading]. destruct (Byte.eqb x c) eqn:E.
  - apply Byte.byte_dec_bl in E. subst x. exists rest. cbn. split; [by f_equal|done].
  - exists (x :: b). cbn. by rewrite E.
Qed.

Lemma leading_app c n l : leading c (replicate n c ++ l) = (n + leading c l)%nat.
Proof. induction n as [|n IH]; [done|]. cbn. rewrite Byte.byte_dec_lb by done. by rewrite IH. Qed.

Lemma leading_reverse c cs : list.last cs <> Some c -> leading c (reverse cs) = 0%nat.
Proof.
  destruct cs as [|x cs] using rev_ind; [done|]. rewrite last_snoc, reverse_snoc. cbn. intros H.
  destruct (Byte.eqb x c) eqn:E; [|done]. apply Byte.byte_dec_bl in E. congruence.
Qed.

Lemma leading_last c l : leading c l = 0%nat -> list.last (reverse l) <> Some c.
Proof.
  destruct l as [|x l]; [done|]. rewrite reverse_cons, last_snoc. cbn. destruct (Byte.eqb x c) eqn:E; [done|].
  intros _ [= ->]. by rewrite Byte.byte_dec_lb in E.
Qed.

(** A byte string is its leading zeros and the bytes of its value. *)
Lemma big_Bytes_be_value b : replicate (leading x00 b) x00 ++ big_Bytes (be_value b) = b.
Proof.
  destruct (leading_split x00 b) as (rest & Hb & Hr). rewrite Hb at 3. f_equal. rewrite Hb, be_value_zeros.
  pose proof (be_value_range rest) as Hv. unfold WireMsg.zlen in Hv.
  pose proof (length_big_Bytes (be_value rest) (length rest) Hv) as Hle.
  assert (He : replicate (length rest - length (big_Bytes (be_value rest))) x00 ++ big_Bytes (be_value rest) = rest).
  { apply be_value_inj; [rewrite length_app, length_replicate; lia|].
    rewrite be_value_zeros. apply be_value_big_Bytes. lia. }
  destruct (length rest - length (big_Bytes (be_value rest)))%nat eqn:E; [exact He|].
  rewrite <- He in Hr. cbn in Hr. discriminate Hr.
Qed.

Lemma leading_big_Bytes v : 0 <= v -> leading x00 (big_Bytes v) = 0%nat.
Proof.
  intros Hv. destruct (Z.eq_dec v 0) as [->|]; [done|].
  destruct (big_Bytes_head v) as (b & rest & -> & Hb); [lia|]. cbn.
  destruct (Byte.eqb b x00) eqn:E; [|done]. apply Byte.byte_dec_bl in E. by subst b.
Qed.

(** ** Round trips *)

Lemma Decode_Encode b : Decode (Encode b) = b.
Proof.
  unfold Decode, Encode. rewrite reverse_involutive.
  pose proof (be_value_range b) as Hv. unfold WireMsg.zlen in Hv.
  destruct (encode_loop_digits (S (8 * length b)) (be_value b)) as (Hval & Hok & Hp).
  { split; [lia|]. eapply Z.lt_le_trans; [apply Hv|]. apply Z.pow_le_mono_r; lia. }
  rewrite decode_loop_valid by (apply Forall_app; split; [done|apply ones_valid]).
  rewrite val58_ones, Hval, Z.mul_1_l, Z.add_0_l, reverse_app, reverse_replicate, leading_app.
  rewrite leading_reverse by exact Hp. rewrite Nat.add_0_r. apply big_Bytes_be_value.
Qed.

Lemma valid_reverse s : valid (reverse s) <-> valid s.
Proof. unfold valid. split; [intros H; rewrite <- (reverse_involutive s)|]; by apply Forall_reverse. Qed.

Lemma Encode_Decode s : valid s -> Encode (Decode s) = s.
Proof.
  intros Hs. unfold Decode. rewrite decode_loop_valid by (by apply valid_reverse).
  destruct (leading_split alphabetIdx0 s) as (rest & Hsplit & Hrest).
  set (z := leading alphabetIdx0 s) in *. set (v := 0 + 1 * val58 (reverse s)).
  assert (Hv : v = val58 (reverse rest)).
  { unfold v. rewrite Hsplit, reverse_app, reverse_replicate, val58_ones. lia. }
  assert (Hvr : valid (reverse rest)).
  { apply valid_reverse. rewrite Hsplit in Hs. by apply Forall_app in Hs as [_ Hs]. }
  pose proof (val58_nonneg _ Hvr) as H0. rewrite <- Hv in H0.
  unfold Encode. rewrite be_value_zeros, be_value_big_Bytes, leading_app, leading_big_Bytes, Nat.add_0_r by done.
  rewrite reverse_app, reverse_replicate. rewrite Hsplit. f_equal.
  rewrite Hv, encode_loop_val58; [apply reverse_involutive|done|by apply leading_last|].
  rewrite <- Hv. pose proof (be_value_range (big_Bytes v)) as Hr. rewrite be_value_big_Bytes in Hr by done.
  unfold WireMsg.zlen in Hr. eapply Z.lt_le_trans; [apply Hr|]. apply Z.pow_le_mono_r; [lia|].
  rewrite length_app, length_replicate. lia.
Qed.

Lemma Decode_nonempty_valid s : Decode s <> [] -> valid s.
Proof.
  intros Hd. assert (Hdec : forall cs, valid cs \/ ~ valid cs).
  { intros cs. destruct (decide (Forall (fun c => b58_at c <> 255) cs)); auto. }
  destruct (Hdec (reverse s)) as [Hv|Hv]; [by apply valid_reverse|].
  unfold Decode in Hd. by rewrite decode_loop_invalid in Hd.
Qed.

Section CheckSpec.
Context `{HashFunctions}.

Lemma checksum_length b : length (checksum b) = 4%nat.
Proof. unfold checksum. rewrite length_take, Sum256_length. done. Qed.

Lemma check_parts b : length (b ++ checksum b) = (length b + 4)%nat /\
  take (length b) (b ++ checksum b) = b /\ drop (length b) (b ++ checksum b) = checksum b.
Proof.
  rewrite length_app, checksum_length. split; [done|]. split; [by rewrite take_app_length|by rewrite drop_app_length].
Qed.

(** Base58 with a checksum is exact: CheckDecode returns a payload and a
    version exactly for the strings that CheckEncode makes of them, so no other
    string decodes, and none decodes to something else. *)
Theorem base58check_exact (s payload : list byte) (version : byte) :
  CheckDecode s = Ok (payload, version) <-> s = CheckEncode payload version.
Proof.
  unfold CheckDecode, CheckEncode. split.
  - destruct (Nat.ltb_spec (length (Decode s)) 5) as [|Hlen]; [done|]. intros Hs.
    assert (Hv : valid s) by (apply Decode_nonempty_valid; intros E; rewrite E in Hlen; cbn in Hlen; lia).
    destruct (Decode s) as [|v d] eqn:Ed; [done|]. case_bool_decide as Hc; [|done]. injection Hs as <- <-.
    rewrite <- (Encode_Decode s Hv), Ed. apply (f_equal Encode). set (n := (length (v :: d) - 4)%nat) in *.
    assert (Ht : take n (v :: d) = v :: drop 1 (take n (v :: d))).
    { assert (Hn : exists n', n = S n') by (exists (n - 1)%nat; unfold n; cbn in *; lia).
      destruct Hn as [n' ->]. done. }
    change (v :: d = (v :: drop 1 (take n (v :: d))) ++ checksum (v :: drop 1 (take n (v :: d)))).
    rewrite <- Ht, Hc. by rewrite take_drop.
  - intros ->. rewrite Decode_Encode. set (b := version :: payload). destruct (check_parts b) as (Hl & Ht & Hd).
    rewrite Hl. destruct (Nat.ltb_spec (length b + 4) 5); [unfold b in *; cbn in *; lia|].
    replace (length b + 4 - 4)%nat with (length b) by lia. rewrite Ht, Hd. rewrite bool_decide_eq_true_2 by done. done.
Qed.
End CheckSpec.
