(* ===== verification/Bech32.v ===== *)
(** * Bech32: drcutil/bech32

    The checksummed base32 format of witness addresses, and the regrouping of
    bits between bytes and groups of five.  A Go string is a list of bytes; after
    the check that every character is printable ASCII, strings.ToLower and
    ToUpper act on each byte.  The error texts are left out. *)
From S2P Require Import Prelude.
From Stdlib Require String.
Import (notations) String.
Import ListNotations.
Open Scope Z_scope.
Open Scope list_scope.

Variant bech32_error :=
  | ErrLength | ErrCharacter | ErrMixedCase | ErrSeparator | ErrNotInCharset | ErrBech32Checksum
  | ErrDataByte | ErrBitGroups | ErrIncompleteGroup.

Module Bech32.

Definition charset : list byte := String.list_byte_of_string "qpzry9x8gf2tvdw0s3jn54khce6mua7l"%string.
Definition gen : list Z := [0x3b6a57b2; 0x26508e6d; 0x1ea119fa; 0x3d4233dd; 0x2a1462b3].

(** strings.IndexByte and strings.LastIndexByte; [None] is -1. *)
Fixpoint IndexByte (s : list byte) (c : byte) : option nat :=
  match s with
  | [] => None
  | x :: s => if Byte.eqb x c then Some 0%nat else option_map S (IndexByte s c)
  end.
Fixpoint LastIndexByte (s : list byte) (c : byte) : option nat :=
  match s with
  | [] => None
  | x :: s => match LastIndexByte s c with
              | Some i => Some (S i)
              | None => if Byte.eqb x c then Some 0%nat else None
              end
  end.

Definition lower_byte (c : byte) : byte := if (65 <=? c) && (c <=? 90) then byte_of_Z (c + 32) else c.
Definition upper_byte (c : byte) : byte := if (97 <=? c) && (c <=? 122) then byte_of_Z (c - 32) else c.
Definition ToLower (s : list byte) : list byte := map lower_byte s.
Definition ToUpper (s : list byte) : list byte := map upper_byte s.

(** ** The checksum *)

(** One value of [bech32Polymod]; the numbers stay below 2^30. *)
Definition polymod_step (chk v : Z) : Z :=
  let b := Z.shiftr chk 25 in
  let chk := Z.lxor (Z.shiftl (Z.land chk 0x1ffffff) 5) v in
  fold_left (fun chk i => if Z.land (Z.shiftr b (Z.of_nat i)) 1 =? 1 then Z.lxor chk (nth i gen 0) else chk)
    (seq 0 5) chk.
Definition bech32Polymod (values : list Z) : Z := fold_left polymod_step values 1.

Definition bech32HrpExpand (hrp : list byte) : list Z :=
  map (fun c : byte => Z.shiftr c 5) hrp ++ [0] ++ map (fun c : byte => Z.land c 31) hrp.

Definition integers (data : list byte) : list Z := map Z_of_byte data.

Definition bech32Checksum (hrp data : list byte) : list byte :=
  let values := bech32HrpExpand hrp ++ integers data ++ [0; 0; 0; 0; 0; 0] in
  let polymod := Z.lxor (bech32Polymod values) 1 in
  map (fun i => byte_of_Z (Z.land (Z.shiftr polymod (5 * (5 - Z.of_nat i))) 31)) (seq 0 6).

Definition bech32VerifyChecksum (hrp data : list byte) : bool :=
  bech32Polymod (bech32HrpExpand hrp ++ integers data) =? 1.

(** ** Characters *)

Fixpoint toBytes (chars : list byte) : result bech32_error (list byte) :=
  match chars with
  | [] => Ok []
  | c :: chars =>
      match IndexByte charset c with
      | None => Err ErrNotInCharset
      | Some index => let* decoded := toBytes chars in Ok (byte_of_Z (Z.of_nat index) :: decoded)
      end
  end.

Fixpoint toChars (data : list byte) : result bech32_error (list byte) :=
  match data with
  | [] => Ok []
  | b :: data =>
      if Z.of_nat (length charset) <=? b then Err ErrDataByte
      else let* rest := toChars data in Ok (nth (Z.to_nat b) charset x00 :: rest)
  end.

Definition printable (c : byte) : bool := (33 <=? c) && (c <=? 126).

Definition Decode (bech : list byte) : result bech32_error (list byte * list byte) :=
  let n := length bech in
  if (n <? 8)%nat || (90 <? n)%nat then Err ErrLength
  else if negb (forallb printable bech) then Err ErrCharacter
  else
    let lower := ToLower bech in
    let upper := ToUpper bech in
    if negb (bool_decide (bech = lower)) && negb (bool_decide (bech = upper)) then Err ErrMixedCase
    else
      let bech := lower in
      match LastIndexByte bech x31 with
      | None => Err ErrSeparator
      | Some one =>
          if (one <? 1)%nat || (n <? one + 7)%nat then Err ErrSeparator
          else
            let hrp := take one bech in
            let* decoded := toBytes (drop (one + 1) bech) in
            if negb (bech32VerifyChecksum hrp decoded) then Err ErrBech32Checksum
            else Ok (hrp, take (length decoded - 6) decoded)
      end.

Definition Encode (hrp data : list byte) : result bech32_error (list byte) :=
  let* dataChars := toChars (data ++ bech32Checksum hrp data) in
  Ok (hrp ++ [x31] ++ dataChars).

(** ** Regrouping bits *)

(** The bits of one byte: [rem] bits are left at the top of [b]. *)
Fixpoint extract (n : nat) (toBits rem b nextByte filled : Z) (regrouped : list byte) : Z * Z * list byte :=
  match n with
  | O => (nextByte, filled, regrouped)
  | S n =>
      if 0 <? rem then
        let remToBits := u8 (toBits - filled) in
        let toExtract := if remToBits <? rem then remToBits else rem in
        let nextByte := Z.lor (u8 (Z.shiftl nextByte toExtract)) (Z.shiftr b (u8 (8 - toExtract))) in
        let b := u8 (Z.shiftl b toExtract) in
        let rem := u8 (rem - toExtract) in
        let filled := u8 (filled + toExtract) in
        if filled =? toBits then extract n toBits rem b 0 0 (regrouped ++ [byte_of_Z nextByte])
        else extract n toBits rem b nextByte filled regrouped
      else (nextByte, filled, regrouped)
  end.

(** A byte has at most eight bits to extract, at least one in each round. *)
Definition extract_byte (fromBits toBits : Z) (acc : Z * Z * list byte) (b : byte) : Z * Z * list byte :=
  let '(nextByte, filled, regrouped) := acc in
  extract 9 toBits fromBits (u8 (Z.shiftl b (u8 (8 - fromBits)))) nextByte filled regrouped.

Definition ConvertBits (data : list byte) (fromBits toBits : Z) (pad : bool) : result bech32_error (list byte) :=
  if (fromBits <? 1) || (8 <? fromBits) || (toBits <? 1) || (8 <? toBits) then Err ErrBitGroups
  else
    let '(nextByte, filled, regrouped) := fold_left (extract_byte fromBits toBits) data (0, 0, []) in
    let '(nextByte, filled, regrouped) :=
      if pad && (0 <? filled)
      then (0, 0, regrouped ++ [byte_of_Z (u8 (Z.shiftl nextByte (u8 (toBits - filled))))])
      else (nextByte, filled, regrouped) in
    if (0 <? filled) && ((4 <? filled) || negb (nextByte =? 0)) then Err ErrIncompleteGroup
    else Ok regrouped.

End Bech32.
Import Bech32.

(** ** Bits *)

(** The [n] low bits of a number, the highest first. *)
Fixpoint bits (n : nat) (b : Z) : list bool :=
  match n with O => [] | S n => Z.testbit b (Z.of_nat n) :: bits n b end.

(** The [n] top bits of a byte. *)
Definition tops (n : nat) (b : Z) : list bool := bits n (Z.shiftr b (8 - Z.of_nat n)).

Lemma bits_ext n a b : (forall i, 0 <= i < Z.of_nat n -> Z.testbit a i = Z.testbit b i) -> bits n a = bits n b.
Proof.
  induction n as [|n IH]; intros H; [done|]. cbn. rewrite H by lia. f_equal. apply IH. intros i Hi. apply H. lia.
Qed.

Lemma bits_app n m b : bits (n + m) b = bits n (Z.shiftr b (Z.of_nat m)) ++ bits m b.
Proof.
  induction n as [|n IH]; [done|]. cbn. rewrite IH. f_equal. rewrite Z.shiftr_spec by lia. f_equal. lia.
Qed.

Lemma length_bits n b : length (bits n b) = n.
Proof. induction n; cbn; [done|]. by rewrite IHn. Qed.

Lemma bits_inj n a b : 0 <= a < 2 ^ Z.of_nat n -> 0 <= b < 2 ^ Z.of_nat n -> bits n a = bits n b -> a = b.
Proof.
  intros Ha Hb H. apply Z.bits_inj'. intros i Hi.
  destruct (Z.lt_ge_cases i (Z.of_nat n)) as [Hlt|Hge].
  - clear Ha Hb. induction n as [|n IH]; [lia|]. cbn in H. injection H as H1 H2.
    destruct (Z.eq_dec i (Z.of_nat n)) as [->|]; [done|]. apply IH; [done|lia].
  - rewrite !Z.testbit_eqb by lia. rewrite !Z.div_small; [done|..];
      (split; [lia|]; eapply Z.lt_le_trans; [apply Ha || apply Hb|]; apply Z.pow_le_mono_r; lia).
Qed.

Lemma u8_testbit z i : 0 <= i < 8 -> Z.testbit (u8 z) i = Z.testbit z i.
Proof. intros Hi. unfold u8. apply Z.mod_pow2_bits_low. lia. Qed.

Lemma byte_testbit b i : 0 <= b < 256 -> 8 <= i -> Z.testbit b i = false.
Proof.
  intros Hb Hi. rewrite Z.testbit_eqb by lia. rewrite Z.div_small; [done|]. split; [lia|].
  eapply Z.lt_le_trans; [apply Hb|]. change 256 with (2 ^ 8). apply Z.pow_le_mono_r; lia.
Qed.

(** Moving the top [t] bits of [b] behind the [f] bits of [x]. *)
Lemma shift_in f t x b : (f + t <= 8)%nat -> 0 <= b < 256 ->
  bits (f + t) (Z.lor (u8 (Z.shiftl x (Z.of_nat t))) (Z.shiftr b (8 - Z.of_nat t))) = bits f x ++ tops t b.
Proof.
  intros Hft Hb. rewrite bits_app. f_equal; apply bits_ext; intros i Hi.
  - rewrite Z.shiftr_spec, Z.lor_spec, u8_testbit, Z.shiftl_spec, Z.shiftr_spec by lia.
    rewrite (byte_testbit b) by lia. rewrite orb_false_r. f_equal. lia.
  - rewrite Z.lor_spec, u8_testbit, Z.shiftl_spec by lia. by rewrite Z.testbit_neg_r by lia.
Qed.

Lemma tops_app t r b : (t + r <= 8)%nat -> tops (t + r) b = tops t b ++ tops r (u8 (Z.shiftl b (Z.of_nat t))).
Proof.
  intros Htr. unfold tops. rewrite bits_app. f_equal.
  - f_equal. rewrite Z.shiftr_shiftr by lia. f_equal. lia.
  - apply bits_ext. intros i Hi. rewrite !Z.shiftr_spec, u8_testbit, Z.shiftl_spec by lia. f_equal. lia.
Qed.

Lemma lor_bound a b k : 0 <= a < 2 ^ k -> 0 <= b < 2 ^ k -> 0 <= k -> 0 <= Z.lor a b < 2 ^ k.
Proof.
  intros Ha Hb Hk. split; [apply Z.lor_nonneg; lia|].
  destruct (Z.eq_dec (Z.lor a b) 0) as [->|Hne]; [lia|]. apply Z.log2_lt_pow2; [pose proof (proj2 (Z.lor_nonneg a b)); lia|].
  rewrite Z.log2_lor by lia. apply Z.max_lub_lt.
  - destruct (Z.eq_dec a 0) as [->|]; [|apply Z.log2_lt_pow2; lia]. destruct (Z.eq_dec k 0) as [->|]; [|cbn; lia].
    cbn in *. assert (b = 0) by lia. subst. done.
  - destruct (Z.eq_dec b 0) as [->|]; [|apply Z.log2_lt_pow2; lia]. destruct (Z.eq_dec k 0) as [->|]; [|cbn; lia].
    cbn in *. assert (a = 0) by lia. subst. done.
Qed.

(** ** Regrouping *)

Definition group_bits (n : nat) (bs : list byte) : list bool := concat (map (fun b : byte => bits n b) bs).

(** The bits [B] have been taken in. *)
Definition regroups (toBits : nat) (acc : Z * Z * list byte) (B : list bool) : Prop :=
  let '(x, filled, reg) := acc in
  group_bits toBits reg ++ bits (Z.to_nat filled) x = B /\ 0 <= filled < Z.of_nat toBits /\
  0 <= x < 2 ^ filled /\ Forall (fun b : byte => b < 2 ^ Z.of_nat toBits) reg.

Lemma group_bits_app n a b : group_bits n (a ++ b) = group_bits n a ++ group_bits n b.
Proof. unfold group_bits. by rewrite map_app, concat_app. Qed.

Lemma extract_spec toBits n : forall rem b x filled reg B, (1 <= toBits <= 8)%nat ->
  0 <= rem <= 8 -> rem < Z.of_nat n -> 0 <= b < 256 -> regroups toBits (x, filled, reg) B ->
  regroups toBits (extract n (Z.of_nat toBits) rem b x filled reg) (B ++ tops (Z.to_nat rem) b).
Proof.
  induction n as [|n IH]; intros rem b x filled reg B Hto Hrem Hn Hb Hinv; [lia|]. cbn [extract].
  destruct (Z.ltb_spec 0 rem) as [Hpos|]; [|replace rem with 0 by lia; by rewrite app_nil_r].
  destruct Hinv as (HB & Hf & Hx & Hreg).
  rewrite (u8_small (Z.of_nat toBits - filled)) by (unfold is_u8; lia).
  set (t := if _ <? rem then _ else rem).
  assert (Ht : 1 <= t <= rem /\ filled + t <= Z.of_nat toBits) by (unfold t; destruct (Z.ltb_spec (Z.of_nat toBits - filled) rem); lia).
  clearbody t. destruct Ht as [Ht Hft].
  rewrite (u8_small (8 - t)), (u8_small (rem - t)), (u8_small (filled + t)) by (unfold is_u8; lia).
  set (x' := Z.lor _ _). set (b' := u8 (Z.shiftl b t)).
  assert (Hbits : bits (Z.to_nat (filled + t)) x' = bits (Z.to_nat filled) x ++ tops (Z.to_nat t) b).
  { pose proof (shift_in (Z.to_nat filled) (Z.to_nat t) x b ltac:(lia) Hb) as Hs.
    rewrite Z2Nat.id in Hs by lia. rewrite Z2Nat.inj_add by lia. exact Hs. }
  assert (Hx' : 0 <= x' < 2 ^ (filled + t)).
  { apply lor_bound; [| |lia].
    - rewrite Z.shiftl_mul_pow2, Z.pow_add_r by lia. unfold u8.
      assert (0 <= x * 2 ^ t < 2 ^ filled * 2 ^ t) by nia.
      assert (2 ^ filled * 2 ^ t <= 2 ^ 8) by (rewrite <- Z.pow_add_r by lia; apply Z.pow_le_mono_r; lia).
      rewrite Z.mod_small by lia. lia.
    - rewrite Z.shiftr_div_pow2 by lia. split; [apply Z.div_pos; lia|].
      apply Z.div_lt_upper_bound; [lia|]. rewrite <- Z.pow_add_r by lia.
      eapply Z.lt_le_trans; [apply Hb|]. change 256 with (2 ^ 8). apply Z.pow_le_mono_r; lia. }
  assert (Hb' : 0 <= b' < 256) by apply u8_range.
  assert (Htops : tops (Z.to_nat rem) b = tops (Z.to_nat t) b ++ tops (Z.to_nat (rem - t)) b').
  { unfold b'. replace rem with (t + (rem - t)) at 1 by lia. rewrite Z2Nat.inj_add by lia.
    rewrite tops_app by lia. by rewrite Z2Nat.id by lia. }
  rewrite Htops, app_assoc. destruct (Z.eqb_spec (filled + t) (Z.of_nat toBits)) as [Hfull|Hpart].
  - apply IH; try done; try lia. split; [|split; [lia|split; [cbn; lia|]]].
    + rewrite group_bits_app. cbn [Z.to_nat bits]. rewrite app_nil_r. unfold group_bits at 2. cbn [map concat].
      rewrite app_nil_r, Z_of_byte_of_Z, u8_small; [|unfold is_u8; rewrite Hfull in Hx'; assert (2 ^ Z.of_nat toBits <= 2 ^ 8) by (apply Z.pow_le_mono_r; lia); lia].
      rewrite Hfull, Nat2Z.id in Hbits. rewrite Hbits, app_assoc, HB. done.
    + apply Forall_app. split; [done|]. constructor; [|constructor]. rewrite Z_of_byte_of_Z. rewrite Hfull in Hx'.
      unfold u8. assert (2 ^ Z.of_nat toBits <= 2 ^ 8) by (apply Z.pow_le_mono_r; lia). rewrite Z.mod_small by lia. lia.
  - apply IH; try done; try lia. split; [rewrite Hbits, app_assoc, HB; done|]. split; [lia|]. done.
Qed.

Lemma tops_byte from (b : byte) : (1 <= from <= 8)%nat ->
  tops from (u8 (Z.shiftl b (8 - Z.of_nat from))) = bits from b.
Proof.
  intros Hf. unfold tops. apply bits_ext. intros i Hi.
  rewrite Z.shiftr_spec, u8_testbit, Z.shiftl_spec by lia. f_equal. lia.
Qed.

Lemma extract_byte_spec from to b acc B : (1 <= from <= 8)%nat -> (1 <= to <= 8)%nat -> regroups to acc B ->
  regroups to (extract_byte (Z.of_nat from) (Z.of_nat to) acc b) (B ++ bits from b).
Proof.
  intros Hf Ht. destruct acc as [[x filled] reg]. intros Hacc. unfold extract_byte.
  assert (H9 : 8 < Z.of_nat 9) by lia. revert H9. generalize 9%nat. intros n Hn.
  rewrite (u8_small (8 - Z.of_nat from)) by (unfold is_u8; lia). rewrite <- (tops_byte from b Hf).
  generalize (u8_range (Z.shiftl b (8 - Z.of_nat from))). generalize (u8 (Z.shiftl b (8 - Z.of_nat from))). intros c Hc.
  rewrite <- (Nat2Z.id from) at 2. apply extract_spec; first [done|lia].
Qed.

Lemma extract_all from to data : (1 <= from <= 8)%nat -> (1 <= to <= 8)%nat -> forall acc B, regroups to acc B ->
  regroups to (fold_left (extract_byte (Z.of_nat from) (Z.of_nat to)) data acc) (B ++ group_bits from data).
Proof.
  intros Hf Ht. pose proof (fun b acc B => extract_byte_spec from to b acc B Hf Ht) as Hstep. revert Hstep.
  generalize (extract_byte (Z.of_nat from) (Z.of_nat to)). intros step Hstep.
  induction data as [|b data IH]; intros acc B Hacc; [by rewrite app_nil_r|].
  cbn [fold_left]. unfold group_bits. cbn [map concat]. rewrite app_assoc. by apply IH, Hstep.
Qed.

Lemma bits_pad f z x : (f + z <= 8)%nat -> bits (f + z) (u8 (Z.shiftl x (Z.of_nat z))) = bits f x ++ replicate z false.
Proof.
  intros H. rewrite bits_app. f_equal.
  - apply bits_ext. intros i Hi. rewrite Z.shiftr_spec, u8_testbit, Z.shiftl_spec by lia. f_equal. lia.
  - assert (Hz : forall m, (m <= z)%nat -> bits m (u8 (Z.shiftl x (Z.of_nat z))) = replicate m false).
    { induction m as [|m IH]; intros Hm; [done|]. cbn. rewrite IH by lia. f_equal.
      rewrite u8_testbit, Z.shiftl_spec by lia. by rewrite Z.testbit_neg_r by lia. }
    by apply Hz.
Qed.

(** With padding every input is regrouped, the last group filled up with zeros. *)
Lemma ConvertBits_pad from to data : (1 <= from <= 8)%nat -> (1 <= to <= 8)%nat ->
  exists g z, ConvertBits data (Z.of_nat from) (Z.of_nat to) true = Ok g /\ (z < to)%nat /\
  group_bits to g = group_bits from data ++ replicate z false /\ Forall (fun b : byte => b < 2 ^ Z.of_nat to) g.
Proof.
  intros Hf Ht. unfold ConvertBits.
  destruct ((Z.of_nat from <? 1) || _ || _ || _) eqn:E; [lia|]. clear E.
  pose proof (extract_all from to data Hf Ht (0, 0, []) [] ltac:(cbn; repeat split; try lia; constructor)) as Hall.
  destruct (fold_left _ data _) as [[x filled] reg]. destruct Hall as (HB & Hfil & Hx & Hreg). cbn [app] in HB.
  cbn [andb]. destruct (Z.ltb_spec 0 filled) as [Hpos|Hz].
  - exists (reg ++ [byte_of_Z (u8 (Z.shiftl x (u8 (Z.of_nat to - filled))))]), (to - Z.to_nat filled)%nat.
    split; [done|]. split; [lia|].
    rewrite (u8_small (Z.of_nat to - filled)) by (unfold is_u8; lia). split.
    + rewrite group_bits_app. unfold group_bits at 2. cbn [map concat]. rewrite app_nil_r, Z_of_byte_of_Z.
      rewrite (u8_small (u8 _)) by apply u8_range. rewrite <- HB, <- app_assoc. f_equal.
      pose proof (bits_pad (Z.to_nat filled) (to - Z.to_nat filled) x ltac:(lia)) as Hp.
      replace (Z.to_nat filled + (to - Z.to_nat filled))%nat with to in Hp by lia.
      replace (Z.of_nat (to - Z.to_nat filled)) with (Z.of_nat to - filled) in Hp by lia. exact Hp.
    + apply Forall_app. split; [done|]. constructor; [|constructor]. rewrite Z_of_byte_of_Z.
      rewrite (u8_small (u8 _)) by apply u8_range. rewrite Z.shiftl_mul_pow2 by lia.
      assert (0 <= x * 2 ^ (Z.of_nat to - filled) < 2 ^ filled * 2 ^ (Z.of_nat to - filled)) as Hm by nia.
      rewrite <- Z.pow_add_r in Hm by lia. replace (filled + (Z.of_nat to - filled)) with (Z.of_nat to) in Hm by lia.
      assert (2 ^ Z.of_nat to <= 2 ^ 8) by (apply Z.pow_le_mono_r; lia). unfold u8. rewrite Z.mod_small by lia. lia.
  - assert (filled = 0) as -> by lia. cbn. exists reg, 0%nat. split; [done|]. split; [lia|].
    rewrite app_nil_r. cbn in HB. rewrite app_nil_r in HB. done.
Qed.

Lemma length_group_bits n bs : length (group_bits n bs) = (n * length bs)%nat.
Proof.
  induction bs as [|b bs IH]; unfold group_bits in *; cbn [map concat length]; [lia|].
  rewrite length_app, length_bits, IH. lia.
Qed.

Lemma group_bits_inj a : forall b, group_bits 8 a = group_bits 8 b -> length a = length b -> a = b.
Proof.
  induction a as [|x a IH]; intros [|y b] H Hl; try discriminate; [done|].
  unfold group_bits in H. cbn [map concat] in H. apply app_inj_1 in H as [H1 H2]; [|by rewrite !length_bits].
  f_equal; [|apply IH; [done|by injection Hl]].
  apply bits_inj in H1; [|apply Z_of_byte_range..].
  rewrite <- (byte_of_Z_of_byte x), H1. apply byte_of_Z_of_byte.
Qed.

Lemma bits_zero n x : 0 <= x < 2 ^ Z.of_nat n -> bits n x = replicate n false -> x = 0.
Proof.
  intros Hx H. apply (bits_inj n); [done|split; [lia|apply Z.pow_pos_nonneg; lia]|]. rewrite H.
  clear. induction n as [|n IH]; [done|]. cbn [replicate bits]. by rewrite Z.bits_0, IH.
Qed.

(** Regrouping bytes into padded groups and back gives the bytes. *)
Lemma ConvertBits_roundtrip data : exists g, ConvertBits data 8 5 true = Ok g /\
  ConvertBits g 5 8 false = Ok data /\ Forall (fun b : byte => b < 32) g /\ (5 * length g < 8 * length data + 5)%nat.
Proof.
  destruct (ConvertBits_pad 8 5 data ltac:(lia) ltac:(lia)) as (g & z & Hg & Hz & Hbits & Hlt).
  exists g. split; [exact Hg|]. split; [|split; [exact Hlt|]].
  2: { apply (f_equal length) in Hbits. rewrite length_app, !length_group_bits, length_replicate in Hbits. lia. }
  unfold ConvertBits. cbn [Z.ltb Z.compare Pos.compare Pos.compare_cont orb].
  pose proof (extract_all 5 8 g ltac:(lia) ltac:(lia) (0, 0, []) [] ltac:(cbn; repeat split; try lia; constructor)) as Hall.
  change (Z.of_nat 5) with 5 in Hall. change (Z.of_nat 8) with 8 in Hall.
  destruct (fold_left _ g _) as [[x filled] reg]. destruct Hall as (HB & Hfil & Hx & Hreg). cbn [app] in HB.
  rewrite Hbits in HB. cbn [andb].
  assert (Hlen : (8 * length reg + Z.to_nat filled = 8 * length data + z)%nat).
  { apply (f_equal length) in HB. rewrite !length_app, !length_group_bits, length_bits, length_replicate in HB. lia. }
  apply app_inj_1 in HB as [H1 H2]; [|rewrite !length_group_bits; lia].
  assert (Hzf : Z.to_nat filled = z) by lia. rewrite <- Hzf in H2.
  apply bits_zero in H2; [|rewrite Z2Nat.id by lia; done]. subst x.
  rewrite (group_bits_inj reg data H1) by lia. cbn. rewrite orb_false_r.
  destruct (Z.ltb_spec 4 filled); [lia|]. by rewrite andb_false_r.
Qed.

Lemma group_bits_inj5 a : forall b, Forall (fun x : byte => x < 32) a -> Forall (fun x : byte => x < 32) b ->
  group_bits 5 a = group_bits 5 b -> length a = length b -> a = b.
Proof.
  induction a as [|x a IH]; intros [|y b] Ha Hb H Hl; try discriminate; [done|].
  apply list.Forall_cons in Ha as [Hx Ha], Hb as [Hy Hb].
  unfold group_bits in H. cbn [map concat] in H. apply app_inj_1 in H as [H1 H2]; [|by rewrite !length_bits].
  f_equal; [|apply IH; [done|done|done|by injection Hl]].
  destruct (Z_of_byte_range x), (Z_of_byte_range y). apply bits_inj in H1; [|cbn; lia..].
  rewrite <- (byte_of_Z_of_byte x), H1. apply byte_of_Z_of_byte.
Qed.

Lemma bits_zeros n : bits n 0 = replicate n false.
Proof. induction n as [|n IH]; [done|]. cbn [bits replicate]. by rewrite Z.bits_0, IH. Qed.

(** And back: whatever regroups to bytes is what the bytes regroup to. *)
Lemma ConvertBits_inverse g data : Forall (fun b : byte => b < 32) g -> ConvertBits g 5 8 false = Ok data ->
  ConvertBits data 8 5 true = Ok g.
Proof.
  intros Hg H. destruct (ConvertBits_pad 8 5 data ltac:(lia) ltac:(lia)) as (g' & z & Hg' & Hz & Hbits & Hlt).
  change (Z.of_nat 8) with 8 in Hg'. change (Z.of_nat 5) with 5 in Hg'. rewrite Hg'. f_equal.
  unfold ConvertBits in H. cbn [Z.ltb Z.compare Pos.compare Pos.compare_cont orb] in H.
  pose proof (extract_all 5 8 g ltac:(lia) ltac:(lia) (0, 0, []) [] ltac:(cbn; repeat split; try lia; constructor)) as Hall.
  change (Z.of_nat 5) with 5 in Hall. change (Z.of_nat 8) with 8 in Hall.
  destruct (fold_left _ g _) as [[x filled] reg]. destruct Hall as (HB & Hfil & Hx & Hreg). cbn [app] in HB.
  cbn [andb] in H. destruct ((0 <? filled) && _) eqn:Hlast; [done|]. injection H as <-.
  assert (Hx0 : x = 0 /\ filled <= 4).
  { destruct (Z.ltb_spec 0 filled) as [Hpos|].
    - cbn in Hlast. apply orb_false_iff in Hlast as [H4 H0]. apply Z.ltb_ge in H4. apply negb_false_iff, Z.eqb_eq in H0. done.
    - assert (filled = 0) as -> by lia. cbn in Hx. lia. }
  destruct Hx0 as [-> H4]. rewrite bits_zeros in HB.
  assert (Hl1 := f_equal length HB). assert (Hl2 := f_equal length Hbits).
  rewrite !length_app, !length_group_bits, length_replicate in Hl1, Hl2.
  assert (Z.to_nat filled = z) by lia. subst z. apply group_bits_inj5; [exact Hlt|done| |lia].
  by rewrite Hbits, HB.
Qed.
