(* ===== verification/Bech32Spec.v ===== *)
(** * The checksum and the strings of bech32

    The checksum is linear over the bits, so that the six groups [Encode]
    appends are the only ones [Decode] accepts after the data, and a word that
    differs from an accepted one in one or two places is not accepted; and
    [Decode] and [Encode] are inverses of each other. *)
From S2P Require Import Prelude Bech32.
Import ListNotations.
Open Scope Z_scope.
Open Scope list_scope.
Import Bech32.

(** ** The checksum is linear *)

Definition gen_sum (b : Z) : Z :=
  fold_left (fun acc i => Z.lxor acc (if Z.testbit b (Z.of_nat i) then nth i gen 0 else 0)) (seq 0 5) 0.

Lemma land1_testbit a i : 0 <= i -> (Z.land (Z.shiftr a i) 1 =? 1) = Z.testbit a i.
Proof.
  intros Hi. change 1 with (Z.ones 1) at 1. rewrite Z.land_ones by lia. change (2 ^ 1) with 2.
  rewrite <- Z.bit0_mod, Z.shiftr_spec by lia. rewrite Z.add_0_l. by destruct (Z.testbit a i).
Qed.

Lemma if_lxor (t : bool) x g : (if t then Z.lxor x g else x) = Z.lxor x (if t then g else 0).
Proof. destruct t; [done|]. by rewrite Z.lxor_0_r. Qed.

Ltac bitwise := apply Z.bits_inj'; intros ?i ?Hi; rewrite ?Z.lxor_spec, ?Z.bits_0;
  repeat match goal with |- context [Z.testbit ?x ?j] => is_var j; destruct (Z.testbit x j) end; try done.

Lemma polymod_step_eq chk v :
  polymod_step chk v = Z.lxor (Z.lxor (Z.shiftl (Z.land chk 0x1ffffff) 5) v) (gen_sum (Z.shiftr chk 25)).
Proof.
  unfold polymod_step, gen_sum. cbn [fold_left seq nth gen].
  rewrite !land1_testbit by lia. rewrite !if_lxor. rewrite Z.lxor_0_l, !Z.lxor_assoc. done.
Qed.

Lemma gen_sum_linear a b : gen_sum (Z.lxor a b) = Z.lxor (gen_sum a) (gen_sum b).
Proof.
  unfold gen_sum. cbn [fold_left seq nth gen]. rewrite !Z.lxor_spec, !Z.lxor_0_l.
  repeat match goal with |- context [Z.testbit ?x ?j] => destruct (Z.testbit x j) end; cbn [xorb]; reflexivity.
Qed.

Lemma polymod_step_linear a b v w :
  polymod_step (Z.lxor a b) (Z.lxor v w) = Z.lxor (polymod_step a v) (polymod_step b w).
Proof.
  rewrite !polymod_step_eq, Z.shiftr_lxor, gen_sum_linear.
  replace (Z.land (Z.lxor a b) 0x1ffffff) with (Z.lxor (Z.land a 0x1ffffff) (Z.land b 0x1ffffff)).
  2: { apply Z.bits_inj'. intros i Hi. rewrite Z.lxor_spec, !Z.land_spec, Z.lxor_spec.
       by destruct (Z.testbit a i), (Z.testbit b i), (Z.testbit 0x1ffffff i). }
  rewrite Z.shiftl_lxor. bitwise.
Qed.

(** The state after some more values. *)
Abbreviation polymod_from := (fold_left polymod_step).

Fixpoint xor_words (a b : list Z) : list Z :=
  match a, b with x :: a, y :: b => Z.lxor x y :: xor_words a b | _, _ => [] end.

Lemma polymod_linear v : forall w a b, length v = length w ->
  polymod_from (xor_words v w) (Z.lxor a b) = Z.lxor (polymod_from v a) (polymod_from w b).
Proof.
  induction v as [|x v IH]; intros [|y w] a b Hl; try discriminate; [done|]. cbn [xor_words fold_left].
  rewrite polymod_step_linear. apply IH. by injection Hl.
Qed.

Lemma gen_sum_bound b : 0 <= gen_sum b < 2 ^ 30.
Proof.
  unfold gen_sum. cbn [fold_left seq nth gen].
  repeat match goal with |- context [Z.testbit ?x ?j] => destruct (Z.testbit x j) end; vm_compute; split; congruence.
Qed.

Lemma lxor_bound a b k : 0 <= a < 2 ^ k -> 0 <= b < 2 ^ k -> 0 <= k -> 0 <= Z.lxor a b < 2 ^ k.
Proof.
  intros Ha Hb Hk. assert (Hmod : Z.lxor a b mod 2 ^ k = Z.lxor a b).
  { rewrite <- (Z.mod_small a (2 ^ k)), <- (Z.mod_small b (2 ^ k)) by done. apply Z.bits_inj'. intros i Hi.
    destruct (Z.lt_ge_cases i k).
    - by rewrite Z.mod_pow2_bits_low by lia.
    - rewrite Z.lxor_spec, !Z.mod_pow2_bits_high by lia. done. }
  rewrite <- Hmod. apply Z.mod_pos_bound. lia.
Qed.

Lemma polymod_step_bound chk v : 0 <= v < 256 -> 0 <= polymod_step chk v < 2 ^ 30.
Proof.
  intros Hv. rewrite polymod_step_eq. apply lxor_bound; [|apply gen_sum_bound|lia].
  apply lxor_bound; [|change (2 ^ 30) with 1073741824; lia|lia].
  change 0x1ffffff with (Z.ones 25). rewrite Z.land_ones, Z.shiftl_mul_pow2 by lia.
  pose proof (Z.mod_pos_bound chk (2 ^ 25) ltac:(lia)). change (2 ^ 30) with (2 ^ 25 * 2 ^ 5). lia.
Qed.

Lemma polymod_from_bound vs : Forall (fun v => 0 <= v < 256) vs -> forall s, 0 <= s < 2 ^ 30 ->
  0 <= polymod_from vs s < 2 ^ 30.
Proof. induction 1 as [|v vs Hv Hvs IH]; intros s Hs; [done|]. cbn. apply IH. by apply polymod_step_bound. Qed.

(** Below 2^25 a step only shifts. *)
Lemma polymod_step_shift e v : 0 <= e < 2 ^ 25 -> 0 <= v < 32 -> polymod_step e v = 32 * e + v.
Proof.
  intros He Hv. rewrite polymod_step_eq. replace (Z.shiftr e 25) with 0.
  2: { rewrite Z.shiftr_div_pow2 by lia. by rewrite Z.div_small. }
  change (gen_sum 0) with 0. rewrite Z.lxor_0_r. change 0x1ffffff with (Z.ones 25).
  rewrite Z.land_ones, Z.mod_small by lia. rewrite Z.shiftl_mul_pow2 by lia. change (2 ^ 5) with 32.
  rewrite <- Z.add_nocarry_lxor; [lia|]. apply Z.bits_inj'. intros i Hi. rewrite Z.land_spec, Z.bits_0.
  change 32 with (2 ^ 5). destruct (Z.lt_ge_cases i 5).
  - by rewrite Z.mul_pow2_bits_low.
  - replace (Z.testbit v i) with false; [by rewrite andb_false_r|]. symmetry. rewrite Z.testbit_eqb by lia.
    rewrite Z.div_small; [done|]. split; [lia|]. eapply Z.lt_le_trans; [apply Hv|].
    change 32 with (2 ^ 5). apply Z.pow_le_mono_r; lia.
Qed.

(** The six groups of five bits of a checksum. *)
Definition checksum_digits (p : Z) : list Z :=
  map (fun i => Z.land (Z.shiftr p (5 * (5 - Z.of_nat i))) 31) (seq 0 6).
Definition digits_value (c : list Z) : Z := fold_left (fun acc d => 32 * acc + d) c 0.

Lemma polymod_digits c : length c = 6%nat -> Forall (fun d => 0 <= d < 32) c ->
  polymod_from c 0 = digits_value c /\ 0 <= digits_value c < 2 ^ 30.
Proof.
  intros Hl Hc. do 7 (destruct c as [|? c]; [try discriminate|try discriminate]). 
  repeat (apply list.Forall_cons in Hc as [? Hc]). unfold digits_value. cbn [fold_left].
  change (2 ^ 30) with 1073741824.
  repeat match goal with |- context [polymod_step ?e ?v] =>
    lazymatch e with
    | context [polymod_step] => fail
    | _ => rewrite (polymod_step_shift e v) by (change (2 ^ 25) with 33554432; lia)
    end end.
  lia.
Qed.

Lemma digits_eq p i : 0 <= i -> Z.land (Z.shiftr p i) 31 = (p / 2 ^ i) mod 32.
Proof. intros Hi. change 31 with (Z.ones 5). rewrite Z.land_ones by lia. by rewrite Z.shiftr_div_pow2. Qed.

Lemma checksum_digits_eq p : checksum_digits p =
  [(p / 2 ^ 25) mod 32; (p / 2 ^ 20) mod 32; (p / 2 ^ 15) mod 32; (p / 2 ^ 10) mod 32; (p / 2 ^ 5) mod 32;
   (p / 2 ^ 0) mod 32].
Proof. unfold checksum_digits. cbn [map seq]. rewrite !digits_eq by lia. reflexivity. Qed.

Lemma checksum_digits_value p : 0 <= p < 2 ^ 30 -> digits_value (checksum_digits p) = p.
Proof.
  intros Hp. rewrite checksum_digits_eq. unfold digits_value. cbn [fold_left].
  change (2 ^ 30) with 1073741824 in Hp.
  assert (Hd : forall k j, 0 <= k -> j = k + 5 -> p / 2 ^ k = 32 * (p / 2 ^ j) + (p / 2 ^ k) mod 32).
  { intros k j Hk ->. rewrite Z.pow_add_r, <- Z.div_div by lia. apply Z.div_mod. lia. }
  pose proof (Hd 0 5 ltac:(lia) eq_refl) as H0. pose proof (Hd 5 10 ltac:(lia) eq_refl) as H5.
  pose proof (Hd 10 15 ltac:(lia) eq_refl) as H10. pose proof (Hd 15 20 ltac:(lia) eq_refl) as H15.
  pose proof (Hd 20 25 ltac:(lia) eq_refl) as H20. pose proof (Hd 25 30 ltac:(lia) eq_refl) as H25. clear Hd.
  rewrite (Z.div_small p (2 ^ 30)) in H25 by (change (2 ^ 30) with 1073741824; lia).
  assert (p / 2 ^ 0 = p) by apply Z.div_1_r. lia.
Qed.

Lemma digits_value_inj c : length c = 6%nat -> Forall (fun d => 0 <= d < 32) c ->
  checksum_digits (digits_value c) = c.
Proof.
  intros Hl Hc. do 7 (destruct c as [|? c]; [try discriminate|try discriminate]).
  repeat (apply list.Forall_cons in Hc as [? Hc]). unfold digits_value, checksum_digits.
  cbn [map seq fold_left Z.of_nat Pos.of_succ_nat Pos.succ]. rewrite !digits_eq by lia.
  repeat f_equal; Z.to_euclidean_division_equations; lia.
Qed.

Definition zeros (n : nat) : list Z := replicate n 0.

Lemma xor_words_zeros c : xor_words (zeros (length c)) c = c.
Proof. unfold zeros. induction c as [|x c IH]; [done|]. cbn. by rewrite IH. Qed.

Lemma polymod_six c s : length c = 6%nat -> Forall (fun d => 0 <= d < 32) c ->
  polymod_from c s = Z.lxor (polymod_from (zeros 6) s) (digits_value c).
Proof.
  intros Hl Hc. rewrite <- (proj1 (polymod_digits c Hl Hc)), <- polymod_linear by by rewrite Hl.
  by rewrite <- Hl, xor_words_zeros, Z.lxor_0_r.
Qed.

Lemma checksum_digits_range p : Forall (fun d => 0 <= d < 32) (checksum_digits p).
Proof. rewrite checksum_digits_eq. repeat constructor; apply Z.mod_pos_bound; lia. Qed.

Lemma integers_bytes l : Forall (fun d => 0 <= d < 256) l -> integers (map byte_of_Z l) = l.
Proof.
  induction 1 as [|d l Hd Hl IH]; [done|]. cbn. unfold integers in IH. rewrite IH, Z_of_byte_of_Z.
  by rewrite u8_small.
Qed.

Lemma bytes_integers l : map byte_of_Z (integers l) = l.
Proof. unfold integers. rewrite map_map. rewrite <- (map_id l) at 2. apply map_ext, byte_of_Z_of_byte. Qed.

Lemma integers_app a b : integers (a ++ b) = integers a ++ integers b.
Proof. apply map_app. Qed.

Lemma integers_range l : Forall (fun d => 0 <= d < 256) (integers l).
Proof. apply List.Forall_map, list.Forall_forall. intros b _. apply Z_of_byte_range. Qed.

(** The checksum of some data, as a number. *)
Definition residue (hrp data : list byte) : Z :=
  polymod_from (zeros 6) (bech32Polymod (bech32HrpExpand hrp ++ integers data)).

Lemma residue_eq hrp data :
  residue hrp data = polymod_from (zeros 6) (polymod_from (bech32HrpExpand hrp ++ integers data) 1).
Proof. reflexivity. Qed.

Lemma bech32Checksum_eq hrp data :
  bech32Checksum hrp data = map byte_of_Z (checksum_digits (Z.lxor (residue hrp data) 1)).
Proof.
  unfold bech32Checksum, checksum_digits, residue, bech32Polymod. rewrite app_assoc, fold_left_app, map_map. done.
Qed.

Lemma length_bech32Checksum hrp data : length (bech32Checksum hrp data) = 6%nat.
Proof. done. Qed.

Lemma bech32Checksum_range hrp data : Forall (fun c : byte => c < 32) (bech32Checksum hrp data).
Proof.
  rewrite bech32Checksum_eq, List.Forall_map. eapply Forall_impl; [|apply checksum_digits_range].
  cbv beta. intros d Hd. rewrite Z_of_byte_of_Z, u8_small by (unfold is_u8; lia). lia.
Qed.

Lemma residue_range hrp data : 0 <= Z.lxor (residue hrp data) 1 < 2 ^ 30.
Proof.
  apply lxor_bound; [|by vm_compute|lia]. unfold residue, zeros. cbn [replicate fold_left].
  apply polymod_step_bound. lia.
Qed.

(** Of the groups that can follow the data, the checksum is the one that is accepted. *)
Lemma VerifyChecksum_iff hrp data c : length c = 6%nat -> Forall (fun d : byte => d < 32) c ->
  bech32VerifyChecksum hrp (data ++ c) = true <-> c = bech32Checksum hrp data.
Proof.
  intros Hl Hc. assert (Hc' : Forall (fun d => 0 <= d < 32) (integers c)).
  { apply List.Forall_map. eapply Forall_impl; [|exact Hc]. cbv beta. intros d Hd. destruct (Z_of_byte_range d). lia. }
  assert (Hl' : length (integers c) = 6%nat) by (unfold integers; by rewrite length_map).
  unfold bech32VerifyChecksum, bech32Polymod. rewrite Z.eqb_eq, integers_app, app_assoc, fold_left_app.
  rewrite (polymod_six _ _ Hl' Hc'), <- residue_eq, bech32Checksum_eq.
  pose proof (residue_range hrp data) as Hr. revert Hr. generalize (residue hrp data). intros r Hr. split.
  - intros H. rewrite <- (bytes_integers c), <- (digits_value_inj (integers c)) by done. f_equal. f_equal.
    rewrite <- H, <- Z.lxor_assoc, Z.lxor_nilpotent. by rewrite Z.lxor_0_l.
  - intros ->. rewrite integers_bytes.
    + rewrite checksum_digits_value by done. by rewrite <- Z.lxor_assoc, Z.lxor_nilpotent.
    + eapply Forall_impl; [|apply checksum_digits_range]. cbv beta. intros d Hd. lia.
Qed.

(** ** Substitutions *)

Lemma polymod_step_zero e : 0 <= e < 2 ^ 30 -> polymod_step e 0 = 0 -> e = 0.
Proof.
  intros He. rewrite polymod_step_eq, Z.lxor_0_r. intros H. apply Z.lxor_eq in H.
  assert (Hr : 0 <= Z.shiftr e 25 < 32).
  { rewrite Z.shiftr_div_pow2 by lia. change (2 ^ 30) with (2 ^ 25 * 32) in He. 
    split; [apply Z.div_pos; lia|]. apply Z.div_lt_upper_bound; lia. }
  assert (Hlow : gen_sum (Z.shiftr e 25) mod 32 = 0).
  { rewrite <- H, Z.shiftl_mul_pow2 by lia. change (2 ^ 5) with 32. apply Z.mod_mul. lia. }
  assert (Hz : Z.shiftr e 25 = 0).
  { assert (Hall : forallb (fun n => negb (gen_sum (Z.of_nat n) mod 32 =? 0) || (n =? 0)%nat) (seq 0 32) = true) by reflexivity.
    rewrite forallb_forall in Hall. specialize (Hall (Z.to_nat (Z.shiftr e 25))).
    rewrite in_seq, Z2Nat.id, Hlow in Hall by lia. specialize (Hall ltac:(lia)). cbn in Hall.
    apply Nat.eqb_eq in Hall. lia. }
  rewrite Hz in H. change (gen_sum 0) with 0 in H. change 0x1ffffff with (Z.ones 25) in H.
  rewrite Z.land_ones, Z.shiftl_mul_pow2 in H by lia. rewrite Z.shiftr_div_pow2 in Hz by lia.
  pose proof (Z.div_mod e (2 ^ 25) ltac:(lia)). lia.
Qed.

Lemma polymod_zeros n : forall e, 0 <= e < 2 ^ 30 -> polymod_from (zeros n) e = 0 -> e = 0.
Proof.
  induction n as [|n IH]; intros e He H; [done|]. cbn in H. apply polymod_step_zero; [done|]. apply IH; [|done].
  apply polymod_step_bound. lia.
Qed.

(** One nonzero group, pushed through up to 88 further positions, is never a single group again. *)
Fixpoint spread (n : nat) (e : Z) : bool :=
  match n with O => true | S n => let e := polymod_step e 0 in (32 <=? e) && spread n e end.

Lemma spread_groups : forallb (fun a => spread 88 (Z.of_nat a)) (seq 1 31) = true.
Proof. vm_compute. reflexivity. Qed.

Lemma spread_group a : (1 <= a < 32)%nat -> spread 88 (Z.of_nat a) = true.
Proof.
  intros Ha. pose proof spread_groups as H. rewrite forallb_forall in H. apply (H a), in_seq. lia.
Qed.

Fixpoint weight (w : list Z) : nat := match w with [] => 0 | x :: w => (if x =? 0 then 0 else 1) + weight w end.

Lemma weight_zero w : weight w = 0%nat -> w = zeros (length w).
Proof. induction w as [|x w IH]; [done|]. cbn. destruct (Z.eqb_spec x 0) as [->|]; [|lia]. intros H. f_equal. by apply IH. Qed.


Lemma polymod_weight_one w : forall n e, (length w <= n)%nat -> 0 < e < 2 ^ 30 -> spread n e = true ->
  Forall (fun d => 0 <= d < 32) w -> (weight w <= 1)%nat -> polymod_from w e <> 0.
Proof.
  induction w as [|v w IH]; intros n e Hn He Hs Hw Hwt; cbn [fold_left]; [lia|].
  destruct n as [|n]; [cbn in Hn; lia|]. cbn [spread weight length] in Hs, Hn, Hwt. apply andb_true_iff in Hs as [Hge Hs].
  apply Z.leb_le in Hge. apply list.Forall_cons in Hw as [Hv Hw].
  pose proof (polymod_step_bound e 0 ltac:(lia)) as Hb.
  destruct (Z.eqb_spec v 0) as [->|Hne].
  - apply (IH n); [lia| |done|done|done]. lia.
  - rewrite (weight_zero w) by lia. intros H.
    pose proof (polymod_step_bound e v ltac:(lia)) as Hb'. apply polymod_zeros in H; [|done].
    rewrite <- (Z.lxor_0_r e), <- (Z.lxor_0_l v), polymod_step_linear in H. apply Z.lxor_eq in H.
    rewrite (polymod_step_shift 0 v) in H by lia. lia.
Qed.

Lemma polymod_weight_two w : (length w <= 89)%nat -> Forall (fun d => 0 <= d < 32) w -> (weight w <= 2)%nat ->
  polymod_from w 0 = 0 -> w = zeros (length w).
Proof.
  induction w as [|v w IH]; intros Hl Hw Hwt H; [done|]. cbn [length weight fold_left] in *. apply list.Forall_cons in Hw as [Hv Hw].
  rewrite polymod_step_shift in H by lia. rewrite Z.mul_0_r, Z.add_0_l in H.
  destruct (Z.eqb_spec v 0) as [->|Hne]; [unfold zeros in *; cbn [replicate]; f_equal; apply IH; (done || lia)|]. exfalso. revert H.
  apply (polymod_weight_one w 88); [lia|change (2 ^ 30) with 1073741824; lia| |done|lia].
  rewrite <- (Z2Nat.id v) by lia. apply spread_group. lia.
Qed.

(** The positions at which two words differ. *)
Fixpoint differences (a b : list byte) : nat :=
  match a, b with x :: a, y :: b => (if Byte.eqb x y then 0 else 1) + differences a b | _, _ => 0 end.

Lemma Byte_eqb_Z (x y : byte) : Byte.eqb x y = (Z.lxor x y =? 0).
Proof.
  destruct (Byte.eqb x y) eqn:E.
  - apply Byte.byte_dec_bl in E as ->. by rewrite Z.lxor_nilpotent.
  - symmetry. apply Z.eqb_neq. intros H. apply Z.lxor_eq in H. apply (f_equal byte_of_Z) in H.
    rewrite !byte_of_Z_of_byte in H. subst y. by rewrite (Byte.byte_dec_lb (x := x) eq_refl) in E.
Qed.

Lemma weight_differences a : forall b, weight (xor_words (integers a) (integers b)) = differences a b.
Proof. induction a as [|x a IH]; intros [|y b]; [done..|]. cbn. rewrite Byte_eqb_Z. unfold integers in IH. by rewrite IH. Qed.

Lemma xor_words_range a : forall b, Forall (fun d : byte => d < 32) a -> Forall (fun d : byte => d < 32) b ->
  Forall (fun d => 0 <= d < 32) (xor_words (integers a) (integers b)).
Proof.
  induction a as [|x a IH]; intros [|y b] Ha Hb; cbn; try constructor.
  - apply list.Forall_cons in Ha as [Ha _], Hb as [Hb _]. destruct (Z_of_byte_range x), (Z_of_byte_range y).
    apply (lxor_bound x y 5); change (2 ^ 5) with 32; lia.
  - apply list.Forall_cons in Ha as [_ Ha], Hb as [_ Hb]. by apply IH.
Qed.

Lemma xor_words_eq a : forall b, length a = length b ->
  xor_words (integers a) (integers b) = zeros (length (xor_words (integers a) (integers b))) -> a = b.
Proof.
  induction a as [|x a IH]; intros [|y b] Hl H; try discriminate; [done|]. cbn in H. injection H as Hx H.
  apply Z.lxor_eq in Hx. apply (f_equal byte_of_Z) in Hx. rewrite !byte_of_Z_of_byte in Hx. subst y. f_equal.
  apply IH; [by injection Hl|exact H].
Qed.

Lemma length_xor_words a : forall b, length a = length b -> length (xor_words a b) = length a.
Proof. induction a as [|x a IH]; intros [|y b] Hl; try discriminate; [done|]. cbn. rewrite IH; [done|]. by injection Hl. Qed.

(** Two words with the same prefix that are both accepted differ in three places at least. *)
Lemma VerifyChecksum_distance hrp a b : length a = length b -> (length a <= 89)%nat ->
  Forall (fun d : byte => d < 32) a -> Forall (fun d : byte => d < 32) b -> (differences a b <= 2)%nat ->
  bech32VerifyChecksum hrp a = true -> bech32VerifyChecksum hrp b = true -> a = b.
Proof.
  intros Hl Hn Ha Hb Hd Va Vb. apply Z.eqb_eq in Va, Vb. unfold bech32Polymod in Va, Vb. rewrite fold_left_app in Va, Vb.
  pose proof (polymod_linear (integers a) (integers b) (polymod_from (bech32HrpExpand hrp) 1) (polymod_from (bech32HrpExpand hrp) 1)) as H.
  rewrite Va, Vb, !Z.lxor_nilpotent in H. unfold integers in H at 1 2. rewrite !length_map in H. specialize (H Hl).
  apply xor_words_eq; [done|]. apply polymod_weight_two; [| |rewrite weight_differences; done|exact H].
  - rewrite length_xor_words; unfold integers; rewrite !length_map; done.
  - by apply xor_words_range.
Qed.

(** ** Strings *)

Lemma IndexByte_some s c : forall i, IndexByte s c = Some i -> (i < length s)%nat /\ nth i s x00 = c.
Proof.
  induction s as [|x s IH]; intros i H; [done|]. cbn in H. destruct (Byte.eqb x c) eqn:E.
  - injection H as <-. apply Byte.byte_dec_bl in E as ->. cbn. split; [lia|done].
  - destruct (IndexByte s c) as [j|]; [|done]. injection H as <-. destruct (IH j eq_refl). cbn. split; [lia|done].
Qed.

Lemma charset_index i : (i < 32)%nat -> IndexByte charset (nth i charset x00) = Some i.
Proof.
  intros Hi. do 32 (destruct i as [|i]; [reflexivity|]). lia.
Qed.

Lemma charset_lower i : (i < 32)%nat ->
  lower_byte (nth i charset x00) = nth i charset x00 /\ Byte.eqb (nth i charset x00) x31 = false.
Proof. intros Hi. do 32 (destruct i as [|i]; [split; reflexivity|]). lia. Qed.

Lemma toChars_spec data : forall chars, toChars data = Ok chars <->
  Forall (fun b : byte => b < 32) data /\ chars = map (fun b : byte => nth (Z.to_nat b) charset x00) data.
Proof.
  induction data as [|b data IH]; intros chars; cbn [toChars map].
  - split; [intros [= <-]; by split|]. by intros [_ ->].
  - change (Z.of_nat (length charset)) with 32. destruct (Z.leb_spec 32 b) as [Hge|Hlt].
    + split; [done|]. intros [H _]. apply list.Forall_cons in H as [H _]. lia.
    + destruct (toChars data) as [rest|e|]; cbn [rbind].
      { destruct (proj1 (IH rest) eq_refl) as [Hd ->]. split; [intros [= <-]|intros [_ ->]; done].
        split; [by constructor|done]. }
      all: split; [done|]; intros [H ->]; apply list.Forall_cons in H as [_ H];
        by specialize (proj2 (IH _) (conj H eq_refl)).
Qed.

Lemma cons_eq {A} (x y : A) l m : x :: l = y :: m -> x = y /\ l = m.
Proof. by intros [= -> ->]. Qed.

Lemma toBytes_spec chars : forall data, toBytes chars = Ok data <-> toChars data = Ok chars.
Proof.
  induction chars as [|c chars IH]; intros data; cbn [toBytes].
  - rewrite toChars_spec. split; [intros [= <-]; by split|]. intros [_ H]. by destruct data.
  - destruct (IndexByte charset c) as [i|] eqn:Ei.
    + apply IndexByte_some in Ei as [Hi <-]. change (length charset) with 32%nat in Hi.
      assert (Hb : Z_of_byte (byte_of_Z (Z.of_nat i)) = Z.of_nat i).
      { rewrite Z_of_byte_of_Z, u8_small; [done|unfold is_u8; lia]. }
      destruct (toBytes chars) as [rest|e|]; cbn [rbind].
      { pose proof (proj1 (IH rest) eq_refl) as Hr. rewrite toChars_spec in Hr. destruct Hr as [Hr ->].
        rewrite toChars_spec. split.
        -- intros [= <-]. split; [constructor; [rewrite Hb; lia|done]|]. cbn. by rewrite Hb, Nat2Z.id.
        -- intros [Hd Heq]. destruct data as [|b data]; [done|]. apply cons_eq in Heq as [Hn Hrest]. f_equal.
           apply list.Forall_cons in Hd as [Hb32 Hd]. f_equal.
           ++ destruct (Z_of_byte_range b) as [Hb0 _].
              apply (f_equal (IndexByte charset)) in Hn. rewrite !charset_index in Hn by lia. injection Hn as ->.
              by rewrite Z2Nat.id, byte_of_Z_of_byte by lia.
           ++ assert (H : Ok rest = Ok data :> result bech32_error _); [|by injection H].
              apply IH, toChars_spec. by split. }
      all: split; [done|]; rewrite toChars_spec; intros [Hd Heq]; destruct data as [|b data]; [done|];
        apply cons_eq in Heq as [Hn Hrest]; apply list.Forall_cons in Hd as [_ Hd];
        by specialize (proj2 (IH data) (proj2 (toChars_spec _ _) (conj Hd Hrest))).
    + split; [done|]. rewrite toChars_spec. intros [Hd Heq]. destruct data as [|b data]; [done|].
      apply cons_eq in Heq as [Hn _]. apply list.Forall_cons in Hd as [Hb _]. destruct (Z_of_byte_range b).
      by rewrite Hn, charset_index in Ei by lia.
Qed.

Lemma LastIndexByte_some s c : forall i, LastIndexByte s c = Some i -> s = take i s ++ c :: drop (i + 1) s.
Proof.
  induction s as [|x s IH]; intros i H; [done|]. cbn in H. destruct (LastIndexByte s c) as [j|].
  - injection H as <-. cbn. f_equal. by apply IH.
  - destruct (Byte.eqb x c) eqn:E; [|done]. injection H as <-. by apply Byte.byte_dec_bl in E as ->.
Qed.

Lemma LastIndexByte_app h c t : Forall (fun x => Byte.eqb x c = false) t ->
  LastIndexByte (h ++ c :: t) c = Some (length h).
Proof.
  intros Ht. assert (Hn : LastIndexByte t c = None).
  { induction Ht as [|x t Hx Ht IH]; [done|]. cbn. by rewrite IH, Hx. }
  induction h as [|x h IH]; cbn; [|by rewrite IH]. by rewrite Hn, (Byte.byte_dec_lb eq_refl).
Qed.

Lemma toChars_separator data chars : toChars data = Ok chars -> Forall (fun x => Byte.eqb x x31 = false) chars.
Proof.
  intros H. apply toChars_spec in H as [Hd ->]. apply List.Forall_map. eapply Forall_impl; [|exact Hd]. cbv beta.
  intros b Hb. destruct (Z_of_byte_range b). apply charset_lower. lia.
Qed.

Lemma length_toChars data chars : toChars data = Ok chars -> length chars = length data.
Proof. intros H. apply toChars_spec in H as [_ ->]. by rewrite length_map. Qed.

Lemma Encode_inv hrp data s : Encode hrp data = Ok s <-> exists chars,
  toChars (data ++ bech32Checksum hrp data) = Ok chars /\ s = hrp ++ x31 :: chars.
Proof.
  unfold Encode. destruct (toChars _) as [chars|e|]; cbn [rbind].
  { split; [intros [= <-]; by exists chars|]. by intros (c & [= <-] & ->). }
  all: split; [done|]; by intros (c & ? & _).
Qed.

(** What Decode asks of the characters alone. *)
Definition readable (s : list byte) : Prop :=
  (length s <= 90)%nat /\ forallb printable s = true /\ (s = ToLower s \/ s = ToUpper s).

Lemma length_ToLower s : length (ToLower s) = length s.
Proof. unfold ToLower. by rewrite length_map. Qed.

Lemma Decode_sound s hrp data : Decode s = Ok (hrp, data) ->
  Encode hrp data = Ok (ToLower s) /\ hrp <> [] /\ readable s.
Proof.
  unfold Decode. destruct ((_ <? 8)%nat || _) eqn:Hlen; [done|].
  destruct (forallb printable s) eqn:Hp; [|done]. cbn [negb].
  destruct (negb (bool_decide (s = ToLower s)) && _) eqn:Hcase; [done|].
  destruct (LastIndexByte (ToLower s) x31) as [one|] eqn:Hone; [|done].
  destruct ((one <? 1)%nat || _) eqn:Hsep; [done|].
  apply orb_false_iff in Hlen as [_ Hlen], Hsep as [Hone1 Hsep]. apply Nat.ltb_ge in Hlen, Hone1, Hsep.
  destruct (toBytes _) as [decoded|e|] eqn:Hd; cbn [rbind]; [|done|done].
  destruct (bech32VerifyChecksum _ decoded) eqn:Hv; [|done]. cbn [negb]. intros [= <- <-].
  apply toBytes_spec in Hd. pose proof (length_toChars _ _ Hd) as Hl. rewrite length_drop, length_ToLower in Hl.
  assert (H32 := proj1 (proj1 (toChars_spec _ _) Hd)).
  set (n := (length decoded - 6)%nat) in *. rewrite <- (take_drop n decoded) in Hv, Hd, H32.
  apply Forall_app in H32 as [_ H32]. apply VerifyChecksum_iff in Hv; [|rewrite length_drop; unfold n; lia|done].
  split; [|split].
  - apply Encode_inv. exists (drop (one + 1) (ToLower s)). split; [by rewrite <- Hv|]. by apply LastIndexByte_some.
  - intros H. apply (f_equal length) in H. rewrite length_take, length_ToLower in H. cbn in H. lia.
  - split; [lia|]. split; [done|]. do 2 case_bool_decide; try done; auto.
Qed.

Lemma Decode_complete s hrp data : Encode hrp data = Ok (ToLower s) -> hrp <> [] -> readable s ->
  Decode s = Ok (hrp, data).
Proof.
  intros He Hh (Hlen & Hp & Hcase). apply Encode_inv in He as (chars & Hc & Hs).
  pose proof (length_toChars _ _ Hc) as Hl. rewrite length_app, length_bech32Checksum in Hl.
  assert (Hn : length s = (length hrp + 1 + length chars)%nat) by (rewrite <- length_ToLower, Hs, length_app; cbn; lia).
  assert (Hh' : (1 <= length hrp)%nat) by (destruct hrp; [done|cbn; lia]).
  unfold Decode. rewrite Hp. cbn [negb]. rewrite Hs in Hcase |- *.
  rewrite (proj2 (Nat.ltb_ge _ 8)), (proj2 (Nat.ltb_ge 90 _)) by lia. cbn [orb].
  destruct (negb (bool_decide (s = _)) && _) eqn:E.
  { apply andb_true_iff in E as [E1 E2]. apply negb_true_iff, bool_decide_eq_false in E1, E2. tauto. }
  rewrite LastIndexByte_app by by eapply toChars_separator.
  rewrite (proj2 (Nat.ltb_ge _ 1)), (proj2 (Nat.ltb_ge (length s) _)) by lia. cbn [orb]. rewrite take_app_length.
  replace (hrp ++ x31 :: chars) with ((hrp ++ [x31]) ++ chars) by by rewrite <- app_assoc.
  rewrite drop_app_length' by (rewrite length_app; done). rewrite (proj2 (toBytes_spec _ _) Hc). cbn [rbind].
  rewrite (proj2 (VerifyChecksum_iff hrp data _ (length_bech32Checksum hrp data) (bech32Checksum_range hrp data)) eq_refl).
  cbn [negb]. rewrite length_app, length_bech32Checksum. rewrite take_app_length' by lia. done.
Qed.

(** C29: Decode and Encode are exact inverses.  A string decodes to a prefix and
    groups of five bits precisely when it is printable, not of mixed case and
    at most 90 characters, the prefix is not empty, and encoding the prefix and
    the groups gives the string in lower case.  Of two accepted words with the
    same prefix and length neither can be the other with one or two characters
    changed. *)
Theorem bech32_exact : (forall s hrp data, Decode s = Ok (hrp, data) <->
    Encode hrp data = Ok (ToLower s) /\ hrp <> [] /\ (length s <= 90)%nat /\
    forallb printable s = true /\ (s = ToLower s \/ s = ToUpper s)) /\
  (forall hrp a b, length a = length b /\ (length a <= 89)%nat /\
    Forall (fun d : byte => d < 32) a /\ Forall (fun d : byte => d < 32) b /\ (differences a b <= 2)%nat /\
    bech32VerifyChecksum hrp a = true /\ bech32VerifyChecksum hrp b = true -> a = b).
Proof.
  split; [|intros hrp a b (H1 & H2 & H3 & H4 & H5 & H6 & H7); by eapply VerifyChecksum_distance].
  intros s hrp data. split; [apply Decode_sound|]. intros (He & Hh & Hr). by apply Decode_complete.
Qed.
