(* ===== verification/Address.v ===== *)
(** * Addresses: drcutil/address.go, drcutil/hash160.go, chaincfg/params.go, txscript/standard.go

    The registry of networks, the five kinds of address with their text forms,
    and the scripts that pay to them.  Error texts are left out; a Go string is a
    list of bytes.  strings.ToLower is written out on ASCII strings; what it does
    on strings with other characters is an argument of the definitions, and no
    theorem depends on it. *)
From stdpp Require Import gmap.
From S2P Require Import Prelude Chainhash Wire Hash WireMsg ScriptNum Stack Opcode Script.
From S2P Require Import ScriptBuilder Signature Engine EngineSafety EngineCache PubKeyHash Standard.
From S2P Require Import Base58 Bech32 Bech32Spec.
Import ListNotations.
Open Scope Z_scope.
Open Scope list_scope.

(** ** Networks: chaincfg/params.go *)

(** The fields of [Params] that addresses depend on. *)
Record NetParams := mkNetParams {
  Net : Z;
  Bech32HRPSegwit : list byte;
  PubKeyHashAddrID : byte;
  ScriptHashAddrID : byte;
  PrivateKeyID : byte;
  HDPrivateKeyID : list byte;
  HDPublicKeyID : list byte
}.

(** wire.MainNet is 0xd9b4bef9; the line that would set Bech32HRPSegwit is commented out. *)
Definition MainNetParams : NetParams :=
  mkNetParams 0xd9b4bef9 [] x00 x05 x80 [x04; x88; xad; xe4] [x04; x88; xb2; x1e].

(** The package variables. *)
Record Registry := mkRegistry {
  registeredNets : gset Z;
  pubKeyHashAddrIDs : gset byte;
  scriptHashAddrIDs : gset byte;
  bech32SegwitPrefixes : gset (list byte);
  hdPrivToPubKeyIDs : gmap (list byte) (list byte)
}.

Variant registry_error := ErrDuplicateNet | ErrUnknownHDKeyID.

Definition empty_registry : Registry := mkRegistry ∅ ∅ ∅ ∅ ∅.

Definition Register (params : NetParams) (r : Registry) : result registry_error Registry :=
  if bool_decide (Net params ∈ registeredNets r) then Err ErrDuplicateNet
  else Ok (mkRegistry ({[Net params]} ∪ registeredNets r)
             ({[PubKeyHashAddrID params]} ∪ pubKeyHashAddrIDs r)
             ({[ScriptHashAddrID params]} ∪ scriptHashAddrIDs r)
             ({[Bech32HRPSegwit params ++ [x31]]} ∪ bech32SegwitPrefixes r)
             (<[HDPrivateKeyID params := HDPublicKeyID params]> (hdPrivToPubKeyIDs r))).

Definition mustRegister (params : NetParams) (r : Registry) : result registry_error Registry :=
  match Register params r with Err _ => Panic | ok => ok end.

Definition init : result registry_error Registry := mustRegister MainNetParams empty_registry.

Definition IsPubKeyHashAddrID (r : Registry) (id : byte) : bool := bool_decide (id ∈ pubKeyHashAddrIDs r).
Definition IsScriptHashAddrID (r : Registry) (id : byte) : bool := bool_decide (id ∈ scriptHashAddrIDs r).

Definition HDPrivateKeyToPublicKeyID (r : Registry) (id : list byte) : result registry_error (list byte) :=
  if negb (length id =? 4)%nat then Err ErrUnknownHDKeyID
  else match hdPrivToPubKeyIDs r !! id with
       | None => Err ErrUnknownHDKeyID
       | Some pubBytes => Ok pubBytes
       end.

(** ** Kinds of address *)

Inductive PubKeyFormat := PKFUncompressed | PKFCompressed | PKFHybrid.

Inductive Address :=
  | AddressPubKeyHash (hash : list byte) (netID : byte)
  | AddressScriptHash (hash : list byte) (netID : byte)
  | AddressPubKey (pubKeyFormat : PubKeyFormat) (pubKey : PubKey) (pubKeyHashID : byte)
  | AddressWitnessPubKeyHash (hrp : list byte) (witnessVersion : byte) (witnessProgram : list byte)
  | AddressWitnessScriptHash (hrp : list byte) (witnessVersion : byte) (witnessProgram : list byte).

Inductive address_error :=
  | UnsupportedWitnessVerError (v : byte)
  | UnsupportedWitnessProgLenError (n : nat)
  | ErrChecksumMismatch | ErrUnknownAddressType | ErrAddressCollision
  | ErrUnknownFormat | ErrUnknownSize | ErrHashLength | ErrWitnessProgramLength
  | ErrNoWitnessVersion | ErrWitnessVersion | ErrDataLength | ErrInvalidSegwit
  | ErrBech32 (e : bech32_error) | ErrHex (e : hash_error) | ErrPubKey (e : key_error).

(** An error of a package below, as this package returns it. *)
Definition wrap {E A} (f : E -> address_error) (r : result E A) : result address_error A :=
  match r with Ok a => Ok a | Err e => Err (f e) | Panic => Panic end.

Section Addresses.
Context `{HashFunctions, ScriptHashes}.
(** strings.ToLower on a string with a byte outside ASCII. *)
Variable unicode_lower : list byte -> list byte.

Definition ascii (c : byte) : bool := c <? 128.
Definition strings_ToLower (s : list byte) : list byte :=
  if forallb ascii s then Bech32.ToLower s else unicode_lower s.

Definition IsBech32SegwitPrefix (r : Registry) (prefix : list byte) : bool :=
  let prefix := strings_ToLower prefix in
  bool_decide (prefix ∈ bech32SegwitPrefixes r).

Definition Hash160 (buf : list byte) : list byte := Ripemd160 (Sum256 buf).

(** The hashes are arrays of 20 bytes or results of [Hash160], so [hash160[:20]]
    is in range. *)
Definition encodeAddress (hash160 : list byte) (netID : byte) : list byte :=
  Base58.CheckEncode (take 20 hash160) netID.

Definition decodeSegWitAddress (address : list byte) : result address_error (byte * list byte) :=
  let* (_, d) := wrap ErrBech32 (Bech32.Decode address) in
  match d with
  | [] => Err ErrNoWitnessVersion
  | version :: rest =>
      if 16 <? version then Err ErrWitnessVersion
      else
        let* regrouped := wrap ErrBech32 (Bech32.ConvertBits rest 5 8 false) in
        let n := length regrouped in
        if (n <? 2)%nat || (40 <? n)%nat then Err ErrDataLength
        else if (version =? 0) && negb (n =? 20)%nat && negb (n =? 32)%nat then Err ErrDataLength
        else Ok (version, regrouped)
  end.

Definition encodeSegWitAddress (hrp : list byte) (witnessVersion : byte) (witnessProgram : list byte)
  : result address_error (list byte) :=
  let* converted := wrap ErrBech32 (Bech32.ConvertBits witnessProgram 8 5 true) in
  let combined := witnessVersion :: converted in
  let* bech := wrap ErrBech32 (Bech32.Encode hrp combined) in
  match decodeSegWitAddress bech with
  | Err _ => Err ErrInvalidSegwit
  | Panic => Panic
  | Ok (version, program) =>
      if negb (Byte.eqb version witnessVersion) || negb (bool_decide (program = witnessProgram))
      then Err ErrInvalidSegwit
      else Ok bech
  end.

(** ** Making addresses *)

Definition newAddressPubKeyHash (pkHash : list byte) (netID : byte) : result address_error Address :=
  if negb (length pkHash =? 20)%nat then Err ErrHashLength else Ok (AddressPubKeyHash pkHash netID).
Definition NewAddressPubKeyHash (pkHash : list byte) (net : NetParams) : result address_error Address :=
  newAddressPubKeyHash pkHash (PubKeyHashAddrID net).

Definition newAddressScriptHashFromHash (scriptHash : list byte) (netID : byte) : result address_error Address :=
  if negb (length scriptHash =? 20)%nat then Err ErrHashLength else Ok (AddressScriptHash scriptHash netID).
Definition NewAddressScriptHashFromHash (scriptHash : list byte) (net : NetParams) : result address_error Address :=
  newAddressScriptHashFromHash scriptHash (ScriptHashAddrID net).
Definition NewAddressScriptHash (serializedScript : list byte) (net : NetParams) : result address_error Address :=
  let scriptHash := Hash160 serializedScript in
  newAddressScriptHashFromHash scriptHash (ScriptHashAddrID net).

Definition NewAddressPubKey (serializedPubKey : list byte) (net : NetParams) : result address_error Address :=
  let* pubKey := wrap ErrPubKey (ParsePubKey serializedPubKey) in
  match serializedPubKey with
  | [] => Panic (* the index of the first byte; an empty string does not parse *)
  | b :: _ =>
      let pkFormat :=
        if (b =? 0x02) || (b =? 0x03) then PKFCompressed
        else if (b =? 0x06) || (b =? 0x07) then PKFHybrid
        else PKFUncompressed in
      Ok (AddressPubKey pkFormat pubKey (PubKeyHashAddrID net))
  end.

Definition newAddressWitnessPubKeyHash (hrp witnessProg : list byte) : result address_error Address :=
  if negb (length witnessProg =? 20)%nat then Err ErrWitnessProgramLength
  else Ok (AddressWitnessPubKeyHash (strings_ToLower hrp) x00 witnessProg).
Definition NewAddressWitnessPubKeyHash (witnessProg : list byte) (net : NetParams) : result address_error Address :=
  newAddressWitnessPubKeyHash (Bech32HRPSegwit net) witnessProg.

Definition newAddressWitnessScriptHash (hrp witnessProg : list byte) : result address_error Address :=
  if negb (length witnessProg =? 32)%nat then Err ErrWitnessProgramLength
  else Ok (AddressWitnessScriptHash (strings_ToLower hrp) x00 witnessProg).
Definition NewAddressWitnessScriptHash (witnessProg : list byte) (net : NetParams) : result address_error Address :=
  newAddressWitnessScriptHash (Bech32HRPSegwit net) witnessProg.

(** ** The interface *)

Definition serialize (pubKeyFormat : PubKeyFormat) (pubKey : PubKey) : list byte :=
  match pubKeyFormat with
  | PKFUncompressed => SerializeUncompressed pubKey
  | PKFCompressed => SerializeCompressed pubKey
  | PKFHybrid => SerializeHybrid pubKey
  end.

(** An error gives the empty string. *)
Definition segwit_string (hrp : list byte) (version : byte) (program : list byte) : list byte :=
  match encodeSegWitAddress hrp version program with Ok str => str | _ => [] end.

Definition EncodeAddress (a : Address) : list byte :=
  match a with
  | AddressPubKeyHash hash netID | AddressScriptHash hash netID => encodeAddress hash netID
  | AddressPubKey fmt key id => encodeAddress (Hash160 (serialize fmt key)) id
  | AddressWitnessPubKeyHash hrp version program | AddressWitnessScriptHash hrp version program =>
      segwit_string hrp version program
  end.

Definition ScriptAddress (a : Address) : list byte :=
  match a with
  | AddressPubKeyHash hash _ | AddressScriptHash hash _ => hash
  | AddressPubKey fmt key _ => serialize fmt key
  | AddressWitnessPubKeyHash _ _ program | AddressWitnessScriptHash _ _ program => program
  end.

Definition IsForNet (a : Address) (net : NetParams) : bool :=
  match a with
  | AddressPubKeyHash _ netID => Byte.eqb netID (PubKeyHashAddrID net)
  | AddressScriptHash _ netID => Byte.eqb netID (ScriptHashAddrID net)
  | AddressPubKey _ _ id => Byte.eqb id (PubKeyHashAddrID net)
  | AddressWitnessPubKeyHash hrp _ _ | AddressWitnessScriptHash hrp _ _ => bool_decide (hrp = Bech32HRPSegwit net)
  end.

Definition address_String (a : Address) : list byte :=
  match a with
  | AddressPubKey fmt key _ => hex_encode (serialize fmt key)
  | _ => EncodeAddress a
  end.

(** The pay-to-pubkey-hash address of a public key address. *)
Definition pubkey_to_hash (fmt : PubKeyFormat) (key : PubKey) (id : byte) : Address :=
  AddressPubKeyHash (Hash160 (serialize fmt key)) id.

(** ** Reading addresses *)

Definition decode_segwit (addr hrp : list byte) : result address_error Address :=
  let* (witnessVer, witnessProg) := decodeSegWitAddress addr in
  if negb (witnessVer =? 0) then Err (UnsupportedWitnessVerError witnessVer)
  else if (length witnessProg =? 20)%nat then newAddressWitnessPubKeyHash hrp witnessProg
  else if (length witnessProg =? 32)%nat then newAddressWitnessScriptHash hrp witnessProg
  else Err (UnsupportedWitnessProgLenError (length witnessProg)).

Definition decode_base58 (r : Registry) (addr : list byte) : result address_error Address :=
  match Base58.CheckDecode addr with
  | Err ErrChecksum => Err ErrChecksumMismatch
  | Err ErrInvalidFormat => Err ErrUnknownFormat
  | Panic => Panic
  | Ok (decoded, netID) =>
      if (length decoded =? 20)%nat then
        let isP2PKH := IsPubKeyHashAddrID r netID in
        let isP2SH := IsScriptHashAddrID r netID in
        if isP2PKH && isP2SH then Err ErrAddressCollision
        else if isP2PKH then newAddressPubKeyHash decoded netID
        else if isP2SH then newAddressScriptHashFromHash decoded netID
        else Err ErrUnknownAddressType
      else Err ErrUnknownSize
  end.

(** Where the separator is, when the string starts with a known prefix. *)
Definition segwit_prefix (r : Registry) (addr : list byte) : option nat :=
  match Bech32.LastIndexByte addr x31 with
  | Some oneIndex =>
      if (1 <? oneIndex)%nat && IsBech32SegwitPrefix r (take (oneIndex + 1) addr) then Some oneIndex else None
  | None => None
  end.

Definition DecodeAddress (r : Registry) (addr : list byte) (defaultNet : NetParams) : result address_error Address :=
  match segwit_prefix r addr with
  | Some oneIndex =>
      let prefix := take (oneIndex + 1) addr in
      decode_segwit addr (take (length prefix - 1) prefix)
  | None =>
      (* hex.DecodeString: the number of digits is even *)
      if (length addr =? 130)%nat || (length addr =? 66)%nat then
        let* serializedPubKey := wrap ErrHex (hex_decode addr) in
        NewAddressPubKey serializedPubKey defaultNet
      else decode_base58 r addr
  end.

(** ** Scripts that pay to an address: txscript/standard.go *)

(** [None] is a nil address of any kind; there are no further kinds. *)
Definition PayToAddrScript (addr : option Address) : result script_error (list byte) :=
  match addr with
  | None => Err ErrUnsupportedAddress
  | Some a =>
      match a with
      | AddressPubKeyHash _ _ => payToPubKeyHashScript (ScriptAddress a)
      | AddressScriptHash _ _ => payToScriptHashScript (ScriptAddress a)
      | AddressPubKey _ _ _ => payToPubKeyScript (ScriptAddress a)
      | AddressWitnessPubKeyHash _ _ _ => payToWitnessPubKeyHashScript (ScriptAddress a)
      | AddressWitnessScriptHash _ _ _ => payToWitnessScriptHashScript (ScriptAddress a)
      end
  end.

(** The addresses of public keys, by their fields. *)
Definition MultiSigScript (pubkeys : list (PubKeyFormat * PubKey * byte)) (nrequired : Z)
  : result script_error (list byte) :=
  multi_sig_script (map (fun '(fmt, key, id) => ScriptAddress (AddressPubKey fmt key id)) pubkeys) nrequired.

(** An address that cannot be made is left out. *)
Definition address_list (r : result address_error Address) : list Address :=
  match r with Ok a => [a] | _ => [] end.

Definition ExtractPkScriptAddrs (pkScript : list byte) (chainParams : NetParams)
  : ScriptClass * list Address * Z * option script_error :=
  match parseScript pkScript with
  | (_, Some e) => (NonStandardTy, [], 0, Some e)
  | (pops, None) =>
      let scriptClass := typeOfScript pops in
      let pushed i := data (nth_pop pops i) in
      let '(addrs, requiredSigs) :=
        match scriptClass with
        | PubKeyHashTy => (address_list (NewAddressPubKeyHash (pushed 2%nat) chainParams), 1)
        | WitnessV0PubKeyHashTy => (address_list (NewAddressWitnessPubKeyHash (pushed 1%nat) chainParams), 1)
        | PubKeyTy => (address_list (NewAddressPubKey (pushed 0%nat) chainParams), 1)
        | ScriptHashTy => (address_list (NewAddressScriptHashFromHash (pushed 1%nat) chainParams), 1)
        | WitnessV0ScriptHashTy => (address_list (NewAddressWitnessScriptHash (pushed 1%nat) chainParams), 1)
        | MultiSigTy =>
            let requiredSigs := asSmallInt (pop_opcode (nth_pop pops 0)) in
            let numPubKeys := asSmallInt (pop_opcode (nth_pop pops (length pops - 2))) in
            (concat (map (fun i => address_list (NewAddressPubKey (pushed (i + 1)%nat) chainParams))
                       (seq 0 (Z.to_nat numPubKeys))), requiredSigs)
        | NullDataTy | NonStandardTy => ([], 0)
        end in
      (scriptClass, addrs, requiredSigs, None)
  end.

End Addresses.
