(* ===== verification/AddressSpec.v ===== *)
(** * Addresses are read back as they were written

    [DecodeAddress] against the text forms of the five kinds of address, and
    [ExtractPkScriptAddrs] against [PayToAddrScript]. *)
From stdpp Require Import gmap.
From S2P Require Import Prelude Chainhash Wire Hash WireMsg ScriptNum Stack Opcode Script.
From S2P Require Import ScriptBuilder Signature Engine EngineSafety EngineCache PubKeyHash Standard.
From S2P Require Import Base58 Bech32 Bech32Spec PubKeySpec Address.
Import ListNotations.
Open Scope Z_scope.
Open Scope list_scope.

(** ** Lower case *)

Lemma lower_byte_idem c : Bech32.lower_byte (Bech32.lower_byte c) = Bech32.lower_byte c.
Proof. by destruct c. Qed.

Lemma ToLower_idem s : Bech32.ToLower (Bech32.ToLower s) = Bech32.ToLower s.
Proof. unfold Bech32.ToLower. rewrite map_map. apply map_ext, lower_byte_idem. Qed.

Lemma lower_printable c : Bech32.printable c = true -> Bech32.printable (Bech32.lower_byte c) = true.
Proof. by destruct c. Qed.

Lemma printable_ascii c : Bech32.printable c = true -> ascii c = true.
Proof. by destruct c. Qed.

Lemma lower_one c : Byte.eqb (Bech32.lower_byte c) x31 = Byte.eqb c x31.
Proof. by destruct c. Qed.

Lemma LastIndexByte_lower s : Bech32.LastIndexByte (Bech32.ToLower s) x31 = Bech32.LastIndexByte s x31.
Proof.
  induction s as [|c s IH]; [done|]. cbn [Bech32.ToLower map Bech32.LastIndexByte]. unfold Bech32.ToLower in IH.
  by rewrite IH, lower_one.
Qed.

Lemma forallb_map_true {A B} (p : B -> bool) (q : A -> bool) (f : A -> B) l :
  (forall x, q x = true -> p (f x) = true) -> forallb q l = true -> forallb p (map f l) = true.
Proof.
  intros Hpq. rewrite !forallb_forall. intros Hl y Hy. apply in_map_iff in Hy as (x & <- & Hx). auto.
Qed.

Lemma forallb_take {A} (p : A -> bool) n l : forallb p l = true -> forallb p (take n l) = true.
Proof.
  rewrite <- (take_drop n l) at 1. rewrite forallb_app. by intros [H _]%andb_true_iff.
Qed.

Lemma printable_all_ascii s : forallb Bech32.printable s = true -> forallb ascii s = true.
Proof. rewrite !forallb_forall. auto using printable_ascii. Qed.

Lemma readable_lower s : readable s -> readable (Bech32.ToLower s).
Proof.
  intros (Hl & Hp & _). split; [by rewrite length_ToLower|]. split; [|left; by rewrite ToLower_idem].
  revert Hp. apply forallb_map_true, lower_printable.
Qed.

Section Spec.
Context `{HashFunctions, ScriptHashes}.
Variable unicode_lower : list byte -> list byte.

(** ** Witness addresses *)

(** A witness program of version 0 and its groups. *)
Lemma decodeSegWit_inv s v p : decodeSegWitAddress s = Ok (v, p) ->
  exists hrp g, Bech32.Decode s = Ok (hrp, v :: g) /\ Bech32.ConvertBits g 5 8 false = Ok p.
Proof.
  unfold decodeSegWitAddress. destruct (Bech32.Decode s) as [[hrp [|v' g]]| |]; cbn [wrap rbind]; try done.
  destruct (16 <? v'); [done|]. destruct (Bech32.ConvertBits g 5 8 false) as [p'| |] eqn:Hc; cbn [wrap rbind]; try done.
  destruct (_ || _); [done|]. destruct (_ && _); [done|]. intros [= <- <-]. by exists hrp, g.
Qed.

Lemma decodeSegWit_intro s hrp g p : (length p = 20 \/ length p = 32)%nat ->
  Bech32.Decode s = Ok (hrp, x00 :: g) -> Bech32.ConvertBits g 5 8 false = Ok p ->
  decodeSegWitAddress s = Ok (x00, p).
Proof.
  intros Hl Hd Hc. unfold decodeSegWitAddress. rewrite Hd. cbn [wrap rbind]. change (16 <? x00) with false. cbn [wrap rbind].
  rewrite Hc. cbn [wrap rbind]. destruct Hl as [-> | ->]; done.
Qed.

Lemma Encode_groups hrp d s : Bech32.Encode hrp d = Ok s -> Forall (fun b : byte => b < 32) d.
Proof.
  intros He. apply Encode_inv in He as (chars & Hc & _). apply toChars_spec in Hc as [Hf _]. by apply Forall_app in Hf as [Hf _].
Qed.

Lemma encodeSegWit_intro hrp g p s : (length p = 20 \/ length p = 32)%nat ->
  Bech32.ConvertBits p 8 5 true = Ok g -> Bech32.ConvertBits g 5 8 false = Ok p ->
  Bech32.Encode hrp (x00 :: g) = Ok s -> hrp <> [] -> readable s -> Bech32.ToLower s = s ->
  encodeSegWitAddress hrp x00 p = Ok s.
Proof.
  intros Hl Hg Hp He Hh Hr Hlow. unfold encodeSegWitAddress. rewrite Hg. cbn [wrap rbind]. rewrite He. cbn [wrap rbind].
  rewrite (decodeSegWit_intro s hrp g p Hl); [|by apply Decode_complete; [rewrite Hlow| |]|done].
  cbn [Byte.eqb negb orb]. by rewrite bool_decide_eq_true_2.
Qed.

(** The prefix in lower case is the human-readable part. *)
Lemma prefix_lower s one hrp chars d : Bech32.LastIndexByte s x31 = Some one -> forallb Bech32.printable s = true ->
  Bech32.toChars d = Ok chars -> Bech32.ToLower s = hrp ++ x31 :: chars ->
  strings_ToLower unicode_lower (take one s) = hrp /\ Bech32.ToLower (take one s) = hrp.
Proof.
  intros Hone Hp Hchars Hlow. unfold strings_ToLower. rewrite forallb_take by by apply printable_all_ascii.
  pose proof (LastIndexByte_app hrp x31 chars (toChars_separator _ _ Hchars)) as Hlast.
  rewrite <- Hlow, LastIndexByte_lower, Hone in Hlast. injection Hlast as ->.
  unfold Bech32.ToLower in *. rewrite <- firstn_map, Hlow. by rewrite take_app_length.
Qed.

(** Decoding a witness address and encoding it again gives the string in lower case. *)
Lemma decode_segwit_sound s a one :
  Bech32.LastIndexByte s x31 = Some one -> decode_segwit unicode_lower s (take one s) = Ok a ->
  EncodeAddress a = Bech32.ToLower s /\ exists p,
  (a = AddressWitnessPubKeyHash (Bech32.ToLower (take one s)) x00 p /\ length p = 20%nat \/
   a = AddressWitnessScriptHash (Bech32.ToLower (take one s)) x00 p /\ length p = 32%nat).
Proof.
  intros Hone Hd. unfold decode_segwit in Hd.
  destruct (decodeSegWitAddress s) as [[v p]| |] eqn:Hs; cbn [rbind] in Hd; try done.
  destruct (Z.eqb_spec v 0) as [Hv|]; [|done]. cbn [negb] in Hd. assert (v = x00) as -> by (destruct v; done).
  apply decodeSegWit_inv in Hs as (hrp & g & Hdec & Hconv). pose proof (Decode_sound _ _ _ Hdec) as (He & Hh & Hr).
  assert (Hg : Forall (fun b : byte => b < 32) g) by (apply Encode_groups in He; by apply list.Forall_cons in He as [_ He]).
  pose proof (ConvertBits_inverse g p Hg Hconv) as Hback.
  pose proof He as (chars & Hchars & Hlow)%Encode_inv.
  destruct (prefix_lower s one hrp chars _ Hone (proj1 (proj2 Hr)) Hchars Hlow) as [Hasc ->].
  assert (Hstr : (length p = 20 \/ length p = 32)%nat -> segwit_string hrp x00 p = Bech32.ToLower s).
  { intros Hl. unfold segwit_string. by rewrite (encodeSegWit_intro hrp g p (Bech32.ToLower s) Hl Hback Hconv He Hh (readable_lower s Hr) (ToLower_idem s)). }
  unfold newAddressWitnessPubKeyHash, newAddressWitnessScriptHash in Hd. rewrite Hasc in Hd.
  destruct (Nat.eqb_spec (length p) 20) as [H20|H20]; [|destruct (Nat.eqb_spec (length p) 32) as [H32|H32]; [|done]];
    cbn [negb] in Hd; injection Hd as <-; (split; [cbn [EncodeAddress]; apply Hstr; auto|exists p; auto]).
Qed.

(** A human-readable part that can be written: lower case and short enough for 32 bytes. *)
Definition hrp_ok (hrp : list byte) : Prop :=
  (2 <= length hrp <= 30)%nat /\ forallb Bech32.printable hrp = true /\ Bech32.ToLower hrp = hrp.

Lemma charset_printable i : (i < 32)%nat -> Bech32.printable (nth i Bech32.charset x00) = true.
Proof. intros Hi. do 32 (destruct i as [|i]; [reflexivity|]). lia. Qed.

Lemma toChars_readable d chars : Bech32.toChars d = Ok chars ->
  forallb Bech32.printable chars = true /\ Bech32.ToLower chars = chars.
Proof.
  intros Hc. apply toChars_spec in Hc as [Hd ->]. split.
  - apply forallb_forall. intros c Hc. apply in_map_iff in Hc as (b & <- & Hb).
    pose proof (proj1 (List.Forall_forall _ _) Hd b Hb) as H32. destruct (Z_of_byte_range b). apply charset_printable. cbv beta in H32. lia.
  - unfold Bech32.ToLower. rewrite map_map. apply map_ext_in. intros b Hb.
    pose proof (proj1 (List.Forall_forall _ _) Hd b Hb) as H32. destruct (Z_of_byte_range b). apply charset_lower. cbv beta in H32. lia.
Qed.

Lemma encodeSegWit_total hrp p : hrp_ok hrp -> (length p = 20 \/ length p = 32)%nat ->
  exists g chars, encodeSegWitAddress hrp x00 p = Ok (hrp ++ x31 :: chars) /\
    Bech32.toChars ((x00 :: g) ++ Bech32.bech32Checksum hrp (x00 :: g)) = Ok chars /\
    Bech32.Decode (hrp ++ x31 :: chars) = Ok (hrp, x00 :: g) /\ Bech32.ConvertBits g 5 8 false = Ok p.
Proof.
  intros (Hlen & Hprint & Hlow) Hp. destruct (ConvertBits_roundtrip p) as (g & Hg & Hback & Hlt & Hgl).
  assert (Hc : exists chars, Bech32.toChars ((x00 :: g) ++ Bech32.bech32Checksum hrp (x00 :: g)) = Ok chars).
  { eexists. apply toChars_spec. split; [|reflexivity]. apply Forall_app. split; [by constructor|apply bech32Checksum_range]. }
  destruct Hc as [chars Hc]. exists g, chars. pose proof (toChars_readable _ _ Hc) as [Hcp Hcl].
  pose proof (length_toChars _ _ Hc) as Hl. rewrite length_app, length_bech32Checksum in Hl. cbn [length] in Hl.
  assert (He : Bech32.Encode hrp (x00 :: g) = Ok (hrp ++ x31 :: chars)) by (apply Encode_inv; by exists chars).
  assert (Hs : Bech32.ToLower (hrp ++ x31 :: chars) = hrp ++ x31 :: chars).
  { unfold Bech32.ToLower in *. by rewrite map_app, map_cons, Hlow, Hcl. }
  assert (Hr : readable (hrp ++ x31 :: chars)).
  { split; [rewrite length_app; cbn [length]; destruct Hp as [Hp|Hp]; rewrite Hp in Hgl; lia|]. split; [|by left].
    rewrite forallb_app. cbn [forallb]. by rewrite Hprint, Hcp. }
  assert (Hh : hrp <> []) by (intros ->; cbn in Hlen; lia).
  split; [by eapply encodeSegWit_intro|]. split; [done|]. split; [|done]. apply Decode_complete; [by rewrite Hs|done|done].
Qed.

(** ** Base58 addresses *)

Lemma encode_loop_length n : forall x k, 0 <= x < 58 ^ Z.of_nat k -> (length (Base58.encode_loop n x) <= k)%nat.
Proof.
  induction n as [|n IH]; intros x k Hx; cbn [Base58.encode_loop length]; [lia|].
  destruct (Z.ltb_spec 0 x); [|cbn; lia]. cbn [length]. destruct k as [|k]; [cbn in Hx; lia|].
  specialize (IH (x / Base58.bigRadix) k). apply le_n_S, IH. unfold Base58.bigRadix.
  rewrite Nat2Z.inj_succ, Z.pow_succ_r in Hx by lia. split; [apply Z.div_pos; lia|]. apply Z.div_lt_upper_bound; lia.
Qed.

Lemma leading_le c b : (Base58.leading c b <= length b)%nat.
Proof. destruct (leading_split c b) as (rest & H1 & _). rewrite H1 at 2. rewrite length_app, length_replicate. lia. Qed.

Lemma encode_length b : length b = 25%nat -> (length (Base58.Encode b) <= 60)%nat.
Proof.
  intros Hl. unfold Base58.Encode. rewrite length_reverse, length_app, length_replicate.
  pose proof (leading_le x00 b). pose proof (be_value_range b) as Hr. unfold zlen in Hr. rewrite Hl in Hr.
  assert ((length (Base58.encode_loop (S (8 * length b)) (be_value b)) <= 35)%nat); [|lia].
  apply encode_loop_length. split; [lia|]. eapply Z.lt_trans; [apply Hr|]. reflexivity.
Qed.

Lemma CheckEncode_length h id : length h = 20%nat -> (length (Base58.CheckEncode h id) <= 60)%nat.
Proof.
  intros Hh. unfold Base58.CheckEncode. apply encode_length. rewrite length_app, checksum_length. cbn. lia.
Qed.

Lemma decode_base58_iff r s a : decode_base58 r s = Ok a <->
  (exists h id, length h = 20%nat /\ s = encodeAddress h id /\
    (a = AddressPubKeyHash h id /\ id ∈ pubKeyHashAddrIDs r /\ (id ∉ scriptHashAddrIDs r) \/
     a = AddressScriptHash h id /\ id ∈ scriptHashAddrIDs r /\ (id ∉ pubKeyHashAddrIDs r))).
Proof.
  unfold decode_base58, encodeAddress, IsPubKeyHashAddrID, IsScriptHashAddrID, newAddressPubKeyHash, newAddressScriptHashFromHash.
  split.
  - destruct (Base58.CheckDecode s) as [[h id]|[]|] eqn:Hd; try done. apply base58check_exact in Hd.
    destruct (Nat.eqb_spec (length h) 20) as [Hh|]; [|done]. intros Ha. exists h, id.
    rewrite take_ge by lia. split; [done|]. split; [done|].
    do 2 (case_bool_decide; cbn [andb negb] in Ha); try done; injection Ha as <-; auto.
  - intros (h & id & Hh & -> & Ha). rewrite take_ge by lia.
    rewrite (proj2 (base58check_exact _ h id) eq_refl), (proj2 (Nat.eqb_eq _ _)) by done.
    destruct Ha as [(-> & H1 & H2)|(-> & H1 & H2)];
      rewrite ?(bool_decide_eq_true_2 _ H1), ?(bool_decide_eq_false_2 _ H2); done.
Qed.

(** ** Public keys *)

Lemma NewAddressPubKey_serialize fmt key net : valid_point key ->
  NewAddressPubKey (serialize fmt key) net = Ok (AddressPubKey fmt key (PubKeyHashAddrID net)).
Proof.
  intros Hk. unfold NewAddressPubKey.
  assert (Hp : ParsePubKey (serialize fmt key) = Ok key) by (destruct fmt; auto using parse_compressed, parse_uncompressed, parse_hybrid).
  rewrite Hp. cbn [wrap rbind].
  destruct fmt; cbn [serialize]; unfold SerializeUncompressed, SerializeCompressed, SerializeHybrid, paddedAppend, format_with_parity;
    rewrite <- ?app_assoc; cbn [app]; try destruct (isOdd _); reflexivity.
Qed.

Lemma NewAddressPubKey_inv b net a : NewAddressPubKey b net = Ok a ->
  exists fmt key, a = AddressPubKey fmt key (PubKeyHashAddrID net) /\ valid_point key /\
    (b = serialize fmt key \/ fmt = PKFUncompressed /\ b = x05 :: drop 1 (SerializeUncompressed key)).
Proof.
  unfold NewAddressPubKey. destruct (ParsePubKey b) as [key| |] eqn:Hp; cbn [wrap rbind]; try done. intros Ha.
  apply parsed_formats in Hp as [Hk Hb].
  assert (Hser : forall fmt, b = serialize fmt key -> a = AddressPubKey fmt key (PubKeyHashAddrID net)).
  { intros fmt ->. pose proof (NewAddressPubKey_serialize fmt key net Hk) as Hn. unfold NewAddressPubKey in Hn.
    assert (Hp : ParsePubKey (serialize fmt key) = Ok key) by (destruct fmt; auto using parse_compressed, parse_uncompressed, parse_hybrid).
    rewrite Hp in Hn. cbn [wrap rbind] in Hn. congruence. }
  destruct Hb as [Hb|[Hb|[Hb|Hb]]].
  - exists PKFCompressed, key. auto.
  - exists PKFUncompressed, key. auto.
  - exists PKFHybrid, key. auto.
  - exists PKFUncompressed, key. split; [|auto]. rewrite Hb in Ha. by injection Ha as <-.
Qed.

Lemma length_serialize fmt key : valid_point key -> (length (serialize fmt key) = 65 \/ length (serialize fmt key) = 33)%nat.
Proof.
  intros (HX & HY & _). destruct (padded_coordinate _ HX) as [Hx _], (padded_coordinate _ HY) as [Hy _].
  destruct fmt; cbn [serialize]; unfold SerializeUncompressed, SerializeCompressed, SerializeHybrid, paddedAppend;
    rewrite ?length_app in *; cbn [length]; lia.
Qed.

(** ** Reading addresses back *)

Abbreviation DecodeAddress := (DecodeAddress unicode_lower).
Abbreviation segwit_prefix := (segwit_prefix unicode_lower).

(** An address of the networks that are registered whose text can be read back:
    the identifier of a hash is registered for its kind and not for the other
    one; a public key belongs to the default network; the human-readable part of
    a witness address is registered and has 2 to 30 printable lower-case
    characters.  The only network of this program registers an empty
    human-readable part, so no witness address qualifies there. *)
Definition address_ok (r : Registry) (net : NetParams) (a : Address) : Prop :=
  match a with
  | AddressPubKeyHash h id => length h = 20%nat /\ id ∈ pubKeyHashAddrIDs r /\ (id ∉ scriptHashAddrIDs r)
  | AddressScriptHash h id => length h = 20%nat /\ id ∈ scriptHashAddrIDs r /\ (id ∉ pubKeyHashAddrIDs r)
  | AddressPubKey _ key id => valid_point key /\ id = PubKeyHashAddrID net
  | AddressWitnessPubKeyHash hrp v p => v = x00 /\ length p = 20%nat /\ hrp_ok hrp /\ hrp ++ [x31] ∈ bech32SegwitPrefixes r
  | AddressWitnessScriptHash hrp v p => v = x00 /\ length p = 32%nat /\ hrp_ok hrp /\ hrp ++ [x31] ∈ bech32SegwitPrefixes r
  end.

(** The text of any other kind of address is not mistaken for a witness address. *)
Definition unambiguous (r : Registry) (a : Address) : Prop :=
  match a with
  | AddressWitnessPubKeyHash _ _ _ | AddressWitnessScriptHash _ _ _ => True
  | _ => segwit_prefix r (address_String a) = None
  end.

Lemma decode_witness r net hrp p : hrp_ok hrp -> hrp ++ [x31] ∈ bech32SegwitPrefixes r ->
  (length p = 20 \/ length p = 32)%nat ->
  DecodeAddress r (segwit_string hrp x00 p) net =
  Ok (if (length p =? 20)%nat then AddressWitnessPubKeyHash hrp x00 p else AddressWitnessScriptHash hrp x00 p).
Proof.
  intros Hh Hin Hp. destruct (encodeSegWit_total hrp p Hh Hp) as (g & chars & He & Hc & Hd & Hg).
  unfold segwit_string. rewrite He. pose proof (toChars_separator _ _ Hc) as Hsep.
  destruct Hh as (Hlen & Hprint & Hlow).
  assert (Hasc : forall l, forallb Bech32.printable l = true -> Bech32.ToLower l = l -> strings_ToLower unicode_lower l = l).
  { intros l Hpl Hll. unfold strings_ToLower. by rewrite printable_all_ascii. }
  assert (Htake : take (length hrp + 1) (hrp ++ x31 :: chars) = hrp ++ [x31]).
  { rewrite take_app, take_ge by lia. by replace (length hrp + 1 - length hrp)%nat with 1%nat by lia. }
  unfold Address.DecodeAddress, Address.segwit_prefix, IsBech32SegwitPrefix. rewrite (LastIndexByte_app hrp x31 chars Hsep), Htake.
  rewrite (Hasc (hrp ++ [x31])); [|by rewrite forallb_app, Hprint|unfold Bech32.ToLower in *; by rewrite map_app, Hlow].
  rewrite bool_decide_eq_true_2, (proj2 (Nat.ltb_lt _ _)) by (done || lia). cbn [andb]. rewrite Htake, length_app. cbn [length].
  replace (length hrp + 1 - 1)%nat with (length hrp) by lia. rewrite take_app_length.
  unfold decode_segwit. rewrite (decodeSegWit_intro _ hrp g p Hp Hd Hg). cbn [rbind]. change (x00 =? 0) with true. cbn [negb].
  unfold newAddressWitnessPubKeyHash, newAddressWitnessScriptHash. rewrite (Hasc hrp Hprint Hlow).
  by destruct Hp as [-> | ->].
Qed.

Lemma address_roundtrip r net a : address_ok r net a -> unambiguous r a ->
  DecodeAddress r (address_String a) net = Ok a.
Proof.
  intros Ha Hu. destruct a as [h id|h id|fmt key id|hrp v p|hrp v p]; cbn [address_ok unambiguous] in *.
  - destruct Ha as (Hh & H1 & H2). unfold Address.DecodeAddress. rewrite Hu. cbn [address_String EncodeAddress].
    unfold encodeAddress at 1 2. pose proof (CheckEncode_length (take 20 h) id ltac:(rewrite length_take; lia)).
    rewrite !(proj2 (Nat.eqb_neq _ _)) by lia. cbn [orb]. apply decode_base58_iff. exists h, id. auto 6.
  - destruct Ha as (Hh & H1 & H2). unfold Address.DecodeAddress. rewrite Hu. cbn [address_String EncodeAddress].
    unfold encodeAddress at 1 2. pose proof (CheckEncode_length (take 20 h) id ltac:(rewrite length_take; lia)).
    rewrite !(proj2 (Nat.eqb_neq _ _)) by lia. cbn [orb]. apply decode_base58_iff. exists h, id. auto 6.
  - destruct Ha as [Hk ->]. unfold Address.DecodeAddress. rewrite Hu. cbn [address_String].
    rewrite length_hex_encode, hex_decode_encode. cbn [wrap rbind].
    rewrite NewAddressPubKey_serialize by done. by destruct (length_serialize fmt key Hk) as [-> | ->].
  - destruct Ha as (-> & Hp & Hh & Hin). cbn [address_String EncodeAddress].
    rewrite (decode_witness r net hrp p Hh Hin) by auto. by rewrite Hp.
  - destruct Ha as (-> & Hp & Hh & Hin). cbn [address_String EncodeAddress].
    rewrite (decode_witness r net hrp p Hh Hin) by auto. by rewrite Hp.
Qed.

(** What a string that decodes looks like. *)
Definition text_of (net : NetParams) (s : list byte) (a : Address) : Prop :=
  match a with
  | AddressPubKeyHash _ _ | AddressScriptHash _ _ => s = address_String a
  | AddressPubKey fmt key id => id = PubKeyHashAddrID net /\ valid_point key /\
      exists b, hex_decode s = Ok b /\
        (b = serialize fmt key \/ fmt = PKFUncompressed /\ b = x05 :: drop 1 (SerializeUncompressed key))
  | AddressWitnessPubKeyHash _ _ _ | AddressWitnessScriptHash _ _ _ => Bech32.ToLower s = address_String a
  end.

Lemma DecodeAddress_sound r net s a : DecodeAddress r s net = Ok a -> text_of net s a.
Proof.
  unfold Address.DecodeAddress. destruct (segwit_prefix r s) as [one|] eqn:Hseg.
  - unfold Address.segwit_prefix in Hseg. destruct (Bech32.LastIndexByte s x31) as [i|] eqn:Hone; [|done].
    destruct (_ && _) eqn:Hi; [|done]. injection Hseg as ->.
    pose proof (LastIndexByte_some _ _ _ Hone) as Hs. apply andb_true_iff in Hi as [Hi _]. apply Nat.ltb_lt in Hi.
    assert (Hl : (one < length s)%nat).
    { apply (f_equal length) in Hs. rewrite length_app, length_take in Hs. cbn [length] in Hs. lia. }
    rewrite length_take, take_take. replace (_ `min` _)%nat with one by lia.
    intros Hd. apply (decode_segwit_sound s a one Hone) in Hd as (He & p & [(-> & _)|(-> & _)]); symmetry; exact He.
  - destruct (_ || _); [|intros Ha; apply decode_base58_iff in Ha as (h & id & Hh & -> & [(-> & _)|(-> & _)]); done].
    destruct (hex_decode s) as [b| |] eqn:Hb; cbn [wrap rbind]; try done. intros Ha.
    apply NewAddressPubKey_inv in Ha as (fmt & key & -> & Hk & Hf). cbn [text_of]. split; [done|]. split; [done|]. by exists b.
Qed.

(** ** The main network *)

Definition main_registry : Registry :=
  mkRegistry {[0xd9b4bef9]} {[x00]} {[x05]} {[[x31]]} {[[x04; x88; xad; xe4] := [x04; x88; xb2; x1e]]}.

Lemma init_main : init = Ok main_registry.
Proof.
  unfold init, mustRegister, Register, main_registry. rewrite bool_decide_eq_false_2 by set_solver.
  cbn. by rewrite !(right_id_L ∅ (∪)), insert_empty.
Qed.

(** No ASCII string has a known witness prefix: the only one is the separator alone. *)
Lemma main_no_segwit s : forallb ascii s = true -> segwit_prefix main_registry s = None.
Proof.
  intros Hs. unfold Address.segwit_prefix. destruct (Bech32.LastIndexByte s x31) as [one|] eqn:Hone; [|done].
  destruct (Nat.ltb_spec 1 one) as [H1|]; [|done]. cbn [andb]. unfold IsBech32SegwitPrefix, strings_ToLower.
  rewrite forallb_take by done. rewrite bool_decide_eq_false_2; [done|]. intros Hin.
  cbn [bech32SegwitPrefixes main_registry] in Hin. apply elem_of_singleton in Hin. apply (f_equal length) in Hin. rewrite length_ToLower, length_take in Hin. cbn in Hin.
  apply LastIndexByte_some, (f_equal length) in Hone. rewrite length_app, length_take in Hone. cbn in Hone. lia.
Qed.

Lemma b58_ascii c : Base58.b58_at c <> 255 -> ascii c = true.
Proof. by destruct c. Qed.

Lemma Encode_ascii b : forallb ascii (Base58.Encode b) = true.
Proof.
  destruct (decide (b = [])) as [->|Hne]; [done|].
  assert (Hv : Base58.valid (Base58.Encode b)) by (apply Decode_nonempty_valid; by rewrite Decode_Encode).
  apply forallb_forall. intros c Hc. apply b58_ascii. by apply (proj1 (List.Forall_forall _ _) Hv).
Qed.

Lemma hex_ascii bs : forallb ascii (hex_encode bs) = true.
Proof.
  induction bs as [|b bs IH]; [done|]. cbn [hex_encode forallb]. rewrite IH, andb_true_r.
  assert (Hh : forallb (fun n => ascii (hex_char (Z.of_nat n))) (seq 0 16) = true) by reflexivity.
  rewrite forallb_forall in Hh. destruct (Z_of_byte_range b) as [Hb0 H8].
  assert (Hn : forall z, 0 <= z < 16 -> ascii (hex_char z) = true).
  { intros z Hz. specialize (Hh (Z.to_nat z)). rewrite Z2Nat.id in Hh by lia. apply Hh, in_seq. lia. }
  rewrite !Hn; [done|..].
  - change 15 with (Z.ones 4). rewrite Z.land_ones by lia. by apply Z.mod_pos_bound.
  - rewrite Z.shiftr_div_pow2 by lia. change (2 ^ 4) with 16. change (2 ^ 8) with (16 * 16) in H8.
    split; [by apply Z.div_pos|]. apply Z.div_lt_upper_bound; lia.
Qed.

Lemma main_unambiguous a : unambiguous main_registry a.
Proof.
  destruct a; cbn [unambiguous address_String EncodeAddress]; try done; apply main_no_segwit; try apply hex_ascii; apply Encode_ascii.
Qed.

(** Without a human-readable part a witness program has no text. *)
Lemma empty_hrp v p : segwit_string [] v p = [].
Proof.
  unfold segwit_string, encodeSegWitAddress.
  destruct (Bech32.ConvertBits p 8 5 true) as [g| |]; cbn [wrap rbind]; try done.
  destruct (Bech32.Encode [] (v :: g)) as [s| |] eqn:He; cbn [wrap rbind]; try done.
  destruct (decodeSegWitAddress s) as [[v' p']| |] eqn:Hd; try done. exfalso.
  apply decodeSegWit_inv in Hd as (hrp & g' & Hdec & _). pose proof (Decode_sound _ _ _ Hdec) as (He' & Hh & _).
  apply Encode_inv in He as (chars & Hc & ->). apply Encode_inv in He' as (chars' & Hc' & Hs).
  cbn [app] in Hs. pose proof (toChars_readable _ _ Hc) as [_ Hlow].
  destruct hrp as [|x hrp]; [done|]. cbn [Bech32.ToLower map app] in Hs. injection Hs as _ Hs.
  unfold Bech32.ToLower in Hlow. rewrite Hlow in Hs. subst chars. apply toChars_separator in Hc.
  apply Forall_app in Hc as [_ Hc]. apply list.Forall_cons in Hc as [Hc _]. done.
Qed.

(** ** Scripts *)

(** An address of one network. *)
Definition net_address (net : NetParams) (a : Address) : Prop :=
  match a with
  | AddressPubKeyHash h id => length h = 20%nat /\ id = PubKeyHashAddrID net
  | AddressScriptHash h id => length h = 20%nat /\ id = ScriptHashAddrID net
  | AddressPubKey _ key id => valid_point key /\ id = PubKeyHashAddrID net
  | AddressWitnessPubKeyHash hrp v p => length p = 20%nat /\ v = x00 /\ hrp = strings_ToLower unicode_lower (Bech32HRPSegwit net)
  | AddressWitnessScriptHash hrp v p => length p = 32%nat /\ v = x00 /\ hrp = strings_ToLower unicode_lower (Bech32HRPSegwit net)
  end.

Definition address_class (a : Address) : ScriptClass :=
  match a with
  | AddressPubKeyHash _ _ => PubKeyHashTy
  | AddressScriptHash _ _ => ScriptHashTy
  | AddressPubKey _ _ _ => PubKeyTy
  | AddressWitnessPubKeyHash _ _ _ => WitnessV0PubKeyHashTy
  | AddressWitnessScriptHash _ _ _ => WitnessV0ScriptHashTy
  end.

Abbreviation ExtractPkScriptAddrs := (ExtractPkScriptAddrs unicode_lower).

Ltac extract_as pre post d class :=
  unfold Address.ExtractPkScriptAddrs; rewrite (around_parse pre post d) by (first [by repeat constructor | lia]);
  assert (typeOfScript (around pre post d) = class) as -> by (classify d);
  change (data (nth_pop (around pre post d) (length pre))) with d.

Lemma extract_pays net a : net_address net a -> exists script, PayToAddrScript (Some a) = Ok script /\
  ExtractPkScriptAddrs script net = (address_class a, [a], 1, None).
Proof.
  destruct a as [h id|h id|fmt key id|hrp v p|hrp v p]; cbn [net_address address_class PayToAddrScript ScriptAddress].
  - intros [Hh ->]. assert (Hz : zlen h = 20) by (unfold zlen; lia). eexists. split; [by apply p2pkh_bytes|].
    extract_as [x76; xa9] [x88; xac] h PubKeyHashTy. unfold NewAddressPubKeyHash, newAddressPubKeyHash. cbn [data nth_pop nth around map app push_of plain]. by rewrite Hh.
  - intros [Hh ->]. assert (Hz : zlen h = 20) by (unfold zlen; lia). eexists. split; [by apply p2sh_bytes|].
    extract_as [xa9] [x87] h ScriptHashTy. unfold NewAddressScriptHashFromHash, newAddressScriptHashFromHash. cbn. by rewrite Hh.
  - intros [Hk ->]. assert (Hl := length_serialize fmt key Hk). assert (Hz : zlen (serialize fmt key) = 65 \/ zlen (serialize fmt key) = 33) by (unfold zlen; lia).
    eexists. split; [apply p2pk_bytes; lia|]. pose proof (NewAddressPubKey_serialize fmt key net Hk) as Hn.
    revert Hl Hz Hn. generalize (serialize fmt key). intros d Hl Hz Hn.
    unfold Address.ExtractPkScriptAddrs. rewrite (around_parse [] [xac] d) by (first [by repeat constructor | lia]).
    assert (typeOfScript (around [] [xac] d) = PubKeyTy) as ->.
    { unfold typeOfScript, around. cbn [map app isPubkey data push_of]. unfold key_length. by destruct Hz as [-> | ->]. }
    cbn [data nth_pop nth around map app push_of]. by rewrite Hn.
  - intros (Hh & -> & ->). assert (Hz : zlen p = 20) by (unfold zlen; lia). eexists. split; [apply p2wpkh_bytes; lia|].
    extract_as [x00] (@nil byte) p WitnessV0PubKeyHashTy. unfold NewAddressWitnessPubKeyHash, newAddressWitnessPubKeyHash.
    cbn [data nth_pop nth around map app push_of plain]. by rewrite Hh.
  - intros (Hh & -> & ->). assert (Hz : zlen p = 32) by (unfold zlen; lia). eexists. split; [apply p2wpkh_bytes; lia|].
    extract_as [x00] (@nil byte) p WitnessV0ScriptHashTy. unfold NewAddressWitnessScriptHash, newAddressWitnessScriptHash.
    cbn [data nth_pop nth around map app push_of plain]. by rewrite Hh.
Qed.

(** The scripts of the four classes that carry a hash pay to the address extracted. *)
Lemma extract_hash_class net script : GetScriptClass script ∈ [PubKeyHashTy; ScriptHashTy; WitnessV0PubKeyHashTy; WitnessV0ScriptHashTy] ->
  exists a, net_address net a /\ PayToAddrScript (Some a) = Ok script /\
    ExtractPkScriptAddrs script net = (GetScriptClass script, [a], 1, None).
Proof.
  intros Hc.
  assert (Ha : exists a, net_address net a /\ address_class a = GetScriptClass script /\ PayToAddrScript (Some a) = Ok script).
  { rewrite !elem_of_cons in Hc. destruct Hc as [Hc|[Hc|[Hc|[Hc|Hc]]]]; [..|by apply elem_of_nil in Hc]; rewrite Hc;
      [apply p2pkh_class in Hc|apply p2sh_class in Hc|apply p2wpkh_class in Hc|apply p2wsh_class in Hc];
      destruct Hc as (h & Hz & Hs); assert (Hh : length h = Z.to_nat (zlen h)) by (unfold zlen; lia); rewrite Hz in Hh;
      [exists (AddressPubKeyHash h (PubKeyHashAddrID net))|exists (AddressScriptHash h (ScriptHashAddrID net))
      |exists (AddressWitnessPubKeyHash (strings_ToLower unicode_lower (Bech32HRPSegwit net)) x00 h)
      |exists (AddressWitnessScriptHash (strings_ToLower unicode_lower (Bech32HRPSegwit net)) x00 h)]; done. }
  destruct Ha as (a & Ha & Hcl & Hp). exists a. split; [done|]. split; [done|].
  destruct (extract_pays net a Ha) as (script' & Hp' & He). rewrite Hp in Hp'. injection Hp' as <-. by rewrite He, Hcl.
Qed.

(** ** Several keys *)

Definition key_address (k : PubKeyFormat * PubKey * byte) : Address := AddressPubKey k.1.1 k.1.2 k.2.
Definition key_ok (net : NetParams) (k : PubKeyFormat * PubKey * byte) : Prop := net_address net (key_address k).
Definition key_string (k : PubKeyFormat * PubKey * byte) : list byte := serialize k.1.1 k.1.2.

Lemma key_string_length net k : key_ok net k -> key_length (key_string k) = true.
Proof.
  intros [Hk _]. unfold key_length, key_string, zlen. destruct (length_serialize k.1.1 k.1.2 Hk) as [-> | ->]; done.
Qed.

Lemma extract_keys net keys : Forall (key_ok net) keys -> forall pre post,
  concat (map (fun i => address_list (NewAddressPubKey (data (nth_pop (pre ++ map push_of (map key_string keys) ++ post) (i + length pre))) net))
            (seq 0 (length keys))) = map key_address keys.
Proof.
  induction 1 as [|k keys Hk _ IH]; intros pre post; [done|]. cbn [length seq map concat].
  rewrite <- seq_shift, (map_map S). specialize (IH (pre ++ [push_of (key_string k)]) post).
  rewrite <- app_assoc in IH. cbn [app] in *. rewrite length_app in IH. cbn [length] in IH.
  assert (Hhead : data (nth_pop (pre ++ push_of (key_string k) :: map push_of (map key_string keys) ++ post) (0 + length pre)) = key_string k).
  { unfold nth_pop. rewrite app_nth2 by lia. by replace (0 + length pre - length pre)%nat with 0%nat by lia. }
  rewrite Hhead. destruct k as [[fmt key] id]. destruct Hk as [Hv Hid]. cbn in Hv, Hid. subst id.
  unfold key_string at 1. cbn [fst snd]. rewrite NewAddressPubKey_serialize by done. cbn [address_list app]. f_equal.
  rewrite <- IH. f_equal. apply map_ext. intros i. do 4 f_equal. lia.
Qed.

Lemma extract_multisig net keys n script : Forall (key_ok net) keys -> 0 <= n <= zlen keys -> 1 <= zlen keys <= 16 ->
  MultiSigScript keys n = Ok script ->
  ExtractPkScriptAddrs script net = (MultiSigTy, map key_address keys, n, None).
Proof.
  intros Hk Hn Hl Hs. unfold MultiSigScript in Hs.
  replace (map _ keys) with (map key_string keys) in Hs by (apply map_ext; by intros [[]]).
  assert (Hz : zlen (map key_string keys) = zlen keys) by (unfold zlen; by rewrite length_map).
  assert (Hkl : Forall (fun k => key_length k = true) (map key_string keys)).
  { apply List.Forall_map. eapply Forall_impl; [|exact Hk]. apply key_string_length. }
  unfold Address.ExtractPkScriptAddrs. rewrite (multi_sig_parse (map key_string keys) n script) by (done || lia).
  rewrite multi_sig_type by (done || lia).
  assert (Hcount : nth_pop (multi_sig_pops (map key_string keys) n) (length (multi_sig_pops (map key_string keys) n) - 2)
                   = plain (small_op (zlen keys))).
  { unfold nth_pop, multi_sig_pops. cbn [length]. rewrite length_app, !length_map. cbn [length].
    replace (S (length keys + 2) - 2)%nat with (S (length keys)) by lia. cbn [nth].
    rewrite app_nth2; rewrite !length_map; [|lia]. by rewrite Nat.sub_diag, Hz. }
  rewrite Hcount. change (nth_pop (multi_sig_pops (map key_string keys) n) 0) with (plain (small_op n)). cbn [plain pop_opcode].
  unfold zlen in Hl, Hn. destruct (small_op_table n ltac:(lia)) as (_ & _ & ->).
  destruct (small_op_table (zlen keys) ltac:(unfold zlen; lia)) as (_ & _ & ->). unfold zlen at 1. rewrite Nat2Z.id.
  do 3 f_equal. rewrite <- (extract_keys net keys Hk [plain (small_op n)] [plain (small_op (zlen keys)); plain xae]).
  unfold multi_sig_pops. by rewrite Hz.
Qed.

End Spec.

(** ** Properties *)

(** C26: Address texts are exact, for any set of registered networks.  A string
    that decodes is the text of the address it decodes to: letter for letter for
    the two kinds with a base58 checksum, up to case for witness addresses, and
    for public keys the hexadecimal form of a serialization of the key (of which
    the uncompressed one may start with 5).  Conversely the text of an address
    decodes to that address under the conditions of [address_ok]: the identifier
    of a hash is registered for its kind only, and the human-readable part of a
    witness address is registered and has 2 to 30 printable lower-case
    characters; and unless the text of another kind of address happens to start
    with a registered witness prefix.  On the only network the program registers
    the human-readable part is empty and witness addresses have no text: see
    [main_net_texts]. *)
Theorem addresses_exact `{HashFunctions, ScriptHashes} (unicode_lower : list byte -> list byte) r net :
  (forall s a, DecodeAddress unicode_lower r s net = Ok a -> text_of net s a) /\
  (forall a, address_ok r net a -> unambiguous unicode_lower r a ->
     DecodeAddress unicode_lower r (address_String a) net = Ok a).
Proof. split; [apply DecodeAddress_sound|apply address_roundtrip]. Qed.

(** On the network this program registers, the texts of all other addresses are
    read back without further conditions, but witness addresses have none: the
    parameters leave the human-readable part empty, [EncodeAddress] then fails to
    read its own result and returns the empty string. *)
Theorem main_net_texts `{HashFunctions, ScriptHashes} (unicode_lower : list byte -> list byte) r : init = Ok r ->
  (forall a, address_ok r MainNetParams a -> DecodeAddress unicode_lower r (address_String a) MainNetParams = Ok a) /\
  (forall p a, NewAddressWitnessPubKeyHash unicode_lower p MainNetParams = Ok a \/
               NewAddressWitnessScriptHash unicode_lower p MainNetParams = Ok a -> EncodeAddress a = []).
Proof.
  rewrite init_main. intros [= <-]. split.
  - intros a Ha. apply address_roundtrip; [done|]. apply main_unambiguous.
  - intros p a [Ha|Ha]; [unfold NewAddressWitnessPubKeyHash, newAddressWitnessPubKeyHash in Ha|unfold NewAddressWitnessScriptHash, newAddressWitnessScriptHash in Ha];
      destruct (negb _); try done; injection Ha as <-; apply empty_hrp.
Qed.

(** C27: Scripts and addresses agree.  The script that pays to an address of a
    network is read back as one output of the matching class with exactly that
    address and one required signature; a script of one of the four classes that
    carry a hash is the script that pays to the address extracted from it; and a
    multi-signature script of 1 to 16 keys gives back its keys, in order, and
    the number of signatures it requires. *)
Theorem pay_to_addr_exact `{HashFunctions, ScriptHashes} (unicode_lower : list byte -> list byte) net :
  (forall a, net_address unicode_lower net a -> exists script, PayToAddrScript (Some a) = Ok script /\
     ExtractPkScriptAddrs unicode_lower script net = (address_class a, [a], 1, None)) /\
  (forall script, GetScriptClass script ∈ [PubKeyHashTy; ScriptHashTy; WitnessV0PubKeyHashTy; WitnessV0ScriptHashTy] ->
     exists a, net_address unicode_lower net a /\ PayToAddrScript (Some a) = Ok script /\
       ExtractPkScriptAddrs unicode_lower script net = (GetScriptClass script, [a], 1, None)) /\
  (forall keys n script, Forall (key_ok unicode_lower net) keys -> 0 <= n <= zlen keys -> 1 <= zlen keys <= 16 ->
     MultiSigScript keys n = Ok script ->
     ExtractPkScriptAddrs unicode_lower script net = (MultiSigTy, map key_address keys, n, None)).
Proof. split; [apply extract_pays|]. split; [apply extract_hash_class|]. apply extract_multisig. Qed.
