(* ===== verification/PrimeN.v ===== *)
(** * The order of the group is prime

    A certificate for [curveN] in the format of [Primes]. *)
From S2P Require Import Prelude Chainhash Signature Primes.
From Stdlib Require Import Zdivisibility.
Import ListNotations.

Definition prime108 : Z := 341948486974166000522343609283189.
Definition prime95 : Z := 29047611873442575647497758179.
Definition prime68 : Z := 174723607534414371449.

Lemma nodup_pair (a b : Z) : a <> b -> NoDup [a; b].
Proof. intros Hne. repeat constructor; set_solver. Qed.

Lemma prime95_prime : Z.prime prime95.
Proof.
  apply (certified _ 2 [297159362677; 305873]); [vm_compute; reflexivity| |by apply nodup_pair|reflexivity].
  repeat apply List.Forall_cons; [|apply (small_certified _ 2 [2731]); vm_compute; reflexivity|apply List.Forall_nil].
  apply (certified _ 2 [1627771]); [vm_compute; reflexivity| |apply NoDup_singleton|reflexivity].
  apply Forall_singleton, (small_certified _ 2 [1871]). vm_compute. reflexivity.
Qed.

Lemma prime68_prime : Z.prime prime68.
Proof.
  apply (certified _ 2 [44706919; 120233]); [vm_compute; reflexivity| |by apply nodup_pair|reflexivity].
  repeat apply List.Forall_cons; [| |apply List.Forall_nil].
  - apply (small_certified _ 2 [9349]). vm_compute. reflexivity.
  - apply (small_certified _ 2 [113; 19]). vm_compute. reflexivity.
Qed.

Lemma prime108_prime : Z.prime prime108.
Proof.
  apply (certified _ 2 [prime95]); [vm_compute; reflexivity| |apply NoDup_singleton|reflexivity].
  apply Forall_singleton, prime95_prime.
Qed.

Lemma curveN_prime : Z.prime curveN.
Proof.
  apply (certified _ 2 [prime108; prime68]); [vm_compute; reflexivity| |by apply nodup_pair|reflexivity].
  repeat apply List.Forall_cons; [apply prime108_prime|apply prime68_prime|apply List.Forall_nil].
Qed.
