(* ===== verification/Ecdsa.v ===== *)
(** * Signing and key recovery: btcec/signature.go, btcec/privkey.go

    Deterministic signatures with nonces after RFC 6979, and compact signatures
    from which the key is recovered.  HMAC is crypto/hmac over SHA-256, with the
    hash function the development is given; the table of multiples of the
    generator is that of [Secp256k1].  The random signatures of [Sign64] come
    from crypto/ecdsa and are not modelled. *)
From S2P Require Import Prelude Chainhash Wire Hash WireMsg Signature Field FieldSpec Primes PrimeN Secp256k1 CurveSpec PubKeySpec.
From Stdlib Require Import Zdivisibility.
From Stdlib Require Zmod.ZmodInv.
Import ListNotations.

Module Ecdsa.

Record PrivateKey := mkPrivateKey { key_D : Z; key_pub : PubKey }.

Inductive ecdsa_error :=
  | RIsZero | SIsZero | RxTooLarge | RecoverKey (e : key_error) | NotInfinity | CurveError (e : hash_error)
  | CompactSize | NoSolution.

Definition PrivKeyBytesLen : nat := 32.

Definition wrap {E A} (f : E -> ecdsa_error) (r : result E A) : result ecdsa_error A :=
  match r with Ok a => Ok a | Err e => Err (f e) | Panic => Panic end.

(** big.Int.ModInverse: nil when there is no inverse. *)
Definition ModInverse (g n : Z) : option Z := if Z.gcd g n =? 1 then Some (Z.invmod g n) else None.

(** big.Int.BitLen. *)
Definition BitLen (v : Z) : Z := if v =? 0 then 0 else Z.log2 v + 1.

Definition hashToInt (hash : list byte) : Z :=
  let orderBits := BitLen curveN in
  let orderBytes := Z.to_nat ((orderBits + 7) / 8) in
  let hash := if (orderBytes <? length hash)%nat then take orderBytes hash else hash in
  let ret := be_value hash in
  let excess := zlen hash * 8 - orderBits in
  if 0 <? excess then Z.shiftr ret excess else ret.

(** ** Nonces *)

Section Signing.
Context `{HashFunctions}.
Variable bytePoints : nat -> byte -> Secp256k1.jacobian.

Definition ScalarBaseMult (k : list byte) : Z * Z := Secp256k1.ScalarBaseMult bytePoints k.

Definition PrivKeyFromBytes (pk : list byte) : PrivateKey :=
  let '(x, y) := ScalarBaseMult pk in mkPrivateKey (be_value pk) (mkPubKey x y).

Definition priv_Serialize (p : PrivateKey) : list byte := paddedAppend PrivKeyBytesLen [] (big_Bytes (key_D p)).

(** crypto/hmac with SHA-256, whose blocks have 64 bytes. *)
Definition xor_pad (c : Z) (key : list byte) : list byte := map (fun b : byte => byte_of_Z (Z.lxor b c)) key.
Definition mac (k m : list byte) : list byte :=
  let key := if (64 <? length k)%nat then Sum256 k else k in
  let key := key ++ replicate (64 - length key) x00 in
  Sum256 (xor_pad 0x5c key ++ Sum256 (xor_pad 0x36 key ++ m)).

Definition int2octets (v : Z) (rolen : nat) : list byte :=
  let out := big_Bytes v in
  if (length out <? rolen)%nat then replicate (rolen - length out) x00 ++ out
  else if (rolen <? length out)%nat then drop (length out - rolen) out
  else out.

Definition bits2octets (inp : list byte) (rolen : nat) : list byte :=
  let z1 := hashToInt inp in
  let z2 := z1 - curveN in
  if z2 <? 0 then int2octets z1 rolen else int2octets z2 rolen.

(** Step H2: one block of 32 bytes is enough for 256 bits, which takes one round. *)
Fixpoint fill_t (fuel : nat) (qlen : Z) (k v t : list byte) : list byte * list byte :=
  match fuel with
  | O => (v, t)
  | S fuel => if zlen t * 8 <? qlen then let v := mac k v in fill_t fuel qlen k v (t ++ v) else (v, t)
  end.

(** Step H: candidates until one is in range; [None] when the fuel is used up. *)
Fixpoint nonce_loop (fuel : nat) (k v : list byte) : option Z :=
  match fuel with
  | O => None
  | S fuel =>
      let '(v, t) := fill_t 2 (BitLen curveN) k v [] in
      let secret := hashToInt t in
      if (1 <=? secret) && (secret <? curveN) then Some secret
      else
        let k := mac k (v ++ [x00]) in
        let v := mac k v in
        nonce_loop fuel k v
  end.

Definition nonceRFC6979 (fuel : nat) (privkey : Z) (hash : list byte) : option Z :=
  let holen := 32%nat in
  let rolen := Z.to_nat (Z.shiftr (BitLen curveN + 7) 3) in
  let bx := int2octets privkey rolen ++ bits2octets hash rolen in
  let v := replicate holen x01 in
  let k := replicate holen x00 in
  let k := mac k ((v ++ [x00]) ++ bx) in
  let v := mac k v in
  let k := mac k ((v ++ [x01]) ++ bx) in
  let v := mac k v in
  nonce_loop fuel k v.

(** ** Signatures *)

(** What follows the choice of the nonce; the inverse of a number without one is nil. *)
Definition sign_with (D k : Z) (hash : list byte) : result ecdsa_error Signature :=
  let inv := ModInverse k curveN in
  let r := (ScalarBaseMult (big_Bytes k)).1 mod curveN in
  if r =? 0 then Err RIsZero
  else
    let e := hashToInt hash in
    match inv with
    | None => Panic
    | Some inv =>
        let s := ((D * r + e) * inv) mod curveN in
        let s := if halfOrder <? s then curveN - s else s in
        if s =? 0 then Err SIsZero else Ok (mkSignature r s)
    end.

Definition signRFC6979 (fuel : nat) (key : PrivateKey) (hash : list byte) : option (result ecdsa_error Signature) :=
  match nonceRFC6979 fuel (key_D key) hash with
  | None => None
  | Some k => Some (sign_with (key_D key) k hash)
  end.

(** ** Recovery *)

Definition recoverKeyFromSignature (sig : Signature) (msg : list byte) (iter : Z) (doChecks : bool)
  : result ecdsa_error PubKey :=
  let Rx := curveN * (iter / 2) + sig_R sig in
  if curveP <=? Rx then Err RxTooLarge
  else
    let* Ry := wrap RecoverKey (decompressPoint Rx (iter mod 2 =? 1)) in
    let* _ :=
      if doChecks then
        let* (nRx, nRy) := wrap CurveError (Secp256k1.ScalarMult Rx Ry (big_Bytes curveN)) in
        if negb (nRx =? 0) || negb (nRy =? 0) then Err NotInfinity else Ok tt
      else Ok tt in
    let e := hashToInt msg in
    match ModInverse (sig_R sig) curveN with
    | None => Panic (* [Mul] of nil *)
    | Some invr =>
        let invrS := (invr * sig_S sig) mod curveN in
        let* (sRx, sRy) := wrap CurveError (Secp256k1.ScalarMult Rx Ry (big_Bytes invrS)) in
        let e := ((- e) mod curveN * invr) mod curveN in
        let '(minuseGx, minuseGy) := ScalarBaseMult (big_Bytes e) in
        let* (Qx, Qy) := wrap CurveError (Secp256k1.curve_Add sRx sRy minuseGx minuseGy) in
        Ok (mkPubKey Qx Qy)
    end.

(** The cofactor of the curve is 1, so there are four candidates. *)
Fixpoint compact_loop (iters : list Z) (key : PrivateKey) (sig : Signature) (hash : list byte) (isCompressedKey : bool)
  : result ecdsa_error (list byte) :=
  match iters with
  | [] => Err NoSolution
  | i :: iters =>
      match recoverKeyFromSignature sig hash i true with
      | Panic => Panic
      | Err _ => compact_loop iters key sig hash isCompressedKey
      | Ok pk =>
          if (pk_X pk =? pk_X (key_pub key)) && (pk_Y pk =? pk_Y (key_pub key)) then
            let head := byte_of_Z (27 + i + if isCompressedKey then 4 else 0) in
            Ok (paddedAppend 32 (paddedAppend 32 [head] (big_Bytes (sig_R sig))) (big_Bytes (sig_S sig)))
          else compact_loop iters key sig hash isCompressedKey
      end
  end.

Definition SignCompact (fuel : nat) (key : PrivateKey) (hash : list byte) (isCompressedKey : bool)
  : option (result ecdsa_error (list byte)) :=
  match signRFC6979 fuel key hash with
  | None => None
  | Some r => Some (let* sig := r in compact_loop [0; 1; 2; 3] key sig hash isCompressedKey)
  end.

Definition RecoverCompact (signature hash : list byte) : result ecdsa_error (PubKey * bool) :=
  let bitlen := 32%nat in
  if negb (length signature =? 1 + bitlen * 2)%nat then Err CompactSize
  else
    let head := u8 (nth 0 signature x00 - 27) in
    let iteration := Z.ldiff head 4 in
    let sig := mkSignature (be_value (take bitlen (drop 1 signature))) (be_value (drop (bitlen + 1) signature)) in
    let* key := recoverKeyFromSignature sig hash iteration false in
    Ok (key, Z.land head 4 =? 4).

End Signing.
End Ecdsa.
Import Ecdsa.

(** ** Lemmas *)

Lemma ModInverse_prime k : 0 < k < curveN ->
  exists i, ModInverse k curveN = Some i /\ (i * k) mod curveN = 1.
Proof.
  intros Hk. assert (Hm : k mod curveN <> 0) by (rewrite Z.mod_small by lia; lia).
  pose proof (Z.invmod_prime k curveN curveN_prime Hm) as Hi. unfold ModInverse.
  assert (Hg : Z.gcd k curveN = 1).
  { pose proof (Z.invmod_ok k curveN) as Hok. rewrite Hi in Hok. 
    pose proof (Z.gcd_divide_l k curveN) as Hd. apply Z.divide_pos_le in Hd; [|lia].
    pose proof (Z.gcd_nonneg k curveN). rewrite Z.mod_small in Hok by lia. done. }
  rewrite Hg. cbn [Z.eqb Pos.eqb]. eexists. split; [reflexivity|done].
Qed.

Section Sign.
Context `{HashFunctions}.
Variable bytePoints : nat -> byte -> Secp256k1.jacobian.

Lemma nonce_loop_range fuel : forall k v n, nonce_loop fuel k v = Some n -> 1 <= n < curveN.
Proof.
  induction fuel as [|fuel IH]; intros k v n Hn; [done|]. cbn [nonce_loop] in Hn.
  destruct (fill_t 2 (BitLen curveN) k v []) as [v' t]. destruct (_ && _) eqn:E; [|by apply IH in Hn].
  injection Hn as <-. apply andb_true_iff in E as [H1 H2]. apply Z.leb_le in H1. apply Z.ltb_lt in H2. done.
Qed.

(** A signature made with a nonce in range is canonical and satisfies the
    signing equation; nothing is dereferenced that is nil. *)
Lemma sign_with_spec D k hash : 1 <= k < curveN ->
  match sign_with bytePoints D k hash with
  | Ok sig => 0 < sig_R sig < curveN /\ 0 < sig_S sig <= halfOrder /\
      ((sig_S sig * k - (D * sig_R sig + hashToInt hash)) mod curveN = 0 \/
       (sig_S sig * k + (D * sig_R sig + hashToInt hash)) mod curveN = 0)
  | Err e => e = RIsZero \/ e = SIsZero
  | Panic => False
  end.
Proof.
  intros Hk. destruct (ModInverse_prime k ltac:(lia)) as (i & Hi & Hinv). unfold sign_with. rewrite Hi.
  set (r := _ mod curveN). assert (Hr : 0 <= r < curveN) by (apply Z.mod_pos_bound; done). clearbody r.
  destruct (Z.eqb_spec r 0); [by left|]. generalize (hashToInt hash). intros e.
  set (m := D * r + e). set (s := (m * i) mod curveN).
  assert (Hs : 0 <= s < curveN) by (apply Z.mod_pos_bound; done).
  assert (Heq : (s * k - m) mod curveN = 0).
  { pose proof (Z.div_mod (m * i) curveN ltac:(done)) as H1. fold s in H1.
    pose proof (Z.div_mod (i * k) curveN ltac:(done)) as H2. rewrite Hinv in H2.
    apply Z.mod_divide; [done|]. exists (m * (i * k / curveN) - m * i / curveN * k). 
    replace s with (m * i - curveN * (m * i / curveN)) by lia.
    transitivity (m * (i * k - 1) - curveN * (m * i / curveN) * k); [ring|]. rewrite H2 at 1. ring. }
  clearbody s. set (s' := if halfOrder <? s then curveN - s else s).
  assert (Hs' : 0 <= s' <= halfOrder /\ (s' = s \/ s' = curveN - s)).
  { unfold s'. destruct (Z.ltb_spec halfOrder s) as [H'|H']; [|auto with lia].
    assert (curveN <= 2 * halfOrder + 1) by done. lia. }
  clearbody s'. destruct Hs' as [Hs' Hcase]. destruct (Z.eqb_spec s' 0); [by right|]. cbn [sig_R sig_S].
  split; [lia|]. split; [lia|]. destruct Hcase as [-> | ->]; [by left|right].
  apply Z.mod_divide in Heq; [|done]. apply Z.mod_divide; [done|]. destruct Heq as [q Hq].
  exists (k - q). fold m. lia.
Qed.

Lemma sign_canonical fuel key hash sig : signRFC6979 bytePoints fuel key hash = Some (Ok sig) ->
  0 < sig_R sig < curveN /\ 0 < sig_S sig <= halfOrder.
Proof.
  unfold signRFC6979. destruct (nonceRFC6979 fuel (key_D key) hash) as [k|] eqn:Hn; [|done]. intros [= Hs].
  apply nonce_loop_range in Hn. pose proof (sign_with_spec (key_D key) k hash Hn) as Hk. rewrite Hs in Hk. tauto.
Qed.

Lemma sign_no_panic fuel key hash : signRFC6979 bytePoints fuel key hash <> Some Panic.
Proof.
  unfold signRFC6979. destruct (nonceRFC6979 fuel (key_D key) hash) as [k|] eqn:Hn; [|done]. intros [= Hs].
  apply nonce_loop_range in Hn. pose proof (sign_with_spec (key_D key) k hash Hn) as Hk. by rewrite Hs in Hk.
Qed.

(** ** Compact signatures *)

(** What [SignCompact] checks is what [RecoverCompact] computes. *)
Lemma recover_unchecked sig msg i pk : recoverKeyFromSignature bytePoints sig msg i true = Ok pk ->
  recoverKeyFromSignature bytePoints sig msg i false = Ok pk.
Proof.
  unfold recoverKeyFromSignature. destruct (curveP <=? _); [done|].
  destruct (wrap RecoverKey _) as [Ry| |]; cbn [rbind]; [|done|done].
  destruct (wrap CurveError (Secp256k1.ScalarMult _ Ry (big_Bytes curveN))) as [[nx ny]| |]; cbn [rbind]; [|done|done].
  destruct (negb (nx =? 0) || _); cbn [rbind]; [done|]. auto.
Qed.

Lemma compact_loop_found iters key sig hash c bs : compact_loop bytePoints iters key sig hash c = Ok bs ->
  exists i, In i iters /\ recoverKeyFromSignature bytePoints sig hash i true = Ok (key_pub key) /\
  bs = paddedAppend 32 (paddedAppend 32 [byte_of_Z (27 + i + if c then 4 else 0)] (big_Bytes (sig_R sig))) (big_Bytes (sig_S sig)).
Proof.
  induction iters as [|i iters IH]; intros Hb; [done|]. cbn [compact_loop] in Hb.
  destruct (recoverKeyFromSignature _ _ _ _ _) as [pk| |] eqn:Hr; [|destruct (IH Hb) as (j & ? & ?); exists j; cbn; tauto|done].
  destruct (_ && _) eqn:E; [|destruct (IH Hb) as (j & ? & ?); exists j; cbn; tauto].
  apply andb_true_iff in E as [E1 E2]. apply Z.eqb_eq in E1, E2. injection Hb as <-. exists i. split; [by left|].
  split; [|done]. rewrite Hr. f_equal. destruct pk, (key_pub key). cbn in *. congruence.
Qed.

Lemma compact_head i (c : bool) : In i [0; 1; 2; 3] ->
  let head := u8 (byte_of_Z (27 + i + if c then 4 else 0) - 27) in Z.ldiff head 4 = i /\ (Z.land head 4 =? 4) = c.
Proof. intros Hi. cbn in Hi. destruct c; decompose [or] Hi; try done; subst; split; reflexivity. Qed.

Lemma compact_roundtrip fuel key hash c bs : SignCompact bytePoints fuel key hash c = Some (Ok bs) ->
  RecoverCompact bytePoints bs hash = Ok (key_pub key, c).
Proof.
  unfold SignCompact. destruct (signRFC6979 bytePoints fuel key hash) as [[sig| |]|] eqn:Hsig; cbn [rbind]; try done.
  apply sign_canonical in Hsig as [HR HS].
  intros Hb. apply (inj Some) in Hb. apply compact_loop_found in Hb as (i & Hi & Hr & ->).
  pose proof (compact_head i c Hi) as [Hiter Hc]. cbv zeta in Hiter, Hc.
  assert (Hhalf : halfOrder < curveN) by done. pose proof curveN_256.
  destruct (pad32_value (sig_R sig) ltac:(lia)) as [Hlr Hvr]. destruct (pad32_value (sig_S sig) ltac:(lia)) as [Hls Hvs].
  unfold paddedAppend. revert Hlr Hvr Hls Hvs Hiter Hc.
  generalize (replicate (32 - length (big_Bytes (sig_R sig))) x00 ++ big_Bytes (sig_R sig)).
  generalize (replicate (32 - length (big_Bytes (sig_S sig))) x00 ++ big_Bytes (sig_S sig)).
  generalize (byte_of_Z (27 + i + if c then 4 else 0)). intros h sb rb Hlr Hvr Hls Hvs Hiter Hc.
  rewrite <- app_assoc. cbn [app]. unfold RecoverCompact. cbn [length nth]. rewrite length_app, Hlr, Hls.
  cbn [Nat.add Nat.mul Nat.eqb negb drop]. rewrite Hiter, Hc, drop_0.
  rewrite take_app_length' by done. rewrite drop_app_length' by done. rewrite Hvr, Hvs.
  destruct sig as [R S]. cbn [sig_R sig_S]. by rewrite (recover_unchecked _ _ _ _ Hr).
Qed.

(** The order of the group is itself the abscissa of a point. *)
Definition order_point_y : Z := 0x98f66641cb0ae1776b463ebdee3d77fe2658f021db48e2c8ac7ab4c92f83621e.

Lemma order_decompresses : decompressPoint curveN false = Ok order_point_y.
Proof.
  change false with (isOdd order_point_y). apply decompressPoint_complete; [by vm_compute|]. vm_compute. reflexivity.
Qed.

Lemma recover_order_panics S msg : recoverKeyFromSignature bytePoints (mkSignature curveN S) msg 0 false = Panic.
Proof.
  unfold recoverKeyFromSignature. cbn [sig_R sig_S]. change (curveN * (0 / 2) + curveN) with curveN.
  replace (curveP <=? curveN) with false by reflexivity. change (0 mod 2 =? 1) with false. rewrite order_decompresses.
  cbn [wrap rbind]. unfold ModInverse. rewrite Z.gcd_diag_nonneg by done. done.
Qed.

End Sign.

(** ** Properties *)

(** Signing: a deterministic signature never fails on a nil inverse; its two
    numbers are in range with [S] in the lower half of the order, so that the DER
    bytes written for it are read back to the same signature.  A compact
    signature gives back the public key it was made for, and whether it was
    compressed. *)
Theorem signatures_read_back `{HashFunctions} bytePoints fuel key hash :
  signRFC6979 bytePoints fuel key hash <> Some Panic /\
  (forall sig, signRFC6979 bytePoints fuel key hash = Some (Ok sig) ->
     0 < sig_R sig < curveN /\ 0 < sig_S sig <= halfOrder /\ ParseDERSignature (Serialize sig) = Ok sig) /\
  (forall compressed bs, SignCompact bytePoints fuel key hash compressed = Some (Ok bs) ->
     RecoverCompact bytePoints bs hash = Ok (key_pub key, compressed)).
Proof.
  split; [apply sign_no_panic|]. split; [|intros c bs; apply compact_roundtrip].
  intros sig Hs. apply sign_canonical in Hs as [HR HS]. split; [done|]. split; [done|].
  assert (Hhalf : halfOrder < curveN) by done. rewrite DER_roundtrip by lia.
  rewrite (proj2 (Z.ltb_ge _ _)) by lia. by destruct sig.
Qed.

(** A compact signature whose first number is the order of the group crashes
    [RecoverCompact], whatever the message: that number is the abscissa of a point
    of the curve but has no inverse, and the nil result is multiplied. *)
Theorem order_signature_crashes bytePoints S hash : length S = 32%nat ->
  RecoverCompact bytePoints (x1b :: generate32Bytes curveN ++ S) hash = Panic.
Proof.
  intros HS. unfold RecoverCompact. pose proof curveN_256.
  destruct (generate32_value curveN ltac:(split; [done|lia])) as [Hl Hv]. revert Hl Hv.
  generalize (generate32Bytes curveN). intros rb Hl Hv.
  cbn [length nth]. rewrite length_app, Hl, HS. cbn [Nat.add Nat.mul Nat.eqb negb drop]. rewrite drop_0.
  rewrite take_app_length' by done. rewrite Hv.
  change (Z.ldiff (u8 (x1b - 27)) 4) with 0. by rewrite recover_order_panics.
Qed.

Lemma order_signature_crashes_witness :
  RecoverCompact (fun _ _ => Secp256k1.infinity)
    (x1b :: generate32Bytes curveN ++ replicate 32 x01) [] = Panic.
Proof. apply order_signature_crashes. reflexivity. Defined.
