(* ===== verification/Wif.v ===== *)
(** * Private keys as text: drcutil/wif.go

    The wallet import format: base58 over the network byte, 32 bytes of the key,
    a marker when the public key is used in compressed form, and a checksum. *)
From stdpp Require Import gmap.
From S2P Require Import Prelude Chainhash Wire Hash WireMsg Signature Secp256k1 Base58 Ecdsa Address.
Import ListNotations.
Open Scope Z_scope.
Open Scope list_scope.

Module Wif.

Record WIF := mkWIF { PrivKey : Ecdsa.PrivateKey; CompressPubKey : bool; wif_netID : byte }.

Variant wif_error := ErrMalformedPrivateKey | ErrWifChecksum | ErrNoNetwork.

Definition compressMagic : byte := x01.

(** [None] is a nil network. *)
Definition NewWIF (privKey : Ecdsa.PrivateKey) (net : option NetParams) (compress : bool) : result wif_error WIF :=
  match net with
  | None => Err ErrNoNetwork
  | Some net => Ok (mkWIF privKey compress (PrivateKeyID net))
  end.

Definition wif_IsForNet (w : WIF) (net : NetParams) : bool := Byte.eqb (wif_netID w) (PrivateKeyID net).

Section Text.
Context `{HashFunctions}.
Variable bytePoints : nat -> byte -> Secp256k1.jacobian.

Definition DecodeWIF (wif : list byte) : result wif_error WIF :=
  let decoded := Base58.Decode wif in
  let decodedLen := length decoded in
  let* compress :=
    if (decodedLen =? 1 + Ecdsa.PrivKeyBytesLen + 1 + 4)%nat then
      if negb (Byte.eqb (nth 33 decoded x00) compressMagic) then Err ErrMalformedPrivateKey else Ok true
    else if (decodedLen =? 1 + Ecdsa.PrivKeyBytesLen + 4)%nat then Ok false
    else Err ErrMalformedPrivateKey in
  let tosum := if compress then take (1 + Ecdsa.PrivKeyBytesLen + 1) decoded else take (1 + Ecdsa.PrivKeyBytesLen) decoded in
  let cksum := take 4 (DoubleHashB tosum) in
  if negb (bool_decide (cksum = drop (decodedLen - 4) decoded)) then Err ErrWifChecksum
  else
    let netID := nth 0 decoded x00 in
    let privKeyBytes := take Ecdsa.PrivKeyBytesLen (drop 1 decoded) in
    let privKey := Ecdsa.PrivKeyFromBytes bytePoints privKeyBytes in
    Ok (mkWIF privKey compress netID).

Definition wif_String (w : WIF) : list byte :=
  let a := [wif_netID w] in
  let a := paddedAppend Ecdsa.PrivKeyBytesLen a (big_Bytes (Ecdsa.key_D (PrivKey w))) in
  let a := if CompressPubKey w then a ++ [compressMagic] else a in
  let cksum := take 4 (DoubleHashB a) in
  Base58.Encode (a ++ cksum).

Definition SerializePubKey (w : WIF) : list byte :=
  let pk := Ecdsa.key_pub (PrivKey w) in
  if CompressPubKey w then SerializeCompressed pk else SerializeUncompressed pk.

End Text.
End Wif.
Import Wif.

Section Spec.
Context `{HashFunctions}.
Variable bytePoints : nat -> byte -> Secp256k1.jacobian.

(** The key pair of a number of at most 256 bits. *)
Definition key_pair (k : Ecdsa.PrivateKey) : Prop :=
  exists b, length b = 32%nat /\ k = Ecdsa.PrivKeyFromBytes bytePoints b.

Lemma key_pair_D b : Ecdsa.key_D (Ecdsa.PrivKeyFromBytes bytePoints b) = be_value b.
Proof. unfold Ecdsa.PrivKeyFromBytes. by destruct (Ecdsa.ScalarBaseMult bytePoints b). Qed.

(** The bytes before the checksum. *)
Definition wif_body (netID : byte) (b : list byte) (compress : bool) : list byte :=
  netID :: b ++ if compress then [compressMagic] else [].

Lemma wif_String_body netID b (compress : bool) : length b = 32%nat ->
  wif_String (mkWIF (Ecdsa.PrivKeyFromBytes bytePoints b) compress netID) =
  Base58.Encode (wif_body netID b compress ++ take 4 (DoubleHashB (wif_body netID b compress))).
Proof.
  intros Hb. unfold wif_String. cbn [PrivKey CompressPubKey wif_netID]. rewrite key_pair_D. unfold paddedAppend, Ecdsa.PrivKeyBytesLen.
  rewrite (padded_eq (be_value b) b) by done. unfold wif_body. cbn [app].
  by destruct compress; rewrite ?app_nil_r.
Qed.

Lemma length_wif_body netID b (compress : bool) : length b = 32%nat -> length (wif_body netID b compress) = (33 + if compress then 1 else 0)%nat.
Proof. intros Hb. unfold wif_body. cbn [length]. rewrite length_app, Hb. by destruct compress. Qed.

Lemma length_cksum l : length (take 4 (DoubleHashB l)) = 4%nat.
Proof. rewrite length_take. unfold DoubleHashB. rewrite Sum256_length. reflexivity. Qed.

Lemma decode_body netID b (compress : bool) : length b = 32%nat ->
  let body := wif_body netID b compress in
  DecodeWIF bytePoints (Base58.Encode (body ++ take 4 (DoubleHashB body))) =
  Ok (mkWIF (Ecdsa.PrivKeyFromBytes bytePoints b) compress netID).
Proof.
  intros Hb body. unfold DecodeWIF, Ecdsa.PrivKeyBytesLen. rewrite Decode_Encode.
  pose proof (length_wif_body netID b compress Hb) as Hl. fold body in Hl. pose proof (length_cksum body) as Hc.
  assert (Hkey : take 32 (drop 1 (body ++ take 4 (DoubleHashB body))) = b).
  { unfold body, wif_body. cbn [app drop]. rewrite drop_0, <- app_assoc. by rewrite take_app_length'. }
  assert (H33 : compress = true -> nth 33 (body ++ take 4 (DoubleHashB body)) x00 = compressMagic).
  { intros ->. unfold body, wif_body. cbn [app nth]. rewrite <- app_assoc, app_nth2 by lia. by rewrite Hb. }
  rewrite length_app, Hc, Hl, Hkey. change (nth 0 (body ++ take 4 (DoubleHashB body)) x00) with netID.
  destruct compress; cbn [Nat.add Nat.eqb Nat.sub rbind]; [rewrite H33 by done; change (Byte.eqb compressMagic compressMagic) with true; cbn [negb rbind]|];
    (rewrite take_app_length', drop_app_length' by done; by rewrite bool_decide_eq_true_2).
Qed.

(** Splitting what was decoded. *)
Lemma decoded_parts decoded (compress : bool) : length decoded = (37 + if compress then 1 else 0)%nat ->
  (compress = true -> nth 33 decoded x00 = compressMagic) ->
  take (33 + if compress then 1 else 0) decoded = wif_body (nth 0 decoded x00) (take 32 (drop 1 decoded)) compress /\
  length (take 32 (drop 1 decoded)) = 32%nat.
Proof.
  intros Hl Hm. destruct decoded as [|n d]; [destruct compress; done|]. cbn [drop nth length] in *. rewrite drop_0.
  assert (Hd : length d = (36 + if compress then 1 else 0)%nat) by lia. split; [|rewrite length_take; destruct compress; lia].
  unfold wif_body. destruct compress; cbn [take Nat.add]; [|by rewrite app_nil_r]. f_equal. specialize (Hm eq_refl).
  assert (Hsplit : exists x l, d = take 32 d ++ x :: l).
  { destruct (drop 32 d) as [|x l] eqn:E; [apply (f_equal length) in E; rewrite length_drop in E; cbn in E; lia|].
    exists x, l. rewrite <- E. by rewrite take_drop. }
  destruct Hsplit as (x & l & Hx). assert (H32 : length (take 32 d) = 32%nat) by (rewrite length_take; lia).
  revert Hx H32. generalize (take 32 d). intros h -> H32. rewrite app_nth2, H32 in Hm by lia. cbn in Hm. subst x.
  rewrite take_app, take_ge, H32 by lia. done.
Qed.

(** The wallet import format is exact: the strings that DecodeWIF accepts
    are those that String writes for a key of 32 bytes, and they decode to that
    key, its compression mark and its network. *)
Theorem wif_exact s w : DecodeWIF bytePoints s = Ok w <-> key_pair (PrivKey w) /\ s = wif_String w.
Proof.
  split.
  - unfold DecodeWIF, Ecdsa.PrivKeyBytesLen. set (d := Base58.Decode s). intros Hw.
    apply rbind_Ok in Hw as (compress & Hform & Hw). destruct (bool_decide _) eqn:Hck; [|done]. apply bool_decide_eq_true in Hck.
    cbn [negb] in Hw. injection Hw as <-.
    assert (Hl : length d = (37 + if compress then 1 else 0)%nat /\ (compress = true -> nth 33 d x00 = compressMagic)).
    { destruct (Nat.eqb_spec (length d) (1 + 32 + 1 + 4)) as [H38|_].
      - destruct (Byte.eqb (nth 33 d x00) compressMagic) eqn:E; [|done]. injection Hform as <-. split; [done|].
        intros _. by apply Byte.byte_dec_bl.
      - destruct (Nat.eqb_spec (length d) (1 + 32 + 4)) as [H37|_]; [|done]. injection Hform as <-. done. }
    destruct Hl as [Hl Hm]. destruct (decoded_parts d compress Hl Hm) as [Hbody Hb].
    split; [by exists (take 32 (drop 1 d))|]. rewrite wif_String_body by done. rewrite <- Hbody.
    assert (Hv : Base58.valid s) by (apply Decode_nonempty_valid; fold d; intros E; rewrite E in Hl; by destruct compress).
    rewrite <- (Encode_Decode s Hv) at 1. fold d. f_equal. rewrite <- (take_drop (33 + if compress then 1 else 0) d) at 1. f_equal.
    rewrite Hl in Hck. destruct compress; symmetry; exact Hck.
  - intros [(b & Hb & Hk) ->]. destruct w as [k c n]. cbn [PrivKey] in Hk. subst k. rewrite wif_String_body by done. by apply decode_body.
Qed.
End Spec.
