(* ===== verification/TxHeap.v ===== *)
(** * The priority queue of block templates: container/heap and txPriorityQueue
    of mining/mining.go

    The heap of the Go library works on any collection with [Less], [Swap],
    [Push] and [Pop]; here on a list and a comparison of its elements.  The laws
    need of the comparison that its negation is a total preorder, which is the
    case for both comparison functions of mining.go. *)

From S2P Require Import Prelude Float64 Chainhash Wire Hash WireMsg.

(** ** container/heap *)

Section Heap.
Context {A : Type} (less : A -> A -> bool).

(** The indices the heap passes are always in range. *)
Definition Less (h : list A) (i j : nat) : bool :=
  match h !! i, h !! j with Some a, Some b => less a b | _, _ => false end.
Definition Swap (h : list A) (i j : nat) : list A :=
  match h !! i, h !! j with Some a, Some b => <[j := a]> (<[i := b]> h) | _, _ => h end.

Definition parent_of (j : nat) : nat := (j - 1) / 2.

Fixpoint up (fuel : nat) (h : list A) (j : nat) : list A :=
  match fuel with
  | O => h
  | S fuel =>
      let i := parent_of j in
      if (i =? j)%nat || negb (Less h j i) then h else up fuel (Swap h i j) i
  end.

(** The smaller of the children of [i], of which [2 * i + 1] exists. *)
Definition least_child (h : list A) (i n : nat) : nat :=
  let j1 := (2 * i + 1)%nat in
  let j2 := (j1 + 1)%nat in
  if (j2 <? n)%nat && Less h j2 j1 then j2 else j1.

Fixpoint down (fuel : nat) (h : list A) (i n : nat) : list A :=
  match fuel with
  | O => h
  | S fuel =>
      if (n <=? 2 * i + 1)%nat then h
      else
        let j := least_child h i n in
        if negb (Less h j i) then h else down fuel (Swap h i j) j n
  end.

(** The loop of [Init]: [down] at [i - 1], ..., 0. *)
Fixpoint init_loop (h : list A) (i : nat) : list A :=
  match i with
  | O => h
  | S i => init_loop (down (length h) h i (length h)) i
  end.
Definition Init (h : list A) : list A := init_loop h (length h / 2).

Definition Push (h : list A) (x : A) : list A := up (S (length h)) (h ++ [x]) (length h).

(** [heap.Pop]; there is nothing to pop from an empty heap. *)
Definition Pop (h : list A) : option (A * list A) :=
  let n := (length h - 1)%nat in
  let h := down n (Swap h 0 n) 0 n in
  match h !! n with Some x => Some (x, take n h) | None => None end.

(** ** Laws *)

Class HeapOrder := {
  less_asym : forall a b, less a b = true -> less b a = false;
  less_ntrans : forall a b c, less a b = false -> less b c = false -> less a c = false
}.

Lemma Swap_perm h i j : Swap h i j ≡ₚ h.
Proof.
  unfold Swap. destruct (h !! i) as [a|] eqn:Hi; [|done]. destruct (h !! j) as [b|] eqn:Hj; [|done].
  by apply Permutation_insert_swap.
Qed.

Lemma length_Swap h i j : length (Swap h i j) = length h.
Proof. apply Permutation_length, Swap_perm. Qed.

Lemma lookup_Swap h i j k :
  (i < length h)%nat -> (j < length h)%nat ->
  Swap h i j !! k = if decide (k = j) then h !! i else if decide (k = i) then h !! j else h !! k.
Proof.
  intros Hi Hj. unfold Swap. destruct (lookup_lt_is_Some_2 h i Hi) as [a Ha], (lookup_lt_is_Some_2 h j Hj) as [b Hb].
  rewrite Ha, Hb. destruct (decide (k = j)) as [->|Hkj].
  - apply list_lookup_insert_eq. by rewrite length_insert.
  - rewrite list_lookup_insert_ne by done. destruct (decide (k = i)) as [->|Hki].
    + by apply list_lookup_insert_eq.
    + by apply list_lookup_insert_ne.
Qed.

Lemma down_perm fuel h i n : down fuel h i n ≡ₚ h.
Proof.
  revert h i. induction fuel as [|fuel IH]; intros h i; cbn [down]; [done|].
  destruct (_ <=? _)%nat; [done|]. destruct (negb _); [done|]. by rewrite IH, Swap_perm.
Qed.

Lemma up_perm fuel h j : up fuel h j ≡ₚ h.
Proof.
  revert h j. induction fuel as [|fuel IH]; intros h j; cbn [up]; [done|].
  destruct (_ || _); [done|]. by rewrite IH, Swap_perm.
Qed.

Lemma Push_perm h x : Push h x ≡ₚ x :: h.
Proof. unfold Push. rewrite up_perm. symmetry. apply Permutation_cons_append. Qed.

Lemma Init_perm h : Init h ≡ₚ h.
Proof.
  unfold Init. generalize (length h / 2)%nat. intros i. revert h. induction i as [|i IH]; intros h; cbn [init_loop]; [done|].
  by rewrite IH, down_perm.
Qed.

(** The part of the list from [n] on is not touched. *)
Lemma lookup_down_ge fuel h i n k :
  (n <= length h)%nat -> (i < n)%nat -> (n <= k)%nat -> down fuel h i n !! k = h !! k.
Proof.
  revert h i. induction fuel as [|fuel IH]; intros h i Hn Hi Hk; cbn [down]; [done|].
  destruct (Nat.leb_spec n (2 * i + 1)); [done|]. destruct (negb _); [done|].
  assert (Hj : (least_child h i n < n)%nat).
  { unfold least_child. destruct (Nat.ltb_spec (2 * i + 1 + 1) n); cbn [andb]; [|lia]. destruct (Less _ _ _); lia. }
  rewrite IH; [|by rewrite length_Swap|done|done].
  rewrite lookup_Swap by lia. by repeat (destruct (decide _); [lia|]).
Qed.

Section Order.
Context `{HeapOrder}.

(** No child of a node from [k] on, below [n], goes before its parent. *)
Definition heap_from (k n : nat) (h : list A) : Prop :=
  forall c, (0 < c < n)%nat -> (k <= parent_of c)%nat -> Less h c (parent_of c) = false.
Definition is_heap (h : list A) : Prop := heap_from 0 (length h) h.

(** The same but for the children of [i], which do not go before [i]'s parent. *)
Definition sinking (k n i : nat) (h : list A) : Prop :=
  (forall c, (0 < c < n)%nat -> (k <= parent_of c)%nat -> parent_of c <> i -> Less h c (parent_of c) = false) /\
  (forall c, (0 < c < n)%nat -> parent_of c = i -> (0 < i)%nat -> (k <= parent_of i)%nat -> Less h c (parent_of i) = false).

(** The same but for [j] itself, whose children do not go before its parent. *)
Definition rising (j : nat) (h : list A) : Prop :=
  (forall c, (0 < c < length h)%nat -> c <> j -> Less h c (parent_of c) = false) /\
  (forall c, (0 < c < length h)%nat -> parent_of c = j -> (0 < j)%nat -> Less h c (parent_of j) = false).

Lemma parent_child c i : (0 < c)%nat -> parent_of c = i <-> c = (2 * i + 1)%nat \/ c = (2 * i + 2)%nat.
Proof.
  intros Hc. unfold parent_of. pose proof (Nat.div_mod_eq (c - 1) 2). pose proof (Nat.mod_upper_bound (c - 1) 2). lia.
Qed.
Lemma parent_lt c : (0 < c)%nat -> (parent_of c < c)%nat.
Proof. intros Hc. pose proof (proj1 (parent_child c _ Hc) eq_refl). lia. Qed.

Lemma Less_asym h i j : Less h i j = true -> Less h j i = false.
Proof. unfold Less. destruct (h !! i), (h !! j); try done. apply less_asym. Qed.
Lemma Less_ntrans h i j k : (j < length h)%nat -> Less h i j = false -> Less h j k = false -> Less h i k = false.
Proof.
  intros Hj. destruct (lookup_lt_is_Some_2 h j Hj) as [b Hb]. unfold Less. rewrite Hb.
  destruct (h !! i), (h !! k); try done. apply less_ntrans.
Qed.
Lemma Less_irrefl h i : Less h i i = false.
Proof. destruct (Less h i i) eqn:E; [|done]. by rewrite (Less_asym h i i E) in E. Qed.

(** Comparisons after an exchange. *)
Definition swapped (i j k : nat) : nat := if decide (k = j) then i else if decide (k = i) then j else k.
Lemma Less_Swap h i j a b : (i < length h)%nat -> (j < length h)%nat ->
  Less (Swap h i j) a b = Less h (swapped i j a) (swapped i j b).
Proof. intros Hi Hj. unfold Less, swapped. rewrite !lookup_Swap by done. by repeat destruct (decide _). Qed.

Lemma least_child_spec h i n :
  (2 * i + 1 < n)%nat -> (n <= length h)%nat ->
  let j := least_child h i n in
  (j < n)%nat /\ parent_of j = i /\ (0 < j)%nat /\
  forall c, (0 < c < n)%nat -> parent_of c = i -> Less h c j = false.
Proof.
  intros Hi Hn j. assert (Hj : j = (2 * i + 1)%nat \/ (j = (2 * i + 2)%nat /\ (2 * i + 2 < n)%nat)).
  { unfold j, least_child. destruct (Nat.ltb_spec (2 * i + 1 + 1) n); cbn [andb]; [destruct (Less _ _ _)|]; lia. }
  split; [lia|]. split; [apply parent_child; lia|]. split; [lia|].
  intros c Hc Hp. apply parent_child in Hp; [|lia]. unfold j, least_child.
  replace (2 * i + 1 + 1)%nat with (2 * i + 2)%nat by lia. destruct (Nat.ltb_spec (2 * i + 2) n); cbn [andb].
  - destruct (Less h (2 * i + 2) (2 * i + 1)) eqn:E; destruct Hp as [-> | ->].
    + by apply Less_asym. + apply Less_irrefl. + apply Less_irrefl. + done.
  - destruct Hp as [-> | ->]; [apply Less_irrefl|lia].
Qed.

Lemma sinking_step h k n i :
  (2 * i + 1 < n)%nat -> (n <= length h)%nat -> sinking k n i h -> (k <= i)%nat ->
  Less h (least_child h i n) i = true -> sinking k n (least_child h i n) (Swap h i (least_child h i n)).
Proof.
  intros Hi Hn [H1 H2] Hk Hless. destruct (least_child_spec h i n Hi Hn) as (Hj & Hp & Hj0 & Hmin).
  set (j := least_child h i n) in *. pose proof (parent_lt j Hj0) as Hlt. rewrite Hp in Hlt.
  split.
  - intros c Hc Hkc Hne. rewrite Less_Swap by lia. unfold swapped at 2. rewrite decide_False by done.
    destruct (decide (parent_of c = i)) as [Hci|Hci].
    + unfold swapped. destruct (decide (c = j)) as [->|]; [by apply Less_asym|].
      destruct (decide (c = i)) as [->|]; [|by apply Hmin].
      pose proof (parent_lt i). lia.
    + unfold swapped. destruct (decide (c = j)) as [->|]; [done|].
      destruct (decide (c = i)) as [->|]; [|by apply H1]. apply H2; try done. lia.
  - intros c Hc Hpc _ Hkj. rewrite Hp, Less_Swap by lia. pose proof (parent_lt c).
    unfold swapped. rewrite !decide_False, decide_True by lia. rewrite <- Hpc. apply H1; lia.
Qed.

Lemma down_heap fuel h k i n :
  (n <= length h)%nat -> (k <= i)%nat -> (n <= fuel + i)%nat -> sinking k n i h -> heap_from k n (down fuel h i n).
Proof.
  revert h i. induction fuel as [|fuel IH]; intros h i Hn Hk Hf Hs; cbn [down].
  { intros c Hc Hkc. apply Hs; [done|done|]. pose proof (parent_lt c). lia. }
  destruct (Nat.leb_spec n (2 * i + 1)) as [Hle|Hgt].
  { intros c Hc Hkc. apply Hs; [done|done|]. intros Hpc%parent_child; lia. }
  destruct (least_child_spec h i n Hgt Hn) as (Hj & Hp & Hj0 & Hmin).
  destruct (Less h (least_child h i n) i) eqn:E; cbn [negb].
  - pose proof (parent_lt _ Hj0). apply IH; [by rewrite length_Swap|lia|lia|by apply sinking_step].
  - intros c Hc Hkc. destruct (decide (parent_of c = i)) as [Hci|]; [|by apply Hs].
    rewrite Hci. eapply (Less_ntrans _ _ (least_child h i n)); [lia| |done]. by apply Hmin.
Qed.

Lemma init_loop_heap h i : heap_from i (length h) h -> is_heap (init_loop h i).
Proof.
  revert h. induction i as [|i IH]; intros h Hh; cbn [init_loop]; [done|].
  apply IH. rewrite (Permutation_length (down_perm _ _ _ _)). apply down_heap; [lia|lia|lia|]. split.
  - intros c Hc Hkc Hne. apply Hh; lia.
  - intros c Hc Hpc Hi Hki. pose proof (parent_lt i). lia.
Qed.

(** [Init] makes a heap of any list. *)
Lemma Init_heap h : is_heap (Init h).
Proof.
  apply init_loop_heap. intros c Hc Hk. exfalso. pose proof (proj1 (parent_child c _ ltac:(lia)) eq_refl).
  pose proof (Nat.div_mod_eq (length h) 2). pose proof (Nat.mod_upper_bound (length h) 2). lia.
Qed.

Lemma rising_step h j :
  (j < length h)%nat -> (0 < j)%nat -> rising j h -> Less h j (parent_of j) = true ->
  rising (parent_of j) (Swap h (parent_of j) j).
Proof.
  intros Hj Hj0 [H1 H2] Hless. pose proof (parent_lt j Hj0) as Hlt. set (i := parent_of j) in *.
  split; rewrite length_Swap; intros c Hc.
  - intros Hne. rewrite Less_Swap by lia. unfold swapped at 1. rewrite (decide_False (P := c = i)) by done.
    destruct (decide (c = j)) as [->|Hcj].
    + fold i. unfold swapped. rewrite decide_False, decide_True by lia. by apply Less_asym.
    + unfold swapped. destruct (decide (parent_of c = j)) as [Hpj|]; [by apply H2|].
      destruct (decide (parent_of c = i)) as [Hpi|]; [|by apply H1].
      eapply (Less_ntrans _ _ i); [lia| |by apply Less_asym]. rewrite <- Hpi. by apply H1.
  - intros Hpc Hi. pose proof (parent_lt i Hi) as Hlti. rewrite Less_Swap by lia. unfold swapped at 2.
    rewrite !decide_False by lia. pose proof (H1 i ltac:(lia) ltac:(lia)) as Hip. pose proof (parent_lt c).
    unfold swapped. destruct (decide (c = j)); [done|]. rewrite decide_False by lia.
    eapply (Less_ntrans _ _ i); [lia| |exact Hip]. rewrite <- Hpc. by apply H1.
Qed.

Lemma up_heap fuel h j : (j < length h)%nat -> (j < fuel)%nat -> rising j h -> is_heap (up fuel h j).
Proof.
  revert h j. induction fuel as [|fuel IH]; intros h j Hj Hf Hr; [lia|]. cbn [up].
  destruct (decide (j = 0%nat)) as [->|Hj0].
  { cbn. intros c Hc _. apply Hr; lia. }
  pose proof (parent_lt j ltac:(lia)). destruct (Nat.eqb_spec (parent_of j) j); [lia|]. cbn [orb].
  destruct (Less h j (parent_of j)) eqn:E; cbn [negb].
  - apply IH; [rewrite length_Swap; lia|lia|]. apply rising_step; [done|lia|done|done].
  - intros c Hc _. destruct (decide (c = j)) as [->|]; [done|]. by apply Hr.
Qed.

Lemma Less_app h x a b : (a < length h)%nat -> (b < length h)%nat -> Less (h ++ [x]) a b = Less h a b.
Proof. intros Ha Hb. unfold Less. by rewrite !lookup_app_l by done. Qed.

(** Pushing keeps the heap. *)
Lemma Push_heap h x : is_heap h -> is_heap (Push h x).
Proof.
  intros Hh. unfold Push. apply up_heap; rewrite ?length_app; cbn [length]; [lia|lia|].
  split; rewrite length_app; cbn [length]; intros c Hc.
  - intros Hne. pose proof (parent_lt c ltac:(lia)). rewrite Less_app by lia. apply Hh; lia.
  - intros Hpc _. pose proof (parent_lt c). lia.
Qed.

(** The first element of a heap: nothing goes before it. *)
Lemma heap_top h x j y : is_heap h -> h !! 0%nat = Some x -> h !! j = Some y -> less y x = false.
Proof.
  intros Hh Hx. revert y. induction j as [j IH] using lt_wf_ind. intros y Hy.
  destruct (decide (j = 0%nat)) as [->|Hj0].
  { pose proof (Less_irrefl h 0) as Hi. unfold Less in Hi. rewrite Hx in Hi. congruence. }
  pose proof (parent_lt j ltac:(lia)) as Hlt. pose proof (lookup_lt_Some _ _ _ Hy).
  destruct (lookup_lt_is_Some_2 h (parent_of j)) as [z Hz]; [lia|].
  pose proof (Hh j ltac:(lia) ltac:(lia)) as Hp. unfold Less in Hp. rewrite Hy, Hz in Hp.
  eapply less_ntrans; [exact Hp|]. by eapply IH.
Qed.

Lemma heap_from_take n h : (n <= length h)%nat -> heap_from 0 n h -> is_heap (take n h).
Proof.
  intros Hn Hh c. rewrite length_take. intros Hc _. pose proof (parent_lt c ltac:(lia)).
  specialize (Hh c ltac:(lia) ltac:(lia)). unfold Less in *. by rewrite !lookup_take_lt by lia.
Qed.

(** Popping takes out an element that nothing goes before, and leaves a heap of
    the rest. *)
Lemma Pop_spec h : is_heap h -> h <> [] ->
  exists x h', Pop h = Some (x, h') /\ h ≡ₚ x :: h' /\ is_heap h' /\ Forall (fun y => less y x = false) h.
Proof.
  intros Hh Hne. destruct h as [|x h0] eqn:Eh; [done|]. rewrite <- Eh in *. clear Hne.
  assert (Hlen : length h = S (length h0)) by (by rewrite Eh).
  assert (Hx : h !! 0%nat = Some x) by (by rewrite Eh). clear Eh.
  unfold Pop. rewrite Hlen. replace (S (length h0) - 1)%nat with (length h0) by lia. set (n := length h0) in *.
  set (h1 := Swap h 0 n). assert (Hl1 : length h1 = S n) by (unfold h1; by rewrite length_Swap).
  set (h2 := down n h1 0 n).
  assert (Hp : h2 ≡ₚ h) by (unfold h2, h1; by rewrite down_perm, Swap_perm).
  assert (Hl2 : length h2 = S n) by (by rewrite Hp).
  assert (Hlast : h2 !! n = Some x).
  { assert (h1 !! n = Some x) as H1.
    { unfold h1. rewrite lookup_Swap by lia. by rewrite decide_True. }
    destruct (decide (n = 0%nat)) as [En|En].
    - unfold h2. rewrite En in *. done.
    - unfold h2. rewrite lookup_down_ge; [done|lia|lia|lia]. }
  exists x, (take n h2). rewrite Hlast. split; [done|]. split.
  - rewrite <- Hp. rewrite <- (take_drop_middle h2 n x Hlast) at 1. rewrite drop_ge by lia.
    symmetry. apply Permutation_cons_append.
  - split.
    + apply heap_from_take; [lia|]. apply down_heap; [lia|lia|lia|]. split; [|intros; lia].
      intros c Hc _ Hpc. unfold h1. rewrite Less_Swap by lia. unfold swapped. pose proof (parent_lt c ltac:(lia)).
      rewrite !decide_False by lia. apply Hh; lia.
    + apply list.Forall_forall. intros y [j Hj]%list_elem_of_lookup. by eapply heap_top.
Qed.
End Order.
End Heap.

(** ** The queue of transactions *)

(** The items are shared between the queue and the map of dependers, so that they
    are records in a list and pointers are positions in this list. *)
Record txPrioItem := mkPrioItem {
  pi_tx : MsgTx; pi_fee : Z; pi_priority : float64; pi_feePerKB : Z; dependsOn : gset Hash
}.

Definition feq (x y : float64) : bool := fge x y && fge y x.
Definition fgt (x y : float64) : bool := negb (fge y x).

Definition txPQByPriority (x y : txPrioItem) : bool :=
  if feq (pi_priority x) (pi_priority y) then pi_feePerKB y <? pi_feePerKB x
  else fgt (pi_priority x) (pi_priority y).
Definition txPQByFee (x y : txPrioItem) : bool :=
  if pi_feePerKB x =? pi_feePerKB y then fgt (pi_priority x) (pi_priority y)
  else pi_feePerKB y <? pi_feePerKB x.

Definition empty_item : txPrioItem := mkPrioItem (mkMsgTx 0 [] [] 0) 0 (of_int 0) 0 ∅.
Definition item_at (items : list txPrioItem) (id : nat) : txPrioItem := default empty_item (items !! id).

(** The comparison of the queue; [lessFunc] is one of two functions. *)
Definition lessFunc (sortedByFee : bool) (items : list txPrioItem) (a b : nat) : bool :=
  (if sortedByFee then txPQByFee else txPQByPriority) (item_at items a) (item_at items b).

Lemma fge_trans x y z : fge x y = true -> fge y z = true -> fge x z = true.
Proof.
  unfold fge. rewrite !Z.leb_le. pose proof (denom_pos x). pose proof (denom_pos y). pose proof (denom_pos z).
  intros Hxy Hyz. apply (Z.mul_le_mono_pos_r _ _ (denom y)); [done|].
  transitivity (numer y * denom x * denom z); [nia|]. nia.
Qed.
Lemma fge_total x y : fge x y = false -> fge y x = true.
Proof. unfold fge. rewrite Z.leb_gt, Z.leb_le. lia. Qed.

(** Case analysis on comparisons of priorities. *)
Ltac compare_priorities :=
  repeat match goal with
  | |- context [fge ?x ?y] => let E := fresh "E" in destruct (fge x y) eqn:E
  | H : context [fge ?x ?y] |- _ => lazymatch type of H with fge _ _ = _ => fail | _ => let E := fresh "E" in destruct (fge x y) eqn:E end
  end; cbn [andb negb] in *;
  repeat match goal with
  | H1 : fge ?x ?y = true, H2 : fge ?y ?z = true, H3 : fge ?x ?z = false |- _ =>
      rewrite (fge_trans x y z H1 H2) in H3; discriminate H3
  | H1 : fge ?x ?y = false, H2 : fge ?y ?x = false |- _ => rewrite (fge_total x y H1) in H2; discriminate H2
  end.

#[export] Instance by_priority_order : HeapOrder txPQByPriority.
Proof.
  split.
  - intros [ta fa a ka da] [tb fb b kb db]. unfold txPQByPriority, feq, fgt. cbn.
    compare_priorities; rewrite ?Z.ltb_lt, ?Z.ltb_ge; try done; lia.
  - intros [ta fa a ka da] [tb fb b kb db] [tc fc c kc dc]. unfold txPQByPriority, feq, fgt. cbn. intros H1 H2.
    compare_priorities; rewrite ?Z.ltb_ge in *; try done; lia.
Qed.

#[export] Instance by_fee_order : HeapOrder txPQByFee.
Proof.
  split.
  - intros [ta fa a ka da] [tb fb b kb db]. unfold txPQByFee, fgt. cbn.
    destruct (Z.eqb_spec ka kb), (Z.eqb_spec kb ka); try lia; rewrite ?Z.ltb_lt, ?Z.ltb_ge; try lia.
    intros Hf. compare_priorities; done.
  - intros [ta fa a ka da] [tb fb b kb db] [tc fc c kc dc]. unfold txPQByFee, fgt. cbn. intros H1 H2.
    destruct (Z.eqb_spec ka kb), (Z.eqb_spec kb kc), (Z.eqb_spec ka kc); rewrite ?Z.ltb_ge in *; try lia.
    compare_priorities; done.
Qed.

#[export] Instance queue_order sortedByFee items : HeapOrder (lessFunc sortedByFee items).
Proof.
  split; unfold lessFunc; destruct sortedByFee; first [exact (fun a b => less_asym _ _ _) | exact (fun a b c => less_ntrans _ _ _ _)].
Qed.
