(* ===== verification/Template.v ===== *)
(** * Block templates: mining/mining.go and CheckConnectBlockTemplate of
    blockchain/validate.go

    [NewBlockTemplate] builds a candidate on top of the best candidate of the
    last round.  A first loop over the transaction source puts the transactions
    that spend outputs of the chain into a priority queue and records for the
    others which transactions of the source they wait for; a second loop takes
    transactions off the queue while they fit, and releases those that waited for
    them.  The items are objects shared by queue and map, modelled as positions in
    a list.  The clock is read once; the log, the witness commitment (switched off in
    the source, [witnessIncluded] is never set) and the weight after the second
    loop, which nothing reads, are left out. *)

From Stdlib Require Import String.
From S2P Require Import Prelude Float64 Chainhash Vote Wire Hash WireMsg WireNet ScriptNum Stack Opcode Script ScriptBuilder.
From S2P Require Import Merkle BlockIndex Signature Engine EngineSafety EngineCache Standard Compress Validate Utxo.
From S2P Require Import ScriptVal ConnectBlock ChainIO ChainView Chain ConnectChain Policy Mempool Address TxHeap.

Definition blockHeaderOverhead : Z := MaxBlockHeaderPayload + MaxVarIntPayload.
Definition CoinbaseFlags : list byte := list_byte_of_string "/P2SH/btcd/".
Definition TxVersion : Z := 1.
Definition MaxPrevOutIndex : Z := 0xffffffff.
Definition vbTopBits : Z := 0x20000000.

(** The policy of block templates; [BlockMinSize] and [BlockMaxSize] are not read. *)
Record Policy := mkMiningPolicy {
  BlockMinWeight : Z; BlockMaxWeight : Z; BlockPrioritySize : Z; TxMinFreeFee : Z
}.

(** The interface TxSource. *)
Record TxSource := mkTxSource {
  source_descs : list TxDesc;
  HaveTransaction : Hash -> bool
}.
Definition mempool_source `{MapOrder} (mp : TxPool) : TxSource :=
  mkTxSource (MiningDescs mp) (fun h => haveTransaction h mp).

Record BlockTemplate := mkTemplate {
  bt_Block : MsgBlock; bt_Candidate : MsgCandidate; bt_Fees : list Z; bt_SigOpCosts : list Z;
  bt_Height : Z; bt_ValidPayAddress : bool
}.

Inductive template_error :=
  | TemplateScript (e : script_error)
  | TemplateRule (e : rule_error).
Definition from_script {A} (r : result script_error A) : result template_error A :=
  match r with Ok a => Ok a | Err e => Err (TemplateScript e) | Panic => Panic end.
Definition from_rule {A} (r : result rule_error A) : result template_error A :=
  match r with Ok a => Ok a | Err e => Err (TemplateRule e) | Panic => Panic end.

(** ** Times and versions *)

Definition MinimumMedianTime (best : BestLastCandidate) : Z := bh_Timestamp (best_Header best) + 1.
Definition medianAdjustedTime (best : BestLastCandidate) (adjustedTime : Z) : Z :=
  if adjustedTime <? MinimumMedianTime best then MinimumMedianTime best else adjustedTime.

(** The deployments are commented out, so that only the top bits are set. *)
Definition calcNextBlockVersion : Z := i32 (u32 vbTopBits).

(** ** The coinbase *)

Definition standardCoinbaseScript (nextBlockHeight extraNonce : Z) : result script_error (list byte) :=
  let* b := AddInt64 nextBlockHeight NewScriptBuilder in
  let* b := AddInt64 (i64 extraNonce) b in
  build_script (AddData CoinbaseFlags b).

Section Template.
Context `{HashFunctions} `{ScriptHashes} `{Curve} `{MapOrder}.
Context {D : Type} `{UtxoSource D} `{OutPointOrder}.
Context (policy : Policy) (params : Params) (source : TxSource) (sigCache : option SigCache).

Definition createCoinbaseTx (coinbaseScript : list byte) (nextBlockHeight : Z) (addr : option Address)
  : result script_error MsgTx :=
  let* pkScript := match addr with
                   | Some _ => PayToAddrScript addr
                   | None => build_script (AddOp OP_TRUE NewScriptBuilder)
                   end in
  Ok (mkMsgTx TxVersion
        [mkTxIn (mkOutPoint zero_hash MaxPrevOutIndex) coinbaseScript [] MaxTxInSequenceNum]
        [mkTxOut (CalcBlockSubsidy nextBlockHeight (SubsidyReductionInterval params)) pkScript] 0).

(** ** Views *)

Definition mergeUtxoView (viewA viewB : UtxoViewpoint) : UtxoViewpoint :=
  mkUtxoViewpoint
    (merge (fun a b =>
       match b with
       | None => a
       | Some entryB =>
           match a with
           | Some (Some entryA) => if IsSpent entryA then Some entryB else a
           | _ => Some entryB
           end
       end) (entries viewA) (entries viewB))
    (bestHash viewA).

Definition spend_if_there (view : UtxoViewpoint) (txIn : TxIn) : UtxoViewpoint :=
  match LookupEntry view (ti_PreviousOutPoint txIn) with
  | Some entry => set_entry (ti_PreviousOutPoint txIn) (Some (Spend entry)) view
  | None => view
  end.
Definition spendTransaction (utxoView : UtxoViewpoint) (tx : MsgTx) (h : Z) : UtxoViewpoint :=
  AddTxOuts tx h (fold_left spend_if_there (tx_TxIn tx) utxoView).

(** ** The first loop *)

Record gen_state := mkGen {
  g_items : list txPrioItem;
  g_queue : list nat;
  g_dependers : gmap Hash (gmap Hash nat);
  g_utxos : UtxoViewpoint
}.

(** The inputs of one transaction: false when one of them is not available, with
    the dependencies that were set up until then. *)
Fixpoint link_inputs (utxos : UtxoViewpoint) (txHash : Hash) (id : nat) (ins : list TxIn)
    (dependers : gmap Hash (gmap Hash nat)) (depends : gset Hash)
  : bool * gmap Hash (gmap Hash nat) * gset Hash :=
  match ins with
  | [] => (true, dependers, depends)
  | txIn :: ins =>
      let originHash := op_Hash (ti_PreviousOutPoint txIn) in
      if unspent_entry utxos (ti_PreviousOutPoint txIn) then link_inputs utxos txHash id ins dependers depends
      else if negb (HaveTransaction source originHash) then (false, dependers, depends)
      else
        let deps := default ∅ (dependers !! originHash) in
        link_inputs utxos txHash id ins (<[originHash := <[txHash := id]> deps]> dependers) ({[originHash]} ∪ depends)
  end.

(** One descriptor; [dependsOn] is nil as long as nothing was added to it. *)
Definition consider (sortedByFee : bool) (nextBlockHeight now : Z) (db : D) (txDesc : TxDesc) (st : gen_state)
  : result template_error gen_state :=
  let tx := td_Tx txDesc in
  if IsCoinBaseTx tx then Ok st
  else if negb (IsFinalizedTransaction tx nextBlockHeight now) then Ok st
  else
    match FetchUtxoView db tx with
    | Err _ => Ok st
    | Panic => Panic
    | Ok utxos =>
        let id := List.length (g_items st) in
        let '(available, dependers, depends) := link_inputs utxos (TxHash tx) id (tx_TxIn tx) (g_dependers st) ∅ in
        if available then
          let item := mkPrioItem tx (td_Fee txDesc) (CalcPriority tx utxos nextBlockHeight) (td_FeePerKB txDesc) depends in
          let items := g_items st ++ [item] in
          let queue := if bool_decide (depends = ∅) then Push (lessFunc sortedByFee items) (g_queue st) id
                       else g_queue st in
          Ok (mkGen items queue dependers (mergeUtxoView (g_utxos st) utxos))
        else
          let item := mkPrioItem tx 0 (of_int 0) 0 depends in
          Ok (mkGen (g_items st ++ [item]) (g_queue st) dependers (g_utxos st))
    end.

Fixpoint consider_all (sortedByFee : bool) (nextBlockHeight now : Z) (db : D) (descs : list TxDesc) (st : gen_state)
  : result template_error gen_state :=
  match descs with
  | [] => Ok st
  | txDesc :: descs =>
      let* st := consider sortedByFee nextBlockHeight now db txDesc st in
      consider_all sortedByFee nextBlockHeight now db descs st
  end.

(** ** The second loop *)

Record sel_state := mkSel {
  s_items : list txPrioItem;
  s_queue : list nat;
  s_sortedByFee : bool;
  s_utxos : UtxoViewpoint;
  s_txns : list MsgTx;        (** [blockTxns] after the coinbase *)
  s_weight : Z;
  s_sigops : Z;
  s_totalFees : Z;
  s_txFees : list Z;          (** after the entry of the coinbase *)
  s_sigOpCosts : list Z
}.

Definition set_queue (queue : list nat) (sortedByFee : bool) (st : sel_state) : sel_state :=
  mkSel (s_items st) queue sortedByFee (s_utxos st) (s_txns st) (s_weight st) (s_sigops st) (s_totalFees st)
    (s_txFees st) (s_sigOpCosts st).

(** [delete(item.dependsOn, hash)] *)
Definition drop_dependency (txHash : Hash) (item : txPrioItem) : txPrioItem :=
  mkPrioItem (pi_tx item) (pi_fee item) (pi_priority item) (pi_feePerKB item) (dependsOn item ∖ {[txHash]}).

(** The loop over the transactions that wait for [txHash]. *)
Fixpoint release (sortedByFee : bool) (txHash : Hash) (deps : list (Hash * nat)) (items : list txPrioItem) (queue : list nat)
  : list txPrioItem * list nat :=
  match deps with
  | [] => (items, queue)
  | (_, id) :: deps =>
      let item := drop_dependency txHash (item_at items id) in
      let items := <[id := item]> items in
      let queue := if bool_decide (dependsOn item = ∅) then Push (lessFunc sortedByFee items) queue id else queue in
      release sortedByFee txHash deps items queue
  end.

(** The transaction goes into the block. *)
Definition add_to_block (nextBlockHeight : Z) (dependers : gmap Hash (gmap Hash nat)) (item : txPrioItem) (txWeight sigOpCost : Z)
    (st : sel_state) : sel_state :=
  let tx := pi_tx item in
  let '(items, queue) :=
    release (s_sortedByFee st) (TxHash tx) (range (default ∅ (dependers !! TxHash tx))) (s_items st) (s_queue st) in
  mkSel items queue (s_sortedByFee st) (spendTransaction (s_utxos st) tx nextBlockHeight) (s_txns st ++ [tx])
    (u32 (s_weight st + txWeight)) (i64 (s_sigops st + sigOpCost)) (i64 (s_totalFees st + pi_fee item))
    (s_txFees st ++ [pi_fee item]) (s_sigOpCosts st ++ [sigOpCost]).

(** The body of the loop for the item at the top of the queue; the queue of [st]
    is what is left.  Without [Ok] or [Panic] the transaction is skipped. *)
Definition select_item (nextBlockHeight : Z) (dependers : gmap Hash (gmap Hash nat)) (id : nat) (st : sel_state)
  : result template_error sel_state :=
  let prioItem := item_at (s_items st) id in
  let tx := pi_tx prioItem in
  let txWeight := u32 (GetTransactionWeight tx) in
  let blockPlusTxWeight := u32 (s_weight st + txWeight) in
  if (blockPlusTxWeight <? s_weight st) || (BlockMaxWeight policy <=? blockPlusTxWeight) then Ok st
  else
    match GetSigOpCost tx false (s_utxos st) true false with
    | Err _ => Ok st
    | Panic => Panic
    | Ok sigOpCost =>
        if (i64 (s_sigops st + sigOpCost) <? s_sigops st) || (MaxBlockSigOpsCost <? i64 (s_sigops st + sigOpCost))
        then Ok st
        else if s_sortedByFee st && (pi_feePerKB prioItem <? TxMinFreeFee policy)
                && (BlockMinWeight policy <=? blockPlusTxWeight)
        then Ok st
        else
          let switch := negb (s_sortedByFee st) &&
            ((BlockPrioritySize policy <=? blockPlusTxWeight) || fge MinHighPriority (pi_priority prioItem)) in
          let st := if switch then set_queue (Init (lessFunc true (s_items st)) (s_queue st)) true st else st in
          if switch && ((BlockPrioritySize policy <? blockPlusTxWeight) || fgt MinHighPriority (pi_priority prioItem))
          then Ok (set_queue (Push (lessFunc true (s_items st)) (s_queue st) id) true st)
          else
            match CheckTransactionInputs tx nextBlockHeight (s_utxos st) params with
            | Err _ => Ok st
            | Panic => Panic
            | Ok _ =>
                match ValidateTransactionScripts tx (s_utxos st) StandardVerifyFlags sigCache with
                | Err _ => Ok st
                | Panic => Panic
                | Ok _ => Ok (add_to_block nextBlockHeight dependers prioItem txWeight sigOpCost st)
                end
            end
    end.

(** [None] is running out of fuel. *)
Fixpoint select_loop (fuel : nat) (nextBlockHeight : Z) (dependers : gmap Hash (gmap Hash nat)) (st : sel_state)
  : option (result template_error sel_state) :=
  match Pop (lessFunc (s_sortedByFee st) (s_items st)) (s_queue st) with
  | None => Some (Ok st)
  | Some (id, queue) =>
      match fuel with
      | O => None
      | S fuel =>
          match select_item nextBlockHeight dependers id (set_queue queue (s_sortedByFee st) st) with
          | Ok st => select_loop fuel nextBlockHeight dependers st
          | Err e => Some (Err e)
          | Panic => Some Panic
          end
      end
  end.

(** Every item leaves the queue once, one of them twice. *)
Definition select_transactions (nextBlockHeight now : Z) (db : D) (coinbaseTx : MsgTx) : result template_error sel_state :=
  let sortedByFee := BlockPrioritySize policy =? 0 in
  let* g := consider_all sortedByFee nextBlockHeight now db (source_descs source) (mkGen [] [] ∅ NewUtxoViewpoint) in
  let blockWeight := u32 (blockHeaderOverhead * WitnessScaleFactor + GetTransactionWeight coinbaseTx) in
  let coinbaseSigOpCost := i64 (CountSigOps coinbaseTx * WitnessScaleFactor) in
  match select_loop (S (List.length (g_items g))) nextBlockHeight (g_dependers g)
          (mkSel (g_items g) (g_queue g) sortedByFee (g_utxos g) [] blockWeight coinbaseSigOpCost 0 [] []) with
  | Some r => r
  | None => Panic
  end.

(** ** The template *)

(** [coinbaseTx.MsgTx().TxOut[0].Value += totalFees] *)
Definition add_fees (coinbaseTx : MsgTx) (totalFees : Z) : result template_error MsgTx :=
  match tx_TxOut coinbaseTx with
  | [] => Panic
  | out :: outs =>
      Ok (mkMsgTx (tx_Version coinbaseTx) (tx_TxIn coinbaseTx)
            (mkTxOut (i64 (to_Value out + totalFees)) (to_PkScript out) :: outs) (tx_LockTime coinbaseTx))
  end.

(** [block] is the pair of messages of [drcutil.NewCandidate], with its height;
    [pool] the current candidate pool. *)
Definition CheckConnectBlockTemplate (pool : list MsgCandidate) (best : BestLastCandidate) (bi : blockIndex) (db : D)
    (msgBlock : MsgBlock) (msgCandidate : MsgCandidate) (blockHeight : Z) (seed : Hash) (pi : Z) : result rule_error unit :=
  let header := mb_Header msgBlock in
  if negb (bool_decide (best_Hash best = bh_PrevBlock header)) then Err ErrPrevBlockNotBest
  else
    let* _ := checkCandidateSanity pool msgCandidate seed pi in
    let view := SetBestHash (best_Hash best) NewUtxoViewpoint in
    let parent := newBlockNode (best_Header best) (LookupNode bi (bh_PrevBlock (best_Header best))) 0 in
    let newNode := newBlockNode header (Some parent) 0 in
    let* _ := checkConnectBlock params db newNode msgBlock blockHeight sigCache view None in
    Ok tt.

Definition NewBlockTemplate (bestCandidate : option BestLastCandidate) (pool : list MsgCandidate) (bi : blockIndex) (db : D)
    (now : Z) (payToAddress : option Address) (pubkey : Hash33) (signature : Hash64) (scale reserved height : Z)
  : result template_error BlockTemplate :=
  match bestCandidate with
  | None => Panic
  | Some best =>
      let nextBlockHeight := i32 (best_Height best + 1) in
      let* coinbaseScript := from_script (standardCoinbaseScript nextBlockHeight 0) in
      let* coinbaseTx := from_script (createCoinbaseTx coinbaseScript nextBlockHeight payToAddress) in
      let* sel := select_transactions nextBlockHeight now db coinbaseTx in
      let* paidCoinbase := add_fees coinbaseTx (s_totalFees sel) in
      let blockTxns := paidCoinbase :: s_txns sel in
      let ts := medianAdjustedTime best now in
      match merkle_root_of (BuildMerkleTreeStore blockTxns false) with
      | None => Panic
      | Some root =>
          let header := mkBlockHeader calcNextBlockVersion (best_Hash best) root ts signature pubkey scale reserved in
          let msgBlock := mkMsgBlock header blockTxns in
          let msgCandidate := mkMsgCandidate header blockTxns height in
          let seed := DoubleHashH (bh_Signature (best_Header best)) in
          let* pi := BlockVerge scale in
          let* _ := from_rule (CheckConnectBlockTemplate pool best bi db msgBlock msgCandidate nextBlockHeight seed pi) in
          Ok (mkTemplate msgBlock msgCandidate (i64 (- s_totalFees sel) :: s_txFees sel)
                (i64 (CountSigOps coinbaseTx * WitnessScaleFactor) :: s_sigOpCosts sel) nextBlockHeight
                (match payToAddress with Some _ => true | None => false end))
      end
  end.

(** ** Updating a template *)

Definition UpdateBlockTime (bestCandidate : option BestLastCandidate) (now : Z) (msgBlock : MsgCandidate)
  : result template_error MsgCandidate :=
  match bestCandidate with
  | None => Panic
  | Some best =>
      let h := mc_Header msgBlock in
      Ok (mkMsgCandidate
            (mkBlockHeader (bh_Version h) (bh_PrevBlock h) (bh_MerkleRoot h) (medianAdjustedTime best now)
               (bh_Signature h) (bh_PublicKey h) (bh_Scale h) (bh_Reserved h))
            (mc_Transactions msgBlock) (mc_Height msgBlock))
  end.

(** [None] stands for the error of a script that is too long. *)
Definition UpdateExtraNonce (msgBlock : MsgBlock) (blockHeight extraNonce : Z) : result script_error (option MsgBlock) :=
  let* coinbaseScript := standardCoinbaseScript blockHeight extraNonce in
  if MaxCoinbaseScriptLen <? zlen coinbaseScript then Ok None
  else
    match mb_Transactions msgBlock with
    | [] => Panic
    | tx :: txs =>
        match tx_TxIn tx with
        | [] => Panic
        | txIn :: ins =>
            let txIn := mkTxIn (ti_PreviousOutPoint txIn) coinbaseScript (ti_Witness txIn) (ti_Sequence txIn) in
            let txs := mkMsgTx (tx_Version tx) (txIn :: ins) (tx_TxOut tx) (tx_LockTime tx) :: txs in
            match merkle_root_of (BuildMerkleTreeStore txs false) with
            | None => Panic
            | Some root =>
                let h := mb_Header msgBlock in
                Ok (Some (mkMsgBlock
                  (mkBlockHeader (bh_Version h) (bh_PrevBlock h) root (bh_Timestamp h) (bh_Signature h)
                     (bh_PublicKey h) (bh_Scale h) (bh_Reserved h)) txs))
            end
        end
    end.

End Template.
