(* ===== verification/TemplateSpec.v ===== *)
(** * Which transactions a block template takes

    The selection of [NewBlockTemplate] ends, takes the best item of the queue at
    every step, and what it selects is a sequence of steps of the ledger of the
    chain that respects the limits of the policy. *)

From S2P Require Import Prelude Float64 Chainhash Vote Wire Hash WireMsg WireNet FramingSize ScriptNum Stack Opcode Script ScriptBuilder.
From S2P Require Import Merkle BlockIndex Signature Engine EngineSafety EngineCache Standard Compress Validate Utxo.
From S2P Require Import ScriptVal ConnectBlock ChainIO ChainView Chain ConnectChain Policy Mempool MempoolInv Address TxHeap Template.

(** ** Items and queues *)

Lemma item_at_app_l items x id : (id < length items)%nat -> item_at (items ++ [x]) id = item_at items id.
Proof. intros Hid. unfold item_at. by rewrite lookup_app_l. Qed.
Lemma item_at_app_r items x : item_at (items ++ [x]) (length items) = x.
Proof. unfold item_at. by rewrite list_lookup_middle. Qed.
Lemma item_at_insert items id x id' : (id < length items)%nat ->
  item_at (<[id := x]> items) id' = if decide (id' = id) then x else item_at items id'.
Proof.
  intros Hid. unfold item_at. destruct (decide (id' = id)) as [->|Hne].
  - by rewrite list_lookup_insert_eq.
  - by rewrite list_lookup_insert_ne.
Qed.

Lemma is_heap_ext {A} (less less' : A -> A -> bool) h :
  (forall a b, a ∈ h -> b ∈ h -> less a b = less' a b) -> is_heap less h -> is_heap less' h.
Proof.
  intros Heq Hh c Hc Hk. specialize (Hh c Hc Hk). unfold Less in *.
  destruct (h !! c) as [a|] eqn:Ha; [|done]. destruct (h !! parent_of c) as [b|] eqn:Hb; [|done].
  rewrite <- Heq; [done| |]; by eapply list_elem_of_lookup_2.
Qed.

(** What the queue compares does not involve [dependsOn]. *)
Definition same_item (x y : txPrioItem) : Prop :=
  pi_tx x = pi_tx y /\ pi_fee x = pi_fee y /\ pi_priority x = pi_priority y /\ pi_feePerKB x = pi_feePerKB y.

Lemma lessFunc_same b items items' x y :
  same_item (item_at items x) (item_at items' x) -> same_item (item_at items y) (item_at items' y) ->
  lessFunc b items x y = lessFunc b items' x y.
Proof.
  intros (_ & _ & Hpx & Hfx) (_ & _ & Hpy & Hfy). unfold lessFunc, txPQByFee, txPQByPriority.
  destruct b; by rewrite Hpx, Hfx, Hpy, Hfy.
Qed.

Lemma is_heap_same b items items' q :
  (forall id, id ∈ q -> same_item (item_at items id) (item_at items' id)) ->
  is_heap (lessFunc b items) q -> is_heap (lessFunc b items') q.
Proof. intros Hs. apply is_heap_ext. intros x y Hx Hy. by apply lessFunc_same; apply Hs. Qed.

Lemma Pop_empty {A} (less : A -> A -> bool) : Pop less [] = None.
Proof. done. Qed.

(** ** Views that hold what the database has *)

Section Spec.
Context `{HashFunctions} `{ScriptHashes} `{Curve} `{MapOrder}.
Context {D : Type} `{UtxoSource D} `{OutPointOrder}.

Definition from_db (db : D) (view : UtxoViewpoint) : Prop :=
  forall o e, entries view !! o = Some e -> dbFetchUtxoEntry db o = Ok e.

Lemma merge_from_db db a b : from_db db a -> from_db db b -> from_db db (mergeUtxoView a b).
Proof.
  intros Ha Hb o e. unfold mergeUtxoView. cbn. rewrite lookup_merge. specialize (Ha o). specialize (Hb o).
  destruct (entries a !! o) as [[ea|]|], (entries b !! o) as [eb|]; cbn; try done; repeat destruct (IsSpent _);
    intros [= <-]; auto.
Qed.

Lemma fetch_view_from_db db tx view : FetchUtxoView db tx = Ok view -> from_db db view.
Proof.
  unfold FetchUtxoView. intros (Hout & Hin & _)%fetchUtxosMain_spec o e He.
  match type of Hin with forall o, o ∈ ?s -> _ => destruct (decide (o ∈ s)) as [Ho|Ho] end.
  - destruct (Hin o Ho) as (e' & Hd & He'). congruence.
  - rewrite Hout in He by done. cbn in He. by rewrite lookup_empty in He.
Qed.

(** The inputs of the transaction are in the view. *)
Lemma fetch_view_input db tx view o :
  FetchUtxoView db tx = Ok view -> IsCoinBaseTx tx = false -> o ∈ tx_inputs tx -> unspent_entry view o = false -> fetch_coin db o = None.
Proof.
  unfold FetchUtxoView. intros (_ & Hin & _)%fetchUtxosMain_spec Hcb Ho Hu. rewrite Hcb in Hin.
  destruct (Hin o) as (e & Hd & He). { apply elem_of_union. right. by apply elem_of_list_to_set. }
  unfold fetch_coin. rewrite Hd. unfold unspent_entry, LookupEntry in Hu. rewrite He in Hu.
  destruct e as [e|]; [|done]. cbn. by destruct (IsSpent e).
Qed.

Lemma from_db_implements db view l :
  implements db NewUtxoViewpoint l -> from_db db view -> implements db view l.
Proof.
  intros Hl Hv o Ho. rewrite <- Hl by done. unfold view_coin. cbn. rewrite lookup_empty. unfold fetch_coin.
  destruct (entries view !! o) as [e|] eqn:He; [|done]. by rewrite (Hv o e He).
Qed.

(** ** Spending in the view of the block *)

Lemma spend_if_there_inputs ins view view' stxos stxos' :
  spend_inputs ins stxos view = Ok (view', stxos') -> fold_left spend_if_there ins view = view'.
Proof.
  revert view stxos. induction ins as [|i ins IH]; intros view stxos; cbn [spend_inputs fold_left].
  { by intros [= <- _]. }
  unfold spend_if_there at 2. destruct (LookupEntry view _) as [e|]; [|done]. apply IH.
Qed.

Lemma connect_spend tx h stxos view view' stxos' :
  IsCoinBaseTx tx = false -> connectTransaction tx h stxos view = Ok (view', stxos') -> spendTransaction view tx h = view'.
Proof.
  intros Hcb. unfold connectTransaction. rewrite Hcb. intros ([v s] & Hs & Hc)%rbind_Ok.
  injection Hc as <- _. unfold spendTransaction. f_equal. by eapply spend_if_there_inputs.
Qed.

(** A transaction whose inputs pass the check is a step of the ledger. *)
Lemma spend_step params tx h db view l fee :
  IsCoinBaseTx tx = false -> tx_sane tx -> Forall outpoint_ok (tx_inputs tx) -> implements db view l ->
  CheckTransactionInputs tx h view params = Ok fee ->
  (forall o, o ∈ tx_inputs tx -> is_Some (l !! o)) /\
  exists cs l', ledger_tx tx h l = Some (cs, l') /\ implements db (spendTransaction view tx h) l'.
Proof.
  intros Hcb Hs Hok Hi Hc. apply CheckTransactionInputs_spec in Hc; [|done]. rewrite Hcb in Hc. destruct Hc as (es & Hes & _).
  assert (Hav : forall o, o ∈ tx_inputs tx -> outpoint_ok o /\ available view o).
  { intros o Ho. split; [by eapply list.Forall_forall|]. apply list_elem_of_fmap in Ho as (i & -> & Hin).
    apply list_elem_of_lookup in Hin as [k Hk].
    destruct (Forall2_lookup_l _ _ _ _ _ Hes Hk) as (e & _ & He & Hsp & _). by exists e. }
  split.
  - intros o Ho. destruct (Hav o Ho) as [Ho' Hv]. rewrite <- Hi by done.
    destruct (available_coin db view o Hv) as (e & _ & ->). by eexists.
  - destruct (connectTransaction_agrees (fun _ => False) db tx h None view l) as (cs & l' & view' & Hl & Hct & Ha & _).
    + by apply implements_agrees.
    + intros _. split; [apply (sane_distinct tx Hs)|]. intros o Ho. destruct (Hav o Ho). tauto.
    + exists cs, l'. split; [done|]. rewrite (connect_spend _ _ _ _ _ _ Hcb Hct).
      intros o Ho. apply Ha; [done|]. tauto.
Qed.

(** ** The first loop *)

Context (policy : Policy) (params : Params) (source : TxSource) (sigCache : option SigCache).
Context (h now : Z) (db : D) (l0 : gmap OutPoint coin).

Definition desc_hash (d : TxDesc) : Hash := TxHash (td_Tx d).
Definition item_hash (it : txPrioItem) : Hash := TxHash (pi_tx it).

(** What the selection relies on: the transactions of the source are distinct,
    sane and no larger than a message, and the source knows that it has them. *)
Record source_ok : Prop := {
  src_distinct : NoDup (map desc_hash (source_descs source));
  src_have : forall d, d ∈ source_descs source -> HaveTransaction source (desc_hash d) = true;
  src_sane : forall d, d ∈ source_descs source -> tx_sane (td_Tx d) /\ Forall outpoint_ok (tx_inputs (td_Tx d));
  src_size : forall d, d ∈ source_descs source -> MsgTx_SerializeSize (td_Tx d) <= MaxMessagePayload
}.

(** An item has the fee of its descriptor, unless one of its inputs is neither in
    the chain nor in the source. *)
Definition complete (d : TxDesc) (it : txPrioItem) : Prop := pi_fee it = td_Fee d /\ pi_feePerKB it = td_FeePerKB d.
Definition unavailable (tx : MsgTx) : Prop :=
  exists o, o ∈ tx_inputs tx /\ l0 !! o = None /\ HaveTransaction source (op_Hash o) = false.
Definition item_ok (descs : list TxDesc) (it : txPrioItem) : Prop :=
  exists d, d ∈ descs /\ pi_tx it = td_Tx d /\ IsCoinBaseTx (td_Tx d) = false /\
    IsFinalizedTransaction (td_Tx d) h now = true /\ (complete d it \/ unavailable (td_Tx d)).

(** The dependers of a transaction wait for it. *)
Definition linked (items : list txPrioItem) (dependers : gmap Hash (gmap Hash nat)) (waits : Hash -> nat -> Prop) : Prop :=
  forall k m k' id, dependers !! k = Some m -> m !! k' = Some id ->
    (id < length items)%nat /\ item_hash (item_at items id) = k' /\ waits k id.
Definition waits_in (items : list txPrioItem) (k : Hash) (id : nat) : Prop := k ∈ dependsOn (item_at items id).

Record gen_ok (sortedByFee : bool) (seen : list TxDesc) (st : gen_state) : Prop := {
  gen_db : from_db db (g_utxos st);
  gen_items : Forall (item_ok seen) (g_items st);
  gen_distinct : NoDup (map item_hash (g_items st));
  gen_queue : NoDup (g_queue st);
  gen_ready : forall id, id ∈ g_queue st -> (id < length (g_items st))%nat /\ dependsOn (item_at (g_items st) id) = ∅;
  gen_heap : is_heap (lessFunc sortedByFee (g_items st)) (g_queue st);
  gen_linked : linked (g_items st) (g_dependers st) (waits_in (g_items st))
}.

Lemma link_inputs_spec utxos txHash id ins : forall dependers depends b dependers' depends',
  link_inputs source utxos txHash id ins dependers depends = (b, dependers', depends') ->
  depends ⊆ depends' /\
  (forall k m k' id', dependers' !! k = Some m -> m !! k' = Some id' ->
     (exists m0, dependers !! k = Some m0 /\ m0 !! k' = Some id') \/ (id' = id /\ k' = txHash /\ k ∈ depends')) /\
  (b = false -> exists o, o ∈ map ti_PreviousOutPoint ins /\ unspent_entry utxos o = false /\ HaveTransaction source (op_Hash o) = false).
Proof.
  induction ins as [|i ins IH]; intros dependers depends b dependers' depends'; cbn [link_inputs map].
  { intros [= <- <- <-]. split; [done|]. split; [|done]. intros k m k' id' Hm Hid. left. eauto. }
  set (o := ti_PreviousOutPoint i). destruct (unspent_entry utxos o) eqn:Hu.
  { intros (Hs & Hl & Hf)%IH. split; [done|]. split; [done|]. intros (o' & Ho & Hr)%Hf. exists o'. split; [by right|done]. }
  destruct (HaveTransaction source (op_Hash o)) eqn:Hh; cbn [negb].
  - intros (Hs & Hl & Hf)%IH. split; [set_solver|]. split.
    + intros k m k' id' Hm Hid. destruct (Hl k m k' id' Hm Hid) as [(m0 & Hm0 & Hid0)|]; [|by right].
      destruct (decide (op_Hash o = k)) as [<-|Hne]; [|rewrite lookup_insert_ne in Hm0 by done; eauto].
      rewrite lookup_insert_eq in Hm0. injection Hm0 as <-. destruct (decide (txHash = k')) as [<-|Hne'].
      * rewrite lookup_insert_eq in Hid0. injection Hid0 as <-. right. set_solver.
      * rewrite lookup_insert_ne in Hid0 by done. left. destruct (dependers !! op_Hash o); [eauto|]. cbn in Hid0. by rewrite lookup_empty in Hid0.
    + intros (o' & Ho & Hr)%Hf. exists o'. split; [by right|done].
  - intros [= <- <- <-]. split; [done|]. split; [intros k m k' id' Hm Hid; left; eauto|]. intros _. exists o. split; [left|done].
Qed.

Lemma item_ok_mono seen seen' it : (forall d, d ∈ seen -> d ∈ seen') -> item_ok seen it -> item_ok seen' it.
Proof. intros Hs (d & Hd & Hr). exists d. split; [by apply Hs|done]. Qed.

Lemma items_hash seen items id :
  Forall (item_ok seen) items -> (id < length items)%nat -> item_hash (item_at items id) ∈ map desc_hash seen.
Proof.
  intros Hi Hid. destruct (lookup_lt_is_Some_2 items id Hid) as [it Hit]. unfold item_at. rewrite Hit. cbn.
  rewrite list.Forall_forall in Hi. destruct (Hi it) as (d & Hd & Htx & _); [by eapply list_elem_of_lookup_2|].
  apply list_elem_of_fmap. exists d. split; [|done]. unfold item_hash, desc_hash. by rewrite Htx.
Qed.

(** Adding an item: [queue] is the old queue, with the new item if it waits for
    nothing. *)
Lemma gen_ok_add b seen st d it utxos dependers :
  gen_ok b seen st -> item_ok (seen ++ [d]) it -> item_hash it = desc_hash d -> (desc_hash d ∉ map desc_hash seen) -> from_db db utxos ->
  let items := g_items st ++ [it] in
  linked items dependers (waits_in items) ->
  forall queue, (queue = g_queue st \/ (queue = Push (lessFunc b items) (g_queue st) (length (g_items st)) /\ dependsOn it = ∅)) ->
  gen_ok b (seen ++ [d]) (mkGen items queue dependers utxos).
Proof.
  intros [Hdb Hi Hd Hq Hr Hh Hl] Hit Hhash Hnew Hu items Hlink queue Hqueue.
  assert (Hold : forall id, id ∈ g_queue st -> item_at items id = item_at (g_items st) id).
  { intros id Hin. apply item_at_app_l, (Hr id Hin). }
  assert (Hh' : is_heap (lessFunc b items) (g_queue st)).
  { eapply is_heap_same; [|exact Hh]. intros id Hin. by rewrite Hold. }
  assert (Hr' : forall id, id ∈ g_queue st -> (id < length items)%nat /\ dependsOn (item_at items id) = ∅).
  { intros id Hin. rewrite Hold by done. unfold items. rewrite length_app. destruct (Hr id Hin). split; [lia|done]. }
  assert (Hnin : (length (g_items st) ∉ g_queue st)) by (intros Hin%Hr; lia).
  split; cbn [g_items g_queue g_dependers g_utxos]; [done| | | | | |done].
  - apply Forall_app. split; [|by constructor]. eapply list.Forall_impl; [exact Hi|]. intros x. apply item_ok_mono.
    intros y Hy. apply elem_of_app. by left.
  - unfold items. rewrite map_app. apply list.NoDup_app. split; [done|]. split; [|apply list.NoDup_singleton].
    intros x Hx E%list_elem_of_singleton. rewrite E in Hx. apply Hnew. rewrite <- Hhash. apply list_elem_of_fmap in Hx as (y & -> & Hy).
    apply list_elem_of_lookup in Hy as [j Hk]. replace y with (item_at (g_items st) j) by (unfold item_at; by rewrite Hk).
    apply items_hash; [done|]. by eapply lookup_lt_Some.
  - destruct Hqueue as [->|[-> _]]; [done|]. rewrite Push_perm. by apply list.NoDup_cons.
  - destruct Hqueue as [->|[-> He]]; [done|]. intros id. rewrite Push_perm. intros [->|Hin]%elem_of_cons; [|by apply Hr'].
    unfold items. rewrite item_at_app_r, length_app. cbn. split; [lia|done].
  - destruct Hqueue as [->|[-> _]]; [done|]. exact (Push_heap _ _ _ Hh').
Qed.

Lemma consider_ok b seen st d st' :
  implements db NewUtxoViewpoint l0 -> Forall outpoint_ok (tx_inputs (td_Tx d)) ->
  gen_ok b seen st -> (desc_hash d ∉ map desc_hash seen) -> consider source b h now db d st = Ok st' -> gen_ok b (seen ++ [d]) st'.
Proof.
  intros Hl0 Hok Hg Hnew. assert (Hskip : gen_ok b (seen ++ [d]) st).
  { destruct Hg. split; try done. eapply list.Forall_impl; [eassumption|]. intros x. apply item_ok_mono. intros y Hy. apply elem_of_app. by left. }
  unfold consider. destruct (IsCoinBaseTx (td_Tx d)) eqn:Hcb; [by intros [= <-]|].
  destruct (IsFinalizedTransaction (td_Tx d) h now) eqn:Hf; cbn [negb]; [|by intros [= <-]].
  destruct (FetchUtxoView db (td_Tx d)) as [utxos| |] eqn:Hu; [|by intros [= <-]|done].
  destruct (link_inputs _ _ _ _ _ _ _) as [[av dependers] depends] eqn:Hlink.
  apply link_inputs_spec in Hlink as (_ & Hlink & Hav).
  assert (Hnewlinks : forall it, dependsOn it = depends -> item_hash it = desc_hash d ->
    linked (g_items st ++ [it]) dependers (waits_in (g_items st ++ [it]))).
  { intros it Hdep Hhash k m k' id Hm Hid. rewrite length_app. cbn. unfold waits_in.
    destruct (Hlink k m k' id Hm Hid) as [(m0 & Hm0 & Hid0)|(-> & -> & Hin)].
    - destruct (gen_linked _ _ _ Hg k m0 k' id Hm0 Hid0) as (Hlt & Hh & Hw). rewrite item_at_app_l by done. split; [lia|done].
    - rewrite item_at_app_r, Hdep. split; [lia|done]. }
  destruct av; intros [= <-].
  - apply (gen_ok_add b seen st d); try done.
    + exists d. rewrite elem_of_app, list_elem_of_singleton. split; [by right|]. do 3 (split; [done|]). by left.
    + apply merge_from_db; [apply Hg|by eapply fetch_view_from_db].
    + by apply Hnewlinks.
    + case_bool_decide; [by right|by left].
  - apply (gen_ok_add b seen st d); try done; [|apply Hg|by apply Hnewlinks|by left].
    exists d. rewrite elem_of_app, list_elem_of_singleton. split; [by right|]. do 3 (split; [done|]). right.
    destruct (Hav eq_refl) as (o & Ho & Hun & Hh). exists o. split; [done|]. split; [|done].
    rewrite <- Hl0 by (by eapply list.Forall_forall). unfold view_coin. cbn. rewrite lookup_empty. by eapply fetch_view_input.
Qed.

Lemma consider_all_ok b descs : forall seen st st',
  implements db NewUtxoViewpoint l0 -> Forall (fun d => Forall outpoint_ok (tx_inputs (td_Tx d))) descs ->
  gen_ok b seen st -> NoDup (map desc_hash (seen ++ descs)) ->
  consider_all source b h now db descs st = Ok st' -> gen_ok b (seen ++ descs) st'.
Proof.
  induction descs as [|d descs IH]; intros seen st st' Hl0 Hok Hg Hnd Hc; cbn [consider_all] in Hc.
  { injection Hc as <-. by rewrite app_nil_r. }
  apply rbind_Ok in Hc as (st1 & Hc1 & Hc). apply list.Forall_cons in Hok as [Hd Hok].
  change (d :: descs) with ([d] ++ descs) in *. rewrite app_assoc in *. eapply IH; try done. eapply consider_ok; try done.
  rewrite !map_app in Hnd. apply list.NoDup_app in Hnd as (Hnd & _ & _). apply list.NoDup_app in Hnd as (_ & Hnd & _).
  intros Hin. apply (Hnd _ Hin). left.
Qed.

Lemma gen_start b : gen_ok b [] (mkGen [] [] ∅ NewUtxoViewpoint).
Proof.
  split; cbn [g_items g_queue g_dependers g_utxos]; [| constructor | constructor | constructor | | |].
  - intros o e He. cbn in He. by rewrite lookup_empty in He.
  - by intros id Hid%not_elem_of_nil.
  - intros c Hc. cbn in Hc. lia.
  - intros k m k' id Hm. by rewrite lookup_empty in Hm.
Qed.

(** ** The second loop *)

Definition ready (items : list txPrioItem) (ids : list nat) : Prop :=
  forall id, id ∈ ids -> (id < length items)%nat /\ dependsOn (item_at items id) = ∅.

Lemma drop_same k it : same_item it (drop_dependency k it).
Proof. by repeat split. Qed.

Lemma ready_insert k id items ids :
  ready items ids -> (id < length items)%nat -> k ∈ dependsOn (item_at items id) ->
  (id ∉ ids) /\ ready (<[id := drop_dependency k (item_at items id)]> items) ids.
Proof.
  intros Hr Hid Hk. assert (Hnin : (id ∉ ids)). { intros Hin. destruct (Hr id Hin) as [_ He]. set_solver. }
  split; [done|]. intros x Hx. rewrite length_insert, item_at_insert by done. rewrite decide_False by (by intros ->). by apply Hr.
Qed.

Lemma release_ok b k deps : forall items queue done items' queue',
  NoDup deps.*2 -> (forall id, id ∈ deps.*2 -> (id < length items)%nat /\ k ∈ dependsOn (item_at items id)) ->
  NoDup (queue ++ done) -> ready items (queue ++ done) -> is_heap (lessFunc b items) queue ->
  release b k deps items queue = (items', queue') ->
  length items' = length items /\
  (forall id, item_at items' id = if decide (id ∈ deps.*2) then drop_dependency k (item_at items id) else item_at items id) /\
  NoDup (queue' ++ done) /\ ready items' (queue' ++ done) /\ is_heap (lessFunc b items') queue'.
Proof.
  induction deps as [|[k' id] deps IH]; intros items queue done items' queue' Hnd Hdeps Hq Hr Hh Hrel; cbn [release] in Hrel.
  { injection Hrel as <- <-. split; [done|]. split; [|done]. intros id. by rewrite decide_False by apply not_elem_of_nil. }
  change (((k', id) :: deps).*2) with (id :: deps.*2) in *. apply list.NoDup_cons in Hnd as [Hnin Hnd].
  destruct (Hdeps id ltac:(left)) as [Hid Hk]. set (it := drop_dependency k (item_at items id)) in *.
  set (items1 := <[id := it]> items) in *.
  destruct (ready_insert k id items _ Hr Hid Hk) as [Hfresh Hr1]. fold it items1 in Hr1.
  assert (Hsame : forall x, same_item (item_at items x) (item_at items1 x)).
  { intros x. unfold items1. rewrite item_at_insert by done. destruct (decide _) as [->|]; [apply drop_same|done]. }
  assert (Hh1 : is_heap (lessFunc b items1) queue) by (eapply is_heap_same; [intros; apply Hsame|exact Hh]).
  match type of Hrel with release _ _ _ _ ?q = _ => set (queue1 := q) in * end.
  assert (Hq1 : NoDup (queue1 ++ done) /\ ready items1 (queue1 ++ done) /\ is_heap (lessFunc b items1) queue1).
  { unfold queue1. case_bool_decide as He; [|done]. split; [|split; [|exact (Push_heap _ _ _ Hh1)]].
    - rewrite Push_perm. by apply list.NoDup_cons.
    - intros x. rewrite Push_perm. intros [->|Hx]%elem_of_cons; [|by apply Hr1].
      unfold items1. rewrite length_insert, item_at_insert, decide_True by done. done. }
  destruct Hq1 as (Hq1 & Hr1' & Hh1').
  destruct (IH items1 queue1 done items' queue') as (Hlen & Hitems & Hrest); try done.
  { intros x Hx. destruct (Hdeps x ltac:(by right)) as [Hxl Hxk]. unfold items1. rewrite length_insert, item_at_insert by done.
    rewrite decide_False by (by intros ->). done. }
  split; [rewrite Hlen; unfold items1; by rewrite length_insert|]. split; [|done].
  intros x. rewrite Hitems. unfold items1. rewrite item_at_insert by done. destruct (decide (x = id)) as [->|Hne].
  - rewrite decide_False by done. by rewrite decide_True by left.
  - destruct (decide (x ∈ deps.*2)); [rewrite decide_True by (by right); done|].
    rewrite decide_False; [done|]. by intros [|]%elem_of_cons.
Qed.

Lemma lookup_add_coins_ne cs l o : (o ∉ cs.*1) -> add_coins cs l !! o = l !! o.
Proof.
  revert l. induction cs as [|[o' c] cs IH]; intros l; [done|]. change (((o', c) :: cs).*1) with (o' :: cs.*1).
  intros [Hne Hn]%not_elem_of_cons. change (add_coins ((o', c) :: cs) l) with (add_coins cs (<[o' := c]> l)).
  rewrite IH by done. by apply lookup_insert_ne.
Qed.

Lemma spend_coins_None os : forall l cs l' o, spend_coins os l = Some (cs, l') -> l !! o = None -> l' !! o = None.
Proof.
  induction os as [|i os IH]; intros l cs l' o; cbn [spend_coins]; [by intros [= _ <-]|].
  destruct (l !! i); [|done]. destruct (spend_coins os _) as [[cs' l1]|] eqn:Hs; [|done]. intros [= _ ->] Hl.
  eapply IH; [exact Hs|]. destruct (decide (i = o)) as [->|]; [apply lookup_delete_eq|by rewrite lookup_delete_ne].
Qed.

Lemma spend_coins_gone os : forall l cs l' o, spend_coins os l = Some (cs, l') -> o ∈ os -> l' !! o = None.
Proof.
  induction os as [|i os IH]; intros l cs l' o; cbn [spend_coins]; [by intros _ Ho%not_elem_of_nil|].
  destruct (l !! i); [|done]. destruct (spend_coins os _) as [[cs' l1]|] eqn:Hs; [|done]. intros [= _ ->] [->|Ho]%elem_of_cons; [|by eapply IH].
  eapply spend_coins_None; [exact Hs|apply lookup_delete_eq].
Qed.

(** Where the coins of a ledger come from. *)
Lemma ledger_tx_origin tx l cs l' o :
  ledger_tx tx h l = Some (cs, l') -> is_Some (l' !! o) -> is_Some (l !! o) \/ op_Hash o = TxHash tx.
Proof.
  intros Hl Ho. destruct (decide (o ∈ (tx_coins tx h).*1)) as [Hin|Hnin]; [right; by eapply coin_outs_hash|]. left.
  destruct (l !! o) as [x|] eqn:Hx; [by exists x|]. exfalso. unfold ledger_tx in Hl. destruct (IsCoinBaseTx tx).
  - injection Hl as _ <-. rewrite lookup_add_coins_ne, Hx in Ho by done. by destruct Ho.
  - destruct (spend_coins _ l) as [[cs1 l1]|] eqn:Hs; [|done]. injection Hl as _ <-.
    rewrite lookup_add_coins_ne, (spend_coins_None _ _ _ _ _ Hs Hx) in Ho by done. by destruct Ho.
Qed.

Lemma ledger_txs_origin txs : forall l cs l' o,
  ledger_txs txs h l = Some (cs, l') -> is_Some (l' !! o) -> is_Some (l !! o) \/ op_Hash o ∈ map TxHash txs.
Proof.
  induction txs as [|tx txs IH]; intros l cs l' o; cbn [ledger_txs map]; [intros [= _ <-]; by left|].
  destruct (ledger_tx tx h l) as [[cs1 l1]|] eqn:Ht; [|done]. destruct (ledger_txs txs h l1) as [[cs2 l2]|] eqn:Hts; [|done].
  intros [= _ ->] Ho. destruct (IH _ _ _ o Hts Ho) as [Hl1|]; [|right; by right].
  destruct (ledger_tx_origin _ _ _ _ o Ht Hl1) as [|Ho2]; [by left|rewrite Ho2; right; left].
Qed.

(** The transactions that were taken, by their descriptors. *)
Definition taken (d : TxDesc) : Prop :=
  d ∈ source_descs source /\ IsCoinBaseTx (td_Tx d) = false /\ IsFinalizedTransaction (td_Tx d) h now = true.

(** The state of the second loop; [done] are the items that left the queue for
    good, [chosen] the descriptors of the transactions of the block. *)
Record sel_ok (items0 : list txPrioItem) (dependers : gmap Hash (gmap Hash nat)) (done : list nat)
    (chosen : list TxDesc) (st : sel_state) : Prop := {
  sel_length : length (s_items st) = length items0;
  sel_items : forall id, same_item (item_at items0 id) (item_at (s_items st) id);
  sel_queue : NoDup (s_queue st ++ done);
  sel_ready : ready (s_items st) (s_queue st ++ done);
  sel_heap : is_heap (lessFunc (s_sortedByFee st) (s_items st)) (s_queue st);
  sel_linked : linked (s_items st) dependers
                 (fun k id => waits_in (s_items st) k id \/ k ∈ map TxHash (s_txns st));
  sel_txns : s_txns st = map td_Tx chosen;
  sel_fees : s_txFees st = map td_Fee chosen;
  sel_chosen : forall d, d ∈ chosen -> taken d /\ exists id, id ∈ done /\ item_hash (item_at items0 id) = desc_hash d;
  sel_distinct : NoDup (map desc_hash chosen);
  sel_ledger : exists cs l, ledger_txs (s_txns st) h l0 = Some (cs, l) /\ implements db (s_utxos st) l
}.

Section Step.
Context (items0 : list txPrioItem) (dependers : gmap Hash (gmap Hash nat)).
Context (Hsrc : source_ok) (Hitems0 : Forall (item_ok (source_descs source)) items0) (Hdistinct : NoDup (map item_hash items0)).

Lemma item_inj id id' : (id < length items0)%nat -> (id' < length items0)%nat ->
  item_hash (item_at items0 id) = item_hash (item_at items0 id') -> id = id'.
Proof.
  intros Hid Hid' E. apply (NoDup_lookup (map item_hash items0) id id' (item_hash (item_at items0 id))); [done| |].
  - apply list_lookup_fmap_Some. exists (item_at items0 id). split; [done|]. unfold item_at. by destruct (lookup_lt_is_Some_2 items0 id Hid) as [x ->].
  - rewrite E. apply list_lookup_fmap_Some. exists (item_at items0 id'). split; [done|]. unfold item_at. by destruct (lookup_lt_is_Some_2 items0 id' Hid') as [x ->].
Qed.

(** An item that leaves the queue is either done with or put back. *)
Lemma sel_ok_pop done chosen st id queue :
  sel_ok items0 dependers done chosen st ->
  Pop (lessFunc (s_sortedByFee st) (s_items st)) (s_queue st) = Some (id, queue) ->
  s_queue st ≡ₚ id :: queue /\ is_heap (lessFunc (s_sortedByFee st) (s_items st)) queue /\
  Forall (fun id' => lessFunc (s_sortedByFee st) (s_items st) id' id = false) (s_queue st).
Proof.
  intros Hs Hp. destruct (Pop_spec _ (s_queue st) (sel_heap _ _ _ _ _ Hs)) as (x & q & Hp' & Hr).
  { intros E. by rewrite E in Hp. }
  rewrite Hp in Hp'. injection Hp' as <- <-. done.
Qed.

Lemma sel_ok_skip done chosen st id queue b :
  sel_ok items0 dependers done chosen st -> s_queue st ≡ₚ id :: queue ->
  forall queue', queue' ≡ₚ queue -> is_heap (lessFunc b (s_items st)) queue' ->
  sel_ok items0 dependers (id :: done) chosen (set_queue queue' b st).
Proof.
  intros [Hlen Hit Hq Hr Hh Hl Ht Hf Hc Hd Hled] Hperm queue' Hp Hh'.
  assert (E : s_queue st ++ done ≡ₚ queue' ++ id :: done).
  { rewrite Hperm, Hp. by rewrite <- Permutation_middle. }
  split; cbn [s_items s_queue s_sortedByFee s_utxos s_txns s_txFees set_queue]; try done.
  - by rewrite <- E.
  - intros x Hx. apply Hr. by rewrite E.
  - intros d Hin. destruct (Hc d Hin) as [Htk (x & Hx & Hxh)]. split; [done|]. exists x. split; [by right|done].
Qed.

Lemma sel_ok_back done chosen st id queue b :
  sel_ok items0 dependers done chosen st -> s_queue st ≡ₚ id :: queue ->
  forall queue', queue' ≡ₚ id :: queue -> is_heap (lessFunc b (s_items st)) queue' ->
  sel_ok items0 dependers done chosen (set_queue queue' b st).
Proof.
  intros [Hlen Hit Hq Hr Hh Hl Ht Hf Hc Hd Hled] Hperm queue' Hp Hh'.
  assert (E : s_queue st ++ done ≡ₚ queue' ++ done) by (by rewrite Hperm, Hp).
  split; cbn [s_items s_queue s_sortedByFee s_utxos s_txns s_txFees set_queue]; try done.
  - by rewrite <- E.
  - intros x Hx. apply Hr. by rewrite E.
Qed.

(** The dependers of a transaction, as the loop visits them. *)
Lemma dependers_ids done chosen st k :
  sel_ok items0 dependers done chosen st -> (k ∉ map TxHash (s_txns st)) ->
  let deps := range (default ∅ (dependers !! k)) in
  NoDup deps.*2 /\ forall id, id ∈ deps.*2 -> (id < length (s_items st))%nat /\ k ∈ dependsOn (item_at (s_items st) id).
Proof.
  intros Hs Hk deps.
  assert (Hin : forall k' id, (k', id) ∈ deps -> (id < length (s_items st))%nat /\ item_hash (item_at (s_items st) id) = k' /\ k ∈ dependsOn (item_at (s_items st) id)).
  { intros k' id Hin. unfold deps in Hin. rewrite range_perm, elem_of_map_to_list in Hin.
    destruct (dependers !! k) as [m|] eqn:Hm; [|cbn in Hin; by rewrite lookup_empty in Hin].
    destruct (sel_linked _ _ _ _ _ Hs k m k' id Hm Hin) as (Hlt & Hh & [Hw|Hw]); done. }
  split.
  - assert (Hnd : NoDup deps.*1). { unfold deps. rewrite range_perm. apply NoDup_fst_map_to_list. }
    clear -Hin Hnd. induction deps as [|[k' id] deps IH]; [constructor|].
    change (((k', id) :: deps).*2) with (id :: deps.*2). change (((k', id) :: deps).*1) with (k' :: deps.*1) in Hnd.
    apply list.NoDup_cons in Hnd as [Hn Hnd]. apply list.NoDup_cons. split.
    + intros ([k2 id2] & E & Hin2)%list_elem_of_fmap. cbn in E. subst id2. apply Hn.
      destruct (Hin k' id ltac:(left)) as (_ & <- & _). destruct (Hin k2 id ltac:(by right)) as (_ & Hk2 & _).
      apply list_elem_of_fmap. exists (k2, id). split; [by rewrite Hk2|done].
    + apply IH; [|done]. intros k2 id2 H2'. apply Hin. by right.
  - intros id ([k' id'] & -> & Hd)%list_elem_of_fmap. by destruct (Hin k' id' Hd) as (? & _ & ?).
Qed.

Lemma fresh_hash done chosen st id :
  sel_ok items0 dependers done chosen st -> id ∈ s_queue st -> (item_hash (item_at items0 id) ∉ map TxHash (s_txns st)).
Proof.
  intros [Hlen _ Hq Hr _ _ Ht _ Hc _ _] Hid. rewrite Ht, map_map. intros (d & E & Hd)%list_elem_of_fmap.
  destruct (Hc d Hd) as [_ (id' & Hid' & Hh)]. apply list.NoDup_app in Hq as (_ & Hq & _). apply (Hq id Hid).
  replace id with id'; [done|]. apply item_inj.
  - rewrite <- Hlen. apply Hr, elem_of_app. by right.
  - rewrite <- Hlen. apply Hr, elem_of_app. by left.
  - rewrite Hh, E. done.
Qed.

(** A chosen item is complete: its inputs are there, so that none of them was
    unavailable. *)
Lemma chosen_complete done chosen st it :
  sel_ok items0 dependers done chosen st -> item_ok (source_descs source) it ->
  (exists cs l, ledger_txs (s_txns st) h l0 = Some (cs, l) /\ forall o, o ∈ tx_inputs (pi_tx it) -> is_Some (l !! o)) ->
  exists d, taken d /\ pi_tx it = td_Tx d /\ complete d it.
Proof.
  intros Hs (d & Hd & Htx & Hcb & Hf & Hc) (cs & l & Hl & Hin). exists d. split; [done|]. split; [done|].
  destruct Hc as [|(o & Ho & Hno & Hhave)]; [done|]. exfalso. rewrite <- Htx in Ho.
  destruct (ledger_txs_origin _ _ _ _ o Hl (Hin o Ho)) as [[c Hc]|Hh]; [by rewrite Hno in Hc|].
  rewrite (sel_txns _ _ _ _ _ Hs), map_map in Hh. apply list_elem_of_fmap in Hh as (d' & E & Hd').
  destruct (sel_chosen _ _ _ _ _ Hs d' Hd') as [[Hsrc' _] _]. pose proof (src_have Hsrc d' Hsrc') as Hh.
  unfold desc_hash in Hh. by rewrite <- E, Hhave in Hh.
Qed.

Lemma item_at_ok id : (id < length items0)%nat -> item_ok (source_descs source) (item_at items0 id).
Proof.
  intros Hid. destruct (lookup_lt_is_Some_2 items0 id Hid) as [x Hx]. unfold item_at. rewrite Hx. cbn.
  rewrite list.Forall_forall in Hitems0. apply Hitems0. by eapply list_elem_of_lookup_2.
Qed.

Lemma item_ok_same descs it it' : same_item it it' -> item_ok descs it -> item_ok descs it'.
Proof. intros (Ht & Hf & _ & Hk) (d & Hr). exists d. unfold complete in *. by rewrite <- Ht, <- Hf, <- Hk. Qed.

(** The released items still wait for the transactions that are not taken. *)
Lemma linked_release items items' txns tx :
  linked items dependers (fun k id => waits_in items k id \/ k ∈ map TxHash txns) ->
  length items' = length items -> (forall id, same_item (item_at items id) (item_at items' id)) ->
  (forall id k, k <> TxHash tx -> k ∈ dependsOn (item_at items id) -> k ∈ dependsOn (item_at items' id)) ->
  linked items' dependers (fun k id => waits_in items' k id \/ k ∈ map TxHash (txns ++ [tx])).
Proof.
  intros Hl Hlen Hsame Hdep k m k' id Hm Hid. destruct (Hl k m k' id Hm Hid) as (Hlt & Hh & Hw).
  split; [lia|]. split; [destruct (Hsame id) as [E _]; unfold item_hash in *; by rewrite <- E|].
  rewrite map_app, elem_of_app. destruct (decide (k = TxHash tx)) as [->|Hne]; [right; right; left|].
  destruct Hw as [Hw|Hw]; [left; by apply Hdep|right; by left].
Qed.

Lemma sel_ok_add done chosen st id w c fee :
  sel_ok items0 dependers (id :: done) chosen st -> (item_hash (item_at items0 id) ∉ map TxHash (s_txns st)) ->
  CheckTransactionInputs (pi_tx (item_at (s_items st) id)) h (s_utxos st) params = Ok fee ->
  exists d, sel_ok items0 dependers (id :: done) (chosen ++ [d]) (add_to_block h dependers (item_at (s_items st) id) w c st).
Proof.
  intros Hs Hfresh Hfee. pose proof Hs as [Hlen Hit Hq Hr Hh Hl Ht Hf Hc Hd (cs & l & Hled & Himp)].
  destruct (Hr id) as [Hid _]. { apply elem_of_app. right. left. }
  set (it := item_at (s_items st) id) in *.
  assert (Hitok : item_ok (source_descs source) it) by (eapply item_ok_same; [apply Hit|apply item_at_ok; lia]).
  assert (Hhash : item_hash (item_at items0 id) = item_hash it) by (unfold item_hash; by destruct (Hit id) as [-> _]).
  destruct (Hitok) as (d0 & Hd0 & Htx0 & Hcb0 & _). destruct (src_sane Hsrc d0 Hd0) as [Hsane Hops].
  destruct (spend_step params (pi_tx it) h db (s_utxos st) l fee) as (Hav & cs1 & l1 & Hl1 & Himp1); try done; [by rewrite Htx0..|].
  destruct (chosen_complete (id :: done) chosen st it) as (d & Htk & Htx & Hcomp & _); [done|done|by exists cs, l|].
  assert (Ehash : desc_hash d = item_hash it) by (unfold desc_hash, item_hash; by rewrite Htx).
  exists d. unfold add_to_block. destruct (release _ _ _ _ _) as [items' queue'] eqn:Hrel.
  rewrite Hhash in Hfresh. destruct (dependers_ids _ _ _ _ Hs Hfresh) as [Hnd Hdeps].
  destruct (release_ok _ _ _ _ _ (id :: done) _ _ Hnd Hdeps Hq Hr Hh Hrel) as (Hlen' & Hitems' & Hq' & Hr' & Hh').
  assert (Hsame : forall x, same_item (item_at (s_items st) x) (item_at items' x)).
  { intros x. rewrite Hitems'. destruct (decide _); [apply drop_same|done]. }
  split; cbn [s_items s_queue s_sortedByFee s_utxos s_txns s_txFees]; try done.
  - by rewrite Hlen'.
  - intros x. destruct (Hit x) as (E1 & E2 & E3 & E4), (Hsame x) as (F1 & F2 & F3 & F4). repeat split; congruence.
  - eapply linked_release; [exact Hl|done|done|]. intros x k Hne Hk. rewrite Hitems'. destruct (decide _); [|done].
    cbn. set_solver.
  - by rewrite Ht, map_app, Htx.
  - rewrite Hf, map_app. cbn. by rewrite Hcomp.
  - intros d' [Hin|E%list_elem_of_singleton]%elem_of_app; [by apply Hc|]. rewrite E. split; [done|]. exists id. split; [left|].
    by rewrite Hhash, Ehash.
  - rewrite map_app. apply list.NoDup_app. split; [done|]. split; [|apply list.NoDup_singleton].
    intros x Hx E%list_elem_of_singleton. rewrite E in Hx. apply Hfresh. rewrite Ht, map_map.
    rewrite Ehash in Hx. exact Hx.
  - exists (cs ++ cs1), l1. rewrite ledger_txs_app, Hled. cbn [ledger_txs]. rewrite Hl1, app_nil_r. done.
Qed.

Abbreviation item_step := (select_item policy params sigCache h dependers).

(** One iteration: the item is done with, or the queue is now sorted by fee. *)
Lemma select_item_ok done chosen st id queue st' :
  sel_ok items0 dependers done chosen st -> Pop (lessFunc (s_sortedByFee st) (s_items st)) (s_queue st) = Some (id, queue) ->
  item_step id (set_queue queue (s_sortedByFee st) st) = Ok st' ->
  exists chosen', (sel_ok items0 dependers (id :: done) chosen' st' /\ (s_sortedByFee st = true -> s_sortedByFee st' = true)) \/
    (sel_ok items0 dependers done chosen' st' /\ s_sortedByFee st = false /\ s_sortedByFee st' = true).
Proof.
  intros Hs Hpop. destruct (sel_ok_pop _ _ _ _ _ Hs Hpop) as (Hperm & Hheap & _).
  assert (Hskip : sel_ok items0 dependers (id :: done) chosen (set_queue queue (s_sortedByFee st) st)) by (by eapply sel_ok_skip).
  assert (Hfresh : (item_hash (item_at items0 id) ∉ map TxHash (s_txns st))) by (eapply fresh_hash; [done|rewrite Hperm; left]).
  set (st1 := set_queue queue (s_sortedByFee st) st) in *. unfold select_item. cbn zeta.
  change (s_items st1) with (s_items st). change (s_sortedByFee st1) with (s_sortedByFee st).
  destruct (_ || _); [intros [= <-]; exists chosen; by left|].
  destruct (GetSigOpCost _ _ _ _ _) as [cost| |]; [|intros [= <-]; exists chosen; by left|done].
  destruct (_ || _); [intros [= <-]; exists chosen; by left|].
  destruct (_ && _ && _); [intros [= <-]; exists chosen; by left|].
  set (switch := negb (s_sortedByFee st) && _). set (back := switch && _).
  set (st2 := if switch then _ else st1).
  assert (H2' : sel_ok items0 dependers (id :: done) chosen st2 /\ s_items st2 = s_items st /\ s_txns st2 = s_txns st
    /\ s_sortedByFee st2 = s_sortedByFee st || switch /\ s_queue st2 ≡ₚ queue).
  { unfold st2. destruct switch; [|by rewrite orb_false_r]. split; [|rewrite orb_true_r; repeat split; apply Init_perm].
    exact (sel_ok_skip done chosen st id queue true Hs Hperm _ (Init_perm _ _) (Init_heap _ _)). }
  destruct H2' as (Hok2 & Hi2 & Ht2 & Hb2 & Hq2). destruct back eqn:Eback.
  { intros [= <-]. exists chosen. right. assert (Esw : switch = true) by (unfold back in Eback; by destruct switch).
    assert (Eb : s_sortedByFee st = false) by (unfold switch in Esw; by destruct (s_sortedByFee st)).
    split; [|done]. rewrite Esw, orb_true_r in Hb2.
    set (q2 := Push _ _ _). assert (Hp2 : q2 ≡ₚ id :: queue) by (unfold q2; by rewrite Push_perm, Hq2).
    assert (Hh2 : is_heap (lessFunc true (s_items st)) q2).
    { unfold q2. rewrite Hi2. refine (Push_heap _ _ _ _). rewrite <- Hi2, <- Hb2. apply Hok2. }
    clearbody q2. replace (set_queue q2 true st2) with (set_queue q2 true st) by (unfold st2; by destruct switch).
    exact (sel_ok_back done chosen st id queue true Hs Hperm q2 Hp2 Hh2). }
  assert (Hmono : s_sortedByFee st = true -> s_sortedByFee st2 = true) by (intros E; by rewrite Hb2, E).
  destruct (CheckTransactionInputs _ _ _ _) as [fee| |] eqn:Hfee; [|intros [= <-]; exists chosen; by left|done].
  destruct (ValidateTransactionScripts _ _ _ _) as [u| |]; [|intros [= <-]; exists chosen; by left|done].
  intros [= <-]. rewrite <- Hi2, <- ?Ht2 in *.
  destruct (sel_ok_add _ _ _ _ (u32 (GetTransactionWeight (pi_tx (item_at (s_items st2) id)))) cost _ Hok2 Hfresh Hfee) as [d Hd].
  exists (chosen ++ [d]). left. split; [exact Hd|]. intros E. unfold add_to_block. destruct (release _ _ _ _ _). by apply Hmono.
Qed.

Lemma NoDup_below l n : NoDup l -> (forall x, x ∈ l -> (x < n)%nat) -> (length l <= n)%nat.
Proof.
  intros Hnd Hlt. rewrite <- (length_seq n 0). apply submseteq_length, NoDup_submseteq; [done|].
  intros x Hx. apply elem_of_seq. specialize (Hlt x Hx). lia.
Qed.

Lemma sel_done_length done chosen st : sel_ok items0 dependers done chosen st -> (length (s_queue st ++ done) <= length items0)%nat.
Proof.
  intros Hs. apply NoDup_below; [apply Hs|]. intros x Hx. rewrite <- (sel_length _ _ _ _ _ Hs). by apply (sel_ready _ _ _ _ _ Hs).
Qed.

(** The loop ends within its fuel, with an empty queue. *)
Lemma select_loop_ok fuel : forall done chosen st,
  sel_ok items0 dependers done chosen st ->
  (length items0 - length done + (if s_sortedByFee st then 0 else 1) <= fuel)%nat ->
  exists r, select_loop policy params sigCache fuel h dependers st = Some r /\
    forall st', r = Ok st' -> s_queue st' = [] /\ exists done' chosen', sel_ok items0 dependers done' chosen' st'.
Proof.
  induction fuel as [|fuel IH]; intros done chosen st Hs Hfuel; cbn [select_loop];
    pose proof (sel_done_length _ _ _ Hs) as Hlen; rewrite length_app in Hlen.
  - assert (Eq : s_queue st = []) by (destruct (s_queue st); [done|cbn in Hlen; lia]).
    rewrite Eq. cbn. exists (Ok st). split; [done|]. intros st' [= <-]. eauto.
  - destruct (Pop _ _) as [[id queue]|] eqn:Hpop.
    2:{ exists (Ok st). split; [done|]. intros st' [= <-]. split; [|eauto].
        destruct (decide (s_queue st = [])) as [|Hne]; [done|].
        destruct (Pop_spec _ (s_queue st) (sel_heap _ _ _ _ _ Hs) Hne) as (x & q & Hp & _). by rewrite Hpop in Hp. }
    pose proof (sel_ok_pop _ _ _ _ _ Hs Hpop) as (Hperm & _). rewrite Hperm in Hlen. cbn [length] in Hlen.
    destruct (item_step id _) as [st1|e|] eqn:Hstep; [|by eexists|by eexists].
    destruct (select_item_ok _ _ _ _ _ _ Hs Hpop Hstep) as (chosen' & [[Hs1 Hb]|(Hs1 & Hb1 & Hb2)]).
    + apply (IH _ _ _ Hs1). cbn [length]. destruct (s_sortedByFee st); [rewrite Hb by done|destruct (s_sortedByFee st1)]; lia.
    + apply (IH _ _ _ Hs1). rewrite Hb1 in Hfuel. rewrite Hb2. lia.
Qed.

(** The states of the loop. *)
Inductive reaches (st0 : sel_state) : sel_state -> Prop :=
  | reach_start : reaches st0 st0
  | reach_step st id queue st' :
      reaches st0 st -> Pop (lessFunc (s_sortedByFee st) (s_items st)) (s_queue st) = Some (id, queue) ->
      item_step id (set_queue queue (s_sortedByFee st) st) = Ok st' -> reaches st0 st'.

Lemma reaches_ok st0 st done chosen :
  sel_ok items0 dependers done chosen st0 -> reaches st0 st -> exists done' chosen', sel_ok items0 dependers done' chosen' st.
Proof.
  intros Hs. induction 1 as [|st id queue st' _ (done' & chosen' & Hs') Hpop Hstep]; [eauto|].
  destruct (select_item_ok _ _ _ _ _ _ Hs' Hpop Hstep) as (c & [[Hok _]|[Hok _]]); eauto.
Qed.
End Step.

(** ** Limits and fees *)

Definition added (f : MsgTx -> Z) (st : sel_state) : Z := sumZ f (s_txns st).
Definition total_cost (costs : list Z) : Z := sumZ (fun c => c) costs.

(** Weights and costs are exact sums; they respect the limits as soon as there is
    a transaction besides the coinbase. *)
Record within_limits (w0 c0 : Z) (st : sel_state) : Prop := {
  lim_weight : s_weight st = w0 + added (fun tx => u32 (GetTransactionWeight tx)) st;
  lim_sigops : s_sigops st = c0 + total_cost (s_sigOpCosts st);
  lim_nonneg : 0 <= s_sigops st < 2 ^ 63;
  lim_max : s_txns st = [] \/ (s_weight st < BlockMaxWeight policy /\ s_sigops st <= MaxBlockSigOpsCost);
  lim_fees : s_totalFees st = i64 (total_cost (s_txFees st));
  lim_count : length (s_sigOpCosts st) = length (s_txns st)
}.

Lemma within_limits_queue w0 c0 st queue b : within_limits w0 c0 st -> within_limits w0 c0 (set_queue queue b st).
Proof. intros []. by split. Qed.

Lemma GetSigOpCost_range tx view cost : GetSigOpCost tx false view true false = Ok cost -> is_i64 cost.
Proof.
  unfold GetSigOpCost. destruct (CountP2SHSigOps _ _ _) as [n| |]; cbn [andb]; intros [= <-]; [apply i64_range|]. widths; lia.
Qed.

Lemma i64_sum a b : i64 (i64 a + b) = i64 (a + b).
Proof. width_lia. Qed.

(** The overflow checks make the sums exact. *)
Lemma weight_exact w x : is_u32 w -> is_u32 x -> (u32 (w + x) <? w) = false -> u32 (w + x) = w + x.
Proof. intros Hw Hx E. apply Z.ltb_ge in E. width_lia. Qed.
Lemma cost_exact c x : 0 <= c < 2 ^ 63 -> is_i64 x -> (i64 (c + x) <? c) = false -> i64 (c + x) = c + x /\ 0 <= x.
Proof. intros Hc Hx E. apply Z.ltb_ge in E. width_lia. Qed.

Lemma within_limits_add w0 c0 dependers it cost st :
  is_u32 (s_weight st) -> is_i64 cost -> within_limits w0 c0 st ->
  let txWeight := u32 (GetTransactionWeight (pi_tx it)) in
  (u32 (s_weight st + txWeight) <? s_weight st) || (BlockMaxWeight policy <=? u32 (s_weight st + txWeight)) = false ->
  (i64 (s_sigops st + cost) <? s_sigops st) || (MaxBlockSigOpsCost <? i64 (s_sigops st + cost)) = false ->
  within_limits w0 c0 (add_to_block h dependers it txWeight cost st).
Proof.
  intros Hu Hc [Hw Hs Hn Hm Hf Hl] txWeight [E1 E2]%orb_false_iff [E3 E4]%orb_false_iff.
  pose proof (weight_exact _ _ Hu (u32_range _) E1) as Ew. destruct (cost_exact _ _ Hn Hc E3) as [Es Hpos].
  fold txWeight in Ew. apply Z.leb_gt in E2. apply Z.ltb_ge in E4.
  unfold add_to_block. destruct (release _ _ _ _ _) as [items' queue'].
  assert (Hbig : MaxBlockSigOpsCost < 2 ^ 63) by done.
  split; unfold added, total_cost in *; cbn [s_weight s_txns s_sigops s_sigOpCosts s_totalFees s_txFees].
  - rewrite Ew, Hw, sumZ_app. cbn. unfold txWeight. lia.
  - rewrite Es, Hs, sumZ_app. cbn. lia.
  - lia.
  - by right.
  - rewrite Hf, sumZ_app, i64_sum. cbn. f_equal. lia.
  - rewrite !length_app. cbn. lia.
Qed.

Lemma add_weight_range dependers it w c st : is_u32 (s_weight (add_to_block h dependers it w c st)).
Proof. unfold add_to_block. destruct (release _ _ _ _ _). apply u32_range. Qed.

Lemma select_item_limits w0 c0 dependers id st st' :
  is_u32 (s_weight st) -> within_limits w0 c0 st -> select_item policy params sigCache h dependers id st = Ok st' ->
  is_u32 (s_weight st') /\ within_limits w0 c0 st'.
Proof.
  intros Hu Hl. unfold select_item. cbn zeta. destruct (_ || (BlockMaxWeight policy <=? _)) eqn:Ew; [by intros [= <-]|].
  destruct (GetSigOpCost _ _ _ _ _) as [cost| |] eqn:Hc; [|by intros [= <-]|done]. apply GetSigOpCost_range in Hc.
  destruct (_ || (MaxBlockSigOpsCost <? _)) eqn:Es; [by intros [= <-]|]. destruct (_ && _ && _); [by intros [= <-]|].
  set (switch := negb (s_sortedByFee st) && _). set (st2 := if switch then _ else st).
  assert (H2' : within_limits w0 c0 st2 /\ s_weight st2 = s_weight st /\ s_sigops st2 = s_sigops st).
  { unfold st2. destruct switch; [|done]. split; [by apply within_limits_queue|done]. }
  destruct H2' as (Hl2 & Hw2 & Hs2). rewrite <- Hw2 in Hu.
  destruct (switch && _); [intros [= <-]; split; [done|by apply within_limits_queue]|].
  destruct (CheckTransactionInputs _ _ _ _) as [fee| |]; [|by intros [= <-]|done].
  destruct (ValidateTransactionScripts _ _ _ _) as [u| |]; [|by intros [= <-]|done].
  intros [= <-]. split; [apply add_weight_range|]. apply within_limits_add; try done; [by rewrite Hw2|by rewrite Hs2].
Qed.

Lemma select_loop_limits w0 c0 dependers fuel : forall st st',
  is_u32 (s_weight st) -> within_limits w0 c0 st ->
  select_loop policy params sigCache fuel h dependers st = Some (Ok st') -> within_limits w0 c0 st'.
Proof.
  induction fuel as [|fuel IH]; intros st st' Hu Hl; cbn [select_loop]; destruct (Pop _ _) as [[id queue]|];
    try done; try (intros E%(inj Some)%Ok_inj; by subst).
  destruct (select_item _ _ _ _ _ _ _) as [st1| |] eqn:Hstep; [|done|done].
  destruct (select_item_limits w0 c0 dependers id (set_queue queue (s_sortedByFee st) st) st1 Hu (within_limits_queue _ _ _ _ _ Hl) Hstep) as [Hu1 Hl1]. by apply IH.
Qed.

(** ** The selection *)

(** What a selection has found. *)
Definition selected (chosen : list TxDesc) (sel : sel_state) : Prop :=
  s_txns sel = map td_Tx chosen /\ s_txFees sel = map td_Fee chosen /\ Forall taken chosen /\ NoDup (map desc_hash chosen) /\
  exists cs l, ledger_txs (map td_Tx chosen) h l0 = Some (cs, l).

Lemma start_ok b g blockWeight c0 : gen_ok b (source_descs source) g -> implements db NewUtxoViewpoint l0 ->
  sel_ok (g_items g) (g_dependers g) [] [] (mkSel (g_items g) (g_queue g) b (g_utxos g) [] blockWeight c0 0 [] []).
Proof.
  intros [Hdb Hi Hd Hq Hr Hh Hl] Hl0.
  split; cbn [s_items s_queue s_sortedByFee s_utxos s_txns s_txFees]; rewrite ?app_nil_r; try done.
  - intros k m k' id Hm Hid. destruct (Hl k m k' id Hm Hid) as (? & ? & ?). split; [done|]. split; [done|]. by left.
  - by intros d Hd'%not_elem_of_nil.
  - constructor.
  - exists [], l0. split; [done|]. by apply from_db_implements.
Qed.

Lemma considered b g :
  implements db NewUtxoViewpoint l0 -> source_ok ->
  consider_all source b h now db (source_descs source) (mkGen [] [] ∅ NewUtxoViewpoint) = Ok g -> gen_ok b (source_descs source) g.
Proof.
  intros Hl0 Hsrc Hg. apply (consider_all_ok _ _ [] _ _) in Hg; [done|done| |apply gen_start|apply Hsrc].
  apply list.Forall_forall. intros d Hd. apply (src_sane Hsrc d Hd).
Qed.

(** The loop on the result of the first loop: it ends, and every state of it is
    good. *)
Lemma selection_runs b g w0 c0 :
  implements db NewUtxoViewpoint l0 -> source_ok ->
  consider_all source b h now db (source_descs source) (mkGen [] [] ∅ NewUtxoViewpoint) = Ok g ->
  let start := mkSel (g_items g) (g_queue g) b (g_utxos g) [] w0 c0 0 [] [] in
  (exists r, select_loop policy params sigCache (S (length (g_items g))) h (g_dependers g) start = Some r /\
    forall st', r = Ok st' -> s_queue st' = [] /\ exists done chosen, sel_ok (g_items g) (g_dependers g) done chosen st') /\
  forall st, reaches (g_dependers g) start st -> exists done chosen, sel_ok (g_items g) (g_dependers g) done chosen st.
Proof.
  intros Hl0 Hsrc Hg start. pose proof (considered _ _ Hl0 Hsrc Hg) as Hgen.
  pose proof (start_ok _ g w0 c0 Hgen Hl0) as Hstart. fold start in Hstart. split.
  - eapply select_loop_ok; [done|apply Hgen|apply Hgen|exact Hstart|]. cbn [length]. destruct (s_sortedByFee start); lia.
  - intros st Hst. eapply reaches_ok; [done|apply Hgen|apply Hgen|exact Hstart|done].
Qed.

Lemma select_transactions_spec coinbaseTx sel :
  implements db NewUtxoViewpoint l0 -> source_ok -> select_transactions policy params source sigCache h now db coinbaseTx = Ok sel ->
  let w0 := u32 (blockHeaderOverhead * WitnessScaleFactor + GetTransactionWeight coinbaseTx) in
  let c0 := i64 (CountSigOps coinbaseTx * WitnessScaleFactor) in
  0 <= c0 -> within_limits w0 c0 sel /\ exists chosen, selected chosen sel.
Proof.
  intros Hl0 Hsrc Hsel w0 c0 Hc0. unfold select_transactions in Hsel. apply rbind_Ok in Hsel as (g & Hg & Hsel).
  fold w0 c0 in Hsel. destruct (selection_runs _ g w0 c0 Hl0 Hsrc Hg) as [(r & Hr & Hend) _].
  rewrite Hr in Hsel. subst r. destruct (Hend sel eq_refl) as (_ & done & chosen & Hok). split.
  - eapply select_loop_limits; [| |exact Hr]; [apply u32_range|]. split; cbn; try done; try lia; [|by left].
    split; [done|]. pose proof (i64_range (CountSigOps coinbaseTx * WitnessScaleFactor)) as [_ Hlt]. exact Hlt.
  - exists chosen. destruct Hok as [_ _ _ _ _ _ Ht Hf Hc Hd (cs & l & Hled & _)]. split; [done|]. split; [done|].
    split; [|split; [done|exists cs, l; by rewrite <- Ht]]. apply list.Forall_forall. intros d Hin. by apply Hc.
Qed.
End Spec.

(** ** Weights *)

(** The weight of a transaction before it is squeezed into machine words. *)
Definition tx_weight (tx : MsgTx) : Z := 3 * MsgTx_SerializeSizeStripped tx + MsgTx_SerializeSize tx.

Lemma stripped_nonneg tx : 0 <= MsgTx_SerializeSizeStripped tx.
Proof.
  unfold MsgTx_SerializeSizeStripped, baseSize. pose proof (VarIntSerializeSize_le (zlen (tx_TxIn tx))).
  pose proof (VarIntSerializeSize_le (zlen (tx_TxOut tx))).
  assert (0 <= sumZ TxIn_SerializeSize (tx_TxIn tx)).
  { apply sumZ_nonneg. intros i. unfold TxIn_SerializeSize. pose proof (VarIntSerializeSize_le (zlen (ti_SignatureScript i))).
    unfold zlen in *. lia. }
  assert (0 <= sumZ TxOut_SerializeSize (tx_TxOut tx)).
  { apply sumZ_nonneg. intros o. unfold TxOut_SerializeSize. pose proof (VarIntSerializeSize_le (zlen (to_PkScript o))).
    unfold zlen in *. lia. }
  lia.
Qed.

Lemma stripped_le tx : MsgTx_SerializeSizeStripped tx <= MsgTx_SerializeSize tx.
Proof.
  unfold MsgTx_SerializeSize, MsgTx_SerializeSizeStripped. destruct (HasWitness tx); [|lia].
  assert (0 <= sumZ (fun ti => TxWitness_SerializeSize (ti_Witness ti)) (tx_TxIn tx)); [|lia].
  apply sumZ_nonneg. intros i. unfold TxWitness_SerializeSize.
  pose proof (VarIntSerializeSize_le (zlen (ti_Witness i))).
  pose proof (sumZ_nonneg (fun item => VarIntSerializeSize (zlen item) + zlen item) (ti_Witness i)) as Hs.
  assert (0 <= sumZ (fun w => VarIntSerializeSize (zlen w) + zlen w) (ti_Witness i)); [|lia].
  apply Hs. intros x. pose proof (VarIntSerializeSize_le (zlen x)). unfold zlen in *. lia.
Qed.

Lemma weight_u32 tx : MsgTx_SerializeSizeStripped tx <= MaxBlockBaseSize -> MsgTx_SerializeSize tx <= MaxMessagePayload ->
  u32 (GetTransactionWeight tx) = tx_weight tx.
Proof.
  intros Hs Ht. pose proof (stripped_nonneg tx). pose proof (stripped_le tx). unfold GetTransactionWeight, tx_weight.
  change WitnessScaleFactor with 4. change MaxBlockBaseSize with 1000000 in Hs. change MaxMessagePayload with 33554432 in Ht.
  rewrite i64_small by (widths; lia). rewrite u32_small by (widths; lia). lia.
Qed.

Lemma block_weight hdr txs :
  4 * (blockHeaderLen + VarIntSerializeSize (zlen txs)) + sumZ tx_weight txs < 2 ^ 63 -> 0 <= sumZ tx_weight txs ->
  GetBlockWeight (mkMsgBlock hdr txs) = 4 * (blockHeaderLen + VarIntSerializeSize (zlen txs)) + sumZ tx_weight txs.
Proof.
  intros Hlt Hpos. unfold GetBlockWeight, MsgBlock_SerializeSize, MsgBlock_SerializeSizeStripped. cbn [mb_Transactions].
  pose proof (VarIntSerializeSize_le (zlen txs)). change WitnessScaleFactor with 4. unfold blockHeaderLen in *.
  assert (E : sumZ tx_weight txs = 3 * sumZ MsgTx_SerializeSizeStripped txs + sumZ MsgTx_SerializeSize txs).
  { clear. induction txs as [|tx txs IH]; [done|]. change (sumZ tx_weight (tx :: txs)) with (tx_weight tx + sumZ tx_weight txs).
    rewrite IH. unfold tx_weight. cbn. unfold sumZ. lia. }
  rewrite i64_small by (widths; lia). lia.
Qed.
(** ** The template *)

Section Template.
Context `{HashFunctions} `{ScriptHashes} `{Curve} `{MapOrder}.
Context {D : Type} `{UtxoSource D} `{OutPointOrder}.
Context (policy : Policy) (params : Params) (source : TxSource) (sigCache : option SigCache).

(** The coinbase before and after the fees are added. *)
Definition coinbase_of (coinbaseScript pkScript : list byte) (value : Z) : MsgTx :=
  mkMsgTx TxVersion [mkTxIn (mkOutPoint zero_hash MaxPrevOutIndex) coinbaseScript [] MaxTxInSequenceNum]
    [mkTxOut value pkScript] 0.

Lemma createCoinbaseTx_form script h addr cb :
  createCoinbaseTx params script h addr = Ok cb ->
  exists pkScript, cb = coinbase_of script pkScript (CalcBlockSubsidy h (SubsidyReductionInterval params)).
Proof. unfold createCoinbaseTx. intros (pk & _ & Hcb)%rbind_Ok. injection Hcb as <-. by exists pk. Qed.

Lemma coinbase_weight script pk v v' : tx_weight (coinbase_of script pk v) = tx_weight (coinbase_of script pk v').
Proof. done. Qed.
Lemma coinbase_no_witness script pk v :
  MsgTx_SerializeSize (coinbase_of script pk v) = MsgTx_SerializeSizeStripped (coinbase_of script pk v).
Proof. unfold MsgTx_SerializeSize, MsgTx_SerializeSizeStripped. assert (HasWitness (coinbase_of script pk v) = false) as -> by done. lia. Qed.

(** The weight the selection counts is at least that of the block. *)
Lemma template_weight h now chosen sel hdr script pk v v' c0 :
  let cb := coinbase_of script pk v in
  let block := mkMsgBlock hdr (coinbase_of script pk v' :: map td_Tx chosen) in
  MsgTx_SerializeSizeStripped cb <= MaxBlockBaseSize -> source_ok source -> Forall (taken source h now) chosen ->
  s_txns sel = map td_Tx chosen ->
  within_limits policy (u32 (blockHeaderOverhead * WitnessScaleFactor + GetTransactionWeight cb)) c0 sel ->
  is_u32 (BlockMaxWeight policy) -> chosen = [] \/ GetBlockWeight block < BlockMaxWeight policy.
Proof.
  intros cb block Hcb Hsrc Htk Htx [Hw _ _ Hmax _ _] Hpol. destruct Hmax as [E|[Hmax _]].
  { left. rewrite Htx in E. by destruct chosen. }
  right. destruct Hpol as [_ Hpol]. change (2 ^ 32) with 4294967296 in Hpol.
  assert (Hsum : added (fun tx => u32 (GetTransactionWeight tx)) sel = sumZ tx_weight (map td_Tx chosen)).
  { unfold added. rewrite Htx. clear - Htk Hsrc. induction Htk as [|d l Hd _ IH]; [done|]. cbn [map].
    unfold sumZ in *. cbn [fold_right map]. cbn. rewrite IH. f_equal. destruct Hd as [Hd _].
    apply weight_u32; [apply (src_sane _ Hsrc d Hd)|by apply (src_size _ Hsrc d Hd)]. }
  assert (Hcbw : u32 (GetTransactionWeight cb) = tx_weight cb).
  { apply weight_u32; [done|]. unfold cb. rewrite coinbase_no_witness. fold cb. change MaxMessagePayload with 33554432.
    change MaxBlockBaseSize with 1000000 in Hcb. lia. }
  pose proof (stripped_nonneg cb). pose proof (coinbase_no_witness script pk v) as Hnw. fold cb in Hnw.
  assert (Htw : tx_weight cb = 4 * MsgTx_SerializeSizeStripped cb) by (unfold tx_weight; lia).
  change MaxBlockBaseSize with 1000000 in Hcb.
  assert (Hpos : 0 <= sumZ tx_weight (map td_Tx chosen)).
  { apply sumZ_nonneg. intros tx. pose proof (stripped_nonneg tx). pose proof (stripped_le tx). unfold tx_weight. lia. }
  assert (Hw0 : u32 (blockHeaderOverhead * WitnessScaleFactor + GetTransactionWeight cb) = 728 + tx_weight cb).
  { change (blockHeaderOverhead * WitnessScaleFactor) with 728. rewrite <- Hcbw.
    rewrite <- Hcbw in Htw. width_lia. }
  pose proof (VarIntSerializeSize_le (zlen (coinbase_of script pk v' :: map td_Tx chosen))) as Hv.
  assert (Hall : sumZ tx_weight (coinbase_of script pk v' :: map td_Tx chosen) = tx_weight cb + sumZ tx_weight (map td_Tx chosen)) by done.
  unfold block. rewrite block_weight; unfold blockHeaderLen; rewrite ?Hall; lia.
Qed.

(** What a template says. *)
Record template_ok (best : BestLastCandidate) (now : Z) (l0 : gmap OutPoint coin) (t : BlockTemplate) (chosen : list TxDesc) : Prop := {
  (** the block and the candidate are the same block on top of the best candidate *)
  tmpl_header : mc_Header (bt_Candidate t) = mb_Header (bt_Block t) /\ bh_PrevBlock (mb_Header (bt_Block t)) = best_Hash best;
  tmpl_candidate : mc_Transactions (bt_Candidate t) = mb_Transactions (bt_Block t);
  (** a coinbase that pays subsidy and fees, and the chosen transactions *)
  tmpl_txns : exists script pkScript, mb_Transactions (bt_Block t) =
    coinbase_of script pkScript
      (i64 (CalcBlockSubsidy (bt_Height t) (SubsidyReductionInterval params) + total_cost (map td_Fee chosen)))
    :: map td_Tx chosen;
  tmpl_fees : bt_Fees t = i64 (- total_cost (map td_Fee chosen)) :: map td_Fee chosen;
  (** final transactions of the source, each once *)
  tmpl_taken : Forall (taken source (bt_Height t) now) chosen;
  tmpl_distinct : NoDup (map desc_hash chosen);
  (** in an order in which they are steps of the ledger *)
  tmpl_ledger : exists cs l, ledger_txs (map td_Tx chosen) (bt_Height t) l0 = Some (cs, l);
  (** within the limits *)
  tmpl_weight : chosen = [] \/ GetBlockWeight (bt_Block t) < BlockMaxWeight policy
}.

Lemma template_sound best pool bi (db : D) l0 now addr pubkey signature scale reserved ht t :
  implements db NewUtxoViewpoint l0 -> source_ok source -> is_u32 (BlockMaxWeight policy) ->
  NewBlockTemplate policy params source sigCache (Some best) pool bi db now addr pubkey signature scale reserved ht = Ok t ->
  (exists chosen, template_ok best now l0 t chosen) /\
  exists pi vb, BlockVerge (E := template_error) scale = Ok pi /\
    checkCandidateSanity pool (bt_Candidate t) (DoubleHashH (bh_Signature (best_Header best))) pi = Ok vb.
Proof.
  intros Hl0 Hsrc Hpol. unfold NewBlockTemplate. set (h := i32 (best_Height best + 1)).
  intros (script & _ & Ht)%rbind_Ok. apply rbind_Ok in Ht as (cb & Hcb & Ht).
  assert (Hcb' : exists pk, cb = coinbase_of script pk (CalcBlockSubsidy h (SubsidyReductionInterval params))).
  { destruct (createCoinbaseTx _ _ _ _) as [x| |] eqn:E; [|done|done]. injection Hcb as ->. by apply createCoinbaseTx_form in E. }
  destruct Hcb' as [pk Ecb]. clear Hcb. apply rbind_Ok in Ht as (sel & Hsel & Ht). apply rbind_Ok in Ht as (paid & Hpaid & Ht).
  rewrite Ecb in Hpaid. apply Ok_inj in Hpaid.
  destruct (merkle_root_of _) as [root|]; [|done]. apply rbind_Ok in Ht as (pi & Hpi & Ht). apply rbind_Ok in Ht as (u & Hcheck & Ht).
  apply Ok_inj in Ht. destruct (CheckConnectBlockTemplate _ _ _ _ _ _ _ _ _ _ _) as [u'| |] eqn:Hc; [|done|done]. clear Hcheck u.
  unfold CheckConnectBlockTemplate in Hc. destruct (negb _); [done|]. apply rbind_Ok in Hc as (vb & Hvb & _).
  assert (Hsane : Forall tx_sane (paid :: s_txns sel)).
  { unfold checkCandidateSanity in Hvb. apply rbind_Ok in Hvb as (vb' & _ & Hb). apply rbind_Ok in Hb as ([] & Hb & _).
    apply check_body_inv in Hb as (first & others & Htx & _ & _ & Hs & _). exact Hs. }
  apply list.Forall_cons in Hsane as [Hsane _]. apply sane_size in Hsane. rewrite <- Hpaid in Hsane.
  change (MsgTx_SerializeSizeStripped (coinbase_of script pk (CalcBlockSubsidy h (SubsidyReductionInterval params))) <= MaxBlockBaseSize) in Hsane.
  rewrite <- Ecb in Hsane.
  assert (Hc0 : 0 <= i64 (CountSigOps cb * WitnessScaleFactor)).
  { pose proof (CountSigOps_bound cb). change WitnessScaleFactor with 4. change MaxBlockBaseSize with 1000000 in Hsane. width_lia. }
  destruct (select_transactions_spec policy params source sigCache h now db l0 cb sel Hl0 Hsrc Hsel Hc0) as [Hlim (chosen & Htx & Hfees & Htk & Hnd & Hled)].
  pose proof (lim_fees _ _ _ _ Hlim) as Htotal. rewrite Hfees in Htotal.
  split; [|exists pi, vb; rewrite <- Ht; done]. exists chosen. rewrite <- Ht.
  split; cbn [bt_Block bt_Candidate bt_Fees bt_Height mb_Header mc_Header mb_Transactions mc_Transactions bh_PrevBlock]; try done.
  - exists script, pk. rewrite Htx, <- Hpaid, Htotal. unfold coinbase_of. cbn [to_Value to_PkScript tx_Version tx_TxIn tx_LockTime].
    do 4 f_equal. width_lia.
  - rewrite Htotal, Hfees. f_equal. width_lia.
  - subst cb. rewrite Htx, <- Hpaid. eapply template_weight; done.
Qed.

(** ** The pool and the chain as they come *)

(** Transactions as they come off the wire. *)
Definition wire_tx (tx : MsgTx) : Prop := Forall outpoint_ok (tx_inputs tx) /\ MsgTx_SerializeSize tx <= MaxMessagePayload.

Lemma mempool_source_ok relay mp :
  mempool_ok relay mp -> map_Forall (fun _ d => wire_tx (td_Tx d)) (pool mp) -> source_ok (mempool_source mp).
Proof.
  intros Hm Hw.
  assert (Hin : forall d, d ∈ source_descs (mempool_source mp) -> pool mp !! desc_hash d = Some d).
  { intros d ([k d'] & -> & Hd)%list_elem_of_fmap. rewrite range_perm, elem_of_map_to_list in Hd. cbn.
    unfold desc_hash. by rewrite (po_hash _ (mo_pool _ _ Hm) _ _ Hd). }
  split.
  - change (NoDup (map desc_hash (range (pool mp)).*2)).
    replace (map desc_hash (range (pool mp)).*2) with ((range (pool mp)).*1).
    + rewrite range_perm. apply NoDup_fst_map_to_list.
    + change (map desc_hash (range (pool mp)).*2) with (desc_hash <$> (range (pool mp)).*2). rewrite <- list_fmap_compose.
      apply list_fmap_ext. intros i [k d] Hk. cbn. apply list_elem_of_lookup_2 in Hk.
      rewrite range_perm, elem_of_map_to_list in Hk. unfold desc_hash. by rewrite (po_hash _ (mo_pool _ _ Hm) _ _ Hk).
  - intros d Hd. cbn. unfold haveTransaction, isTransactionInPool. rewrite bool_decide_eq_true_2; [done|]. exists d. by apply Hin.
  - intros d Hd%Hin. split; [apply (mo_valid _ _ Hm _ _ Hd)|apply (Hw _ _ Hd)].
  - intros d Hd%Hin. apply (Hw _ _ Hd).
Qed.
End Template.

(** ** Properties *)

(** building a block template ends, and takes transactions in the order
    of the queue: the loop that chooses transactions leaves within one step more
    than there are items (an item leaves the queue once, and one of them a second
    time when the order changes from priority to fees), and in every state of the
    loop the item it takes off is one that no other item of the queue goes before
    in the order that holds at that point. *)
Theorem selection_terminates_in_order `{HashFunctions, ScriptHashes, Curve, MapOrder} {D} `{UtxoSource D, OutPointOrder}
    policy params source sigCache h now (db : D) l0 sortedByFee g w0 c0 :
  implements db NewUtxoViewpoint l0 -> source_ok source ->
  consider_all source sortedByFee h now db (source_descs source) (mkGen [] [] ∅ NewUtxoViewpoint) = Ok g ->
  let start := mkSel (g_items g) (g_queue g) sortedByFee (g_utxos g) [] w0 c0 0 [] [] in
  (exists r, select_loop policy params sigCache (S (length (g_items g))) h (g_dependers g) start = Some r) /\
  forall st id queue, reaches policy params sigCache h (g_dependers g) start st ->
    Pop (lessFunc (s_sortedByFee st) (s_items st)) (s_queue st) = Some (id, queue) ->
    s_queue st ≡ₚ id :: queue /\ Forall (fun id' => lessFunc (s_sortedByFee st) (s_items st) id' id = false) (s_queue st).
Proof.
  intros Hl0 Hsrc Hg start. destruct (selection_runs policy params source sigCache h now db l0 _ g w0 c0 Hl0 Hsrc Hg) as [(r & Hr & _) Hall].
  split; [by exists r|]. intros st id queue Hst Hpop. destruct (Hall st Hst) as (done & chosen & Hok).
  eapply sel_ok_pop in Hok as (Hp & _ & Hmin); [|exact Hpop]. done.
Qed.

(** C31: what a block template is, for a source of distinct, sane transactions:
    block and candidate are the same block, with the best candidate as its
    previous block; behind the coinbase, which pays the subsidy and the fees the
    source has recorded for the chosen transactions (as an int64), come final
    transactions of the source, each once and none of them with an input that is
    neither in the chain nor in the source, in an order in which each spends
    outputs of the chain or of earlier transactions of the block that are not
    spent yet; if any was chosen the block stays below the weight of the policy;
    and the candidate passes the sanity check of the nodes that receive it.  The
    chain is the one in the database, without the best candidate: see
    [template_repeats_candidate]. *)
Theorem block_template_sound `{HashFunctions, ScriptHashes, Curve, MapOrder} {D} `{UtxoSource D, OutPointOrder}
    policy params source sigCache best pool bi (db : D) l0 now addr pubkey signature scale reserved ht t :
  implements db NewUtxoViewpoint l0 -> source_ok source -> is_u32 (BlockMaxWeight policy) ->
  NewBlockTemplate policy params source sigCache (Some best) pool bi db now addr pubkey signature scale reserved ht = Ok t ->
  (exists chosen, template_ok policy params source best now l0 t chosen) /\
  exists pi vb, BlockVerge (E := template_error) scale = Ok pi /\
    checkCandidateSanity pool (bt_Candidate t) (DoubleHashH (bh_Signature (best_Header best))) pi = Ok vb.
Proof. apply template_sound. Qed.

(** The same for the transaction pool of a node and the database of its chain. *)
Corollary pool_template_sound `{HashFunctions, ScriptHashes, Curve, MapOrder, OutPointOrder, MathPow}
    policy params relay mp sigCache best cands bi s tip l now addr pubkey signature scale reserved ht t :
  store_ok s tip l -> pool_reachable relay mp -> map_Forall (fun _ d => wire_tx (td_Tx d)) (pool mp) -> is_u32 (BlockMaxWeight policy) ->
  NewBlockTemplate policy params (mempool_source mp) sigCache (Some best) cands bi (s_db s) now addr pubkey signature scale reserved ht = Ok t ->
  exists chosen, template_ok policy params (mempool_source mp) best now l t chosen.
Proof.
  intros Hs Hr Hw Hp Ht. eapply template_sound in Ht as [Hc _]; [exact Hc| |eapply mempool_source_ok; [by eapply reachable_ok|done]|done].
  intros o Ho. unfold view_coin. cbn. rewrite lookup_empty. by apply (so_ledger _ _ _ Hs).
Qed.

(** ** The transactions of the best candidate *)

Section Repeats.
Context `{HashFunctions}.

(** An output that a block spends is gone after the block, and stays away until
    its transaction is there again. *)
Lemma ledger_txs_None txs h l cs l' o :
  ledger_txs txs h l = Some (cs, l') -> l !! o = None -> (op_Hash o ∉ map TxHash txs) -> l' !! o = None.
Proof.
  intros Hl Hn Hh. destruct (l' !! o) as [c|] eqn:Hc; [|done]. exfalso.
  destruct (ledger_txs_origin h txs _ _ _ o Hl) as [[x Hx]|]; [by exists c| |done]. by rewrite Hn in Hx.
Qed.

Lemma ledger_txs_spent txs h l cs l' tx o :
  ledger_txs txs h l = Some (cs, l') -> tx ∈ txs -> IsCoinBaseTx tx = false -> o ∈ tx_inputs tx ->
  (op_Hash o ∉ map TxHash txs) -> l' !! o = None.
Proof.
  intros Hl (pre & post & ->)%list_elem_of_split Hcb Ho Hn.
  rewrite ledger_txs_app in Hl. destruct (ledger_txs pre h l) as [[cs1 l1]|]; [|done]. cbn [ledger_txs] in Hl.
  destruct (ledger_tx tx h l1) as [[cs2 l2]|] eqn:Htx; [|done]. destruct (ledger_txs post h l2) as [[cs3 l3]|] eqn:Hpost; [|done].
  injection Hl as _ <-. rewrite map_app, elem_of_app in Hn. cbn [map] in Hn. rewrite elem_of_cons in Hn.
  eapply ledger_txs_None; [exact Hpost| |tauto].
  unfold ledger_tx in Htx. rewrite Hcb in Htx. destruct (spend_coins _ l1) as [[cs4 l4]|] eqn:Hs; [|done]. injection Htx as _ <-.
  rewrite lookup_add_coins_ne by (intros Hin%coin_outs_hash; tauto). by eapply spend_coins_gone.
Qed.

Lemma spend_coins_absent os : forall l o, o ∈ os -> l !! o = None -> spend_coins os l = None.
Proof.
  induction os as [|i os IH]; intros l o; cbn [spend_coins]; [by intros Ho%not_elem_of_nil|].
  intros [->|Ho]%elem_of_cons Hl; [by rewrite Hl|]. destruct (l !! i); [|done]. rewrite (IH _ o Ho); [done|].
  destruct (decide (i = o)) as [->|]; [apply lookup_delete_eq|by rewrite lookup_delete_ne].
Qed.

(** Two blocks with a common transaction that spends an older output: the second
    is no step of the ledger after the first. *)
Lemma repeated_transaction txs1 txs2 h1 h2 l cs l1 tx o :
  ledger_txs txs1 h1 l = Some (cs, l1) -> tx ∈ txs1 -> tx ∈ txs2 -> IsCoinBaseTx tx = false -> o ∈ tx_inputs tx ->
  (op_Hash o ∉ map TxHash txs1) -> (op_Hash o ∉ map TxHash txs2) -> ledger_txs txs2 h2 l1 = None.
Proof.
  intros Hl H1 H2 Hcb Ho Hn1 Hn2. pose proof (ledger_txs_spent _ _ _ _ _ _ _ Hl H1 Hcb Ho Hn1) as Hgone.
  apply list_elem_of_split in H2 as (pre & post & ->). rewrite map_app, elem_of_app in Hn2. rewrite ledger_txs_app.
  destruct (ledger_txs pre h2 l1) as [[cs' l2]|] eqn:Hpre; [|done]. cbn [ledger_txs]. unfold ledger_tx. rewrite Hcb.
  rewrite (spend_coins_absent _ _ o Ho); [done|]. eapply ledger_txs_None; [exact Hpre|done|tauto].
Qed.
End Repeats.

Section Witnesses.
#[local] Existing Instance prefix_hash_functions | 0.
#[local] Existing Instance prefix_script_hashes.
#[local] Existing Instance accepting_curve.
#[local] Existing Instance list_order.
#[local] Existing Instance elements_order.
#[local] Existing Instance entry_source.

(** A source with a transaction that spends the coin of the chain, and one that
    spends an output of it and pays better. *)
Definition parent_tx : MsgTx :=
  mkMsgTx 1 [mkTxIn sample_coin_out [] [] MaxTxInSequenceNum] [mkTxOut 500 [x51]; mkTxOut 400 [x51]] 0.
Definition child_tx : MsgTx :=
  mkMsgTx 2 [mkTxIn (mkOutPoint (TxHash parent_tx) 1) [] [] MaxTxInSequenceNum] [mkTxOut 350 [x51]] 0.
Definition sample_source : TxSource :=
  mkTxSource [mkTxDesc child_tx 0 1 50 9000 (of_int 0); mkTxDesc parent_tx 0 1 100 1000 (of_int 0)]
    (fun h => bool_decide (h ∈ [TxHash parent_tx; TxHash child_tx])).
Definition sample_policy : Policy := mkMiningPolicy 0 3000000 50000 1000.

(** The best candidate: a block at height 1 that has the first of them. *)
Definition held_candidate : MsgCandidate :=
  let h := mc_Header sample_candidate in
  mkMsgCandidate (mkBlockHeader 1 zero_hash zero_hash 1600000000 (bh_Signature h) (bh_PublicKey h) 0 0)
    [coinbase_of [x51; x00] [x51] 5000; parent_tx] 1.
Definition held_best : BestLastCandidate :=
  mkBest (MsgCandidate_BlockHash held_candidate) 1 (mc_Header held_candidate) 1.

Abbreviation sample_template :=
  (NewBlockTemplate sample_policy sample_params sample_source None (Some held_best) [held_candidate] newBlockIndex sample_db
     1600000010 None (bh_PublicKey (mc_Header sample_candidate)) (bh_Signature (mc_Header sample_candidate)) 10 0 2).

Lemma sample_template_built : exists t, sample_template = Ok t /\ tail (mb_Transactions (bt_Block t)) = [parent_tx; child_tx] /\
  (op_Hash sample_coin_out ∉ map TxHash (mb_Transactions (bt_Block t))).
Proof.
  assert (E : match sample_template with
              | Ok t => bool_decide (tail (mb_Transactions (bt_Block t)) = [parent_tx; child_tx]) &&
                        bool_decide (op_Hash sample_coin_out ∉ map TxHash (mb_Transactions (bt_Block t)))
              | _ => false end = true) by (vm_compute; reflexivity).
  destruct sample_template as [t| |]; [|done|done]. exists t. apply andb_true_iff in E as [E1 E2].
  split; [done|]. by apply bool_decide_eq_true_1 in E1, E2.
Qed.

Lemma sample_source_ok : source_ok sample_source.
Proof.
  split.
  - apply (bool_decide_unpack _). vm_compute. exact I.
  - intros d [->|[->|Hd%not_elem_of_nil]%elem_of_cons]%elem_of_cons; [reflexivity|reflexivity|done].
  - intros d [->|[->|Hd%not_elem_of_nil]%elem_of_cons]%elem_of_cons; [| |done];
      (split; [apply CheckTransactionSanity_iff; vm_compute; reflexivity|]); apply Forall_singleton; split; reflexivity || (split; vm_compute; congruence).
  - intros d [->|[->|Hd%not_elem_of_nil]%elem_of_cons]%elem_of_cons; [vm_compute; discriminate|vm_compute; discriminate|done].
Qed.

Lemma sample_policy_ok : is_u32 (BlockMaxWeight sample_policy).
Proof. split; [discriminate|reflexivity]. Qed.

Lemma block_template_sound_witness : exists t chosen,
  sample_template = Ok t /\ template_ok sample_policy sample_params sample_source held_best 1600000010 sample_ledger t chosen.
Proof.
  destruct sample_template_built as (t & Ht & _ & _). exists t.
  destruct (block_template_sound sample_policy sample_params sample_source None held_best [held_candidate] newBlockIndex sample_db
    sample_ledger 1600000010 None (bh_PublicKey (mc_Header sample_candidate)) (bh_Signature (mc_Header sample_candidate)) 10 0 2 t
    sample_implements sample_source_ok sample_policy_ok Ht) as [[chosen Hc] _].
  exists chosen. split; [exact Ht|exact Hc].
Defined.

(** A template takes the transactions of the best candidate a second time: the
    best candidate is not yet in the chain, the source still has its transactions,
    and their inputs are looked up in the chain.  Here the template on top of a
    candidate with [parent_tx] has [parent_tx] again; it passes all checks of
    [CheckConnectBlockTemplate], but after the candidate is written to the chain
    the block is no step of the ledger any more. *)
Theorem template_repeats_candidate : exists t cs l1,
  sample_template = Ok t /\ bh_PrevBlock (mb_Header (bt_Block t)) = MsgCandidate_BlockHash held_candidate /\
  parent_tx ∈ mc_Transactions held_candidate /\ parent_tx ∈ mb_Transactions (bt_Block t) /\
  ledger_txs (mc_Transactions held_candidate) 1 sample_ledger = Some (cs, l1) /\
  ledger_txs (mb_Transactions (bt_Block t)) 2 l1 = None.
Proof.
  destruct sample_template_built as (t & Ht & Htx & Hno).
  assert (Hl : exists cs l1, ledger_txs (mc_Transactions held_candidate) 1 sample_ledger = Some (cs, l1)).
  { assert (E : bool_decide (is_Some (ledger_txs (mc_Transactions held_candidate) 1 sample_ledger)) = true) by (vm_compute; reflexivity).
    apply bool_decide_eq_true_1 in E as [[cs l1] E]. by exists cs, l1. }
  destruct Hl as (cs & l1 & Hl). exists t, cs, l1. split; [done|].
  destruct (template_sound sample_policy sample_params sample_source None held_best [held_candidate] newBlockIndex sample_db
    sample_ledger _ _ _ _ _ _ _ t sample_implements sample_source_ok sample_policy_ok Ht) as [[chosen [[_ Hprev] _ _ _ _ _ _ _]] _].
  split; [exact Hprev|]. assert (Hin : parent_tx ∈ mb_Transactions (bt_Block t)).
  { destruct (mb_Transactions (bt_Block t)) as [|x l]; [done|]. cbn [tail] in Htx. rewrite Htx. right. left. }
  assert (Hheld : parent_tx ∈ mc_Transactions held_candidate) by (right; left).
  do 3 (split; [done|]). eapply (repeated_transaction _ _ 1 2 sample_ledger _ _ parent_tx sample_coin_out Hl Hheld Hin); [done|left| |done].
  apply (bool_decide_unpack _). vm_compute. exact I.
Qed.

Lemma sample_considered : exists g,
  consider_all sample_source false 2 1600000010 sample_db (source_descs sample_source) (mkGen [] [] ∅ NewUtxoViewpoint) = Ok g.
Proof.
  assert (E : match consider_all sample_source false 2 1600000010 sample_db (source_descs sample_source) (mkGen [] [] ∅ NewUtxoViewpoint) with
              | Ok _ => true | _ => false end = true) by (vm_compute; reflexivity).
  destruct (consider_all _ _ _ _ _ _ _) as [g| |]; [by exists g|done|done].
Qed.

Lemma selection_terminates_in_order_witness : exists g,
  consider_all sample_source false 2 1600000010 sample_db (source_descs sample_source) (mkGen [] [] ∅ NewUtxoViewpoint) = Ok g /\
  exists r, select_loop sample_policy sample_params None (S (length (g_items g))) 2 (g_dependers g)
    (mkSel (g_items g) (g_queue g) false (g_utxos g) [] 1000 0 0 [] []) = Some r.
Proof.
  destruct sample_considered as [g Hg]. exists g. split; [exact Hg|].
  exact (proj1 (selection_terminates_in_order sample_policy sample_params sample_source None 2 1600000010 sample_db sample_ledger false g 1000 0
    sample_implements sample_source_ok Hg)).
Defined.
End Witnesses.
